(* ===== verification/_CoqProject ===== *)
-Q . S2P
Prelude.v
JsNumber.v
JsInteger.v
JsCollections.v
Json.v
JsonText.v
Regex.v
HttpStatusRules.v
ModelMapping.v
Permissions.v
ManagementAccess.v
AuthStore.v
AuthSession.v
HttpClient.v
BillingExpr.v
BillingRules.v
AdvancedCustom.v
AdvancedCustomText.v
AdvancedCustomTextProofs.v
RouteEditor.v
RouteEditorProofs.v
RouteEditorReach.v
Playground.v
StreamController.v
ChatHandler.v
ChatTransport.v
Flow.v
FlowProofs.v
RatioSync.v
RatioSyncProofs.v
Pricing.v
PricingProofs.v
GroupPricing.v
GroupPricingProofs.v
GroupOverrideProofs.v
GroupRules.v
SettingsSave.v
GroupForm.v
TierExpr.v
TierExprProofs.v
TieredEditor.v
TieredEditorProofs.v
ParamOverride.v
ParamOverrideProofs.v

NavModules.v
NavModulesProofs.v
SidebarView.v
SidebarViewProofs.v
LegacyRoutes.v
ChannelForm.v
ChannelFormProofs.v
ChannelSubmit.v
