(* ===== verification/Prelude.v ===== *)
(** * The web client of micross-api

    micross-api is a gateway for language models: a Go server with a TypeScript
    client (src/web/src).  This library models the client's own logic, the
    pure and stateful code behind its screens, and proves it correct.

    ** The program and its model

    The language first.  [Prelude] has JavaScript strings (lists of UTF-16 code
    units, with string literals and the methods the code uses), [JsNumber] the
    Number type (binary64 of the Standard Library, with parsing and printing),
    [JsInteger] the exactness of its arithmetic on integers below 2^53,
    [JsCollections] Map and sort, [Json] plain objects in property order,
    JSON.parse and JSON.stringify, [JsonText] indented JSON and that every
    printed text reads back, and [Regex] a backtracking matcher in the style of
    ECMAScript.  On top of it, one file per component, with a second file for
    the theorems where they are many:

    - [HttpStatusRules]: lib/http-status-code-rules.ts (module StatusCodeRules)
      and features/channels/lib/status-code-risk-guard.ts (StatusCodeRiskGuard).
      Texts such as 500-503,429 become merged ranges; risky redirects of a
      channel are reported.
    - [ModelMapping]: features/channels/lib/model-mapping-validation.ts, the
      model list and the model mapping of a channel.
    - [Permissions]: lib/roles.ts and lib/admin-permissions.ts, who may do what.
    - [ManagementAccess]: features/users/lib/management-access.ts, the console
      sections granted to a user; it uses the roles of [Permissions].
    - [AuthStore]: stores/auth-store.ts and the guards of lib/auth-session.ts
      that admit a server answer.
    - [AuthSession]: lib/auth-session.ts and lib/auth-session-sync.ts.  The
      variables of the module and the store are one record [world]; the
      asynchronous refresh is a state machine whose steps are the stretches of
      code between two await points.  Logins, sign-outs, rotations and expiry
      notices may run between any two steps.
    - [HttpClient]: lib/http-client.ts, the interceptors that attach tokens,
      refresh on a 401 and send again, as steps over the session protocol of
      [AuthSession] (module HttpClient), and the sharing of equal GET requests
      (SharedGet).
    - [BillingExpr]: features/pricing/lib/billing-expr.ts, the registry of
      billing variables, the reader of tiers and the reader and printer of
      request rules; [BillingRules] has its theorems.
    - [AdvancedCustom]: features/channels/lib/advanced-custom.ts, route tables
      of a channel: normalisation, replacement, templates and validation
      (module AdvancedCustom), with the specification and theorems in module
      Routes.
    - [AdvancedCustomText], [AdvancedCustomTextProofs]: the JSON text of such a
      configuration in the same source file, read field by field and printed.
      A text whose fields are not of the declared types is told apart
      (IllTyped) and not followed further.
    - [RouteEditor]: features/channels/components/dialogs/
      advanced-custom-editor-dialog.tsx, the dialog that edits a route table,
      as a state machine over the functions of [AdvancedCustom] and
      [AdvancedCustomText].  [RouteEditorProofs] has the moves and the order of
      the rows, [RouteEditorReach] the invariant of the reachable states, the
      keys, the text tab and saving.
    - [Playground]: features/playground/lib, messages, think tags, streaming,
      timing, conversations, payloads and stream events (module Playground),
      with the theorems in module Chat.
    - [StreamController]: createStreamRequestController of
      features/playground/hooks/use-stream-request.ts, a state machine over
      sends, stops, header promises and events of old and new sources.  It
      reads events with the functions of [Playground].
    - [ChatHandler]: the hooks features/playground/hooks/use-chat-handler.ts and
      use-playground-conversation.ts (module ChatHandler): buffered pieces, the
      flush timer, requests with and without streaming, stopping.  React is a
      queue of updaters that are run later or, when the queue is empty, at
      once.  The transport is the class [StreamTransport]; the theorems
      (module ChatBuffer) are proved against its laws and against an abstract
      view of the conversation that the updaters refine (run_update_view).
    - [ChatTransport]: the streaming controller is an instance of
      [StreamTransport]; with it, the flag the chat shows (isGenerating).
    - [Flow], [FlowProofs]: features/dashboard/lib/flow.ts and flow-selection.ts,
      the flow graph of the dashboard, from usage rows to nodes, links, colours
      and filters.
    - [RatioSync], [RatioSyncProofs]: features/system-settings/models,
      upstream-ratio-sync-helpers.ts, -table.tsx and upstream-ratio-sync.tsx:
      choosing prices of upstream channels and writing them to the options.
    - [Pricing], [PricingProofs]: the editor of model prices in the same
      directory, pricing-format.ts, model-pricing-core.ts,
      model-pricing-snapshots.ts, model-pricing-sheet.tsx and
      model-ratio-visual-editor.tsx: option texts to rows, a row to the panel
      with its prices and ratios, and back to the option texts.  Expressions
      are split and combined by [BillingExpr].
    - [GroupPricing], [GroupPricingProofs], [GroupOverrideProofs]:
      group-ratio-visual-editor.tsx of the same directory: the table of groups
      (GroupTable), special ratios (GroupOverrides), the order of automatic
      assignment (AutoGroups) and the details of a group (GroupDetails).
    - [GroupRules]: group-special-usable-editor.tsx, rules that show groups to
      or hide them from users of a group.
    - [SettingsSave]: saving of option texts in utils.ts and
      ratio-settings-card.tsx, a state machine over requests, answers and
      reloads, for any type of keys ([SettingKeys]) with the group and the
      model options as instances.
    - [GroupForm]: group-ratio-form.tsx, the form with its two modes, which
      puts the editors of groups and the saving together.
    - [TierExpr], [TierExprProofs]: features/pricing/lib/tier-expr.ts, the tiers
      of the visual editor and the expression printed from them and read back
      with the regular expressions of [Regex].
    - [TieredEditor], [TieredEditorProofs]: tiered-pricing-editor.tsx in
      features/system-settings/models: numeric inputs, tier cards, request
      rules, presets, and the component as a state machine (module Editor).
      [commit] is one rendering with its effects, which see the values of that
      rendering and update together; [settle] commits until nothing is set.
      Its two texts belong to the panel of [Pricing] (update_panel).
    - [ParamOverride], [ParamOverrideProofs]: the dialog
      features/channels/components/dialogs/param-override-editor-dialog.tsx,
      its operations, drafts, templates, validation, saved JSON and handlers.

    - [NavModules], [NavModulesProofs]: which pages the header and the sidebar
      show.  lib/nav-modules.ts with the links of hooks/use-top-nav-links.ts and
      the guards of the two public pages (HeaderNav), the settings that control
      them, config.ts and its two forms in features/business-settings/site/sections
      (NavSettings), and hooks/use-sidebar-config.ts (Sidebar), which puts the
      setting of the server under what [ManagementAccess] stored for the user.
    - [SidebarView], [SidebarViewProofs]: the section registries, the workspaces
      and the root navigation (components/layout, hooks/use-sidebar-view.ts and
      use-sidebar-data.ts), with the path patterns as expressions of [Regex],
      and the highlighted entry.
    - [LegacyRoutes]: lib/legacy-route.ts over the URL class of the browser
      ([UrlInterface] with its [UrlLaws]), and the redirects of the settings
      pages.
    - [ChannelForm], [ChannelFormProofs], [ChannelSubmit]:
      features/channels/lib/channel-form.ts with the checks of channel-cost.ts
      and the update request of hooks/use-channel-mutate-form.ts: the form of a
      channel, its schema, the two JSON texts it keeps, and the bodies it sends.
      [ChannelFormProofs] has the stored settings, [ChannelSubmit] accepted
      forms and requests.

    Definitions carry the names of the source.  Errors are values: [option] for
    null and undefined, [sum] or [exn] for code that throws.

    ** What the theorems show

    - Sessions: a refresh always settles (refresh_terminates), within bounds
      (refresh_bounded); a login or sign-out in the meantime makes it harmless
      (stale_refresh_inert, refresh_superseded_forever); its effect on store,
      notification gate and other tabs is known for every outcome
      (refresh_effects), and failures
      of network or server never sign the user out (transient_keeps_session).
      The fields of the store agree in every reachable state
      (session_fields_together), rotations are all or nothing, the expiry
      notice is shown once, and headers never carry an expired token unless a
      refresh just succeeded (fresh_headers_valid).
    - Billing rules: what the editor prints over plain text is read back
      (rules_roundtrip), numeric comparisons of parameters excepted
      (comparisons_not_read_back), and splitting undoes combining
      (split_combine).
    - Streaming: per request, updates and then at most one completion or error
      (callbacks_well_formed), silence after it was overtaken or stopped
      (stale_request_silent), no leaked connection (sources_closed).
    - Chat: a finished stream is shown exactly, under every interleaving of
      pieces, timer, rendering and older requests (streamed_reply_exact),
      unless a piece is mistaken for a repetition (text_depends_on_timer); all
      callbacks of the transport take effect (callbacks_reach_reply), and the
      interface shows it is busy only while a request is under way, which
      ends with the request (busy_only_with_request).
    - Route tables: validation accepts exactly the valid tables and points at
      the first offending route (validation_exact); replacing routes touches
      nothing else; the templates are valid; a configuration is read back from
      its text (config_text_roundtrip).
    - Route editor: what it saves is valid, and it says so when it does not
      save, except where validation throws (saved_config_valid); keys identify
      rows in every reachable state (keys_identify), moves and the repair of
      the order rearrange exactly the declared rows (moves_exact,
      fix_order_exact), forms keep one route per path, so that
      the buttons that move a route stay disabled (forms_cannot_split), the text tab shows the routes and returns them
      (text_tab_faithful), templates are taken over exactly
      (template_applied), and every converter a form offers is accepted
      (converter_choice_acceptable).
    - Status codes: merged ranges denote the same codes (rules_denote), are in
      normal form and survive printing; the guard is exact.
    - Conversations: think tags are separated exactly, streamed text is kept,
      completion is final, message keys stay distinct, edits are local.
    - Settings: permission matrices, sidebar settings and model mappings are
      normalised idempotently and their checks are exact.
    - HTTP client: every event does to the session exactly the operations it
      stands for (client_refines_session); the client
      sends a call at most twice (call_attempts_bounded), announces the expiry
      once (expiry_announced_once), and shares exactly the GETs in flight
      (gets_shared_exactly).
    - Flow graph: the loops build exactly the declared graph
      (flow_graph_totals), well formed (flow_graph_typed); whole units are
      conserved from stage to stage (flow_conserved) and by the limit on nodes
      (flow_stage_totals).
    - Upstream prices: a batch is a sequence of single choices
      (batch_is_sequential), choices never mix billing categories
      (choices_consistent), what is written is known entry by entry
      (sync_exact), and no model moves between fixed price and ratios without
      the dialog, which billing by expression never opens (conflicts_exact).
    - Model prices: a save writes exactly the chosen models, with the entries
      their fields decide (save_exact), an
      untouched model is saved as it was (untouched_save_stable), ratios follow
      the prices on the screen (ratios_follow_prices), rows are marked exactly
      when they changed (changed_rows_exact).
    - Group prices: an edit of the table, once saved, is exactly what the server
      holds, if form and server agreed before and every request is accepted
      (table_saved); edits stay on the screen (table_edits_stick), one
      group does not affect another (other_groups_untouched), opening loses
      nothing (groups_reopen).  Special ratios refine nested finite maps
      (overrides_refined), rules are read back (rules_reopen), and saving sends
      exactly the changes, under reloads and failures (requests_exact).
    - Tiered prices: printed tiers are read back (tiers_roundtrip), but for the
      conditions of the last one and quotes in labels; the effects
      of the editor come to rest with its texts in the panel (editor_settles),
      edits reach the panel (visual_edits_passed_on), reopening changes nothing
      (reopening_stable), added tiers stay readable (add_tier_ok), presets are
      applied exactly after the first change (presets_apply).
    - Navigation: the sidebar enforces what the settings form and the editor of
      management access saved (sidebar_enforces_settings), the longest prefix
      decides (findConfigMapping_longest), whole groups are filtered entry by
      entry (sidebar_shows_exactly), every entry has one switch
      (every_entry_switchable), and is shown only with a visible gate and the
      role of its workspace (workspaces_by_role), path patterns match whole segments
      (workspace_pattern_exact) and at most one entry is highlighted
      (one_entry_active).  The header follows its form, and the report of the
      server on the about page (header_enforces_settings) and agrees with the guards
      (links_match_guards).  Old addresses move at most once
      (legacy_moves_once), present ones never (current_pages_stay).
    - Channel form: saving touches exactly the settings the form owns
      (settings_exact), accepted forms are saved, reopened as saved and settle
      (accepted_settles), an update holds exactly the declared fields
      (request_fields) and no sensitive one without the permission
      (sensitive_withheld).
    - Parameter overrides: what is saved is reopened (override_reopens), and
      saving again changes nothing unless a value is a quoted string
      (quoted_value_changes); the state stays well formed (editor_invariant);
      the visual editor refuses incomplete rules by name, the two text modes
      look at the syntax only (save_complete_or_says).
    - Deviations from what the code means to do are theorems as well:
      token_extra_part_ignored, comparisons_not_read_back,
      malformed_escape_throws, repeated_increment_dropped,
      text_depends_on_timer, stop_completes_reply, sanitize_repairs_last,
      streaming_reply_is_sent, prune_edits_lost, quoted_value_changes,
      open_throws_exactly, fixed_price_sticks, free_input_drops_prices,
      price_drifts, blank_name_saved, complex_expression_lost,
      first_preset_lost, unreadable_rules_erased, first_raw_edit_leaves,
      last_conditions_unprinted, quoted_label_unread, unguarded_tier_printed,
      malformed_price_free, version_dropped,
      numeric_path_accepted, typed_comma_lost, blur_splits_regex,
      first_moved_up_wraps, management_shifts_keys, emptied_ratio_is_free,
      new_group_takes_over, infinite_ratio_stored_as_null, refused_not_retried,
      stale_rules_overwrite, null_text_accepted, group_without_rule_forgotten,
      numeric_flag_hidden, other_numbers_disagree, playground_guard_inert,
      billing_gates_workspace, settings_tabs_arrive, cleared_cost_not_sent.

    ** Bounds and fuel

    JSON.parse runs with fuel [parse_fuel], twice the length of the text plus
    two; [Json] proves that every call consumes input, so more fuel changes
    nothing.  The loops over think tags, outer parentheses and global regular
    expressions consume a code unit per round and get the length of the text.
    [digits] gets the binary logarithm plus one, proved enough.  [drive] of
    [AuthSession], which only the termination theorem uses, gets 18 steps:
    that this is enough is the theorem.  [settle] of [TieredEditor] gets five
    commits, enough by editor_settles.  Times and prices are binary64
    throughout, status codes are integers (see [HttpStatusRules]).

    ** Outside the model

    Parameters: the clock, the URL class of the browser, the identifiers of nanoid, the translation function,
    the URL parser of the browser, the collation of localeCompare, number
    formats of Intl, the colours of the chart library, the lower case of model
    names.  Environment of the state machines: the transport of requests, the
    browser lock, timers, the event source, React.  Left out: markup, React
    components and hooks that only forward, API modules, the schemas (zod) of the other forms,
    formatting through Intl and dayjs, normalizeTierLabel (Unicode case
    mapping), the evaluation of billing expressions by the JavaScript compiler (evalExprLocally), and the Go
    server.  Names inherited from Object.prototype are not modelled, and option
    texts of prices are taken to hold objects. Other helpers of features/channels/lib
    (channel-utils.ts, channel-actions.ts) format values for display or forward
    to endpoints; the other settings forms have
    the shape of [SettingsSave] without state of their own. *)
From stdpp Require Export base list option numbers gmap.

(** * Strings of JavaScript *)

(** A JavaScript string is a sequence of UTF-16 code units. *)
Abbreviation jsstr := (list N) (only parsing).

(** [literal] is the type String Notation goes through: the code units of a
    source literal.  Bytes are decoded from UTF-8; a backquote stands for the
    double quote U+0022, which cannot be written inside a Rocq string here
    (no string of the modelled code contains a backquote). *)
Definition code_units := list N.
Inductive literal := lit_nil | lit_cons (c : N) (r : literal).

Module Literal.

Definition unit_of_byte (n : N) : N := if N.eqb n 96 then 34%N else n.

(** UTF-8 decoding of the literals, three-byte sequences included; four-byte
    sequences do not occur in the modelled code. *)
Fixpoint parse (l : list Byte.byte) : literal :=
  match l with
  | [] => lit_nil
  | a :: l1 =>
      let x := Byte.to_N a in
      if (x <? 128)%N then lit_cons (unit_of_byte x) (parse l1)
      else if (x <? 224)%N then
        match l1 with
        | b :: l2 => lit_cons ((x - 192) * 64 + (Byte.to_N b - 128)) (parse l2)
        | _ => lit_nil
        end
      else
        match l1 with
        | b :: c :: l3 =>
            lit_cons ((x - 224) * 4096 + (Byte.to_N b - 128) * 64 + (Byte.to_N c - 128)) (parse l3)
        | _ => lit_nil
        end
  end%N.

Fixpoint print_units (l : literal) : option (list Byte.byte) :=
  match l with
  | lit_nil => Some []
  | lit_cons c r =>
      match (if N.eqb c 34 then Byte.of_N 96
             else if N.eqb c 96 then None
             else if (c <? 128)%N then Byte.of_N c else None), print_units r with
      | Some b, Some bs => Some (b :: bs)
      | _, _ => None
      end
  end.
Definition print (l : literal) : option (list Byte.byte) :=
  match l with lit_nil => None | _ => print_units l end.

End Literal.

Declare Scope js_scope.
Delimit Scope js_scope with js.
#[warnings="-via-type-remapping,-via-type-mismatch"]
String Notation code_units Literal.parse Literal.print
  (via literal mapping [[nil] => lit_nil, [cons] => lit_cons]) : js_scope.
Open Scope js_scope.

(** The double quote, the backslash and the parentheses by name. *)
Definition dquote : N := 34.
Definition backslash : N := 92.
Definition lparen : N := 40.
Definition rparen : N := 41.

(** [a === b] on strings. *)
Definition str_eqb (a b : jsstr) : bool := bool_decide (a = b).

(** [Boolean(s)]: a string is truthy when it is not empty. *)
Definition truthy (s : jsstr) : bool :=
  match s with [] => false | _ => true end.

(** [a || b] on strings. *)
Definition str_or (a b : jsstr) : jsstr := if truthy a then a else b.

(** [o ?? d]: the default of a nullish value. *)
Definition nullish {A} (o : option A) (d : A) : A := default d o.

(** ** Character classes *)

(** WhiteSpace and LineTerminator of ECMAScript: what [trim] strips and what
    the regular expression class [\s] matches. *)
Definition is_space (c : N) : bool :=
  ((9 <=? c) && (c <=? 13) || (c =? 32) || (c =? 160) || (c =? 5760)
   || (8192 <=? c) && (c <=? 8202) || (c =? 8232) || (c =? 8233)
   || (c =? 8239) || (c =? 8287) || (c =? 12288) || (c =? 65279))%N.

Definition is_digit (c : N) : bool := ((48 <=? c) && (c <=? 57))%N.

(** [a-z], [A-Z], [0-9], [_]: the class of [\w], used by [\b]. *)
Definition is_word (c : N) : bool :=
  (is_digit c || (65 <=? c) && (c <=? 90) || (97 <=? c) && (c <=? 122) || (c =? 95))%N.

Definition is_line_terminator (c : N) : bool :=
  ((c =? 10) || (c =? 13) || (c =? 8232) || (c =? 8233))%N.

(** [toLowerCase] on one unit, restricted to ASCII letters. *)
Definition lower_ascii (c : N) : N :=
  (if (65 <=? c) && (c <=? 90) then c + 32 else c)%N.

(** ** String methods *)

Fixpoint drop_spaces (s : jsstr) : jsstr :=
  match s with
  | c :: t => if is_space c then drop_spaces t else s
  | [] => []
  end.

(** [s.trim()] *)
Definition trim (s : jsstr) : jsstr := reverse (drop_spaces (reverse (drop_spaces s))).

(** The rest of [s] after the prefix [p]. *)
Fixpoint strip_prefix (p s : jsstr) : option jsstr :=
  match p, s with
  | [], _ => Some s
  | a :: p', b :: s' => if N.eqb a b then strip_prefix p' s' else None
  | _ :: _, [] => None
  end.

(** [s.startsWith(p)], [s.endsWith(p)] *)
Definition starts_with (p s : jsstr) : bool :=
  match strip_prefix p s with Some _ => true | None => false end.
Definition ends_with (p s : jsstr) : bool := starts_with (reverse p) (reverse s).

(** [s.indexOf(p)], [None] for -1. *)
Fixpoint index_of (p s : jsstr) : option nat :=
  if starts_with p s then Some 0
  else match s with
       | [] => None
       | _ :: t => S <$> index_of p t
       end.

(** [s.includes(p)] *)
Definition includes (p s : jsstr) : bool :=
  match index_of p s with Some _ => true | None => false end.

(** [s.slice(i, j)] for [0 <= i], [0 <= j]. *)
Definition slice (i j : nat) (s : jsstr) : jsstr := take (j - i) (drop i s).

(** [s.split(c)] for a one-unit separator. *)
Fixpoint split_char (c : N) (s : jsstr) : list jsstr :=
  match s with
  | [] => [[]]
  | d :: t =>
      if N.eqb d c then [] :: split_char c t
      else match split_char c t with
           | w :: ws => (d :: w) :: ws
           | [] => [[d]]
           end
  end.

(** [l.join(sep)] *)
Fixpoint join (sep : jsstr) (l : list jsstr) : jsstr :=
  match l with
  | [] => []
  | [x] => x
  | x :: t => x ++ sep ++ join sep t
  end.

(** [s.replaceAll(c, d)] for single units, also [s.replace(/[c]/g, d)]. *)
Definition replace_char (c d : N) (s : jsstr) : jsstr :=
  map (fun x => if N.eqb x c then d else x) s.

(** [s.toLowerCase()] on ASCII. *)
Definition lower (s : jsstr) : jsstr := map lower_ascii s.

(** [l.filter(Boolean)] on strings. *)
Definition filter_truthy (l : list jsstr) : list jsstr := List.filter truthy l.

(** [Array.from(new Set(l))]: the first occurrence of each element, in order. *)
Fixpoint nub_from {A} `{EqDecision A} (seen l : list A) : list A :=
  match l with
  | [] => []
  | x :: t =>
      if bool_decide (x ∈ seen) then nub_from seen t
      else x :: nub_from (x :: seen) t
  end.
Definition nub {A} `{EqDecision A} (l : list A) : list A := nub_from [] l.

(** [set.has(x)] for a set given by its elements. *)
Definition has {A} `{EqDecision A} (x : A) (l : list A) : bool := bool_decide (x ∈ l).

(** [l.find(f)], [l.findIndex(f)] ([None] for -1). *)
Fixpoint find_index {A} (f : A -> bool) (l : list A) : option nat :=
  match l with
  | [] => None
  | x :: t => if f x then Some 0 else S <$> find_index f t
  end.

(** * Automation *)

Create HintDb jsdb discriminated.

(** Decide the boolean tests of a goal or hypothesis and clean up. *)
Ltac js_cases :=
  repeat (match goal with
          | |- context [if ?b then _ else _] => destruct b eqn:?
          | H : context [if ?b then _ else _] |- _ => destruct b eqn:?
          | |- context [match ?o with Some _ => _ | None => _ end] => destruct o eqn:?
          | H : context [match ?o with Some _ => _ | None => _ end] |- _ => destruct o eqn:?
          end; simplify_eq/=).

(** Reflect boolean connectives and string tests into propositions. *)
Ltac js_reflect :=
  repeat match goal with
         | H : _ && _ = true |- _ => apply andb_true_iff in H; destruct H
         | H : _ || _ = false |- _ => apply orb_false_iff in H; destruct H
         | H : _ || _ = true |- _ => apply orb_true_iff in H
         | H : _ && _ = false |- _ => apply andb_false_iff in H
         | H : negb _ = true |- _ => apply negb_true_iff in H
         | H : negb _ = false |- _ => apply negb_false_iff in H
         | H : bool_decide _ = true |- _ => apply bool_decide_eq_true in H
         | H : bool_decide _ = false |- _ => apply bool_decide_eq_false in H
         | H : str_eqb _ _ = true |- _ => apply bool_decide_eq_true in H
         | H : str_eqb _ _ = false |- _ => apply bool_decide_eq_false in H
         | H : N.eqb _ _ = true |- _ => apply N.eqb_eq in H
         | H : N.eqb _ _ = false |- _ => apply N.eqb_neq in H
         | H : Z.leb _ _ = true |- _ => apply Z.leb_le in H
         | H : Z.leb _ _ = false |- _ => apply Z.leb_gt in H
         | H : Z.ltb _ _ = true |- _ => apply Z.ltb_lt in H
         | H : Z.ltb _ _ = false |- _ => apply Z.ltb_ge in H
         | H : Z.eqb _ _ = true |- _ => apply Z.eqb_eq in H
         | H : Z.eqb _ _ = false |- _ => apply Z.eqb_neq in H
         end.

(** * Lemmas on strings and lists *)

Lemma str_eqb_true a b : str_eqb a b = true <-> a = b.
Proof. apply bool_decide_eq_true. Qed.
Lemma str_eqb_false a b : str_eqb a b = false <-> a <> b.
Proof. apply bool_decide_eq_false. Qed.
Lemma str_eqb_refl a : str_eqb a a = true.
Proof. by apply str_eqb_true. Qed.

Lemma truthy_true s : truthy s = true <-> s <> [].
Proof. by destruct s. Qed.
Lemma truthy_false s : truthy s = false <-> s = [].
Proof. by destruct s. Qed.

(** ** Prefixes and occurrences *)

Lemma strip_prefix_spec p s r : strip_prefix p s = Some r <-> s = p ++ r.
Proof.
  revert s; induction p as [|a p IH]; intros [|b s]; simpl; try (split; congruence).
  destruct (N.eqb_spec a b) as [->|Hne].
  - rewrite IH. split; [intros -> | intros [= ->]]; done.
  - split; congruence.
Qed.
Lemma strip_prefix_app p r : strip_prefix p (p ++ r) = Some r.
Proof. by apply strip_prefix_spec. Qed.
Lemma starts_with_spec p s : starts_with p s = true <-> exists r, s = p ++ r.
Proof.
  unfold starts_with. destruct (strip_prefix p s) as [r|] eqn:E.
  - apply strip_prefix_spec in E. naive_solver.
  - split; [done|]. intros [r ->]. by rewrite strip_prefix_app in E.
Qed.
Lemma starts_with_app p r : starts_with p (p ++ r) = true.
Proof. apply starts_with_spec; eauto. Qed.
Lemma starts_with_head_ne a p b s : a <> b -> starts_with (a :: p) (b :: s) = false.
Proof. intros H. unfold starts_with; simpl. by rewrite (proj2 (N.eqb_neq a b) H). Qed.

(** [index_of] finds the first occurrence. *)
Lemma index_of_some p s i :
  index_of p s = Some i ->
  exists r, s = take i s ++ p ++ r /\
            (forall j, j < i -> starts_with p (drop j s) = false).
Proof.
  revert i; induction s as [|c s IH]; intros i; cbn [index_of].
  - destruct (starts_with p []) eqn:E; [|done]. intros [= <-].
    apply starts_with_spec in E as [r ->]. exists r; split; [done|lia].
  - destruct (starts_with p (c :: s)) eqn:E.
    + intros [= <-]. apply starts_with_spec in E as [r Hr].
      exists r; split; [done|lia].
    + intros (j & Hj & ->)%fmap_Some. destruct (IH _ Hj) as (r & Hs & Hmin).
      exists r; split; [by simpl; f_equal|].
      intros [|k] Hk; [done|]. apply Hmin; lia.
Qed.
Lemma index_of_none p s :
  index_of p s = None -> forall i, starts_with p (drop i s) = false.
Proof.
  induction s as [|c s IH]; cbn [index_of].
  - destruct (starts_with p []) eqn:E; [done|]. intros _ i. by rewrite drop_nil.
  - destruct (starts_with p (c :: s)) eqn:E; [done|].
    intros H%fmap_None [|i]; [done|]. simpl. by apply IH.
Qed.
Lemma includes_spec p s : includes p s = true <-> exists a b, s = a ++ p ++ b.
Proof.
  unfold includes. destruct (index_of p s) as [i|] eqn:E.
  - split; [|done]. intros _. destruct (index_of_some _ _ _ E) as (r & -> & _). eauto.
  - split; [done|]. intros (a & b & ->).
    pose proof (index_of_none _ _ E (length a)) as H.
    by rewrite drop_app_length, starts_with_app in H.
Qed.
Lemma includes_false p s : includes p s = false <-> ~ exists a b, s = a ++ p ++ b.
Proof. rewrite <- includes_spec. by destruct (includes p s). Qed.
Lemma includes_suffix p a b : includes p b = true -> includes p (a ++ b) = true.
Proof. rewrite !includes_spec. intros (x & y & ->). exists (a ++ x), y. by rewrite <- app_assoc. Qed.
Lemma includes_first_unit c p s : c ∉ s -> includes (c :: p) s = false.
Proof.
  intros Hc. apply includes_false. intros (a & b & ->). apply Hc. set_solver.
Qed.

(** ** Trimming *)

(** A string without surrounding white space. *)
Definition trimmed (s : jsstr) : Prop :=
  match s with [] => True | c :: _ => is_space c = false end /\
  match last s with None => True | Some c => is_space c = false end.

Lemma drop_spaces_id c s : is_space c = false -> drop_spaces (c :: s) = c :: s.
Proof. intros H. simpl. by rewrite H. Qed.
Lemma drop_spaces_suffix s : exists w, s = w ++ drop_spaces s /\ Forall (fun c => is_space c = true) w.
Proof.
  induction s as [|c s (w & Hs & Hw)]; simpl; [by exists []|].
  destruct (is_space c) eqn:E.
  - exists (c :: w). simpl. split; [by f_equal|]. by constructor.
  - by exists [].
Qed.
Lemma drop_spaces_head s :
  match drop_spaces s with [] => True | c :: _ => is_space c = false end.
Proof. induction s as [|c s IH]; simpl; [done|]. by destruct (is_space c) eqn:E. Qed.
Lemma drop_spaces_fix s :
  match s with [] => True | c :: _ => is_space c = false end -> drop_spaces s = s.
Proof. destruct s as [|c s]; simpl; [done|]. by intros ->. Qed.

Lemma head_reverse {A} (l : list A) : head (reverse l) = last l.
Proof. by rewrite <- (reverse_involutive l) at 2; rewrite last_reverse. Qed.

Lemma trim_trimmed s : trimmed s -> trim s = s.
Proof.
  intros [Hh Hl]. unfold trim. rewrite (drop_spaces_fix s Hh).
  rewrite drop_spaces_fix; [apply reverse_involutive|].
  rewrite <- head_reverse in Hl. by destruct (reverse s).
Qed.

(** Dropping a suffix of white space keeps the first unit. *)
Lemma trim_is_trimmed s : trimmed (trim s).
Proof.
  unfold trim. pose proof (drop_spaces_head s) as Hh. revert Hh.
  generalize (drop_spaces s); clear s; intros s Hh.
  pose proof (drop_spaces_head (reverse s)) as Ht.
  destruct (drop_spaces_suffix (reverse s)) as (w & Hs & Hw).
  split.
  - destruct (reverse (drop_spaces (reverse s))) as [|c t] eqn:E; [done|].
    apply (f_equal reverse) in Hs. rewrite reverse_involutive, reverse_app, E in Hs.
    by rewrite Hs in Hh.
  - rewrite <- head_reverse, reverse_involutive.
    by destruct (drop_spaces (reverse s)).
Qed.
Lemma trim_idemp s : trim (trim s) = trim s.
Proof. apply trim_trimmed, trim_is_trimmed. Qed.
Lemma trim_nil : trim [] = [].
Proof. done. Qed.
Lemma trim_incl s x : x ∈ trim s -> x ∈ s.
Proof.
  unfold trim. destruct (drop_spaces_suffix s) as (w & Hs & _).
  destruct (drop_spaces_suffix (reverse (drop_spaces s))) as (w' & Hs' & _).
  rewrite elem_of_reverse. intros Hx. rewrite Hs. apply elem_of_app; right.
  rewrite <- elem_of_reverse, Hs'. apply elem_of_app; by right.
Qed.
Lemma trim_nonspace s :
  Forall (fun c => is_space c = false) s -> trim s = s.
Proof.
  intros H. apply trim_trimmed. split.
  - destruct s; [done|]. by inversion H.
  - destruct (last s) eqn:E; [|done]. rewrite Forall_forall in H. apply H.
    by apply last_Some_elem_of.
Qed.

Lemma trim_nonempty s c : c ∈ s -> is_space c = false -> trim s <> [].
Proof.
  intros Hc Hsp Ht. unfold trim in Ht.
  destruct (drop_spaces_suffix s) as (w & Hs & Hw).
  destruct (drop_spaces_suffix (reverse (drop_spaces s))) as (w' & Hs' & Hw').
  apply (f_equal reverse) in Ht. rewrite reverse_involutive in Ht. rewrite Ht, app_nil_r in Hs'.
  rewrite Hs in Hc. apply elem_of_app in Hc as [Hc|Hc].
  - rewrite Forall_forall in Hw. rewrite (Hw c Hc) in Hsp. done.
  - rewrite <- elem_of_reverse, Hs' in Hc. rewrite Forall_forall in Hw'.
    rewrite (Hw' c Hc) in Hsp. done.
Qed.

(** ** Splitting and joining *)

Lemma split_char_nonempty c s : split_char c s <> [].
Proof. destruct s as [|d s]; simpl; [done|]. destruct (N.eqb d c); [done|]. by destruct (split_char c s). Qed.
Lemma split_char_no_sep c s : c ∉ s -> split_char c s = [s].
Proof.
  induction s as [|d s IH]; intros Hc; simpl; [done|].
  apply not_elem_of_cons in Hc as [Hd Hc].
  by rewrite (proj2 (N.eqb_neq d c)), IH by done.
Qed.
Lemma split_char_app c a b : c ∉ a -> split_char c (a ++ c :: b) = a :: split_char c b.
Proof.
  induction a as [|d a IH]; intros Hc; simpl.
  - by rewrite N.eqb_refl.
  - apply not_elem_of_cons in Hc as [Hd Hc].
    by rewrite (proj2 (N.eqb_neq d c)), IH by done.
Qed.
Lemma split_char_not_in c s w : w ∈ split_char c s -> c ∉ w.
Proof.
  revert w; induction s as [|d s IH]; intros w; simpl.
  - intros ->%list_elem_of_singleton. apply not_elem_of_nil.
  - destruct (N.eqb_spec d c) as [->|Hd].
    + intros [->|Hw]%elem_of_cons; [apply not_elem_of_nil | by apply IH].
    + destruct (split_char c s) as [|w' ws].
      * intros ->%list_elem_of_singleton. by intros ->%list_elem_of_singleton.
      * intros [->|Hw]%elem_of_cons; [|by apply IH; right].
        apply not_elem_of_cons; split; [done|]. apply IH; by left.
Qed.

Lemma join_cons sep x l : l <> [] -> join sep (x :: l) = x ++ sep ++ join sep l.
Proof. by destruct l. Qed.

(** Splitting at the separator undoes [join] when no piece contains it. *)
Lemma split_join c l :
  l <> [] -> Forall (fun w => c ∉ w) l -> split_char c (join [c] l) = l.
Proof.
  induction l as [|x l IH]; [done|]. intros _ H. inversion H as [|? ? Hx Hl]; subst.
  destruct l as [|y l]; [by apply split_char_no_sep|].
  rewrite join_cons by done. change ([c] ++ ?k) with (c :: k).
  by rewrite split_char_app, IH by done.
Qed.

(** ** Duplicate removal *)

Section Nub.
Context {A : Type} `{EqDecision A}.

Lemma elem_of_nub_from (seen l : list A) x :
  x ∈ nub_from seen l <-> x ∈ l /\ x ∉ seen.
Proof.
  revert seen; induction l as [|y l IH]; intros seen; simpl; [set_solver|].
  case_bool_decide as Hy.
  - rewrite IH, elem_of_cons. split; [naive_solver|].
    intros [[->|Hx] Hs]; [done|by split].
  - rewrite elem_of_cons, IH, !elem_of_cons.
    destruct (decide (x = y)) as [->|]; tauto.
Qed.
Lemma elem_of_nub (l : list A) x : x ∈ nub l <-> x ∈ l.
Proof. unfold nub. rewrite elem_of_nub_from. set_solver. Qed.
Lemma nub_from_NoDup (seen l : list A) : NoDup (nub_from seen l).
Proof.
  revert seen; induction l as [|y l IH]; intros seen; simpl; [constructor|].
  case_bool_decide; [done|]. constructor; [|done].
  rewrite elem_of_nub_from. set_solver.
Qed.
Lemma nub_NoDup (l : list A) : NoDup (nub l).
Proof. apply nub_from_NoDup. Qed.
Lemma nub_from_id (seen l : list A) :
  NoDup l -> (forall x, x ∈ l -> x ∉ seen) -> nub_from seen l = l.
Proof.
  intros Hl; revert seen; induction Hl as [|x l Hx Hl IH]; intros seen Hs; simpl; [done|].
  rewrite bool_decide_eq_false_2 by (apply Hs; set_solver). f_equal. apply IH.
  intros y Hy. apply not_elem_of_cons. split; [by intros ->|]. apply Hs; set_solver.
Qed.
Lemma nub_id (l : list A) : NoDup l -> nub l = l.
Proof. intros H. apply nub_from_id; set_solver. Qed.
Lemma nub_idemp (l : list A) : nub (nub l) = nub l.
Proof. apply nub_id, nub_NoDup. Qed.

Lemma has_spec (x : A) l : has x l = true <-> x ∈ l.
Proof. apply bool_decide_eq_true. Qed.
Lemma has_spec_false (x : A) l : has x l = false <-> x ∉ l.
Proof. apply bool_decide_eq_false. Qed.
End Nub.

(** ** Boolean filters and searches *)

Lemma elem_of_bfilter {A} (f : A -> bool) l x : x ∈ List.filter f l <-> x ∈ l /\ f x = true.
Proof. rewrite !list_elem_of_In. apply List.filter_In. Qed.
Lemma elem_of_filter_truthy l s : s ∈ filter_truthy l <-> s ∈ l /\ s <> [].
Proof. unfold filter_truthy. by rewrite elem_of_bfilter, truthy_true. Qed.
Lemma elem_of_map {A B} (f : A -> B) l y : y ∈ map f l <-> exists x, y = f x /\ x ∈ l.
Proof. rewrite list_elem_of_In, List.in_map_iff. setoid_rewrite list_elem_of_In. naive_solver. Qed.
Lemma bfilter_id {A} (f : A -> bool) l : (forall x, x ∈ l -> f x = true) -> List.filter f l = l.
Proof.
  induction l as [|x l IH]; intros H; simpl; [done|].
  rewrite H by set_solver. f_equal. apply IH. set_solver.
Qed.
Lemma bfilter_app {A} (f : A -> bool) l k : List.filter f (l ++ k) = List.filter f l ++ List.filter f k.
Proof. apply List.filter_app. Qed.
Lemma bfilter_none {A} (f : A -> bool) l : (forall x, x ∈ l -> f x = false) -> List.filter f l = [].
Proof.
  induction l as [|x l IH]; intros H; simpl; [done|].
  rewrite H by set_solver. apply IH. set_solver.
Qed.
Lemma map_id_on {A} (f : A -> A) l : (forall x, x ∈ l -> f x = x) -> map f l = l.
Proof.
  induction l as [|x l IH]; intros H; simpl; [done|].
  rewrite H by set_solver. f_equal. apply IH. set_solver.
Qed.

Lemma NoDup_map_inj {A B} (f : A -> B) l x y :
  NoDup (map f l) -> x ∈ l -> y ∈ l -> f x = f y -> x = y.
Proof.
  induction l as [|a l IH]; simpl; [by intros _ ?%elem_of_nil|].
  intros [Ha Hd]%NoDup_cons [->|Hx]%elem_of_cons [->|Hy]%elem_of_cons E; [done| | |by apply IH];
    destruct Ha; apply elem_of_map; eauto.
Qed.
Lemma fold_left_ext_on {A B} (f g : A -> B -> A) l a :
  (forall x y, y ∈ l -> f x y = g x y) -> fold_left f l a = fold_left g l a.
Proof.
  revert a. induction l as [|y l IH]; intros a H; simpl; [done|].
  rewrite H by left. apply IH. intros; apply H; by right.
Qed.

Lemma find_index_some {A} (f : A -> bool) l i :
  find_index f l = Some i ->
  exists x, l !! i = Some x /\ f x = true /\
            forall j y, j < i -> l !! j = Some y -> f y = false.
Proof.
  revert i; induction l as [|a l IH]; intros i; simpl; [done|].
  destruct (f a) eqn:E.
  - intros [= <-]. exists a. repeat split; [done|]. intros; lia.
  - intros (j & Hj & ->)%fmap_Some. destruct (IH _ Hj) as (x & Hx & Hf & Hm).
    exists x; repeat split; [done..|].
    intros [|k] y Hk Hy; simplify_eq/=; [done|]. apply (Hm k); [lia|done].
Qed.
Lemma find_index_none {A} (f : A -> bool) l :
  find_index f l = None <-> forall x, x ∈ l -> f x = false.
Proof.
  induction l as [|a l IH]; simpl; [set_solver|].
  destruct (f a) eqn:E.
  - split; [done|]. intros H. by rewrite H in E by set_solver.
  - rewrite fmap_None, IH. setoid_rewrite elem_of_cons. naive_solver.
Qed.

#[export] Hint Resolve trim_is_trimmed nub_NoDup str_eqb_refl : jsdb.
Create Rewrite HintDb jsdb.
#[export] Hint Rewrite @trim_idemp @elem_of_filter_truthy @elem_of_nub @elem_of_map : jsdb.
