(* ===== verification/JsNumber.v ===== *)
(** The Number type of JavaScript: IEEE 754 binary64, as the Standard
    Library's executable [spec_float] at precision 53 and maximal exponent
    1024, with the conversions from and to decimal strings that the modelled
    code uses ([Number(s)], [String(x)], [Number.parseInt(s, 10)]) and
    [Math.floor], [Math.ceil], [Math.max]. *)
From Stdlib Require Import Floats.SpecFloat.
From S2P Require Import Prelude.

Abbreviation jsnum := spec_float.

Definition prec : Z := 53.
Definition emax : Z := 1024.

Definition nan : jsnum := S754_nan.
Definition infinity : jsnum := S754_infinity false.

(** The Number nearest to an integer. *)
Definition num (z : Z) : jsnum := binary_normalize prec emax z 0 false.

Definition num_add : jsnum -> jsnum -> jsnum := SFadd prec emax.
Definition num_sub : jsnum -> jsnum -> jsnum := SFsub prec emax.
Definition num_mul : jsnum -> jsnum -> jsnum := SFmul prec emax.
Definition num_div : jsnum -> jsnum -> jsnum := SFdiv prec emax.

(** [x === y], [x < y], [x <= y]: false when an operand is NaN. *)
Definition num_eqb (x y : jsnum) : bool := SFeqb x y.
Definition num_ltb (x y : jsnum) : bool := SFltb x y.
Definition num_leb (x y : jsnum) : bool := SFleb x y.

(** [Boolean(x)]: false on NaN and the zeros. *)
Definition num_truthy (x : jsnum) : bool :=
  match x with S754_nan | S754_zero _ => false | _ => true end.

(** [Number.isFinite(x)], [Number.isNaN(x)], [Number.isInteger(x)] *)
Definition is_finite (x : jsnum) : bool :=
  match x with S754_zero _ | S754_finite _ _ _ => true | _ => false end.
Definition is_nan (x : jsnum) : bool :=
  match x with S754_nan => true | _ => false end.
Definition is_integer (x : jsnum) : bool :=
  match x with
  | S754_zero _ => true
  | S754_finite _ m e => (0 <=? e)%Z || (Zpos m mod 2 ^ (- e) =? 0)%Z
  | _ => false
  end.

(** The integer part of a finite number, rounded down or up. *)
Definition floor_Z (s : bool) (m : positive) (e : Z) : Z :=
  let v := if s then Zneg m else Zpos m in
  if (0 <=? e)%Z then (v * 2 ^ e)%Z else (v / 2 ^ (- e))%Z.

(** [Math.floor(x)], [Math.ceil(x)]: a zero result keeps the sign of [x]. *)
Definition num_floor (x : jsnum) : jsnum :=
  match x with
  | S754_finite s m e => binary_normalize prec emax (floor_Z s m e) 0 s
  | _ => x
  end.
Definition num_ceil (x : jsnum) : jsnum := SFopp (num_floor (SFopp x)).

(** [Math.max(x, y)] *)
Definition num_max (x y : jsnum) : jsnum :=
  match x, y with
  | S754_nan, _ | _, S754_nan => S754_nan
  | S754_zero s, S754_zero t => S754_zero (s && t)
  | _, _ => if num_ltb x y then y else x
  end.

(** [Math.abs(x)] *)
Definition num_abs : jsnum -> jsnum := SFabs.

(** ** Decimal digits *)

Definition digit_val (c : N) : Z := Z.of_N c - 48.
Definition digit_unit (d : Z) : N := Z.to_N (d + 48).

(** The value of a string of decimal digits. *)
Definition digits_val (s : jsstr) : Z := fold_left (fun a c => 10 * a + digit_val c)%Z s 0%Z.

(** The decimal digits of a natural number, without leading zeros. *)
Fixpoint digits_fuel (fuel : nat) (n : Z) (acc : jsstr) : jsstr :=
  match fuel with
  | O => acc
  | S f =>
      let acc := digit_unit (n mod 10) :: acc in
      if (n <? 10)%Z then acc else digits_fuel f (n / 10) acc
  end.
Definition digits (n : Z) : jsstr := digits_fuel (S (Z.to_nat (Z.log2 n))) n [].

(** [`${n}`] for an integer of at most 21 digits. *)
Definition int_to_string (n : Z) : jsstr :=
  if (n <? 0)%Z then "-" ++ digits (- n) else digits n.

(** ** From decimal strings *)

(** The Number nearest to (-1)^s * m * 10^ex.  Exponents beyond the range of
    binary64 are cut off first, so that no huge power of ten is computed. *)
Definition num_of_decimal (s : bool) (m ex : Z) : jsnum :=
  match m with
  | Zpos p =>
      if (400 <? ex)%Z then S754_infinity s
      else if (ex + Z.log2 m <? -1500)%Z then S754_zero s
      else if (0 <=? ex)%Z then binary_round prec emax s (Z.to_pos (m * 10 ^ ex)) 0
      else SFdiv prec emax (S754_finite s p 0) (S754_finite false (Z.to_pos (10 ^ (- ex))) 0)
  | _ => S754_zero s
  end.

Fixpoint span (f : N -> bool) (s : jsstr) : jsstr * jsstr :=
  match s with
  | c :: t => if f c then let '(a, b) := span f t in (c :: a, b) else ([], s)
  | [] => ([], [])
  end.

(** The exponent part [e[+-]ddd] of a decimal literal; 0 when absent. *)
Definition exponent_part (s : jsstr) : option Z :=
  match s with
  | [] => Some 0%Z
  | c :: t =>
      if (N.eqb c 101 || N.eqb c 69) then
        let '(neg, t) :=
          match t with
          | d :: t' => if N.eqb d 45 then (true, t') else if N.eqb d 43 then (false, t') else (false, t)
          | [] => (false, [])
          end in
        match span is_digit t with
        | ((_ :: _) as ds, []) => Some (if neg then - digits_val ds else digits_val ds)%Z
        | _ => None
        end
      else None
  end.

(** An unsigned decimal literal: [ddd], [ddd.], [ddd.ddd] or [.ddd], then an
    exponent part. *)
Definition unsigned_decimal (sgn : bool) (s : jsstr) : option jsnum :=
  let '(a, r) := span is_digit s in
  let '(b, r') :=
    match r with
    | 46%N :: r1 => span is_digit r1
    | _ => ([], r)
    end in
  if truthy (a ++ b) then
    ex ← exponent_part r';
    Some (num_of_decimal sgn (digits_val (a ++ b)) (ex - Z.of_nat (length b)))
  else None.

(** [Number(s)] on the strings the code passes to it, all of which match
    [[\d.eE+-]*]: the decimal forms, 0 on blank strings, NaN otherwise. *)
Definition to_number (s : jsstr) : jsnum :=
  let s := trim s in
  match s with
  | [] => S754_zero false
  | 45%N :: t => default nan (unsigned_decimal true t)
  | 43%N :: t => default nan (unsigned_decimal false t)
  | _ => default nan (unsigned_decimal false s)
  end.

(** ** To decimal strings *)

(** The fraction of a positive finite number as numerator and denominator. *)
Definition frac (m : positive) (e : Z) : Z * Z :=
  if (0 <=? e)%Z then (Zpos m * 2 ^ e, 1)%Z else (Zpos m, 2 ^ (- e))%Z.

(** The fraction multiplied by [10^j]. *)
Definition scale10 (f : Z * Z) (j : Z) : Z * Z :=
  if (0 <=? j)%Z then (f.1 * 10 ^ j, f.2)%Z else (f.1, f.2 * 10 ^ (- j))%Z.

(** The [n] with [10^(n-1) <= a/b < 10^n], searched upwards from a bound
    below it. *)
Fixpoint magnitude (fuel : nat) (f : Z * Z) (n : Z) : Z :=
  match fuel with
  | O => n
  | S k => let '(a, b) := scale10 f (- n) in
           if (a <? b)%Z then n else magnitude k f (n + 1)
  end.

(** The shortest digits: the least [k] with a [k]-digit decimal that rounds to
    [x], the nearest one when there are two. *)
Fixpoint shortest (fuel : nat) (x : jsnum) (f : Z * Z) (n k : Z) : Z * Z :=
  match fuel with
  | O => (0, 0)%Z
  | S fu =>
      let '(a, b) := scale10 f (k - n) in
      let lo := (a / b)%Z in
      let near_lo := (2 * (a - lo * b) <? b)%Z || ((2 * (a - lo * b) =? b)%Z && Z.even lo) in
      let '(c1, c2) := if near_lo then (lo, lo + 1)%Z else (lo + 1, lo)%Z in
      let back c := num_eqb (num_of_decimal false c (n - k)) x in
      if back c1 then (c1, n - k)%Z
      else if back c2 then (c2, n - k)%Z
      else shortest fu x f n (k + 1)
  end.

Definition zeros (n : Z) : jsstr := replicate (Z.to_nat n) 48%N.

(** The layout of Number::toString for the digits [ds] of [s * 10^(n-k)]. *)
Definition layout (ds : jsstr) (n : Z) : jsstr :=
  let k := Z.of_nat (length ds) in
  let signed e := if (e <? 0)%Z then "-" ++ digits (- e) else "+" ++ digits e in
  if (k <=? n)%Z && (n <=? 21)%Z then ds ++ zeros (n - k)
  else if (0 <? n)%Z && (n <=? 21)%Z then
    take (Z.to_nat n) ds ++ "." ++ drop (Z.to_nat n) ds
  else if (-6 <? n)%Z && (n <=? 0)%Z then "0." ++ zeros (- n) ++ ds
  else match ds with
       | [d] => [d] ++ "e" ++ signed (n - 1)
       | d :: t => [d] ++ "." ++ t ++ "e" ++ signed (n - 1)
       | [] => []
       end%Z.

(** Digits without trailing zeros (a candidate may be a power of ten). *)
Fixpoint strip_zeros (ds : jsstr) : jsstr :=
  match ds with
  | [] => []
  | d :: t => match strip_zeros t with
              | [] => if N.eqb d 48 then [] else [d]
              | t' => d :: t'
              end
  end.

Definition pos_to_string (m : positive) (e : Z) : jsstr :=
  let f := frac m e in
  let n0 := ((Z.log2 (Zpos m) + e) * 30103 / 100000 - 1)%Z in
  let n := magnitude 4 f n0 in
  let '(c, ex) := shortest 17 (S754_finite false m e) f n 1 in
  let ds := digits c in
  layout (strip_zeros ds) (Z.of_nat (length ds) + ex).

(** [String(x)] *)
Definition num_to_string (x : jsnum) : jsstr :=
  match x with
  | S754_nan => "NaN"
  | S754_zero _ => "0"
  | S754_infinity s => if s then "-Infinity" else "Infinity"
  | S754_finite s m e => (if s then "-" else []) ++ pos_to_string m e
  end.

(** [Number(s)] of any string: hexadecimal, octal, binary and infinite literals
    beside the decimal ones. *)
Definition is_hex (c : N) : bool :=
  (is_digit c || (97 <=? c) && (c <=? 102) || (65 <=? c) && (c <=? 70))%N.
Definition hex_digit (c : N) : Z :=
  Z.of_N (if is_digit c then c - 48 else if (97 <=? c)%N then c - 87 else c - 55).
Definition radix_value (ok : N -> bool) (base : Z) (s : jsstr) : jsnum :=
  if truthy s && forallb ok s then num (fold_left (fun a c => base * a + hex_digit c)%Z s 0%Z) else nan.
Definition string_to_number (s : jsstr) : jsnum :=
  let s := trim s in
  match s with
  | 48%N :: 120%N :: t | 48%N :: 88%N :: t => radix_value is_hex 16 t
  | 48%N :: 111%N :: t | 48%N :: 79%N :: t => radix_value (fun c => (48 <=? c) && (c <=? 55))%N 8 t
  | 48%N :: 98%N :: t | 48%N :: 66%N :: t => radix_value (fun c => (48 <=? c) && (c <=? 49))%N 2 t
  | _ => if str_eqb s "Infinity" || str_eqb s "+Infinity" then infinity
         else if str_eqb s "-Infinity" then S754_infinity true
         else to_number s
  end.

(** [x || y] on numbers. *)
Definition num_or (x y : jsnum) : jsnum := if num_truthy x then x else y.

(** [x.toFixed(f)]: the integer nearest to [x * 10^f], the larger one of two,
    with the point put back. *)
Definition fixed_digits (f : nat) (n : Z) : jsstr :=
  let ds := digits n in
  let ds := replicate (S f - length ds) 48%N ++ ds in
  if Nat.eqb f 0 then ds
  else take (length ds - f) ds ++ "." ++ drop (length ds - f) ds.
Definition to_fixed (f : nat) (x : jsnum) : jsstr :=
  match x with
  | S754_zero _ => fixed_digits f 0
  | S754_finite s m e =>
      if (10 ^ 21 * (frac m e).2 <=? (frac m e).1)%Z then num_to_string x
      else let '(a, b) := scale10 (frac m e) (Z.of_nat f) in
           (if s then "-" else []) ++ fixed_digits f ((2 * a + b) / (2 * b))
  | _ => num_to_string x
  end.

(** [Math.round(x)]: the nearest integer, the larger one of two. *)
Definition num_round (x : jsnum) : jsnum :=
  match x with
  | S754_finite s m e =>
      if (0 <=? e)%Z then x
      else let '(a, b) := frac m e in
           let z := ((2 * (if s then - a else a) + b) / (2 * b))%Z in
           if (z =? 0)%Z then S754_zero s else num z
  | _ => x
  end.

(** [parseFloat(s)]: the longest prefix that is a decimal literal. *)
Definition exponent_prefix (s : jsstr) : Z :=
  match s with
  | c :: t =>
      if N.eqb c 101 || N.eqb c 69 then
        let '(neg, t) :=
          match t with
          | d :: t' => if N.eqb d 45 then (true, t') else if N.eqb d 43 then (false, t') else (false, t)
          | [] => (false, [])
          end in
        match span is_digit t with
        | ((_ :: _) as ds, _) => (if neg then - digits_val ds else digits_val ds)%Z
        | _ => 0%Z
        end
      else 0%Z
  | [] => 0%Z
  end.
Definition decimal_prefix (sgn : bool) (s : jsstr) : jsnum :=
  let '(a, r) := span is_digit s in
  let '(b, r') :=
    match r with
    | 46%N :: r1 => span is_digit r1
    | _ => ([], r)
    end in
  if truthy (a ++ b) then num_of_decimal sgn (digits_val (a ++ b)) (exponent_prefix r' - Z.of_nat (length b))
  else if starts_with "Infinity" s then S754_infinity sgn else nan.
Definition parse_float (s : jsstr) : jsnum :=
  match trim s with
  | 45%N :: t => decimal_prefix true t
  | 43%N :: t => decimal_prefix false t
  | t => decimal_prefix false t
  end.

(** * Facts *)

(** Spot checks of the conversions against the values of ECMAScript. *)
Example num_add_rounding :
  num_to_string (num_add (to_number "0.1") (to_number "0.2")) = "0.30000000000000004".
Proof. vm_compute. reflexivity. Qed.
Example num_to_string_samples :
  map (fun s => num_to_string (to_number s))
      ["1e21"; "1e-7"; "0.00000123"; "1.7976931348623157e308"; "5e-324"; "1e400"; "-1.50"; ".5";
       "9007199254740993"; "1e23"; "1e"; ""] =
  ["1e+21"; "1e-7"; "0.00000123"; "1.7976931348623157e+308"; "5e-324"; "Infinity"; "-1.5"; "0.5";
   "9007199254740992"; "1e+23"; "NaN"; "0"].
Proof. vm_compute. reflexivity. Qed.

Example num_round_samples :
  map (fun s => num_to_string (num_round (to_number s))) ["2.5"; "-2.5"; "0.49999999999999994"; "-0.2"; "1e300"; "7"] =
  ["3"; "-2"; "0"; "0"; "1e+300"; "7"].
Proof. vm_compute. reflexivity. Qed.
Example parse_float_samples :
  map (fun s => num_to_string (parse_float s)) [" 3.50 usd"; "1e"; "1e3x"; "-.5."; "Infinity!"; "x1"; ""; "1.2.3"] =
  ["3.5"; "1"; "1000"; "-0.5"; "Infinity"; "NaN"; "NaN"; "1.2"].
Proof. vm_compute. reflexivity. Qed.

Example to_fixed_samples :
  map (fun s => to_fixed 2 (to_number s)) ["0.34"; "1.005"; "-0.001"; "12"; "0.125"; "2.5e21"; "0"] =
  ["0.34"; "1.00"; "-0.00"; "12.00"; "0.13"; "2.5e+21"; "0.00"].
Proof. vm_compute. reflexivity. Qed.

Lemma digit_unit_val d : (0 <= d < 10)%Z -> digit_val (digit_unit d) = d.
Proof. unfold digit_val, digit_unit. lia. Qed.
Lemma digit_unit_is_digit d : (0 <= d < 10)%Z -> is_digit (digit_unit d) = true.
Proof. intros H. unfold is_digit, digit_unit. apply andb_true_iff; rewrite !N.leb_le. lia. Qed.

Lemma digits_val_cons c s a :
  fold_left (fun a c => 10 * a + digit_val c)%Z (c :: s) a =
  fold_left (fun a c => 10 * a + digit_val c)%Z s (10 * a + digit_val c)%Z.
Proof. done. Qed.
Lemma digits_val_acc s a :
  fold_left (fun a c => 10 * a + digit_val c)%Z s a = (a * 10 ^ Z.of_nat (length s) + digits_val s)%Z.
Proof.
  unfold digits_val. revert a. induction s as [|c s IH]; intros a; cbn [fold_left length].
  - lia.
  - rewrite IH, (IH (10 * 0 + digit_val c)%Z), Nat2Z.inj_succ, Z.pow_succ_r by lia. ring.
Qed.

Lemma digits_fuel_spec fuel n acc :
  (0 <= n)%Z -> (n < 10 ^ Z.of_nat fuel)%Z -> (0 < fuel) ->
  digits_val (digits_fuel fuel n acc) = (n * 10 ^ Z.of_nat (length acc) + digits_val acc)%Z /\
  (Forall (fun c => is_digit c = true) acc ->
   Forall (fun c => is_digit c = true) (digits_fuel fuel n acc)).
Proof.
  revert n acc. induction fuel as [|f IH]; intros n acc Hn Hlt Hf; [lia|].
  cbn [digits_fuel].
  assert (Hmod : (0 <= n mod 10 < 10)%Z) by (apply Z.mod_pos_bound; lia).
  assert (Hdiv : n = (10 * (n / 10) + n mod 10)%Z) by (apply Z.div_mod; lia).
  assert (Hcons : digits_val (digit_unit (n mod 10) :: acc)
                  = (n mod 10 * 10 ^ Z.of_nat (length acc) + digits_val acc)%Z).
  { unfold digits_val at 1. rewrite digits_val_cons, digits_val_acc, digit_unit_val by done. lia. }
  destruct (Z.ltb_spec n 10) as [Hs|Hs].
  - split; [|intros; constructor; [by apply digit_unit_is_digit|done]].
    rewrite Hcons. rewrite (Z.mod_small n 10) by lia. done.
  - rewrite Nat2Z.inj_succ, Z.pow_succ_r in Hlt by lia.
    assert (0 < f) by (destruct f; [simpl in Hlt; lia|lia]).
    destruct (IH (n / 10) (digit_unit (n mod 10) :: acc))%Z as [Hv Hd];
      [apply Z.div_pos; lia | apply Z.div_lt_upper_bound; lia | done |].
    split.
    + rewrite Hv, Hcons. cbn [length]. rewrite Nat2Z.inj_succ, Z.pow_succ_r by lia.
      rewrite Hdiv at 3. ring.
    + intros Ha. apply Hd. constructor; [by apply digit_unit_is_digit|done].
Qed.

Lemma digits_fuel_enough n : (0 <= n)%Z -> (n < 10 ^ Z.of_nat (S (Z.to_nat (Z.log2 n))))%Z.
Proof.
  intros Hn. rewrite Nat2Z.inj_succ, Z2Nat.id by apply Z.log2_nonneg.
  destruct (decide (n = 0)%Z) as [->|]; [done|].
  destruct (Z.log2_spec n) as [_ H]; [lia|].
  eapply Z.lt_le_trans; [exact H|]. apply Z.pow_le_mono_l. lia.
Qed.

(** The digits of a natural number denote it, and are digits. *)
Lemma digits_val_digits n : (0 <= n)%Z -> digits_val (digits n) = n.
Proof.
  intros Hn. unfold digits. rewrite (proj1 (digits_fuel_spec _ n [] Hn (digits_fuel_enough n Hn) ltac:(lia))).
  cbn. lia.
Qed.
Lemma digits_inj n m : (0 <= n)%Z -> (0 <= m)%Z -> digits n = digits m -> n = m.
Proof. intros Hn Hm E. by rewrite <- (digits_val_digits n Hn), E, digits_val_digits. Qed.
Lemma digits_are_digits n : (0 <= n)%Z -> Forall (fun c => is_digit c = true) (digits n).
Proof.
  intros Hn. by apply (proj2 (digits_fuel_spec _ n [] Hn (digits_fuel_enough n Hn) ltac:(lia))).
Qed.
Lemma digits_nonempty n : digits n <> [].
Proof.
  unfold digits. cbn [digits_fuel].
  assert (H : forall f n a, a <> [] -> digits_fuel f n a <> []).
  { induction f as [|f IH]; intros m a Ha; [done|]. cbn [digits_fuel].
    destruct (m <? 10)%Z; [done|]. by apply IH. }
  destruct (n <? 10)%Z; [done|]. by apply H.
Qed.

(** [Math.max(0, x)] is never negative. *)
Lemma num_eqb_finite x s m e : num_eqb x (S754_finite s m e) = true -> x = S754_finite s m e.
Proof.
  unfold num_eqb, SFeqb, SFcompare.
  destruct x as [[]|[]| |[] m' e']; destruct s; try done;
    destruct (Z.compare_spec e' e); simplify_eq; try done;
    change (Pos.compare_cont Eq m' m) with (Pos.compare m' m);
    destruct (Pos.compare_spec m' m); by simplify_eq.
Qed.

Lemma num_max_zero_nonneg x : num_ltb (num_max (num 0) x) (num 0) = false.
Proof. by destruct x as [[]|[]| |[] m e]. Qed.

(** Strict comparison with [===]: a number that compares greater is not NaN. *)
Lemma num_ltb_not_nan x y : num_ltb x y = true -> is_nan x = false /\ is_nan y = false.
Proof. by destruct x, y. Qed.

(** A text that Number reads as a decimal reads the same with parseFloat. *)
Lemma exponent_prefix_full s ex : exponent_part s = Some ex -> exponent_prefix s = ex.
Proof.
  unfold exponent_part, exponent_prefix. destruct s as [|c t]; [by intros [= <-]|].
  destruct (_ || _); [|done]. destruct t as [|d t']; [done|].
  destruct (N.eqb d 45); [|destruct (N.eqb d 43)];
    (destruct (span is_digit _) as [[|x ds] [|y r]]; [done|done|by intros [= <-]|done]).
Qed.
Lemma decimal_prefix_full sgn s x : unsigned_decimal sgn s = Some x -> decimal_prefix sgn s = x.
Proof.
  unfold unsigned_decimal, decimal_prefix. destruct (span is_digit s) as [a r].
  destruct (match r with 46%N :: r1 => span is_digit r1 | _ => ([], r) end) as [b r'].
  destruct (truthy (a ++ b)); [|done]. destruct (exponent_part r') as [ex|] eqn:E; [|done].
  intros [= <-]. by rewrite (exponent_prefix_full _ _ E).
Qed.
Lemma parse_float_number s : is_nan (to_number s) = false -> trim s <> [] -> parse_float s = to_number s.
Proof.
  unfold to_number, parse_float. intros H Hs.
  assert (G : forall sgn t, is_nan (default nan (unsigned_decimal sgn t)) = false ->
                            decimal_prefix sgn t = default nan (unsigned_decimal sgn t)).
  { intros sgn t Hn. destruct (unsigned_decimal sgn t) as [x|] eqn:E; [|done]. by rewrite (decimal_prefix_full _ _ _ E). }
  destruct (trim s) as [|c t]; [done|]. repeat case_match; apply G; done.
Qed.
