(* ===== verification/JsInteger.v ===== *)
(** Integer arithmetic of the Number type: below 2^53 in absolute value the
    sum and the difference of two integers is the integer sum and difference,
    computed without rounding, and the order is the order of the integers.
    This is what makes totals of token and request counts exact. *)
From Stdlib Require Import Floats.SpecFloat.
From S2P Require Import Prelude JsNumber.
Local Open Scope Z_scope.

(** The integers up to [Number.MAX_SAFE_INTEGER] in absolute value. *)
Definition safe (z : Z) : Prop := - 2 ^ 53 < z < 2 ^ 53.

(** ** Shifts *)

Lemma digits2_pos_log2 p : Zpos (digits2_pos p) = Z.log2 (Zpos p) + 1.
Proof.
  induction p as [p IH|p IH|]; cbn [digits2_pos]; [| |done].
  - rewrite Pos2Z.inj_succ, IH, (Pos2Z.inj_xI p), Z.log2_succ_double by done. lia.
  - rewrite Pos2Z.inj_succ, IH, (Pos2Z.inj_xO p), Z.log2_double by done. lia.
Qed.

Lemma iter_xO p d : Zpos (Pos.iter xO p d) = Zpos p * 2 ^ Zpos d.
Proof.
  revert p. induction d as [|d IH] using Pos.peano_ind; intros p; [simpl; lia|].
  rewrite Pos.iter_succ_r, IH, (Pos2Z.inj_xO p), Pos2Z.inj_succ, Z.pow_succ_r by lia. ring.
Qed.

Lemma iter_pos_swap {A} (f : A -> A) p x : f (SpecFloat.iter_pos f p x) = SpecFloat.iter_pos f p (f x).
Proof. revert x. induction p as [p IH|p IH|]; intros x; simpl; [by rewrite !IH..|done]. Qed.
Lemma iter_pos_succ {A} (f : A -> A) p x :
  SpecFloat.iter_pos f (Pos.succ p) x = SpecFloat.iter_pos f p (f x).
Proof.
  revert x. induction p as [p IH|p IH|]; intros x; simpl; [|done|done].
  by rewrite !IH, iter_pos_swap.
Qed.

Lemma shr_exact m d :
  SpecFloat.iter_pos shr_1 d (Build_shr_record (Zpos m * 2 ^ Zpos d) false false)
  = Build_shr_record (Zpos m) false false.
Proof.
  induction d as [|d IH] using Pos.peano_ind; [simpl; by rewrite Pos.mul_comm|].
  rewrite iter_pos_succ, <- IH. f_equal.
  rewrite Pos2Z.inj_succ, Z.pow_succ_r by lia.
  replace (Zpos m * (2 * 2 ^ Zpos d)) with (2 * (Zpos m * 2 ^ Zpos d)) by ring.
  assert (H : 0 < Zpos m * 2 ^ Zpos d) by (apply Z.mul_pos_pos; lia).
  by destruct (Zpos m * 2 ^ Zpos d).
Qed.

(** ** The Number of an integer *)

(** The number of bits of a positive integer. *)
Definition bits (m : positive) : Z := Z.log2 (Zpos m) + 1.

(** A positive integer of at most 53 bits as a Number: 53 bits of mantissa. *)
Definition canon (s : bool) (m : positive) : jsnum :=
  S754_finite s (Z.to_pos (Zpos m * 2 ^ (53 - bits m))) (bits m - 53).

Lemma bits_mul m k p : 0 <= k -> Zpos p = Zpos m * 2 ^ k -> bits p = bits m + k.
Proof. intros Hk E. unfold bits. rewrite E, Z.log2_mul_pow2; lia. Qed.
Lemma bits_pos m : 1 <= bits m.
Proof. unfold bits. pose proof (Z.log2_nonneg (Zpos m)). lia. Qed.
Lemma bits_safe m : Zpos m < 2 ^ 53 -> bits m <= 53.
Proof. intros H. unfold bits. apply Z.log2_lt_pow2 in H; lia. Qed.

Lemma fexp_small d : 1 <= d -> fexp prec emax d = d - 53.
Proof. unfold fexp, emin, prec, emax. lia. Qed.

(** The exponent of a mantissa of 53 bits is the exponent it is rounded at. *)
Lemma shift_53 m d :
  1 <= d -> bits m = 53 ->
  shr_fexp prec emax (Zpos m) (d - 53) loc_Exact = (Build_shr_record (Zpos m) false false, d - 53).
Proof.
  intros Hd Hb. unfold shr_fexp. cbn [Zdigits2 shr_record_of_loc].
  rewrite digits2_pos_log2. fold (bits m). rewrite Hb, fexp_small by lia.
  by replace (53 + (d - 53) - 53 - (d - 53)) with 0 by lia.
Qed.

(** Rounding an integer whose exact 53-bit form the shift finds. *)
Lemma round_shifted s m p e d :
  1 <= d <= 53 -> bits m = 53 ->
  shr_fexp prec emax (Zpos p) e loc_Exact = (Build_shr_record (Zpos m) false false, d - 53) ->
  binary_round_aux prec emax s (Zpos p) e loc_Exact = S754_finite s m (d - 53).
Proof.
  intros Hd Hb E. unfold binary_round_aux. rewrite E.
  cbn [shr_m loc_of_shr_record round_nearest_even]. rewrite shift_53 by lia. cbn [shr_m].
  destruct (Z.leb_spec (d - 53) (emax - prec)); [done|]. unfold emax, prec in *. lia.
Qed.

(** An integer written with [k] more bits below the point rounds to itself. *)
Lemma round_exact s m k p :
  bits m <= 53 -> 0 <= k -> Zpos p = Zpos m * 2 ^ k ->
  binary_round prec emax s p (- k) = canon s m.
Proof.
  intros Hm Hk Hp. pose proof (bits_pos m) as Hb.
  assert (Hbp : bits p = bits m + k) by (by apply bits_mul).
  assert (Hc : 0 < Zpos m * 2 ^ (53 - bits m)) by (apply Z.mul_pos_pos; lia).
  unfold binary_round. rewrite digits2_pos_log2. fold (bits p).
  rewrite Hbp. replace (bits m + k + - k) with (bits m) by lia. rewrite fexp_small by lia.
  unfold shl_align, canon.
  set (c := Z.to_pos (Zpos m * 2 ^ (53 - bits m))).
  assert (Ec : Zpos c = Zpos m * 2 ^ (53 - bits m)) by (apply Z2Pos.id; lia).
  assert (Hbc : bits c = 53) by (rewrite (bits_mul m (53 - bits m) c); lia).
  destruct (bits m - 53 - - k) as [|d|d] eqn:E.
  - assert (p = c) as ->.
    { apply Pos2Z.inj. rewrite Hp, Ec. do 2 f_equal. lia. }
    replace (- k) with (bits m - 53) by lia. apply round_shifted; [lia..|]. apply shift_53; lia.
  - apply round_shifted; [lia..|]. unfold shr_fexp. cbn [Zdigits2 shr_record_of_loc].
    rewrite digits2_pos_log2. fold (bits p). rewrite Hbp.
    replace (bits m + k + - k) with (bits m) by lia. rewrite fexp_small by lia.
    rewrite E. cbn [shr]. replace (- k + Zpos d) with (bits m - 53) by lia.
    rewrite <- (shr_exact c d). do 3 f_equal.
    rewrite Hp, Ec, <- Z.mul_assoc, <- Z.pow_add_r by lia. do 2 f_equal. lia.
  - assert (Pos.iter xO p d = c) as ->.
    { apply Pos2Z.inj. rewrite iter_xO, Hp, Ec, <- Z.mul_assoc, <- Z.pow_add_r by lia.
      do 2 f_equal. lia. }
    apply round_shifted; [lia..|]. apply shift_53; lia.
Qed.

Lemma num_pos m : Zpos m < 2 ^ 53 -> num (Zpos m) = canon false m.
Proof. intros H. apply (round_exact false m 0 m); [by apply bits_safe|lia|lia]. Qed.
Lemma num_neg m : Zpos m < 2 ^ 53 -> num (Zneg m) = canon true m.
Proof. intros H. apply (round_exact true m 0 m); [by apply bits_safe|lia|lia]. Qed.

Lemma normalize_exact z k : safe z -> 0 <= k -> binary_normalize prec emax (z * 2 ^ k) (- k) false = num z.
Proof.
  intros Hz Hk. unfold safe in Hz. assert (H2 : 0 < 2 ^ k) by lia.
  destruct z as [|m|m]; [done| |].
  - rewrite num_pos by lia. destruct (Zpos m * 2 ^ k) as [|p|p] eqn:E; [lia| |lia].
    apply round_exact; [apply bits_safe; lia|lia|lia].
  - rewrite num_neg by lia. destruct (Zneg m * 2 ^ k) as [|p|p] eqn:E; [lia|lia|].
    apply round_exact; [apply bits_safe; lia|lia|lia].
Qed.

(** ** Sums, differences and order *)

(** The mantissa of a canonical integer aligned to a lower exponent. *)
Lemma align_canon s m e :
  bits m <= 53 -> e <= bits m - 53 ->
  cond_Zopp s (Zpos (fst (shl_align (Z.to_pos (Zpos m * 2 ^ (53 - bits m))) (bits m - 53) e)))
  = cond_Zopp s (Zpos m) * 2 ^ (- e).
Proof.
  intros Hm He. set (c := Z.to_pos _).
  assert (Hc : 0 < Zpos m * 2 ^ (53 - bits m)) by (apply Z.mul_pos_pos; lia).
  assert (Ec : Zpos c = Zpos m * 2 ^ (53 - bits m)) by (apply Z2Pos.id; lia).
  assert (E : Zpos (fst (shl_align c (bits m - 53) e)) = Zpos m * 2 ^ (- e)).
  { unfold shl_align. destruct (e - (bits m - 53)) as [|d|d] eqn:Ed; cbn [fst]; [|lia|].
    - rewrite Ec. do 2 f_equal. lia.
    - rewrite iter_xO, Ec, <- Z.mul_assoc, <- Z.pow_add_r by lia. do 2 f_equal. lia. }
  rewrite E. destruct s; unfold cond_Zopp; lia.
Qed.

(** The sign and magnitude form of a safe integer other than zero. *)
Definition sign (z : Z) : bool := z <? 0.
Definition modulus (z : Z) : positive := Z.to_pos (Z.abs z).

Lemma num_canon z : safe z -> z <> 0 -> num z = canon (sign z) (modulus z).
Proof.
  unfold safe. intros Hz Hnz. destruct z as [|m|m]; [done|apply (num_pos m); lia|apply (num_neg m); lia].
Qed.
Lemma sign_modulus z : z <> 0 -> cond_Zopp (sign z) (Zpos (modulus z)) = z.
Proof. by destruct z. Qed.
Lemma modulus_bits z : safe z -> z <> 0 -> bits (modulus z) <= 53.
Proof. unfold safe. intros Hz Hnz. apply bits_safe. destruct z as [|m|m]; [done| |]; change (Zpos m < 2 ^ 53); lia. Qed.

Lemma num_add_exact a b : safe a -> safe b -> safe (a + b) -> num_add (num a) (num b) = num (a + b).
Proof.
  intros Ha Hb Hab. destruct (decide (a = 0)) as [->|Ha0].
  { change (num 0) with (S754_zero false). rewrite Z.add_0_l.
    destruct (decide (b = 0)) as [->|Hb0]; [done|]. by rewrite (num_canon b). }
  destruct (decide (b = 0)) as [->|Hb0].
  { rewrite Z.add_0_r. by rewrite (num_canon a). }
  rewrite (num_canon a), (num_canon b) by done. unfold num_add, canon, SFadd.
  pose proof (modulus_bits a Ha Ha0) as Hma. pose proof (modulus_bits b Hb Hb0) as Hmb.
  set (e := Z.min _ _). assert (He : e <= 0) by lia.
  rewrite !align_canon by lia. rewrite !sign_modulus, <- Z.mul_add_distr_r by done.
  rewrite <- (normalize_exact (a + b) (- e)) by (done || lia). f_equal. lia.
Qed.

Lemma num_sub_exact a b : safe a -> safe b -> safe (a - b) -> num_sub (num a) (num b) = num (a - b).
Proof.
  intros Ha Hb Hab. destruct (decide (b = 0)) as [->|Hb0].
  { rewrite Z.sub_0_r. destruct (decide (a = 0)) as [->|]; [done|]. by rewrite (num_canon a). }
  destruct (decide (a = 0)) as [->|Ha0].
  { change (num 0) with (S754_zero false). rewrite Z.sub_0_l in *.
    rewrite (num_canon b), (num_canon (- b)) by (unfold safe in *; lia). by destruct b. }
  rewrite (num_canon a), (num_canon b) by done. unfold num_sub, canon, SFsub.
  pose proof (modulus_bits a Ha Ha0) as Hma. pose proof (modulus_bits b Hb Hb0) as Hmb.
  set (e := Z.min _ _). assert (He : e <= 0) by lia.
  rewrite !align_canon by lia. rewrite !sign_modulus, <- Z.mul_sub_distr_r by done.
  rewrite <- (normalize_exact (a - b) (- e)) by (done || lia). f_equal. lia.
Qed.

(** The sign of a safe integer. *)
Lemma num_pos_sign z : safe z -> num_ltb (num 0) (num z) = (0 <? z).
Proof. intros Hz. destruct (decide (z = 0)) as [->|]; [done|]. rewrite (num_canon z) by done. by destruct z. Qed.
Lemma num_truthy_int z : safe z -> num_truthy (num z) = negb (z =? 0).
Proof. intros Hz. destruct (decide (z = 0)) as [->|]; [done|]. rewrite (num_canon z) by done. by destruct z. Qed.
Lemma num_int_finite z : safe z -> is_finite (num z) = true.
Proof. intros Hz. destruct (decide (z = 0)) as [->|]; [done|]. by rewrite (num_canon z). Qed.

(** ** Totals *)

(** The left-to-right sum of natural numbers is exact when the total is safe. *)
Definition zsum (l : list Z) : Z := foldr Z.add 0 l.

Lemma zsum_cons z l : zsum (z :: l) = z + zsum l.
Proof. done. Qed.
Lemma zsum_app l k : zsum (l ++ k) = zsum l + zsum k.
Proof. unfold zsum. induction l as [|z l IH]; simpl; [done|]. rewrite IH. lia. Qed.
Lemma zsum_nonneg l : Forall (Z.le 0) l -> 0 <= zsum l.
Proof. unfold zsum. induction 1; simpl; lia. Qed.

Lemma num_sum_exact l a :
  0 <= a -> Forall (Z.le 0) l -> a + zsum l < 2 ^ 53 ->
  fold_left num_add (map num l) (num a) = num (a + zsum l).
Proof.
  revert a. induction l as [|z l IH]; intros a Ha Hl Hs; cbn [map fold_left].
  { by rewrite Z.add_0_r. }
  inversion Hl as [|? ? Hz Hl']; subst. pose proof (zsum_nonneg l Hl') as Hn.
  rewrite zsum_cons in *.
  rewrite num_add_exact by (unfold safe; lia). rewrite IH by (done || lia). f_equal. lia.
Qed.
