(* ===== verification/JsCollections.v ===== *)
(** [Map] and [Array.prototype.sort] of JavaScript: a [Map] is a list of
    entries in insertion order with a key at most once; [sort] with a
    comparator is stable.  The group-by loop of the code (look the key up,
    start a new value when it is absent, update it, set it back) is the
    function [accumulate], with its declarative reading. *)
From Stdlib Require Import Floats.SpecFloat Sorting.Sorted.
From S2P Require Import Prelude JsNumber.

Lemma fold_left_map {A B C} (f : A -> C -> A) (g : B -> C) l a :
  fold_left f (map g l) a = fold_left (fun a x => f a (g x)) l a.
Proof. revert a. induction l as [|x l IH]; intros a; simpl; [done|]. apply IH. Qed.

Lemma elem_of_concat_map {A B} (f : A -> list B) l y :
  y ∈ concat (map f l) <-> exists x, x ∈ l /\ y ∈ f x.
Proof.
  induction l as [|x l IH]; simpl; [set_solver|]. rewrite elem_of_app, IH. set_solver.
Qed.

Lemma sublist_map {A B} (f : A -> B) k l : k `sublist_of` l -> map f k `sublist_of` map f l.
Proof. induction 1; simpl; by constructor. Qed.
Lemma sublist_Forall {A} (P : A -> Prop) k l : k `sublist_of` l -> Forall P l -> Forall P k.
Proof. induction 1; intros Hl; [done| |]; inversion Hl; subst; [constructor|]; auto. Qed.
Lemma sublist_bfilter {A} (f : A -> bool) l : List.filter f l `sublist_of` l.
Proof. induction l as [|x l IH]; simpl; [done|]. destruct (f x); by constructor. Qed.

Lemma bfilter_map {A B} (f : B -> bool) (g : A -> B) l : List.filter f (map g l) = map g (List.filter (fun x => f (g x)) l).
Proof. induction l as [|x l IH]; [done|]. simpl. destruct (f (g x)); simpl; by rewrite IH. Qed.
Lemma bfilter_perm {A} (f : A -> bool) l k : l ≡ₚ k -> List.filter f l ≡ₚ List.filter f k.
Proof.
  induction 1 as [|x l k _ IH|x y l|? ? ? _ IH1 _ IH2]; simpl; [done| | |by etrans].
  - destruct (f x); [by constructor|done].
  - destruct (f x), (f y); done || constructor.
Qed.
Lemma bfilter_cons_inv {A} (f : A -> bool) l x k : List.filter f l = x :: k ->
  exists a c, l = a ++ x :: c /\ List.filter f a = [] /\ f x = true /\ List.filter f c = k.
Proof.
  induction l as [|y l IH]; simpl; [done|]. destruct (f y) eqn:E.
  - intros [= -> <-]. by exists [], l.
  - intros (a & c & -> & Ha & Hx & Hc)%IH. exists (y :: a), c. simpl. by rewrite E.
Qed.
Lemma bfilter_app_inv {A} (f : A -> bool) l b k : List.filter f l = b ++ k ->
  exists l1 l2, l = l1 ++ l2 /\ List.filter f l1 = b /\ List.filter f l2 = k.
Proof.
  revert l. induction b as [|x b IH]; intros l H; simpl in H; [by exists [], l|].
  apply bfilter_cons_inv in H as (a & c & -> & Ha & Hx & (l1 & l2 & -> & H1 & H2)%IH).
  exists (a ++ x :: l1), l2. rewrite <-app_assoc. split_and!; [done| |done].
  rewrite bfilter_app, Ha. simpl. by rewrite Hx, H1.
Qed.

(** * Map *)

Section Map.
Context {K V : Type} `{EqDecision K}.

Definition jsmap : Type := list (K * V).

(** [m.get(k)] *)
Fixpoint mget (k : K) (m : jsmap) : option V :=
  match m with
  | [] => None
  | (k', v) :: t => if decide (k' = k) then Some v else mget k t
  end.

(** [m.set(k, v)]: in place when the key is there, at the end otherwise. *)
Fixpoint mset (k : K) (v : V) (m : jsmap) : jsmap :=
  match m with
  | [] => [(k, v)]
  | (k', v') :: t => if decide (k' = k) then (k', v) :: t else (k', v') :: mset k v t
  end.

(** [m.values()] *)
Definition mvalues (m : jsmap) : list V := m.*2.

Lemma elem_of_mset k v m x : x ∈ mset k v m -> x = (k, v) \/ x ∈ m.
Proof.
  induction m as [|[k' v'] m IH]; simpl.
  - intros ->%list_elem_of_singleton. by left.
  - destruct (decide (k' = k)) as [->|Hne]; intros [->|Hx]%elem_of_cons.
    + by left.
    + right. by right.
    + right. left.
    + destruct (IH Hx); [by left|right; by right].
Qed.
Lemma mget_mset_eq k v m : mget k (mset k v m) = Some v.
Proof.
  induction m as [|[k' v'] m IH]; simpl; [by rewrite decide_True|].
  destruct (decide (k' = k)) as [->|]; simpl; [by rewrite decide_True|by rewrite decide_False].
Qed.
Lemma mget_mset_ne k k' v m : k <> k' -> mget k' (mset k v m) = mget k' m.
Proof.
  intros Hk. induction m as [|[j w] m IH]; simpl; [by rewrite decide_False|].
  destruct (decide (j = k)) as [->|]; simpl; [by rewrite !decide_False by done|].
  destruct (decide (j = k')); done.
Qed.
Lemma mget_none k m : mget k m = None <-> k ∉ m.*1.
Proof.
  induction m as [|[k' v] m IH]; simpl; [set_solver|].
  destruct (decide (k' = k)) as [->|]; [set_solver|]. rewrite IH. set_solver.
Qed.
Lemma mget_elem k v m : mget k m = Some v -> (k, v) ∈ m.
Proof.
  induction m as [|[k' v'] m IH]; simpl; [done|].
  destruct (decide (k' = k)) as [->|]; [intros [= ->]; left|]. right. auto.
Qed.
Lemma mget_NoDup k v m : NoDup m.*1 -> (k, v) ∈ m -> mget k m = Some v.
Proof.
  induction m as [|[k' v'] m IH]; simpl; [by intros _ ?%elem_of_nil|].
  intros [Hk Hd]%NoDup_cons [[= -> ->]|Hin]%elem_of_cons; [by rewrite decide_True|].
  rewrite decide_False; [auto|]. intros ->. apply Hk, list_elem_of_fmap. by exists (k, v).
Qed.
Lemma keys_mset k v m : (mset k v m).*1 = if decide (k ∈ m.*1) then m.*1 else m.*1 ++ [k].
Proof.
  induction m as [|[k' v'] m IH]; csimpl; [done|].
  destruct (decide (k' = k)) as [->|Hne]; csimpl.
  - rewrite decide_True; [done|left].
  - rewrite IH.
    destruct (decide (k ∈ m.*1)) as [H|H].
    + rewrite decide_True; [done|by right].
    + rewrite decide_False; [done|]. intros [->|?]%elem_of_cons; done.
Qed.
Lemma mset_NoDup k v m : NoDup m.*1 -> NoDup (mset k v m).*1.
Proof.
  intros H. rewrite keys_mset. destruct (decide _); [done|].
  apply NoDup_app. split; [done|]. split; [|apply NoDup_singleton].
  intros x Hx ->%list_elem_of_singleton. done.
Qed.
End Map.
Arguments jsmap : clear implicits.

(** * Group-by loops *)

Section Accumulate.
Context {K V X : Type} `{EqDecision K} (key : X -> K) (init : X -> V) (upd : V -> X -> V).

(** [const cur = m.get(key) ?? init; update cur; m.set(key, cur)] *)
Definition accumulate (m : jsmap K V) (x : X) : jsmap K V :=
  mset (key x) (upd (default (init x) (mget (key x) m)) x) m.

(** The items of one key. *)
Definition of_key (k : K) (l : list X) : list X := List.filter (fun x => bool_decide (key x = k)) l.

(** Lists that agree key by key are permutations of each other. *)
Lemma perm_of_keys l l' : (forall k, of_key k l ≡ₚ of_key k l') -> l ≡ₚ l'.
Proof.
  revert l'. induction l as [|x l IH]; intros l' H.
  - destruct l' as [|y l']; [done|]. specialize (H (key y)). unfold of_key in H. simpl in H.
    rewrite bool_decide_true in H by done. by apply Permutation_nil_cons in H.
  - assert (x ∈ l') as (a & b & ->)%list_elem_of_split.
    { assert (x ∈ of_key (key x) l') as Hx; [|by apply elem_of_bfilter in Hx as [? _]].
      rewrite <-(H (key x)). unfold of_key. simpl. rewrite bool_decide_true by done. by left. }
    etrans; [|apply Permutation_middle]. constructor. apply IH. intros k. specialize (H k).
    unfold of_key in *. rewrite !bfilter_app in *. simpl in H.
    destruct (bool_decide (key x = k)); [|done]. rewrite <-Permutation_middle in H. by apply Permutation_cons_inv in H.
Qed.

(** The value built from the items of a key: the first one starts it. *)
Definition gathered (l : list X) : option V :=
  match l with [] => None | x :: _ => Some (fold_left upd l (init x)) end.

Lemma gathered_snoc l x :
  gathered (l ++ [x]) = Some (upd (default (init x) (gathered l)) x).
Proof. destruct l; simpl; [done|]. by rewrite fold_left_app. Qed.

(** The loop computes, for every key, the value built from its items in
    order, and has the keys in order of first appearance. *)
Lemma accumulate_get l k : mget k (fold_left accumulate l []) = gathered (of_key k l).
Proof.
  induction l as [|x l IH] using rev_ind; simpl; [done|].
  rewrite fold_left_app. unfold of_key in *. rewrite bfilter_app. simpl. unfold accumulate at 1.
  case_bool_decide as Hk.
  - subst k. by rewrite mget_mset_eq, gathered_snoc, IH.
  - by rewrite mget_mset_ne, IH, app_nil_r.
Qed.
Lemma accumulate_keys_elem l k : k ∈ (fold_left accumulate l []).*1 <-> k ∈ map key l.
Proof.
  rewrite elem_of_map. split.
  - intros H. destruct (of_key k l) as [|x t] eqn:E.
    + exfalso. assert (Hn : mget k (fold_left accumulate l []) = None) by (by rewrite accumulate_get, E).
      by apply mget_none in Hn.
    + assert (Hx : x ∈ of_key k l) by (rewrite E; left).
      apply elem_of_bfilter in Hx as [Hx <-%bool_decide_eq_true]. eauto.
  - intros (x & -> & Hx).
    destruct (decide (key x ∈ (fold_left accumulate l []).*1)) as [|Hn]; [done|].
    apply mget_none in Hn. rewrite accumulate_get in Hn.
    assert (Hin : x ∈ of_key (key x) l) by (apply elem_of_bfilter; by rewrite bool_decide_true).
    destruct (of_key (key x) l); [by apply elem_of_nil in Hin|done].
Qed.
Lemma accumulate_NoDup l : NoDup (fold_left accumulate l []).*1.
Proof.
  induction l as [|x l IH] using rev_ind; simpl; [constructor|].
  rewrite fold_left_app. by apply mset_NoDup.
Qed.

(** An entry of the result is the value of its key. *)
Lemma accumulate_entry l k v :
  (k, v) ∈ fold_left accumulate l [] <-> gathered (of_key k l) = Some v.
Proof.
  rewrite <- accumulate_get. split; [apply mget_NoDup, accumulate_NoDup | apply mget_elem].
Qed.

(** A property of the values that the first item and every update keep. *)
Lemma accumulate_ind (P : K -> V -> Prop) l k v :
  (forall x, x ∈ l -> P (key x) (init x)) ->
  (forall x w, x ∈ l -> P (key x) w -> P (key x) (upd w x)) ->
  (k, v) ∈ fold_left accumulate l [] -> P k v.
Proof.
  intros Hi Hu Hin. apply accumulate_entry in Hin.
  assert (Hof : forall y, y ∈ of_key k l -> y ∈ l /\ key y = k).
  { intros y [Hy ?%bool_decide_eq_true]%elem_of_bfilter. done. }
  destruct (of_key k l) as [|x t]; [done|]. injection Hin as <-.
  destruct (Hof x) as [Hx <-]; [left|]. change (fold_left upd t (upd (init x) x))
    with (fold_left upd (x :: t) (init x)).
  assert (H0 : P (key x) (init x)) by auto. revert H0. generalize (init x).
  induction (x :: t) as [|y t' IH]; intros w Hw; simpl; [done|].
  destruct (Hof y) as [Hy Ey]; [left|].
  apply IH; [intros z Hz; apply Hof; by right|]. rewrite <- Ey in *. auto.
Qed.
End Accumulate.

(** * sort *)

Section Sort.
Context {A : Type} (cmp : A -> A -> jsnum).

(** [x] moves left past the elements that the comparator puts after it. *)
Fixpoint sort_insert (x : A) (l : list A) : list A :=
  match l with
  | [] => [x]
  | y :: t => if num_ltb (num 0) (cmp y x) then x :: l else y :: sort_insert x t
  end.

(** [l.sort(cmp)] *)
Definition sort (l : list A) : list A := fold_left (fun acc x => sort_insert x acc) l [].

Lemma sort_insert_perm x l : sort_insert x l ≡ₚ x :: l.
Proof.
  induction l as [|y l IH]; simpl; [done|]. destruct (num_ltb _ _); [done|].
  rewrite IH. apply Permutation_swap.
Qed.
Lemma sort_perm l : sort l ≡ₚ l.
Proof.
  unfold sort. induction l as [|x l IH] using rev_ind; simpl; [done|].
  rewrite fold_left_app. simpl. rewrite sort_insert_perm, IH. apply Permutation_cons_append.
Qed.
Lemma elem_of_sort x l : x ∈ sort l <-> x ∈ l.
Proof. by rewrite sort_perm. Qed.

(** The result is sorted for any transitive relation that the sign of the
    comparator decides on the elements sorted. *)
Lemma sort_sorted (R : A -> A -> Prop) (P : A -> Prop) l :
  (forall x y z, P x -> P y -> P z -> R x y -> R y z -> R x z) ->
  (forall x y, P x -> P y -> num_ltb (num 0) (cmp y x) = true -> R x y) ->
  (forall x y, P x -> P y -> num_ltb (num 0) (cmp y x) = false -> R y x) ->
  Forall P l -> StronglySorted R (sort l).
Proof.
  intros Htr Hgt Hle. unfold sort.
  assert (Hins : forall x l, P x -> Forall P l -> StronglySorted R l ->
                 StronglySorted R (sort_insert x l)).
  { intros x k Hx. induction k as [|y k IH]; intros Hk Hs; simpl; [repeat constructor|].
    inversion Hk as [|? ? Hy Hk']; subst. inversion Hs as [|? ? Hs' Hyk]; subst.
    destruct (num_ltb _ _) eqn:E.
    - constructor; [done|]. constructor; [by apply Hgt|].
      rewrite Forall_forall in *. intros z Hz. eapply (Htr x y z); auto.
    - constructor; [auto|]. rewrite sort_insert_perm. constructor; [by apply Hle|done]. }
  induction l as [|x l IH] using rev_ind; simpl; [constructor|].
  rewrite Forall_app, Forall_singleton. intros [Hl Hx].
  rewrite fold_left_app. simpl. apply Hins; [done| |auto].
  change (Forall P (sort l)). by rewrite sort_perm.
Qed.
End Sort.

(** Sorting commutes with a map that the comparator does not see. *)
Lemma sort_map {A B} (cmp : A -> A -> jsnum) (cmp' : B -> B -> jsnum) (f : A -> B) l :
  (forall x y, cmp' (f x) (f y) = cmp x y) -> sort cmp' (map f l) = map f (sort cmp l).
Proof.
  intros Hc. unfold sort.
  assert (Hi : forall x k, sort_insert cmp' (f x) (map f k) = map f (sort_insert cmp x k)).
  { intros x k. induction k as [|y k IH]; simpl; [done|]. rewrite Hc, IH. by destruct (num_ltb _ _). }
  induction l as [|x l IH] using rev_ind; simpl; [done|].
  by rewrite map_app, !fold_left_app, IH; simpl; rewrite Hi.
Qed.
