(* ===== verification/Json.v ===== *)
(** JSON values and plain objects of JavaScript: property access and
    assignment in the order ECMAScript gives to own properties,
    [JSON.parse], [JSON.stringify], [String(v)].  The round trip of quoted
    strings and of number-free values is proved here for the components that
    store their settings as JSON text. *)
From stdpp Require Import sorting.
From S2P Require Import Prelude JsNumber.

(** * Plain objects *)

(** The own properties of an object in property order. *)
Abbreviation obj A := (list (jsstr * A)) (only parsing).

(** The array index a key spells, if any: such keys come first, ascending. *)
Definition index_key (k : jsstr) : option Z :=
  match k with
  | [] => None
  | c :: t =>
      if forallb is_digit k && (negb (N.eqb c 48) || negb (truthy t))
         && (digits_val k <? 4294967295)%Z
      then Some (digits_val k) else None
  end.

(** Does a new key [k] go before the existing key [k']? *)
Definition key_before (k k' : jsstr) : bool :=
  match index_key k, index_key k' with
  | Some i, Some j => (i <? j)%Z
  | Some _, None => true
  | None, _ => false
  end.

Section Objects.
Context {A : Type}.

(** [o[k]], [None] for undefined. *)
Fixpoint obj_get (k : jsstr) (o : obj A) : option A :=
  match o with
  | [] => None
  | (k', v) :: t => if str_eqb k k' then Some v else obj_get k t
  end.

(** A new property goes to its place in property order. *)
Fixpoint obj_insert (k : jsstr) (v : A) (o : obj A) : obj A :=
  match o with
  | [] => [(k, v)]
  | (k', v') :: t =>
      if key_before k k' then (k, v) :: o else (k', v') :: obj_insert k v t
  end.
Fixpoint obj_replace (k : jsstr) (v : A) (o : obj A) : obj A :=
  match o with
  | [] => []
  | (k', v') :: t =>
      if str_eqb k k' then (k', v) :: t else (k', v') :: obj_replace k v t
  end.

(** [o[k] = v] on an own property. *)
Definition obj_set (k : jsstr) (v : A) (o : obj A) : obj A :=
  match obj_get k o with
  | Some _ => obj_replace k v o
  | None => obj_insert k v o
  end.

(** [delete o[k]] on an own property. *)
Definition obj_delete (k : jsstr) (o : obj A) : obj A := List.filter (fun kv => negb (str_eqb kv.1 k)) o.

(** The object with the entries [l] assigned in order. *)
Definition obj_of (l : list (jsstr * A)) : obj A :=
  fold_left (fun o kv => obj_set kv.1 kv.2 o) l [].

(** Objects in property order without repeated keys: what assignments build. *)
Definition obj_ok (o : obj A) : Prop := obj_of o = o.

Lemma obj_get_replace k k' v (o : obj A) :
  obj_get k (obj_replace k' v o) =
  if str_eqb k k' then (fun _ => v) <$> obj_get k o else obj_get k o.
Proof.
  induction o as [|[k1 v1] o IH]; simpl; [by destruct (str_eqb k k')|].
  destruct (str_eqb k' k1) eqn:E1; simpl.
  - js_reflect; subst k1. by destruct (str_eqb k k').
  - rewrite IH. destruct (str_eqb k k1) eqn:E2; [|done].
    js_reflect; subst k1. apply not_eq_sym in E1. by rewrite (proj2 (str_eqb_false k k') E1).
Qed.
Lemma obj_get_insert k k' v (o : obj A) :
  obj_get k' o = None ->
  obj_get k (obj_insert k' v o) = if str_eqb k k' then Some v else obj_get k o.
Proof.
  induction o as [|[k1 v1] o IH]; simpl; [done|].
  destruct (str_eqb k' k1) eqn:E1; [done|]. intros Hn.
  destruct (key_before k' k1); simpl; [done|].
  rewrite IH by done. destruct (str_eqb k k1) eqn:E2; [|done].
  js_reflect; subst k1. apply not_eq_sym in E1. by rewrite (proj2 (str_eqb_false k k') E1).
Qed.
(** Reading after an assignment. *)
Lemma obj_get_set k k' v (o : obj A) :
  obj_get k (obj_set k' v o) = if str_eqb k k' then Some v else obj_get k o.
Proof.
  unfold obj_set. destruct (obj_get k' o) eqn:E.
  - rewrite obj_get_replace. destruct (str_eqb k k') eqn:Ek; [|done].
    js_reflect; subst. by rewrite E.
  - by apply obj_get_insert.
Qed.
Lemma obj_get_set_eq k v (o : obj A) : obj_get k (obj_set k v o) = Some v.
Proof. by rewrite obj_get_set, str_eqb_refl. Qed.
Lemma obj_get_set_ne k k' v (o : obj A) :
  k <> k' -> obj_get k (obj_set k' v o) = obj_get k o.
Proof. intros H. by rewrite obj_get_set, (proj2 (str_eqb_false k k') H). Qed.

Lemma obj_get_elem k (o : obj A) v : obj_get k o = Some v -> (k, v) ∈ o.
Proof.
  induction o as [|[k1 v1] o IH]; simpl; [done|].
  destruct (str_eqb k k1) eqn:E; intros H.
  - js_reflect; simplify_eq. left.
  - right. by apply IH.
Qed.
Lemma obj_get_none k (o : obj A) : obj_get k o = None <-> k ∉ o.*1.
Proof.
  induction o as [|[k1 v1] o IH]; simpl; [split; [intros _; apply not_elem_of_nil|done]|].
  destruct (str_eqb k k1) eqn:E; js_reflect.
  - subst. split; [done|]. intros H; destruct H; left.
  - rewrite IH, not_elem_of_cons. naive_solver.
Qed.
Lemma obj_get_NoDup k v (o : obj A) : NoDup o.*1 -> (k, v) ∈ o -> obj_get k o = Some v.
Proof.
  induction o as [|[x w] o IH]; intros Hn Hin; [by apply elem_of_nil in Hin|]. apply NoDup_cons in Hn as [Hx Hn]. cbn.
  apply elem_of_cons in Hin as [[= -> ->]|Hin]; [by rewrite str_eqb_refl|].
  destruct (str_eqb k x) eqn:E; [|by apply IH]. apply str_eqb_true in E as ->.
  exfalso. apply Hx. apply list_elem_of_fmap. by exists (x, v).
Qed.
Lemma elem_obj_insert k v (o : obj A) x : x ∈ obj_insert k v o <-> x = (k, v) \/ x ∈ o.
Proof.
  induction o as [|[k1 v1] o IH]; simpl.
  - rewrite list_elem_of_singleton. split; [by left|]. by intros [?|?%elem_of_nil].
  - destruct (key_before k k1); rewrite !elem_of_cons, ?IH, ?elem_of_cons; tauto.
Qed.
Lemma obj_replace_fst k v (o : obj A) : (obj_replace k v o).*1 = o.*1.
Proof. induction o as [|[k1 v1] o IH]; simpl; [done|]. by destruct (str_eqb k k1); csimpl; [|f_equal]. Qed.
Lemma obj_set_NoDup k v (o : obj A) : NoDup o.*1 -> NoDup (obj_set k v o).*1.
Proof.
  unfold obj_set. destruct (obj_get k o) eqn:E; [by rewrite obj_replace_fst|].
  apply obj_get_none in E. revert E. induction o as [|[k1 v1] o IH]; simpl; intros E Hd.
  - constructor; [apply not_elem_of_nil|constructor].
  - apply not_elem_of_cons in E as [E1 E2].
    destruct (key_before k k1); simpl; [by constructor; [apply not_elem_of_cons|]|].
    apply NoDup_cons in Hd as [Hd1 Hd2].
    constructor; [|by apply IH]. intros ([k2 v2] & -> & Hin)%list_elem_of_fmap.
    apply elem_obj_insert in Hin as [?|Hin]; simplify_eq/=.
    apply Hd1. apply list_elem_of_fmap. by exists (k2, v2).
Qed.
Lemma obj_of_NoDup l : NoDup (obj_of l).*1.
Proof.
  unfold obj_of. assert (H : NoDup (@nil (jsstr * A)).*1) by constructor.
  revert H. generalize (@nil (jsstr * A)). induction l as [|[k v] l IH]; intros o H; simpl; [done|].
  by apply IH, obj_set_NoDup.
Qed.

Lemma elem_obj_set k v (o : obj A) x : x ∈ obj_set k v o -> x = (k, v) \/ x ∈ o.
Proof.
  unfold obj_set. destruct (obj_get k o) eqn:E; [|by intros ?%elem_obj_insert].
  clear E. induction o as [|[k1 v1] o IH]; simpl; [by right|].
  destruct (str_eqb k k1) eqn:E; js_reflect.
  - subst. intros [->|?]%elem_of_cons; [by left|]. right. by right.
  - intros [->|H]%elem_of_cons; [right; by left|]. destruct (IH H) as [?|?]; [by left|]. right. by right.
Qed.
Lemma obj_get_delete k k' (o : obj A) : obj_get k (obj_delete k' o) = if str_eqb k k' then None else obj_get k o.
Proof.
  unfold obj_delete. induction o as [|[x v] o IH]; cbn; [by destruct (str_eqb k k')|].
  destruct (str_eqb x k') eqn:E1; cbn; rewrite IH.
  - apply str_eqb_true in E1 as ->. by destruct (str_eqb k k').
  - destruct (str_eqb k x) eqn:E2; [|done]. apply str_eqb_true in E2 as ->. by rewrite E1.
Qed.
Lemma elem_obj_delete k (o : obj A) x : x ∈ obj_delete k o -> x ∈ o.
Proof. unfold obj_delete. rewrite !list_elem_of_In. by intros [H _]%filter_In. Qed.
Lemma obj_delete_NoDup k (o : obj A) : NoDup o.*1 -> NoDup (obj_delete k o).*1.
Proof.
  induction o as [|[x v] o IH]; [done|]. csimpl. intros [Hx Hd]%NoDup_cons. unfold obj_delete. cbn.
  destruct (str_eqb x k); cbn; [by apply IH|]. csimpl. constructor; [|by apply IH].
  intros (y & -> & Hy)%list_elem_of_fmap. apply Hx, list_elem_of_fmap. exists y. split; [done|]. by apply elem_obj_delete in Hy.
Qed.

(** ** Property order *)

(** No key goes before an earlier one. *)
Definition ordered (o : obj A) : Prop :=
  StronglySorted (fun a b => key_before b.1 a.1 = false) o.
Definition canonical (o : obj A) : Prop := NoDup o.*1 /\ ordered o.

Lemma obj_insert_end k v (o : obj A) :
  Forall (fun kv => key_before k kv.1 = false) o -> obj_insert k v o = o ++ [(k, v)].
Proof. induction 1 as [|[k1 v1] o H Ho IH]; simpl in *; [done|]. by rewrite H, IH. Qed.

Lemma key_before_asym a b : key_before a b = true -> key_before b a = false.
Proof.
  unfold key_before. destruct (index_key a), (index_key b); try done.
  rewrite Z.ltb_lt, Z.ltb_ge. lia.
Qed.

Lemma obj_insert_ordered k v (o : obj A) : ordered o -> ordered (obj_insert k v o).
Proof.
  induction 1 as [|[k1 v1] o Ho IH Hk]; simpl; [by repeat constructor|].
  destruct (key_before k k1) eqn:E.
  - constructor; [by constructor|]. constructor; [by apply key_before_asym|].
    eapply Forall_impl; [exact Hk|]. intros [k2 v2] H2; simpl in *.
    destruct (key_before k2 k) eqn:E2; [|done].
    unfold key_before in *. destruct (index_key k), (index_key k1), (index_key k2); try done.
    rewrite ?Z.ltb_lt, ?Z.ltb_ge in *. lia.
  - constructor; [done|]. apply Forall_forall. intros x [->|Hx]%elem_obj_insert; [done|].
    rewrite Forall_forall in Hk. by apply Hk.
Qed.
Lemma obj_replace_ordered k v (o : obj A) : ordered o -> ordered (obj_replace k v o).
Proof.
  induction 1 as [|[k1 v1] o Ho IH Hk]; simpl; [constructor|].
  destruct (str_eqb k k1); constructor; try done.
  assert (Hf : Forall (fun k2 => key_before k2 k1 = false) o.*1) by (by apply Forall_fmap).
  rewrite <- (obj_replace_fst k v o) in Hf. by apply Forall_fmap in Hf.
Qed.
Lemma obj_set_canonical k v (o : obj A) : canonical o -> canonical (obj_set k v o).
Proof.
  intros [Hd Ho]. split; [by apply obj_set_NoDup|]. unfold obj_set.
  destruct (obj_get k o); [by apply obj_replace_ordered|by apply obj_insert_ordered].
Qed.
Lemma obj_replace_same k v (o : obj A) : obj_get k o = Some v -> obj_replace k v o = o.
Proof.
  induction o as [|[k1 v1] o IH]; simpl; [done|].
  destruct (str_eqb k k1); intros; [by simplify_eq|]. by rewrite IH.
Qed.
Lemma obj_set_same k v (o : obj A) : obj_get k o = Some v -> obj_set k v o = o.
Proof. intros H. unfold obj_set. rewrite H. by apply obj_replace_same. Qed.
Lemma obj_delete_canonical k (o : obj A) : canonical o -> canonical (obj_delete k o).
Proof.
  intros [Hd Ho]. split; [by apply obj_delete_NoDup|]. clear Hd. unfold obj_delete.
  induction Ho as [|e o Ho IH He]; simpl; [constructor|]. destruct (str_eqb e.1 k); simpl; [done|].
  constructor; [done|]. apply Forall_forall. intros x Hx%elem_obj_delete. rewrite Forall_forall in He. by apply He.
Qed.
Lemma canonical_nil : canonical [].
Proof. split; constructor. Qed.
Lemma canonical_ok (o : obj A) : canonical o -> obj_ok o.
Proof.
  intros [Hd Ho]. unfold obj_ok, obj_of.
  enough (H : forall l a, NoDup (a ++ l).*1 -> ordered (a ++ l) ->
              fold_left (fun o kv => obj_set kv.1 kv.2 o) l a = a ++ l) by by apply (H o []).
  clear. induction l as [|[k v] l IH]; intros a Hd Ho; simpl; [by rewrite app_nil_r|].
  assert (Hn : obj_get k a = None).
  { apply obj_get_none. rewrite fmap_app in Hd. intros Hin.
    apply NoDup_app in Hd as (_ & Hd & _). apply (Hd k Hin). left. }
  unfold obj_set. rewrite Hn, obj_insert_end.
  - rewrite IH; rewrite <- ?app_assoc; done.
  - apply Forall_forall. intros x Hx.
    apply (StronglySorted_app_1_elem_of _ _ _ x (k, v) Ho Hx). by left.
Qed.
End Objects.

(** Property order is a matter of keys only. *)
Lemma canonical_map {A B} (f : A -> B) (o : obj A) :
  canonical o -> canonical (map (fun e => (e.1, f e.2)) o).
Proof.
  assert (Hk : forall o : obj A, (map (fun e => (e.1, f e.2)) o).*1 = o.*1).
  { clear o. intros o. induction o as [|e o IH]; [done|]. csimpl. by f_equal. }
  intros [Hd Ho]. split; [by rewrite Hk|]. clear Hd.
  induction Ho as [|e o Ho IH He]; simpl; constructor; [done|].
  assert (Hf : Forall (fun k => key_before k e.1 = false) o.*1) by (by apply Forall_fmap).
  rewrite <- Hk in Hf. by apply Forall_fmap in Hf.
Qed.
Lemma obj_get_map {A B} (f : A -> B) k (o : obj A) :
  obj_get k (map (fun e => (e.1, f e.2)) o) = f <$> obj_get k o.
Proof. induction o as [|[k1 v1] o IH]; simpl; [done|]. by destruct (str_eqb k k1). Qed.

(** * JSON values *)

Inductive json :=
| JNull
| JBool (b : bool)
| JNum (n : jsnum)
| JStr (s : jsstr)
| JArr (l : list json)
| JObj (o : obj json).

(** Induction that reaches the elements of arrays and objects. *)
Lemma json_rec' (P : json -> Prop) :
  P JNull -> (forall b, P (JBool b)) -> (forall n, P (JNum n)) -> (forall s, P (JStr s)) ->
  (forall l, Forall P l -> P (JArr l)) ->
  (forall o, Forall (fun kv => P kv.2) o -> P (JObj o)) ->
  forall j, P j.
Proof.
  intros Hnull Hbool Hnum Hstr Harr Hobj. fix F 1. intros [| b | n | s | l | o].
  - exact Hnull.
  - apply Hbool.
  - apply Hnum.
  - apply Hstr.
  - apply Harr. induction l as [|x l IH]; constructor; [apply F | exact IH].
  - apply Hobj. induction o as [|[k v] o IH]; constructor; [apply F | exact IH].
Qed.

(** [v.k] of a value that may be undefined: [v?.k]. *)
Definition prop (k : jsstr) (v : option json) : option json :=
  match v with Some (JObj o) => obj_get k o | _ => None end.

(** [Boolean(v)] *)
Definition json_truthy (v : option json) : bool :=
  match v with
  | None | Some JNull => false
  | Some (JBool b) => b
  | Some (JNum n) => num_truthy n
  | Some (JStr s) => truthy s
  | Some (JArr _) | Some (JObj _) => true
  end.

(** [!v || typeof v !== 'object' || Array.isArray(v)] is the code's test that
    a parsed value is not a plain object; this is its contents otherwise. *)
Definition as_object (v : json) : option (obj json) :=
  match v with JObj o => Some o | _ => None end.

(** The entries [Object.entries(v)] of an object or array. *)
Definition entries (v : json) : obj json :=
  match v with
  | JObj o => o
  | JArr l => imap (fun i x => (digits (Z.of_nat i), x)) l
  | _ => []
  end.

(** [String(v)]: arrays join their elements, with null as the empty string. *)
Fixpoint json_to_string (v : json) : jsstr :=
  match v with
  | JNull => "null"
  | JBool b => if b then "true" else "false"
  | JNum n => num_to_string n
  | JStr s => s
  | JArr l => join "," (map (fun x => match x with JNull => [] | _ => json_to_string x end) l)
  | JObj _ => "[object Object]"
  end.

(** [Number(v)] of a value or undefined. *)
Definition json_to_number (v : option json) : jsnum :=
  match v with
  | None => nan
  | Some JNull => num 0
  | Some (JBool b) => num (if b then 1 else 0)
  | Some (JNum n) => n
  | Some j => string_to_number (json_to_string j)
  end.

(** The own properties that a spread [{ ...v }] copies: the entries of an array
    are its indices, those of a string its code units, other values have none. *)
Definition own_entries (v : json) : obj json :=
  match v with
  | JStr s => imap (fun i c => (digits (Z.of_nat i), JStr [c])) s
  | _ => entries v
  end.

(** * JSON.stringify *)

Definition is_lead (c : N) : bool := ((55296 <=? c) && (c <=? 56319))%N.
Definition is_trail (c : N) : bool := ((56320 <=? c) && (c <=? 57343))%N.

Definition hex_unit (d : N) : N := (if d <? 10 then d + 48 else d + 87)%N.
Definition unicode_escape (c : N) : jsstr :=
  [backslash; 117; hex_unit (c / 4096); hex_unit (c / 256 mod 16);
   hex_unit (c / 16 mod 16); hex_unit (c mod 16)]%N.

(** The unit after the backslash of the short escapes. *)
Definition short_escape (c : N) : option N :=
  (if c =? 8 then Some 98 else if c =? 9 then Some 116 else if c =? 10 then Some 110
   else if c =? 12 then Some 102 else if c =? 13 then Some 114
   else if c =? 34 then Some 34 else if c =? 92 then Some 92 else None)%N.

Definition quote_unit (c : N) : jsstr :=
  match short_escape c with
  | Some e => [backslash; e]
  | None => if (c <? 32)%N then unicode_escape c else [c]
  end.

(** The contents of the quoted string; a surrogate without its other half is
    escaped. *)
Fixpoint quote_body (s : jsstr) : jsstr :=
  match s with
  | [] => []
  | c :: t =>
      if is_lead c then
        match t with
        | d :: t' => if is_trail d then c :: d :: quote_body t'
                     else unicode_escape c ++ quote_body t
        | [] => unicode_escape c
        end
      else (if is_trail c then unicode_escape c else quote_unit c) ++ quote_body t
  end.

(** [JSON.stringify(s)] on a string. *)
Definition quote (s : jsstr) : jsstr := [dquote] ++ quote_body s ++ [dquote].

(** [JSON.stringify(v)] *)
Fixpoint stringify (v : json) : jsstr :=
  match v with
  | JNull => "null"
  | JBool b => if b then "true" else "false"
  | JNum n => if is_finite n then num_to_string n else "null"
  | JStr s => quote s
  | JArr l => "[" ++ join "," (map stringify l) ++ "]"
  | JObj o => "{" ++ join "," (map (fun kv => quote kv.1 ++ ":" ++ stringify kv.2) o) ++ "}"
  end.

(** * JSON.parse *)

Definition is_json_space (c : N) : bool := ((c =? 9) || (c =? 10) || (c =? 13) || (c =? 32))%N.

Fixpoint skip_ws (s : jsstr) : jsstr :=
  match s with
  | c :: t => if is_json_space c then skip_ws t else s
  | [] => []
  end.

Definition hex_val (c : N) : option N :=
  (if (48 <=? c) && (c <=? 57) then Some (c - 48)
   else if (97 <=? c) && (c <=? 102) then Some (c - 87)
   else if (65 <=? c) && (c <=? 70) then Some (c - 55) else None)%N.

Definition hex4 (a b c d : N) : option N :=
  x ← hex_val a; y ← hex_val b; z ← hex_val c; w ← hex_val d;
  Some (x * 4096 + y * 256 + z * 16 + w)%N.

(** The unit a short escape stands for. *)
Definition unescape (e : N) : option N :=
  (if e =? 98 then Some 8 else if e =? 116 then Some 9 else if e =? 110 then Some 10
   else if e =? 102 then Some 12 else if e =? 114 then Some 13
   else if e =? 34 then Some 34 else if e =? 92 then Some 92
   else if e =? 47 then Some 47 else None)%N.

(** The rest of a string literal after its opening quote. *)
Fixpoint parse_str (s : jsstr) : option (jsstr * jsstr) :=
  match s with
  | [] => None
  | c :: t =>
      if N.eqb c dquote then Some ([], t)
      else if N.eqb c backslash then
        match t with
        | e :: t1 =>
            if N.eqb e 117 then
              match t1 with
              | h1 :: h2 :: h3 :: h4 :: t2 =>
                  u ← hex4 h1 h2 h3 h4; p ← parse_str t2; Some (u :: p.1, p.2)
              | _ => None
              end
            else u ← unescape e; p ← parse_str t1; Some (u :: p.1, p.2)
        | [] => None
        end
      else if (c <? 32)%N then None
      else p ← parse_str t; Some (c :: p.1, p.2)
  end.

(** The lexeme of a JSON number at the head of [s]. *)
Definition number_lexeme (s : jsstr) : option (jsstr * jsstr) :=
  let '(sg, s1) := match s with 45%N :: t => ([45%N], t) | _ => ([], s) end in
  let '(ip, s2) := span is_digit s1 in
  let ok_int := match ip with [] => false | [_] => true | c :: _ => negb (N.eqb c 48) end in
  let '(fp, s3) :=
    match s2 with
    | 46%N :: t => match span is_digit t with
                   | ((_ :: _) as ds, t') => (46%N :: ds, t')
                   | _ => ([], s2)
                   end
    | _ => ([], s2)
    end in
  let '(ep, s4) :=
    match s3 with
    | c :: t =>
        if N.eqb c 101 || N.eqb c 69 then
          let '(es, t1) := match t with
                           | d :: t' => if N.eqb d 43 || N.eqb d 45 then ([d], t') else ([], t)
                           | [] => ([], []) end in
          match span is_digit t1 with
          | ((_ :: _) as ds, t2) => (c :: es ++ ds, t2)
          | _ => ([], s3)
          end
        else ([], s3)
    | [] => ([], s3)
    end in
  if ok_int then Some (sg ++ ip ++ fp ++ ep, s4) else None.

Definition parse_number (s : jsstr) : option (json * jsstr) :=
  p ← number_lexeme s; Some (JNum (to_number p.1), p.2).

(** Values, array elements after [[] or [,], and object members after [{] or
    [,]; the fuel bounds the calls, see [parse_fuel]. *)
Fixpoint parse_value (fuel : nat) (s : jsstr) : option (json * jsstr) :=
  match fuel with
  | O => None
  | S f =>
      match skip_ws s with
      | [] => None
      | c :: t =>
          if N.eqb c dquote then p ← parse_str t; Some (JStr p.1, p.2)
          else if N.eqb c 91 then
            match skip_ws t with
            | 93%N :: t' => Some (JArr [], t')
            | _ => p ← parse_elems f t; Some (JArr p.1, p.2)
            end
          else if N.eqb c 123 then
            match skip_ws t with
            | 125%N :: t' => Some (JObj [], t')
            | _ => p ← parse_members f t; Some (JObj (obj_of p.1), p.2)
            end
          else if starts_with "null" (c :: t) then Some (JNull, drop 4 (c :: t))
          else if starts_with "true" (c :: t) then Some (JBool true, drop 4 (c :: t))
          else if starts_with "false" (c :: t) then Some (JBool false, drop 5 (c :: t))
          else parse_number (c :: t)
      end
  end
with parse_elems (fuel : nat) (s : jsstr) : option (list json * jsstr) :=
  match fuel with
  | O => None
  | S f =>
      p ← parse_value f s;
      match skip_ws p.2 with
      | 93%N :: t => Some ([p.1], t)
      | 44%N :: t => q ← parse_elems f t; Some (p.1 :: q.1, q.2)
      | _ => None
      end
  end
with parse_members (fuel : nat) (s : jsstr) : option (list (jsstr * json) * jsstr) :=
  match fuel with
  | O => None
  | S f =>
      match skip_ws s with
      | 34%N :: t =>
          k ← parse_str t;
          match skip_ws k.2 with
          | 58%N :: t1 =>
              p ← parse_value f t1;
              match skip_ws p.2 with
              | 125%N :: t2 => Some ([(k.1, p.1)], t2)
              | 44%N :: t2 => q ← parse_members f t2; Some ((k.1, p.1) :: q.1, q.2)
              | _ => None
              end
          | _ => None
          end
      | _ => None
      end
  end.

(** [JSON.parse(s)]; [None] is the SyntaxError. *)
Definition parse_fuel (s : jsstr) : nat := 2 * length s + 2.
Definition parse (s : jsstr) : option json :=
  p ← parse_value (parse_fuel s) s;
  match skip_ws p.2 with [] => Some p.1 | _ => None end.

(** * Round trips *)

Lemma hex_val_unit d : (d < 16)%N -> hex_val (hex_unit d) = Some d.
Proof.
  intros H. unfold hex_val, hex_unit.
  destruct (N.ltb_spec d 10).
  - rewrite (proj2 (N.leb_le _ _)), (proj2 (N.leb_le _ _)) by lia. simpl. f_equal; lia.
  - rewrite (proj2 (N.leb_gt (d + 87) 57)), andb_false_r by lia.
    rewrite (proj2 (N.leb_le _ _)), (proj2 (N.leb_le _ _)) by lia. simpl. f_equal; lia.
Qed.

Lemma unicode_escape_hex c :
  (c < 65536)%N ->
  hex4 (hex_unit (c / 4096)) (hex_unit (c / 256 mod 16)) (hex_unit (c / 16 mod 16))
       (hex_unit (c mod 16)) = Some c.
Proof.
  intros H. unfold hex4.
  rewrite !hex_val_unit by (try apply N.mod_lt; try (apply N.Div0.div_lt_upper_bound); lia).
  simpl. f_equal.
  pose proof (N.div_mod' c 16). pose proof (N.div_mod' (c / 16) 16).
  pose proof (N.div_mod' (c / 256) 16).
  assert (c / 16 / 16 = c / 256)%N by (rewrite N.Div0.div_div; done).
  assert (c / 256 / 16 = c / 4096)%N by (rewrite N.Div0.div_div; done). lia.
Qed.

Lemma parse_unicode_escape c r :
  (c < 65536)%N ->
  parse_str (unicode_escape c ++ r) = (p ← parse_str r; Some (c :: p.1, p.2)).
Proof.
  intros H. unfold unicode_escape. cbn [app parse_str]. cbn -[hex4 parse_str].
  by rewrite unicode_escape_hex.
Qed.

Lemma parse_quote_unit c r :
  parse_str (quote_unit c ++ r) = (p ← parse_str r; Some (c :: p.1, p.2)).
Proof.
  unfold quote_unit. destruct (short_escape c) as [e|] eqn:E.
  - unfold short_escape in E. cbn [app parse_str]. change (N.eqb backslash dquote) with false.
    change (N.eqb backslash backslash) with true. cbn iota.
    repeat match type of E with context [N.eqb c ?k] =>
      destruct (N.eqb_spec c k) as [->|?]; [by simplify_eq/=|] end. done.
  - destruct (N.ltb_spec c 32); [by apply parse_unicode_escape; lia|].
    unfold short_escape in E. cbn [app parse_str].
    destruct (N.eqb_spec c dquote) as [->|]; [done|].
    destruct (N.eqb_spec c backslash) as [->|]; [done|].
    by rewrite (proj2 (N.ltb_ge c 32)).
Qed.

Lemma surrogate_small c : is_lead c || is_trail c = true -> (c < 65536)%N.
Proof.
  unfold is_lead, is_trail. rewrite orb_true_iff, !andb_true_iff, !N.leb_le. lia.
Qed.

Lemma parse_plain_unit c r :
  is_lead c || is_trail c = true ->
  parse_str (c :: r) = (p ← parse_str r; Some (c :: p.1, p.2)).
Proof.
  unfold is_lead, is_trail. rewrite orb_true_iff, !andb_true_iff, !N.leb_le. intros H.
  cbn [parse_str]. rewrite (proj2 (N.eqb_neq c dquote)) by (unfold dquote; lia).
  rewrite (proj2 (N.eqb_neq c backslash)) by (unfold backslash; lia).
  by rewrite (proj2 (N.ltb_ge c 32)) by lia.
Qed.

(** The parser reads back what the printer quotes. *)
Lemma parse_quote_body s r : parse_str (quote_body s ++ dquote :: r) = Some (s, r).
Proof.
  induction s as [s IH] using (induction_ltof1 _ (@length N)); unfold ltof in IH.
  destruct s as [|c t]; [done|]. cbn [quote_body].
  assert (IHt : parse_str (quote_body t ++ dquote :: r) = Some (t, r)) by (apply IH; simpl; lia).
  destruct (is_lead c) eqn:El.
  - destruct t as [|d t].
    + rewrite parse_unicode_escape; [done|]. apply surrogate_small. by rewrite El.
    + destruct (is_trail d) eqn:Ed.
      * rewrite <- !app_comm_cons, !parse_plain_unit by (rewrite ?El, ?Ed, ?orb_true_r; done).
        by rewrite IH by (simpl; lia).
      * rewrite <- app_assoc, parse_unicode_escape, IHt; [done|].
        apply surrogate_small. by rewrite El.
  - rewrite <- app_assoc. destruct (is_trail c) eqn:Et.
    + rewrite parse_unicode_escape, IHt; [done|]. apply surrogate_small. by rewrite Et, orb_true_r.
    + by rewrite parse_quote_unit, IHt.
Qed.

(** Values the code stores as JSON text: no numbers, objects in property
    order with distinct keys. *)
Inductive storable : json -> Prop :=
| storable_null : storable JNull
| storable_bool b : storable (JBool b)
| storable_str s : storable (JStr s)
| storable_arr l : Forall storable l -> storable (JArr l)
| storable_obj o : Forall (fun kv => storable kv.2) o -> obj_ok o -> storable (JObj o).

Lemma skip_ws_dquote s : skip_ws (dquote :: s) = dquote :: s.
Proof. done. Qed.

(** The texts of values start with a unit that is no white space and that
    closes nothing. *)
Lemma stringify_head v : storable v ->
  exists c t, stringify v = c :: t /\ is_json_space c = false /\ c <> 93%N /\ c <> 125%N.
Proof.
  destruct 1 as [|b|s|l Hl|o Ho Hok]; simpl; try destruct b;
    (eexists _, _; split; [reflexivity|]; vm_compute; repeat split; congruence).
Qed.

Lemma skip_ws_stringify v r : storable v -> skip_ws (stringify v ++ r) = stringify v ++ r.
Proof.
  intros (c & t & -> & Hc & _)%stringify_head. simpl. by rewrite Hc.
Qed.

(** ** Parsing what [stringify] prints *)

(** The text of the elements of an array or of the members of an object, with
    the closing unit. *)
Fixpoint items (close : N) (l : list jsstr) : jsstr :=
  match l with
  | [] => [close]
  | [x] => x ++ [close]
  | x :: t => x ++ 44%N :: items close t
  end.
Lemma items_more close x l : l <> [] -> items close (x :: l) = x ++ 44%N :: items close l.
Proof. by destruct l. Qed.
Lemma join_items close l : join "," l ++ [close] = items close l.
Proof.
  induction l as [|x l IH]; [done|]. destruct l as [|y l]; [done|].
  rewrite join_cons, items_more by done. rewrite <- IH, <- !app_assoc. done.
Qed.

Definition parses (v : json) : Prop :=
  forall fuel r, length (stringify v) < fuel -> parse_value fuel (stringify v ++ r) = Some (v, r).

Lemma parse_elems_items l r fuel :
  l <> [] -> Forall storable l -> Forall parses l ->
  length (items 93 (map stringify l)) < fuel ->
  parse_elems fuel (items 93 (map stringify l) ++ r) = Some (l, r).
Proof.
  revert fuel. induction l as [|v l IH]; intros fuel Hne Hs Hp Hlen; [done|].
  inversion Hs as [|? ? Hv Hl]; inversion Hp as [|? ? Hpv Hpl]; subst.
  destruct fuel as [|f]; [lia|]. cbn [parse_elems].
  destruct (decide (l = [])) as [->|Hl0].
  - cbn [map items] in *. rewrite length_app in Hlen. rewrite <- app_assoc.
    by rewrite (Hpv f) by (simpl in Hlen; lia).
  - cbn [map] in *. rewrite items_more in * by by destruct l.
    rewrite length_app in Hlen. cbn [length] in Hlen.
    rewrite <- app_assoc, (Hpv f) by lia. cbn -[parse_elems].
    by rewrite IH by (try done; lia).
Qed.

Definition member (kv : jsstr * json) : jsstr := quote kv.1 ++ ":" ++ stringify kv.2.

(** One member of an object, up to what follows its value. *)
Lemma parse_member k v f r :
  parses v -> length (stringify v) < f ->
  parse_members (S f) (member (k, v) ++ r) =
  match skip_ws r with
  | 125%N :: t2 => Some ([(k, v)], t2)
  | 44%N :: t2 => q ← parse_members f t2; Some ((k, v) :: q.1, q.2)
  | _ => None
  end.
Proof.
  intros Hv Hlen. unfold member, quote. cbn [fst snd]. rewrite <- !app_assoc.
  cbn [app parse_members]. rewrite skip_ws_dquote. change dquote with 34%N at 1. cbn iota.
  rewrite parse_quote_body. cbn -[parse_value parse_members]. by rewrite Hv.
Qed.

Lemma parse_members_items o r fuel :
  o <> [] -> Forall (fun kv => parses kv.2) o ->
  length (items 125 (map member o)) < fuel ->
  parse_members fuel (items 125 (map member o) ++ r) = Some (o, r).
Proof.
  revert fuel. induction o as [|[k v] o IH]; intros fuel Hne Hp Hlen; [done|].
  inversion Hp as [|? ? Hpv Hpl]; subst.
  destruct fuel as [|f]; [lia|].
  assert (Hm : length (stringify v) < length (member (k, v))).
  { unfold member. rewrite !length_app. simpl; lia. }
  destruct (decide (o = [])) as [->|Ho0].
  - cbn [map items] in *. rewrite length_app in Hlen. rewrite <- app_assoc.
    by rewrite parse_member by (try done; cbn [length] in Hlen; lia).
  - cbn [map] in *. rewrite items_more in * by by destruct o.
    rewrite length_app in Hlen. cbn [length] in Hlen.
    rewrite <- app_assoc, parse_member by (try done; lia). cbn -[parse_members].
    by rewrite IH by (try done; lia).
Qed.

Lemma items_head l : l <> [] -> Forall storable l ->
  exists c t, items 93 (map stringify l) = c :: t /\ is_json_space c = false /\ c <> 93%N.
Proof.
  destruct 2 as [|v l Hv Hl]; [done|].
  destruct (stringify_head v Hv) as (c & t & Hc & Hs & Hn & _).
  destruct l as [|w l].
  - cbn [map items]. rewrite Hc. by eexists c, _.
  - cbn [map]. rewrite items_more, Hc by done. by eexists c, _.
Qed.

Lemma not_bracket {A} c (t : jsstr) (a : jsstr -> A) (b : A) :
  c <> 93%N -> match c :: t with 93%N :: t' => a t' | _ => b end = b.
Proof. intros H. repeat case_match; congruence. Qed.

(** The parser reads back every storable value. *)
Lemma parse_value_stringify v : storable v -> parses v.
Proof.
  induction v as [|b|n|s|l IH|o IH] using json_rec'; intros Hv fuel r Hlen;
    inversion Hv as [|?|?|? Hl|? Ho Hok]; subst; (destruct fuel as [|f]; [lia|]).
  - done.
  - by destruct b.
  - cbn [stringify]. unfold quote. rewrite <- !app_assoc. cbn [app parse_value].
    rewrite skip_ws_dquote. cbn -[parse_str quote_body]. by rewrite parse_quote_body.
  - assert (Hp : Forall parses l).
    { apply Forall_forall; intros x Hx. rewrite Forall_forall in IH, Hl. by apply IH; [|apply Hl]. }
    cbn [stringify] in *. rewrite join_items in *. cbn [app] in *. destruct l as [|w l]; [done|].
    destruct (items_head (w :: l)) as (c & t & Hi & Hs & Hn); [done..|].
    pose proof (parse_elems_items (w :: l) r f ltac:(done) Hl Hp) as Hpe.
    cbn [parse_value]. rewrite Hi in *. cbn [skip_ws app] in *. change (is_json_space 91) with false.
    cbn -[parse_elems]. rewrite Hs, Hpe by (simpl in *; lia).
    by apply (not_bracket c (t ++ r) (fun t' => Some (JArr [], t'))).
  - assert (Hp : Forall (fun kv => parses kv.2) o).
    { apply Forall_forall; intros x Hx. rewrite Forall_forall in IH, Ho. by apply IH; [|apply Ho]. }
    cbn [stringify] in *. change (map (fun kv => _) o) with (map member o) in *.
    rewrite join_items in *. destruct o as [|[k w] o]; [done|].
    pose proof (parse_members_items ((k, w) :: o) r f ltac:(done) Hp) as Hpe.
    assert (Hi : exists t, items 125 (map member ((k, w) :: o)) = dquote :: t).
    { cbn [map]. destruct o; [by eexists|]. rewrite items_more by done. by eexists. }
    destruct Hi as [t Hi]. rewrite Hi in *. cbn [app] in *. cbn -[parse_members].
    rewrite Hpe by (simpl in *; lia). cbn. by rewrite Hok.
Qed.

Lemma stringify_length v : storable v -> length (stringify v) < parse_fuel (stringify v).
Proof. unfold parse_fuel. lia. Qed.

(** [JSON.parse(JSON.stringify(v))] is [v]. *)
Lemma parse_stringify v : storable v -> parse (stringify v) = Some v.
Proof.
  intros Hv. unfold parse. rewrite <- (app_nil_r (stringify v)) at 2.
  by rewrite parse_value_stringify by (try done; by apply stringify_length).
Qed.
Lemma parse_quote s : parse (quote s) = Some (JStr s).
Proof. apply (parse_stringify (JStr s)). constructor. Qed.

(** ** The fuel of the parser is enough *)

Lemma skip_ws_length s : length (skip_ws s) <= length s.
Proof. induction s as [|c s IH]; simpl; [done|]. destruct (is_json_space c); simpl; lia. Qed.
Lemma span_length f s a b : span f s = (a, b) -> length s = length a + length b.
Proof.
  revert a b; induction s as [|c s IH]; intros a b; simpl; [by intros [= <- <-]|].
  destruct (f c); [|by intros [= <- <-]].
  destruct (span f s) as [a' b'] eqn:E. intros [= <- <-]. simpl. by rewrite (IH a' b').
Qed.
Lemma parse_str_length s u r : parse_str s = Some (u, r) -> length r < length s.
Proof.
  revert u r. induction s as [s IH] using (induction_ltof1 _ (@length N)); unfold ltof in IH.
  intros u r H. destruct s as [|c t]; [done|]. cbn [parse_str] in H.
  assert (Hrec : forall t' w k, length t' < length (c :: t) ->
            (p ← parse_str t'; Some (w :: p.1, p.2)) = Some k -> length k.2 < length (c :: t)).
  { intros t' w k Ht ([x y] & Hp & Hk)%bind_Some. apply IH in Hp; [|done]. simplify_eq/=. lia. }
  destruct (N.eqb c dquote); [simplify_eq/=; lia|].
  destruct (N.eqb c backslash).
  - destruct t as [|e t1]; [done|]. destruct (N.eqb e 117).
    + destruct t1 as [|h1 [|h2 [|h3 [|h4 t2]]]]; try done.
      apply bind_Some in H as (w & _ & H). apply (Hrec _ _ _) in H; simpl in *; lia.
    + apply bind_Some in H as (w & _ & H). apply (Hrec _ _ _) in H; simpl in *; lia.
  - destruct (c <? 32)%N; [done|]. apply (Hrec _ _ _) in H; simpl in *; lia.
Qed.
Lemma number_lexeme_length s l r : number_lexeme s = Some (l, r) -> length r < length s.
Proof.
  unfold number_lexeme.
  assert (Hsg : exists sg s1, match s with 45%N :: t => ([45%N], t) | _ => ([], s) end = (sg, s1)
                /\ length s1 <= length s).
  { destruct s as [|c t]; [by eexists _, _|].
    destruct (decide (c = 45%N)) as [->|Hc]; [eexists _, _; split; [done|simpl; lia]|].
    exists [], (c :: t). split; [repeat case_match; congruence|done]. }
  destruct Hsg as (sg & s1 & -> & Hs1). destruct (span is_digit s1) as [ip s2] eqn:E1.
  apply span_length in E1.
  match goal with |- context [let '(fp, s3) := ?m in _] =>
    assert (Hfp : exists fp s3, m = (fp, s3) /\ length s3 <= length s2) end.
  { destruct s2 as [|c t]; [by eexists _, _|].
    destruct (decide (c = 46%N)) as [->|Hc].
    - destruct (span is_digit t) as [[|d ds] t'] eqn:E2; apply span_length in E2;
        eexists _, _; (split; [done|simpl in *; lia]).
    - exists [], (c :: t). split; [repeat case_match; congruence|done]. }
  destruct Hfp as (fp & s3 & -> & Hs3).
  match goal with |- context [let '(ep, s4) := ?m in _] =>
    assert (Hep : exists ep s4, m = (ep, s4) /\ length s4 <= length s3) end.
  { destruct s3 as [|c t]; [by eexists _, _|].
    destruct (N.eqb c 101 || N.eqb c 69); [|by eexists _, _].
    assert (Hes : exists es t1, match t with
              | d :: t' => if N.eqb d 43 || N.eqb d 45 then ([d], t') else ([], t)
              | [] => ([], []) end = (es, t1) /\ length t1 <= length t).
    { destruct t as [|d t']; [by eexists _, _|].
      destruct (N.eqb d 43 || N.eqb d 45); eexists _, _; (split; [done|simpl; lia]). }
    destruct Hes as (es & t1 & -> & Ht1).
    destruct (span is_digit t1) as [[|x ds] t2] eqn:E3; apply span_length in E3;
      eexists _, _; (split; [done|simpl in *; lia]). }
  destruct Hep as (ep & s4 & -> & Hs4). intros H.
  destruct ip as [|c ip]; [done|]. simpl in E1.
  assert (r = s4) as -> by (by repeat case_match; simplify_eq). lia.
Qed.
Lemma drop_shorter n (s : jsstr) : 0 < n -> s <> [] -> length (drop n s) < length s.
Proof. intros Hn Hs. rewrite length_drop. destruct s; [done|]. simpl; lia. Qed.

(** Every call consumes at least one unit. *)
Lemma parse_shorter fuel :
  (forall s v r, parse_value fuel s = Some (v, r) -> length r < length s) /\
  (forall s l r, parse_elems fuel s = Some (l, r) -> length r < length s) /\
  (forall s o r, parse_members fuel s = Some (o, r) -> length r < length s).
Proof.
  induction fuel as [|f (IHv & IHe & IHm)]; [done|]. split_and!.
  - intros s v r. cbn [parse_value]. pose proof (skip_ws_length s) as Hs.
    destruct (skip_ws s) as [|c t]; [done|]. cbn [length] in Hs. intros H.
    repeat match type of H with
           | (if ?b then _ else _) = _ => destruct b eqn:?
           end; try (simplify_eq; pose proof (drop_shorter 4 (c :: t) ltac:(lia) ltac:(done)); cbn [length] in *; lia).
    + apply bind_Some in H as ([u r'] & Hp & H). simplify_eq/=.
      apply parse_str_length in Hp. lia.
    + pose proof (skip_ws_length t). destruct (skip_ws t) as [|c1 t1]; cbn [length] in *;
        repeat case_match; simplify_eq/=;
        try (apply bind_Some in H as ([u r'] & Hp & H); simplify_eq/=; apply IHe in Hp); lia.
    + pose proof (skip_ws_length t). destruct (skip_ws t) as [|c1 t1]; cbn [length] in *;
        repeat case_match; simplify_eq/=;
        try (apply bind_Some in H as ([u r'] & Hp & H); simplify_eq/=; apply IHm in Hp); lia.
    + simplify_eq. pose proof (drop_shorter 5 (c :: t) ltac:(lia) ltac:(done)). cbn [length] in *; lia.
    + unfold parse_number in H. apply bind_Some in H as ([u r'] & Hp & H). simplify_eq/=.
      apply number_lexeme_length in Hp. simpl in *; lia.
  - intros s l r H. cbn [parse_elems] in H. apply bind_Some in H as ([v r1] & Hv & H).
    apply IHv in Hv. cbn [snd] in H. pose proof (skip_ws_length r1).
    destruct (skip_ws r1) as [|c1 t1]; [done|]. cbn [length] in *.
    repeat case_match; simplify_eq/=; try lia.
    all: try (apply bind_Some in H as ([u r'] & Hp & H); simplify_eq/=; apply IHe in Hp); lia.
  - intros s o r H. cbn [parse_members] in H. pose proof (skip_ws_length s).
    destruct (skip_ws s) as [|c t]; [done|]. destruct (N.eq_dec c 34%N) as [->|];
      [|by repeat case_match].
    apply bind_Some in H as ([k r1] & Hk & H). apply parse_str_length in Hk.
    cbn [fst snd] in H. pose proof (skip_ws_length r1).
    destruct (skip_ws r1) as [|c1 t1]; [done|]. destruct (N.eq_dec c1 58%N) as [->|];
      [|by repeat case_match].
    apply bind_Some in H as ([v r2] & Hv & H). apply IHv in Hv. cbn [fst snd] in H.
    pose proof (skip_ws_length r2). destruct (skip_ws r2) as [|c2 t2]; [done|].
    cbn [length] in *. repeat case_match; simplify_eq/=; try lia.
    all: try (apply bind_Some in H as ([u r'] & Hp & H); simplify_eq/=; apply IHm in Hp); lia.
Qed.

Lemma bind_ext_on {A B} (o : option A) (f g : A -> option B) :
  (forall x, o = Some x -> f x = g x) -> o ≫= f = o ≫= g.
Proof. intros H. destruct o; simpl; auto. Qed.

(** Beyond twice the length of the text, more fuel changes nothing: [None] is
    always a syntax error, never exhaustion. *)
Lemma parse_fuel_irrelevant n :
  (forall f g s, length s <= n -> 2 * length s < f -> 2 * length s < g ->
     parse_value f s = parse_value g s) /\
  (forall f g s, length s <= n -> 2 * length s + 1 < f -> 2 * length s + 1 < g ->
     parse_elems f s = parse_elems g s /\ parse_members f s = parse_members g s).
Proof.
  induction n as [n IH] using lt_wf_ind.
  assert (IHv : forall f g s, length s < n -> 2 * length s < f -> 2 * length s < g ->
                  parse_value f s = parse_value g s).
  { intros f g s Hs. by apply (proj1 (IH (length s) Hs)). }
  assert (IHc : forall f g s, length s < n -> 2 * length s + 1 < f -> 2 * length s + 1 < g ->
                  parse_elems f s = parse_elems g s /\ parse_members f s = parse_members g s).
  { intros f g s Hs. by apply (proj2 (IH (length s) Hs)). }
  assert (Hv : forall f g s, length s <= n -> 2 * length s < f -> 2 * length s < g ->
                 parse_value f s = parse_value g s).
  { intros [|f] [|g] s Hn Hf Hg; [lia..|]. cbn [parse_value].
    pose proof (skip_ws_length s). destruct (skip_ws s) as [|c t]; [done|]. cbn [length] in *.
    destruct (IHc f g t) as [He Hm]; [lia..|]. by rewrite He, Hm. }
  split; [done|]. intros [|f] [|g] s Hn Hf Hg; [lia..|]. split.
  - cbn [parse_elems]. rewrite (Hv f g s) by lia. apply bind_ext_on. intros [v r1] Hr.
    apply (parse_shorter g) in Hr. cbn [snd fst]. pose proof (skip_ws_length r1).
    destruct (skip_ws r1) as [|c t]; [done|]. cbn [length] in *.
    by rewrite (proj1 (IHc f g t ltac:(lia) ltac:(lia) ltac:(lia))).
  - cbn [parse_members]. pose proof (skip_ws_length s).
    destruct (skip_ws s) as [|c t]; [done|]. cbn [length] in *.
    assert (Hk : forall (h : jsstr * jsstr -> option (list (jsstr * json) * jsstr)) h',
              (forall k, length k.2 < length t -> h k = h' k) -> parse_str t ≫= h = parse_str t ≫= h').
    { intros h h' Hh. apply bind_ext_on. intros [k r] Hr. apply Hh. by apply parse_str_length in Hr. }
    erewrite Hk; [reflexivity|]. clear Hk. intros [k r1] Hr. cbn [snd fst] in *.
    pose proof (skip_ws_length r1). destruct (skip_ws r1) as [|c1 t1]; [done|]. cbn [length] in *.
    rewrite (Hv f g t1) by lia. erewrite (bind_ext_on (parse_value g t1)); [reflexivity|].
    intros [v r2] Hr2. apply (parse_shorter g) in Hr2. cbn [snd fst].
    pose proof (skip_ws_length r2). destruct (skip_ws r2) as [|c2 t2]; [done|]. cbn [length] in *.
    by rewrite (proj2 (IHc f g t2 ltac:(lia) ltac:(lia) ltac:(lia))).
Qed.
Lemma parse_fuel_enough s f : parse_fuel s <= f -> parse_value f s = parse_value (parse_fuel s) s.
Proof.
  intros H. apply (proj1 (parse_fuel_irrelevant (length s))); unfold parse_fuel in *; lia.
Qed.
