(* ===== verification/JsonText.v ===== *)
(** JSON texts with layout: [JSON.stringify(v, null, 2)] beside the compact
    form, and that [JSON.parse] reads back what either prints, numbers
    included.  A number is covered when its shortest decimal form reads back
    as itself, which can be computed. *)
From Stdlib Require Import Floats.SpecFloat.
From S2P Require Import Prelude JsNumber Json.

(** * Printing *)

Section Render.
(** The white space before an element at a depth, and the colon. *)
Context (newline : nat -> jsstr) (colon : jsstr).

Fixpoint render (d : nat) (v : json) : jsstr :=
  match v with
  | JNull => "null"
  | JBool b => if b then "true" else "false"
  | JNum n => if is_finite n then num_to_string n else "null"
  | JStr s => quote s
  | JArr l =>
      "[" ++ join "," (map (fun x => newline (S d) ++ render (S d) x) l)
          ++ match l with [] => [] | _ => newline d end ++ "]"
  | JObj o =>
      "{" ++ join "," (map (fun kv => newline (S d) ++ quote kv.1 ++ colon ++ render (S d) kv.2) o)
          ++ match o with [] => [] | _ => newline d end ++ "}"
  end.
End Render.

(** [JSON.stringify(v, null, 2)] *)
Definition indent (d : nat) : jsstr := 10%N :: replicate (2 * d) 32%N.
Definition stringify_pretty (v : json) : jsstr := render indent ": " 0 v.

Example pretty_sample :
  stringify_pretty (JObj [("a" : jsstr, JArr [JNum (num 1); JStr "x"]); ("b" : jsstr, JObj []); ("c" : jsstr, JArr [])])
  = ([123] ++ [10;32;32;34] ++ "a" ++ [34;58;32;91;10;32;32;32;32] ++ "1," ++ [10;32;32;32;32;34] ++ "x" ++ [34;10;32;32;93;44;10;32;32;34]
     ++ "b" ++ [34;58;32;123;125;44;10;32;32;34] ++ "c" ++ [34;58;32;91;93;10;125])%N.
Proof. vm_compute. reflexivity. Qed.

(** * Numbers in a text *)

(** A number that its own text denotes. *)
Definition prints_back (n : jsnum) : Prop :=
  is_finite n = true /\ parse_number (num_to_string n) = Some (JNum n, []) /\
  Forall (fun c => is_space c = false) (num_to_string n).

(** What may follow a number without becoming part of it. *)
Definition ends_number (c : N) : bool :=
  negb (is_digit c || N.eqb c 46 || N.eqb c 101 || N.eqb c 69 || N.eqb c 43 || N.eqb c 45).
Definition delimited (r : jsstr) : Prop := match r with [] => True | c :: _ => ends_number c = true end.

Lemma span_app f s a b r :
  span f s = (a, b) -> (b = [] -> match r with [] => True | c :: _ => f c = false end) ->
  span f (s ++ r) = (a, b ++ r).
Proof.
  revert a b. induction s as [|c s IH]; intros a b; simpl.
  - intros [= <- <-] H. destruct r as [|c r]; simpl; [done|]. by rewrite (H eq_refl).
  - destruct (f c).
    + destruct (span f s) as [a' b'] eqn:E. intros [= <- <-] H. by rewrite (IH _ _ eq_refl H).
    + by intros [= <- <-] _.
Qed.
Lemma delimited_digit r : delimited r -> match r with [] => True | c :: _ => is_digit c = false end.
Proof.
  destruct r as [|c r]; [done|]. simpl. unfold ends_number. rewrite negb_true_iff, !orb_false_iff. tauto.
Qed.
Lemma delimited_unit r c t : delimited r -> r = c :: t -> c <> 46%N /\ (N.eqb c 101 || N.eqb c 69) = false.
Proof.
  intros H ->. simpl in H. unfold ends_number in H. rewrite negb_true_iff, !orb_false_iff in H.
  destruct H as (((((_ & H46) & H1) & H2) & _) & _). rewrite H1, H2. by apply N.eqb_neq in H46.
Qed.

(** The three parts of a number, each with what follows it. *)
Definition fraction_part (s2 : jsstr) : jsstr * jsstr :=
  match s2 with
  | 46%N :: t => match span is_digit t with
                 | ((_ :: _) as ds, t') => (46%N :: ds, t')
                 | _ => ([], s2)
                 end
  | _ => ([], s2)
  end.
Definition exponent_text (s3 : jsstr) : jsstr * jsstr :=
  match s3 with
  | c :: t =>
      if N.eqb c 101 || N.eqb c 69 then
        let '(es, t1) := match t with
                         | d :: t' => if N.eqb d 43 || N.eqb d 45 then ([d], t') else ([], t)
                         | [] => ([], []) end in
        match span is_digit t1 with
        | ((_ :: _) as ds, t2) => (c :: es ++ ds, t2)
        | _ => ([], s3)
        end
      else ([], s3)
  | [] => ([], s3)
  end.
Lemma exponent_text_app s3 ep s4 r :
  delimited r -> exponent_text s3 = (ep, s4) -> s4 = [] -> exponent_text (s3 ++ r) = (ep, r).
Proof.
  intros Hr. destruct s3 as [|c t]; simpl.
  - intros [= <- <-] _. destruct r as [|c r]; [done|]. simpl.
    destruct (delimited_unit _ c r Hr eq_refl) as [_ ->]. done.
  - destruct (N.eqb c 101 || N.eqb c 69); [|by intros [= <- <-]].
    assert (Hes : forall es t1, match t with
              | d :: t' => if N.eqb d 43 || N.eqb d 45 then ([d], t') else ([], t)
              | [] => ([], []) end = (es, t1) -> t1 <> [] ->
              match t ++ r with
              | d :: t' => if N.eqb d 43 || N.eqb d 45 then ([d], t') else ([], t ++ r)
              | [] => ([], []) end = (es, t1 ++ r)).
    { intros es t1. destruct t as [|d t']; [by intros [= <- <-]|]. simpl.
      by destruct (N.eqb d 43 || N.eqb d 45); intros [= <- <-]. }
    destruct (match t with [] => ([], []) | d :: t' => if N.eqb d 43 || N.eqb d 45 then ([d], t') else ([], t) end)
      as [es t1] eqn:E. specialize (Hes _ _ eq_refl).
    destruct (span is_digit t1) as [[|d ds] t2] eqn:E2; [by intros [= <- <-]|].
    intros [= <- <-] ->. rewrite Hes by (intros ->; done).
    rewrite (span_app _ _ _ _ r E2) by (intros _; by apply delimited_digit). done.
Qed.
Lemma fraction_part_app s2 fp s3 r :
  delimited r -> fraction_part s2 = (fp, s3) -> fraction_part (s2 ++ r) = (fp, s3 ++ r).
Proof.
  intros Hr. destruct s2 as [|c t].
  - intros [= <- <-]. destruct r as [|c r]; [done|]. destruct (delimited_unit _ c r Hr eq_refl) as [Hc _].
    simpl. repeat case_match; congruence.
  - destruct (decide (c = 46%N)) as [->|Hc].
    + simpl. destruct (span is_digit t) as [ds t'] eqn:E.
      rewrite (span_app _ _ _ _ r E) by (intros _; by apply delimited_digit).
      destruct ds; by intros [= <- <-].
    + assert (H : forall u, fraction_part (c :: u) = ([], c :: u)) by (intros u; simpl; repeat case_match; congruence).
      cbn [app]. rewrite !H. by intros [= <- <-].
Qed.

Lemma number_lexeme_parts s :
  number_lexeme s =
  let '(sg, s1) := match s with 45%N :: t => ([45%N], t) | _ => ([], s) end in
  let '(ip, s2) := span is_digit s1 in
  let '(fp, s3) := fraction_part s2 in
  let '(ep, s4) := exponent_text s3 in
  if match ip with [] => false | [_] => true | c :: _ => negb (N.eqb c 48) end
  then Some (sg ++ ip ++ fp ++ ep, s4) else None.
Proof. done. Qed.

Lemma number_lexeme_app s l r :
  delimited r -> number_lexeme s = Some (l, []) -> number_lexeme (s ++ r) = Some (l, r).
Proof.
  intros Hr. rewrite !number_lexeme_parts.
  assert (Hsg : exists sg s1, match s with 45%N :: t => ([45%N], t) | _ => ([], s) end = (sg, s1) /\
     (s1 <> [] -> match s ++ r with 45%N :: t => ([45%N], t) | _ => ([], s ++ r) end = (sg, s1 ++ r))).
  { destruct s as [|c t]; [by exists [], []|]. destruct (decide (c = 45%N)) as [->|Hc]; [by eexists _, _|].
    exists [], (c :: t). split; [repeat case_match; congruence|]. intros _. simpl. repeat case_match; congruence. }
  destruct Hsg as (sg & s1 & -> & Hsg). destruct (span is_digit s1) as [ip s2] eqn:E1.
  destruct (fraction_part s2) as [fp s3] eqn:E2. destruct (exponent_text s3) as [ep s4] eqn:E3.
  destruct ip as [|c ip]; [done|]. rewrite Hsg by (by intros ->).
  rewrite (span_app _ _ _ _ r E1) by (intros _; by apply delimited_digit).
  rewrite (fraction_part_app _ _ _ r Hr E2). intros H.
  assert (s4 = []) as -> by (by repeat case_match; simplify_eq).
  rewrite (exponent_text_app _ _ _ r Hr E3 eq_refl).
  by destruct (match ip with [] => true | _ :: _ => negb (N.eqb c 48) end); simplify_eq.
Qed.
Lemma parse_number_app s n r :
  delimited r -> parse_number s = Some (JNum n, []) -> parse_number (s ++ r) = Some (JNum n, r).
Proof.
  intros Hr. unfold parse_number. destruct (number_lexeme s) as [[l u]|] eqn:E; [|done].
  cbn. intros [= En ->]. rewrite (number_lexeme_app _ _ _ Hr E). cbn. by rewrite En.
Qed.

(** The first unit of a number is a digit or a minus sign. *)
Lemma number_head s l u : number_lexeme s = Some (l, u) -> exists c t, s = c :: t /\ (c = 45%N \/ is_digit c = true).
Proof.
  rewrite number_lexeme_parts. destruct s as [|c t]; [done|]. intros H. exists c, t. split; [done|].
  destruct (decide (c = 45%N)) as [|Hc]; [by left|right].
  assert (E : match c :: t with 45%N :: t => ([45%N], t) | _ => ([], c :: t) end = ([], c :: t))
    by (repeat case_match; congruence).
  rewrite E in H. simpl in H. destruct (is_digit c); [done|].
  destruct (fraction_part _) as [fp s3]. by destruct (exponent_text s3).
Qed.

(** * Reading back *)

(** The values with a text that denotes them: numbers that print back, objects
    in property order with distinct keys. *)
Inductive printable : json -> Prop :=
| printable_null : printable JNull
| printable_bool b : printable (JBool b)
| printable_num n : prints_back n -> printable (JNum n)
| printable_str s : printable (JStr s)
| printable_arr l : Forall printable l -> printable (JArr l)
| printable_obj o : Forall (fun kv => printable kv.2) o -> obj_ok o -> printable (JObj o).

Definition blank (w : jsstr) : Prop := Forall (fun c => is_json_space c = true) w.

Lemma skip_ws_blank w s : blank w -> skip_ws (w ++ s) = skip_ws s.
Proof. induction 1 as [|c w Hc _ IH]; [done|]. simpl. by rewrite Hc. Qed.
Lemma blank_delimited w r : blank w -> delimited r -> delimited (w ++ r).
Proof.
  destruct 1 as [|c w Hc _]; [done|]. intros _. simpl. unfold is_json_space in Hc. unfold ends_number.
  apply orb_true_iff in Hc as [[[Hc|Hc]%orb_true_iff|Hc]%orb_true_iff|Hc]; by apply N.eqb_eq in Hc; subst.
Qed.

Section ReadBack.
Context (newline : nat -> jsstr) (space : jsstr)
  (newline_blank : forall d, blank (newline d)) (space_blank : blank space).
Abbreviation text := (render newline (58%N :: space)).

(** The parser reads the value from its text and stops behind it. *)
Definition reads (v : json) : Prop :=
  forall d fuel w r, blank w -> delimited r -> length (text d v) < fuel ->
    parse_value fuel (w ++ text d v ++ r) = Some (v, r).

Definition element (d : nat) (x : json) : jsstr := newline (S d) ++ text (S d) x.
Definition entry (d : nat) (kv : jsstr * json) : jsstr :=
  newline (S d) ++ quote kv.1 ++ (58%N :: space) ++ text (S d) kv.2.

Lemma read_elems d l w r fuel :
  l <> [] -> Forall reads l -> blank w -> S (length (join "," (map (element d) l))) < fuel ->
  parse_elems fuel (join "," (map (element d) l) ++ w ++ 93%N :: r) = Some (l, r).
Proof.
  revert fuel. induction l as [|v l IH]; intros fuel Hne Hr Hw Hlen; [done|].
  inversion Hr as [|? ? Hv Hl]; subst. destruct fuel as [|f]; [lia|]. cbn [parse_elems].
  destruct (decide (l = [])) as [->|Hl0].
  - cbn [map join] in *. unfold element in *. rewrite length_app in Hlen. rewrite <- app_assoc.
    rewrite (Hv (S d) f) by first [apply newline_blank | done | by apply blank_delimited | lia]. cbn.
    by rewrite skip_ws_blank.
  - cbn [map] in *. rewrite join_cons in * by by destruct l. rewrite !length_app in Hlen. cbn [length] in Hlen.
    unfold element at 1 in Hlen. rewrite length_app in Hlen.
    unfold element at 1. rewrite <- !app_assoc.
    rewrite (Hv (S d) f) by first [apply newline_blank | done | lia]. cbn -[parse_elems]. by rewrite IH by (try done; lia).
Qed.

(** One member of an object, up to what follows its value. *)
Lemma read_member d k v f r :
  reads v -> delimited r -> length (text (S d) v) < f ->
  parse_members (S f) (entry d (k, v) ++ r) =
  match skip_ws r with
  | 125%N :: t2 => Some ([(k, v)], t2)
  | 44%N :: t2 => q ← parse_members f t2; Some ((k, v) :: q.1, q.2)
  | _ => None
  end.
Proof.
  intros Hv Hr Hlen. unfold entry, quote. cbn [fst snd]. rewrite <- !app_assoc.
  cbn [parse_members]. rewrite skip_ws_blank by apply newline_blank. cbn [app]. rewrite skip_ws_dquote.
  change dquote with 34%N at 1. cbn iota. rewrite parse_quote_body.
  cbn -[parse_value parse_members app]. change ((58%N :: space) ++ ?x) with (58%N :: space ++ x).
  cbn -[parse_value parse_members app]. by rewrite (Hv (S d) f space r).
Qed.
Lemma read_members d o w r fuel :
  o <> [] -> Forall (fun kv => reads kv.2) o -> blank w -> S (length (join "," (map (entry d) o))) < fuel ->
  parse_members fuel (join "," (map (entry d) o) ++ w ++ 125%N :: r) = Some (o, r).
Proof.
  revert fuel. induction o as [|[k v] o IH]; intros fuel Hne Hr Hw Hlen; [done|].
  inversion Hr as [|? ? Hv Ho]; subst. destruct fuel as [|f]; [lia|].
  assert (Hm : length (text (S d) v) < length (entry d (k, v))).
  { unfold entry. rewrite !length_app. simpl. lia. }
  destruct (decide (o = [])) as [->|Ho0].
  - cbn [map join] in *.
    rewrite read_member by first [done | by apply blank_delimited | lia]. by rewrite skip_ws_blank.
  - cbn [map] in *. rewrite join_cons in * by by destruct o. rewrite !length_app in Hlen. cbn [length] in Hlen.
    rewrite <- !app_assoc. rewrite read_member by (try done; lia). cbn -[parse_members].
    by rewrite IH by (try done; lia).
Qed.

(** How the text of a value begins. *)
Lemma text_head d v : printable v -> exists c t, text d v = c :: t /\ is_json_space c = false /\ c <> 93%N.
Proof.
  intros Hv. destruct Hv as [|[]|n (Hf & Hn & _)|s|l Hl|o Ho _]; simpl.
  - by eexists _, _.
  - by eexists _, _.
  - by eexists _, _.
  - rewrite Hf. unfold parse_number in Hn. destruct (number_lexeme (num_to_string n)) as [[l u]|] eqn:E; [|done].
    destruct (number_head _ _ _ E) as (c & t & -> & Hc). exists c, t. split; [done|].
    destruct Hc as [->|Hc]; [done|]. unfold is_digit in Hc. apply andb_true_iff in Hc as [H1%N.leb_le H2%N.leb_le].
    split; [|lia]. unfold is_json_space. rewrite !orb_false_iff, !N.eqb_neq. lia.
  - by eexists _, _.
  - by eexists _, _.
  - by eexists _, _.
Qed.

(** A value that starts like a number is parsed as one. *)
Lemma parse_value_number f c t w :
  blank w -> (c = 45%N \/ is_digit c = true) -> parse_value (S f) (w ++ c :: t) = parse_number (c :: t).
Proof.
  intros Hw Hc. cbn [parse_value]. rewrite skip_ws_blank by done.
  assert (Hr : c = 45%N \/ (48 <= c <= 57)%N).
  { destruct Hc as [|Hc]; [by left|right]. unfold is_digit in Hc.
    apply andb_true_iff in Hc as [H1%N.leb_le H2%N.leb_le]. lia. }
  assert (Hs : is_json_space c = false).
  { unfold is_json_space. rewrite !orb_false_iff, !N.eqb_neq. lia. }
  cbn [skip_ws]. rewrite Hs. unfold dquote.
  rewrite (proj2 (N.eqb_neq c 34)), (proj2 (N.eqb_neq c 91)), (proj2 (N.eqb_neq c 123)) by lia.
  change ("null" : jsstr) with [110; 117; 108; 108]%N. change ("true" : jsstr) with [116; 114; 117; 101]%N.
  change ("false" : jsstr) with [102; 97; 108; 115; 101]%N.
  by rewrite !starts_with_head_ne by lia.
Qed.

Lemma reads_printable v : printable v -> reads v.
Proof.
  induction v as [|b|n|s|l IH|o IH] using json_rec'; intros Hv d fuel w r Hw Hr Hlen;
    inversion Hv as [|?|? Hn|?|? Hl|? Ho Hok]; subst; (destruct fuel as [|f]; [lia|]).
  - cbn [parse_value]. by rewrite skip_ws_blank.
  - cbn [parse_value]. rewrite skip_ws_blank by done. by destruct b.
  - destruct Hn as (Hf & Hn & _). cbn [render] in *. rewrite Hf in *.
    assert (Hh := Hn). unfold parse_number in Hh.
    destruct (number_lexeme (num_to_string n)) as [[l u]|] eqn:E; [|done].
    destruct (number_head _ _ _ E) as (c & t & Ec & Hc).
    rewrite <- (parse_number_app _ _ r Hr Hn), Ec. by apply parse_value_number.
  - cbn [render parse_value]. unfold quote. rewrite skip_ws_blank by done. rewrite <- !app_assoc. cbn [app].
    rewrite skip_ws_dquote. cbn -[parse_str quote_body]. by rewrite parse_quote_body.
  - assert (Hp : Forall reads l).
    { apply Forall_forall; intros x Hx. rewrite Forall_forall in IH, Hl. by apply IH; [|apply Hl]. }
    cbn [render parse_value] in *. rewrite skip_ws_blank by done. fold (element d) in *.
    change (fun x => newline (S d) ++ text (S d) x) with (element d) in *.
    cbn [app] in *. change (skip_ws (91%N :: ?x)) with (91%N :: x).
    change (N.eqb 91 dquote) with false. change (N.eqb 91 91) with true. cbn iota.
    destruct l as [|x l]; [done|].
    rewrite <- !app_assoc. change ([93%N] ++ r) with (93%N :: r).
    pose proof (read_elems d (x :: l) (newline d) r f ltac:(done) Hp (newline_blank d)) as He.
    cbn [length] in Hlen. rewrite !length_app in Hlen. cbn [length] in Hlen. rewrite He by lia.
    inversion Hl as [|? ? Hx _]; subst. destruct (text_head (S d) x Hx) as (c & t & Ec & Hs & Hne).
    assert (Hsk : exists u, skip_ws (join "," (map (element d) (x :: l)) ++ newline d ++ 93%N :: r) = c :: u).
    { cbn [map]. destruct (map (element d) l) as [|y q]; [|rewrite join_cons by done]; cbn [join];
        unfold element; rewrite Ec, <- !app_assoc, skip_ws_blank by apply newline_blank; simpl; rewrite Hs; eauto. }
    destruct Hsk as (u & ->). by apply (not_bracket c u (fun t' => Some (JArr [], t'))).
  - assert (Hp : Forall (fun kv => reads kv.2) o).
    { apply Forall_forall; intros x Hx. rewrite Forall_forall in IH, Ho. by apply IH; [|apply Ho]. }
    cbn [render parse_value] in *. rewrite skip_ws_blank by done.
    change (fun kv : jsstr * json => newline (S d) ++ _) with (entry d) in *.
    cbn [app] in *. change (skip_ws (123%N :: ?x)) with (123%N :: x).
    change (N.eqb 123 dquote) with false. change (N.eqb 123 91) with false. change (N.eqb 123 123) with true. cbn iota.
    destruct o as [|[k x] o]; [done|].
    rewrite <- !app_assoc. change ([125%N] ++ r) with (125%N :: r).
    pose proof (read_members d ((k, x) :: o) (newline d) r f ltac:(done) Hp (newline_blank d)) as He.
    cbn [length] in Hlen. rewrite !length_app in Hlen. cbn [length] in Hlen. rewrite He by lia.
    assert (Hsk : exists u, skip_ws (join "," (map (entry d) ((k, x) :: o)) ++ newline d ++ 125%N :: r) = dquote :: u).
    { cbn [map]. destruct (map (entry d) o) as [|y q]; [|rewrite join_cons by done]; cbn [join];
        unfold entry, quote; cbn [fst]; rewrite <- !app_assoc, skip_ws_blank by apply newline_blank; eauto. }
    destruct Hsk as (u & ->). cbn. by rewrite Hok.
Qed.

Lemma parse_text v : printable v -> parse (text 0 v) = Some v.
Proof.
  intros Hv. unfold parse. pose proof (reads_printable v Hv 0 (parse_fuel (text 0 v)) [] []) as H.
  cbn [app] in H. rewrite app_nil_r in H. rewrite H; [done|constructor|done|unfold parse_fuel; lia].
Qed.
End ReadBack.

(** [JSON.parse(JSON.stringify(v, null, 2))] and [JSON.parse(JSON.stringify(v))]
    are [v]. *)
Lemma parse_pretty v : printable v -> parse (stringify_pretty v) = Some v.
Proof.
  apply (parse_text indent [32%N]).
  - intros d. constructor; [done|]. unfold indent. apply Forall_forall. intros c Hc.
    by apply elem_of_replicate in Hc as [-> _].
  - by constructor.
Qed.

Lemma stringify_render v : stringify v = render (fun _ => []) ":" 0 v.
Proof.
  generalize 0 as d. induction v as [|b|n|s|l IH|o IH] using json_rec'; intros d; try done; cbn [stringify render].
  - assert (E : match l with [] => [] | _ => [] end = ([] : jsstr)) by (by destruct l). rewrite E. cbn [app].
    do 3 f_equal. apply map_ext_in. intros x Hx%list_elem_of_In. rewrite Forall_forall in IH. auto.
  - assert (E : match o with [] => [] | _ => [] end = ([] : jsstr)) by (by destruct o). rewrite E. cbn [app].
    do 3 f_equal. apply map_ext_in. intros x Hx%list_elem_of_In. rewrite Forall_forall in IH. do 2 f_equal. auto.
Qed.
Lemma parse_compact v : printable v -> parse (stringify v) = Some v.
Proof. rewrite stringify_render. apply (parse_text (fun _ => []) []); by constructor. Qed.

(** A compact text has no white space around it. *)
Lemma stringify_trimmed v : printable v -> trimmed (stringify v).
Proof.
  intros Hv. destruct Hv as [|[]|n (Hf & _ & Hs)|s|l _|o _ _]; cbn [stringify]; try done.
  - rewrite Hf. rewrite Forall_forall in Hs. split.
    + destruct (num_to_string n); [done|]. apply Hs. left.
    + destruct (last (num_to_string n)) eqn:E; [|done]. apply Hs. by apply last_Some_elem_of.
  - split; [done|]. unfold quote. rewrite app_assoc, last_snoc. done.
  - split; [done|]. rewrite app_assoc, last_snoc. done.
  - split; [done|]. rewrite app_assoc, last_snoc. done.
Qed.
Lemma trim_stringify v : printable v -> trim (stringify v) = stringify v.
Proof. intros H. by apply trim_trimmed, stringify_trimmed. Qed.

(** ** Objects with a text *)

(** In property order, with printable values. *)
Definition sound (o : obj json) : Prop := canonical o /\ Forall (fun kv => printable kv.2) o.
Lemma sound_nil : sound [].
Proof. split; [apply canonical_nil|constructor]. Qed.
Lemma sound_set k v o : printable v -> sound o -> sound (obj_set k v o).
Proof.
  intros Hv [Hc Hp]. split; [by apply obj_set_canonical|]. apply Forall_forall. intros x [->|Hx]%elem_obj_set; [done|].
  rewrite Forall_forall in Hp. by apply Hp.
Qed.
Lemma sound_delete k o : sound o -> sound (obj_delete k o).
Proof.
  intros [Hc Hp]. split; [by apply obj_delete_canonical|]. apply Forall_forall. intros x Hx%elem_obj_delete.
  rewrite Forall_forall in Hp. by apply Hp.
Qed.
Lemma sound_printable o : sound o -> printable (JObj o).
Proof. intros [Hc Hp]. constructor; [done|]. by apply canonical_ok. Qed.

Lemma trim_pretty_object o : trim (stringify_pretty (JObj o)) = stringify_pretty (JObj o).
Proof.
  apply trim_trimmed. unfold stringify_pretty. cbn [render]. split; [done|]. by rewrite !app_assoc, last_snoc.
Qed.
