(* ===== verification/Regex.v ===== *)
(** The regular expressions of ECMAScript that the modelled code uses: a
    backtracking matcher in continuation-passing style, following the
    semantics of the language (ordered alternatives, greedy quantifiers,
    captures, back references, [^], [$] and [\b]), with [exec], [test] and
    the iteration of a global expression. *)
From S2P Require Import Prelude.

(** A position in the subject: the unit before it, the rest of the text, and
    the captures made so far (the latest first). *)
Record pos := Pos { before : option N; rest : jsstr; caps : list (nat * jsstr) }.

Inductive re :=
| RLit (l : jsstr)                   (* a literal *)
| RCls (p : N -> bool)               (* one unit of a class *)
| RMany (p : N -> bool)              (* class*, greedy *)
| RSome (p : N -> bool)              (* class+, greedy *)
| RSeq (a b : re)
| RAlt (a b : re)                    (* a|b *)
| ROpt (a : re)                      (* (?:a)? *)
| RStar (a : re)                     (* (?:a)*, greedy *)
| RGroup (i : nat) (a : re)          (* (a), the i-th capture *)
| RBack (i : nat)                    (* \i *)
| RBegin | REnd | RWordB.            (* ^, $ without the m flag, and \b *)

Declare Scope re_scope.
Delimit Scope re_scope with re.
Bind Scope re_scope with re.
Notation "a ⋅ b" := (RSeq a b) (at level 48, right associativity) : re_scope.
Notation "a ∣ b" := (RAlt a b) (at level 49, right associativity) : re_scope.
Open Scope re_scope.

Fixpoint cap_get (i : nat) (cs : list (nat * jsstr)) : option jsstr :=
  match cs with
  | [] => None
  | (j, s) :: t => if Nat.eqb i j then Some s else cap_get i t
  end.

(** Moving over the units [l], given the rest after them. *)
Definition advance (l r : jsstr) (x : pos) : pos :=
  Pos (match last l with Some c => Some c | None => before x end) r (caps x).

Definition word_opt (o : option N) : bool := match o with Some c => is_word c | None => false end.

(** [first_some a b]: [b] is tried when [a] fails. *)
Definition first_some {A} (a : option A) (b : unit -> option A) : option A :=
  match a with Some x => Some x | None => b tt end.

Section Matcher.
Context {A : Type}.
Implicit Types k : pos -> option A.

(** class*: as many units as possible, giving back on failure. *)
Fixpoint many (p : N -> bool) k (b : option N) (s : jsstr) (cs : list (nat * jsstr)) : option A :=
  match s with
  | c :: t =>
      if p c then first_some (many p k (Some c) t cs) (fun _ => k (Pos b s cs))
      else k (Pos b s cs)
  | [] => k (Pos b [] cs)
  end.

(** (?:a)*: every iteration must consume, so the length bounds their number. *)
Fixpoint star (m : (pos -> option A) -> pos -> option A) (n : nat) k (x : pos) : option A :=
  match n with
  | O => k x
  | S n' =>
      first_some
        (m (fun y => if Nat.ltb (length (rest y)) (length (rest x)) then star m n' k y else None) x)
        (fun _ => k x)
  end.

Fixpoint run (r : re) (k : pos -> option A) (x : pos) : option A :=
  match r with
  | RLit l => match strip_prefix l (rest x) with
              | Some r' => k (advance l r' x)
              | None => None
              end
  | RCls p => match rest x with
              | c :: t => if p c then k (Pos (Some c) t (caps x)) else None
              | [] => None
              end
  | RMany p => many p k (before x) (rest x) (caps x)
  | RSome p => match rest x with
               | c :: t => if p c then many p k (Some c) t (caps x) else None
               | [] => None
               end
  | RSeq a b => run a (run b k) x
  | RAlt a b => first_some (run a k x) (fun _ => run b k x)
  | ROpt a => first_some (run a k x) (fun _ => k x)
  | RStar a => star (run a) (length (rest x)) k x
  | RGroup i a =>
      run a (fun y =>
        k (Pos (before y) (rest y)
               ((i, take (length (rest x) - length (rest y)) (rest x)) :: caps y))) x
  | RBack i => match cap_get i (caps x) with
               | Some s => match strip_prefix s (rest x) with
                           | Some r' => k (advance s r' x)
                           | None => None
                           end
               | None => k x
               end
  | RBegin => match before x with None => k x | Some _ => None end
  | REnd => match rest x with [] => k x | _ => None end
  | RWordB =>
      if xorb (word_opt (before x)) (word_opt (head (rest x))) then k x else None
  end.
End Matcher.

(** A match: its captures, the unit before its end and the text after it. *)
Definition match_at (r : re) (b : option N) (s : jsstr) : option pos :=
  run r Some (Pos b s []).

(** [re.exec(s)]: the leftmost match. *)
Fixpoint search (r : re) (b : option N) (s : jsstr) : option pos :=
  match match_at r b s with
  | Some x => Some x
  | None => match s with
            | c :: t => search r (Some c) t
            | [] => None
            end
  end.
Definition exec (r : re) (s : jsstr) : option pos := search r None s.
(** [re.test(s)] *)
Definition test (r : re) (s : jsstr) : bool :=
  match exec r s with Some _ => true | None => false end.
(** [m[i]] of a match, the empty string for an unmatched group. *)
Definition group (i : nat) (x : pos) : jsstr := default [] (cap_get i (caps x)).

(** The successive matches of a global expression, [while ((m = re.exec(s)))].
    The expressions of the code never match the empty string, so that each
    match shortens the text and its length is enough fuel. *)
Fixpoint exec_all (fuel : nat) (r : re) (b : option N) (s : jsstr) : list pos :=
  match fuel with
  | O => []
  | S f => match search r b s with
           | Some x => x :: exec_all f r (before x) (rest x)
           | None => []
           end
  end.
Definition match_all (r : re) (s : jsstr) : list pos := exec_all (S (length s)) r None s.

(** ** Classes *)

Definition any (_ : N) : bool := true.
(** [.] without the s flag. *)
Definition dot (c : N) : bool := negb (is_line_terminator c).
(** [[^c]] *)
Definition not_unit (d c : N) : bool := negb (N.eqb c d).
Definition not_quote : N -> bool := not_unit 34.
(** [[\d.eE+-]] and [[\d.eE+]] *)
Definition num_char (c : N) : bool :=
  is_digit c || N.eqb c 46 || N.eqb c 101 || N.eqb c 69 || N.eqb c 43 || N.eqb c 45.
Definition num_char_nm (c : N) : bool :=
  is_digit c || N.eqb c 46 || N.eqb c 101 || N.eqb c 69 || N.eqb c 43.
(** [(?:l1|l2|...)] of literals. *)
Fixpoint alts (l : list jsstr) : re :=
  match l with
  | [] => RCls (fun _ => false)
  | [x] => RLit x
  | x :: t => RLit x ∣ alts t
  end.

(** * Running the matcher on known text *)

Section Lemmas.
Context {A : Type}.
Implicit Types k : pos -> option A.

Lemma run_lit l r k b cs :
  run (RLit l) k (Pos b (l ++ r) cs) =
  k (Pos (match last l with Some c => Some c | None => b end) r cs).
Proof. simpl. by rewrite strip_prefix_app. Qed.
Lemma run_lit_fail l s k b cs : starts_with l s = false -> run (RLit l) k (Pos b s cs) = None.
Proof. unfold starts_with. simpl. by destruct (strip_prefix l s). Qed.

(** Text that a class covers, followed by text it does not start with. *)
Definition covers (p : N -> bool) (w : jsstr) : Prop := Forall (fun c => p c = true) w.
Definition stops (p : N -> bool) (r : jsstr) : Prop :=
  match r with [] => True | c :: _ => p c = false end.

Definition last_or (b : option N) (w : jsstr) : option N :=
  match last w with Some c => Some c | None => b end.
Lemma last_or_cons b c w : last_or b (c :: w) = last_or (Some c) w.
Proof. unfold last_or. destruct w as [|d w]; [done|]. rewrite last_cons. by destruct (last (d :: w)). Qed.
Lemma last_or_some w b : exists o, w <> [] -> last_or b w = Some o.
Proof. unfold last_or. destruct (last w) eqn:E; [by eexists|]. exists 0%N. by apply last_None in E. Qed.

(** If the continuation accepts after the covered text, it is taken there. *)
Lemma many_accept p k b w r cs v :
  covers p w -> stops p r -> k (Pos (last_or b w) r cs) = Some v ->
  many p k b (w ++ r) cs = Some v.
Proof.
  intros Hw Hr. revert b. induction Hw as [|c w Hc Hw IH]; intros b Hk; simpl.
  - destruct r as [|d r]; simpl in *; [done|]. by rewrite Hr.
  - rewrite Hc. rewrite last_or_cons in Hk. by rewrite IH.
Qed.

(** If the continuation refuses every position inside the covered text, the
    outcome is decided after it. *)
Lemma many_exact p k b w r cs :
  covers p w -> stops p r ->
  (forall b' c t, p c = true -> k (Pos b' (c :: t) cs) = None) ->
  many p k b (w ++ r) cs = k (Pos (last_or b w) r cs).
Proof.
  intros Hw Hr Hk. revert b. induction Hw as [|c w Hc Hw IH]; intros b; simpl.
  - destruct r as [|d r]; simpl in *; [done|]. by rewrite Hr.
  - rewrite Hc, IH, last_or_cons, Hk by done. by destruct (k _).
Qed.
Lemma run_many_exact p k b w r cs :
  covers p w -> stops p r ->
  (forall b' c t, p c = true -> k (Pos b' (c :: t) cs) = None) ->
  run (RMany p) k (Pos b (w ++ r) cs) = k (Pos (last_or b w) r cs).
Proof. apply many_exact. Qed.
Lemma run_some_exact p k b w r cs :
  w <> [] -> covers p w -> stops p r ->
  (forall b' c t, p c = true -> k (Pos b' (c :: t) cs) = None) ->
  run (RSome p) k (Pos b (w ++ r) cs) = k (Pos (last_or b w) r cs).
Proof.
  intros Hne Hw Hr Hk. destruct Hw as [|c w Hc Hw]; [done|]. simpl. rewrite Hc, last_or_cons.
  by apply many_exact.
Qed.
Lemma run_some_accept p k b w r cs v :
  w <> [] -> covers p w -> stops p r -> k (Pos (last_or b w) r cs) = Some v ->
  run (RSome p) k (Pos b (w ++ r) cs) = Some v.
Proof.
  intros Hne Hw Hr Hk. destruct Hw as [|c w Hc Hw]; [done|]. simpl. rewrite Hc.
  rewrite last_or_cons in Hk. by apply many_accept.
Qed.
Lemma run_some_empty p k b r cs : stops p r -> run (RSome p) k (Pos b r cs) = None.
Proof. destruct r as [|c r]; simpl; [done|]. by intros ->. Qed.

(** A capture of exactly the text [w]. *)
Lemma take_app_sub (w r : jsstr) : take (length (w ++ r) - length r) (w ++ r) = w.
Proof. rewrite length_app. replace (length w + length r - length r) with (length w) by lia. apply take_app_length. Qed.

Lemma run_group_some_exact i p k b w r cs :
  w <> [] -> covers p w -> stops p r ->
  (forall b' c t cs', p c = true -> k (Pos b' (c :: t) cs') = None) ->
  run (RGroup i (RSome p)) k (Pos b (w ++ r) cs) = k (Pos (last_or b w) r ((i, w) :: cs)).
Proof.
  intros Hne Hw Hr Hk. change (run (RGroup i (RSome p)) k (Pos b (w ++ r) cs))
    with (run (RSome p) (fun y => k (Pos (before y) (rest y)
       ((i, take (length (w ++ r) - length (rest y)) (w ++ r)) :: caps y))) (Pos b (w ++ r) cs)).
  rewrite run_some_exact by (try done; intros; simpl; by apply Hk).
  simpl. by rewrite take_app_sub.
Qed.
Lemma run_group_some_accept i p k b w r cs v :
  w <> [] -> covers p w -> stops p r -> k (Pos (last_or b w) r ((i, w) :: cs)) = Some v ->
  run (RGroup i (RSome p)) k (Pos b (w ++ r) cs) = Some v.
Proof.
  intros Hne Hw Hr Hk. change (run (RGroup i (RSome p)) k (Pos b (w ++ r) cs))
    with (run (RSome p) (fun y => k (Pos (before y) (rest y)
       ((i, take (length (w ++ r) - length (rest y)) (w ++ r)) :: caps y))) (Pos b (w ++ r) cs)).
  apply run_some_accept; [done..|]. simpl. by rewrite take_app_sub.
Qed.

(** A literal refuses text that starts with another unit. *)
Lemma run_lit_head_ne a l k b c t cs :
  a <> c -> run (RLit (a :: l)) k (Pos b (c :: t) cs) = None.
Proof. intros H. apply run_lit_fail. by apply starts_with_head_ne. Qed.
End Lemmas.

(** An expression that begins with [^] matches nowhere but at the start. *)
Lemma search_begin_later r c s : search (RBegin ⋅ r) (Some c) s = None.
Proof. revert c; induction s as [|d s IH]; intros c; simpl; [done|apply IH]. Qed.
Lemma exec_begin r s : exec (RBegin ⋅ r) s = run r Some (Pos None s []).
Proof.
  unfold exec. destruct s as [|c s]; cbn [search]; unfold match_at; cbn [run before].
  - by destruct (run r Some _).
  - destruct (run r Some _); [done|]. apply search_begin_later.
Qed.

(** Every text splits into a covered prefix and a rest that stops the class. *)
Lemma cover_split p (s : jsstr) : exists w r, s = w ++ r /\ covers p w /\ stops p r.
Proof.
  induction s as [|c s (w & r & -> & Hw & Hr)]; [exists [], []; split_and!; [done|constructor|done]|].
  destruct (p c) eqn:E.
  - exists (c :: w), r. split_and!; [done|by constructor|done].
  - exists [], (c :: w ++ r). split_and!; [done|constructor|done].
Qed.
Lemma covers_forallb p s : covers p s <-> forallb p s = true.
Proof. unfold covers. rewrite forallb_forall, Forall_forall. setoid_rewrite list_elem_of_In. done. Qed.

(** [/^[p]+$/.test(s)] *)
Lemma test_class_plus p s : test (RBegin ⋅ RSome p ⋅ REnd) s = truthy s && forallb p s.
Proof.
  unfold test. rewrite exec_begin. destruct (cover_split p s) as (w & r & -> & Hw & Hr).
  change (run (RSome p ⋅ REnd) Some (Pos None (w ++ r) []))
    with (run (RSome p) (run REnd Some) (Pos None (w ++ r) [])).
  destruct w as [|c w].
  - simpl app. rewrite run_some_empty by done. destruct r as [|d r]; [done|].
    simpl in *. by rewrite Hr.
  - rewrite run_some_exact by done. rewrite forallb_app, (proj1 (covers_forallb _ _) Hw).
    destruct r as [|d r]; [done|]. simpl in *. by rewrite Hr.
Qed.

(** ** What a match consumes *)

Fixpoint units_in (p : N -> bool) (r : re) : Prop :=
  match r with
  | RLit l => covers p l
  | RCls q | RMany q | RSome q => forall c, q c = true -> p c = true
  | RSeq a b | RAlt a b => units_in p a /\ units_in p b
  | ROpt a | RStar a | RGroup _ a => units_in p a
  | RBack _ => False
  | RBegin | REnd | RWordB => True
  end.

(** [m] hands over to its continuation after consuming units of [p]. *)
Definition consumes {A} (p : N -> bool) (m : (pos -> option A) -> pos -> option A) : Prop :=
  forall k x v, m k x = Some v -> exists w y, rest x = w ++ rest y /\ covers p w /\ k y = Some v.

Section Consumes.
Context {A : Type} (p : N -> bool).

Lemma consumes_nothing (k : pos -> option A) x v :
  k x = Some v -> exists w y, rest x = w ++ rest y /\ covers p w /\ k y = Some v.
Proof. exists [], x. split_and!; [done|constructor|done]. Qed.
Lemma consumes_then (k : pos -> option A) x z (w : jsstr) v :
  rest x = w ++ rest z -> covers p w ->
  (exists w' y, rest z = w' ++ rest y /\ covers p w' /\ k y = Some v) ->
  exists w y, rest x = w ++ rest y /\ covers p w /\ k y = Some v.
Proof.
  intros E Hw (w' & y & E' & Hw' & Hk). exists (w ++ w'), y. rewrite E, E'.
  split_and!; [by rewrite (assoc_L (++))|by apply Forall_app|done].
Qed.

Lemma many_consumes q (k : pos -> option A) b s cs v :
  (forall c, q c = true -> p c = true) -> many q k b s cs = Some v ->
  exists w y, s = w ++ rest y /\ covers p w /\ k y = Some v.
Proof.
  intros Hq. revert b. induction s as [|c s IH]; intros b; simpl.
  - intros Hk. by apply (consumes_nothing k (Pos b [] cs)).
  - destruct (q c) eqn:E; [|intros Hk; by apply (consumes_nothing k (Pos b (c :: s) cs))].
    destruct (many q k (Some c) s cs) eqn:Em; simpl.
    + intros [= ->]. destruct (IH _ Em) as (w & y & -> & Hw & Hk). exists (c :: w), y.
      split_and!; [done|constructor; auto|done].
    + intros Hk. by apply (consumes_nothing k (Pos b (c :: s) cs)).
Qed.

Lemma star_consumes (m : (pos -> option A) -> pos -> option A) n :
  consumes p m -> consumes p (star m n).
Proof.
  intros Hm. induction n as [|n IH]; intros k x v; simpl; [apply consumes_nothing|].
  destruct (m _ x) eqn:E; simpl; [|apply consumes_nothing].
  intros [= ->]. apply Hm in E as (w & y & E & Hw & Hy). case_match; [|done].
  eapply consumes_then; [done..|]. by apply IH.
Qed.

Lemma run_consumes r : units_in p r -> consumes p (run (A := A) r).
Proof.
  induction r as [l|q|q|q|a IHa b IHb|a IHa b IHb|a IHa|a IHa|i a IHa|i| | |]; intros Hp k x v; simpl in *.
  - destruct (strip_prefix l (rest x)) as [r'|] eqn:E; [|done]. apply strip_prefix_spec in E.
    intros Hk. exists l, (advance l r' x). done.
  - destruct (rest x) as [|c t] eqn:E; [done|]. destruct (q c) eqn:Eq; [|done]. intros Hk.
    eexists [c], _. split_and!; [|repeat constructor; auto|done]. done.
  - apply many_consumes; done.
  - destruct (rest x) as [|c t] eqn:E; [done|]. destruct (q c) eqn:Eq; [|done].
    intros (w & y & -> & Hw & Hk)%many_consumes; [|done]. exists (c :: w), y.
    split_and!; [done|constructor; auto|done].
  - destruct Hp as [Ha Hb]. intros (w & y & E & Hw & Hy)%IHa; [|done].
    eapply consumes_then; [done..|]. by apply IHb.
  - destruct Hp as [Ha Hb]. destruct (run a k x) eqn:E; simpl; [intros [= ->]; by apply IHa|by apply IHb].
  - destruct (run a k x) eqn:E; simpl; [intros [= ->]; by apply IHa|apply consumes_nothing].
  - apply star_consumes. by apply IHa.
  - intros (w & y & E & Hw & Hy)%IHa; [|done]. eexists w, _. split_and!; [|done|exact Hy]. done.
  - done.
  - destruct (before x); [done|]. apply consumes_nothing.
  - destruct (rest x) eqn:E; [|done]. intros Hk. exists [], x. rewrite E. split_and!; [done|constructor|done].
  - case_match; [apply consumes_nothing|done].
Qed.
End Consumes.

(** An expression anchored at both ends: the whole text is made of its units. *)
Lemma test_anchored_units p r s : units_in p r -> test (RBegin ⋅ r ⋅ REnd) s = true -> covers p s.
Proof.
  unfold test. rewrite exec_begin. intros Hr. cbn [run].
  destruct (run r _ _) as [x|] eqn:E; [|done]. intros _.
  apply (run_consumes p) in E as (w & y & E & Hw & Hy); [|done]. simpl in *.
  destruct (rest y); [|done]. rewrite app_nil_r in E. by subst.
Qed.
