(* ===== verification/HttpStatusRules.v ===== *)
(** Status code rules (src/web/src/lib/http-status-code-rules.ts) and the guard
    against risky status code redirects of a channel
    (src/web/src/features/channels/lib/status-code-risk-guard.ts).

    A rule text such as "500-503, 429" is parsed into inclusive ranges, which
    are sorted and merged.  The theorems say that the merged ranges denote the
    same codes, are in normal form, and that the normalized text parses back
    to the same ranges.

    A code that passes [isValidCode] lies in 100..599 and is exact as a
    Number, so the codes are integers; a digit string too large to be exact
    exceeds 599 under both readings. *)
From stdpp Require Import sorting.
From S2P Require Import Prelude JsNumber Json Regex.

Module StatusCodeRules.

Record StatusCodeRange := Range { start : Z; end_ : Z }.

#[export] Instance range_eq_dec : EqDecision StatusCodeRange.
Proof. solve_decision. Defined.

Record ParsedHttpStatusCodeRules := Parsed {
  ok : bool;
  ranges : list StatusCodeRange;
  tokens : list jsstr;
  normalized : jsstr;
  invalidTokens : list jsstr;
}.

(** [/^\d+$/.test(s)] *)
Definition isNumber (s : jsstr) : bool := test (RBegin ⋅ RSome is_digit ⋅ REnd) s.

Definition isValidCode (code : Z) : bool := (100 <=? code)%Z && (code <=? 599)%Z.

(** [const [a, b] = cleaned.split('-')]: a missing part is undefined, which
    [isNumber] refuses; further parts are ignored. *)
Definition parseToken (token : jsstr) : option StatusCodeRange :=
  let cleaned := List.filter (fun c => negb (is_space c)) (trim token) in
  if negb (truthy cleaned) then None
  else if includes "-" cleaned then
    match split_char 45 cleaned with
    | a :: b :: _ =>
        if negb (isNumber a) || negb (isNumber b) then None
        else
          let s := digits_val a in
          let e := digits_val b in
          if negb (isValidCode s) || negb (isValidCode e) || (e <? s)%Z then None
          else Some (Range s e)
    | _ => None
    end
  else if negb (isNumber cleaned) then None
  else
    let code := digits_val cleaned in
    if negb (isValidCode code) then None else Some (Range code code).

(** The comparator of [sort]: by start, then by end. *)
Definition range_leb (a b : StatusCodeRange) : bool :=
  if (start a =? start b)%Z then (end_ a <=? end_ b)%Z else (start a <? start b)%Z.

(** [[...ranges].sort(...)], which is stable. *)
Fixpoint insert_range (r : StatusCodeRange) (l : list StatusCodeRange) : list StatusCodeRange :=
  match l with
  | [] => [r]
  | x :: t => if range_leb r x then r :: l else x :: insert_range r t
  end.
Definition sort_ranges (l : list StatusCodeRange) : list StatusCodeRange :=
  fold_right insert_range [] l.

(** One step of the [reduce]: append, or extend the last range in place. *)
Definition merge_step (merged : list StatusCodeRange) (current : StatusCodeRange)
  : list StatusCodeRange :=
  match last merged with
  | None => merged ++ [current]
  | Some l =>
      if (end_ l + 1 <? start current)%Z then merged ++ [current]
      else removelast merged ++ [Range (start l) (Z.max (end_ l) (end_ current))]
  end.

Definition mergeRanges (l : list StatusCodeRange) : list StatusCodeRange :=
  match l with
  | [] => []
  | _ => fold_left merge_step (sort_ranges l) []
  end.

(** [r.start === r.end ? `${r.start}` : `${r.start}-${r.end}`] *)
Definition token_of (r : StatusCodeRange) : jsstr :=
  if (start r =? end_ r)%Z then int_to_string (start r)
  else int_to_string (start r) ++ "-" ++ int_to_string (end_ r).

(** The segments of a rule text: split at commas, full-width ones included. *)
Definition segments (raw : jsstr) : list jsstr :=
  filter_truthy (map trim (split_char 44 (replace_char 65292 44 raw))).

(** The loop over the segments: parsed ranges and rejected tokens, in order. *)
Fixpoint parse_segments (l : list jsstr) : list StatusCodeRange * list jsstr :=
  match l with
  | [] => ([], [])
  | s :: t =>
      let '(rs, bad) := parse_segments t in
      match parseToken s with
      | None => (rs, s :: bad)
      | Some r => (r :: rs, bad)
      end
  end.

(** [(input ?? '').toString()] *)
Definition input_text (input : option json) : jsstr :=
  match input with
  | None | Some JNull => []
  | Some v => json_to_string v
  end.

Definition parseHttpStatusCodeRules (input : option json) : ParsedHttpStatusCodeRules :=
  let raw := trim (input_text input) in
  if negb (truthy raw) then Parsed true [] [] [] []
  else
    let '(rs, bad) := parse_segments (segments raw) in
    if negb (Nat.eqb (length bad) 0) then Parsed false [] [] raw bad
    else
      let merged := mergeRanges rs in
      let toks := map token_of merged in
      Parsed true merged toks (join "," toks) [].

(** * Meaning of a list of ranges *)

Definition within (x : Z) (r : StatusCodeRange) : Prop := (start r <= x <= end_ r)%Z.
Definition covered (x : Z) (l : list StatusCodeRange) : Prop := exists r, r ∈ l /\ within x r.

Definition valid_range (r : StatusCodeRange) : Prop :=
  (100 <= start r)%Z /\ (start r <= end_ r)%Z /\ (end_ r <= 599)%Z.

(** Normal form: ascending, and neither overlapping nor adjacent. *)
Definition apart (a b : StatusCodeRange) : Prop := (end_ a + 1 < start b)%Z.
Definition normal (l : list StatusCodeRange) : Prop := StronglySorted apart l.

Lemma covered_app x l k : covered x (l ++ k) <-> covered x l \/ covered x k.
Proof. unfold covered. setoid_rewrite elem_of_app. naive_solver. Qed.
Lemma covered_one x r : covered x [r] <-> within x r.
Proof. unfold covered. setoid_rewrite list_elem_of_singleton. naive_solver. Qed.

(** ** Sorting *)

Definition start_le (a b : StatusCodeRange) : Prop := (start a <= start b)%Z.

Lemma insert_range_perm r l : insert_range r l ≡ₚ r :: l.
Proof.
  induction l as [|x l IH]; simpl; [done|]. destruct (range_leb r x); [done|].
  rewrite IH. by constructor.
Qed.
Lemma sort_ranges_perm l : sort_ranges l ≡ₚ l.
Proof. induction l as [|r l IH]; simpl; [done|]. by rewrite insert_range_perm, IH. Qed.
Lemma range_leb_start a b : range_leb a b = true -> start_le a b.
Proof. unfold range_leb, start_le. destruct (Z.eqb_spec (start a) (start b)); js_reflect; lia. Qed.
Lemma range_leb_false a b : range_leb a b = false -> start_le b a.
Proof.
  unfold range_leb, start_le. destruct (Z.eqb_spec (start a) (start b)); intros; js_reflect; lia.
Qed.
Lemma insert_range_sorted r l : StronglySorted start_le l -> StronglySorted start_le (insert_range r l).
Proof.
  induction 1 as [|x l Hl IH Hx]; simpl; [by repeat constructor|].
  destruct (range_leb r x) eqn:E.
  - apply range_leb_start in E. constructor; [by constructor|]. constructor; [done|].
    eapply Forall_impl; [exact Hx|]. unfold start_le in *. intros; simpl in *; lia.
  - apply range_leb_false in E. constructor; [done|].
    rewrite insert_range_perm. by constructor.
Qed.
Lemma sort_ranges_sorted l : StronglySorted start_le (sort_ranges l).
Proof. induction l as [|r l IH]; simpl; [constructor|]. by apply insert_range_sorted. Qed.

(** ** Merging *)

Lemma removelast_snoc {A} (l : list A) x : removelast (l ++ [x]) = l.
Proof. rewrite removelast_app by done. simpl. apply app_nil_r. Qed.

Lemma normal_snoc l x : normal (l ++ [x]) <-> normal l /\ Forall (fun a => apart a x) l.
Proof.
  induction l as [|a l IH]; simpl.
  - split; [by repeat constructor|]. intros _. by repeat constructor.
  - split.
    + inversion 1 as [|? ? Hl Ha]; subst. apply Forall_app in Ha as [Ha Hx].
      apply IH in Hl as [Hl Hf]. split; constructor; try done. by inversion Hx.
    + intros [Hl Hf]. inversion Hl; inversion Hf; subst. constructor; [by apply IH|].
      apply Forall_app; split; [done|]. by constructor.
Qed.

(** The state of the loop: merged ranges whose starts are at most those of the
    ranges to come. *)
Definition merge_inv (m : list StatusCodeRange) (bound : Z) : Prop :=
  normal m /\ Forall valid_range m /\ Forall (fun a => (start a <= bound)%Z) m.

Lemma merge_step_inv m r bound :
  merge_inv m bound -> (bound <= start r)%Z -> valid_range r ->
  merge_inv (merge_step m r) (start r) /\
  (forall x, covered x (merge_step m r) <-> covered x m \/ within x r).
Proof.
  intros (Hn & Hv & Hb) Hr Hvr. unfold merge_step.
  assert (Hb' : Forall (fun a => start a <= start r)%Z m)
    by (eapply Forall_impl; [exact Hb|]; simpl; lia).
  destruct (last m) as [l|] eqn:El.
  - apply last_Some in El as [m' ->]. rewrite removelast_snoc.
    apply normal_snoc in Hn as [Hn Ha]. apply Forall_app in Hv as [Hv Hl], Hb' as [Hb' Hbl].
    inversion Hl as [|? ? Hvl _]; inversion Hbl as [|? ? Hbl1 _]; subst.
    destruct (Z.ltb_spec (end_ l + 1) (start r)) as [Hlt|Hge].
    + split; [|intros x; by rewrite covered_app, covered_one].
      repeat split; [|rewrite !Forall_app; repeat constructor; try apply Hvr; try apply Hvl; done..].
      apply normal_snoc. split; [by apply normal_snoc|].
      apply Forall_app. split; [|by repeat constructor].
      eapply Forall_impl; [exact Ha|]. unfold apart, valid_range in *. simpl. lia.
      all: repeat constructor; done || lia.
    + split.
      * repeat split.
        -- apply normal_snoc. split; [done|]. eapply Forall_impl; [exact Ha|]. done.
        -- apply Forall_app; split; [done|]. constructor; [|constructor].
           unfold valid_range in *; simpl; lia.
        -- apply Forall_app; split; [done|]. by constructor.
      * intros x. rewrite !covered_app, !covered_one. unfold within, valid_range in *; simpl.
        assert ((start l <= x <= Z.max (end_ l) (end_ r))%Z <->
                (start l <= x <= end_ l \/ start r <= x <= end_ r)%Z) by lia. tauto.
  - apply last_None in El as ->. simpl. split; [|intros x; rewrite covered_one; unfold covered; set_solver].
    repeat constructor; try apply Hvr. lia.
Qed.

Lemma merge_fold l m bound :
  merge_inv m bound -> StronglySorted start_le l -> Forall valid_range l ->
  Forall (fun r => (bound <= start r)%Z) l ->
  normal (fold_left merge_step l m) /\ Forall valid_range (fold_left merge_step l m) /\
  (forall x, covered x (fold_left merge_step l m) <-> covered x m \/ covered x l).
Proof.
  revert m bound. induction l as [|r l IH]; intros m bound Hm Hs Hv Hb; simpl.
  - destruct Hm as (? & ? & ?). split_and!; [done..|]. intros x. unfold covered at 3. set_solver.
  - inversion Hs as [|? ? Hsl Hrl]; inversion Hv as [|? ? Hvr Hvl]; inversion Hb; subst.
    destruct (merge_step_inv m r bound) as [Hm' Hc]; [done..|].
    destruct (IH _ _ Hm' Hsl Hvl Hrl) as (H1 & H2 & H3). split_and!; [done..|].
    intros x. rewrite H3, Hc. change (r :: l) with ([r] ++ l). rewrite covered_app, covered_one. tauto.
Qed.

Lemma mergeRanges_spec l :
  Forall valid_range l ->
  normal (mergeRanges l) /\ Forall valid_range (mergeRanges l) /\
  (forall x, covered x (mergeRanges l) <-> covered x l).
Proof.
  intros Hv. unfold mergeRanges. destruct l as [|r l]; [repeat constructor; naive_solver|].
  destruct (merge_fold (sort_ranges (r :: l)) [] 0) as (H1 & H2 & H3).
  - repeat constructor.
  - apply sort_ranges_sorted.
  - by rewrite sort_ranges_perm.
  - rewrite sort_ranges_perm. eapply Forall_impl; [exact Hv|]. unfold valid_range; simpl; lia.
  - split_and!; [done..|]. intros x. rewrite H3. unfold covered at 1 2 3.
    setoid_rewrite (sort_ranges_perm (r :: l)). set_solver.
Qed.

(** ** Tokens *)

Lemma isNumber_spec s : isNumber s = truthy s && forallb is_digit s.
Proof. apply test_class_plus. Qed.

Lemma digit_not_space c : is_digit c = true -> is_space c = false.
Proof.
  unfold is_digit, is_space. rewrite andb_true_iff, !N.leb_le. intros [H1 H2].
  repeat (apply orb_false_iff; split); rewrite ?andb_false_iff, ?N.eqb_neq, ?N.leb_gt; lia.
Qed.
Lemma digits_no c n : is_digit c = false -> (0 <= n)%Z -> c ∉ digits n.
Proof.
  intros Hc Hn Hin. pose proof (digits_are_digits n Hn) as H.
  rewrite Forall_forall in H. by rewrite (H c Hin) in Hc.
Qed.
Lemma isNumber_digits n : (0 <= n)%Z -> isNumber (digits n) = true.
Proof.
  intros Hn. rewrite isNumber_spec. apply andb_true_iff. split.
  - apply truthy_true, digits_nonempty.
  - apply covers_forallb, digits_are_digits, Hn.
Qed.
Lemma int_to_string_nonneg n : (0 <= n)%Z -> int_to_string n = digits n.
Proof. intros Hn. unfold int_to_string. by rewrite (proj2 (Z.ltb_ge n 0) Hn). Qed.

(** A token is digits, or digits, a hyphen and digits. *)
Lemma token_of_form r :
  valid_range r ->
  token_of r = if (start r =? end_ r)%Z then digits (start r)
               else digits (start r) ++ 45%N :: digits (end_ r).
Proof.
  intros (H1 & H2 & H3). unfold token_of. rewrite !int_to_string_nonneg by lia. done.
Qed.
Lemma token_of_chars r :
  valid_range r -> token_of r <> [] /\ Forall (fun c => is_digit c = true \/ c = 45%N) (token_of r).
Proof.
  intros Hr. rewrite token_of_form by done. destruct Hr as (H1 & H2 & H3).
  assert (Hd : forall n, (0 <= n)%Z -> Forall (fun c => is_digit c = true \/ c = 45%N) (digits n))
    by (intros n Hn; eapply Forall_impl; [apply digits_are_digits, Hn|]; simpl; by left).
  destruct (start r =? end_ r)%Z.
  - split; [apply digits_nonempty|]. apply Hd; lia.
  - split; [by destruct (digits (start r))|]. rewrite Forall_app, Forall_cons.
    split_and!; [apply Hd; lia|by right|apply Hd; lia].
Qed.
Lemma token_of_no_space r :
  valid_range r -> Forall (fun c => is_space c = false) (token_of r).
Proof.
  intros [_ H]%token_of_chars. eapply Forall_impl; [exact H|].
  intros c [Hc | ->]; [by apply digit_not_space|done].
Qed.

Lemma valid_codes r :
  valid_range r -> isValidCode (start r) = true /\ isValidCode (end_ r) = true.
Proof. intros (? & ? & ?). unfold isValidCode. rewrite !andb_true_iff, !Z.leb_le. lia. Qed.

(** The printed form of a valid range parses back to it. *)
Lemma parseToken_token_of r : valid_range r -> parseToken (token_of r) = Some r.
Proof.
  intros Hr. pose proof (token_of_no_space r Hr) as Hsp. pose proof (token_of_chars r Hr) as [Hne _].
  destruct (valid_codes r Hr) as [Hv1 Hv2]. destruct Hr as (H1 & H2 & H3) eqn:EHr.
  unfold parseToken. rewrite trim_nonspace by done.
  rewrite bfilter_id by (intros x Hx; rewrite Forall_forall in Hsp; by rewrite Hsp).
  rewrite (proj2 (truthy_true _) Hne). cbn [negb].
  rewrite token_of_form by done. destruct (Z.eqb_spec (start r) (end_ r)) as [E|E].
  - rewrite includes_first_unit by (apply digits_no; [done|lia]).
    rewrite isNumber_digits, digits_val_digits, Hv1 by lia. destruct r as [a b]; simpl in *. by subst.
  - rewrite (proj2 (includes_spec "-" _)) by (by eexists (digits (start r)), (digits (end_ r))).
    rewrite split_char_app by (apply digits_no; [done|lia]).
    rewrite split_char_no_sep by (apply digits_no; [done|lia]).
    rewrite !isNumber_digits, !digits_val_digits, Hv1, Hv2 by lia.
    rewrite (proj2 (Z.ltb_ge _ _)) by lia. by destruct r.
Qed.

(** A range the parser accepts is valid. *)
Lemma parseToken_valid s r : parseToken s = Some r -> valid_range r.
Proof.
  unfold parseToken, valid_range, isValidCode. intros H.
  repeat case_match; simplify_eq/=; js_reflect;
    repeat match goal with H : _ \/ _ |- _ => destruct H end; js_reflect; try done; lia.
Qed.

(** ** The loop over the segments *)

Lemma parse_segments_fst l r : r ∈ (parse_segments l).1 <-> exists s, s ∈ l /\ parseToken s = Some r.
Proof.
  induction l as [|s l IH]; simpl.
  - split; [by intros ?%elem_of_nil|]. by intros (? & ?%elem_of_nil & _).
  - setoid_rewrite elem_of_cons. destruct (parse_segments l) as [rs bad]. simpl in *.
    destruct (parseToken s) eqn:E; simpl; rewrite ?elem_of_cons, IH; naive_solver.
Qed.
Lemma parse_segments_valid l : Forall valid_range (parse_segments l).1.
Proof. apply Forall_forall. intros r (s & _ & Hs)%parse_segments_fst. by eapply parseToken_valid. Qed.
Lemma parse_segments_snd l :
  (parse_segments l).2 = List.filter (fun s => bool_decide (parseToken s = None)) l.
Proof.
  induction l as [|s l IH]; simpl; [done|]. destruct (parse_segments l) as [rs bad]. simpl in *.
  rewrite <- IH. by destruct (parseToken s).
Qed.
Lemma parse_segments_tokens l :
  Forall valid_range l -> parse_segments (map token_of l) = (l, []).
Proof.
  induction 1 as [|r l Hr Hl IH]; simpl; [done|]. by rewrite IH, parseToken_token_of.
Qed.

(** ** Normal forms are fixed points *)

Lemma merge_normal_app m l :
  normal (m ++ l) -> Forall valid_range (m ++ l) -> fold_left merge_step l m = m ++ l.
Proof.
  revert m. induction l as [|r l IH]; intros m Hn Hv; simpl; [by rewrite app_nil_r|].
  assert (Hs : merge_step m r = m ++ [r]).
  { unfold merge_step. destruct (last m) as [a|] eqn:E; [|done].
    assert (Har : apart a r).
    { eapply (StronglySorted_app_1_elem_of apart); [exact Hn| |by left].
      by apply last_Some_elem_of. }
    unfold apart in Har. by rewrite (proj2 (Z.ltb_lt _ _) Har). }
  rewrite Hs, IH; rewrite <- app_assoc; done.
Qed.
Lemma sort_normal l : Forall valid_range l -> normal l -> sort_ranges l = l.
Proof.
  intros Hv. induction 1 as [|r l Hl IH Hr]; simpl; [done|].
  inversion Hv as [|? ? Hvr Hvl]; subst. rewrite IH by done. destruct l as [|x l]; [done|]. simpl.
  inversion Hr as [|? ? Hrx _]; subst. unfold apart, valid_range, range_leb in *.
  destruct (Z.eqb_spec (start r) (start x)); [lia|]. by rewrite (proj2 (Z.ltb_lt _ _)) by lia.
Qed.
Lemma mergeRanges_normal l : Forall valid_range l -> normal l -> mergeRanges l = l.
Proof.
  intros Hv Hn. unfold mergeRanges. destruct l as [|r l]; [done|].
  rewrite sort_normal by done. by apply (merge_normal_app []).
Qed.

(** ** The parser as a whole *)

(** The segments of a text are what the claims below quantify over. *)
Definition rule_segments (input : option json) : list jsstr := segments (trim (input_text input)).

Lemma segments_nil : segments [] = [].
Proof. done. Qed.

Lemma parse_unfold input :
  parseHttpStatusCodeRules input =
  let '(rs, bad) := parse_segments (rule_segments input) in
  if negb (Nat.eqb (length bad) 0) then Parsed false [] [] (trim (input_text input)) bad
  else Parsed true (mergeRanges rs) (map token_of (mergeRanges rs))
              (join "," (map token_of (mergeRanges rs))) [].
Proof.
  unfold parseHttpStatusCodeRules, rule_segments.
  by destruct (trim (input_text input)) as [|c t].
Qed.

Lemma parse_ok_ranges input :
  ok (parseHttpStatusCodeRules input) = true ->
  ranges (parseHttpStatusCodeRules input) = mergeRanges (parse_segments (rule_segments input)).1.
Proof.
  rewrite parse_unfold. destruct (parse_segments _) as [rs bad]. by destruct (negb _).
Qed.

Lemma segments_tokens l :
  Forall valid_range l -> l <> [] -> segments (join "," (map token_of l)) = map token_of l.
Proof.
  intros Hv Hne. unfold segments, replace_char.
  assert (Hc : forall r, r ∈ l -> Forall (fun c => is_digit c = true \/ c = 45%N) (token_of r)).
  { intros r Hr. rewrite Forall_forall in Hv. apply token_of_chars. auto. }
  rewrite (map_id_on (fun x => if N.eqb x 65292 then 44%N else x)).
  - rewrite split_join; [|by destruct l|].
    + rewrite map_id_on; [apply bfilter_id|]; intros t (r & -> & Hr)%elem_of_map;
        rewrite Forall_forall in Hv.
      * apply truthy_true, token_of_chars. auto.
      * apply trim_nonspace, token_of_no_space. auto.
    + apply Forall_forall. intros t (r & -> & Hr)%elem_of_map Hin.
      specialize (Hc r Hr). rewrite Forall_forall in Hc. by destruct (Hc _ Hin) as [?|?].
  - intros c Hin. destruct (N.eqb_spec c 65292) as [->|]; [|done]. exfalso.
    assert (H : forall k, (forall t, t ∈ k -> 65292%N ∉ t) -> 65292%N ∉ join "," k).
    { clear. induction k as [|t k IH]; intros H; [apply not_elem_of_nil|].
      destruct k as [|u k]; [apply H; by left|]. rewrite join_cons by done.
      rewrite !elem_of_app, list_elem_of_singleton. intros [?|[?|?]]; [|done|].
      - apply (H t); [by left|done].
      - apply IH; [|done]. intros w Hw. apply H. by right. }
    apply H in Hin; [done|]. intros t (r & -> & Hr)%elem_of_map Hin'.
    specialize (Hc r Hr). rewrite Forall_forall in Hc. by destruct (Hc _ Hin') as [?|?].
Qed.

(** C34: when the parser accepts a rule text, the ranges it returns cover
    exactly the status codes that some segment of the text covers: sorting and
    merging neither lose nor add a code. *)
Theorem rules_denote input code :
  ok (parseHttpStatusCodeRules input) = true ->
  covered code (ranges (parseHttpStatusCodeRules input)) <->
  exists s r, s ∈ rule_segments input /\ parseToken s = Some r /\ within code r.
Proof.
  intros Hok. rewrite parse_ok_ranges by done.
  rewrite (proj2 (proj2 (mergeRanges_spec _ (parse_segments_valid _)))).
  unfold covered. setoid_rewrite parse_segments_fst. naive_solver.
Qed.

(** The returned ranges are in normal form: inside 100..599, non-empty,
    ascending, and separated by at least one code that is not covered. *)
Theorem rules_normal_form input :
  normal (ranges (parseHttpStatusCodeRules input)) /\
  Forall valid_range (ranges (parseHttpStatusCodeRules input)).
Proof.
  rewrite parse_unfold. pose proof (parse_segments_valid (rule_segments input)) as Hv.
  destruct (parse_segments _) as [rs bad]. simpl in Hv.
  destruct (negb _); simpl; [by repeat constructor|].
  by destruct (mergeRanges_spec rs Hv) as (? & ? & _).
Qed.

(** The normalized text of an accepted rule parses again, to the same
    ranges, tokens and normalized text. *)
Theorem rules_normalized_roundtrip input :
  ok (parseHttpStatusCodeRules input) = true ->
  parseHttpStatusCodeRules (Some (JStr (normalized (parseHttpStatusCodeRules input)))) =
  parseHttpStatusCodeRules input.
Proof.
  rewrite !parse_unfold. unfold rule_segments.
  pose proof (parse_segments_valid (segments (trim (input_text input)))) as Hv.
  destruct (parse_segments (segments (trim (input_text input)))) as [rs bad]. simpl in Hv.
  destruct (negb _); [done|]. intros _. cbn [normalized input_text json_to_string].
  destruct (mergeRanges_spec rs Hv) as (Hn & Hm & _). revert Hn Hm.
  generalize (mergeRanges rs). clear. intros l Hn Hv.
  destruct (decide (l = [])) as [->|Hne]; [done|].
  assert (Htrim : trim (join "," (map token_of l)) = join "," (map token_of l)).
  { apply trim_nonspace. clear Hn Hne. induction Hv as [|r l Hr Hv IH]; [constructor|].
    cbn [map]. destruct l as [|x l]; [by apply token_of_no_space|].
    rewrite join_cons, !Forall_app by done. split_and!; [by apply token_of_no_space| |done].
    by repeat constructor. }
  rewrite Htrim, segments_tokens, parse_segments_tokens by done. simpl.
  by rewrite mergeRanges_normal.
Qed.

(** The parser rejects a text exactly when a segment is no valid token,
    and then reports those segments, in order, and no ranges. *)
Theorem rules_rejected input :
  let p := parseHttpStatusCodeRules input in
  invalidTokens p = List.filter (fun s => bool_decide (parseToken s = None)) (rule_segments input) /\
  (ok p = true <-> invalidTokens p = []) /\
  (ok p = false -> ranges p = [] /\ tokens p = []).
Proof.
  simpl. rewrite parse_unfold, <- parse_segments_snd.
  destruct (parse_segments _) as [rs [|b bad]]; simpl; split_and!; naive_solver.
Qed.

(** A token with more than one hyphen is accepted for its first two
    parts: a third part, whatever it is, is ignored. *)
Theorem token_extra_part_ignored a b junk :
  (100 <= a <= b)%Z -> (b <= 599)%Z -> Forall (fun c => is_space c = false) junk ->
  parseToken (digits a ++ "-" ++ digits b ++ "-" ++ junk) = Some (Range a b).
Proof.
  intros Ha Hb Hj. set (t := digits a ++ "-" ++ digits b ++ "-" ++ junk).
  assert (Hsp : Forall (fun c => is_space c = false) t).
  { unfold t. rewrite !Forall_app. split_and!; [|by repeat constructor| |by repeat constructor|done];
      (eapply Forall_impl; [apply digits_are_digits; lia|]); intros c; apply digit_not_space. }
  unfold parseToken. rewrite trim_nonspace by done.
  rewrite bfilter_id by (intros x Hx; rewrite Forall_forall in Hsp; by rewrite Hsp).
  assert (Hne : truthy t = true).
  { apply truthy_true. unfold t. pose proof (digits_nonempty a). by destruct (digits a). }
  rewrite Hne, (proj2 (includes_spec "-" _)) by (by eexists (digits a), _).
  change t with (digits a ++ 45%N :: (digits b ++ 45%N :: junk)).
  rewrite !split_char_app by (apply digits_no; [done|lia]).
  rewrite !isNumber_digits, !digits_val_digits by lia.
  destruct (valid_codes (Range a b)) as [H1 H2]; [unfold valid_range; simpl; lia|]. simpl in H1, H2.
  cbn iota beta. rewrite H1, H2, (proj2 (Z.ltb_ge b a)) by lia. done.
Qed.

Lemma rules_denote_witness :
  let i := Some (JStr "500-503, 429,") in
  covered 502 (ranges (parseHttpStatusCodeRules i)) <->
  exists s r, s ∈ rule_segments i /\ parseToken s = Some r /\ within 502 r.
Proof. apply rules_denote. vm_compute. reflexivity. Defined.
Lemma rules_normalized_roundtrip_witness :
  let i := Some (JStr "503,500-502, 429") in
  normalized (parseHttpStatusCodeRules i) = "429,500-503" /\
  parseHttpStatusCodeRules (Some (JStr (normalized (parseHttpStatusCodeRules i)))) =
  parseHttpStatusCodeRules i.
Proof.
  split; [vm_compute; reflexivity|]. apply rules_normalized_roundtrip. vm_compute. reflexivity.
Defined.
Lemma token_extra_part_ignored_witness :
  parseToken (digits 100 ++ "-" ++ digits 200 ++ "-" ++ "300") = Some (Range 100 200).
Proof. apply token_extra_part_ignored; [lia..|]. repeat constructor. Defined.

End StatusCodeRules.

Module StatusCodeRiskGuard.

Definition NON_REDIRECTABLE_STATUS_CODES : list Z := [504; 524]%Z.

(** [/^[1-5]\d{2}$/] *)
Definition code_re : re :=
  RBegin ⋅ RCls (fun c => (49 <=? c)%N && (c <=? 53)%N) ⋅ RCls is_digit ⋅ RCls is_digit ⋅ REnd.

Definition parseStatusCodeKey (rawKey : jsstr) : option Z :=
  let normalized := trim rawKey in
  if negb (test code_re normalized) then None else Some (digits_val normalized).

(** The value of an integral Number. *)
Definition int_value (n : jsnum) : Z :=
  match n with SpecFloat.S754_finite s m e => floor_Z s m e | _ => 0 end.

Definition in_code_range (c : Z) : bool := (100 <=? c)%Z && (c <=? 599)%Z.

Definition parseStatusCodeMappingTarget (rawValue : json) : option Z :=
  match rawValue with
  | JNum n => if is_integer n && in_code_range (int_value n) then Some (int_value n) else None
  | JStr s =>
      let normalized := trim s in
      if negb (test code_re normalized) then None
      else let code := digits_val normalized in
           if in_code_range code then Some code else None
  | _ => None
  end.

(** The entries of the mapping text; no entries when it is blank, is not JSON,
    or is not a plain object. *)
Definition mapping_entries (statusCodeMappingStr : jsstr) : list (jsstr * json) :=
  if negb (truthy (trim statusCodeMappingStr)) then []
  else match parse statusCodeMappingStr with
       | Some (JObj o) => o
       | _ => []
       end.

Definition collectInvalidStatusCodeEntries (statusCodeMappingStr : jsstr) : list jsstr :=
  map (fun e => e.1 ++ " → " ++ json_to_string e.2)
    (List.filter (fun e => bool_decide (parseStatusCodeKey e.1 = None)
                           || bool_decide (parseStatusCodeMappingTarget e.2 = None))
                 (mapping_entries statusCodeMappingStr)).

(** The mapping a risky entry reports, if it is risky. *)
Definition risky_mapping (e : jsstr * json) : option jsstr :=
  match parseStatusCodeKey e.1, parseStatusCodeMappingTarget e.2 with
  | Some fromCode, Some toCode =>
      if negb (has fromCode NON_REDIRECTABLE_STATUS_CODES) then None
      else if (fromCode =? toCode)%Z then None
      else Some (int_to_string fromCode ++ " -> " ++ int_to_string toCode)
  | _, _ => None
  end.

(** The default order of [sort]: by UTF-16 code units. *)
Fixpoint str_leb (a b : jsstr) : bool :=
  match a, b with
  | [], _ => true
  | _ :: _, [] => false
  | x :: a', y :: b' => if N.eqb x y then str_leb a' b' else N.ltb x y
  end.
Fixpoint insert_str (s : jsstr) (l : list jsstr) : list jsstr :=
  match l with
  | [] => [s]
  | x :: t => if str_leb s x then s :: l else x :: insert_str s t
  end.
Definition sort_strings (l : list jsstr) : list jsstr := fold_right insert_str [] l.

Definition collectDisallowedStatusCodeRedirects (statusCodeMappingStr : jsstr) : list jsstr :=
  sort_strings (nub (omap risky_mapping (mapping_entries statusCodeMappingStr))).

Definition collectNewDisallowedStatusCodeRedirects (originalStr currentStr : jsstr) : list jsstr :=
  let currentRisky := collectDisallowedStatusCodeRedirects currentStr in
  match currentRisky with
  | [] => []
  | _ =>
      let originalRiskySet := nub (collectDisallowedStatusCodeRedirects originalStr) in
      List.filter (fun m => negb (has m originalRiskySet)) currentRisky
  end.

Lemma insert_str_perm s l : insert_str s l ≡ₚ s :: l.
Proof.
  induction l as [|x l IH]; simpl; [done|]. destruct (str_leb s x); [done|].
  rewrite IH. by constructor.
Qed.
Lemma sort_strings_perm l : sort_strings l ≡ₚ l.
Proof. induction l as [|s l IH]; simpl; [done|]. by rewrite insert_str_perm, IH. Qed.

Lemma str_leb_total a b : str_leb a b = false -> str_leb b a = true.
Proof.
  revert b. induction a as [|x a IH]; intros [|y b]; simpl; try done.
  destruct (N.eqb_spec x y) as [->|]; [rewrite N.eqb_refl; apply IH|].
  rewrite (proj2 (N.eqb_neq y x)), N.ltb_ge, N.ltb_lt by congruence. lia.
Qed.
Lemma str_leb_trans a b c : str_leb a b = true -> str_leb b c = true -> str_leb a c = true.
Proof.
  revert b c. induction a as [|x a IH]; intros [|y b] [|z c]; simpl; try done.
  destruct (N.eqb_spec x y) as [->|]; destruct (N.eqb_spec y z) as [->|].
  - rewrite ?N.eqb_refl. apply IH.
  - done.
  - rewrite ?(proj2 (N.eqb_neq x z)) by done. done.
  - rewrite !N.ltb_lt. destruct (N.eqb_spec x z) as [->|]; [lia|]. rewrite N.ltb_lt. lia.
Qed.
Lemma sort_strings_sorted l : StronglySorted (fun a b => str_leb a b = true) (sort_strings l).
Proof.
  induction l as [|s l IH]; simpl; [constructor|].
  induction IH as [|x k Hk IHk Hx]; simpl; [by repeat constructor|].
  destruct (str_leb s x) eqn:E.
  - constructor; [by constructor|]. constructor; [done|].
    eapply Forall_impl; [exact Hx|]. intros y. by apply str_leb_trans.
  - apply str_leb_total in E. constructor; [done|]. rewrite insert_str_perm. by constructor.
Qed.

(** The guard reports exactly the entries of the mapping that send 504 or
    524 to a different code, each once and in ascending order. *)
Theorem risky_redirects_exact str s :
  let l := collectDisallowedStatusCodeRedirects str in
  (s ∈ l <-> exists e from to,
     e ∈ mapping_entries str /\ parseStatusCodeKey e.1 = Some from /\
     parseStatusCodeMappingTarget e.2 = Some to /\ (from = 504 \/ from = 524)%Z /\ from <> to /\
     s = int_to_string from ++ " -> " ++ int_to_string to) /\
  NoDup l /\ StronglySorted (fun a b => str_leb a b = true) l.
Proof.
  simpl. unfold collectDisallowedStatusCodeRedirects. split_and!.
  - rewrite sort_strings_perm, elem_of_nub, list_elem_of_omap. unfold risky_mapping. split.
    + intros (e & He & H). repeat case_match; simplify_eq. js_reflect.
      apply has_spec in H2. unfold NON_REDIRECTABLE_STATUS_CODES in H2. set_solver.
    + intros (e & from & to & He & Hf & Ht & Hc & Hne & ->). exists e. split; [done|].
      rewrite Hf, Ht, (proj2 (Z.eqb_neq _ _) Hne).
      by rewrite (proj2 (has_spec _ _)) by (unfold NON_REDIRECTABLE_STATUS_CODES; set_solver).
  - rewrite sort_strings_perm. apply nub_NoDup.
  - apply sort_strings_sorted.
Qed.

(** Saving is unblocked, that is no new risky redirect is reported,
    exactly when every risky redirect of the edited mapping was already in the
    original one. *)
Theorem new_redirects_complete originalStr currentStr :
  collectNewDisallowedStatusCodeRedirects originalStr currentStr = [] <->
  forall s, s ∈ collectDisallowedStatusCodeRedirects currentStr ->
            s ∈ collectDisallowedStatusCodeRedirects originalStr.
Proof.
  unfold collectNewDisallowedStatusCodeRedirects.
  destruct (collectDisallowedStatusCodeRedirects currentStr) as [|x l] eqn:E.
  - split; [by intros _ s ?%elem_of_nil|done].
  - rewrite <- E. clear E x l. generalize (collectDisallowedStatusCodeRedirects currentStr). intros l.
    split.
    + intros H s Hs. destruct (decide (s ∈ collectDisallowedStatusCodeRedirects originalStr)) as [|Hn]; [done|].
      enough (Hin : s ∈ []) by by apply elem_of_nil in Hin. rewrite <- H.
      apply elem_of_bfilter. split; [done|]. apply negb_true_iff, has_spec_false. by rewrite elem_of_nub.
    + intros H. apply bfilter_none. intros s Hs. apply negb_false_iff, has_spec, elem_of_nub. auto.
Qed.

End StatusCodeRiskGuard.
