(* ===== verification/ModelMapping.v ===== *)
(** Model lists and model mappings of a channel
    (src/web/src/features/channels/lib/model-mapping-validation.ts): the
    comma-separated model list, the JSON mapping from exposed to upstream
    models, and the checks that relate the two.  A JavaScript [Set] is the
    list of its elements in insertion order. *)
From S2P Require Import Prelude JsNumber Json.

Module ModelMapping.

Definition parseModelsString (modelsStr : jsstr) : list jsstr :=
  if truthy modelsStr then filter_truthy (map trim (split_char 44 modelsStr)) else [].

Definition formatModelsArray (models : list jsstr) : jsstr := join "," (nub models).

(** The argument is a string, by its type and at every call. *)
Definition normalizeModelName (model : jsstr) : jsstr := trim model.

(** The object a mapping text denotes: [None] when it is blank, is not JSON or
    is not a plain object. *)
Definition mapping_object (modelMapping : jsstr) : option (obj json) :=
  let trimmed := trim modelMapping in
  if negb (truthy trimmed) then None
  else v ← parse trimmed; as_object v.

Definition extractMappingSourceModels (modelMapping : jsstr) : list jsstr :=
  match mapping_object modelMapping with
  | None => []
  | Some parsed => nub (filter_truthy (map (fun e => trim e.1) parsed))
  end.

(** [typeof value === 'string' ? value.trim() : undefined], then the filter. *)
Definition redirect_value (v : json) : option jsstr :=
  match v with
  | JStr s => if truthy (trim s) then Some (trim s) else None
  | _ => None
  end.

Definition extractRedirectModels (modelMapping : jsstr) : list jsstr :=
  match mapping_object modelMapping with
  | None => []
  | Some parsed => nub (omap (fun e => redirect_value e.2) parsed)
  end.

(** The loop comparing the lists index by index, after their lengths. *)
Fixpoint some_index_differs (a b : list jsstr) : bool :=
  match a, b with
  | x :: a', y :: b' => negb (str_eqb x y) || some_index_differs a' b'
  | _, _ => false
  end.

Definition hasModelConfigChanged (currentModels : list jsstr) (currentModelMapping : jsstr)
    (initialModels : list jsstr) (initialModelMapping : jsstr) : bool :=
  if Nat.eqb (length initialModels) 0 && negb (truthy initialModelMapping) then true
  else if negb (Nat.eqb (length currentModels) (length initialModels)) then true
  else if some_index_differs currentModels initialModels then true
  else negb (str_eqb (trim currentModelMapping) (trim initialModelMapping)).

(** This function parses the text itself, not its trimmed form. *)
Definition findMissingModelsInMapping (modelMapping : jsstr) (currentModels : list jsstr)
  : list jsstr :=
  if negb (truthy modelMapping) || str_eqb (trim modelMapping) [] then []
  else match v ← parse modelMapping; as_object v with
       | None => []
       | Some parsedMapping =>
           let modelSet := nub (map normalizeModelName currentModels) in
           nub (List.filter (fun key => truthy key && negb (has key modelSet))
                            (map (fun e => normalizeModelName e.1) parsedMapping))
       end.

Record Validation := { valid : bool; error : option jsstr }.

Definition is_string (v : json) : bool := match v with JStr _ => true | _ => false end.

Definition validateModelMappingJson (modelMapping : jsstr) : Validation :=
  if negb (truthy modelMapping) || str_eqb (trim modelMapping) [] then
    {| valid := true; error := None |}
  else match parse modelMapping with
       | None => {| valid := false; error := Some "Model mapping must be valid JSON format" |}
       | Some parsed =>
           match as_object parsed with
           | None => {| valid := false; error := Some "Model mapping must be a valid JSON object" |}
           | Some o =>
               if existsb (fun e => negb (is_string e.2)) o
               then {| valid := false; error := Some "Model mapping values must be strings" |}
               else {| valid := true; error := None |}
           end
       end.

Definition findExposedTargetModels (modelMapping : jsstr) (currentModels : list jsstr)
  : list jsstr :=
  let redirectModels := extractRedirectModels modelMapping in
  match redirectModels with
  | [] => []
  | _ =>
      let modelSet := nub (map normalizeModelName currentModels) in
      List.filter (fun model => has (normalizeModelName model) modelSet) redirectModels
  end.

Record Categories := {
  normalizedCurrentModels : list jsstr;
  normalizedRedirectModels : list jsstr;
  classificationSet : list jsstr;
  redirectOnlySet : list jsstr;
}.

Definition categorizeModelsWithRedirect (currentModels redirectModels : list jsstr) : Categories :=
  let cur := nub (filter_truthy (map normalizeModelName currentModels)) in
  let red := nub (filter_truthy (map normalizeModelName redirectModels)) in
  {| normalizedCurrentModels := cur;
     normalizedRedirectModels := red;
     classificationSet := nub (cur ++ red);
     redirectOnlySet := nub (List.filter (fun m => negb (has m cur)) red) |}.

(** * Model lists *)

(** A model name as the list stores it. *)
Definition clean_name (m : jsstr) : Prop := m <> [] /\ trimmed m /\ 44%N ∉ m.

Lemma parseModelsString_clean s : Forall clean_name (parseModelsString s).
Proof.
  unfold parseModelsString. destruct (truthy s); [|constructor].
  apply Forall_forall. intros m (Hm & Hne)%elem_of_filter_truthy.
  apply elem_of_map in Hm as (w & -> & Hw). split_and!; [done|apply trim_is_trimmed|].
  intros Hc%trim_incl. by apply split_char_not_in in Hw.
Qed.

Lemma parse_join_clean l : Forall clean_name l -> parseModelsString (join "," l) = l.
Proof.
  intros Hl. destruct (decide (l = [])) as [->|Hne]; [done|].
  unfold parseModelsString. rewrite split_join; [|done|].
  - assert (Ht : truthy (join "," l) = true).
    { destruct Hl as [|x l (Hx & _) Hl]; [done|]. apply truthy_true.
      destruct l; [done|]. rewrite join_cons by done. by destruct x. }
    rewrite Ht, Forall_forall in *. rewrite map_id_on by (intros x Hx; apply trim_trimmed; by apply Hl).
    apply bfilter_id. intros x Hx. apply truthy_true. by apply Hl.
  - eapply Forall_impl; [exact Hl|]. by intros x (_ & _ & ?).
Qed.

(** Formatting a model list and parsing it back gives the list without
    repetitions, for every list obtained by parsing; so saving an edited list
    and opening it again shows the same models. *)
Theorem models_roundtrip s :
  parseModelsString (formatModelsArray (parseModelsString s)) = nub (parseModelsString s).
Proof.
  unfold formatModelsArray. apply parse_join_clean.
  apply Forall_forall. intros m Hm. rewrite elem_of_nub in Hm.
  pose proof (parseModelsString_clean s) as H. rewrite Forall_forall in H. exact (H m Hm).
Qed.

(** The change check is exact: it is false precisely when a channel is
    being edited, its model list is unchanged and its mapping is unchanged up
    to surrounding white space. *)
Theorem config_unchanged_iff cm cmap im imap :
  hasModelConfigChanged cm cmap im imap = false <->
  (im <> [] \/ imap <> []) /\ cm = im /\ trim cmap = trim imap.
Proof.
  assert (Hd : forall a b, length a = length b -> some_index_differs a b = false <-> a = b).
  { induction a as [|x a IH]; intros [|y b] Hl; simplify_eq/=; [done|].
    rewrite orb_false_iff, negb_false_iff, str_eqb_true, IH by done. naive_solver. }
  unfold hasModelConfigChanged.
  destruct (Nat.eqb (length im) 0 && negb (truthy imap)) eqn:E1.
  - js_reflect. apply Nat.eqb_eq, nil_length_inv in H. apply truthy_false in H0. naive_solver.
  - assert (Hi : im <> [] \/ imap <> []).
    { js_reflect. destruct E1 as [H|H]; [left|right]; [by destruct im|].
      js_reflect. by apply truthy_true. }
    destruct (Nat.eqb_spec (length cm) (length im)) as [El|El]; simpl; [|naive_solver].
    destruct (some_index_differs cm im) eqn:E2; [|apply Hd in E2; [|done]].
    + split; [done|]. intros (_ & Hc & _). apply Hd in Hc; congruence.
    + rewrite negb_false_iff, str_eqb_true. naive_solver.
Qed.

(** The missing models are exactly the non-blank mapping keys, trimmed,
    that no model of the list equals after trimming, each listed once. *)
Theorem missing_models_exact mapping o models k :
  parse mapping = Some (JObj o) -> trim mapping <> [] ->
  NoDup (findMissingModelsInMapping mapping models) /\
  (k ∈ findMissingModelsInMapping mapping models <->
   k <> [] /\ (exists key v, (key, v) ∈ o /\ k = trim key) /\ k ∉ map trim models).
Proof.
  intros Hp Ht. unfold findMissingModelsInMapping.
  assert (Hm : truthy mapping = true) by (by destruct mapping).
  rewrite Hm, (proj2 (str_eqb_false _ _) Ht). cbn [negb orb]. rewrite Hp. cbn [mbind option_bind as_object].
  split; [apply nub_NoDup|].
  rewrite elem_of_nub, elem_of_bfilter, andb_true_iff, truthy_true, negb_true_iff, has_spec_false,
    elem_of_nub, elem_of_map. unfold normalizeModelName. split.
  - intros (([k' v] & -> & Hin) & Hne & Hn). eauto 10.
  - intros (Hne & (key & v & Hin & ->) & Hn). split_and!; [by exists (key, v)|done..].
Qed.

(** The mapping text is valid exactly when it is blank or is JSON for a
    plain object all of whose values are strings, and an error message is
    given exactly when it is not. *)
Theorem mapping_valid_iff mapping :
  let r := validateModelMappingJson mapping in
  (valid r = true <->
   trim mapping = [] \/ exists o, parse mapping = Some (JObj o) /\ forall k v, (k, v) ∈ o -> exists s, v = JStr s) /\
  (valid r = true <-> error r = None).
Proof.
  simpl. unfold validateModelMappingJson.
  destruct (negb (truthy mapping) || str_eqb (trim mapping) []) eqn:E.
  - assert (Ht : trim mapping = []).
    { js_reflect. destruct E as [E|E]; js_reflect; [by apply truthy_false in E as ->|done]. }
    simpl. naive_solver.
  - js_reflect. destruct (parse mapping) as [v|] eqn:Ep; [|simpl; naive_solver].
    destruct v as [| | | | |o];
      try (simpl; split; [split; [done|]; by intros [?|(o & ? & _)]|done]).
    cbn [as_object]. destruct (existsb _ o) eqn:Ex; simpl; (split; [|done]).
    + apply existsb_exists in Ex as ([k v] & Hin & Hs). rewrite <- list_elem_of_In in Hin.
      split; [done|]. intros [?|(o' & Ho & Hall)]; [done|]. simplify_eq.
      destruct (Hall _ _ Hin) as [s ->]. done.
    + split; [|done]. intros _. right. exists o. split; [done|]. intros k v Hin.
      destruct v as [| | |s| |]; [| | |by exists s| |]; exfalso;
        (assert (Hc : existsb (fun e => negb (is_string e.2)) o = true);
         [apply existsb_exists; eexists; split; [by apply list_elem_of_In|done]|congruence]).
Qed.

(** The redirect targets that the model list exposes are exactly the
    non-blank string values of the mapping that the list contains after
    trimming. *)
Theorem exposed_targets_exact mapping o models t :
  mapping_object mapping = Some o ->
  t ∈ findExposedTargetModels mapping models <->
  t <> [] /\ (exists k s, (k, JStr s) ∈ o /\ t = trim s) /\ t ∈ map trim models.
Proof.
  intros Ho.
  assert (Hr : t ∈ extractRedirectModels mapping <-> t <> [] /\ exists k s, (k, JStr s) ∈ o /\ t = trim s).
  { unfold extractRedirectModels. rewrite Ho, elem_of_nub, list_elem_of_omap. split.
    - intros ([k v] & Hin & Hv). simpl in Hv. unfold redirect_value in Hv.
      destruct v; try done. destruct (truthy (trim s)) eqn:E; [|done]. simplify_eq.
      apply truthy_true in E. eauto 10.
    - intros (Hne & k & s & Hin & ->). exists (k, JStr s). split; [done|].
      simpl. by rewrite (proj2 (truthy_true _) Hne). }
  assert (Hf : t ∈ findExposedTargetModels mapping models <->
               t ∈ extractRedirectModels mapping /\ t ∈ map trim models \/ False).
  { unfold findExposedTargetModels. destruct (extractRedirectModels mapping) as [|x l] eqn:E.
    - split; [by intros ?%elem_of_nil|]. by intros [[?%elem_of_nil _]|[]].
    - rewrite <- E in *. rewrite elem_of_bfilter, has_spec, elem_of_nub.
      unfold normalizeModelName. split.
      + intros [Ht Hm]. left. split; [done|]. apply Hr in Ht as (_ & k & s & _ & ->).
        by rewrite trim_idemp in Hm.
      + intros [[Ht Hm]|[]]. split; [done|]. apply Hr in Ht as (_ & k & s & _ & ->).
        by rewrite trim_idemp. }
  rewrite Hf, Hr. tauto.
Qed.

(** The categories partition the models shown: the classification set is
    the disjoint union of the current models and the redirect-only models, and
    the latter are the redirect targets that are not current. *)
Theorem categories_partition cur red m :
  let c := categorizeModelsWithRedirect cur red in
  (m ∈ classificationSet c <-> m ∈ normalizedCurrentModels c \/ m ∈ redirectOnlySet c) /\
  ~ (m ∈ normalizedCurrentModels c /\ m ∈ redirectOnlySet c) /\
  (m ∈ redirectOnlySet c <-> m ∈ normalizedRedirectModels c /\ m ∉ normalizedCurrentModels c).
Proof.
  simpl. generalize (nub (filter_truthy (map normalizeModelName red))).
  generalize (nub (filter_truthy (map normalizeModelName cur))). intros c r.
  rewrite !elem_of_nub, elem_of_app, elem_of_bfilter, negb_true_iff, has_spec_false.
  destruct (decide (m ∈ c)); naive_solver.
Qed.

Lemma missing_models_exact_witness :
  let m := "{`gpt-4o`:`up`,` `:`x`,` a `:`b`}" in
  "a" ∈ findMissingModelsInMapping m [" gpt-4o"; "z"].
Proof.
  assert (H : parse "{`gpt-4o`:`up`,` `:`x`,` a `:`b`}" =
              Some (JObj [("gpt-4o", JStr "up"); (" ", JStr "x"); (" a ", JStr "b")]))
    by (vm_compute; reflexivity).
  apply (missing_models_exact _ _ [" gpt-4o"; "z"] "a" H); [vm_compute; done|].
  split_and!; [done| |].
  - exists " a ", (JStr "b"). split; [by right; right; left|by vm_compute].
  - apply (bool_decide_unpack _). vm_compute. exact I.
Defined.
Lemma exposed_targets_exact_witness :
  "up" ∈ findExposedTargetModels "{`gpt-4o`:` up `}" ["up "; "z"].
Proof.
  assert (H : mapping_object "{`gpt-4o`:` up `}" = Some [("gpt-4o", JStr " up ")])
    by (vm_compute; reflexivity).
  apply (exposed_targets_exact _ _ ["up "; "z"] "up" H). split_and!; [done| |].
  - exists "gpt-4o", " up ". split; [by left|by vm_compute].
  - apply (bool_decide_unpack _). vm_compute. exact I.
Defined.

End ModelMapping.
