(* ===== verification/Permissions.v ===== *)
(** Who may see and do what in the console: roles (src/web/src/lib/roles.ts),
    the admin permission matrix (src/web/src/lib/admin-permissions.ts) and the
    management workspaces of a user
    (src/web/src/features/users/lib/management-access.ts).

    Records with string keys are objects of [Json]; names such as "constructor"
    that every JavaScript object inherits are not used as resources or modules. *)
From S2P Require Import Prelude JsNumber Json.

Module Roles.

Definition GUEST : jsnum := num 0.
Definition USER : jsnum := num 1.
Definition ADMIN : jsnum := num 10.
Definition SUPER_ADMIN : jsnum := num 100.

(** [ROLE_LABEL_KEYS[role] ?? ROLE_LABEL_KEYS[DEFAULT_ROLE]] *)
Definition getRoleLabelKey (role : option jsnum) : jsstr :=
  match role with
  | None => "Guest"
  | Some r =>
      if num_eqb r SUPER_ADMIN then "Super Admin"
      else if num_eqb r ADMIN then "Business Admin"
      else if num_eqb r USER then "User"
      else "Guest"
  end.

End Roles.

Module AdminPermissions.

Definition AdminPermissionMatrix := obj (obj bool).

Record PermissionActionDef := { action : jsstr; label_key : jsstr; description_key : jsstr }.
Record PermissionResourceDef :=
  { resource : jsstr; res_label_key : jsstr; actions : list PermissionActionDef }.
Record PermissionRoleDef :=
  { key : jsstr; name : jsstr; built_in : bool; superuser : bool; grants : AdminPermissionMatrix }.
Record PermissionCatalog :=
  { resources : list PermissionResourceDef; roles : list PermissionRoleDef }.

Definition ADMIN_ROLE_KEY : jsstr := "admin".
Definition EMPTY_PERMISSION_CATALOG : PermissionCatalog := {| resources := []; roles := [] |}.

(** The fields of AuthUser that the check reads. *)
Record AuthUser := { role : jsnum; admin_permissions : option AdminPermissionMatrix }.

(** [m?.[resource]?.[action]] *)
Definition matrix_get (m : option AdminPermissionMatrix) (r a : jsstr) : option bool :=
  row ← (m ≫= obj_get r); obj_get a row.

Definition hasPermission (user : option AuthUser) (r a : jsstr) : bool :=
  match user with
  | None => false
  | Some u =>
      if num_eqb (role u) Roles.SUPER_ADMIN then true
      else bool_decide (matrix_get (admin_permissions u) r a = Some true)
  end.

Definition roleGrants (catalog : PermissionCatalog) (roleKey : jsstr) : AdminPermissionMatrix :=
  match List.find (fun ro => str_eqb (key ro) roleKey) (roles catalog) with
  | Some ro => grants ro
  | None => []
  end.

(** [value?.[r]?.[a] ?? baseline[r]?.[a] ?? false] *)
Definition effective (value : option AdminPermissionMatrix) (baseline : AdminPermissionMatrix)
    (r a : jsstr) : bool :=
  nullish (matrix_get value r a) (nullish (matrix_get (Some baseline) r a) false).

Definition normalize_row (value : option AdminPermissionMatrix) (baseline : AdminPermissionMatrix)
    (res : PermissionResourceDef) : obj bool :=
  fold_left (fun acts ac => obj_set (action ac) (effective value baseline (resource res) (action ac)) acts)
            (actions res) [].

Definition normalizeAdminPermissions (value : option AdminPermissionMatrix)
    (catalog : PermissionCatalog) : AdminPermissionMatrix :=
  let baseline := roleGrants catalog ADMIN_ROLE_KEY in
  fold_left (fun m res => obj_set (resource res) (normalize_row value baseline res) m)
            (resources catalog) [].

(** ** Lookups after a sequence of assignments *)

Lemma fold_set_get {B C} (k : C -> jsstr) (f : C -> B) l o x :
  NoDup (map k l) -> (forall c, c ∈ l -> obj_get (k c) o = None) ->
  obj_get x (fold_left (fun o c => obj_set (k c) (f c) o) l o) =
  match List.find (fun c => str_eqb x (k c)) l with
  | Some c => Some (f c)
  | None => obj_get x o
  end.
Proof.
  revert o. induction l as [|c l IH]; intros o Hd Ho; simpl; [done|].
  apply NoDup_cons in Hd as [Hc Hd].
  assert (Hne : forall d, d ∈ l -> k d <> k c).
  { intros d Hd' E. apply Hc. rewrite <- E. apply elem_of_map. eauto. }
  rewrite IH; [|done|].
  - destruct (str_eqb x (k c)) eqn:E.
    + js_reflect; subst x.
      destruct (List.find _ l) as [d|] eqn:F; [|by rewrite obj_get_set_eq].
      apply List.find_some in F as [Hd' E]. rewrite <- list_elem_of_In in Hd'.
      js_reflect. by destruct (Hne d Hd').
    + destruct (List.find _ l); [done|]. apply obj_get_set_ne. by js_reflect.
  - intros d Hd'. rewrite obj_get_set_ne by auto. apply Ho. by right.
Qed.

(** The value of an assignment may repeat a key when it depends on it only. *)
Lemma fold_set_get_fun {B C} (k : C -> jsstr) (g : jsstr -> B) l o x :
  obj_get x (fold_left (fun o c => obj_set (k c) (g (k c)) o) l o) =
  if bool_decide (x ∈ map k l) then Some (g x) else obj_get x o.
Proof.
  revert o. induction l as [|c l IH]; intros o.
  - cbn [fold_left map]. by rewrite bool_decide_eq_false_2 by apply not_elem_of_nil.
  - cbn [fold_left map]. rewrite IH. case_bool_decide as H1.
    + by rewrite bool_decide_eq_true_2 by by right.
    + rewrite obj_get_set. destruct (str_eqb x (k c)) eqn:E; js_reflect.
      * subst. by rewrite bool_decide_eq_true_2 by left.
      * rewrite bool_decide_eq_false_2; [done|]. by rewrite elem_of_cons; intros [?|?].
Qed.

Lemma normalize_row_get value baseline res a :
  obj_get a (normalize_row value baseline res) =
  if bool_decide (a ∈ map action (actions res)) then Some (effective value baseline (resource res) a) else None.
Proof. unfold normalize_row. by rewrite (fold_set_get_fun action (effective value baseline (resource res))). Qed.

(** Without super-administrator rights a permission is held exactly when
    the user's matrix grants it explicitly; a missing user, matrix, resource
    or action means no. *)
Theorem hasPermission_spec user r a :
  hasPermission user r a = true <->
  exists u, user = Some u /\
    (num_eqb (role u) Roles.SUPER_ADMIN = true \/
     exists m row, admin_permissions u = Some m /\ obj_get r m = Some row /\ obj_get a row = Some true).
Proof.
  unfold hasPermission, matrix_get. destruct user as [u|]; [|by split; [|intros (? & ? & _)]].
  destruct (num_eqb (role u) Roles.SUPER_ADMIN) eqn:E.
  - split; [|done]. intros _. exists u. by split; [|left].
  - rewrite bool_decide_eq_true, bind_Some. setoid_rewrite bind_Some. split.
    + intros (row & (m & Hm & Hr) & Ha). exists u. split; [done|]. right. by exists m, row.
    + intros (u' & Hu & [?|(m & row & Hm & Hr & Ha)]); simplify_eq; [congruence|]. eauto.
Qed.

Lemma normalize_get value catalog r a :
  NoDup (map resource (resources catalog)) ->
  matrix_get (Some (normalizeAdminPermissions value catalog)) r a =
  match List.find (fun res => str_eqb r (resource res)) (resources catalog) with
  | Some res =>
      if bool_decide (a ∈ map action (actions res))
      then Some (effective value (roleGrants catalog ADMIN_ROLE_KEY) r a) else None
  | None => None
  end.
Proof.
  intros Hd. unfold matrix_get, normalizeAdminPermissions. simpl.
  rewrite fold_set_get by (try done; by intros).
  destruct (List.find _ (resources catalog)) as [res|] eqn:E; [|done]. simpl.
  apply List.find_some in E as [_ E]. js_reflect. by rewrite normalize_row_get, E.
Qed.
Lemma normalize_lookup_in value catalog res ac :
  NoDup (map resource (resources catalog)) -> res ∈ resources catalog -> ac ∈ actions res ->
  matrix_get (Some (normalizeAdminPermissions value catalog)) (resource res) (action ac) =
  Some (effective value (roleGrants catalog ADMIN_ROLE_KEY) (resource res) (action ac)).
Proof.
  intros Hd Hres Hac. rewrite normalize_get by done.
  destruct (List.find _ (resources catalog)) as [res'|] eqn:E.
  - apply List.find_some in E as [Hin' E]. rewrite <- list_elem_of_In in Hin'. js_reflect.
    apply (NoDup_map_inj resource) with (x := res) in Hin' as <-; [|done..].
    by rewrite bool_decide_eq_true_2 by (apply elem_of_map; eauto).
  - eapply List.find_none in E; [|apply list_elem_of_In; exact Hres]. by rewrite str_eqb_refl in E.
Qed.

(** The normalized matrix is full and minimal: for a catalog with distinct
    resources it holds, for every resource and action of the catalog, the
    explicit value if there is one, else the baseline of the admin role, else
    false, and nothing for any other resource or action. *)
Theorem normalize_lookup value catalog r a :
  NoDup (map resource (resources catalog)) ->
  matrix_get (Some (normalizeAdminPermissions value catalog)) r a =
  match List.find (fun res => str_eqb r (resource res)) (resources catalog) with
  | Some res =>
      if bool_decide (a ∈ map action (actions res))
      then Some (effective value (roleGrants catalog ADMIN_ROLE_KEY) r a) else None
  | None => None
  end.
Proof. apply normalize_get. Qed.

(** Normalization is idempotent: opening the permission editor on a matrix
    it has produced changes nothing. *)
Theorem normalize_idempotent value catalog :
  NoDup (map resource (resources catalog)) ->
  normalizeAdminPermissions (Some (normalizeAdminPermissions value catalog)) catalog =
  normalizeAdminPermissions value catalog.
Proof.
  intros Hd. unfold normalizeAdminPermissions at 1 3. apply fold_left_ext_on. intros o res Hres.
  f_equal. unfold normalize_row. apply fold_left_ext_on. intros row ac Hac. f_equal.
  unfold effective at 1. by rewrite (normalize_lookup_in value catalog res ac).
Qed.

Definition sample_catalog : PermissionCatalog :=
  {| resources := [{| resource := "channel"; res_label_key := [];
                      actions := [{| action := "read"; label_key := []; description_key := [] |};
                                  {| action := "write"; label_key := []; description_key := [] |}] |}];
     roles := [{| key := "admin"; name := "Admin"; built_in := true; superuser := false;
                  grants := [("channel", [("read", true)])] |}] |}.

Lemma normalize_lookup_witness :
  matrix_get (Some (normalizeAdminPermissions None sample_catalog)) "channel" "read" = Some true.
Proof.
  rewrite normalize_lookup; [vm_compute; reflexivity|].
  apply (bool_decide_unpack _). vm_compute. exact I.
Defined.
Lemma normalize_idempotent_witness :
  let n := normalizeAdminPermissions (Some [("channel", [("write", true)])]) sample_catalog in
  n = [("channel", [("read", true); ("write", true)])] /\
  normalizeAdminPermissions (Some n) sample_catalog = n.
Proof.
  split; [vm_compute; reflexivity|]. apply normalize_idempotent.
  apply (bool_decide_unpack _). vm_compute. exact I.
Defined.

End AdminPermissions.
