(* ===== verification/ManagementAccess.v ===== *)
(** The management workspaces an administrator grants to a user
    (src/web/src/features/users/lib/management-access.ts): the sections and
    modules, the stored [sidebar_modules] text and its round trip. *)
From stdpp Require Import sorting.
From S2P Require Import Prelude JsNumber Json Permissions.

Module ManagementAccess.

(** [enabled] controls the section, the other keys its modules. *)
Abbreviation SidebarSectionConfig := (obj bool).
Abbreviation SidebarModulesConfig := (obj (obj bool)).

Record ManagementAccessModule := Mod { mkey : jsstr; mlabelKey : jsstr; mdescriptionKey : jsstr }.
Record ManagementAccessSection := Sec {
  skey : jsstr; slabelKey : jsstr; sdescriptionKey : jsstr;
  requiredRole : jsnum; modules : list ManagementAccessModule }.

Definition MANAGEMENT_ACCESS_SECTIONS : list ManagementAccessSection := [
  Sec "business" "Business Management"
    "Visible to administrators. Upstream supply, pricing, payment, site branding, console content, and access policy."
    Roles.ADMIN
    [ Mod "channels" "Channels" "Configure upstream providers and routing.";
      Mod "models" "Available Models Maintenance" "Manage the model catalog and deployments.";
      Mod "users" "User Management" "User accounts, redemption codes, and subscriptions.";
      Mod "billing" "Billing & Pricing"
        "Model pricing, group ratios, quota grants, payment gateways, and discount policy.";
      Mod "site" "Site & Appearance" "Site name, logo, footer, notices, and navigation.";
      Mod "content" "Console Content" "Announcements, API addresses, FAQ, status page, and presets.";
      Mod "policies" "Access & Limits" "Registration policy, request rate limits, and per-user token caps." ];
  Sec "system" "System Management"
    "Visible to super administrators only. Routing, authentication, security, and operations."
    Roles.SUPER_ADMIN
    [ Mod "runtime" "Runtime & Access"
        "Instance status, performance, monitoring, email, worker proxy, logs, and updates.";
      Mod "auth" "Authentication" "OAuth providers, passkeys, and bot protection.";
      Mod "security" "Security" "Sensitive word filtering and SSRF protection.";
      Mod "routing" "Models & Routing" "Global model config, retry policy, and channel affinity." ] ].

Definition managementSectionsForRole (role : jsnum) : list ManagementAccessSection :=
  List.filter (fun section => num_leb (requiredRole section) role) MANAGEMENT_ACCESS_SECTIONS.

(** [o[k] = v] by assignment: the key "__proto__" sets the prototype instead of
    an own property, which no later read of this code observes. *)
Definition assign {A} (k : jsstr) (v : A) (o : obj A) : obj A :=
  if str_eqb k "__proto__" then o else obj_set k v o.

(** The inner loop of [parseStoredSections]. *)
Definition stored_section (v : json) : SidebarSectionConfig :=
  fold_left (fun section e => match e.2 with JBool b => assign e.1 b section | _ => section end)
            (entries v) [("enabled", true)].

Definition parseStoredSections (raw : option jsstr) : SidebarModulesConfig :=
  match raw with
  | None => []
  | Some r =>
      if negb (truthy r) || str_eqb (trim r) [] then []
      else match parse r with
           | Some ((JObj _ | JArr _) as parsed) =>
               fold_left (fun sections e =>
                 match e.2 with
                 | JObj _ | JArr _ => assign e.1 (stored_section e.2) sections
                 | _ => sections
                 end) (entries parsed) []
           | _ => []
           end
  end.

(** [current?.[k] !== false] *)
Definition not_false (current : option SidebarSectionConfig) (k : jsstr) : bool :=
  negb (bool_decide (current ≫= obj_get k = Some false)).

Definition normalized_section (current : option SidebarSectionConfig) (section : ManagementAccessSection)
  : SidebarSectionConfig :=
  fold_left (fun n module => assign (mkey module) (not_false current (mkey module)) n)
            (modules section) [("enabled", not_false current "enabled")].

Definition parseSidebarModules (raw : option jsstr) : SidebarModulesConfig :=
  let stored := parseStoredSections raw in
  fold_left (fun config section =>
               assign (skey section) (normalized_section (obj_get (skey section) stored) section) config)
            MANAGEMENT_ACCESS_SECTIONS stored.

Definition section_json (s : SidebarSectionConfig) : json := JObj (map (fun e => (e.1, JBool e.2)) s).
Definition config_json (c : SidebarModulesConfig) : json := JObj (map (fun e => (e.1, section_json e.2)) c).

Definition serializeSidebarModules (config : SidebarModulesConfig) : jsstr := stringify (config_json config).

Definition updateSectionConfig (config : option SidebarModulesConfig) (sectionKey : jsstr)
    (patch : obj bool) : SidebarModulesConfig :=
  let base := nullish config [] in
  let section := match obj_get sectionKey base with
                 | Some stored => stored
                 | None => [("enabled", true)]
                 end in
  obj_set sectionKey (fold_left (fun s e => assign e.1 e.2 s) patch section) base.

(** * Lookups *)

Lemma assign_ne {A} k (v : A) o : k <> "__proto__" -> assign k v o = obj_set k v o.
Proof. intros H. unfold assign. by rewrite (proj2 (str_eqb_false _ _) H). Qed.

Lemma assign_canonical {A} k (v : A) o : canonical o -> canonical (assign k v o).
Proof. unfold assign. destruct (str_eqb k _); [done|]. apply obj_set_canonical. Qed.

Lemma fold_assign_canonical {A B} (k : B -> jsstr) (f : B -> A) l o :
  canonical o -> canonical (fold_left (fun o e => assign (k e) (f e) o) l o).
Proof. revert o. induction l as [|e l IH]; intros o Ho; simpl; [done|]. by apply IH, assign_canonical. Qed.

Lemma section_start_canonical (b : bool) : canonical [("enabled", b)].
Proof. split; repeat constructor. apply not_elem_of_nil. Qed.

(** Sections have their switch as the first key that is no array index. *)
Definition shape (ks : list jsstr) : Prop :=
  exists i r, ks = i ++ "enabled" :: r /\
    Forall (fun k => index_key k <> None) i /\ Forall (fun k => index_key k = None) r.

Definition section_ok (o : obj bool) : Prop :=
  canonical o /\ shape o.*1 /\ "__proto__" ∉ o.*1.

Lemma obj_insert_index {A} k (v : A) i e r :
  index_key k <> None -> index_key e.1 = None -> Forall (fun x => index_key x.1 <> None) i ->
  exists i', obj_insert k v (i ++ e :: r) = i' ++ e :: r /\ Forall (fun x => index_key x.1 <> None) i'.
Proof.
  intros Hk He. induction 1 as [|[k1 v1] i H1 Hi (i' & IH & IH')].
  - exists [(k, v)]. split; [|by repeat constructor]. destruct e as [k0 v0]. simpl in *.
    unfold key_before. destruct (index_key k); [by rewrite He|done].
  - simpl. destruct (key_before k k1).
    + exists ((k, v) :: (k1, v1) :: i). split; [done|]. by repeat constructor.
    + exists ((k1, v1) :: i'). rewrite IH. split; [done|]. by constructor.
Qed.

Lemma obj_set_shape k (v : bool) o : shape o.*1 -> shape (obj_set k v o).*1.
Proof.
  intros (i & r & Hks & Hi & Hr). unfold obj_set.
  destruct (obj_get k o); [rewrite obj_replace_fst; by exists i, r|].
  destruct (index_key k) as [n|] eqn:Ek.
  - apply fmap_app_inv in Hks as (oi & or & -> & Hr' & ->).
    destruct or as [|[ek ev] or]; simplify_eq/=.
    destruct (obj_insert_index k v oi ("enabled", ev) or) as (i' & -> & Hi');
      [by rewrite Ek|done|exact (proj1 (Forall_fmap _ _ _) Hi)|].
    exists (i'.*1), (or.*1). rewrite fmap_app. split_and!; [done| |done].
    apply Forall_fmap. exact Hi'.
  - rewrite obj_insert_end.
    + exists i, (r ++ [k]). rewrite fmap_app, Hks, <- app_assoc. split_and!; [done..|].
      apply Forall_app; split; [done|]. by constructor.
    + apply Forall_forall. intros x _. unfold key_before. by rewrite Ek.
Qed.

Lemma elem_obj_set_fst {A} k (v : A) o x : x ∈ (obj_set k v o).*1 -> x = k \/ x ∈ o.*1.
Proof.
  unfold obj_set. destruct (obj_get k o); [rewrite obj_replace_fst; by right|].
  intros ([k1 v1] & -> & [?|H]%elem_obj_insert)%list_elem_of_fmap; simplify_eq/=; [by left|].
  right. apply list_elem_of_fmap. by exists (k1, v1).
Qed.

Lemma assign_section_ok k b o : section_ok o -> section_ok (assign k b o).
Proof.
  intros (Hc & Hs & Hp). unfold assign. destruct (str_eqb k "__proto__") eqn:E; [done|]. js_reflect.
  split_and!; [by apply obj_set_canonical|by apply obj_set_shape|].
  intros [?|?]%elem_obj_set_fst; congruence.
Qed.
Lemma section_start_ok (b : bool) : section_ok [("enabled", b)].
Proof.
  split_and!; [apply section_start_canonical| |by intros ?%list_elem_of_singleton].
  exists [], []. by split_and!.
Qed.
Lemma stored_section_ok v : section_ok (stored_section v).
Proof.
  unfold stored_section. generalize (section_start_ok true).
  generalize [("enabled", true)]. induction (entries v) as [|[k w] l IH]; intros o Ho; simpl; [done|].
  apply IH. destruct w; try done. by apply assign_section_ok.
Qed.
Lemma normalized_section_ok cur sec : section_ok (normalized_section cur sec).
Proof.
  unfold normalized_section. generalize (section_start_ok (not_false cur "enabled")).
  generalize [("enabled", not_false cur "enabled")].
  induction (modules sec) as [|m l IH]; intros o Ho; simpl; [done|]. by apply IH, assign_section_ok.
Qed.

(** What every stored or parsed configuration satisfies. *)
Definition config_ok (c : obj (obj bool)) : Prop :=
  canonical c /\ Forall (fun e => e.1 <> "__proto__" /\ section_ok e.2) c.

Lemma assign_config_ok k s c : section_ok s -> config_ok c -> config_ok (assign k s c).
Proof.
  intros Hs [Hc Hf]. unfold assign. destruct (str_eqb k "__proto__") eqn:E; [done|]. js_reflect.
  split; [by apply obj_set_canonical|]. apply Forall_forall. intros x [->|Hx]%elem_obj_set; [done|].
  rewrite Forall_forall in Hf. exact (Hf x Hx).
Qed.
Lemma parseStoredSections_ok raw : config_ok (parseStoredSections raw).
Proof.
  assert (H0 : config_ok []) by (split; [apply canonical_nil|constructor]).
  unfold parseStoredSections. destruct raw as [r|]; [|done].
  destruct (negb (truthy r) || str_eqb (trim r) []); [done|].
  destruct (parse r) as [[| | | |l|o]|]; try done.
  all: match goal with |- context [fold_left _ ?l _] => generalize l end;
    intros es; revert H0; generalize (@nil (jsstr * obj bool));
    induction es as [|[k v] es IH]; intros c Hc; simpl; [done|]; apply IH; destruct v; try done;
    apply assign_config_ok; done || apply stored_section_ok.
Qed.
Lemma parseSidebarModules_ok raw : config_ok (parseSidebarModules raw).
Proof.
  unfold parseSidebarModules. generalize (parseStoredSections_ok raw).
  generalize (parseStoredSections raw) at 1 3. generalize MANAGEMENT_ACCESS_SECTIONS.
  induction l as [|s l IH]; intros c Hc; simpl; [done|].
  apply IH, assign_config_ok; [apply normalized_section_ok|done].
Qed.


(** * Storing and reading back *)

Abbreviation assign_all l o := (fold_left (fun s e => assign e.1 e.2 s) l o).
Definition no_proto {A} (o : obj A) : Prop := Forall (fun e => e.1 <> "__proto__") o.

Lemma get_none_left {A} (a : obj A) k v l : NoDup (a ++ (k, v) :: l).*1 -> obj_get k a = None.
Proof.
  rewrite fmap_app. intros (_ & Hd & _)%NoDup_app. apply obj_get_none. intros Hin.
  apply (Hd _ Hin). left.
Qed.
Lemma ordered_left {A} (a : obj A) k v l :
  ordered (a ++ (k, v) :: l) -> Forall (fun e => key_before k e.1 = false) a.
Proof.
  intros Ho. apply Forall_forall. intros x Hx.
  apply (StronglySorted_app_1_elem_of _ _ _ x (k, v) Ho Hx). left.
Qed.

(** Assigning entries that continue an object in property order. *)
Lemma assign_all_app {A} (l a : obj A) :
  canonical (a ++ l) -> no_proto l -> assign_all l a = a ++ l.
Proof.
  revert a. induction l as [|[k v] l IH]; intros a [Hd Ho] Hp; simpl; [by rewrite app_nil_r|].
  inversion Hp; subst. rewrite assign_ne by done. unfold obj_set.
  rewrite (get_none_left _ _ _ _ Hd), obj_insert_end by (by eapply ordered_left).
  rewrite IH; rewrite <- ?app_assoc; done.
Qed.

(** Array-index keys are inserted before a key that is no index. *)
Lemma assign_all_index {A} (l a : obj A) e :
  canonical (a ++ l) -> no_proto l -> index_key e.1 = None -> obj_get e.1 (a ++ l) = None ->
  Forall (fun x => index_key x.1 <> None) l ->
  assign_all l (a ++ [e]) = a ++ l ++ [e].
Proof.
  revert a. induction l as [|[k v] l IH]; intros a [Hd Ho] Hp He Hn Hi; [done|].
  inversion Hp; inversion Hi as [|? ? Hk Hi']; subst. cbn [fold_left fst snd].
  rewrite assign_ne by done. simpl in Hk.
  assert (Hk1 : obj_get k (a ++ [e]) = None).
  { apply obj_get_none. rewrite fmap_app, elem_of_app. intros [Hin|Hin].
    - apply get_none_left in Hd. by apply obj_get_none in Hd.
    - apply list_elem_of_singleton in Hin as ->. done. }
  assert (Hins : obj_insert k v (a ++ [e]) = (a ++ [(k, v)]) ++ [e]).
  { apply ordered_left in Ho as Ha. clear -Ha Hk He.
    induction Ha as [|[k1 v1] a H1 Ha IH]; cbn [app obj_insert].
    - destruct e as [k0 v0]; simpl in *. unfold key_before. rewrite He. by destruct (index_key k).
    - simpl in H1. by rewrite H1, IH. }
  unfold obj_set. rewrite Hk1, Hins, IH; rewrite <- ?app_assoc; done.
Qed.

Lemma obj_replace_snoc {A} (o : obj A) k v w :
  obj_get k o = None -> obj_set k w (o ++ [(k, v)]) = o ++ [(k, w)].
Proof.
  intros Hn. unfold obj_set.
  assert (Hg : obj_get k (o ++ [(k, v)]) = Some v).
  { induction o as [|[k1 v1] o IH]; simpl in *; [by rewrite str_eqb_refl|].
    destruct (str_eqb k k1); [done|]. by apply IH. }
  rewrite Hg. clear Hg. induction o as [|[k1 v1] o IH]; simpl in *; [by rewrite str_eqb_refl|].
  destruct (str_eqb k k1); [done|]. by rewrite IH.
Qed.

(** Assigning the entries of a well-formed section over a fresh one gives the
    section. *)
Lemma section_reassign o : section_ok o -> assign_all o [("enabled", true)] = o.
Proof.
  intros ((Hd & Ho) & (i & r & Hks & Hi & Hr) & Hp).
  apply fmap_app_inv in Hks as (oi & or & -> & Hr' & ->).
  destruct or as [|[ek ev] or]; simplify_eq/=.
  assert (Hnp : no_proto (oi ++ ("enabled", ev) :: or)).
  { apply Forall_forall. intros e He E. apply Hp. rewrite <- E. by apply list_elem_of_fmap_2. }
  unfold no_proto in Hnp. rewrite Forall_app, Forall_cons in Hnp. destruct Hnp as (Hnp1 & _ & Hnp2).
  assert (Hc : canonical oi).
  { split; [rewrite fmap_app in Hd; by apply NoDup_app in Hd as (? & _)|].
    by apply StronglySorted_app_1_l in Ho. }
  apply get_none_left in Hd as Hen.
  rewrite fold_left_app. cbn [fold_left fst snd].
  pose proof (assign_all_index oi [] ("enabled", true) Hc Hnp1 ltac:(done) Hen
                (proj1 (Forall_fmap _ _ _) Hi)) as Hidx. cbn [app] in Hidx.
  rewrite Hidx, assign_ne, obj_replace_snoc by done.
  rewrite assign_all_app; rewrite <- ?app_assoc; done.
Qed.

Lemma stored_section_json o : section_ok o -> stored_section (section_json o) = o.
Proof.
  intros Ho. rewrite <- (section_reassign o Ho) at 2. unfold stored_section, section_json. cbn [entries].
  generalize [("enabled", true)]. clear Ho. induction o as [|[k b] o IH]; intros s; simpl; [done|]. apply IH.
Qed.

Lemma config_storable c : config_ok c -> storable (config_json c).
Proof.
  intros [Hc Hf]. constructor; [|by apply canonical_ok, canonical_map].
  apply Forall_forall. intros x (e & -> & He)%elem_of_map. rewrite Forall_forall in Hf.
  destruct (Hf e He) as (_ & Ho & _). constructor; [|by apply canonical_ok, canonical_map].
  apply Forall_forall. intros y (e' & -> & _)%elem_of_map. constructor.
Qed.

(** Reading back a stored configuration gives the configuration. *)
Lemma parse_stored_serialize c :
  config_ok c -> parseStoredSections (Some (serializeSidebarModules c)) = c.
Proof.
  intros Hok. unfold parseStoredSections, serializeSidebarModules.
  assert (Hb : exists t, stringify (config_json c) = 123%N :: t) by by eexists.
  assert (Ht : trim (stringify (config_json c)) <> []).
  { destruct Hb as [t ->]. apply (trim_nonempty _ 123%N); [left|done]. }
  rewrite (proj2 (str_eqb_false _ _) Ht), (parse_stringify _ (config_storable c Hok)).
  destruct Hb as [t ->]. cbn [truthy negb orb config_json entries].
  destruct Hok as [Hc Hf]. rewrite <- (app_nil_l c) at 2. rewrite <- (assign_all_app c []); [|done|].
  - clear Hc Ht. generalize (@nil (jsstr * obj bool)).
    induction Hf as [|[k s] c [_ Hs] Hf IH]; intros a; simpl; [done|].
    cbn [snd] in Hs. change (JObj _) with (section_json s). rewrite stored_section_json by done. apply IH.
  - eapply Forall_impl; [exact Hf|]. by intros e [? _].
Qed.

(** * What the parsed configuration says *)

Lemma section_keys_plain :
  Forall (fun s => skey s <> "__proto__" /\ Forall (fun m => mkey m <> "__proto__") (modules s))
         MANAGEMENT_ACCESS_SECTIONS.
Proof. repeat constructor; done. Qed.

(** The keys the interface manages in a section. *)
Definition managed_keys (s : ManagementAccessSection) : list jsstr := "enabled" :: map mkey (modules s).

Lemma normalized_section_get cur s k :
  s ∈ MANAGEMENT_ACCESS_SECTIONS ->
  obj_get k (normalized_section cur s) =
  if bool_decide (k ∈ managed_keys s) then Some (not_false cur k) else None.
Proof.
  intros Hs. pose proof section_keys_plain as Hp. rewrite Forall_forall in Hp.
  destruct (Hp s Hs) as [_ Hm]. unfold normalized_section, managed_keys.
  rewrite (fold_left_ext_on _ (fun n m => obj_set (mkey m) (not_false cur (mkey m)) n)).
  - rewrite (AdminPermissions.fold_set_get_fun mkey (not_false cur)). cbn [obj_get].
    case_bool_decide as H1; [by rewrite bool_decide_eq_true_2 by by right|].
    destruct (str_eqb k "enabled") eqn:E; js_reflect.
    + subst. by rewrite bool_decide_eq_true_2 by left.
    + rewrite bool_decide_eq_false_2; [done|]. by rewrite elem_of_cons; intros [?|?].
  - intros o m Hin. rewrite Forall_forall in Hm. apply assign_ne. exact (Hm m Hin).
Qed.

Lemma sections_distinct : NoDup (map skey MANAGEMENT_ACCESS_SECTIONS).
Proof. apply (bool_decide_unpack _). vm_compute. exact I. Qed.

Lemma parseSidebarModules_get raw k :
  obj_get k (parseSidebarModules raw) =
  match List.find (fun s => str_eqb k (skey s)) MANAGEMENT_ACCESS_SECTIONS with
  | Some s => Some (normalized_section (obj_get k (parseStoredSections raw)) s)
  | None => obj_get k (parseStoredSections raw)
  end.
Proof.
  unfold parseSidebarModules. generalize (parseStoredSections raw). intros st.
  cbn [MANAGEMENT_ACCESS_SECTIONS fold_left List.find skey].
  rewrite !assign_ne by done. rewrite !obj_get_set.
  destruct (str_eqb k "system") eqn:E1; destruct (str_eqb k "business") eqn:E2; js_reflect; by subst.
Qed.

(** A user-level setting only narrows: for every managed section, the
    switch of the section and of each of its modules is on unless the stored
    text says false explicitly; sections the interface does not manage are
    kept exactly as stored. *)
Theorem sidebar_only_narrows raw :
  (forall s k, s ∈ MANAGEMENT_ACCESS_SECTIONS -> k ∈ managed_keys s ->
     (obj_get (skey s) (parseSidebarModules raw) ≫= obj_get k) =
     Some (negb (bool_decide ((obj_get (skey s) (parseStoredSections raw) ≫= obj_get k) = Some false)))) /\
  (forall k, k ∉ map skey MANAGEMENT_ACCESS_SECTIONS ->
     obj_get k (parseSidebarModules raw) = obj_get k (parseStoredSections raw)).
Proof.
  split.
  - intros s k Hs Hk. rewrite parseSidebarModules_get.
    destruct (List.find _ MANAGEMENT_ACCESS_SECTIONS) as [s'|] eqn:E.
    + apply List.find_some in E as [Hin E]. rewrite <- list_elem_of_In in Hin. js_reflect.
      apply (NoDup_map_inj skey) with (x := s) in Hin as <-; [|apply sections_distinct|done..].
      simpl. by rewrite normalized_section_get, bool_decide_eq_true_2.
    + eapply List.find_none in E; [|apply list_elem_of_In; exact Hs]. by rewrite str_eqb_refl in E.
  - intros k Hk. rewrite parseSidebarModules_get.
    destruct (List.find _ MANAGEMENT_ACCESS_SECTIONS) as [s|] eqn:E; [|done].
    apply List.find_some in E as [Hin E]. rewrite <- list_elem_of_In in Hin. js_reflect.
    destruct Hk. apply elem_of_map. eauto.
Qed.

Lemma normalized_section_idem cur s :
  s ∈ MANAGEMENT_ACCESS_SECTIONS ->
  normalized_section (Some (normalized_section cur s)) s = normalized_section cur s.
Proof.
  intros Hs.
  assert (Hn : forall k, k ∈ managed_keys s -> not_false (Some (normalized_section cur s)) k = not_false cur k).
  { intros k Hk. unfold not_false at 1. simpl.
    rewrite normalized_section_get, (bool_decide_eq_true_2 (k ∈ managed_keys s)) by done.
    by destruct (not_false cur k). }
  unfold normalized_section at 1. rewrite (Hn "enabled") by left.
  unfold normalized_section at 2. apply fold_left_ext_on. intros o m Hm.
  rewrite Hn; [done|]. right. apply elem_of_map. eauto.
Qed.

(** Saving the configuration the editor shows and opening it again shows
    the same configuration, whatever text was stored before. *)
Theorem sidebar_roundtrip raw :
  parseSidebarModules (Some (serializeSidebarModules (parseSidebarModules raw))) =
  parseSidebarModules raw.
Proof.
  unfold parseSidebarModules at 1. rewrite parse_stored_serialize by apply parseSidebarModules_ok.
  assert (Hg : forall s, s ∈ MANAGEMENT_ACCESS_SECTIONS ->
     obj_get (skey s) (parseSidebarModules raw) =
     Some (normalized_section (obj_get (skey s) (parseSidebarModules raw)) s)).
  { intros s Hs. rewrite parseSidebarModules_get.
    destruct (List.find _ MANAGEMENT_ACCESS_SECTIONS) as [s'|] eqn:E.
    - apply List.find_some in E as [Hin E]. rewrite <- list_elem_of_In in Hin. js_reflect.
      apply (NoDup_map_inj skey) with (x := s) in Hin as <-; [|apply sections_distinct|done..].
      by rewrite normalized_section_idem.
    - eapply List.find_none in E; [|apply list_elem_of_In; exact Hs]. by rewrite str_eqb_refl in E. }
  pose proof section_keys_plain as Hp. rewrite Forall_forall in Hp.
  revert Hg. generalize (parseSidebarModules raw). intros c Hg.
  assert (Hsub : forall s, s ∈ MANAGEMENT_ACCESS_SECTIONS -> s ∈ MANAGEMENT_ACCESS_SECTIONS) by done.
  revert Hsub. generalize MANAGEMENT_ACCESS_SECTIONS at 1 3.
  induction l as [|s l IH]; intros Hsub; simpl; [done|].
  destruct (Hp s (Hsub s ltac:(left))) as [Hne _].
  rewrite assign_ne, obj_set_same by (try done; by rewrite <- Hg by (apply Hsub; left)).
  apply IH. intros; apply Hsub; by right.
Qed.

(** Editing a section changes that section only; inside it the patched
    keys get their new values and the other keys keep theirs, a section that
    was not stored starting out enabled. *)
Theorem update_section_local config sk patch k :
  let c := nullish config [] in
  let c' := updateSectionConfig config sk patch in
  (k <> sk -> obj_get k c' = obj_get k c) /\
  (NoDup patch.*1 -> "__proto__" ∉ patch.*1 ->
   exists s', obj_get sk c' = Some s' /\
     forall m, obj_get m s' =
       match obj_get m patch with
       | Some b => Some b
       | None => obj_get m (nullish (obj_get sk c) [("enabled", true)])
       end).
Proof.
  simpl. unfold updateSectionConfig. split; [intros H; by rewrite obj_get_set_ne|].
  intros Hd Hp. rewrite obj_get_set_eq. eexists; split; [done|]. intros m.
  change (match obj_get sk (nullish config []) with Some stored => stored | None => [("enabled", true)] end)
    with (nullish (obj_get sk (nullish config [])) [("enabled", true)]).
  generalize (nullish (obj_get sk (nullish config [])) [("enabled", true)]).
  induction patch as [|[p b] patch IH]; intros s; [done|].
  csimpl in *. apply NoDup_cons in Hd as [Hp1 Hd]. apply not_elem_of_cons in Hp as [Hpp Hp].
  rewrite IH by done. rewrite assign_ne, obj_get_set by done.
  destruct (str_eqb m p) eqn:E; [|done]. js_reflect; subst. by rewrite (proj2 (obj_get_none p patch)).
Qed.

(** The workspaces offered for a role are exactly those whose required
    role it reaches; an administrator is never offered the system workspace. *)
Theorem sections_for_role role s :
  (s ∈ managementSectionsForRole role <->
   s ∈ MANAGEMENT_ACCESS_SECTIONS /\ num_leb (requiredRole s) role = true) /\
  map skey (managementSectionsForRole Roles.ADMIN) = ["business"] /\
  map skey (managementSectionsForRole Roles.SUPER_ADMIN) = ["business"; "system"] /\
  managementSectionsForRole Roles.USER = [].
Proof. split_and!; [unfold managementSectionsForRole; by rewrite elem_of_bfilter|vm_compute; reflexivity..]. Qed.

Lemma update_section_local_witness :
  let c := Some [("business", [("enabled", true); ("users", false)])] in
  let c' := updateSectionConfig c "business" [("users", true)] in
  obj_get "system" c' = None /\
  (obj_get "business" c' ≫= obj_get "enabled") = Some true.
Proof.
  split.
  - by rewrite (proj1 (update_section_local _ "business" [("users", true)] "system")) by done.
  - destruct (proj2 (update_section_local (Some [("business", [("enabled", true); ("users", false)])])
                "business" [("users", true)] "x")) as (s' & H1 & H2).
    + apply (bool_decide_unpack _). vm_compute. exact I.
    + apply (bool_decide_unpack _). vm_compute. exact I.
    + rewrite H1. simpl. by rewrite H2.
Defined.

End ManagementAccess.
