(* ===== verification/AuthStore.v ===== *)
(** The authentication store (src/web/src/stores/auth-store.ts) and the guards
    that admit a server answer into it
    (src/web/src/lib/auth-session.ts: isRecord, isAuthUser, isLoginSession,
    hasValidTokenFields, isAuthBundle, isAuthTokenRotation).

    The user object is kept as the JSON value it is; the guard only inspects
    four of its fields. *)
From S2P Require Import Prelude JsNumber Json.

Record LoginSession := {
  sid : jsstr; current : bool; login_method : jsstr; ip : jsstr; user_agent : jsstr;
  created_at : jsnum; last_active_at : jsnum; expires_at : jsnum }.

Record AuthBundle := {
  access_token : jsstr; token_type : jsstr; access_expires_at : jsnum;
  bundle_user : json; bundle_session : LoginSession }.

Inductive AuthBootstrapState := idle | checking | complete.

(** The fields of [useAuthStore.getState().auth]. *)
Record AuthState := {
  user : option json;
  accessToken : option jsstr;
  accessExpiresAt : option jsnum;
  session : option LoginSession;
  pending2FAFlowToken : option jsstr;
  bootstrapState : AuthBootstrapState }.

Module AuthStore.

Definition initial : AuthState :=
  {| user := None; accessToken := None; accessExpiresAt := None; session := None;
     pending2FAFlowToken := None; bootstrapState := idle |}.

Definition setBundle (b : AuthBundle) (s : AuthState) : AuthState :=
  {| user := Some (bundle_user b); accessToken := Some (access_token b);
     accessExpiresAt := Some (access_expires_at b); session := Some (bundle_session b);
     pending2FAFlowToken := None; bootstrapState := complete |}.

Definition setUser (u : option json) (s : AuthState) : AuthState :=
  {| user := u; accessToken := accessToken s; accessExpiresAt := accessExpiresAt s;
     session := session s; pending2FAFlowToken := pending2FAFlowToken s;
     bootstrapState := bootstrapState s |}.

Definition setPending2FAFlowToken (t : option jsstr) (s : AuthState) : AuthState :=
  {| user := user s; accessToken := accessToken s; accessExpiresAt := accessExpiresAt s;
     session := session s; pending2FAFlowToken := t; bootstrapState := bootstrapState s |}.

Definition setBootstrapState (b : AuthBootstrapState) (s : AuthState) : AuthState :=
  {| user := user s; accessToken := accessToken s; accessExpiresAt := accessExpiresAt s;
     session := session s; pending2FAFlowToken := pending2FAFlowToken s; bootstrapState := b |}.

(** [reset(bootstrapState)]; the default argument is [complete]. *)
Definition reset (b : AuthBootstrapState) (s : AuthState) : AuthState :=
  {| user := None; accessToken := None; accessExpiresAt := None; session := None;
     pending2FAFlowToken := None; bootstrapState := b |}.

(** [auth.session?.sid] *)
Definition current_sid (s : AuthState) : option jsstr := sid <$> session s.

End AuthStore.

Module AuthGuards.

(** [Boolean(value) && typeof value === 'object'] *)
Definition isRecord (v : option json) : bool :=
  match v with Some (JObj _) | Some (JArr _) => true | _ => false end.

Definition as_str (v : option json) : option jsstr :=
  match v with Some (JStr s) => Some s | _ => None end.
Definition as_num (v : option json) : option jsnum :=
  match v with Some (JNum n) => Some n | _ => None end.
Definition as_bool (v : option json) : option bool :=
  match v with Some (JBool b) => Some b | _ => None end.
Definition is_some {A} (o : option A) : bool := match o with Some _ => true | None => false end.
(** [typeof s === 'string' && s.length > 0] *)
Definition nonempty_str (v : option json) : bool :=
  match as_str v with Some s => truthy s | None => false end.

Definition isAuthUser (v : option json) : bool :=
  isRecord v &&
  match as_num (prop "id" v) with
  | Some n => is_integer n && num_ltb (num 0) n
  | None => false
  end && is_some (as_str (prop "username" v)) && is_some (as_num (prop "role" v)).

Definition isLoginSession (v : option json) : bool :=
  isRecord v && nonempty_str (prop "sid" v) && is_some (as_bool (prop "current" v))
  && is_some (as_str (prop "login_method" v)) && is_some (as_str (prop "ip" v))
  && is_some (as_str (prop "user_agent" v)) && is_some (as_num (prop "created_at" v))
  && is_some (as_num (prop "last_active_at" v)) && is_some (as_num (prop "expires_at" v)).

Definition hasValidTokenFields (v : option json) : bool :=
  nonempty_str (prop "access_token" v) && nonempty_str (prop "token_type" v) &&
  match as_num (prop "access_expires_at" v) with
  | Some n => is_finite n && num_ltb (num 0) n
  | None => false
  end.

Definition isAuthBundle (v : option json) : bool :=
  isRecord v && hasValidTokenFields v && isAuthUser (prop "user" v)
  && isLoginSession (prop "session" v).

Definition isAuthTokenRotation (v : option json) : bool :=
  isRecord v && hasValidTokenFields v
  && bool_decide (as_str (prop "token_type" v) = Some "Bearer")
  && isLoginSession (prop "session" v)
  && bool_decide (as_bool (prop "current" (prop "session" v)) = Some true).

(** The typed reading of a value that a guard has admitted. *)
Definition read_session (v : option json) : LoginSession := {|
  sid := default [] (as_str (prop "sid" v));
  current := default false (as_bool (prop "current" v));
  login_method := default [] (as_str (prop "login_method" v));
  ip := default [] (as_str (prop "ip" v));
  user_agent := default [] (as_str (prop "user_agent" v));
  created_at := default nan (as_num (prop "created_at" v));
  last_active_at := default nan (as_num (prop "last_active_at" v));
  expires_at := default nan (as_num (prop "expires_at" v)) |}.
Definition read_bundle (v : option json) (u : json) : AuthBundle := {|
  access_token := default [] (as_str (prop "access_token" v));
  token_type := default [] (as_str (prop "token_type" v));
  access_expires_at := default nan (as_num (prop "access_expires_at" v));
  bundle_user := u;
  bundle_session := read_session (prop "session" v) |}.

(** [isAuthBundle(value) ? value : null] *)
Definition parseBundle (v : option json) : option AuthBundle :=
  if isAuthBundle v then Some (read_bundle v (default JNull (prop "user" v))) else None.

(** A bundle that may enter the store. *)
Definition bundle_ok (b : AuthBundle) : Prop :=
  access_token b <> [] /\ token_type b <> [] /\ sid (bundle_session b) <> [] /\
  is_finite (access_expires_at b) = true /\ num_ltb (num 0) (access_expires_at b) = true /\
  isAuthUser (Some (bundle_user b)) = true.

Lemma nonempty_str_read v : nonempty_str v = true -> default [] (as_str v) <> [].
Proof. unfold nonempty_str. destruct (as_str v) as [s|]; simpl; [apply truthy_true|done]. Qed.
Lemma isLoginSession_sid v : isLoginSession v = true -> sid (read_session v) <> [].
Proof. unfold isLoginSession. intros H. js_reflect. simpl. by apply nonempty_str_read. Qed.
Lemma hasValidTokenFields_read v :
  hasValidTokenFields v = true ->
  default [] (as_str (prop "access_token" v)) <> [] /\
  default [] (as_str (prop "token_type" v)) <> [] /\
  is_finite (default nan (as_num (prop "access_expires_at" v))) = true /\
  num_ltb (num 0) (default nan (as_num (prop "access_expires_at" v))) = true.
Proof.
  unfold hasValidTokenFields. intros H. js_reflect.
  destruct (as_num (prop "access_expires_at" v)) as [n|]; [|done]. js_reflect.
  split_and!; [by apply nonempty_str_read..|done|done].
Qed.
Lemma parseBundle_ok v b : parseBundle v = Some b -> bundle_ok b.
Proof.
  unfold parseBundle. destruct (isAuthBundle v) eqn:E; [|done]. intros [= <-].
  unfold isAuthBundle in E. js_reflect.
  match goal with H : hasValidTokenFields _ = true |- _ =>
    apply hasValidTokenFields_read in H as (? & ? & ? & ?) end.
  split_and!; simpl; try done.
  - by apply isLoginSession_sid.
  - destruct (prop "user" v); done.
Qed.

End AuthGuards.
