(* ===== verification/AuthSession.v ===== *)
(** Session handling of the web client (src/web/src/lib/auth-session.ts, with
    publishAuthSessionEvent of src/web/src/lib/auth-session-sync.ts): applying
    bundles and rotations, clearing, and the refresh protocol.

    The module-level variables of the file and the store are one [world].  The
    asynchronous runner of createRefreshRunner is a state machine: it advances
    at its await points, and any other operation may run in between.  A step
    of the machine is one stretch of code between two await points; the
    reactions of the server, the timer and the user are the labels. *)
From S2P Require Import Prelude JsNumber Json AuthStore.
Import AuthGuards.

(** What is published to the other tabs. *)
Inductive SyncKind := authenticated_event | signed_out_event.

Inductive RefreshOutcome :=
| authenticated (b : AuthBundle)
| anonymous
| transient_error (error : option json)
| superseded                             (* transient_error with AuthRefreshSupersededError *)
| out_of_sync (code : jsstr).

Record AuthRefreshHTTPResponse := { status : jsnum; data : option json; error : option json }.

(** Where the runner is suspended. *)
Inductive phase :=
| Entering                               (* waiting for the browser lock, before run *)
| Requesting (expectedSID : option jsstr)
| Waiting (delay : Z)
| Settled (o : RefreshOutcome).          (* finished, the finally callback still to run *)

(** A run of the refresh: the epoch it belongs to, the arguments of [run], and
    two counters that no decision reads: requests sent and milliseconds
    waited. *)
Record runner := {
  refreshEpoch : nat; raceAttempt : nat; allowMismatchRetry : bool; at_ : phase;
  sent : nat; waited : Z }.

Record world := {
  auth : AuthState;
  authEpoch : nat;
  sessionExpiredNotified : bool;
  published : list (SyncKind * jsstr);
  refreshPromise : option runner }.

Module AuthSession.

Definition set_auth (a : AuthState) (w : world) : world :=
  {| auth := a; authEpoch := authEpoch w; sessionExpiredNotified := sessionExpiredNotified w;
     published := published w; refreshPromise := refreshPromise w |}.
Definition bump_epoch (w : world) : world :=
  {| auth := auth w; authEpoch := S (authEpoch w); sessionExpiredNotified := sessionExpiredNotified w;
     published := published w; refreshPromise := refreshPromise w |}.
Definition set_notified (b : bool) (w : world) : world :=
  {| auth := auth w; authEpoch := authEpoch w; sessionExpiredNotified := b;
     published := published w; refreshPromise := refreshPromise w |}.
Definition set_runner (r : option runner) (w : world) : world :=
  {| auth := auth w; authEpoch := authEpoch w; sessionExpiredNotified := sessionExpiredNotified w;
     published := published w; refreshPromise := r |}.

(** [publishAuthSessionEvent(kind, sid)]: nothing for an empty sid. *)
Definition publishAuthSessionEvent (kind : SyncKind) (s : jsstr) (w : world) : world :=
  {| auth := auth w; authEpoch := authEpoch w; sessionExpiredNotified := sessionExpiredNotified w;
     published := if truthy s then published w ++ [(kind, s)] else published w;
     refreshPromise := refreshPromise w |}.

Definition refreshRaceDelays : list Z := [80; 200; 500]%Z.

(** Returns whether the caller is the first to report the expiry. *)
Definition shouldNotifySessionExpired (w : world) : bool * world :=
  if sessionExpiredNotified w then (false, w) else (true, set_notified true w).

Definition resetSessionExpiredNotification (w : world) : world := set_notified false w.

Definition applyAuthBundle (b : AuthBundle) (synchronizeTabs : bool) (w : world) : world :=
  let w := resetSessionExpiredNotification w in
  let previousSID := AuthStore.current_sid (auth w) in
  let w := bump_epoch w in
  let w := set_auth (AuthStore.setBundle b (auth w)) w in
  if synchronizeTabs && negb (bool_decide (previousSID = Some (sid (bundle_session b))))
  then publishAuthSessionEvent authenticated_event (sid (bundle_session b)) w
  else w.

Definition err_invalid : jsstr := "Invalid authentication rotation response".
Definition err_no_session : jsstr := "Authentication rotation has no active session".
Definition err_mismatch : jsstr := "Authentication rotation session mismatch".

(** [inl message] is the thrown AuthRotationError. *)
Definition applyAuthRotation (value : option json) (w : world) : jsstr + world :=
  if negb (isAuthTokenRotation value) then inl err_invalid
  else match user (auth w), session (auth w) with
       | Some u, Some s =>
           if negb (str_eqb (sid (read_session (prop "session" value))) (sid s)) then inl err_mismatch
           else inr (applyAuthBundle (read_bundle value u) false w)
       | _, _ => inl err_no_session
       end.

Definition clearAuthentication (synchronizeTabs : bool) (b : AuthBootstrapState) (w : world) : world :=
  let s := AuthStore.current_sid (auth w) in
  let w := bump_epoch w in
  let w := set_auth (AuthStore.reset b (auth w)) w in
  match s with
  | Some s' => if synchronizeTabs && truthy s' then publishAuthSessionEvent signed_out_event s' w else w
  | None => w
  end.

(** ** One answer of the refresh endpoint *)

Definition code_race : jsstr := "AUTH_REFRESH_RACE".
Definition code_mismatch : jsstr := "AUTH_SESSION_MISMATCH".
Definition code_invalid : jsstr := "AUTH_INVALID_REFRESH_RESPONSE".

(** What [run] does with an answer. *)
Inductive decision :=
| Accept (b : AuthBundle)
| RetryAfter (delay : Z)
| RetryFresh
| SignedOut
| Transient (e : option json)
| OutOfSync (code : jsstr).

Definition responseData (r : AuthRefreshHTTPResponse) : option json :=
  if isRecord (data r) then data r else None.
Definition responseCode (r : AuthRefreshHTTPResponse) : option jsstr :=
  as_str (prop "code" (responseData r)).

Definition answer (raceAttempt : nat) (allowMismatchRetry : bool) (r : AuthRefreshHTTPResponse)
  : decision :=
  let code := responseCode r in
  match bool_decide (as_bool (prop "success" (responseData r)) = Some true),
        parseBundle (prop "data" (responseData r)) with
  | true, Some b => Accept b
  | _, _ =>
      if num_eqb (status r) (num 409) && bool_decide (code = Some code_race) then
        match refreshRaceDelays !! raceAttempt with
        | Some delay => RetryAfter delay
        | None => OutOfSync code_race
        end
      else if num_eqb (status r) (num 409) && bool_decide (code = Some code_mismatch) then
        if allowMismatchRetry then RetryFresh else OutOfSync code_mismatch
      else if num_eqb (status r) (num 401) then SignedOut
      else if negb (num_truthy (status r)) || num_leb (num 500) (status r)
              || num_eqb (status r) (num 429)
      then Transient (match error r with None | Some JNull => data r | e => e end)
      else OutOfSync (nullish code code_invalid)
  end.

(** ** The steps of the runner *)

Definition isCurrent (r : runner) (w : world) : bool := Nat.eqb (authEpoch w) (refreshEpoch r).

Definition move (r : runner) (race : nat) (allow : bool) (p : phase) (ms : Z) : runner :=
  {| refreshEpoch := refreshEpoch r; raceAttempt := race; allowMismatchRetry := allow; at_ := p;
     sent := sent r; waited := (waited r + ms)%Z |}.

(** The promise of the run is fulfilled with an outcome; until its finally
    callback has run, [refreshPromise] still holds it. *)
Definition finish (r : runner) (o : RefreshOutcome) (w : world) : world :=
  set_runner (Some (move r (raceAttempt r) (allowMismatchRetry r) (Settled o) 0)) w.

(** [refreshAuthentication()]: a refresh in flight is shared. *)
Definition refreshAuthentication (w : world) : world :=
  match refreshPromise w with
  | Some _ => w
  | None =>
      set_runner (Some {| refreshEpoch := authEpoch w; raceAttempt := 0; allowMismatchRetry := true;
                          at_ := Entering; sent := 0; waited := 0 |}) w
  end.

(** The head of [run]: give up when superseded, else send the request. *)
Definition send_request (r : runner) (w : world) : world :=
  if negb (isCurrent r w) then finish r superseded w
  else set_runner (Some {| refreshEpoch := refreshEpoch r; raceAttempt := raceAttempt r;
                           allowMismatchRetry := allowMismatchRetry r;
                           at_ := Requesting (AuthStore.current_sid (auth w));
                           sent := S (sent r); waited := waited r |}) w.

(** The [clear] of the runtime that runRefresh hands to the runner: before a
    fresh retry only the store is reset, everything else is a sign-out. *)
Definition runtime_clear (synchronizeTabs : bool) (b : AuthBootstrapState) (w : world) : world :=
  match synchronizeTabs, b with
  | false, idle => set_auth (AuthStore.reset idle (auth w)) w
  | _, _ => clearAuthentication synchronizeTabs b w
  end.

(** The rest of [run] once the answer is there. *)
Definition receive (r : runner) (resp : AuthRefreshHTTPResponse) (w : world) : world :=
  if negb (isCurrent r w) then finish r superseded w
  else match answer (raceAttempt r) (allowMismatchRetry r) resp with
       | Accept b => finish r (authenticated b) (applyAuthBundle b false w)
       | RetryAfter delay =>
           set_runner (Some (move r (raceAttempt r) (allowMismatchRetry r) (Waiting delay) 0)) w
       | RetryFresh =>
           send_request (move r 0 false Entering 0) (runtime_clear false idle w)
       | SignedOut => finish r anonymous (runtime_clear true complete w)
       | Transient e =>
           finish r (transient_error e) (set_auth (AuthStore.setBootstrapState idle (auth w)) w)
       | OutOfSync code => finish r (out_of_sync code) (runtime_clear false complete w)
       end.

(** The timer of [wait(delay)]: [run(raceAttempt + 1, allowMismatchRetry)]. *)
Definition timer (r : runner) (delay : Z) (w : world) : world :=
  send_request (move r (S (raceAttempt r)) (allowMismatchRetry r) Entering delay) w.

(** ** All the operations, interleaved *)

Inductive label :=
| Login (b : AuthBundle) (synchronizeTabs : bool)        (* applyAuthBundle *)
| Rotate (value : option json)                           (* applyAuthRotation *)
| Clear (synchronizeTabs : bool) (b : AuthBootstrapState) (* clearAuthentication *)
| SetUser (u : option json) | SetPending (t : option jsstr) | SetBootstrap (b : AuthBootstrapState)
| Notify                                                 (* shouldNotifySessionExpired *)
| Refresh                                                (* refreshAuthentication *)
| Enter                                                  (* the lock is granted *)
| Answer (resp : AuthRefreshHTTPResponse)
| Elapse                                                 (* the timer fires *)
| Settle.                                                (* the finally callback, then the callers *)

(** What an operation reports: the outcome of the refresh, or the result of a
    notification check. *)
Inductive report := Outcome (o : RefreshOutcome) | Notified (first : bool).

(** [None]: the label is not enabled (there is no such run to advance). *)
Definition step (l : label) (w : world) : option (world * option report) :=
  match l, refreshPromise w with
  | Login b sync, _ => Some (applyAuthBundle b sync w, None)
  | Rotate v, _ => match applyAuthRotation v w with
                   | inl _ => Some (w, None)
                   | inr w' => Some (w', None)
                   end
  | Clear sync b, _ => Some (clearAuthentication sync b w, None)
  | SetUser u, _ => Some (set_auth (AuthStore.setUser u (auth w)) w, None)
  | SetPending t, _ => Some (set_auth (AuthStore.setPending2FAFlowToken t (auth w)) w, None)
  | SetBootstrap b, _ => Some (set_auth (AuthStore.setBootstrapState b (auth w)) w, None)
  | Notify, _ => let '(b, w') := shouldNotifySessionExpired w in Some (w', Some (Notified b))
  | Refresh, _ => Some (refreshAuthentication w, None)
  | Enter, Some r => match at_ r with Entering => Some (send_request r w, None) | _ => None end
  | Answer resp, Some r =>
      match at_ r with Requesting _ => Some (receive r resp w, None) | _ => None end
  | Elapse, Some r => match at_ r with Waiting d => Some (timer r d w, None) | _ => None end
  | Settle, Some r =>
      match at_ r with Settled o => Some (set_runner None w, Some (Outcome o)) | _ => None end
  | _, None => None
  end.

Definition initial : world :=
  {| auth := AuthStore.initial; authEpoch := 0; sessionExpiredNotified := false;
     published := []; refreshPromise := None |}.

Inductive reachable : world -> Prop :=
| reach_init : reachable initial
| reach_step w l w' rep : reachable w -> step l w = Some (w', rep) -> reachable w'.

(** ** What the callers use *)

(** [Math.floor(Date.now() / 1000)] *)
Definition now_seconds (now : jsnum) : jsnum := num_floor (num_div now (num 1000)).

Definition currentValidAuthBundle (now : jsnum) (a : AuthState) : option AuthBundle :=
  match user a, accessToken a, accessExpiresAt a, session a with
  | Some u, Some t, Some e, Some s =>
      if negb (truthy t) || negb (num_truthy e) || num_leb e (now_seconds now) then None
      else Some {| access_token := t; token_type := "Bearer"; access_expires_at := e;
                   bundle_user := u; bundle_session := s |}
  | _, _, _, _ => None
  end.

(** [inl]: answered at once; [inr]: the promise of the refresh is returned. *)
Definition bootstrapAuthentication (now : jsnum) (w : world) : RefreshOutcome * world + world :=
  match currentValidAuthBundle now (auth w) with
  | Some b => inl (authenticated b, set_auth (AuthStore.setBootstrapState complete (auth w)) w)
  | None =>
      let hasStaleSession := is_some (user (auth w)) && is_some (session (auth w)) in
      match bootstrapState (auth w), hasStaleSession with
      | complete, false => inl (anonymous, w)
      | _, _ => inr (refreshAuthentication (set_auth (AuthStore.setBootstrapState checking (auth w)) w))
      end
  end.

Definition getCommonHeaders (a : AuthState) : obj jsstr :=
  let headers := obj_set "Content-Type" ("application/json" : jsstr) [] in
  match accessToken a with
  | Some t => if truthy t then obj_set "Authorization" (("Bearer " : jsstr) ++ t) headers else headers
  | None => headers
  end.

(** [auth.accessToken && auth.accessExpiresAt && auth.accessExpiresAt > limit] *)
Definition token_beyond (limit : jsnum) (a : AuthState) : bool :=
  match accessToken a, accessExpiresAt a with
  | Some t, Some e => truthy t && num_truthy e && num_ltb limit e
  | _, _ => false
  end.

Inductive HeaderError := RequestFailed (cause : option json) | SupersededFailure | SessionExpired.

(** [getFreshAuthHeaders()] up to its await: headers, or a refresh to wait for. *)
Definition getFreshAuthHeaders (now : jsnum) (w : world) : obj jsstr + world :=
  if token_beyond (num_add (now_seconds now) (num 60)) (auth w) then inl (getCommonHeaders (auth w))
  else inr (refreshAuthentication w).

(** The rest, once the refresh has an outcome. *)
Definition freshHeadersAfter (now : jsnum) (outcome : RefreshOutcome) (a : AuthState)
  : HeaderError + obj jsstr :=
  match outcome with
  | authenticated _ => inr (getCommonHeaders a)
  | _ =>
      if token_beyond (now_seconds now) a then inr (getCommonHeaders a)
      else match outcome with
           | transient_error e => inl (RequestFailed e)
           | superseded => inl SupersededFailure
           | _ => inl SessionExpired
           end
  end.

(** ** Events from other tabs (auth-session-sync.ts) *)

Definition isAuthSessionSyncEvent (v : option json) : bool :=
  isRecord v
  && (bool_decide (as_str (prop "kind" v) = Some "authenticated")
      || bool_decide (as_str (prop "kind" v) = Some "signed_out"))
  && nonempty_str (prop "sid" v) && is_some (as_str (prop "source" v))
  && is_some (as_str (prop "nonce" v)) && is_some (as_num (prop "timestamp" v)).

(** Does [deliver] pass the event to the listener? *)
Definition deliver (source : jsstr) (now : jsnum) (v : option json) : bool :=
  isAuthSessionSyncEvent v && negb (bool_decide (as_str (prop "source" v) = Some source))
  && num_ltb (num_abs (num_sub now (default nan (as_num (prop "timestamp" v))))) (num 60000).

(** The event of publishAuthSessionEvent as the other tabs see it. *)
Definition kind_str (k : SyncKind) : jsstr :=
  match k with authenticated_event => "authenticated" | signed_out_event => "signed_out" end.
Definition sync_event (k : SyncKind) (s source nonce : jsstr) (now : jsnum) : json :=
  JObj (obj_of [("kind" : jsstr, JStr (kind_str k)); ("sid" : jsstr, JStr s); ("source" : jsstr, JStr source);
                ("nonce" : jsstr, JStr nonce); ("timestamp" : jsstr, JNum now)]).
(** The storage path: JSON.stringify at the sender, JSON.parse at the receiver. *)
Definition handleStorage (source : jsstr) (now : jsnum) (newValue : jsstr) : bool :=
  truthy newValue && match parse newValue with Some v => deliver source now (Some v) | None => false end.

(** * Invariants *)

(** Reasoning by cases on the label and on what the runner does. *)
Ltac step_cases H :=
  unfold step, refreshAuthentication, shouldNotifySessionExpired, applyAuthRotation in H;
  simplify_eq/=;
  repeat (first [case_match | progress unfold receive, timer in * | progress unfold send_request, finish in *];
          simplify_eq/=); try done.

Lemma invariant (P : world -> Prop) :
  P initial -> (forall w l w' rep, P w -> step l w = Some (w', rep) -> P w') ->
  forall w, reachable w -> P w.
Proof. intros H0 HS w. induction 1; eauto. Qed.

(** Token, expiry and session come and go together. *)
Definition session_consistent (a : AuthState) : Prop :=
  match accessToken a, accessExpiresAt a, session a with
  | Some _, Some _, Some _ | None, None, None => True
  | _, _, _ => False
  end.

Lemma applyAuthBundle_auth b sync w : auth (applyAuthBundle b sync w) = AuthStore.setBundle b (auth w).
Proof. unfold applyAuthBundle, publishAuthSessionEvent. by case_match. Qed.
Lemma clearAuthentication_auth sync b w :
  auth (clearAuthentication sync b w) = AuthStore.reset b (auth w).
Proof. unfold clearAuthentication, publishAuthSessionEvent. by repeat case_match. Qed.
Lemma applyAuthBundle_runner b sync w : refreshPromise (applyAuthBundle b sync w) = refreshPromise w.
Proof. unfold applyAuthBundle, publishAuthSessionEvent. by case_match. Qed.
Lemma clearAuthentication_runner sync b w :
  refreshPromise (clearAuthentication sync b w) = refreshPromise w.
Proof. unfold clearAuthentication, publishAuthSessionEvent. by repeat case_match. Qed.
Lemma applyAuthBundle_epoch b sync w : authEpoch (applyAuthBundle b sync w) = S (authEpoch w).
Proof. unfold applyAuthBundle, publishAuthSessionEvent. by case_match. Qed.
Lemma clearAuthentication_epoch sync b w :
  authEpoch (clearAuthentication sync b w) = S (authEpoch w).
Proof. unfold clearAuthentication, publishAuthSessionEvent. by repeat case_match. Qed.
#[local] Hint Rewrite applyAuthBundle_auth clearAuthentication_auth applyAuthBundle_runner
  clearAuthentication_runner applyAuthBundle_epoch clearAuthentication_epoch : jsdb.

(** The epoch only grows. *)
Lemma step_epoch l w w' rep : step l w = Some (w', rep) -> authEpoch w <= authEpoch w'.
Proof. intros H. destruct l; step_cases H; autorewrite with jsdb; simpl; lia. Qed.

Lemma step_consistent l w w' rep :
  session_consistent (auth w) -> step l w = Some (w', rep) -> session_consistent (auth w').
Proof.
  intros Hc H. destruct l; step_cases H; autorewrite with jsdb; done.
Qed.

(** ** The budget of a refresh *)

(** Requests that a run may still send after the one it is at. *)
Definition requests_left (r : runner) : nat :=
  (3 - raceAttempt r) + (if allowMismatchRetry r then 4 else 0).
(** Milliseconds still to be waited from attempt [n] on. *)
Definition delays_from (n : nat) : Z := fold_right Z.add 0%Z (drop n refreshRaceDelays).
Definition wait_left (r : runner) : Z :=
  (delays_from (raceAttempt r) + (if allowMismatchRetry r then 780 else 0))%Z.

(** At the head of [run] one more request is still within the budget. *)
Definition fits (r : runner) : Prop :=
  sent r + requests_left r <= 7 /\ (waited r + wait_left r <= 1560)%Z.
Definition budget (r : runner) : Prop :=
  match at_ r with
  | Entering => fits r
  | Requesting _ | Settled _ => sent r + requests_left r <= 8 /\ (waited r + wait_left r <= 1560)%Z
  | Waiting d => refreshRaceDelays !! raceAttempt r = Some d /\
                 sent r + requests_left r <= 8 /\ (waited r + wait_left r <= 1560)%Z
  end.
Definition budget_inv (w : world) : Prop :=
  match refreshPromise w with Some r => budget r | None => True end.

Lemma answer_delay n allow resp d : answer n allow resp = RetryAfter d -> refreshRaceDelays !! n = Some d.
Proof. unfold answer. intros H. repeat case_match; simplify_eq; done. Qed.
Lemma answer_fresh n allow resp : answer n allow resp = RetryFresh -> allow = true.
Proof. unfold answer. intros H. repeat case_match; simplify_eq; done. Qed.
Lemma delays_lookup n d :
  refreshRaceDelays !! n = Some d ->
  n < 3 /\ (0 <= d)%Z /\ delays_from n = (d + delays_from (S n))%Z.
Proof.
  unfold delays_from, refreshRaceDelays.
  destruct n as [|[|[|n]]]; simpl; intros; simplify_eq; split_and!; lia.
Qed.

Lemma delays_nonneg n : (0 <= delays_from n)%Z.
Proof.
  unfold delays_from, refreshRaceDelays. destruct n as [|[|[|n]]]; simpl; rewrite ?drop_nil; simpl; lia.
Qed.

Lemma send_request_budget r w : fits r -> budget_inv (send_request r w).
Proof.
  intros [H1 H2]. unfold send_request, finish.
  destruct (negb _); unfold budget_inv, budget, requests_left, wait_left in *; simpl; lia.
Qed.
Lemma receive_budget r resp w :
  (exists s, at_ r = Requesting s) -> budget r -> budget_inv (receive r resp w).
Proof.
  intros [s Hs]. unfold budget. rewrite Hs. intros [H1 H2]. unfold receive, finish.
  destruct (negb _).
  { unfold budget_inv, budget, requests_left, wait_left in *; simpl; lia. }
  destruct (answer _ _ resp) as [b|d| | |e|code] eqn:E;
    try (unfold budget_inv, budget, requests_left, wait_left in *; simpl; lia).
  - apply answer_delay in E. unfold budget_inv, budget, requests_left, wait_left in *. simpl.
    split_and!; [done|lia|lia].
  - apply answer_fresh in E. apply send_request_budget. pose proof (delays_nonneg (raceAttempt r)).
    unfold fits, requests_left, wait_left in *. rewrite E in *. simpl.
    replace (delays_from 0) with 780%Z by done. lia.
Qed.
Lemma timer_budget r d w : at_ r = Waiting d -> budget r -> budget_inv (timer r d w).
Proof.
  intros Hd. unfold budget. rewrite Hd. intros (Hl & H1 & H2). apply send_request_budget.
  apply delays_lookup in Hl as (Hn & Hd0 & Hs).
  unfold fits, requests_left, wait_left in *. simpl. rewrite Hs in H2. lia.
Qed.

(** What an operation does to the run: nothing, forget it, start one, or
    advance it. *)
Lemma step_runner l w w' rep :
  step l w = Some (w', rep) ->
  refreshPromise w' = refreshPromise w \/ refreshPromise w' = None \/
  (refreshPromise w = None /\ refreshPromise w' =
     Some {| refreshEpoch := authEpoch w; raceAttempt := 0; allowMismatchRetry := true;
             at_ := Entering; sent := 0; waited := 0 |}) \/
  exists r, refreshPromise w = Some r /\
    ((at_ r = Entering /\ w' = send_request r w) \/
     (exists s resp, at_ r = Requesting s /\ w' = receive r resp w) \/
     (exists d, at_ r = Waiting d /\ w' = timer r d w)).
Proof.
  unfold step. intros H.
  destruct l; simplify_eq/=; autorewrite with jsdb; try (by left);
    try (repeat (case_match; simplify_eq/=); by eauto 10).
  - destruct (applyAuthRotation _ _) eqn:E; simplify_eq/=; [by left|].
    unfold applyAuthRotation in E. repeat (case_match; simplify_eq). autorewrite with jsdb. auto.
  - unfold shouldNotifySessionExpired in *. repeat (case_match; simplify_eq/=); auto.
  - unfold refreshAuthentication. case_match; simpl; eauto.
  - repeat (case_match; simplify_eq/=). do 3 right. eexists. split; [done|]. right. left. eauto.
Qed.

Lemma step_budget l w w' rep : budget_inv w -> step l w = Some (w', rep) -> budget_inv w'.
Proof.
  intros Hb [E|[E|[[_ E]|(r & E & H)]]]%step_runner.
  - unfold budget_inv in *. by rewrite E.
  - unfold budget_inv. by rewrite E.
  - unfold budget_inv. rewrite E. unfold budget, fits, requests_left, wait_left. simpl.
    by replace (delays_from 0) with 780%Z by done.
  - unfold budget_inv in Hb. rewrite E in Hb. destruct H as [[Ha ->]|[(s & resp & Ha & ->)|(d & Ha & ->)]].
    + unfold budget in Hb. rewrite Ha in Hb. by apply send_request_budget.
    + apply receive_budget; eauto.
    + by apply timer_budget.
Qed.

(** A run keeps the epoch it was started in. *)
Lemma send_request_epoch r w r' :
  refreshPromise (send_request r w) = Some r' -> refreshEpoch r' = refreshEpoch r.
Proof. unfold send_request, finish. case_match; intros; by simplify_eq/=. Qed.
Lemma step_run_epoch l w w' rep r r' :
  step l w = Some (w', rep) -> refreshPromise w = Some r -> refreshPromise w' = Some r' ->
  refreshEpoch r' = refreshEpoch r.
Proof.
  intros [E|[E|[[E _]|(r0 & E & Hs)]]]%step_runner Hr Hr'; [congruence..|].
  assert (r0 = r) as -> by congruence.
  destruct Hs as [[_ ->]|[(s & resp & _ & ->)|(d & _ & ->)]].
  - by eapply send_request_epoch.
  - unfold receive, finish in Hr'. repeat case_match; simplify_eq/=; try done.
    by apply send_request_epoch in Hr'.
  - by apply send_request_epoch in Hr'.
Qed.
Lemma step_run_ahead l w w' rep :
  (forall r, refreshPromise w = Some r -> refreshEpoch r <= authEpoch w) ->
  step l w = Some (w', rep) ->
  forall r, refreshPromise w' = Some r -> refreshEpoch r <= authEpoch w'.
Proof.
  intros Hi H r' Hr'. pose proof (step_epoch _ _ _ _ H) as Hmono.
  destruct (refreshPromise w) as [r|] eqn:Hr.
  - rewrite (step_run_epoch _ _ _ _ _ _ H Hr Hr'). specialize (Hi r eq_refl). lia.
  - destruct (step_runner _ _ _ _ H) as [E|[E|[[_ E]|(r0 & E & _)]]]; try congruence.
    rewrite Hr' in E. simplify_eq/=. lia.
Qed.

Lemma run_not_ahead w r : reachable w -> refreshPromise w = Some r -> refreshEpoch r <= authEpoch w.
Proof.
  intros Hw. revert r. pattern w. revert w Hw. apply invariant; [done|]. intros. by eapply step_run_ahead.
Qed.

(** ** Every step of a run gets closer to its end *)

Definition is_runner (l : label) : bool :=
  match l with Enter | Answer _ | Elapse | Settle => true | _ => false end.

Definition steps_left (r : runner) : nat :=
  match at_ r with
  | Entering => 2 * requests_left r + 3
  | Requesting _ => 2 * requests_left r + 2
  | Waiting _ => 2 * requests_left r + 1
  | Settled _ => 0
  end.

Ltac run_fields := cbn [at_ raceAttempt allowMismatchRetry refreshEpoch sent waited move] in *.

Lemma send_request_steps r w :
  exists r', refreshPromise (send_request r w) = Some r' /\ steps_left r' <= 2 * requests_left r + 2.
Proof.
  unfold send_request, finish. case_match; (eexists; split; [done|]); unfold steps_left, requests_left;
    run_fields; lia.
Qed.
Lemma receive_steps r resp w s :
  at_ r = Requesting s ->
  exists r', refreshPromise (receive r resp w) = Some r' /\ steps_left r' < steps_left r.
Proof.
  intros Hs. unfold receive, finish, steps_left. rewrite Hs.
  destruct (negb _); [eexists; split; [done|run_fields; lia]|].
  destruct (answer _ _ resp) as [b|d| | |e|code] eqn:E;
    try (eexists; split; [done|unfold requests_left; run_fields; lia]).
  apply answer_fresh in E. edestruct send_request_steps as (r' & -> & Hr'). eexists; split; [done|].
  revert Hr'. unfold steps_left, requests_left. run_fields. rewrite E. lia.
Qed.

(** The label the environment owes to a run at its await point. *)
Definition next_label (resps : nat -> AuthRefreshHTTPResponse) (r : runner) : label :=
  match at_ r with
  | Entering => Enter
  | Requesting _ => Answer (resps (sent r))
  | Waiting _ => Elapse
  | Settled _ => Settle
  end.

Lemma runner_step resps w r :
  budget_inv w -> refreshPromise w = Some r ->
  (exists o, at_ r = Settled o /\ step (next_label resps r) w = Some (set_runner None w, Some (Outcome o))) \/
  (exists w' r', step (next_label resps r) w = Some (w', None) /\ refreshPromise w' = Some r' /\
     steps_left r' < steps_left r).
Proof.
  intros Hb Hr. unfold budget_inv in Hb. rewrite Hr in Hb. unfold next_label, step. rewrite Hr.
  destruct (at_ r) as [|s|d|o] eqn:Ha; [right..|left; eauto].
  - destruct (send_request_steps r w) as (r' & E & Hl). do 2 eexists. split_and!; [done|done|].
    unfold steps_left at 2. rewrite Ha. lia.
  - edestruct (receive_steps r (resps (sent r)) w s Ha) as (r' & E & Hl). eauto.
  - destruct (send_request_steps (move r (S (raceAttempt r)) (allowMismatchRetry r) Entering d) w)
      as (r' & E & Hl).
    do 2 eexists. split_and!; [done|done|]. unfold budget in Hb. rewrite Ha in Hb.
    destruct Hb as [Hd _]. apply delays_lookup in Hd as (Hn & _).
    unfold steps_left at 2. rewrite Ha. unfold requests_left in *. run_fields. lia.
Qed.

(** Other operations running at an await point. *)
Definition interfere (ls : list label) (w : world) : world :=
  fold_left (fun w l => if is_runner l then w
                        else match step l w with Some (w', _) => w' | None => w end) ls w.

Lemma interfere_keeps ls w r :
  budget_inv w -> refreshPromise w = Some r ->
  budget_inv (interfere ls w) /\ refreshPromise (interfere ls w) = Some r.
Proof.
  unfold interfere. revert w. induction ls as [|l ls IH]; intros w Hb Hr; simpl; [done|].
  destruct (is_runner l) eqn:Hl; [by apply IH|]. destruct (step l w) as [[w' rep]|] eqn:E; [|by apply IH].
  apply IH; [by eapply step_budget|].
  destruct l; simpl in *; try discriminate; simplify_eq/=; autorewrite with jsdb; try done.
  - unfold applyAuthRotation in *. repeat (case_match; simplify_eq); autorewrite with jsdb; done.
  - unfold shouldNotifySessionExpired in *. by repeat (case_match; simplify_eq/=).
  - unfold refreshAuthentication. by rewrite Hr.
Qed.

(** Run a refresh to its end: before every step the operations [env n] may
    intervene, and every request is answered by [resps]. *)
Fixpoint drive (fuel : nat) (env : nat -> list label) (resps : nat -> AuthRefreshHTTPResponse)
    (w : world) : option (RefreshOutcome * world) :=
  match fuel with
  | 0 => None
  | S n =>
      let w := interfere (env n) w in
      match refreshPromise w with
      | None => None
      | Some r =>
          match step (next_label resps r) w with
          | Some (w', Some (Outcome o)) => Some (o, w')
          | Some (w', _) => drive n env resps w'
          | None => None
          end
      end
  end.

Lemma drive_enough env resps fuel w r :
  budget_inv w -> refreshPromise w = Some r -> steps_left r < fuel ->
  exists o w', drive fuel env resps w = Some (o, w') /\ refreshPromise w' = None.
Proof.
  revert w r. induction fuel as [|n IH]; intros w r Hb Hr Hn; [lia|]. cbn [drive].
  destruct (interfere_keeps (env n) w r Hb Hr) as [Hb' Hr'].
  generalize dependent (interfere (env n) w). intros w1 Hb1 Hr1. rewrite Hr1.
  destruct (runner_step resps w1 r Hb1 Hr1) as [(o & _ & ->)|(w' & r' & E & Hr' & Hl)]; [eauto|].
  rewrite E. apply (IH w' r'); [by eapply step_budget|done|lia].
Qed.

Lemma reachable_budget w : reachable w -> budget_inv w.
Proof. apply invariant; [done|]. intros. by eapply step_budget. Qed.

(** ** Notifications *)

(** Did this step put a bundle into the store? *)
Definition established (w w' : world) : bool :=
  negb (Nat.eqb (authEpoch w) (authEpoch w')) && is_some (accessToken (auth w')).

(** First notifications and establishments along a sequence of operations. *)
Fixpoint play (ls : list label) (w : world) : nat * nat :=
  match ls with
  | [] => (0, 0)
  | l :: rest =>
      match step l w with
      | None => play rest w
      | Some (w', rep) =>
          let '(n, e) := play rest w' in
          (match rep with Some (Notified true) => S n | _ => n end,
           if established w w' then S e else e)
      end
  end.

Lemma applyAuthBundle_notified b sync w : sessionExpiredNotified (applyAuthBundle b sync w) = false.
Proof. unfold applyAuthBundle, publishAuthSessionEvent. by case_match. Qed.
Lemma clearAuthentication_notified sync b w :
  sessionExpiredNotified (clearAuthentication sync b w) = sessionExpiredNotified w.
Proof. unfold clearAuthentication, publishAuthSessionEvent. by repeat case_match. Qed.
Lemma established_apply b sync w : established w (applyAuthBundle b sync w) = true.
Proof.
  unfold established. rewrite applyAuthBundle_epoch, applyAuthBundle_auth. simpl.
  rewrite andb_true_r, negb_true_iff. apply Nat.eqb_neq. lia.
Qed.
Lemma established_runner w w' r : established w (set_runner r w') = established w w'.
Proof. done. Qed.
#[local] Hint Rewrite applyAuthBundle_notified clearAuthentication_notified established_apply
  established_runner : jsdb.

(** A closed gate stays closed until a session is established. *)
Lemma step_gate l w w' rep :
  step l w = Some (w', rep) ->
  (rep = Some (Notified true) ->
     sessionExpiredNotified w = false /\ sessionExpiredNotified w' = true) /\
  (sessionExpiredNotified w = true ->
     sessionExpiredNotified w' = true \/ established w w' = true).
Proof.
  intros H. destruct l; step_cases H; split; intros; simplify_eq/=; autorewrite with jsdb; auto.
Qed.

Lemma play_gate ls w :
  (play ls w).1 + (if sessionExpiredNotified w then 1 else 0) <= (play ls w).2 + 1.
Proof.
  revert w. induction ls as [|l ls IH]; intros w; simpl; [case_match; lia|].
  destruct (step l w) as [[w' rep]|] eqn:E; [|done]. apply step_gate in E as [H1 H2].
  specialize (IH w'). destruct (play ls w') as [n e]. simpl in *.
  destruct rep as [[o|[]]|]; simpl; destruct (sessionExpiredNotified w) eqn:Ew;
    destruct (sessionExpiredNotified w') eqn:Ew', (established w w') eqn:Ee;
    naive_solver lia.
Qed.

(** * Claims *)

(** C1: the refresh always ends: from any reachable state with a refresh in
    flight, whatever operations intervene at its await points and whatever the
    server answers, at most seventeen steps of the run settle it with an
    outcome, after which the next call starts a new one. *)
Theorem refresh_terminates w r env resps :
  reachable w -> refreshPromise w = Some r ->
  exists o w', drive 18 env resps w = Some (o, w') /\ refreshPromise w' = None.
Proof.
  intros Hw Hr. pose proof (reachable_budget _ Hw) as Hb. eapply drive_enough; [done..|].
  unfold budget_inv in Hb. rewrite Hr in Hb. clear -Hb.
  unfold steps_left, budget, fits in *. destruct (at_ r); unfold requests_left in *; case_match; lia.
Qed.

(** The session-expired notice is shown at most once more than sessions
    are established, along every sequence of operations: concurrent 401s never
    show it twice for one expiry. *)
Theorem notified_once ls w : (play ls w).1 <= (play ls w).2 + 1.
Proof. pose proof (play_gate ls w). lia. Qed.

(** However the operations of the client interleave, one refresh sends at
    most eight requests and waits at most 1560 milliseconds in all. *)
Theorem refresh_bounded w r :
  reachable w -> refreshPromise w = Some r -> sent r <= 8 /\ (waited r <= 1560)%Z.
Proof.
  intros Hw Hr. apply (invariant budget_inv) in Hw; [|done|by intros; eapply step_budget].
  unfold budget_inv in Hw. rewrite Hr in Hw. pose proof (delays_nonneg (raceAttempt r)).
  unfold budget, fits, requests_left, wait_left in Hw.
  destruct (at_ r), (allowMismatchRetry r); simpl in Hw; lia.
Qed.

(** In every reachable state the access token, its expiry and the login
    session are present together or absent together. *)
Theorem session_fields_together w : reachable w -> session_consistent (auth w).
Proof.
  apply (invariant (fun w => session_consistent (auth w))); [done|].
  intros. by eapply step_consistent.
Qed.

(** C2: once a session has been established or cleared after a refresh
    started, that refresh can no longer touch the store, publish to other tabs
    or open the notification gate: whatever the server answers, the run only
    settles as superseded and sends nothing more. *)
Theorem stale_refresh_inert w r l w' rep :
  refreshPromise w = Some r -> refreshEpoch r <> authEpoch w ->
  (l = Enter \/ l = Elapse \/ exists resp, l = Answer resp) ->
  step l w = Some (w', rep) ->
  exists r', w' = set_runner (Some r') w /\ at_ r' = Settled superseded /\ sent r' = sent r.
Proof.
  intros Hr He Hl H. assert (Hc : forall r', refreshEpoch r' = refreshEpoch r -> isCurrent r' w = false).
  { intros r' E. unfold isCurrent. apply Nat.eqb_neq. congruence. }
  destruct Hl as [->|[->|[resp ->]]]; unfold step in H; rewrite Hr in H;
    case_match; simplify_eq; unfold timer, receive, send_request, finish; rewrite Hc by done;
    eauto.
Qed.

(** Establishing or clearing a session makes a refresh in flight stale,
    and a stale refresh stays stale under every later operation. *)
Theorem refresh_superseded_forever w r w' rep l :
  reachable w -> refreshPromise w = Some r ->
  (exists b sync, l = Login b sync) \/ (exists sync b, l = Clear sync b) \/
    refreshEpoch r <> authEpoch w ->
  step l w = Some (w', rep) ->
  forall r', refreshPromise w' = Some r' -> refreshEpoch r' <> authEpoch w'.
Proof.
  intros Hw Hr Hcase H r' Hr'. pose proof (step_epoch _ _ _ _ H) as Hmono.
  assert (Hle : refreshEpoch r <= authEpoch w) by (by apply run_not_ahead).
  rewrite (step_run_epoch _ _ _ _ _ _ H Hr Hr').
  destruct Hcase as [(b & sync & ->)|[(sync & b & ->)|Hlt]]; [..|lia];
    unfold step in H; simplify_eq; rewrite ?applyAuthBundle_epoch, ?clearAuthentication_epoch; lia.
Qed.

Definition settled_as (w : world) : option RefreshOutcome :=
  match refreshPromise w with
  | Some r => match at_ r with Settled o => Some o | _ => None end
  | None => None
  end.

Lemma publish_auth k s w : published (publishAuthSessionEvent k s w) =
  if truthy s then published w ++ [(k, s)] else published w.
Proof. done. Qed.

Lemma clear_published sync b w :
  published (clearAuthentication sync b w) =
  published w ++ match AuthStore.current_sid (auth w) with
                 | Some s => if sync && truthy s then [(signed_out_event, s)] else []
                 | None => []
                 end.
Proof.
  unfold clearAuthentication, publishAuthSessionEvent. simpl.
  destruct (AuthStore.current_sid _) as [s|], sync; simpl; rewrite ?app_nil_r; try done.
  by destruct (truthy s); simpl; rewrite ?app_nil_r.
Qed.

Lemma answer_accept n allow resp b : answer n allow resp = Accept b -> bundle_ok b.
Proof.
  unfold answer. intros H. repeat (case_match; simplify_eq); by eapply parseBundle_ok.
Qed.

(** C9: what a current refresh leaves behind, by outcome.  [authenticated]: the
    store holds exactly the bundle, which passed the guards, nothing is
    published and the notification gate is open again; [anonymous]: the store is
    empty and the sign-out of the session that was there is published;
    [out_of_sync]: the store is empty and nothing is published;
    [transient_error]: user, token and session are untouched.  Only
    [authenticated] touches the gate. *)
Theorem refresh_effects w r resp o :
  isCurrent r w = true -> settled_as (receive r resp w) = Some o ->
  let w' := receive r resp w in
  match o with
  | authenticated b => bundle_ok b /\ auth w' = AuthStore.setBundle b (auth w) /\
      published w' = published w /\ sessionExpiredNotified w' = false
  | anonymous => auth w' = AuthStore.reset complete (auth w) /\
      published w' = published w ++
        match session (auth w) with
        | Some s => if truthy (sid s) then [(signed_out_event, sid s)] else []
        | None => []
        end /\ sessionExpiredNotified w' = sessionExpiredNotified w
  | out_of_sync _ => auth w' = AuthStore.reset complete (auth w) /\ published w' = published w /\
      sessionExpiredNotified w' = sessionExpiredNotified w
  | transient_error _ => auth w' = AuthStore.setBootstrapState idle (auth w) /\
      published w' = published w /\ authEpoch w' = authEpoch w /\ sessionExpiredNotified w' = sessionExpiredNotified w
  | superseded => False
  end.
Proof.
  intros Hc. unfold receive. rewrite Hc. simpl.
  destruct (answer _ _ resp) as [b|d| | |e|code] eqn:E; unfold settled_as; simpl; intros H; simplify_eq/=.
  - split_and!; [by eapply answer_accept|done..].
  - unfold send_request in H. change (isCurrent (move r 0 false Entering 0) _) with (isCurrent r w) in H.
    by rewrite Hc in H.
  - rewrite clearAuthentication_auth, clear_published, clearAuthentication_notified. split; [done|]. split; [|done].
    unfold AuthStore.current_sid. by destruct (session (auth w)).
  - done.
  - rewrite clearAuthentication_auth, clear_published, clearAuthentication_notified. split; [done|]. split; [|done].
    by destruct (AuthStore.current_sid (auth w)); rewrite app_nil_r.
Qed.

(** A network failure, a server error or rate limiting never signs the
    user out: whatever the answer carries, as long as it is no valid bundle,
    the refresh settles as a transient error and the session is kept. *)
Theorem transient_keeps_session w r resp :
  isCurrent r w = true ->
  num_truthy (status resp) = false \/ num_leb (num 500) (status resp) = true \/
    status resp = num 429 ->
  parseBundle (prop "data" (responseData resp)) = None ->
  (exists e, settled_as (receive r resp w) = Some (transient_error e)) /\
  user (auth (receive r resp w)) = user (auth w) /\
  accessToken (auth (receive r resp w)) = accessToken (auth w) /\
  session (auth (receive r resp w)) = session (auth w).
Proof.
  intros Hc Hs Hb.
  assert (E : exists e, answer (raceAttempt r) (allowMismatchRetry r) resp = Transient e).
  { unfold answer. rewrite Hb.
    assert (H9 : num_eqb (status resp) (num 409) = false /\ num_eqb (status resp) (num 401) = false).
    { split; apply not_true_iff_false; intros Hq; apply num_eqb_finite in Hq; rewrite Hq in Hs; vm_compute in Hs;
        destruct Hs as [? | [? | ?]]; discriminate. }
    destruct H9 as [-> ->]. rewrite !andb_false_l.
    replace (negb _ || _ || _) with true; [by case_match; eauto|].
    destruct Hs as [Hs | [Hs | Hs]]; rewrite Hs; [done|by rewrite orb_true_r|by rewrite !orb_true_r]. }
  destruct E as [e E]. unfold receive. rewrite Hc, E. simpl. split_and!; [|done..]. eauto.
Qed.

(** A token rotation is all or nothing: it is refused, with the error the
    code throws and no change, unless the answer is a well-formed rotation for
    the session in the store; accepted, it replaces token and session, keeps
    the user and the session id, and tells no other tab. *)
Theorem rotation_all_or_nothing v w :
  match applyAuthRotation v w with
  | inl e =>
      (isAuthTokenRotation v = false /\ e = err_invalid) \/
      (isAuthTokenRotation v = true /\ (user (auth w) = None \/ session (auth w) = None) /\
         e = err_no_session) \/
      (exists s, session (auth w) = Some s /\
         sid (read_session (prop "session" v)) <> sid s /\ e = err_mismatch)
  | inr w' =>
      exists u s, user (auth w) = Some u /\ session (auth w) = Some s /\
        auth w' = AuthStore.setBundle (read_bundle v u) (auth w) /\
        user (auth w') = Some u /\
        AuthStore.current_sid (auth w') = Some (sid s) /\
        published w' = published w /\ authEpoch w' = S (authEpoch w)
  end.
Proof.
  unfold applyAuthRotation. destruct (isAuthTokenRotation v) eqn:Hv; simpl; [|auto].
  destruct (user (auth w)) as [u|] eqn:Hu; [|naive_solver].
  destruct (session (auth w)) as [s|] eqn:Hs; [|naive_solver].
  destruct (str_eqb _ _) eqn:E; simpl.
  - apply str_eqb_true in E. exists u, s. split_and!; try done.
    simpl. unfold AuthStore.current_sid. simpl. by rewrite E.
  - right. right. exists s. split_and!; [done| |done]. by apply str_eqb_false.
Qed.

(** At start-up the stored session is used exactly while its token is
    unexpired, and using it is faithful: the bundle handed out is the one that
    the store holds.  A refresh starts exactly when there is no such session
    and the client either has not checked yet or holds an expired session. *)
Theorem bootstrap_spec now w :
  match bootstrapAuthentication now w with
  | inl (authenticated b, w') =>
      (exists e, accessExpiresAt (auth w) = Some e /\ num_leb e (now_seconds now) = false) /\
      auth w' = AuthStore.setBootstrapState complete (auth w) /\
      AuthStore.setBundle b (auth w) =
        AuthStore.setPending2FAFlowToken None (auth w')
  | inl (o, w') => o = anonymous /\ w' = w /\ bootstrapState (auth w) = complete /\
      (user (auth w) = None \/ session (auth w) = None)
  | inr w' =>
      currentValidAuthBundle now (auth w) = None /\ is_some (refreshPromise w') = true /\
      (bootstrapState (auth w) <> complete \/ user (auth w) <> None /\ session (auth w) <> None)
  end.
Proof.
  unfold bootstrapAuthentication. destruct (currentValidAuthBundle now (auth w)) as [b|] eqn:E.
  - unfold currentValidAuthBundle in E. repeat (case_match; simplify_eq).
    apply orb_false_iff in H3 as [_ H3].
    split_and!; [by eexists|done|]. unfold AuthStore.setBundle, AuthStore.setPending2FAFlowToken. simpl.
    congruence.
  - assert (Hp : forall a, is_some (refreshPromise (refreshAuthentication a)) = true).
    { intros a. unfold refreshAuthentication. destruct (refreshPromise a) eqn:Ep; simpl; by rewrite ?Ep. }
    destruct (bootstrapState (auth w)); [by split_and!; [done|apply Hp|left]..|].
    destruct (user (auth w)), (session (auth w)); simpl; split_and!; try done; auto; by right.
Qed.

(** Headers that are handed out without a successful refresh carry the
    bearer token of the store, and that token is still valid: for more than a
    minute on the direct path, at all after a failed refresh. *)
Theorem fresh_headers_valid now w h :
  (getFreshAuthHeaders now w = inl h \/
   exists o, (forall b, o <> authenticated b) /\ freshHeadersAfter now o (auth w) = inr h) ->
  exists t e, accessToken (auth w) = Some t /\ t <> [] /\ accessExpiresAt (auth w) = Some e /\
    (num_ltb (num_add (now_seconds now) (num 60)) e = true \/ num_ltb (now_seconds now) e = true) /\
    obj_get "Authorization" h = Some (("Bearer " : jsstr) ++ t).
Proof.
  intros H.
  assert (Hh : h = getCommonHeaders (auth w) /\
    exists l, (l = num_add (now_seconds now) (num 60) \/ l = now_seconds now) /\
      token_beyond l (auth w) = true).
  { destruct H as [H|(o & Ho & H)].
    - unfold getFreshAuthHeaders in H. case_match; simplify_eq; eauto.
    - unfold freshHeadersAfter in H. destruct o; try (by destruct (Ho b)); case_match; simplify_eq; eauto. }
  destruct Hh as (-> & l & Hl & Hb). unfold token_beyond, getCommonHeaders in *.
  destruct (accessToken (auth w)) as [t|]; [|done]. destruct (accessExpiresAt (auth w)) as [e|]; [|done].
  js_reflect. exists t, e. replace (truthy t) with true by done.
  split_and!; try done; [by apply truthy_true|destruct Hl; subst; auto].
Qed.

(** An event reaches every other tab that sees it within a minute, and
    never the tab that published it. *)
Theorem sync_event_delivered k s source nonce t source' now :
  s <> [] ->
  deliver source' now (Some (sync_event k s source nonce t)) =
  negb (str_eqb source source') && num_ltb (num_abs (num_sub now t)) (num 60000).
Proof.
  intros Hs. apply truthy_true in Hs. unfold deliver, isAuthSessionSyncEvent, nonempty_str.
  set (v := Some (sync_event k s source nonce t)).
  assert (prop "sid" v = Some (JStr s) /\ prop "kind" v = Some (JStr (kind_str k)) /\
    prop "source" v = Some (JStr source) /\ prop "nonce" v = Some (JStr nonce) /\
    prop "timestamp" v = Some (JNum t) /\ isRecord v = true) as (-> & -> & -> & -> & -> & ->)
    by (by split_and!).
  cbn [as_str as_num is_some default]. rewrite Hs.
  replace (bool_decide (Some (kind_str k) = _) || _) with true by (by destruct k).
  rewrite !andb_true_r. simpl. f_equal. unfold str_eqb. f_equal. apply bool_decide_ext. naive_solver.
Qed.

(** ** Concrete runs *)

Definition demo_bundle : AuthBundle := {|
  access_token := "tok"; token_type := "Bearer"; access_expires_at := num 2000;
  bundle_user := JObj [("id" : jsstr, JNum (num 7)); ("role" : jsstr, JNum (num 1)); ("username" : jsstr, JStr "ada")];
  bundle_session := {| sid := "s1"; current := true; login_method := "password"; ip := "::1";
    user_agent := "ua"; created_at := num 1; last_active_at := num 2; expires_at := num 3000 |} |}.
Definition demo_success (b : AuthBundle) : AuthRefreshHTTPResponse :=
  let s := bundle_session b in
  {| status := num 200; error := None; data := Some (JObj [("success" : jsstr, JBool true); ("data" : jsstr, JObj [
       ("access_token" : jsstr, JStr (access_token b)); ("token_type" : jsstr, JStr (token_type b));
       ("access_expires_at" : jsstr, JNum (access_expires_at b)); ("user" : jsstr, bundle_user b);
       ("session" : jsstr, JObj [("sid" : jsstr, JStr (sid s)); ("current" : jsstr, JBool (current s));
         ("login_method" : jsstr, JStr (login_method s)); ("ip" : jsstr, JStr (ip s)); ("user_agent" : jsstr, JStr (user_agent s));
         ("created_at" : jsstr, JNum (created_at s)); ("last_active_at" : jsstr, JNum (last_active_at s));
         ("expires_at" : jsstr, JNum (expires_at s))])])]) |}.
Definition demo_answer (st : Z) (code : jsstr) : AuthRefreshHTTPResponse :=
  {| status := num st; data := Some (JObj [("code" : jsstr, JStr code)]); error := None |}.

(** Signed in, then a refresh that met one race. *)
Definition demo_labels : list label :=
  [Login demo_bundle true; Refresh; Enter; Answer (demo_answer 409 code_race); Elapse].
Definition run_labels (ls : list label) (w : world) : world :=
  fold_left (fun w l => match step l w with Some (w', _) => w' | None => w end) ls w.
Definition demo_world : world := run_labels demo_labels initial.
Definition demo_run : runner := {| refreshEpoch := 1; raceAttempt := 1; allowMismatchRetry := true;
  at_ := Requesting (Some ("s1" : jsstr)); sent := 2; waited := 80 |}.

Lemma run_labels_reachable ls w : reachable w -> reachable (run_labels ls w).
Proof.
  revert w. induction ls as [|l ls IH]; intros w Hw; simpl; [done|]. apply IH.
  destruct (step l w) as [[w' rep]|] eqn:E; [by econstructor|done].
Qed.
Lemma demo_reachable : reachable demo_world.
Proof. apply run_labels_reachable, reach_init. Qed.

Lemma refresh_terminates_witness :
  reachable demo_world /\ refreshPromise demo_world = Some demo_run /\
  exists o w', drive 18 (fun n => if Nat.eqb n 16 then [Clear true complete] else [])
    (fun _ => demo_answer 409 code_race) demo_world = Some (o, w') /\ refreshPromise w' = None.
Proof.
  split; [apply demo_reachable|split; [reflexivity|]].
  apply (refresh_terminates demo_world demo_run); [apply demo_reachable|reflexivity].
Defined.

Lemma refresh_bounded_witness :
  reachable demo_world /\ refreshPromise demo_world = Some demo_run /\
  sent demo_run <= 8 /\ (waited demo_run <= 1560)%Z.
Proof.
  split; [apply demo_reachable|split; [reflexivity|]].
  apply (refresh_bounded demo_world demo_run); [apply demo_reachable|reflexivity].
Defined.

Lemma session_fields_together_witness :
  accessToken (auth demo_world) = Some ("tok" : jsstr) /\ session_consistent (auth demo_world).
Proof. split; [reflexivity|]. apply session_fields_together. apply demo_reachable. Defined.

(** Signing out while the refresh waits for its answer. *)
Definition demo_cleared : world := clearAuthentication true complete demo_world.

Lemma stale_refresh_inert_witness :
  exists w', step (Answer (demo_answer 401 "")) demo_cleared = Some (w', None) /\
  exists r', w' = set_runner (Some r') demo_cleared /\ at_ r' = Settled superseded /\ sent r' = 2.
Proof.
  eexists. split; [reflexivity|].
  apply (stale_refresh_inert demo_cleared demo_run (Answer (demo_answer 401 "")) _ None);
    [reflexivity|discriminate|right; right; eexists; reflexivity|reflexivity].
Defined.

Lemma refresh_superseded_forever_witness :
  refreshPromise demo_cleared = Some demo_run /\ refreshEpoch demo_run <> authEpoch demo_cleared.
Proof.
  split; [reflexivity|].
  apply (refresh_superseded_forever demo_world demo_run demo_cleared None (Clear true complete));
    [apply demo_reachable|reflexivity|right; left; do 2 eexists; reflexivity|reflexivity|reflexivity].
Defined.

Lemma refresh_effects_witness :
  isCurrent demo_run demo_world = true /\
  settled_as (receive demo_run (demo_answer 401 "") demo_world) = Some anonymous /\
  published (receive demo_run (demo_answer 401 "") demo_world)
    = [(authenticated_event, "s1" : jsstr); (signed_out_event, "s1" : jsstr)].
Proof.
  split; [reflexivity|split; [reflexivity|]].
  apply (refresh_effects demo_world demo_run (demo_answer 401 "") anonymous); reflexivity.
Defined.

Lemma transient_keeps_session_witness :
  isCurrent demo_run demo_world = true /\
  (exists e, settled_as (receive demo_run (demo_answer 503 "") demo_world) = Some (transient_error e)) /\
  user (auth (receive demo_run (demo_answer 503 "") demo_world)) = user (auth demo_world) /\
  accessToken (auth (receive demo_run (demo_answer 503 "") demo_world)) = Some ("tok" : jsstr) /\
  session (auth (receive demo_run (demo_answer 503 "") demo_world)) = session (auth demo_world).
Proof.
  split; [reflexivity|].
  apply (transient_keeps_session demo_world demo_run (demo_answer 503 ""));
    [reflexivity|right; left; reflexivity|reflexivity].
Defined.

Lemma fresh_headers_valid_witness :
  exists t e, accessToken (auth demo_world) = Some t /\ t <> [] /\
    accessExpiresAt (auth demo_world) = Some e /\
    (num_ltb (num_add (now_seconds (num 1000000)) (num 60)) e = true
     \/ num_ltb (now_seconds (num 1000000)) e = true) /\
    obj_get "Authorization" (getCommonHeaders (auth demo_world)) = Some (("Bearer " : jsstr) ++ t).
Proof.
  apply (fresh_headers_valid (num 1000000) demo_world (getCommonHeaders (auth demo_world))).
  left. vm_compute. reflexivity.
Defined.

Lemma sync_event_delivered_witness :
  deliver "b" (num 5000) (Some (sync_event signed_out_event "s1" "a" "n" (num 4000))) =
  negb (str_eqb "a" "b") && num_ltb (num_abs (num_sub (num 5000) (num 4000))) (num 60000).
Proof. apply sync_event_delivered. discriminate. Defined.

End AuthSession.
