(* ===== verification/HttpClient.v ===== *)
(** The HTTP client (src/web/src/lib/http-client.ts, with
    src/web/src/lib/server-error-message.ts): the sharing of identical GET
    requests, and the interceptors that attach the token, accept rotations,
    retry once after a refresh and report errors.

    Requests, timers and the refresh of [AuthSession] run concurrently: a call
    of [api] is suspended while its request is on the way and while it waits
    for the refresh, and anything may happen in between.  Axios and the server
    are the environment: they decide when and how a request is answered. *)
From S2P Require Import Prelude JsNumber Json AuthStore AuthSession.
Import AuthGuards.

(** The options of a request the interceptors look at; a missing option is
    false.  [headers] are those of the caller. *)
Record ApiRequestConfig := {
  skipBusinessError : bool; skipErrorHandler : bool; disableDuplicate : bool;
  skipAuthRefresh : bool; authRetry : bool; acceptAuthRotation : bool;
  headers : obj jsstr }.

(** Where a call of [api.request] is suspended. *)
Inductive call_phase :=
| Sent                                   (* the request is on the way *)
| AwaitingRefresh (error : json)         (* in the error interceptor *)
| Refreshed (error : json) (o : RefreshOutcome)
| Resolved (data : option json)
| Rejected (error : json).

(** [attempts] and [refreshes] count the requests sent and refreshes awaited. *)
Record api_call := {
  call_config : ApiRequestConfig; call_phase_ : call_phase; attempts : nat; refreshes : nat }.

Record client := {
  session_world : world;
  api_calls : list api_call;
  toasts : list json;                    (* what was shown *)
  expiry_notices : nat;                  (* how often that was the expiry of the session *)
  pathname : jsstr }.

Module HttpClient.
Import AuthSession.

(** ** Messages for server errors *)

Definition serverErrorMessageKeys : obj jsstr := [
  ("AUTH_SESSION_LIMIT", "Too many active login sessions. On a device where you are already signed in, open Login sessions and use “Sign out other sessions” to revoke them. If you cannot access a signed-in device, reset your password to sign out all sessions.");
  ("AUTH_SESSION_ISSUANCE_LIMIT", "Too many login sessions were created recently. Please wait for the rolling window to pass, then try again.");
  ("TELEGRAM_BIND_DISABLED", "Telegram binding is disabled.");
  ("TELEGRAM_BIND_INVALID_REQUEST", "The Telegram authorization request is invalid or expired.");
  ("TELEGRAM_BIND_FLOW_INVALID", "This Telegram binding request has expired or has already been used.");
  ("TELEGRAM_BIND_SESSION_INVALID", "The login session that started this Telegram binding is no longer valid.");
  ("TELEGRAM_BIND_ALREADY_BOUND", "This Telegram account is already bound.");
  ("TELEGRAM_BIND_USER_DELETED", "This user account no longer exists.");
  ("TELEGRAM_BIND_USER_DISABLED", "This user account is disabled.");
  ("TELEGRAM_BIND_INTERNAL_ERROR", "Telegram binding failed. Please try again.")].

Definition serverErrorPayload (value : option json) : option json :=
  if negb (isRecord value) then None
  else
    let response := prop "response" value in
    if isRecord response && isRecord (prop "data" response) then prop "data" response else value.

(** The keys of the table only: a code such as [toString] would find an
    inherited property of the object in the source. *)
Definition getServerErrorMessageKey (value : option json) : option jsstr :=
  match as_str (prop "code" (serverErrorPayload value)) with
  | Some code => obj_get code serverErrorMessageKeys
  | None => None
  end.

(** [a || b] *)
Definition json_or (a : option json) (b : json) : json :=
  match a with Some v => if json_truthy a then v else b | None => b end.

Section Client.
(** The translation function of i18next. *)
Context (t : jsstr -> jsstr).

Definition business_message (data : option json) : json :=
  match getServerErrorMessageKey data with
  | Some k => JStr (t k)
  | None => json_or (prop "message" data) (JStr (t "Request failed"))
  end.
Definition error_message (error : json) : json :=
  match getServerErrorMessageKey (Some error) with
  | Some k => JStr (t k)
  | None => json_or (prop "message" (prop "data" (prop "response" (Some error))))
              (json_or (prop "message" (Some error)) (JStr (t "Request failed")))
  end.
Definition expired_message : json := JStr (t "Session expired!").

(** ** Effects *)

Definition set_session (w : world) (c : client) : client :=
  {| session_world := w; api_calls := api_calls c; toasts := toasts c;
     expiry_notices := expiry_notices c; pathname := pathname c |}.
Definition toast_error (m : json) (c : client) : client :=
  {| session_world := session_world c; api_calls := api_calls c; toasts := toasts c ++ [m];
     expiry_notices := expiry_notices c; pathname := pathname c |}.
Definition set_calls (l : list api_call) (c : client) : client :=
  {| session_world := session_world c; api_calls := l; toasts := toasts c;
     expiry_notices := expiry_notices c; pathname := pathname c |}.
Definition redirectToSignIn (c : client) : client :=
  if str_eqb (pathname c) "/sign-in" then c
  else {| session_world := session_world c; api_calls := api_calls c; toasts := toasts c;
          expiry_notices := expiry_notices c; pathname := "/sign-in" |}.

(** [if (!skipErrorHandler && shouldNotifySessionExpired()) toast.error(...)] *)
Definition notify_expired (cfg : ApiRequestConfig) (c : client) : client :=
  if skipErrorHandler cfg then c
  else let '(first, w) := shouldNotifySessionExpired (session_world c) in
       if first
       then {| session_world := w; api_calls := api_calls c; toasts := toasts c ++ [expired_message];
               expiry_notices := S (expiry_notices c); pathname := pathname c |}
       else set_session w c.

(** ** The interceptors *)

(** The request interceptor: the token of the store replaces the caller's. *)
Definition on_request (a : AuthState) (cfg : ApiRequestConfig) : ApiRequestConfig :=
  match accessToken a with
  | Some token =>
      if truthy token
      then {| skipBusinessError := skipBusinessError cfg; skipErrorHandler := skipErrorHandler cfg;
              disableDuplicate := disableDuplicate cfg; skipAuthRefresh := skipAuthRefresh cfg;
              authRetry := authRetry cfg; acceptAuthRotation := acceptAuthRotation cfg;
              headers := obj_set "Authorization" (("Bearer " : jsstr) ++ token) (headers cfg) |}
      else cfg
  | None => cfg
  end.

Definition put (i : nat) (k : api_call) (c : client) : client := set_calls (<[i := k]> (api_calls c)) c.
Definition at_phase (k : api_call) (p : call_phase) : api_call :=
  {| call_config := call_config k; call_phase_ := p; attempts := attempts k; refreshes := refreshes k |}.

(** [api.request(config)] up to the answer, as the call [i]. *)
Definition resend (i : nat) (k : api_call) (c : client) : client :=
  put i {| call_config := on_request (auth (session_world c)) (call_config k); call_phase_ := Sent;
           attempts := S (attempts k); refreshes := refreshes k |} c.

(** The interceptor of successful answers. *)
Definition on_response (i : nat) (k : api_call) (data : option json) (c : client) : client :=
  let cfg := call_config k in
  let rotation :=
    if acceptAuthRotation cfg && bool_decide (as_bool (prop "success" data) = Some true)
    then applyAuthRotation (prop "data" data) (session_world c)
    else inr (session_world c) in
  match rotation with
  | inl message => put i (at_phase k (Rejected (JObj [("message" : jsstr, JStr message)]))) c
  | inr w =>
      let c := set_session w c in
      let c := if negb (skipBusinessError cfg) && bool_decide (as_bool (prop "success" data) = Some false)
               then toast_error (business_message data) c else c in
      put i (at_phase k (Resolved data)) c
  end.

Definition is_unauthorized (error : json) : bool :=
  match as_num (prop "status" (prop "response" (Some error))) with
  | Some n => num_eqb n (num 401)
  | None => false
  end.
Definition retrying (cfg : ApiRequestConfig) : ApiRequestConfig :=
  {| skipBusinessError := skipBusinessError cfg; skipErrorHandler := skipErrorHandler cfg;
     disableDuplicate := disableDuplicate cfg; skipAuthRefresh := skipAuthRefresh cfg;
     authRetry := true; acceptAuthRotation := acceptAuthRotation cfg; headers := headers cfg |}.

(** The interceptor of errors, up to its await.  Axios puts the configuration
    of the call into the error. *)
Definition on_error (i : nat) (k : api_call) (error : json) (c : client) : client :=
  let cfg := call_config k in
  if is_unauthorized error then
    if negb (skipAuthRefresh cfg) && negb (authRetry cfg) then
      put i {| call_config := retrying cfg; call_phase_ := AwaitingRefresh error; attempts := attempts k;
               refreshes := S (refreshes k) |}
        (set_session (refreshAuthentication (session_world c)) c)
    else if authRetry cfg then
      let c := set_session (clearAuthentication false complete (session_world c)) c in
      put i (at_phase k (Rejected error)) (redirectToSignIn (notify_expired cfg c))
    else put i (at_phase k (Rejected error)) (notify_expired cfg c)
  else
    let c := if skipErrorHandler cfg then c else toast_error (error_message error) c in
    put i (at_phase k (Rejected error)) c.

(** The rest of it, once the refresh has an outcome. *)
Definition after_refresh (i : nat) (k : api_call) (error : json) (o : RefreshOutcome) (c : client) : client :=
  let cfg := call_config k in
  match o with
  | authenticated _ => resend i {| call_config := on_request (auth (session_world c)) cfg;
                                   call_phase_ := call_phase_ k; attempts := attempts k;
                                   refreshes := refreshes k |} c
  | anonymous | out_of_sync _ =>
      put i (at_phase k (Rejected error)) (redirectToSignIn (notify_expired cfg c))
  | transient_error _ | superseded => put i (at_phase k (Rejected error)) c
  end.

(** ** Interleaved operations *)

Inductive client_label :=
| Call (cfg : ApiRequestConfig)          (* api.request(config) *)
| Response (i : nat) (data : option json)
| Failure (i : nat) (error : json)
| Continue (i : nat)                     (* the refresh the call waits for is done *)
| Session (l : label).                   (* an operation of the session *)

(** A settled refresh wakes every call that waits for it. *)
Definition wake (rep : option report) (k : api_call) : api_call :=
  match rep, call_phase_ k with
  | Some (Outcome o), AwaitingRefresh error => at_phase k (Refreshed error o)
  | _, _ => k
  end.

Definition client_step (l : client_label) (c : client) : option client :=
  match l with
  | Call cfg =>
      Some (set_calls (api_calls c ++ [{| call_config := on_request (auth (session_world c)) cfg;
              call_phase_ := Sent; attempts := 1; refreshes := 0 |}]) c)
  | Response i data =>
      k ← api_calls c !! i;
      match call_phase_ k with Sent => Some (on_response i k data c) | _ => None end
  | Failure i error =>
      k ← api_calls c !! i;
      match call_phase_ k with Sent => Some (on_error i k error c) | _ => None end
  | Continue i =>
      k ← api_calls c !! i;
      match call_phase_ k with Refreshed error o => Some (after_refresh i k error o c) | _ => None end
  | Session l =>
      r ← step l (session_world c);
      Some (set_calls (map (wake r.2) (api_calls c)) (set_session r.1 c))
  end.

Definition initial : client :=
  {| session_world := AuthSession.initial; api_calls := []; toasts := []; expiry_notices := 0;
     pathname := "/" |}.
Inductive client_reachable : client -> Prop :=
| client_init : client_reachable initial
| client_next c l c' : client_reachable c -> client_step l c = Some c' -> client_reachable c'.

End Client.

(** ** The session inside the client *)

Section Facts.
Context (t : jsstr -> jsstr).
Abbreviation client_step := (client_step t).
Abbreviation client_reachable := (client_reachable t).

(** The effects that leave the session alone. *)
Lemma put_world i k c : session_world (put i k c) = session_world c.
Proof. done. Qed.
Lemma if_world (b : bool) m c : session_world (if b then toast_error m c else c) = session_world c.
Proof. by destruct b. Qed.
Lemma redirect_world c : session_world (redirectToSignIn c) = session_world c.
Proof. unfold redirectToSignIn. by case_match. Qed.
Lemma redirect_calls c : api_calls (redirectToSignIn c) = api_calls c.
Proof. unfold redirectToSignIn. by case_match. Qed.
Lemma redirect_notices c : expiry_notices (redirectToSignIn c) = expiry_notices c.
Proof. unfold redirectToSignIn. by case_match. Qed.
Lemma notify_calls cfg (c : client) : api_calls (notify_expired t cfg c) = api_calls c.
Proof. unfold notify_expired, shouldNotifySessionExpired. by repeat case_match; simplify_eq/=. Qed.
#[local] Hint Rewrite put_world redirect_world redirect_calls redirect_notices notify_calls : jsdb.

(** One or more operations of the session, or none. *)
Definition session_runs (w w' : world) : Prop := rtc (fun (w w' : world) => exists l rep, step l w = Some (w', rep)) w w'.
Lemma runs_step l w w' rep : step l w = Some (w', rep) -> session_runs w w'.
Proof. intros E. apply rtc_once. by exists l, rep. Qed.
Lemma runs_reachable w w' : reachable w -> session_runs w w' -> reachable w'.
Proof. intros Hw Hr. induction Hr as [|w w1 w2 (l & rep & E) _ IH]; [done|]. apply IH. by eapply reach_step. Qed.

Lemma notify_runs cfg c : session_runs (session_world c) (session_world (notify_expired t cfg c)).
Proof.
  unfold notify_expired. destruct (skipErrorHandler cfg); [constructor|].
  destruct (shouldNotifySessionExpired (session_world c)) as [b w] eqn:E.
  apply (runs_step Notify _ _ (Some (Notified b))). simpl. rewrite E. by destruct b.
Qed.
Lemma client_step_runs l c c' :
  client_step l c = Some c' -> session_runs (session_world c) (session_world c').
Proof.
  destruct l as [cfg|i data|i error|i|l]; simpl; intros E.
  - simplify_eq/=. constructor.
  - destruct (api_calls c !! i) as [k|]; [|done]. simpl in E. destruct (call_phase_ k); simplify_eq/=.
    unfold on_response. destruct (acceptAuthRotation (call_config k) && _).
    + destruct (applyAuthRotation _ _) as [|w] eqn:Er; [constructor|]. rewrite put_world, if_world.
      apply (runs_step (Rotate (prop "data" data)) _ _ None). simpl. by rewrite Er.
    + rewrite put_world, if_world. constructor.
  - destruct (api_calls c !! i) as [k|]; [|done]. simpl in E. destruct (call_phase_ k); simplify_eq/=.
    unfold on_error. repeat case_match; rewrite ?put_world, ?redirect_world; try constructor.
    + by apply (runs_step Refresh _ _ None).
    + eapply rtc_l; [|apply notify_runs]. by exists (Clear false complete), None.
    + apply notify_runs.
  - destruct (api_calls c !! i) as [k|]; [|done]. simpl in E. destruct (call_phase_ k); simplify_eq/=.
    unfold after_refresh. case_match; rewrite ?put_world, ?redirect_world; try constructor; apply notify_runs.
  - destruct (step l (session_world c)) as [[w rep]|] eqn:Es; [|done]. simplify_eq/=. by eapply runs_step.
Qed.
Lemma client_session c : client_reachable c -> reachable (session_world c).
Proof.
  induction 1 as [|c l c' _ IH Hs]; [constructor|]. eapply runs_reachable; [done|]. by eapply client_step_runs.
Qed.

(** ** Calls *)

(** At most one retry, and only after one refresh. *)
Definition call_ok (k : api_call) : Prop :=
  refreshes k <= 1 /\ attempts k <= 1 + refreshes k /\ (refreshes k = 1 -> authRetry (call_config k) = true) /\
  match call_phase_ k with AwaitingRefresh _ | Refreshed _ _ => attempts k <= 1 /\ refreshes k = 1 | _ => True end.
Lemma on_request_retry a cfg : authRetry (on_request a cfg) = authRetry cfg.
Proof. unfold on_request. by repeat case_match. Qed.
Lemma call_ok_phase k p : call_ok k -> match p with AwaitingRefresh _ | Refreshed _ _ => False | _ => True end ->
  call_ok (at_phase k p).
Proof. intros (?&?&?&_) Hp. unfold call_ok. simpl. split_and!; try done. by destruct p. Qed.
Lemma Forall_put (P : api_call -> Prop) i k c :
  Forall P (api_calls c) -> P k -> Forall P (api_calls (put i k c)).
Proof. intros H Hk. simpl. by apply Forall_insert. Qed.

Lemma step_calls_ok l c c' : client_step l c = Some c' -> Forall call_ok (api_calls c) -> Forall call_ok (api_calls c').
Proof.
  destruct l as [cfg|i data|i error|i|l]; simpl; intros E Hc.
  - simplify_eq/=. apply Forall_app. split; [done|]. constructor; [|done]. unfold call_ok. simpl. split_and!; (lia || done).
  - destruct (api_calls c !! i) as [k|] eqn:Ek; [|done]. simpl in E. pose proof (Forall_lookup_1 _ _ _ _ Hc Ek) as Hk.
    destruct (call_phase_ k); simplify_eq/=. unfold on_response.
    repeat case_match; apply Forall_put; (done || by apply call_ok_phase).
  - destruct (api_calls c !! i) as [k|] eqn:Ek; [|done]. simpl in E. pose proof (Forall_lookup_1 _ _ _ _ Hc Ek) as Hk.
    destruct (call_phase_ k) eqn:Ep; simplify_eq/=. unfold on_error.
    repeat case_match; apply Forall_put; autorewrite with jsdb; try (done || by apply call_ok_phase).
    match goal with H : _ && _ = true |- _ => apply andb_true_iff in H as [_ Hr%negb_true_iff] end.
    destruct Hk as (H1 & H2 & H3 & _). assert (refreshes k = 0) by (destruct (refreshes k) as [|[]]; [done|specialize (H3 eq_refl); congruence|lia]).
    unfold call_ok. simpl. split_and!; (lia || done).
  - destruct (api_calls c !! i) as [k|] eqn:Ek; [|done]. simpl in E. pose proof (Forall_lookup_1 _ _ _ _ Hc Ek) as Hk.
    destruct (call_phase_ k) eqn:Ep; simplify_eq/=. unfold after_refresh.
    case_match; apply Forall_put; autorewrite with jsdb; try (done || by apply call_ok_phase).
    destruct Hk as (H1 & H2 & H3 & H4). rewrite Ep in H4. unfold call_ok. simpl. rewrite !on_request_retry.
    split_and!; [lia..|by apply H3|done].
  - destruct (step l (session_world c)) as [[w rep]|] eqn:Es; [|done]. simplify_eq/=.
    apply Forall_forall. intros k' (k & -> & Hk)%elem_of_map. rewrite Forall_forall in Hc. specialize (Hc k Hk).
    unfold wake. destruct rep as [[o|]|]; try done. destruct (call_phase_ k) eqn:Ep; try done.
    destruct Hc as (?&?&?&H4). rewrite Ep in H4. done.
Qed.

(** A call that waits has a refresh in flight. *)
Definition waits (k : api_call) : bool := match call_phase_ k with AwaitingRefresh _ => true | _ => false end.
Definition waiting_ok (c : client) : Prop :=
  Forall (fun k => waits k = true -> refreshPromise (session_world c) <> None) (api_calls c).

(** The runner is given up only when the refresh settles. *)
Lemma step_keeps_runner l w w' rep : step l w = Some (w', rep) -> refreshPromise w <> None ->
  refreshPromise w' <> None \/ exists o, rep = Some (Outcome o).
Proof.
  intros H Hr. destruct l; step_cases H; autorewrite with jsdb; simpl; try (by left; congruence); try (by right; eexists).
  all: try (left; unfold runtime_clear; autorewrite with jsdb; simpl; done).
  all: left; by rewrite ?applyAuthBundle_runner, ?clearAuthentication_runner.
Qed.

Lemma settle_outcome l w w' o : step l w = Some (w', Some (Outcome o)) -> refreshPromise w' = None.
Proof. intros H. destruct l; step_cases H. Qed.
Lemma refresh_in_flight w : refreshPromise (refreshAuthentication w) <> None.
Proof. unfold refreshAuthentication. destruct (refreshPromise w) eqn:E; simpl; congruence. Qed.
Lemma rotation_runner v w w' : applyAuthRotation v w = inr w' -> refreshPromise w' = refreshPromise w.
Proof. unfold applyAuthRotation. repeat case_match; intros; simplify_eq. apply applyAuthBundle_runner. Qed.
Lemma notify_runner cfg (c : client) :
  refreshPromise (session_world (notify_expired t cfg c)) = refreshPromise (session_world c).
Proof. unfold notify_expired, shouldNotifySessionExpired. by repeat case_match; simplify_eq/=. Qed.

(** Only the calls matter that wait and the runner they wait for. *)
Lemma waiting_put i k c c1 :
  waiting_ok c -> api_calls c1 = api_calls c -> refreshPromise (session_world c1) = refreshPromise (session_world c) ->
  waits k = false -> waiting_ok (put i k c1).
Proof.
  intros Hw Ec Er Hk. apply Forall_insert; [|by rewrite Hk]. rewrite put_world. unfold set_calls. simpl.
  rewrite Ec. eapply Forall_impl; [exact Hw|]. cbn. by rewrite Er.
Qed.
Lemma step_waiting l c c' : client_step l c = Some c' -> waiting_ok c -> waiting_ok c'.
Proof.
  destruct l as [cfg|i data|i error|i|l]; simpl; intros E Hw.
  - simplify_eq/=. apply Forall_app. by split; [|repeat constructor].
  - destruct (api_calls c !! i) as [k|]; [|done]. simpl in E. destruct (call_phase_ k); simplify_eq/=.
    unfold on_response. destruct (acceptAuthRotation (call_config k) && _).
    + destruct (applyAuthRotation _ _) as [|w] eqn:Er; [by apply (waiting_put i _ c)|].
      apply (waiting_put i _ c); [done|by case_match| |done]. rewrite if_world. by eapply rotation_runner.
    + apply (waiting_put i _ c); [done|by case_match|by rewrite if_world|done].
  - destruct (api_calls c !! i) as [k|]; [|done]. simpl in E. destruct (call_phase_ k); simplify_eq/=.
    unfold on_error. repeat case_match.
    + apply Forall_insert; [|intros _; apply refresh_in_flight]. eapply Forall_impl; [exact Hw|]. cbn.
      intros _ _ _. apply refresh_in_flight.
    + apply (waiting_put i _ c); autorewrite with jsdb; try done.
      rewrite notify_runner. apply clearAuthentication_runner.
    + apply (waiting_put i _ c); autorewrite with jsdb; try done. apply notify_runner.
    + by apply (waiting_put i _ c).
    + by apply (waiting_put i _ c).
  - destruct (api_calls c !! i) as [k|]; [|done]. simpl in E. destruct (call_phase_ k); simplify_eq/=.
    unfold after_refresh. case_match; try (by apply (waiting_put i _ c)).
    all: apply (waiting_put i _ c); autorewrite with jsdb; try done; apply notify_runner.
  - destruct (step l (session_world c)) as [[w rep]|] eqn:Es; [|done]. simplify_eq/=.
    apply Forall_forall. intros k' (k & -> & Hk)%elem_of_map. unfold waiting_ok in Hw. rewrite Forall_forall in Hw. specialize (Hw k Hk).
    intros Hwk. assert (Hwk' : waits k = true).
    { revert Hwk. unfold wake, waits. destruct rep as [[o|]|]; try done.
      destruct (call_phase_ k) eqn:Ep; simpl; rewrite ?Ep; done. }
    destruct (step_keeps_runner _ _ _ _ Es (Hw Hwk')) as [?|[o ->]]; [done|].
    exfalso. revert Hwk. unfold wake, waits in *. destruct (call_phase_ k) eqn:Ep; done.
Qed.

Lemma client_inv (P : client -> Prop) :
  P initial -> (forall l c c', P c -> client_step l c = Some c' -> P c') -> forall c, client_reachable c -> P c.
Proof. intros H0 HS c. induction 1; eauto. Qed.

(** ** The expiry notice *)

Fixpoint client_run (ls : list client_label) (c : client) : client :=
  match ls with
  | [] => c
  | l :: rest => client_run rest (default c (client_step l c))
  end.
(** How many sessions are established along the way. *)
Fixpoint establishments (ls : list client_label) (c : client) : nat :=
  match ls with
  | [] => 0
  | l :: rest => let c' := default c (client_step l c) in
                 (if established (session_world c) (session_world c') then 1 else 0) + establishments rest c'
  end.
(** One notice is still allowed unless the gate is closed. *)
Definition allowance (c : client) : nat := if sessionExpiredNotified (session_world c) then 0 else 1.

Definition gate_ok (c c' : client) : Prop :=
  expiry_notices c' + allowance c' <=
  expiry_notices c + allowance c + (if established (session_world c) (session_world c') then 1 else 0).
Lemma gate_same c c' : expiry_notices c' = expiry_notices c ->
  sessionExpiredNotified (session_world c') = sessionExpiredNotified (session_world c) -> gate_ok c c'.
Proof. intros E1 E2. unfold gate_ok, allowance. rewrite E1, E2. lia. Qed.
Lemma notify_gate cfg (c : client) :
  expiry_notices (notify_expired t cfg c) + allowance (notify_expired t cfg c) <= expiry_notices c + allowance c.
Proof.
  unfold notify_expired, shouldNotifySessionExpired, allowance. destruct (skipErrorHandler cfg); [lia|].
  destruct (sessionExpiredNotified (session_world c)) eqn:E; simpl; rewrite ?E; lia.
Qed.
Lemma step_client_gate l c c' : client_step l c = Some c' -> gate_ok c c'.
Proof.
  destruct l as [cfg|i data|i error|i|l]; simpl; intros E.
  - simplify_eq/=. by apply gate_same.
  - destruct (api_calls c !! i) as [k|]; [|done]. simpl in E. destruct (call_phase_ k); simplify_eq/=.
    unfold on_response. destruct (acceptAuthRotation (call_config k) && _).
    + destruct (applyAuthRotation _ _) as [|w] eqn:Er; [by apply gate_same|].
      assert (Hest : established (session_world c) w = true).
      { revert Er. unfold applyAuthRotation. repeat case_match; intros; simplify_eq. apply established_apply. }
      assert (Hno : sessionExpiredNotified w = false).
      { revert Er. unfold applyAuthRotation. repeat case_match; intros; simplify_eq. apply applyAuthBundle_notified. }
      unfold gate_ok, allowance. rewrite put_world, if_world. simpl. rewrite Hest, Hno.
      replace (expiry_notices (if _ : bool then toast_error _ _ else _)) with (expiry_notices c) by (by case_match).
      case_match; lia.
    + apply gate_same; [by case_match|]. by rewrite put_world, if_world.
  - destruct (api_calls c !! i) as [k|]; [|done]. simpl in E. destruct (call_phase_ k); simplify_eq/=.
    unfold on_error. repeat case_match; try (by apply gate_same).
    + apply gate_same; [done|]. simpl. unfold refreshAuthentication. by case_match.
    + unfold gate_ok. pose proof (notify_gate (call_config k)
        (set_session (clearAuthentication false complete (session_world c)) c)) as Hn.
      unfold allowance in *. autorewrite with jsdb in *. simpl in *. autorewrite with jsdb.
      rewrite clearAuthentication_notified in Hn. lia.
    + unfold gate_ok. pose proof (notify_gate (call_config k) c) as Hn.
      unfold allowance in *. autorewrite with jsdb. simpl in *. lia.
  - destruct (api_calls c !! i) as [k|]; [|done]. simpl in E. destruct (call_phase_ k); simplify_eq/=.
    unfold after_refresh. case_match; try (by apply gate_same).
    all: unfold gate_ok; pose proof (notify_gate (call_config k) c) as Hn;
      unfold allowance in *; autorewrite with jsdb; simpl in *; autorewrite with jsdb; lia.
  - destruct (step l (session_world c)) as [[w rep]|] eqn:Es; [|done]. simplify_eq/=.
    apply step_gate in Es as [_ Hg]. unfold gate_ok, allowance. simpl.
    destruct (sessionExpiredNotified (session_world c)); [|case_match; case_match; lia].
    destruct (Hg eq_refl) as [-> | ->]; [lia|case_match; lia].
Qed.

(** ** Claims *)

(** The operations of the session that an event of the client stands for: an
    accepted rotation; the refresh that a first refusal asks for, when the call
    allows it; the sign-out when the retry of a call is refused as well; a check
    of the notification gate where the end of the session is to be announced. *)
Definition announcement (cfg : ApiRequestConfig) : list label := if skipErrorHandler cfg then [] else [Notify].
Definition refusal (cfg : ApiRequestConfig) : list label :=
  match authRetry cfg, skipAuthRefresh cfg with
  | false, false => [Refresh]
  | true, _ => Clear false complete :: announcement cfg
  | false, true => announcement cfg
  end.
Definition rotates (cfg : ApiRequestConfig) (data : option json) : bool :=
  acceptAuthRotation cfg && bool_decide (as_bool (prop "success" data) = Some true).
Definition operations (l : client_label) (c : client) : list label :=
  match l with
  | Call _ => []
  | Response i data =>
      match api_calls c !! i with
      | Some k => if rotates (call_config k) data then [Rotate (prop "data" data)] else []
      | None => []
      end
  | Failure i error =>
      match api_calls c !! i with
      | Some k => if is_unauthorized error then refusal (call_config k) else []
      | None => []
      end
  | Continue i =>
      match api_calls c !! i with
      | Some k => match call_phase_ k with
                  | Refreshed _ (anonymous | out_of_sync _) => announcement (call_config k)
                  | _ => []
                  end
      | None => []
      end
  | Session l => [l]
  end.
Fixpoint session_run (ls : list label) (w : world) : option world :=
  match ls with [] => Some w | l :: ls => r ← step l w; session_run ls r.1 end.

Lemma announcement_run cfg c :
  session_run (announcement cfg) (session_world c) = Some (session_world (notify_expired t cfg c)).
Proof.
  unfold announcement, notify_expired. destruct (skipErrorHandler cfg); [done|]. cbn [session_run step].
  destruct (shouldNotifySessionExpired (session_world c)) as [b w] eqn:E. cbn. by destruct b.
Qed.
Lemma operations_run l c c' : client_step l c = Some c' ->
  session_run (operations l c) (session_world c) = Some (session_world c').
Proof.
  destruct l as [cfg|i data|i error|i|l]; cbn [operations HttpClient.client_step]; intros E.
  - by simplify_eq/=.
  - destruct (api_calls c !! i) as [k|]; [|done]. cbn in E. destruct (call_phase_ k); simplify_eq/=.
    unfold on_response, rotates. destruct (acceptAuthRotation (call_config k) && _); [|by rewrite put_world, if_world].
    cbn [session_run step]. destruct (applyAuthRotation _ _) as [|w]; cbn [mbind option_bind fst]; by rewrite put_world, ?if_world.
  - destruct (api_calls c !! i) as [k|]; [|done]. cbn in E. destruct (call_phase_ k); simplify_eq/=.
    unfold on_error, refusal. destruct (is_unauthorized error); [|by rewrite put_world; destruct (skipErrorHandler _)].
    destruct (authRetry (call_config k)), (skipAuthRefresh (call_config k)); cbn [negb andb];
      rewrite ?put_world, ?redirect_world; try done; try apply announcement_run;
      cbn [session_run step mbind option_bind fst]; exact (announcement_run _ (set_session _ c)).
  - destruct (api_calls c !! i) as [k|]; [|done]. cbn in E. destruct (call_phase_ k) as [| |err o| |]; simplify_eq/=.
    unfold after_refresh. destruct o; rewrite ?put_world, ?redirect_world; try done; apply announcement_run.
  - destruct (step l (session_world c)) as [[w rep]|] eqn:Es; [|done]. cbn in E. injection E as <-.
    cbn [session_run]. by rewrite Es.
Qed.
(** Refreshing and announcing leave the store alone until an answer is there. *)
Definition quiet (l : label) : Prop := l = Refresh \/ l = Notify.
Lemma quiet_run ls w w' : Forall quiet ls -> session_run ls w = Some w' -> auth w' = auth w.
Proof.
  intros Hq. revert w. induction Hq as [|l ls Hl _ IH]; intros w; cbn [session_run]; [by intros [= <-]|].
  intros (r & Hr & Hw)%bind_Some. apply IH in Hw. rewrite Hw. destruct Hl as [-> | ->]; cbn in Hr.
  - injection Hr as <-. unfold refreshAuthentication. cbn. by case_match.
  - unfold shouldNotifySessionExpired in Hr. destruct (sessionExpiredNotified w); by simplify_eq/=.
Qed.
Lemma announcement_quiet cfg : Forall quiet (announcement cfg).
Proof. unfold announcement. destruct (skipErrorHandler cfg); [constructor|]. constructor; [by right|constructor]. Qed.

(** C8: the client refines the session protocol, event by event: what an event
    of the client does to the session is exactly the run of the operations it
    stands for, so every state of the session is one the protocol reaches by
    itself and consistent. The store only changes by an operation of the session
    itself, by the rotation in a successful answer of a call that accepts one, or by
    the sign-out when a request is refused with 401 that was already the retry. *)
Theorem client_refines_session c l c' :
  client_reachable c -> client_step l c = Some c' ->
  session_run (operations l c) (session_world c) = Some (session_world c') /\
  reachable (session_world c') /\ session_consistent (auth (session_world c')) /\
  (auth (session_world c') <> auth (session_world c) ->
   match l with
   | Session _ => True
   | Response i data => exists k, api_calls c !! i = Some k /\ rotates (call_config k) data = true
   | Failure i error => exists k, api_calls c !! i = Some k /\ is_unauthorized error = true /\ authRetry (call_config k) = true
   | Call _ | Continue _ => False
   end).
Proof.
  intros Hc Hs. pose proof (operations_run _ _ _ Hs) as Hr. assert (Hc' : client_reachable c') by by eapply client_next.
  split; [exact Hr|]. split; [by apply client_session|]. split.
  { apply (invariant (fun w => session_consistent (auth w))); [done| |by apply client_session].
    intros w l' w' rep Hw Hl. by eapply step_consistent. }
  intros Ha. assert (Hq : ~ Forall quiet (operations l c)) by (intros Hq; by apply Ha, (quiet_run _ _ _ Hq)).
  destruct l as [cfg|i data|i error|i|l]; cbn [operations] in Hq; [by apply Hq; constructor| | | |done].
  - destruct (api_calls c !! i) as [k|]; [|by destruct Hq]. exists k. split; [done|].
    destruct (rotates _ _); [done|by destruct Hq].
  - destruct (api_calls c !! i) as [k|]; [|by destruct Hq]. exists k. split; [done|].
    destruct (is_unauthorized error); [|by destruct Hq]. split; [done|]. unfold refusal in Hq.
    destruct (authRetry (call_config k)); [done|]. destruct Hq.
    destruct (skipAuthRefresh _); [apply announcement_quiet|]. constructor; [by left|constructor].
  - apply Hq. destruct (api_calls c !! i) as [k|]; [|constructor].
    destruct (call_phase_ k) as [| |err o| |]; try constructor. destruct o; try constructor; apply announcement_quiet.
Qed.

(** C5: a call sends its request at most twice and waits for at most one
    refresh, and while it waits there is a refresh in flight to wake it. *)
Theorem call_attempts_bounded c k :
  client_reachable c -> k ∈ api_calls c ->
  attempts k <= 2 /\ refreshes k <= 1 /\ (waits k = true -> refreshPromise (session_world c) <> None).
Proof.
  intros Hc Hk.
  assert (H1 : Forall call_ok (api_calls c)).
  { apply (client_inv (fun c => Forall call_ok (api_calls c))); [constructor| |done]. eauto using step_calls_ok. }
  assert (H2 : waiting_ok c) by (apply (client_inv waiting_ok); [constructor| |done]; eauto using step_waiting).
  unfold waiting_ok in H2. rewrite Forall_forall in H1, H2. destruct (H1 k Hk) as (? & ? & _). split_and!; [lia..|]. by apply H2.
Qed.

(** Along every run, however many calls fail at once, the expiry of the
    session is announced at most once more than sessions are established. *)
Theorem expiry_announced_once ls : expiry_notices (client_run ls initial) <= establishments ls initial + 1.
Proof.
  assert (H : forall c, expiry_notices (client_run ls c) + allowance (client_run ls c)
                        <= expiry_notices c + allowance c + establishments ls c).
  { induction ls as [|l ls IH]; intros c; simpl; [lia|]. specialize (IH (default c (client_step l c))).
    destruct (client_step l c) as [c'|] eqn:E; simpl in *; [apply step_client_gate in E; unfold gate_ok in E; lia|].
    lia. }
  specialize (H initial). simpl in H. lia.
Qed.

(** A call whose request is refused signs the user out only as a last
    resort: the store changes only when the refused request was already a
    retry; in every case the call is rejected with the error it got or waits
    for a refresh, and no other call is touched. *)
Theorem error_keeps_session i k error c :
  api_calls c !! i = Some k ->
  let c' := on_error t i k error c in
  (authRetry (call_config k) = false -> auth (session_world c') = auth (session_world c)) /\
  (exists k', api_calls c' = <[i := k']> (api_calls c) /\
     (call_phase_ k' = Rejected error \/
      call_phase_ k' = AwaitingRefresh error /\ is_unauthorized error = true /\ authRetry (call_config k) = false)).
Proof.
  intros Hk. unfold on_error.
  assert (Hn : forall c0, auth (session_world (notify_expired t (call_config k) c0)) = auth (session_world c0)).
  { intros c0. unfold notify_expired, shouldNotifySessionExpired. by repeat case_match; simplify_eq/=. }
  destruct (is_unauthorized error) eqn:Eu.
  - destruct (negb (skipAuthRefresh _) && _) eqn:Er.
    + apply andb_true_iff in Er as [_ Er%negb_true_iff]. split; [|eexists; split; [done|]; right; done].
      intros _. simpl. unfold refreshAuthentication. by case_match.
    + destruct (authRetry (call_config k)) eqn:Ea.
      * split; [done|]. eexists. split; [unfold put, set_calls; simpl; by rewrite redirect_calls, notify_calls|by left].
      * split; [by rewrite put_world, Hn|]. eexists. split; [unfold put, set_calls; simpl; by rewrite notify_calls|by left].
  - split; [by case_match|]. eexists. split; [by case_match|by left].
Qed.

End Facts.

(** ** A run: two calls are refused, one refresh is shared, both are retried *)

Definition demo_request : ApiRequestConfig :=
  {| skipBusinessError := false; skipErrorHandler := false; disableDuplicate := false;
     skipAuthRefresh := false; authRetry := false; acceptAuthRotation := false; headers := [] |}.
Definition demo_refused : json :=
  JObj [("response" : jsstr, JObj [("status" : jsstr, JNum (num 401))])].
Definition demo_labels : list client_label :=
  [Call demo_request; Call demo_request; Failure 0 demo_refused; Failure 1 demo_refused; Session Enter].
Definition demo_client : client := client_run (fun s => s) demo_labels initial.

Lemma run_client_reachable t ls c : client_reachable t c -> client_reachable t (client_run t ls c).
Proof.
  revert c. induction ls as [|l ls IH]; intros c Hc; simpl; [done|]. apply IH.
  destruct (client_step t l c) as [c'|] eqn:E; [|done]. by eapply client_next.
Qed.
Lemma demo_client_reachable : client_reachable (fun s => s) demo_client.
Proof. apply run_client_reachable. constructor. Qed.
(** The token is refused, a refresh brings a new one, and the retry is refused
    too: the client signs out. *)
Definition retry_refused : client_label := Failure 0 demo_refused.
Definition demo_retried : client :=
  client_run (fun s => s)
    [Session (Login demo_bundle true); Call demo_request; Failure 0 demo_refused; Session Enter;
     Session (Answer (demo_success demo_bundle)); Session Settle; Continue 0] initial.
Lemma client_refines_session_witness :
  exists c', client_step (fun s => s) retry_refused demo_retried = Some c' /\
    operations retry_refused demo_retried = [Clear false complete; Notify] /\
    session_run [Clear false complete; Notify] (session_world demo_retried) = Some (session_world c') /\
    user (auth (session_world demo_retried)) <> None /\ user (auth (session_world c')) = None.
Proof.
  destruct (client_step (fun s => s) retry_refused demo_retried) as [c'|] eqn:E; [|vm_compute in E; discriminate].
  exists c'. split; [reflexivity|]. split; [vm_compute; reflexivity|]. split.
  - pose proof (client_refines_session (fun s => s) demo_retried retry_refused c') as H.
    destruct H as [H _]; [apply run_client_reachable; constructor|exact E|]. exact H.
  - split; [vm_compute; discriminate|].
    replace c' with (default demo_retried (client_step (fun s => s) retry_refused demo_retried)) by (by rewrite E).
    vm_compute. reflexivity.
Defined.
Lemma call_attempts_bounded_witness :
  exists k, api_calls demo_client !! 1 = Some k /\ waits k = true /\ attempts k <= 2 /\
    refreshPromise (session_world demo_client) <> None.
Proof.
  eexists. split; [vm_compute; reflexivity|]. split; [vm_compute; reflexivity|].
  split; [vm_compute; lia|].
  assert (Hk : exists k, k ∈ api_calls demo_client /\ waits k = true).
  { eexists. split; [apply list_elem_of_lookup; exists 1; vm_compute; reflexivity|vm_compute; reflexivity]. }
  destruct Hk as (k & Hk & Hw).
  apply (call_attempts_bounded (fun s => s) demo_client k demo_client_reachable Hk). exact Hw.
Defined.
Definition demo_call : api_call :=
  {| call_config := demo_request; call_phase_ := Sent; attempts := 1; refreshes := 0 |}.
Definition demo_called : client := client_run (fun s => s) [Call demo_request] initial.
Lemma error_keeps_session_witness :
  auth (session_world (on_error (fun s => s) 0 demo_call demo_refused demo_called)) = auth (session_world demo_called).
Proof.
  apply (error_keeps_session (fun s => s) 0 demo_call demo_refused demo_called); vm_compute; reflexivity.
Defined.

End HttpClient.

(** * Shared GET requests *)

(** Requests are numbered; [active] holds those on the way, with the key under
    which they are shared. *)
Record gets := { inFlightGet : gmap jsstr nat; active : list (nat * option jsstr); next_get : nat }.

Module SharedGet.

Definition get_key (sid : option jsstr) (url : jsstr) (params : option json) : jsstr :=
  str_or (default [] sid) "anonymous" ++ ":" ++ url ++ "?"
    ++ match params with Some p => if json_truthy params then stringify p else "{}" | None => "{}" end.

Definition start_get (key : option jsstr) (g : gets) : nat * gets :=
  (next_get g,
   {| inFlightGet := match key with Some k => <[k := next_get g]> (inFlightGet g) | None => inFlightGet g end;
      active := (next_get g, key) :: active g; next_get := S (next_get g) |}).

(** [api.get(url, config)]: the request that answers. *)
Definition get (sid : option jsstr) (url : jsstr) (params : option json) (disableDuplicate : bool) (g : gets)
  : nat * gets :=
  if disableDuplicate then start_get None g
  else
    let key := get_key sid url params in
    match inFlightGet g !! key with
    | Some r => (r, g)
    | None => start_get (Some key) g
    end.

(** Request [r] is answered: the finally callback. *)
Definition settle_get (r : nat) (g : gets) : gets :=
  match List.find (fun x => Nat.eqb x.1 r) (active g) with
  | Some (_, key) =>
      {| inFlightGet := match key with Some k => delete k (inFlightGet g) | None => inFlightGet g end;
         active := List.filter (fun x => negb (Nat.eqb x.1 r)) (active g); next_get := next_get g |}
  | None => g
  end.

Inductive get_step : gets -> gets -> Prop :=
| step_get sid url params dup g : get_step g (get sid url params dup g).2
| step_settle r g : get_step g (settle_get r g).
Definition no_gets : gets := {| inFlightGet := ∅; active := []; next_get := 0 |}.

Record get_inv (g : gets) : Prop := {
  g_fresh : forall x, x ∈ active g -> x.1 < next_get g;
  g_distinct : NoDup (active g).*1;
  g_keys : forall k r, inFlightGet g !! k = Some r <-> (r, Some k) ∈ active g }.

Lemma distinct_fst (l : list (nat * option jsstr)) x y : NoDup l.*1 -> x ∈ l -> y ∈ l -> x.1 = y.1 -> x = y.
Proof.
  intros Hn (i & Hi)%list_elem_of_lookup (j & Hj)%list_elem_of_lookup E.
  assert (i = j) as <-; [|congruence]. eapply (NoDup_lookup l.*1); [done|..]; rewrite list_lookup_fmap.
  - by rewrite Hi.
  - by rewrite Hj, E.
Qed.
Lemma start_inv key g : get_inv g -> match key with Some k => inFlightGet g !! k = None | None => True end ->
  get_inv (start_get key g).2.
Proof.
  intros [I1 I2 I3] Hk. split; simpl.
  - intros x [->|Hx]%elem_of_cons; simpl; [lia|]. specialize (I1 x Hx). lia.
  - apply NoDup_cons. split; [|done]. intros (x & E & Hx)%list_elem_of_fmap. specialize (I1 x Hx). rewrite <-E in I1. lia.
  - intros k r. rewrite elem_of_cons. destruct key as [k0|].
    + destruct (decide (k0 = k)) as [->|Hne].
      * rewrite lookup_insert_eq. split; [intros [= <-]; by left|]. intros [E|Hin%I3]; [by simplify_eq|congruence].
      * rewrite lookup_insert_ne by done. rewrite I3. naive_solver.
    + rewrite I3. naive_solver.
Qed.
Lemma settle_inv r g : get_inv g -> get_inv (settle_get r g).
Proof.
  intros Hi. unfold settle_get. destruct (List.find _ _) as [[r' key]|] eqn:E; [|done].
  apply List.find_some in E as [Hin%list_elem_of_In Er%Nat.eqb_eq]. simpl in Er. subst r'.
  destruct Hi as [I1 I2 I3]. split; simpl.
  - intros x [Hx _]%elem_of_bfilter. by apply I1.
  - clear -I2. induction (active g) as [|x l IH]; simpl; [constructor|]. apply NoDup_cons in I2 as [Hx Hl].
    case_match; simpl; [|by apply IH]. apply NoDup_cons. split; [|by apply IH].
    intros (y & Ey & [Hy _]%elem_of_bfilter)%list_elem_of_fmap. apply Hx. apply list_elem_of_fmap. by exists y.
  - intros k r'. rewrite elem_of_bfilter, negb_true_iff, Nat.eqb_neq. simpl.
    assert (Hu : (r, Some k) ∈ active g -> key = Some k).
    { intros Hk. by injection (distinct_fst _ _ _ I2 Hin Hk eq_refl). }
    destruct key as [k0|].
    + destruct (decide (k0 = k)) as [->|Hne].
      * rewrite lookup_delete_eq. split; [done|]. intros [Hk Hr]. apply I3 in Hk. apply I3 in Hin. congruence.
      * rewrite lookup_delete_ne by done. rewrite I3. split; [|tauto]. intros Hk. split; [done|].
        intros ->. apply Hu in Hk. congruence.
    + rewrite I3. split; [|tauto]. intros Hk. split; [done|]. intros ->. by apply Hu in Hk.
Qed.

(** C7: identical GET requests are shared, and only while they are on the way:
    after any sequence of calls and answers the table lists exactly the shared
    requests on the way, and no two of them have the same key; so a call joins
    a request exactly when one with its key is on the way. *)
Theorem gets_shared_exactly g :
  rtc get_step no_gets g ->
  (forall k r, inFlightGet g !! k = Some r <-> (r, Some k) ∈ active g) /\
  (forall k r r', (r, Some k) ∈ active g -> (r', Some k) ∈ active g -> r = r').
Proof.
  intros Hr. assert (Hi : get_inv g).
  { assert (H0 : get_inv no_gets) by (split; simpl; [by intros x Hx%elem_of_nil|constructor|];
      intros k r; rewrite lookup_empty, elem_of_nil; done).
    revert H0. induction Hr as [|g1 g2 g3 Hs _ IH]; [done|]. intros H1. apply IH. destruct Hs; [|by apply settle_inv].
    unfold get. destruct dup; [by apply start_inv|]. destruct (inFlightGet g !! _) eqn:E; [done|]. by apply start_inv. }
  split; [apply Hi|]. intros k r r' H1%(g_keys _ Hi) H2%(g_keys _ Hi). congruence.
Qed.
Lemma gets_shared_exactly_witness :
  let g := (get (Some ("s1" : jsstr)) "/api/user/self" None false (get (Some ("s1" : jsstr)) "/api/user/self" None false no_gets).2).2 in
  (forall k r, inFlightGet g !! k = Some r <-> (r, Some k) ∈ active g) /\
  (forall k r r', (r, Some k) ∈ active g -> (r', Some k) ∈ active g -> r = r').
Proof.
  intros g. apply (gets_shared_exactly g). eapply rtc_l; [apply step_get|]. apply rtc_once, step_get.
Defined.

(** A request is never shared between sessions: keys of different session
    ids (which contain no colon) differ. *)
Theorem keys_separate_sessions s1 s2 url1 url2 p1 p2 :
  (58%N ∉ s1) -> (58%N ∉ s2) -> s1 <> [] -> s2 <> [] ->
  get_key (Some s1) url1 p1 = get_key (Some s2) url2 p2 -> s1 = s2.
Proof.
  intros H1 H2 N1 N2. unfold get_key, str_or. simpl default.
  rewrite (proj2 (truthy_true _) N1), (proj2 (truthy_true _) N2). intros E.
  assert (Es : split_char 58 (s1 ++ 58%N :: url1 ++ "?" ++ match p1 with Some p => if json_truthy p1 then stringify p else "{}" | None => "{}" end)
             = split_char 58 (s2 ++ 58%N :: url2 ++ "?" ++ match p2 with Some p => if json_truthy p2 then stringify p else "{}" | None => "{}" end))
    by (f_equal; exact E).
  rewrite !split_char_app in Es by done. by injection Es.
Qed.
Lemma keys_separate_sessions_witness :
  get_key (Some ("a1" : jsstr)) "/api/user/self" None = get_key (Some ("a1" : jsstr)) "/api/user/self" (Some JNull) /\
  ("a1" : jsstr) = "a1".
Proof.
  split; [vm_compute; reflexivity|].
  apply (keys_separate_sessions "a1" "a1" "/api/user/self" "/api/user/self" None (Some JNull));
    [apply (proj1 (bool_decide_eq_true (_ ∉ _))); vm_compute; reflexivity
    |apply (proj1 (bool_decide_eq_true (_ ∉ _))); vm_compute; reflexivity
    |discriminate|discriminate|vm_compute; reflexivity].
Defined.

End SharedGet.
