(* ===== verification/BillingExpr.v ===== *)
(** Billing expressions (src/web/src/features/pricing/lib/billing-expr.ts): the
    registry of billing variables, the parser of tiered expressions, and the
    parser and printer of request rules (conditional multipliers), with the
    splitting and combining of an expression and its rules. *)
From S2P Require Import Prelude JsNumber Json Regex.

(** Code that may throw a SyntaxError (from JSON.parse). *)
Inductive exn A := Throws | Returns (x : A).
Arguments Throws {A}.
Arguments Returns {A} x.

Record BillingVar := {
  key : jsstr; field : option jsstr; tierField : option jsstr; var_label : jsstr; shortLabel : jsstr;
  side : jsstr; isBase : bool; isConditionOnly : bool; var_group : option jsstr }.

Record TierCondition := { cond_var : jsstr; op : jsstr; cond_value : jsnum }.
(** The prices of a tier are the fields named by the registry. *)
Record ParsedTier := { label : jsstr; conditions : list TierCondition; prices : obj jsnum }.

Inductive Source := param | header.
Inductive RequestCondition :=
| ParamHeaderCondition (source : Source) (path mode value : jsstr)
| TimeCondition (timeFunc timezone mode value rangeStart rangeEnd : jsstr).

Record RequestRuleGroup := {
  rule_conditions : list RequestCondition; multiplier : jsstr;
  conditionText : option jsstr; matched : option bool }.
Record RequestRuleTrace := { trace_cond : jsstr; trace_multiplier : jsnum; trace_matched : bool }.

Module BillingExpr.

(** ** Variable registry *)

Definition mk_var (k : jsstr) (f t : option jsstr) (l s sd : jsstr) (base cond : bool) (g : option jsstr) : BillingVar :=
  {| key := k; field := f; tierField := t; var_label := l; shortLabel := s; side := sd;
     isBase := base; isConditionOnly := cond; var_group := g |}.

Definition BILLING_VARS : list BillingVar := [
  mk_var "p" (Some ("inputPrice" : jsstr)) (Some ("input_unit_cost" : jsstr)) "Input price" "Input" "input" true false None;
  mk_var "c" (Some ("outputPrice" : jsstr)) (Some ("output_unit_cost" : jsstr)) "Completion price" "Output" "output" true false None;
  mk_var "len" None None "Input length" "Length" "condition" false true None;
  mk_var "cr" (Some ("cacheReadPrice" : jsstr)) (Some ("cache_read_unit_cost" : jsstr)) "Cache read price" "Cache Read" "input" false false (Some ("cache" : jsstr));
  mk_var "cc" (Some ("cacheCreatePrice" : jsstr)) (Some ("cache_create_unit_cost" : jsstr)) "Cache create price" "Cache Write" "input" false false (Some ("cache" : jsstr));
  mk_var "cc1h" (Some ("cacheCreate1hPrice" : jsstr)) (Some ("cache_create_1h_unit_cost" : jsstr)) "Cache create (1h) price" "Cache Write (1h)" "input" false false (Some ("cache" : jsstr));
  mk_var "img" (Some ("imagePrice" : jsstr)) (Some ("image_unit_cost" : jsstr)) "Image input price" "Image In" "input" false false (Some ("media" : jsstr));
  mk_var "img_o" (Some ("imageOutputPrice" : jsstr)) (Some ("image_output_unit_cost" : jsstr)) "Image output price" "Image Out" "output" false false (Some ("media" : jsstr));
  mk_var "ai" (Some ("audioInputPrice" : jsstr)) (Some ("audio_input_unit_cost" : jsstr)) "Audio input price" "Audio In" "input" false false (Some ("media" : jsstr));
  mk_var "ao" (Some ("audioOutputPrice" : jsstr)) (Some ("audio_output_unit_cost" : jsstr)) "Audio output price" "Audio Out" "output" false false (Some ("media" : jsstr))].

Definition BILLING_PRICING_VARS : list BillingVar :=
  List.filter (fun v => negb (isConditionOnly v)) BILLING_VARS.
Definition BILLING_CONDITION_VARS : list jsstr :=
  map key (List.filter (fun v => isBase v || isConditionOnly v) BILLING_VARS).
Definition BILLING_VAR_KEY_TO_FIELD : obj jsstr :=
  obj_of (map (fun v => (key v, default [] (field v))) BILLING_PRICING_VARS).
Definition BILLING_EXTRA_VARS : list BillingVar :=
  List.filter (fun v => negb (isBase v) && negb (isConditionOnly v)) BILLING_VARS.
Definition BILLING_CACHE_VAR_MAP : list (jsstr * jsstr) :=
  map (fun v => (default [] (tierField v), key v)) BILLING_EXTRA_VARS.

Definition spaces : re := RMany is_space.
(** [\b(p|c|cr|...)\s*\*\s*([\d.eE+-]+)] *)
Definition BILLING_VAR_REGEX : re :=
  RWordB ⋅ RGroup 1 (alts (map key BILLING_PRICING_VARS)) ⋅ spaces ⋅ RLit "*" ⋅ spaces
  ⋅ RGroup 2 (RSome num_char).

(** ** Request rule constants *)

Definition MATCH_EQ : jsstr := "eq".
Definition MATCH_CONTAINS : jsstr := "contains".
Definition MATCH_GT : jsstr := "gt".
Definition MATCH_GTE : jsstr := "gte".
Definition MATCH_LT : jsstr := "lt".
Definition MATCH_LTE : jsstr := "lte".
Definition MATCH_EXISTS : jsstr := "exists".
Definition MATCH_RANGE : jsstr := "range".
Definition TIME_FUNCS : list jsstr := ["hour"; "minute"; "weekday"; "month"; "day"].

(** [/^-?(?:\d+\.?\d*|\.\d+)(?:[eE][+-]?\d+)?$/] *)
Definition is_e (c : N) : bool := N.eqb c 101 || N.eqb c 69.
Definition is_sign (c : N) : bool := N.eqb c 43 || N.eqb c 45.
Definition NUMERIC_LITERAL_REGEX : re :=
  RBegin ⋅ ROpt (RLit "-")
  ⋅ ((RSome is_digit ⋅ ROpt (RLit ".") ⋅ RMany is_digit) ∣ (RLit "." ⋅ RSome is_digit))
  ⋅ ROpt (RCls is_e ⋅ ROpt (RCls is_sign) ⋅ RSome is_digit) ⋅ REnd.

(** ** Tier parser *)

(** A version prefix: v, digits, a colon, then the body. *)
Definition version_re : re :=
  RBegin ⋅ RLit "v" ⋅ RGroup 1 (RSome is_digit) ⋅ RLit ":" ⋅ RGroup 2 (RMany any) ⋅ REnd.
Definition stripExprVersion (exprStr : jsstr) : jsnum * jsstr :=
  if negb (truthy exprStr) then (num 1, [])
  else match exec version_re exprStr with
       | Some m => (to_number (group 1 m), group 2 m)
       | None => (num 1, exprStr)
       end.

Definition parseTierBody (bodyStr : jsstr) : obj jsnum :=
  let coeffs := fold_left (fun cs m =>
    match obj_get (group 1 m) cs with
    | None => obj_set (group 1 m) (to_number (group 2 m)) cs
    | Some _ => cs
    end) (match_all BILLING_VAR_REGEX bodyStr) [] in
  fold_left (fun tier kf =>
    obj_set kf.2 (match obj_get kf.1 coeffs with
                  | Some n => if num_truthy n then n else num 0
                  | None => num 0
                  end) tier) BILLING_VAR_KEY_TO_FIELD [].

Definition cond_var_re : re := alts ["p"; "c"; "len"].
Definition cond_op_re : re := alts ["<"; "<="; ">"; ">="].
Definition one_cond : re := cond_var_re ⋅ spaces ⋅ cond_op_re ⋅ spaces ⋅ RSome num_char_nm.
Definition tierRe : re :=
  ROpt (RGroup 1 (one_cond ⋅ RStar (spaces ⋅ RLit "&&" ⋅ spaces ⋅ one_cond))
        ⋅ spaces ⋅ RLit "?" ⋅ spaces)
  ⋅ RLit "tier(`" ⋅ RGroup 2 (RMany not_quote) ⋅ RLit "`," ⋅ spaces
  ⋅ RGroup 3 (RSome (not_unit rparen)) ⋅ RLit ")".
Definition cond_re : re :=
  RBegin ⋅ RGroup 1 cond_var_re ⋅ spaces ⋅ RGroup 2 cond_op_re ⋅ spaces
  ⋅ RGroup 3 (RSome num_char_nm) ⋅ REnd.

(** Splitting at [&&] with the white space around it. *)
Fixpoint split_and_re (fuel : nat) (cur : jsstr) (b : option N) (s : jsstr) : list jsstr :=
  match fuel with
  | O => [reverse cur ++ s]
  | S f =>
      match match_at (spaces ⋅ RLit "&&" ⋅ spaces) b s with
      | Some m => reverse cur :: split_and_re f [] (before m) (rest m)
      | None => match s with
                | c :: t => split_and_re f (c :: cur) (Some c) t
                | [] => [reverse cur]
                end
      end
  end.

Definition parse_tier_conditions (condStr : jsstr) : list TierCondition :=
  if negb (truthy condStr) then []
  else omap (fun cp =>
         match exec cond_re (trim cp) with
         | Some m => Some {| cond_var := group 1 m; op := group 2 m; cond_value := to_number (group 3 m) |}
         | None => None
         end) (split_and_re (S (length condStr)) [] None condStr).

Definition parseTiersFromExpr (exprStr : jsstr) : list ParsedTier :=
  if negb (truthy exprStr) then []
  else let '(_, body) := stripExprVersion exprStr in
       map (fun m => {| label := group 2 m; conditions := parse_tier_conditions (group 1 m);
                        prices := parseTierBody (group 3 m) |}) (match_all tierRe body).

(** ** Request rule parser *)

(** splitTopLevelMultiply and splitTopLevelAnd differ in their separator only.
    [skip] units of a separator are still to be passed over; [cur] is the part
    read so far, backwards. *)
Definition depth_of (c : N) (depth : Z) : Z :=
  let depth := if N.eqb c lparen then (depth + 1)%Z else depth in
  if N.eqb c rparen then (depth - 1)%Z else depth.
Fixpoint split_top (sep : jsstr) (skip : nat) (depth : Z) (cur s : jsstr) : list jsstr :=
  match s with
  | [] => [trim (reverse cur)]
  | c :: t =>
      match skip with
      | S k => split_top sep k depth cur t
      | O =>
          let depth := depth_of c depth in
          if Z.eqb depth 0 && starts_with sep s
          then trim (reverse cur) :: split_top sep (length sep - 1) depth [] t
          else split_top sep 0 depth (c :: cur) t
      end
  end.
Definition splitTopLevelMultiply (expr : jsstr) : list jsstr :=
  filter_truthy (split_top " * " 0 0 [] expr).
Definition splitTopLevelAnd (expr : jsstr) : list jsstr :=
  filter_truthy (split_top " && " 0 0 [] expr).

(** The value JSON.parse returns need not be a string. *)
Definition parseExprLiteral (raw : jsstr) : option json :=
  let text := trim raw in
  if str_eqb text "true" || str_eqb text "false" then Some (JStr text)
  else if test NUMERIC_LITERAL_REGEX text then Some (JStr text)
  else match parse text with Some JNull | None => None | Some v => Some v end.

Definition quoted_path (i : nat) : re := RGroup i (RSome not_quote).
Definition time_fn (tail : re) : re :=
  RGroup 1 (alts TIME_FUNCS) ⋅ RLit "(`" ⋅ quoted_path 2 ⋅ RLit "`)" ⋅ tail.
Definition range_body (tail : re) : re :=
  time_fn (RLit " >= " ⋅ RGroup 3 (RSome num_char) ⋅ RLit " || " ⋅ RBack 1 ⋅ RLit "(`" ⋅ RBack 2
           ⋅ RLit "`) < " ⋅ RGroup 4 (RSome num_char) ⋅ tail).
Definition range_re : re := RBegin ⋅ range_body REnd.
Definition range_paren_re : re := RBegin ⋅ RLit "(" ⋅ range_body (RLit ")" ⋅ REnd).
Definition time_re : re :=
  RBegin ⋅ time_fn (RLit " " ⋅ RGroup 3 (alts ["=="; ">="; "<"]) ⋅ RLit " "
                    ⋅ RGroup 4 (RSome num_char) ⋅ REnd).

Definition range_of (m : pos) : RequestCondition :=
  TimeCondition (group 1 m) (group 2 m) MATCH_RANGE [] (group 3 m) (group 4 m).
Definition time_mode (o : jsstr) : jsstr :=
  if str_eqb o "==" then MATCH_EQ else if str_eqb o ">=" then MATCH_GTE
  else if str_eqb o "<" then MATCH_LT else MATCH_EQ.

Definition tryParseTimeCondition (expr : jsstr) : option RequestCondition :=
  match exec range_re expr with
  | Some m => Some (range_of m)
  | None =>
      match exec range_paren_re expr with
      | Some m => Some (range_of m)
      | None =>
          match exec time_re expr with
          | Some m => Some (TimeCondition (group 1 m) (group 2 m) (time_mode (group 3 m)) (group 4 m) [] [])
          | None => None
          end
      end
  end.

Definition header_exists_re : re := RBegin ⋅ RLit "header(`" ⋅ quoted_path 1 ⋅ RLit "`) != ``" ⋅ REnd.
Definition param_exists_re : re := RBegin ⋅ RLit "param(`" ⋅ quoted_path 1 ⋅ RLit "`) != nil" ⋅ REnd.
(** A JSON-like string literal: plain units or a backslash and any unit. *)
Definition string_literal : re :=
  RLit "`" ⋅ RStar (RCls (fun c => negb (N.eqb c dquote) && negb (N.eqb c backslash)) ∣ (RLit [backslash] ⋅ RCls dot))
  ⋅ RLit "`".
Definition header_contains_re : re :=
  RBegin ⋅ RLit "has(header(`" ⋅ quoted_path 1 ⋅ RLit "`), " ⋅ RGroup 2 string_literal ⋅ RLit ")" ⋅ REnd.
Definition param_contains_re : re :=
  RBegin ⋅ RLit "param(`" ⋅ quoted_path 1 ⋅ RLit "`) != nil && has(param(`" ⋅ quoted_path 2 ⋅ RLit "`), "
  ⋅ RGroup 3 string_literal ⋅ RLit ")" ⋅ REnd.
Definition param_compare_re : re :=
  RBegin ⋅ RLit "param(`" ⋅ quoted_path 1 ⋅ RLit "`) != nil && param(`" ⋅ quoted_path 2 ⋅ RLit "`) "
  ⋅ RGroup 3 (alts [">"; ">="; "<"; "<="]) ⋅ RLit " " ⋅ RGroup 4 (RSome num_char) ⋅ REnd.
Definition equals_re : re :=
  RBegin ⋅ RGroup 1 (alts ["param"; "header"]) ⋅ RLit "(`" ⋅ quoted_path 2 ⋅ RLit "`) == "
  ⋅ RGroup 3 (RSome dot) ⋅ REnd.

Definition compare_mode (o : jsstr) : jsstr :=
  if str_eqb o ">" then MATCH_GT else if str_eqb o ">=" then MATCH_GTE
  else if str_eqb o "<" then MATCH_LT else MATCH_LTE.
Definition source_of (s : jsstr) : Source := if str_eqb s "header" then header else param.

Definition tryParseRequestCondition (expr : jsstr) : exn (option RequestCondition) :=
  match tryParseTimeCondition expr with
  | Some tc => Returns (Some tc)
  | None =>
  match exec header_exists_re expr with
  | Some m => Returns (Some (ParamHeaderCondition header (group 1 m) MATCH_EXISTS []))
  | None =>
  match exec param_exists_re expr with
  | Some m => Returns (Some (ParamHeaderCondition param (group 1 m) MATCH_EXISTS []))
  | None =>
  match exec header_contains_re expr with
  | Some m =>
      match parse (group 2 m) with
      | Some v => Returns (Some (ParamHeaderCondition header (group 1 m) MATCH_CONTAINS (json_to_string v)))
      | None => Throws
      end
  | None =>
  let rest_cases (_ : unit) :=
    match exec equals_re expr with
    | Some m =>
        match parseExprLiteral (group 3 m) with
        | None => Returns None
        | Some v => Returns (Some (ParamHeaderCondition (source_of (group 1 m)) (group 2 m) MATCH_EQ (json_to_string v)))
        end
    | None => Returns None
    end in
  let compare_case (_ : unit) :=
    match exec param_compare_re expr with
    | Some m =>
        if str_eqb (group 1 m) (group 2 m)
        then Returns (Some (ParamHeaderCondition param (group 1 m) (compare_mode (group 3 m)) (group 4 m)))
        else rest_cases tt
    | None => rest_cases tt
    end in
  match exec param_contains_re expr with
  | Some m =>
      if str_eqb (group 1 m) (group 2 m) then
        match parse (group 3 m) with
        | Some v => Returns (Some (ParamHeaderCondition param (group 1 m) MATCH_CONTAINS (json_to_string v)))
        | None => Throws
        end
      else compare_case tt
  | None => compare_case tt
  end end end end end.

(** The loop over the parts: the first failure decides. *)
Fixpoint collect {A} (f : jsstr -> exn (option A)) (parts : list jsstr) : exn (option (list A)) :=
  match parts with
  | [] => Returns (Some [])
  | p :: t =>
      match f p with
      | Throws => Throws
      | Returns None => Returns None
      | Returns (Some x) =>
          match collect f t with
          | Returns (Some l) => Returns (Some (x :: l))
          | r => r
          end
      end
  end.

Definition tryParseRequestConditions (conditionStr : jsstr) : exn (option (list RequestCondition)) :=
  match collect (fun part => tryParseRequestCondition (trim part)) (splitTopLevelAnd conditionStr) with
  | Returns (Some []) => Returns None
  | r => r
  end.

(** [/^\((.+) \? ([\d.eE+-]+) : 1\)$/s] *)
Definition factor_re : re :=
  RBegin ⋅ RLit "(" ⋅ RGroup 1 (RSome any) ⋅ RLit " ? " ⋅ RGroup 2 (RSome num_char) ⋅ RLit " : 1)" ⋅ REnd.

Definition tryParseRuleGroupFactor (part : jsstr) : exn (option RequestRuleGroup) :=
  match exec factor_re part with
  | None => Returns None
  | Some m =>
      match tryParseRequestConditions (group 1 m) with
      | Throws => Throws
      | Returns None => Returns None
      | Returns (Some cs) =>
          Returns (Some {| rule_conditions := cs; multiplier := group 2 m; conditionText := None; matched := None |})
      end
  end.

Fixpoint requestRuleGroupsFromTrace (requestRules : list RequestRuleTrace) : exn (list RequestRuleGroup) :=
  match requestRules with
  | [] => Returns []
  | rule :: t =>
      let text := trim (trace_cond rule) in
      match tryParseRequestConditions text with
      | Throws => Throws
      | Returns cs =>
          match requestRuleGroupsFromTrace t with
          | Throws => Throws
          | Returns l =>
              Returns ({| rule_conditions := default [] cs;
                          multiplier := num_to_string (trace_multiplier rule);
                          conditionText := Some text; matched := Some (trace_matched rule) |} :: l)
          end
      end
  end.

Definition tryParseRequestRuleExpr (expr : jsstr) : exn (option (list RequestRuleGroup)) :=
  let trimmed := trim expr in
  if negb (truthy trimmed) then Returns (Some [])
  else collect tryParseRuleGroupFactor (splitTopLevelMultiply trimmed).

(** ** Combine and split *)

Fixpoint outer_loop (depth : Z) (s : jsstr) : bool :=
  match s with
  | [] => Z.eqb depth 0
  | c :: t =>
      let depth := depth_of c depth in
      if Z.eqb depth 0 && truthy t then false else outer_loop depth t
  end.
Definition hasFullOuterParens (expr : jsstr) : bool :=
  starts_with "(" expr && ends_with ")" expr && outer_loop 0 expr.

Fixpoint unwrap (fuel : nat) (current : jsstr) : jsstr :=
  match fuel with
  | O => current
  | S f => if hasFullOuterParens current then unwrap f (trim (slice 1 (length current - 1) current))
           else current
  end.
(** Every unwrapping removes a unit, so the length bounds their number. *)
Definition unwrapOuterParens (expr : jsstr) : jsstr := unwrap (length expr) (trim expr).

(** The classification of the parts of a product. *)
Fixpoint classify (parts : list jsstr) : exn (list jsstr * list jsstr) :=
  match parts with
  | [] => Returns ([], [])
  | p :: t =>
      match tryParseRequestRuleExpr p with
      | Throws => Throws
      | Returns parsed =>
          match classify t with
          | Throws => Throws
          | Returns (rules, bases) =>
              match parsed with
              | Some (_ :: _) => Returns (p :: rules, bases)
              | _ => Returns (rules, p :: bases)
              end
          end
      end
  end.

Definition splitBillingExprAndRequestRules (expr : jsstr) : exn (jsstr * jsstr) :=
  let trimmed := trim expr in
  if negb (truthy trimmed) then Returns ([], [])
  else
    let parts := splitTopLevelMultiply trimmed in
    if Nat.leb (length parts) 1 then Returns (trimmed, [])
    else match classify parts with
         | Throws => Throws
         | Returns (ruleParts, baseParts) =>
             match ruleParts, baseParts with
             | _ :: _, [b] => Returns (unwrapOuterParens b, join " * " ruleParts)
             | _, _ => Returns (trimmed, [])
             end
         end.

Definition combineBillingExpr (baseExpr requestRuleExpr : jsstr) : jsstr :=
  let base := trim baseExpr in
  let rules := trim requestRuleExpr in
  if negb (truthy base) then []
  else if negb (truthy rules) then base
  else "(" ++ base ++ ") * " ++ rules.

(** ** Editor *)

Definition createEmptyCondition : RequestCondition := ParamHeaderCondition param [] MATCH_EQ [].
Definition createEmptyTimeCondition : RequestCondition :=
  TimeCondition "hour" "Asia/Shanghai" MATCH_GTE [] [] [].
Definition createEmptyRuleGroup : RequestRuleGroup :=
  {| rule_conditions := [createEmptyCondition]; multiplier := []; conditionText := None; matched := None |}.
Definition createEmptyTimeRuleGroup : RequestRuleGroup :=
  {| rule_conditions := [createEmptyTimeCondition]; multiplier := []; conditionText := None; matched := None |}.

Definition getRequestRuleMatchOptions (source : jsstr) : list (jsstr * jsstr) :=
  if str_eqb source "time" then
    [(MATCH_EQ, "Equals" : jsstr); (MATCH_GTE, "Greater than or equal" : jsstr);
     (MATCH_LT, "Less than" : jsstr); (MATCH_RANGE, "Overnight range" : jsstr)]
  else
    let base := [(MATCH_EQ, "Equals" : jsstr); (MATCH_CONTAINS, "Contains" : jsstr);
                 (MATCH_EXISTS, "Exists" : jsstr)] in
    if str_eqb source "header" then base
    else base ++ [(MATCH_GT, "Greater than" : jsstr); (MATCH_GTE, "Greater than or equal" : jsstr);
                  (MATCH_LT, "Less than" : jsstr); (MATCH_LTE, "Less than or equal" : jsstr)].

(** A partial condition: any field may be missing. *)
Record PartialCondition := {
  p_source : option jsstr; p_path : option jsstr; p_mode : option jsstr; p_value : option jsstr;
  p_timeFunc : option jsstr; p_timezone : option jsstr;
  p_rangeStart : option jsstr; p_rangeEnd : option jsstr }.

Definition isTimeFunc (v : option jsstr) : bool :=
  match v with Some f => has f TIME_FUNCS | None => false end.
Definition mode_or (source : jsstr) (mode : option jsstr) (fallback : jsstr) : jsstr :=
  match mode with
  | Some m => if existsb (fun item => str_eqb item.1 m) (getRequestRuleMatchOptions source) then m
              else fallback
  | None => fallback
  end.

Definition normalizeCondition (cond : PartialCondition) : RequestCondition :=
  if bool_decide (p_source cond = Some ("time" : jsstr)) then
    TimeCondition (if isTimeFunc (p_timeFunc cond) then default [] (p_timeFunc cond) else "hour")
      (str_or (default [] (p_timezone cond)) "Asia/Shanghai")
      (mode_or "time" (p_mode cond) MATCH_GTE)
      (default [] (p_value cond)) (default [] (p_rangeStart cond)) (default [] (p_rangeEnd cond))
  else
    let isHeader := bool_decide (p_source cond = Some ("header" : jsstr)) in
    ParamHeaderCondition (if isHeader then header else param)
      (default [] (p_path cond))
      (mode_or (if isHeader then "header" else "param") (p_mode cond) MATCH_EQ)
      (default [] (p_value cond)).

Definition source_str (s : Source) : jsstr := match s with param => "param" | header => "header" end.
(** A full condition as a partial one. *)
Definition partial (c : RequestCondition) : PartialCondition :=
  match c with
  | ParamHeaderCondition s p m v =>
      {| p_source := Some (source_str s); p_path := Some p; p_mode := Some m; p_value := Some v;
         p_timeFunc := None; p_timezone := None; p_rangeStart := None; p_rangeEnd := None |}
  | TimeCondition f tz m v a b =>
      {| p_source := Some ("time" : jsstr); p_path := None; p_mode := Some m; p_value := Some v;
         p_timeFunc := Some f; p_timezone := Some tz; p_rangeStart := Some a; p_rangeEnd := Some b |}
  end.

Definition buildExprLiteral (mode value : jsstr) : jsstr :=
  let text := trim value in
  if str_eqb mode MATCH_CONTAINS then quote text
  else if str_eqb text "true" || str_eqb text "false" then text
  else if test NUMERIC_LITERAL_REGEX text then text
  else quote text.

Definition time_op (mode : jsstr) : jsstr :=
  if str_eqb mode MATCH_EQ then "==" else if str_eqb mode MATCH_GTE then ">="
  else if str_eqb mode MATCH_LT then "<" else "==".

Definition build_time (timeFunc timezone mode value rangeStart rangeEnd : jsstr) : jsstr :=
  let fn := timeFunc ++ "(" ++ quote timezone ++ ")" in
  if str_eqb mode MATCH_RANGE then
    let s := trim rangeStart in
    let e := trim rangeEnd in
    if negb (test NUMERIC_LITERAL_REGEX s) || negb (test NUMERIC_LITERAL_REGEX e) then []
    else fn ++ " >= " ++ s ++ " || " ++ fn ++ " < " ++ e
  else
    let v := trim value in
    if negb (test NUMERIC_LITERAL_REGEX v) then []
    else fn ++ " " ++ time_op mode ++ " " ++ v.

Definition build_param_header (source : Source) (path mode value : jsstr) : jsstr :=
  let path := trim path in
  if negb (truthy path) then []
  else
    let sourceExpr := source_str source ++ "(" ++ quote path ++ ")" in
    if str_eqb mode MATCH_EXISTS then
      match source with header => sourceExpr ++ " != ``" | param => sourceExpr ++ " != nil" end
    else if str_eqb mode MATCH_CONTAINS then
      match source with
      | header => "has(" ++ sourceExpr ++ ", " ++ buildExprLiteral mode value ++ ")"
      | param => sourceExpr ++ " != nil && has(" ++ sourceExpr ++ ", " ++ buildExprLiteral mode value ++ ")"
      end
    else if str_eqb mode MATCH_GT || str_eqb mode MATCH_GTE || str_eqb mode MATCH_LT || str_eqb mode MATCH_LTE then
      let o : jsstr := if str_eqb mode MATCH_GT then ">" else if str_eqb mode MATCH_GTE then ">="
                       else if str_eqb mode MATCH_LT then "<" else "<=" in
      let numText := trim value in
      if negb (test NUMERIC_LITERAL_REGEX numText) then []
      else sourceExpr ++ " != nil && " ++ sourceExpr ++ " " ++ o ++ " " ++ numText
    else sourceExpr ++ " == " ++ buildExprLiteral mode value.

Definition buildRequestConditionExpr (cond : RequestCondition) : jsstr :=
  match normalizeCondition (partial cond) with
  | TimeCondition f tz m v a b => build_time f tz m v a b
  | ParamHeaderCondition s p m v => build_param_header s p m v
  end.

Definition buildRuleGroupFactor (group : RequestRuleGroup) : jsstr :=
  let multiplier := trim (multiplier group) in
  if negb (test NUMERIC_LITERAL_REGEX multiplier) then []
  else
    let condExprs := filter_truthy (map buildRequestConditionExpr (rule_conditions group)) in
    match condExprs with
    | [] => []
    | [e] => "(" ++ e ++ " ? " ++ multiplier ++ " : 1)"
    | _ =>
        "(" ++ join " && " (map (fun e => if includes " || " e then "(" ++ e ++ ")" else e) condExprs)
        ++ " ? " ++ multiplier ++ " : 1)"
    end.

Definition buildRequestRuleExpr (groups : list RequestRuleGroup) : jsstr :=
  join " * " (filter_truthy (map buildRuleGroupFactor groups)).

End BillingExpr.
