(* ===== verification/BillingRules.v ===== *)
(** Correctness of the request rules of
    src/web/src/features/pricing/lib/billing-expr.ts: what the editor prints
    is what the parser reads back, and splitting undoes combining. *)
From S2P Require Import Prelude JsNumber Json Regex BillingExpr.
Import BillingExpr.

Module BillingRules.

(** * Cutting text at the top level *)

(** ** Substrings and cuts *)

Lemma includes_cut sep a d b :
  sep <> [] -> d ∉ sep -> includes sep (a ++ d :: b) = includes sep a || includes sep b.
Proof.
  intros Hne Hd. apply eq_true_iff_eq. rewrite orb_true_iff, !includes_spec. split.
  - intros (x & y & E). apply app_eq_inv in E as [(k & -> & E)|(k & -> & E)].
    + apply app_eq_inv in E as [(k' & Ek & E)|(k' & -> & E)].
      * destruct k' as [|e k']; simplify_eq/=.
        -- left. exists x, []. by rewrite !app_nil_r.
        -- exfalso. apply Hd. rewrite elem_of_app. right. by left.
      * left. by exists x, k'.
    + destruct k as [|e k]; simplify_eq/=; [|right; by eexists _, _].
      destruct sep as [|s0 sep]; [done|]. simplify_eq/=. exfalso. apply Hd. by left.
  - intros [(x & y & ->)|(x & y & ->)].
    + exists x, (y ++ d :: b). by rewrite <-!(assoc_L (++)).
    + exists (a ++ d :: x), y. by rewrite <-!(assoc_L (++)).
Qed.

Lemma starts_with_cut sep a d b :
  sep <> [] -> d ∉ sep -> includes sep a = false -> starts_with sep (a ++ d :: b) = false.
Proof.
  intros Hne Hd Ha. apply not_true_iff_false. intros (y & E)%starts_with_spec.
  apply app_eq_inv in E as [(k & -> & E)|(k & -> & E)].
  - apply includes_false in Ha. apply Ha. by exists [], k.
  - destruct k as [|e k]; simplify_eq/=.
    + apply includes_false in Ha. apply Ha. exists [], []. by rewrite !app_nil_r.
    + apply Hd. rewrite elem_of_app. right. by left.
Qed.

(** ** Balanced text *)

Definition paren (c : N) : bool := N.eqb c lparen || N.eqb c rparen.
Definition no_parens (s : jsstr) : Prop := Forall (fun c => paren c = false) s.

Inductive bal : jsstr -> Prop :=
| bal_nil : bal []
| bal_unit c s : paren c = false -> bal s -> bal (c :: s)
| bal_group a s : bal a -> bal s -> bal (lparen :: a ++ rparen :: s).

Lemma bal_app a b : bal a -> bal b -> bal (a ++ b).
Proof.
  induction 1 as [|c s Hc Hs IH|x s Hx IHx Hs IH]; intros Hb; simpl; [done|by constructor; auto|].
  rewrite <-(assoc_L (++)). simpl. apply bal_group; auto.
Qed.
Lemma bal_plain a : no_parens a -> bal a.
Proof. induction 1; constructor; done. Qed.
Lemma bal_paren a : bal a -> bal ("(" ++ a ++ ")").
Proof. intros Ha. simpl. apply bal_group; [done|constructor]. Qed.

Lemma depth_unit c d : paren c = false -> depth_of c d = d.
Proof. unfold paren, depth_of. intros H. js_reflect. by rewrite (proj2 (N.eqb_neq _ _) H), (proj2 (N.eqb_neq _ _) H0). Qed.

Lemma depth_open d : depth_of lparen d = (d + 1)%Z.
Proof. done. Qed.
Lemma depth_close d : depth_of rparen d = (d - 1)%Z.
Proof. done. Qed.

(** Inside parentheses balanced text is passed over. *)
Lemma split_top_bal sep a d cur b :
  bal a -> (0 < d)%Z -> split_top sep 0 d cur (a ++ b) = split_top sep 0 d (reverse a ++ cur) b.
Proof.
  intros Ha. revert d cur b. induction Ha as [|c s Hc Hs IH|x s Hx IHx Hs IH]; intros d cur b Hd.
  - done.
  - simpl. rewrite depth_unit by done. replace (Z.eqb d 0) with false by lia. simpl.
    rewrite IH, reverse_cons by done. by rewrite <-(assoc_L (++)).
  - cbn [app split_top]. rewrite !depth_open.
    replace (Z.eqb (d + 1) 0) with false by lia. cbn [andb].
    rewrite <-(assoc_L (++)). rewrite IHx by lia. cbn [app split_top]. rewrite !depth_close.
    replace (d + 1 - 1)%Z with d by lia. replace (Z.eqb d 0) with false by lia. cbn [andb].
    rewrite IH by lia. f_equal. rewrite !reverse_cons, reverse_app, reverse_cons. by rewrite <-!(assoc_L (++)).
Qed.

(** ** Text without a separator at its top level *)

Inductive solid (sep : jsstr) : jsstr -> Prop :=
| solid_nil : solid sep []
| solid_unit c s : paren c = false -> (forall b, starts_with sep (c :: s ++ b) = false) ->
    solid sep s -> solid sep (c :: s)
| solid_group a s : bal a -> solid sep s -> solid sep (lparen :: a ++ rparen :: s).

(** The separators of the code start with a space. *)
Definition separator (sep : jsstr) : Prop := exists t, sep = 32%N :: t /\ no_parens t.

Lemma split_top_solid sep a cur b :
  separator sep -> solid sep a ->
  split_top sep 0 0 cur (a ++ b) = split_top sep 0 0 (reverse a ++ cur) b.
Proof.
  intros (t & -> & Ht) Ha. revert cur b.
  induction Ha as [|c s Hc Hsep Hs IH|x s Hx Hs IH]; intros cur b.
  - done.
  - cbn [app split_top]. rewrite depth_unit, Hsep by done. rewrite andb_false_r.
    rewrite IH, reverse_cons. by rewrite <-(assoc_L (++)).
  - cbn [app split_top]. rewrite !depth_open. cbn [Z.add Z.eqb andb]. rewrite <-(assoc_L (++)). rewrite split_top_bal by (done || lia).
    cbn [app split_top]. rewrite !depth_close. rewrite starts_with_head_ne by done. rewrite andb_false_r. change (1 - 1)%Z with 0%Z. rewrite IH.
    f_equal. rewrite !reverse_cons, reverse_app, reverse_cons. by rewrite <-!(assoc_L (++)).
Qed.

Lemma split_top_skip sep l d s : split_top sep (length l) d [] (l ++ s) = split_top sep 0 d [] s.
Proof. induction l as [|c l IH]; [done|]. simpl. apply IH. Qed.

Lemma split_top_sep sep cur s :
  separator sep -> split_top sep 0 0 cur (sep ++ s) = trim (reverse cur) :: split_top sep 0 0 [] s.
Proof.
  intros (t & -> & Ht). cbn [app split_top]. change (depth_of 32 0) with 0%Z.
  change (32%N :: t ++ s) with ((32%N :: t) ++ s). rewrite starts_with_app. simpl.
  f_equal. rewrite Nat.sub_0_r. apply split_top_skip.
Qed.

(** Joining solid parts and splitting gives the parts back. *)
Lemma split_top_join sep l :
  separator sep -> l <> [] -> Forall (solid sep) l -> split_top sep 0 0 [] (join sep l) = map trim l.
Proof.
  intros Hsep Hne Hl. induction Hl as [|x l Hx Hl IH]; [done|]. destruct l as [|y l].
  - simpl. rewrite <-(app_nil_r x) at 1. rewrite split_top_solid by done. simpl.
    rewrite app_nil_r, reverse_involutive. done.
  - rewrite join_cons by done. rewrite split_top_solid by done. rewrite app_nil_r.
    rewrite split_top_sep, reverse_involutive by done. simpl map. f_equal. by apply IH.
Qed.

Lemma solid_text sep a d s :
  separator sep -> no_parens a -> d ∉ sep -> includes sep a = false ->
  solid sep (d :: s) -> solid sep (a ++ d :: s).
Proof.
  intros (t & Hsep & Ht) Ha Hd Hi Hs. induction Ha as [|c a Hc Ha IH]; [done|]. simpl.
  constructor; [done| |].
  - intros b. rewrite <-(assoc_L (++)). apply (starts_with_cut sep (c :: a)); [by subst|done..].
  - apply IH. apply includes_false. intros (x & y & ->). apply includes_false in Hi. apply Hi.
    by exists (c :: x), y.
Qed.

(** A unit other than a space never starts a separator. *)
Lemma solid_nonspace sep c s :
  separator sep -> paren c = false -> c <> 32%N -> solid sep s -> solid sep (c :: s).
Proof. intros (t & -> & Ht) Hc Hne Hs. constructor; [done| |done]. intros b. by apply starts_with_head_ne. Qed.

(** * Running the expressions of the parser *)

Section Steps.
Context {A : Type}.
Implicit Types k : pos -> option A.

Lemma run_lit_seq l rr k b s r cs :
  strip_prefix l s = Some r -> run (RLit l ⋅ rr) k (Pos b s cs) = run rr k (Pos (last_or b l) r cs).
Proof. intros H. cbn [run rest]. by rewrite H. Qed.
Lemma run_lit_seq_fail l rr k b s cs : strip_prefix l s = None -> run (RLit l ⋅ rr) k (Pos b s cs) = None.
Proof. intros H. cbn [run rest]. by rewrite H. Qed.
Lemma run_lit_end l k b cs : run (RLit l ⋅ REnd) k (Pos b l cs) = k (Pos (last_or b l) [] cs).
Proof.
  rewrite <-(app_nil_r l) at 2. rewrite (run_lit_seq _ _ _ _ _ []); [done|apply strip_prefix_app].
Qed.
Lemma run_end_fail k b c s cs : run REnd k (Pos b (c :: s) cs) = None.
Proof. done. Qed.

(** The path between two quotes. *)
Lemma run_path i l rr k b w t cs :
  w <> [] -> covers not_quote w ->
  run (quoted_path i ⋅ RLit (34%N :: l) ⋅ rr) k (Pos b (w ++ 34%N :: t) cs)
  = run (RLit (34%N :: l) ⋅ rr) k (Pos (last_or b w) (34%N :: t) ((i, w) :: cs)).
Proof.
  intros Hne Hw. unfold quoted_path.
  change (run (RGroup i (RSome not_quote) ⋅ ?r) k) with (run (RGroup i (RSome not_quote)) (run r k)).
  rewrite run_group_some_exact; [done..|]. intros b' c t' cs' Hc. apply run_lit_seq_fail. cbn [strip_prefix].
  unfold not_quote, not_unit in Hc. js_reflect. destruct (N.eqb_spec 34 c); congruence.
Qed.

(** A number that ends the text, or that is followed by a space. *)
Lemma run_number_end i k b w cs :
  w <> [] -> covers num_char w ->
  run (RGroup i (RSome num_char) ⋅ REnd) k (Pos b w cs) = k (Pos (last_or b w) [] ((i, w) :: cs)).
Proof.
  intros Hne Hw.
  change (run (RGroup i (RSome num_char) ⋅ ?r) k) with (run (RGroup i (RSome num_char)) (run r k)).
  rewrite <-(app_nil_r w) at 1. by rewrite run_group_some_exact.
Qed.
Lemma run_number i l rr k b w d t cs :
  w <> [] -> covers num_char w -> num_char d = false ->
  run (RGroup i (RSome num_char) ⋅ RLit (d :: l) ⋅ rr) k (Pos b (w ++ d :: t) cs)
  = run (RLit (d :: l) ⋅ rr) k (Pos (last_or b w) (d :: t) ((i, w) :: cs)).
Proof.
  intros Hne Hw Hd.
  change (run (RGroup i (RSome num_char) ⋅ ?r) k) with (run (RGroup i (RSome num_char)) (run r k)).
  rewrite run_group_some_exact; [done..|]. intros b' c t' cs' Hc. apply run_lit_seq_fail. cbn [strip_prefix].
  destruct (N.eqb_spec d c); congruence.
Qed.
Lemma run_number_fail i rr k b d t cs :
  num_char d = false -> run (RGroup i (RSome num_char) ⋅ rr) k (Pos b (d :: t) cs) = None.
Proof. intros Hd. simpl. by rewrite Hd. Qed.

(** A keyword out of a list. *)
Lemma run_alts_fail l k b s cs :
  Forall (fun g => strip_prefix g s = None) l -> run (alts l) k (Pos b s cs) = None.
Proof.
  induction 1 as [|g l Hg Hl IH]; [by destruct s|].
  destruct l as [|g' l]; [by simpl; rewrite Hg|]. simpl in *. rewrite Hg. exact IH.
Qed.
Lemma run_alts l k b f r cs :
  f ∈ l -> NoDup l -> Forall (fun g => g = f \/ strip_prefix g (f ++ r) = None) l ->
  run (alts l) k (Pos b (f ++ r) cs) = k (Pos (last_or b f) r cs).
Proof.
  intros Hf Hnd. revert Hf. induction Hnd as [|g l Hg Hnd IH]; intros Hf Hl; [by apply elem_of_nil in Hf|].
  inversion Hl as [|? ? Hg' Hl']; subst. apply elem_of_cons in Hf as [<-|Hf].
  - assert (Hrest : run (alts l) k (Pos b (f ++ r) cs) = None).
    { apply run_alts_fail. rewrite Forall_forall in *. intros x Hx. destruct (Hl' x Hx) as [->|]; done. }
    assert (Hhd : run (RLit f) k (Pos b (f ++ r) cs) = k (Pos (last_or b f) r cs)) by apply run_lit.
    destruct l as [|g' l]; [exact Hhd|].
    change (first_some (run (RLit f) k (Pos b (f ++ r) cs)) (fun _ => run (alts (g' :: l)) k (Pos b (f ++ r) cs))
            = k (Pos (last_or b f) r cs)).
    rewrite Hhd, Hrest. by destruct (k _).
  - assert (g <> f) by (by intros ->). destruct Hg' as [|Hg']; [done|].
    destruct l as [|g' l]; [by apply elem_of_nil in Hf|].
    change (first_some (run (RLit g) k (Pos b (f ++ r) cs)) (fun _ => run (alts (g' :: l)) k (Pos b (f ++ r) cs))
            = k (Pos (last_or b f) r cs)).
    rewrite run_lit_fail by (unfold starts_with; by rewrite Hg'). simpl first_some. by apply IH.
Qed.
Lemma run_group_alts i l rr k b f r cs :
  f ∈ l -> NoDup l -> Forall (fun g => g = f \/ strip_prefix g (f ++ r) = None) l ->
  run (RGroup i (alts l) ⋅ rr) k (Pos b (f ++ r) cs) = run rr k (Pos (last_or b f) r ((i, f) :: cs)).
Proof.
  intros Hf Hnd Hl.
  change (run (alts l) (fun y => run rr k (Pos (before y) (rest y)
       ((i, take (length (f ++ r) - length (rest y)) (f ++ r)) :: caps y))) (Pos b (f ++ r) cs)
    = run rr k (Pos (last_or b f) r ((i, f) :: cs))).
  rewrite run_alts by done. simpl. by rewrite take_app_sub.
Qed.
Lemma run_group_alts_fail i l rr k b s cs :
  Forall (fun g => strip_prefix g s = None) l -> run (RGroup i (alts l) ⋅ rr) k (Pos b s cs) = None.
Proof.
  intros Hl. change (run (alts l) (fun y => run rr k (Pos (before y) (rest y)
       ((i, take (length s - length (rest y)) s) :: caps y))) (Pos b s cs) = None).
  by apply run_alts_fail.
Qed.
Lemma run_back i rr k b w t cs :
  cap_get i cs = Some w -> run (RBack i ⋅ rr) k (Pos b (w ++ t) cs) = run rr k (Pos (last_or b w) t cs).
Proof. intros H. cbn [run caps rest]. rewrite H, strip_prefix_app. done. Qed.
End Steps.

(** * Clean text *)

(** Units that JSON.stringify leaves alone and that neither the parentheses
    nor the quotes of the syntax can be confused with. *)
Definition plain_unit (c : N) : bool :=
  (32 <=? c)%N && negb (N.eqb c dquote) && negb (N.eqb c backslash) && negb (paren c)
  && negb (is_lead c) && negb (is_trail c) && negb (is_line_terminator c).
Definition plain (s : jsstr) : Prop := Forall (fun c => plain_unit c = true) s.
(** Text as the editor keeps it. *)
Definition clean (s : jsstr) : Prop := plain s /\ trimmed s /\ includes " || " s = false.

Lemma plain_unit_spec c : plain_unit c = true ->
  not_quote c = true /\ paren c = false /\ dot c = true /\ c <> 34%N /\ c <> 92%N /\
  is_lead c = false /\ is_trail c = false /\ quote_unit c = [c].
Proof.
  unfold plain_unit, not_quote, not_unit, dot, dquote, backslash. intros H. js_reflect.
  assert (Hq : quote_unit c = [c]).
  { unfold quote_unit, short_escape. apply N.leb_le in H.
    repeat match goal with |- context [N.eqb c ?d] => destruct (N.eqb_spec c d); [lia|] end.
    by replace (c <? 32)%N with false by (symmetry; apply N.ltb_ge; lia). }
  split_and!; try done; apply negb_true_iff; try done. by apply N.eqb_neq.
Qed.
Lemma quote_plain s : plain s -> quote s = 34%N :: s ++ [34%N].
Proof.
  intros Hs. unfold quote. simpl. f_equal. f_equal. induction Hs as [|c s Hc Hs IH]; [done|].
  apply plain_unit_spec in Hc as (_ & _ & _ & _ & _ & Hl & Ht & Hq). cbn [quote_body].
  by rewrite Hl, Ht, Hq, IH.
Qed.
Lemma plain_covers s : plain s -> covers not_quote s.
Proof. intros H. eapply Forall_impl; [exact H|]. intros c Hc. by apply plain_unit_spec. Qed.
Lemma plain_no_parens s : plain s -> no_parens s.
Proof. intros H. eapply Forall_impl; [exact H|]. intros c Hc. by apply plain_unit_spec. Qed.

Definition numeric (s : jsstr) : Prop := test NUMERIC_LITERAL_REGEX s = true.

Lemma numeric_covers s : numeric s -> covers num_char s.
Proof.
  unfold numeric, NUMERIC_LITERAL_REGEX. intros H.
  set (body := ROpt (RLit "-") ⋅ ((RSome is_digit ⋅ ROpt (RLit ".") ⋅ RMany is_digit) ∣ (RLit "." ⋅ RSome is_digit))
    ⋅ ROpt (RCls is_e ⋅ ROpt (RCls is_sign) ⋅ RSome is_digit)) in *.
  apply (test_anchored_units num_char body).
  - assert (Hd : forall c, is_digit c = true -> num_char c = true).
    { intros c Hc. unfold num_char. by rewrite Hc. }
    unfold body, is_e, is_sign, num_char. simpl. split_and!; try done;
      try (repeat constructor); intros c Hc; js_reflect; destruct Hc as [Hc|Hc]; js_reflect; subst; done.
  - unfold test in *. rewrite exec_begin in *. exact H.
Qed.
Lemma numeric_nonempty s : numeric s -> s <> [].
Proof. by intros H ->. Qed.
Lemma num_char_spec c : num_char c = true ->
  is_space c = false /\ paren c = false /\ dot c = true /\ not_quote c = true /\ plain_unit c = true.
Proof.
  unfold num_char. intros H.
  assert (Hc : (43 <= c <= 57 \/ c = 101 \/ c = 69)%N).
  { unfold is_digit in H. rewrite !orb_true_iff, andb_true_iff, !N.leb_le, !N.eqb_eq in H. lia. }
  destruct Hc as [Hc | [-> | ->]]; [|vm_compute; done..].
  assert (Hn : exists n : nat, n < 15 /\ c = (43 + N.of_nat n)%N) by (exists (N.to_nat (c - 43)); lia).
  destruct Hn as (n & Hn & ->). do 15 (destruct n as [|n]; [vm_compute in H |- *; done|]). lia.
Qed.
Lemma numeric_trimmed s : numeric s -> trimmed s.
Proof.
  intros H. pose proof (numeric_covers s H) as Hs. unfold covers in Hs. split.
  - destruct Hs as [|c s Hc Hs]; [done|]. by apply num_char_spec.
  - destruct (last s) as [c|] eqn:E; [|done]. apply last_Some in E as [s' ->].
    apply Forall_app in Hs as [_ Hs]. inversion Hs; subst. by apply num_char_spec.
Qed.
Lemma numeric_plain s : numeric s -> plain s.
Proof. intros H%numeric_covers. eapply Forall_impl; [done|]. intros c Hc. by apply num_char_spec. Qed.

(** * Reading one condition back *)

Definition path_ok (p : jsstr) : Prop := p <> [] /\ plain p.

Section MoreSteps.
Context {A : Type}.
Implicit Types k : pos -> option A.

Lemma run_assoc a b c k x : run ((a ⋅ b) ⋅ c) k x = run (a ⋅ b ⋅ c) k x.
Proof. done. Qed.
Lemma run_number_stuck i c l rr k b w cs :
  w <> [] -> covers num_char w -> num_char c = false ->
  run (RGroup i (RSome num_char) ⋅ RLit (c :: l) ⋅ rr) k (Pos b w cs) = None.
Proof.
  intros Hne Hw Hc.
  change (run (RGroup i (RSome num_char) ⋅ ?r) k) with (run (RGroup i (RSome num_char)) (run r k)).
  rewrite <-(app_nil_r w). rewrite run_group_some_exact; [done..|].
  intros b' d t cs' Hd. apply run_lit_seq_fail. cbn [strip_prefix]. destruct (N.eqb_spec c d); congruence.
Qed.
Lemma run_dot_end i k b w cs :
  w <> [] -> covers dot w ->
  run (RGroup i (RSome dot) ⋅ REnd) k (Pos b w cs) = k (Pos (last_or b w) [] ((i, w) :: cs)).
Proof.
  intros Hne Hw.
  change (run (RGroup i (RSome dot) ⋅ ?r) k) with (run (RGroup i (RSome dot)) (run r k)).
  rewrite <-(app_nil_r w) at 1. by rewrite run_group_some_exact.
Qed.

(** The units of a string literal, up to the closing quote. *)
Definition literal_unit : re :=
  RCls (fun c => negb (N.eqb c dquote) && negb (N.eqb c backslash)) ∣ (RLit [backslash] ⋅ RCls dot).
Lemma star_literal n k b v t cs :
  plain v -> (forall b' c t', c <> 34%N -> k (Pos b' (c :: t') cs) = None) ->
  length v <= n -> exists b', star (run literal_unit) n k (Pos b (v ++ 34%N :: t) cs) = k (Pos b' (34%N :: t) cs).
Proof.
  intros Hv Hk. revert n b. induction Hv as [|c v Hc Hv IH]; intros n b Hn.
  - exists b. destruct n as [|n]; reflexivity.
  - destruct n as [|n]; [simpl in Hn; lia|]. destruct (IH n (Some c)) as [b' Hb']; [simpl in Hn; lia|].
    exists b'. rewrite <-Hb'. clear Hb' IH. apply plain_unit_spec in Hc as (_ & _ & _ & Hq & Hb & _).
    cbn [app star]. unfold literal_unit at 1. cbn [run rest before caps strip_prefix].
    rewrite (proj2 (N.eqb_neq c dquote) Hq), (proj2 (N.eqb_neq c backslash) Hb).
    rewrite (proj2 (N.eqb_neq backslash c) (not_eq_sym Hb)). cbn [negb andb].
    replace (Nat.ltb _ _) with true by (symmetry; apply Nat.ltb_lt; simpl; lia).
    rewrite Hk by done. by destruct (star _ n k _).
Qed.
Lemma run_string_literal k b v t cs :
  plain v -> exists b', run string_literal k (Pos b (34%N :: v ++ 34%N :: t) cs) = k (Pos b' t cs).
Proof.
  intros Hv.
  change (run string_literal k (Pos b (34%N :: v ++ 34%N :: t) cs)) with
    (star (run literal_unit) (length (v ++ 34%N :: t)) (run (RLit "`") k) (Pos (Some 34%N) (v ++ 34%N :: t) cs)).
  destruct (star_literal (length (v ++ 34%N :: t)) (run (RLit "`") k) (Some 34%N) v t cs) as [b' ->].
  - done.
  - intros b' c t' Hc. apply run_lit_head_ne. congruence.
  - rewrite length_app. lia.
  - by eexists.
Qed.
Lemma run_group_string i rr k b v t cs :
  plain v -> exists b', run (RGroup i string_literal ⋅ rr) k (Pos b (34%N :: v ++ 34%N :: t) cs)
    = run rr k (Pos b' t ((i, quote v) :: cs)).
Proof.
  intros Hv.
  destruct (run_string_literal (fun y => run rr k (Pos (before y) (rest y)
      ((i, take (length (34%N :: v ++ 34%N :: t) - length (rest y)) (34%N :: v ++ 34%N :: t)) :: caps y))) b v t cs Hv)
    as [b' Hb'].
  exists b'. etransitivity; [exact Hb'|]. simpl. rewrite quote_plain by done.
  replace (34%N :: v ++ 34%N :: t) with ((34%N :: v ++ [34%N]) ++ t) by (simpl; by rewrite <-(assoc_L (++))).
  replace (S (length (v ++ 34%N :: t))) with (length ((34%N :: v ++ [34%N]) ++ t))
    by (simpl; rewrite !length_app; simpl; lia).
  by rewrite take_app_sub.
Qed.
End MoreSteps.

(** Drive the matcher over text whose fixed parts are literals. *)
Ltac re_run :=
  cbn [app]; rewrite <- ?app_assoc; cbn [app]; rewrite ?exec_begin;
  repeat first
    [ rewrite run_assoc
    | rewrite run_path by (done || by apply plain_covers)
    | rewrite run_number_end by (by apply numeric_nonempty || by apply numeric_covers)
    | rewrite run_number_stuck by (by apply numeric_nonempty || by apply numeric_covers || done)
    | rewrite run_number by (by apply numeric_nonempty || by apply numeric_covers || done)
    | rewrite run_number_fail by done
    | rewrite run_end_fail
    | rewrite run_lit_end
    | rewrite run_lit_seq_fail by reflexivity
    | rewrite run_group_alts_fail by (repeat constructor)
    | erewrite run_lit_seq by reflexivity ].
Ltac not_a_time :=
  replace (tryParseTimeCondition _) with (@None RequestCondition)
    by (unfold tryParseTimeCondition, range_re, range_paren_re, time_re; rewrite !exec_begin; reflexivity).

Lemma parse_header_exists p : path_ok p ->
  tryParseRequestCondition ("header(`" ++ p ++ "`) != ``")
  = Returns (Some (ParamHeaderCondition header p MATCH_EXISTS [])).
Proof.
  intros [Hne Hp]. unfold tryParseRequestCondition. not_a_time.
  unfold header_exists_re. by re_run.
Qed.
Lemma parse_param_exists p : path_ok p ->
  tryParseRequestCondition ("param(`" ++ p ++ "`) != nil")
  = Returns (Some (ParamHeaderCondition param p MATCH_EXISTS [])).
Proof.
  intros [Hne Hp]. unfold tryParseRequestCondition. not_a_time.
  unfold header_exists_re. re_run. unfold param_exists_re. by re_run.
Qed.
Lemma parse_header_contains p v : path_ok p -> plain v ->
  tryParseRequestCondition ("has(header(`" ++ p ++ "`), " ++ quote v ++ ")")
  = Returns (Some (ParamHeaderCondition header p MATCH_CONTAINS v)).
Proof.
  intros [Hne Hp] Hv. unfold tryParseRequestCondition. rewrite quote_plain by done. not_a_time.
  unfold header_exists_re. re_run. unfold param_exists_re. re_run. unfold header_contains_re. re_run.
    match goal with |- context [run (RGroup 2 string_literal ⋅ ?rr) ?k (Pos ?b _ ?cs)] =>
    destruct (run_group_string 2 rr k b v ")" cs Hv) as [b' ->] end.
  re_run. unfold group. simpl. by rewrite parse_quote.
Qed.

(** The literal of an equality. *)
Lemma quote_not_numeric v : plain v -> test NUMERIC_LITERAL_REGEX (quote v) = false.
Proof.
  intros Hv. apply not_true_iff_false. intros H%numeric_covers.
  rewrite quote_plain in H by done. by inversion H.
Qed.
Lemma literal_back v : plain v -> trimmed v ->
  parseExprLiteral (buildExprLiteral MATCH_EQ v) = Some (JStr v) /\
  buildExprLiteral MATCH_EQ v <> [] /\ covers dot (buildExprLiteral MATCH_EQ v).
Proof.
  intros Hv Ht. unfold buildExprLiteral. rewrite (trim_trimmed v) by done. cbn [str_eqb].
  replace (str_eqb MATCH_EQ MATCH_CONTAINS) with false by done.
  assert (Hd : covers dot v) by (eapply Forall_impl; [exact Hv|]; intros c Hc; by apply plain_unit_spec).
  unfold parseExprLiteral. destruct (str_eqb v "true" || str_eqb v "false") eqn:Eb.
  { rewrite trim_trimmed, Eb by done. split_and!; [done| |done]. intros ->. done. }
  destruct (test NUMERIC_LITERAL_REGEX v) eqn:En.
  { rewrite trim_trimmed, Eb, En by done. split_and!; [done|by apply numeric_nonempty|done]. }
  assert (Hq : trimmed (quote v)).
  { rewrite quote_plain by done. split; [done|]. by rewrite app_comm_cons, last_snoc. }
  rewrite trim_trimmed by done. rewrite quote_not_numeric, parse_quote by done.
  rewrite quote_plain by done. split_and!; [done|done|].
  apply Forall_cons. split; [done|]. apply Forall_app. split; [done|]. repeat constructor.
Qed.

Lemma parse_equals s p v : path_ok p -> plain v -> trimmed v ->
  tryParseRequestCondition (source_str s ++ "(`" ++ p ++ "`) == " ++ buildExprLiteral MATCH_EQ v)
  = Returns (Some (ParamHeaderCondition s p MATCH_EQ v)).
Proof.
  intros [Hne Hp] Hv Ht. destruct (literal_back v Hv Ht) as (Hb & Hn & Hd).
  generalize dependent (buildExprLiteral MATCH_EQ v). intros lit Hb Hn Hd.
  unfold tryParseRequestCondition. destruct s; not_a_time;
    unfold header_exists_re, param_exists_re, header_contains_re, param_contains_re, param_compare_re;
    re_run; unfold equals_re; rewrite exec_begin;
    (rewrite run_group_alts; [|set_solver|repeat constructor; set_solver|repeat constructor; auto]);
    re_run; rewrite run_dot_end by done; simpl; unfold group; simpl; by rewrite Hb.
Qed.

(** ** Time conditions *)

Lemma time_funcs_prefix f r : f ∈ TIME_FUNCS ->
  Forall (fun g => g = f \/ strip_prefix g (f ++ r) = None) TIME_FUNCS.
Proof.
  unfold TIME_FUNCS. rewrite !elem_of_cons, elem_of_nil. intros Hf.
  repeat (destruct Hf as [->|Hf]; [repeat (apply Forall_cons; split; [(by left) || (by right)|]); apply Forall_nil; done|]). done.
Qed.
Lemma time_funcs_NoDup : NoDup TIME_FUNCS.
Proof. apply (proj1 (bool_decide_eq_true (NoDup TIME_FUNCS))). by vm_compute. Qed.
(** A time function is no parenthesis, no [has] and no accessor. *)
Lemma time_func_head f : f ∈ TIME_FUNCS ->
  exists c t, f = c :: t /\ c <> 40%N.
Proof.
  unfold TIME_FUNCS. rewrite !elem_of_cons, elem_of_nil. intros Hf.
  repeat (destruct Hf as [->|Hf]; [by eexists _, _|]). done.
Qed.

Ltac time_step Hf :=
  rewrite ?exec_begin;
  try (rewrite run_group_alts; [|exact Hf|exact time_funcs_NoDup|by apply time_funcs_prefix]).

Lemma parse_range f tz a b : f ∈ TIME_FUNCS -> path_ok tz -> numeric a -> numeric b ->
  tryParseTimeCondition (f ++ "(`" ++ tz ++ "`) >= " ++ a ++ " || " ++ f ++ "(`" ++ tz ++ "`) < " ++ b)
  = Some (TimeCondition f tz MATCH_RANGE [] a b).
Proof.
  intros Hf [Hne Hp] Ha Hb. unfold tryParseTimeCondition, range_re, range_body, time_fn.
  rewrite exec_begin. time_step Hf. re_run.
    rewrite (run_back 1) by done. re_run. rewrite (run_back 2) by done. re_run. done.
Qed.
Lemma parse_range_paren f tz a b : f ∈ TIME_FUNCS -> path_ok tz -> numeric a -> numeric b ->
  tryParseTimeCondition ("(" ++ f ++ "(`" ++ tz ++ "`) >= " ++ a ++ " || " ++ f ++ "(`" ++ tz ++ "`) < " ++ b ++ ")")
  = Some (TimeCondition f tz MATCH_RANGE [] a b).
Proof.
  intros Hf [Hne Hp] Ha Hb. unfold tryParseTimeCondition.
  replace (exec range_re _) with (@None pos) by (unfold range_re; rewrite exec_begin; reflexivity).
  unfold range_paren_re, range_body, time_fn. rewrite exec_begin. erewrite run_lit_seq by reflexivity.
  time_step Hf. re_run.
  rewrite (run_back 1) by done. re_run. rewrite (run_back 2) by done. re_run. done.
Qed.

Definition time_modes : list jsstr := [MATCH_EQ; MATCH_GTE; MATCH_LT].
Lemma parse_time f tz m v : f ∈ TIME_FUNCS -> path_ok tz -> m ∈ time_modes -> numeric v ->
  tryParseTimeCondition (f ++ "(`" ++ tz ++ "`) " ++ time_op m ++ " " ++ v)
  = Some (TimeCondition f tz m v [] []).
Proof.
  intros Hf [Hne Hp] Hm Hv. unfold tryParseTimeCondition.
  replace (exec range_re _) with (@None pos).
  2:{ unfold range_re, range_body, time_fn. rewrite exec_begin. time_step Hf.
      unfold time_modes in Hm. rewrite !elem_of_cons, elem_of_nil in Hm.
      by destruct Hm as [-> | [-> | [-> | []]]]; re_run. }
  replace (exec range_paren_re _) with (@None pos).
  2:{ unfold range_paren_re. rewrite exec_begin. apply time_func_head in Hf as (c & t & -> & Hc).
      symmetry. apply run_lit_seq_fail. cbn [app strip_prefix]. destruct (N.eqb_spec 40 c); congruence. }
  unfold time_re, time_fn. rewrite exec_begin. time_step Hf.
  unfold time_modes in Hm. rewrite !elem_of_cons, elem_of_nil in Hm.
  destruct Hm as [-> | [-> | [-> | []]]]; cbn [time_op str_eqb app]; re_run;
    (rewrite run_group_alts; [|set_solver|repeat constructor; set_solver|
      repeat (apply Forall_cons; split; [(by left) || (by right)|]); apply Forall_nil; done]); by re_run.
Qed.

(** * The text of one condition *)

Definition and_sep : jsstr := " && ".
Definition mul_sep : jsstr := " * ".
Lemma and_separator : separator and_sep.
Proof. eexists. split; [reflexivity|]. repeat constructor. Qed.
Lemma mul_separator : separator mul_sep.
Proof. eexists. split; [reflexivity|]. repeat constructor. Qed.

Lemma includes_unit c sep s : c ∈ sep -> c ∉ s -> includes sep s = false.
Proof.
  intros Hc Hs. apply includes_false. intros (a & b & ->). apply Hs.
  rewrite !elem_of_app. auto.
Qed.

(** Text without [&] before text that does not start with it. *)
Lemma solid_free a d s :
  no_parens a -> 38%N ∉ a -> d <> 38%N -> solid and_sep (d :: s) -> solid and_sep (a ++ d :: s).
Proof.
  intros Ha Hn Hd Hs. induction Ha as [|c a Hc Ha IH]; [done|]. apply not_elem_of_cons in Hn as [Hcn Hn].
  simpl. constructor; [done| |auto]. intros b. unfold starts_with, and_sep. cbn [strip_prefix].
  destruct (N.eqb_spec 32 c); [|done]. destruct a as [|x a]; cbn [app strip_prefix].
  - destruct (N.eqb_spec 38 d); congruence.
  - apply not_elem_of_cons in Hn as [He _]. destruct (N.eqb_spec 38 x); congruence.
Qed.
Lemma solid_word w s :
  Forall (fun c => paren c = false /\ c <> 32%N) w -> solid and_sep s -> solid and_sep (w ++ s).
Proof.
  intros Hw Hs. induction Hw as [|c w [Hc Hne] Hw IH]; [done|]. simpl.
  by apply solid_nonspace; [apply and_separator|..].
Qed.
Lemma solid_paren a s : bal a -> solid and_sep s -> solid and_sep ("(" ++ a ++ ")" ++ s).
Proof. intros Ha Hs. by apply solid_group. Qed.
Lemma bal_quoted p : plain p -> bal ("`" ++ p ++ "`").
Proof.
  intros Hp. apply bal_plain. apply Forall_app. split; [repeat constructor|].
  apply Forall_app. split; [by apply plain_no_parens|repeat constructor].
Qed.
(** [name("path")] before more text. *)
Lemma solid_call name p s :
  Forall (fun c => paren c = false /\ c <> 32%N) name -> plain p -> solid and_sep s ->
  solid and_sep (name ++ "(`" ++ p ++ "`)" ++ s).
Proof.
  intros Hn Hp Hs. apply solid_word; [done|].
  replace ("(`" ++ p ++ "`)" ++ s) with ("(" ++ ("`" ++ p ++ "`") ++ ")" ++ s)
    by (simpl; by rewrite <-!(assoc_L (++))).
  apply solid_paren; [by apply bal_quoted|done].
Qed.
Lemma bal_call name p s : no_parens name -> plain p -> bal s -> bal (name ++ "(`" ++ p ++ "`)" ++ s).
Proof.
  intros Hn Hp Hs. apply bal_app; [by apply bal_plain|].
  replace ("(`" ++ p ++ "`)" ++ s) with (("(" ++ ("`" ++ p ++ "`") ++ ")") ++ s)
    by (simpl; by rewrite <-!(assoc_L (++))).
  apply bal_app; [|done]. by apply bal_paren, bal_quoted.
Qed.

Lemma numeric_units v : numeric v -> Forall (fun c => paren c = false /\ c <> 32%N /\ c <> 38%N /\ c <> 124%N) v.
Proof.
  intros Hv%numeric_covers. eapply Forall_impl; [exact Hv|]. intros c Hc.
  assert (c <> 32%N /\ c <> 38%N /\ c <> 124%N) by (split_and!; intros ->; done).
  split; [by apply num_char_spec|done].
Qed.
Lemma numeric_word v : numeric v -> Forall (fun c => paren c = false /\ c <> 32%N) v.
Proof. intros Hv%numeric_units. eapply Forall_impl; [exact Hv|]. naive_solver. Qed.
Lemma solid_numeric v s : numeric v -> solid and_sep s -> solid and_sep (v ++ s).
Proof. intros Hv Hs. apply solid_word; [by apply numeric_word|done]. Qed.
Lemma bal_numeric v : numeric v -> bal v.
Proof. intros Hv. by apply bal_plain, plain_no_parens, numeric_plain. Qed.
(** A number ends the text: what stands before it may hold spaces. *)
Lemma solid_before_numeric a v : no_parens a -> 38%N ∉ a -> numeric v -> solid and_sep (a ++ v).
Proof.
  intros Ha Hn Hv. pose proof (numeric_units v Hv) as Hu. pose proof (numeric_word v Hv) as Hw.
  destruct v as [|d v]; [by apply numeric_nonempty in Hv|]. inversion Hu as [|? ? (?&?&?&?)]; subst.
  apply solid_free; [done..|]. rewrite <-(app_nil_r (d :: v)). apply solid_word; [done|constructor].
Qed.

Lemma trimmed_app a b :
  match a with c :: _ => is_space c = false | [] => False end -> b <> [] -> trimmed b -> trimmed (a ++ b).
Proof.
  intros Ha Hb [_ Hl]. split; [by destruct a|]. rewrite last_app. destruct (last b) eqn:E; [done|].
  by apply last_None in E.
Qed.
Lemma trimmed_closed c s d : is_space c = false -> is_space d = false -> trimmed (c :: s ++ [d]).
Proof. intros Hc Hd. split; [done|]. by rewrite app_comm_cons, last_snoc. Qed.

(** What the parser and the splitter need of the text of a condition. *)
Record readable (e : jsstr) (c : RequestCondition) : Prop := {
  r_nonempty : e <> [];
  r_trimmed : trimmed e;
  r_bal : bal e;
  r_solid : solid and_sep e;
  r_parse : tryParseRequestCondition e = Returns (Some c);
  r_wrapped : includes " || " e = true -> tryParseRequestCondition ("(" ++ e ++ ")") = Returns (Some c) }.

(** Names of the syntax. *)
Lemma source_word s : Forall (fun c => paren c = false /\ c <> 32%N) (source_str s).
Proof. destruct s; repeat constructor; done. Qed.
Lemma time_word f : f ∈ TIME_FUNCS -> Forall (fun c => paren c = false /\ c <> 32%N) f /\ (124%N ∉ f) /\
  match f with c :: _ => is_space c = false | [] => False end.
Proof.
  unfold TIME_FUNCS. rewrite !elem_of_cons, elem_of_nil. intros Hf.
  repeat (destruct Hf as [->|Hf]; [split_and!; [repeat constructor; done| |done];
    apply (proj1 (bool_decide_eq_true (_ ∉ _))); by vm_compute|]). done.
Qed.
Lemma word_no_parens w : Forall (fun c => paren c = false /\ c <> 32%N) w -> no_parens w.
Proof. intros H. eapply Forall_impl; [exact H|]. naive_solver. Qed.

Lemma path_includes p : includes " || " p = false -> forall a b,
  includes " || " (a ++ "`" ++ p ++ "`" ++ b) = includes " || " a || includes " || " b.
Proof.
  intros Hp a b. simpl app. rewrite (includes_cut " || " a 34) by (done || set_solver).
  rewrite (includes_cut " || " p 34) by (done || set_solver). by rewrite Hp.
Qed.

Lemma readable_exists s p : clean p -> p <> [] ->
  readable (source_str s ++ "(`" ++ p ++ "`)" ++ match s with header => " != ``" | param => " != nil" end)
    (ParamHeaderCondition s p MATCH_EXISTS []).
Proof.
  intros (Hp & Ht & Hi) Hne. split.
  - by destruct s.
  - destruct s; (apply trimmed_app; [done|done|]); (apply (trimmed_app "(`"); [done|by destruct p|]).
    1,2: rewrite (app_assoc p); split; [by destruct p; [|destruct Ht]|]; by rewrite !last_app.
  - apply bal_call; [apply word_no_parens, source_word|done|]. destruct s; repeat constructor.
  - apply solid_call; [apply source_word|done|].
    destruct s; repeat (apply solid_unit; [done|intros; reflexivity|]); constructor.
  - destruct s; [apply parse_param_exists|apply parse_header_exists]; done.
  - assert (E : includes " || " (source_str s ++ "(`" ++ p ++ "`)" ++
        match s with header => " != ``" | param => " != nil" end) = false).
    { etransitivity; [|destruct s; reflexivity].
      pose proof (path_includes p Hi (source_str s ++ "(") (")" ++ match s with header => " != ``" | param => " != nil" end)) as H.
      rewrite <-(assoc_L (++)) in H. etransitivity; [exact H|]. by destruct s. }
    congruence.
Qed.

(** The literal of an equality: no ampersand, or a quoted string. *)
Lemma literal_shape v : plain v -> trimmed v -> includes " && " v = false -> includes " || " v = false ->
  let lit := buildExprLiteral MATCH_EQ v in
  trimmed lit /\ bal lit /\ solid and_sep (" == " ++ lit) /\ includes " || " (") == " ++ lit) = false.
Proof.
  intros Hv Ht Ha Ho lit.
  assert (Hcase : (lit = v /\ (numeric v \/ v = "true" \/ v = "false")) \/ lit = 34%N :: v ++ [34%N]).
  { unfold lit, buildExprLiteral. rewrite trim_trimmed by done.
    replace (str_eqb MATCH_EQ MATCH_CONTAINS) with false by done.
    destruct (str_eqb v "true" || str_eqb v "false") eqn:Eb; [left; split; [done|]; apply orb_true_iff in Eb as [Eb|Eb]; apply str_eqb_true in Eb; auto|].
    destruct (test NUMERIC_LITERAL_REGEX v) eqn:En; [left; auto|]. right. by apply quote_plain. }
  destruct Hcase as [[-> Hn]| ->].
  - split; [done|]. split; [by apply bal_plain, plain_no_parens|].
    destruct Hn as [Hn|[-> | ->]]; (split; [|try done]).
    2:{ apply (includes_unit 124%N); [set_solver|]. pose proof (numeric_units v Hn) as Hu.
        rewrite elem_of_app. intros [H|H]; [set_solver|]. rewrite Forall_forall in Hu. by apply Hu in H as (_&_&_&?). }
    + apply solid_before_numeric; [repeat constructor|set_solver|done].
    + repeat (apply solid_unit; [done|intros; reflexivity|]); constructor.
    + repeat (apply solid_unit; [done|intros; reflexivity|]); constructor.
  - split_and!.
    + by apply trimmed_closed.
    + by apply bal_quoted.
    + repeat (apply solid_unit; [done|intros; reflexivity|]).
      apply solid_text; [apply and_separator|by apply plain_no_parens|set_solver|done|].
      apply solid_nonspace; [apply and_separator|done|done|constructor].
    + pose proof (path_includes v Ho ") == " []) as H. by simpl app in *.
Qed.

Lemma readable_equals s p v : clean p -> p <> [] -> clean v -> includes " && " v = false ->
  readable (source_str s ++ "(`" ++ p ++ "`) == " ++ buildExprLiteral MATCH_EQ v)
    (ParamHeaderCondition s p MATCH_EQ v).
Proof.
  intros (Hp & Htp & Hip) Hne (Hv & Htv & Hiv) Ha.
  destruct (literal_shape v Hv Htv Ha Hiv) as (Ht & Hb & Hs & Hi).
  destruct (literal_back v Hv Htv) as (_ & Hln & _). split.
  - by destruct s.
  - apply trimmed_app; [by destruct s|done|]. apply (trimmed_app "(`"); [done|by destruct p|].
    rewrite app_assoc. split; [destruct Htp as [Htp _]; by destruct p|].
    rewrite last_app. destruct Ht as [_ Ht]. destruct (last _) eqn:E; [done|]. by apply last_None in E.
  - apply (bal_call (source_str s) p (" == " ++ _)); [apply word_no_parens, source_word|done|].
    apply bal_app; [repeat constructor|done].
  - apply (solid_call (source_str s) p (" == " ++ _)); [apply source_word|done|done].
  - by apply parse_equals.
  - intros E. exfalso. revert E. apply not_true_iff_false.
    pose proof (path_includes p Hip (source_str s ++ "(") (") == " ++ buildExprLiteral MATCH_EQ v)) as H.
    rewrite <-(assoc_L (++)) in H. etransitivity; [exact H|]. rewrite Hi. by destruct s.
Qed.

Lemma readable_contains p v : clean p -> p <> [] -> clean v ->
  readable ("has(header(`" ++ p ++ "`), " ++ quote v ++ ")") (ParamHeaderCondition header p MATCH_CONTAINS v).
Proof.
  intros (Hp & Htp & Hip) Hne (Hv & Htv & Hiv).
  assert (Hb : bal ("header(`" ++ p ++ "`), " ++ quote v)).
  { apply (bal_call "header" p (", " ++ quote v)); [repeat constructor|done|].
    apply bal_app; [repeat constructor|]. rewrite quote_plain by done. by apply bal_quoted. }
  assert (E : "has(header(`" ++ p ++ "`), " ++ quote v ++ ")" = "has" ++ "(" ++ ("header(`" ++ p ++ "`), " ++ quote v) ++ ")" ++ []).
  { rewrite app_nil_r, <-!app_assoc. done. }
  split.
  - done.
  - rewrite (app_assoc "has(header(`"), (app_assoc (_ ++ p)), app_assoc. by apply (trimmed_closed 104%N).
  - rewrite E. apply bal_app; [repeat constructor|]. rewrite app_nil_r. by apply bal_paren.
  - rewrite E. apply solid_word; [repeat constructor; done|]. apply solid_paren; [done|constructor].
  - by apply parse_header_contains.
  - intros H. exfalso. revert H. apply not_true_iff_false. rewrite quote_plain by done.
    etransitivity; [exact (path_includes p Hip "has(header(" ("), " ++ (34%N :: v ++ [34%N]) ++ ")"))|].
    pose proof (path_includes v Hiv "), " ")") as H. cbn [app] in *. rewrite <-app_assoc. cbn [app]. by rewrite H.
Qed.

Lemma readable_time f tz m v : f ∈ TIME_FUNCS -> clean tz -> tz <> [] -> m ∈ time_modes -> numeric v ->
  readable (f ++ "(`" ++ tz ++ "`) " ++ time_op m ++ " " ++ v) (TimeCondition f tz m v [] []).
Proof.
  intros Hf (Hp & Htp & Hip) Hne Hm Hv. destruct (time_word f Hf) as (Hw & Hbar & Hh).
  assert (Hop : no_parens (time_op m ++ " ") /\ (38%N ∉ time_op m ++ " ") /\ (124%N ∉ time_op m ++ " ")).
  { unfold time_modes in Hm. rewrite !elem_of_cons, elem_of_nil in Hm.
    destruct Hm as [-> | [-> | [-> | []]]]; (split; [repeat constructor|]); split;
      apply (proj1 (bool_decide_eq_true (_ ∉ _))); by vm_compute. }
  destruct Hop as (Hop1 & Hop2 & Hop3). split.
  - by destruct f.
  - apply trimmed_app; [done|done|]. rewrite !(app_assoc _ _ v), !app_assoc.
    apply trimmed_app; [done| |by apply numeric_trimmed]. by apply numeric_nonempty.
  - apply (bal_call f tz (" " ++ _)); [by apply word_no_parens|done|].
    apply bal_app; [repeat constructor|]. rewrite app_assoc. apply bal_app; [by apply bal_plain|by apply bal_numeric].
  - apply (solid_call f tz (" " ++ _)); [done..|]. rewrite !app_assoc.
    apply solid_before_numeric; [by constructor| |done].
    rewrite <-app_assoc, elem_of_app. intros [H|H]; [set_solver|done].
  - unfold tryParseRequestCondition. by rewrite parse_time.
  - intros E. exfalso. revert E. apply not_true_iff_false.
    pose proof (path_includes tz Hip (f ++ "(") (") " ++ time_op m ++ " " ++ v)) as H.
    rewrite <-(assoc_L (++)) in H. etransitivity; [exact H|]. apply orb_false_iff. split.
    + apply (includes_unit 124%N); [set_solver|]. rewrite elem_of_app. intros [?|?]; [done|set_solver].
    + apply (includes_unit 124%N); [set_solver|]. rewrite !app_assoc, elem_of_app. intros [H'|H'].
      * rewrite <-app_assoc, elem_of_app in H'. destruct H'; [set_solver|done].
      * pose proof (numeric_units v Hv) as Hu. rewrite Forall_forall in Hu. by apply Hu in H' as (_&_&_&?).
Qed.

Lemma readable_range f tz a b : f ∈ TIME_FUNCS -> clean tz -> tz <> [] -> numeric a -> numeric b ->
  readable (f ++ "(`" ++ tz ++ "`) >= " ++ a ++ " || " ++ f ++ "(`" ++ tz ++ "`) < " ++ b)
    (TimeCondition f tz MATCH_RANGE [] a b).
Proof.
  intros Hf (Hp & Htp & Hip) Hne Ha Hb. destruct (time_word f Hf) as (Hw & Hbar & Hh). split.
  - by destruct f.
  - apply trimmed_app; [done|done|]. rewrite !app_assoc.
    apply trimmed_app; [done|by apply numeric_nonempty|by apply numeric_trimmed].
  - apply (bal_call f tz (" >= " ++ _)); [by apply word_no_parens|done|].
    apply bal_app; [repeat constructor|]. apply bal_app; [by apply bal_numeric|].
    apply bal_app; [repeat constructor|]. apply (bal_call f tz (" < " ++ b)); [by apply word_no_parens|done|].
    apply bal_app; [repeat constructor|by apply bal_numeric].
  - apply (solid_call f tz (" >= " ++ _)); [done..|].
    destruct (time_func_head f Hf) as (c & t & -> & Hc).
    assert (Hrest : solid and_sep ((c :: t) ++ "(`" ++ tz ++ "`)" ++ " < " ++ b)).
    { apply solid_call; [done..|]. apply solid_before_numeric; [repeat constructor|set_solver|done]. }
    rewrite !(app_assoc _ a). rewrite (app_assoc _ " || "). apply solid_free; [| | |done].
    + apply Forall_app; split; [|repeat constructor]. apply Forall_app; split; [repeat constructor|].
      by apply plain_no_parens, numeric_plain.
    + pose proof (numeric_units a Ha) as Hu. rewrite Forall_forall in Hu.
      rewrite !elem_of_app. intros [[H|H]|H]; [set_solver| |set_solver]. by apply Hu in H as (_&_&?&_).
    + unfold TIME_FUNCS in Hf. rewrite !elem_of_cons, elem_of_nil in Hf. intros ->.
      repeat (destruct Hf as [Hf|Hf]; [done|]). done.
  - unfold tryParseRequestCondition. by rewrite parse_range.
  - intros _. unfold tryParseRequestCondition. rewrite <-!app_assoc. by rewrite parse_range_paren.
Qed.

(** * Conditions and groups of the editor *)

(** A condition that the printed syntax can carry. *)
Definition cond_ok (c : RequestCondition) : Prop :=
  match c with
  | ParamHeaderCondition s p m v =>
      p <> [] /\ clean p /\
      ((m = MATCH_EXISTS /\ v = []) \/
       (m = MATCH_EQ /\ clean v /\ includes " && " v = false) \/
       (m = MATCH_CONTAINS /\ s = header /\ clean v))
  | TimeCondition f tz m v a b =>
      f ∈ TIME_FUNCS /\ tz <> [] /\ clean tz /\
      ((m = MATCH_RANGE /\ v = [] /\ numeric a /\ numeric b) \/
       (m ∈ time_modes /\ numeric v /\ a = [] /\ b = []))
  end.
Definition group_ok (g : RequestRuleGroup) : Prop :=
  rule_conditions g <> [] /\ Forall cond_ok (rule_conditions g) /\ numeric (multiplier g) /\
  conditionText g = None /\ matched g = None.

Lemma normalize_param_header s p m v :
  m ∈ [MATCH_EXISTS; MATCH_EQ; MATCH_CONTAINS] ->
  normalizeCondition (partial (ParamHeaderCondition s p m v)) = ParamHeaderCondition s p m v.
Proof.
  rewrite !elem_of_cons, elem_of_nil.
  intros [-> | [-> | [-> | []]]]; by destruct s.
Qed.
Lemma normalize_time f tz m v a b :
  f ∈ TIME_FUNCS -> tz <> [] -> m ∈ MATCH_RANGE :: time_modes ->
  normalizeCondition (partial (TimeCondition f tz m v a b)) = TimeCondition f tz m v a b.
Proof.
  intros Hf Htz Hm.
  change (normalizeCondition (partial (TimeCondition f tz m v a b))) with
    (TimeCondition (if has f TIME_FUNCS then f else "hour") (str_or tz "Asia/Shanghai")
       (mode_or "time" (Some m) MATCH_GTE) v a b).
  rewrite (proj2 (has_spec f TIME_FUNCS) Hf). unfold str_or. rewrite (proj2 (truthy_true tz) Htz).
  unfold time_modes in Hm. rewrite !elem_of_cons, elem_of_nil in Hm.
  by destruct Hm as [-> | [-> | [-> | [-> | []]]]].
Qed.

Lemma build_call name p t : plain p -> name ++ "(" ++ quote p ++ ")" ++ t = name ++ "(`" ++ p ++ "`)" ++ t.
Proof. intros Hp. rewrite quote_plain by done. cbn [app]. by rewrite <-app_assoc. Qed.

Lemma build_param_header_readable s p m v :
  cond_ok (ParamHeaderCondition s p m v) ->
  readable (buildRequestConditionExpr (ParamHeaderCondition s p m v)) (ParamHeaderCondition s p m v).
Proof.
  intros (Hne & Hc & Hm). unfold buildRequestConditionExpr. rewrite normalize_param_header
    by (destruct Hm as [[-> _]|[[-> _]|[-> _]]]; rewrite !elem_of_cons; auto).
  unfold build_param_header. pose proof Hc as (Hp & Ht & Hi). rewrite trim_trimmed by done.
  rewrite (proj2 (truthy_true p) Hne). cbn [negb].
  destruct Hm as [[-> ->]|[(-> & Hv & Ha)|(-> & -> & Hv)]].
  - replace (str_eqb MATCH_EXISTS MATCH_EXISTS) with true by done.
    pose proof (readable_exists s p Hc Hne) as H. destruct s; by rewrite <-!app_assoc, build_call.
  - replace (str_eqb MATCH_EQ MATCH_EXISTS) with false by done.
    replace (str_eqb MATCH_EQ MATCH_CONTAINS) with false by done.
    replace (str_eqb MATCH_EQ MATCH_GT || _ || _ || _) with false by done.
    rewrite <-!app_assoc, build_call by done. by apply readable_equals.
  - replace (str_eqb MATCH_CONTAINS MATCH_EXISTS) with false by done.
    replace (str_eqb MATCH_CONTAINS MATCH_CONTAINS) with true by done.
    pose proof (readable_contains p v Hc Hne Hv) as H. unfold buildExprLiteral.
    replace (str_eqb MATCH_CONTAINS MATCH_CONTAINS) with true by done.
    destruct Hv as (_ & Hvt & _). rewrite (trim_trimmed v) by done.
    rewrite <-!app_assoc, build_call by done. exact H.
Qed.
Lemma build_time_readable f tz m v a b :
  cond_ok (TimeCondition f tz m v a b) ->
  readable (buildRequestConditionExpr (TimeCondition f tz m v a b)) (TimeCondition f tz m v a b).
Proof.
  intros (Hf & Hne & Hc & Hm). unfold buildRequestConditionExpr. rewrite normalize_time
    by (done || destruct Hm as [[-> _]|[? _]]; rewrite elem_of_cons; auto).
  pose proof Hc as (Hp & _). unfold build_time.
  destruct Hm as [(-> & -> & Ha & Hb)|(Hm & Hv & -> & ->)].
  - replace (str_eqb MATCH_RANGE MATCH_RANGE) with true by done.
    rewrite !trim_trimmed by (by apply numeric_trimmed). rewrite Ha, Hb. cbn [negb orb].
    rewrite <-!app_assoc, !build_call by done. by apply readable_range.
  - replace (str_eqb m MATCH_RANGE) with false.
    2:{ unfold time_modes in Hm. rewrite !elem_of_cons, elem_of_nil in Hm. by destruct Hm as [-> | [-> | [-> | []]]]. }
    rewrite !trim_trimmed by (by apply numeric_trimmed). rewrite Hv. cbn [negb].
    rewrite <-!app_assoc, build_call by done. by apply readable_time.
Qed.
Lemma build_readable c : cond_ok c -> readable (buildRequestConditionExpr c) c.
Proof. destruct c; [apply build_param_header_readable|apply build_time_readable]. Qed.

(** ** The parts of a conjunction *)

Record piece (e : jsstr) (c : RequestCondition) : Prop := {
  p_nonempty : e <> []; p_trimmed : trimmed e; p_bal : bal e; p_solid : solid and_sep e;
  p_parse : tryParseRequestCondition e = Returns (Some c) }.

Definition wrap (e : jsstr) : jsstr := if includes " || " e then "(" ++ e ++ ")" else e.
Lemma readable_piece e c : readable e c -> piece e c.
Proof. intros []. by split. Qed.
Lemma readable_wrap e c : readable e c -> piece (wrap e) c.
Proof.
  intros H. unfold wrap. destruct (includes " || " e) eqn:E; [|by apply readable_piece].
  destruct H as [Hn Ht Hb Hs Hp Hw]. split.
  - done.
  - by apply (trimmed_closed 40%N).
  - by apply bal_paren.
  - apply (solid_paren e []); [done|constructor].
  - by apply Hw.
Qed.

Lemma collect_pieces es cs : Forall2 piece es cs ->
  collect (fun part => tryParseRequestCondition (trim part)) es = Returns (Some cs).
Proof.
  induction 1 as [|e c es cs H _ IH]; [done|]. simpl. rewrite trim_trimmed by apply H.
  by rewrite (p_parse _ _ H), IH.
Qed.
Lemma pieces_trim es cs : Forall2 piece es cs -> filter_truthy (map trim es) = es.
Proof.
  induction 1 as [|e c es cs H _ IH]; [done|]. unfold filter_truthy in *. simpl.
  rewrite trim_trimmed by apply H. rewrite (proj2 (truthy_true e) (p_nonempty _ _ H)). by rewrite IH.
Qed.
Lemma pieces_forall (P : jsstr -> Prop) es cs :
  (forall e c, piece e c -> P e) -> Forall2 piece es cs -> Forall P es.
Proof. intros HP. induction 1; constructor; eauto. Qed.
Lemma parse_conjunction es cs : es <> [] -> Forall2 piece es cs ->
  tryParseRequestConditions (join " && " es) = Returns (Some cs).
Proof.
  intros Hne H. unfold tryParseRequestConditions, splitTopLevelAnd.
  rewrite (split_top_join and_sep)
    by (done || apply and_separator || (eapply pieces_forall; [|exact H]; apply p_solid)).
  rewrite (pieces_trim es cs) by done. rewrite (collect_pieces es cs) by done.
  destruct H; [done|]. done.
Qed.
Lemma bal_join sep l : bal sep -> Forall bal l -> bal (join sep l).
Proof.
  intros Hs. induction 1 as [|x l Hx Hl IH]; [constructor|]. destruct l as [|y l]; [done|].
  rewrite join_cons by done. by repeat apply bal_app.
Qed.

(** ** One factor *)

Lemma many_refused {A} p (k : pos -> option A) b s cs :
  (forall b' u t, s = u ++ t -> k (Pos b' t cs) = None) -> many p k b s cs = None.
Proof.
  revert b. induction s as [|c s IH]; intros b Hk; simpl; [by apply (Hk b [])|].
  destruct (p c); [|by apply (Hk b [])]. rewrite IH; [by apply (Hk b [])|].
  intros b' u t ->. by apply (Hk b' (c :: u)).
Qed.
(** A greedy class gives back to the last place where the rest matches. *)
Lemma many_last {A} p (k : pos -> option A) b w r cs v :
  covers p (w ++ r) -> k (Pos (last_or b w) r cs) = Some v ->
  (forall b' c u t, r = c :: u ++ t -> k (Pos b' t cs) = None) ->
  many p k b (w ++ r) cs = Some v.
Proof.
  intros Hc Hv Hk. revert b Hv. induction w as [|c w IH]; intros b Hv; simpl in *.
  - destruct r as [|d r]; simpl; [done|]. inversion Hc; subst. rewrite H1. rewrite many_refused; [done|].
    intros b' u t ->. by apply (Hk b' d u).
  - inversion Hc; subst. rewrite H1, IH; [done|done|]. by rewrite last_or_cons in Hv.
Qed.

Lemma covers_any s : covers any s.
Proof. by apply Forall_true. Qed.

Lemma suffix_no_question M u t d : numeric M -> " ? " ++ M ++ " : 1)" = d :: u ++ t -> strip_prefix " ? " t = None.
Proof.
  intros HM E. destruct (strip_prefix " ? " t) as [r|] eqn:Es; [|done]. exfalso.
  apply strip_prefix_spec in Es. subst t. cbn [app] in E. injection E as _ E.
  assert (Hin : 63%N ∈ 32%N :: M ++ " : 1)").
  { destruct u as [|x u]; cbn [app] in E; [discriminate|]. injection E as _ E. rewrite E.
    rewrite elem_of_app. right. right. left. }
  apply elem_of_cons in Hin as [?|[Hin|Hin]%elem_of_app]; [done| |set_solver].
  pose proof (numeric_covers M HM) as Hu. unfold covers in Hu. rewrite Forall_forall in Hu. by apply Hu in Hin.
Qed.

Lemma exec_factor S M : S <> [] -> numeric M ->
  exists m, exec factor_re ("(" ++ S ++ " ? " ++ M ++ " : 1)") = Some m /\ group 1 m = S /\ group 2 m = M.
Proof.
  intros HS HM. unfold factor_re. rewrite exec_begin. erewrite run_lit_seq by reflexivity.
  destruct S as [|c S]; [done|]. cbn [app].
  set (r := 32%N :: 63%N :: 32%N :: M ++ " : 1)").
  set (tail := RLit " ? " ⋅ RGroup 2 (RSome num_char) ⋅ RLit " : 1)" ⋅ REnd).
  set (kk := fun y : pos => run tail Some (Pos (before y) (rest y)
     ((1, take (length (c :: S ++ r) - length (rest y)) (c :: S ++ r)) :: caps y))).
  change (exists m, many any kk (Some c) (S ++ r) [] = Some m /\ group 1 m = c :: S /\ group 2 m = M).
  assert (Hk : exists m, kk (Pos (last_or (Some c) S) r []) = Some m /\ group 1 m = c :: S /\ group 2 m = M).
  { unfold kk. cbn [before rest caps]. rewrite app_comm_cons, take_app_sub. unfold tail, r. re_run.
    eexists. split; [done|]. done. }
  destruct Hk as (m & Hm & Hg). exists m. split; [|done].
  apply many_last; [apply covers_any|done|]. intros b' d u t E. unfold kk, tail. cbn [before rest caps].
  apply run_lit_seq_fail. by apply (suffix_no_question M u t d).
Qed.

(** The text of a group: a parenthesised conditional that reads back. *)
Lemma build_group g : group_ok g ->
  exists body, buildRuleGroupFactor g = "(" ++ body ++ ")" /\ bal body /\
    tryParseRuleGroupFactor ("(" ++ body ++ ")") = Returns (Some g).
Proof.
  intros (Hne & Hcs & HM & Ht & Hm). destruct g as [cs M ct mt]; simpl in *. subst ct mt.
  assert (Hr : Forall2 readable (map buildRequestConditionExpr cs) cs).
  { clear -Hcs. induction Hcs; simpl; constructor; [by apply build_readable|done]. }
  assert (Htr : filter_truthy (map buildRequestConditionExpr cs) = map buildRequestConditionExpr cs).
  { clear -Hr. induction Hr as [|e c es cs H _ IH]; [done|]. unfold filter_truthy in *. simpl.
    rewrite (proj2 (truthy_true e) (r_nonempty _ _ H)). by rewrite IH. }
  assert (Hp : exists es, es <> [] /\ Forall2 piece es cs /\
    buildRuleGroupFactor {| rule_conditions := cs; multiplier := M; conditionText := None; matched := None |}
    = "(" ++ join " && " es ++ " ? " ++ M ++ " : 1)").
  { unfold buildRuleGroupFactor. simpl. rewrite trim_trimmed by (by apply numeric_trimmed).
    unfold numeric in HM. rewrite HM, Htr. cbn [negb].
    destruct Hr as [|e c es cs' H Hr]; [done|]. destruct es as [|e' es].
    - exists [e]. split_and!; [done| |done]. inversion Hr; subst. constructor; [by apply readable_piece|constructor].
    - exists (map wrap (e :: e' :: es)). split_and!; [done| |done]. clear -H Hr.
      assert (Hall : Forall2 readable (e :: e' :: es) (c :: cs')) by (by constructor).
      clear -Hall. induction Hall; simpl; constructor; [by apply readable_wrap|done]. }
  destruct Hp as (es & Hes & Hps & ->). exists (join " && " es ++ " ? " ++ M ++ " : 1").
  assert (E : "(" ++ join " && " es ++ " ? " ++ M ++ " : 1)" = "(" ++ (join " && " es ++ " ? " ++ M ++ " : 1") ++ ")").
  { rewrite <-!app_assoc. done. }
  split_and!; [exact E| |].
  - apply bal_app; [|apply bal_app; [repeat constructor|apply bal_app; [by apply bal_numeric|repeat constructor]]].
    apply bal_join; [repeat constructor|]. eapply pieces_forall; [|exact Hps]. apply p_bal.
  - etransitivity; [apply f_equal; symmetry; exact E|]. unfold tryParseRuleGroupFactor.
    assert (HS : join " && " es <> []).
    { destruct Hps as [|e c es cs' H Hps]; [done|]. destruct es; [apply H|].
      rewrite join_cons by done. intros [? _]%app_eq_nil. by apply (p_nonempty _ _ H). }
    destruct (exec_factor (join " && " es) M HS HM) as (m & -> & -> & ->).
    by rewrite (parse_conjunction es cs).
Qed.

(** A factor: what the splitter and the joiner need of it. *)
Record factor (t : jsstr) (g : RequestRuleGroup) : Prop := {
  f_nonempty : t <> []; f_trimmed : trimmed t; f_solid : solid mul_sep t; f_bal : bal t;
  f_parse : tryParseRuleGroupFactor t = Returns (Some g) }.
Lemma group_factor g : group_ok g -> factor (buildRuleGroupFactor g) g.
Proof.
  intros (body & -> & Hb & Hp)%build_group. split; [done|by apply (trimmed_closed 40%N)| | |done].
  - apply (solid_group mul_sep body []); [done|constructor].
  - by apply bal_paren.
Qed.
Lemma groups_factors gs : Forall group_ok gs -> Forall2 factor (map buildRuleGroupFactor gs) gs.
Proof. induction 1; simpl; constructor; [by apply group_factor|done]. Qed.

Lemma factors_truthy ts gs : Forall2 factor ts gs -> filter_truthy ts = ts.
Proof.
  induction 1 as [|t g ts gs H _ IH]; [done|]. unfold filter_truthy in *. simpl.
  rewrite (proj2 (truthy_true t) (f_nonempty _ _ H)). by rewrite IH.
Qed.
Lemma factors_trim ts gs : Forall2 factor ts gs -> map trim ts = ts.
Proof. induction 1 as [|t g ts gs H _ IH]; [done|]. simpl. rewrite trim_trimmed by apply H. by rewrite IH. Qed.
Lemma factors_solid ts gs : Forall2 factor ts gs -> Forall (solid mul_sep) ts.
Proof. induction 1 as [|t g ts gs H _ IH]; constructor; [apply H|done]. Qed.
Lemma factors_collect ts gs : Forall2 factor ts gs -> collect tryParseRuleGroupFactor ts = Returns (Some gs).
Proof. induction 1 as [|t g ts gs H _ IH]; [done|]. simpl. by rewrite (f_parse _ _ H), IH. Qed.
Lemma factors_join ts gs : Forall2 factor ts gs -> ts <> [] -> join " * " ts <> [] /\ trimmed (join " * " ts).
Proof.
  induction 1 as [|t g ts gs H Hts IH]; [done|]. intros _. destruct ts as [|t' ts]; [split; apply H|].
  rewrite join_cons by done. destruct IH as [Hn Ht]; [done|]. destruct H as [Hne Htr _ _ _]. split.
  - by destruct t.
  - rewrite app_assoc. apply trimmed_app; [|done..]. destruct Htr as [Htr _]. by destruct t.
Qed.
Lemma split_factors ts gs : Forall2 factor ts gs -> ts <> [] -> splitTopLevelMultiply (join " * " ts) = ts.
Proof.
  intros H Hne. unfold splitTopLevelMultiply.
  rewrite (split_top_join mul_sep) by (done || apply mul_separator || by eapply factors_solid).
  rewrite (factors_trim ts gs) by done. by eapply factors_truthy.
Qed.
Lemma parse_factors ts gs : Forall2 factor ts gs -> tryParseRequestRuleExpr (join " * " ts) = Returns (Some gs).
Proof.
  intros H. unfold tryParseRequestRuleExpr. destruct (decide (ts = [])) as [->|Hne].
  { by inversion H. }
  destruct (factors_join ts gs H Hne) as [Hn Ht]. rewrite trim_trimmed by done.
  rewrite (proj2 (truthy_true _) Hn). cbn [negb]. rewrite (split_factors ts gs) by done.
  by apply factors_collect.
Qed.

(** * Claims *)

Lemma parse_built gs : Forall group_ok gs -> tryParseRequestRuleExpr (buildRequestRuleExpr gs) = Returns (Some gs).
Proof.
  intros H%groups_factors. unfold buildRequestRuleExpr. rewrite (factors_truthy _ gs) by done.
  by apply parse_factors.
Qed.
(** C29: the rules the editor prints are read back unchanged, for groups as the
    editor makes them, with a numeric multiplier and at least one condition,
    each an equality or the presence of a parameter or header, the containment of a text in a header,
    or a comparison or range of times with numeric bounds, over text of the basic
    plane without control characters, quotes, backslashes, parentheses,
    surrounding blanks and the operators that join conditions: parsing the built
    expression returns exactly the groups. Numeric comparisons of parameters
    are not among them (comparisons_not_read_back). *)
Theorem rules_roundtrip gs :
  Forall group_ok gs -> tryParseRequestRuleExpr (buildRequestRuleExpr gs) = Returns (Some gs).
Proof. apply parse_built. Qed.

(** The conditions are decidable, so a concrete editor state can be checked. *)
#[export] Instance trimmed_dec s : Decision (trimmed s).
Proof. unfold trimmed. destruct s as [|c s]; destruct (last _); apply _. Defined.
#[export] Instance clean_dec s : Decision (clean s).
Proof. unfold clean, plain. apply _. Defined.
#[export] Instance numeric_dec s : Decision (numeric s).
Proof. unfold numeric. apply _. Defined.
#[export] Instance Source_dec : EqDecision Source.
Proof. solve_decision. Defined.
#[export] Instance cond_ok_dec c : Decision (cond_ok c).
Proof. destruct c; simpl; apply _. Defined.
#[export] Instance RequestCondition_dec : EqDecision RequestCondition.
Proof. solve_decision. Defined.
#[export] Instance group_ok_dec g : Decision (group_ok g).
Proof. unfold group_ok. apply _. Defined.

Definition demo_groups : list RequestRuleGroup := [
  {| rule_conditions := [ParamHeaderCondition header "x-plan" MATCH_CONTAINS "pro && beta";
                         TimeCondition "hour" "Asia/Tokyo" MATCH_RANGE [] "21" "6";
                         ParamHeaderCondition param "user.tier" MATCH_EQ "gold member"];
     multiplier := "1.5"; conditionText := None; matched := None |};
  {| rule_conditions := [TimeCondition "weekday" "UTC" MATCH_EQ "0" [] []];
     multiplier := "0.5e1"; conditionText := None; matched := None |}].
Lemma demo_groups_ok : Forall group_ok demo_groups.
Proof. apply (proj1 (bool_decide_eq_true (Forall group_ok demo_groups))). vm_compute. reflexivity. Qed.

Lemma rules_roundtrip_witness :
  buildRequestRuleExpr demo_groups =
    "(has(header(`x-plan`), `pro && beta`) && (hour(`Asia/Tokyo`) >= 21 || hour(`Asia/Tokyo`) < 6) && param(`user.tier`) == `gold member` ? 1.5 : 1) * (weekday(`UTC`) == 0 ? 0.5e1 : 1)" /\
  tryParseRequestRuleExpr (buildRequestRuleExpr demo_groups) = Returns (Some demo_groups).
Proof. split; [vm_compute; reflexivity|]. apply rules_roundtrip. apply demo_groups_ok. Defined.

(** ** Splitting undoes combining *)

Lemma outer_loop_bal a d b : bal a -> (0 < d)%Z -> outer_loop d (a ++ b) = outer_loop d b.
Proof.
  intros Ha. revert d b. induction Ha as [|c s Hc Hs IH|x s Hx IHx Hs IH]; intros d b Hd; [done|..].
  - simpl. rewrite depth_unit by done. replace (Z.eqb d 0) with false by lia. by apply IH.
  - cbn [app outer_loop]. rewrite depth_open. replace (Z.eqb (d + 1) 0) with false by lia. cbn [andb].
    rewrite <-app_assoc, IHx by lia. cbn [app outer_loop]. rewrite depth_close.
    replace (d + 1 - 1)%Z with d by lia. replace (Z.eqb d 0) with false by lia. cbn [andb]. by apply IH.
Qed.
Lemma outer_parens a : bal a -> hasFullOuterParens ("(" ++ a ++ ")") = true.
Proof.
  intros Ha. unfold hasFullOuterParens.
  assert (He : ends_with ")" ("(" ++ a ++ ")") = true).
  { unfold ends_with. cbn [app]. rewrite app_comm_cons, reverse_app. apply starts_with_app. }
  rewrite He, starts_with_app. cbn [andb app outer_loop]. rewrite (depth_open 0 : depth_of 40 0 = _).
  cbn [Z.add Z.eqb andb]. by rewrite outer_loop_bal.
Qed.
Lemma unwrap_once a : bal a -> trimmed a -> hasFullOuterParens a = false ->
  unwrapOuterParens ("(" ++ a ++ ")") = a.
Proof.
  intros Hb Ht Hf. unfold unwrapOuterParens. rewrite trim_trimmed by (by apply (trimmed_closed 40%N)).
  replace (length ("(" ++ a ++ ")")) with (S (S (length a))) by (simpl; rewrite length_app; simpl; lia).
  cbn [unwrap]. rewrite outer_parens by done.
  replace (slice 1 (length ("(" ++ a ++ ")") - 1) ("(" ++ a ++ ")")) with a.
  2:{ unfold slice. change (drop 1 ("(" ++ a ++ ")")) with (a ++ ")").
      replace (length ("(" ++ a ++ ")") - 1 - 1) with (length a) by (simpl; rewrite length_app; simpl; lia).
      by rewrite take_app_length. }
  by rewrite trim_trimmed, Hf.
Qed.

(** A base expression that is no request rule itself. *)
Record base_ok (base : jsstr) : Prop := {
  b_nonempty : base <> []; b_trimmed : trimmed base; b_bal : bal base;
  b_outer : hasFullOuterParens base = false;
  b_norule : tryParseRuleGroupFactor ("(" ++ base ++ ")") = Returns None }.

Lemma classify_factors ts gs : Forall2 factor ts gs -> classify ts = Returns (ts, []).
Proof.
  induction 1 as [|t g ts gs H _ IH]; [done|]. simpl.
  assert (E : tryParseRequestRuleExpr t = Returns (Some [g])).
  { apply (parse_factors [t] [g]). constructor; [done|constructor]. }
  by rewrite E, IH.
Qed.
Lemma split_single x : solid mul_sep x -> trimmed x -> x <> [] -> splitTopLevelMultiply x = [x].
Proof.
  intros Hx Ht Hn. unfold splitTopLevelMultiply.
  rewrite (split_top_join mul_sep [x] mul_separator : _ -> _ -> split_top " * " 0 0 [] x = [trim x])
    by (done || by constructor).
  rewrite trim_trimmed by done. unfold filter_truthy. simpl. by rewrite (proj2 (truthy_true x) Hn).
Qed.
Lemma base_not_rule base : base_ok base -> tryParseRequestRuleExpr ("(" ++ base ++ ")") = Returns None.
Proof.
  intros []. unfold tryParseRequestRuleExpr. rewrite trim_trimmed by (by apply (trimmed_closed 40%N)).
  rewrite split_single; [|by apply (solid_group mul_sep base []); [|constructor]|by apply (trimmed_closed 40%N)|done].
  cbn [app truthy negb collect]. by rewrite (b_norule0 : tryParseRuleGroupFactor (40%N :: base ++ [41%N]) = _).
Qed.

Lemma split_combined base gs :
  base_ok base -> gs <> [] -> Forall group_ok gs ->
  splitBillingExprAndRequestRules (combineBillingExpr base (buildRequestRuleExpr gs))
  = Returns (base, buildRequestRuleExpr gs).
Proof.
  intros Hbase Hne H%groups_factors. pose proof (base_not_rule base Hbase) as Hnr.
  unfold buildRequestRuleExpr. rewrite (factors_truthy _ gs) by done.
  set (ts := map buildRuleGroupFactor gs) in *. assert (Hts : ts <> []) by (by destruct gs).
  destruct (factors_join ts gs H Hts) as [Hjn Hjt]. destruct Hbase as [Hbn Hbt Hbb Hbo _].
  unfold combineBillingExpr. rewrite !trim_trimmed by done.
  rewrite (proj2 (truthy_true base) Hbn), (proj2 (truthy_true _) Hjn). cbn [negb].
  set (b := "(" ++ base ++ ")").
  assert (E : "(" ++ base ++ ") * " ++ join " * " ts = join " * " (b :: ts)).
  { rewrite join_cons by done. unfold b. rewrite <-!app_assoc. done. }
  rewrite E. clear E. assert (Hbtr : trimmed b) by (by apply (trimmed_closed 40%N)).
  assert (Htr : trimmed (join " * " (b :: ts)) /\ join " * " (b :: ts) <> []).
  { rewrite join_cons by done. split; [|done]. rewrite app_assoc. by apply trimmed_app. }
  unfold splitBillingExprAndRequestRules. rewrite trim_trimmed by apply Htr.
  rewrite (proj2 (truthy_true _) (proj2 Htr)). cbn [negb].
  assert (Hs : splitTopLevelMultiply (join " * " (b :: ts)) = b :: ts).
  { unfold splitTopLevelMultiply. rewrite (split_top_join mul_sep); [|apply mul_separator|done|].
    - cbn [map]. rewrite (trim_trimmed b), (factors_trim ts gs) by done.
      unfold filter_truthy. cbn [List.filter]. change (truthy b) with true. f_equal. by eapply factors_truthy.
    - constructor; [|by eapply factors_solid]. apply (solid_group mul_sep base []); [done|constructor]. }
  rewrite Hs. replace (Nat.leb (length (b :: ts)) 1) with false by (by destruct ts).
  cbn [classify]. unfold b at 1. rewrite Hnr, (classify_factors ts gs) by done.
  destruct ts as [|t ts']; [done|]. f_equal. f_equal. by apply unwrap_once.
Qed.

(** Splitting undoes combining: an expression combined from a base and the
    printed rules splits into exactly that base and those rules. *)
Theorem split_combine base gs :
  base_ok base -> gs <> [] -> Forall group_ok gs ->
  splitBillingExprAndRequestRules (combineBillingExpr base (buildRequestRuleExpr gs))
  = Returns (base, buildRequestRuleExpr gs).
Proof. apply split_combined. Qed.

Lemma split_combine_witness :
  splitBillingExprAndRequestRules
    (combineBillingExpr "tier(`base`, p * 2 + c * 10)" (buildRequestRuleExpr demo_groups))
  = Returns ("tier(`base`, p * 2 + c * 10)" : jsstr, buildRequestRuleExpr demo_groups).
Proof.
  apply split_combine; [|discriminate|apply demo_groups_ok]. split.
  - discriminate.
  - split; reflexivity.
  - do 4 (apply bal_unit; [reflexivity|]).
    apply (bal_group "`base`, p * 2 + c * 10" []); repeat (apply bal_unit; [reflexivity|]); apply bal_nil.
  - reflexivity.
  - vm_compute. reflexivity.
Defined.

(** ** Comparisons *)

Definition compare_op (m : jsstr) : jsstr :=
  if str_eqb m MATCH_GT then ">" else if str_eqb m MATCH_GTE then ">="
  else if str_eqb m MATCH_LT then "<" else "<=".
Definition compare_modes : list jsstr := [MATCH_GT; MATCH_GTE; MATCH_LT; MATCH_LTE].

(** The accessor [param] at the head of the text. *)
Lemma run_param_name rr k b s r cs :
  strip_prefix "param" s = Some r ->
  run (RGroup 1 (alts ["param"; "header"]) ⋅ rr) k (Pos b s cs)
  = run rr k (Pos (last_or b "param") r ((1, "param" : jsstr) :: cs)) :> option pos.
Proof.
  intros ->%strip_prefix_spec. apply run_group_alts; [set_solver|repeat constructor; set_solver|].
  repeat (apply Forall_cons; split; [(by left) || (by right)|]). by apply Forall_nil.
Qed.

Lemma comparison_unparsed p m v : path_ok p -> m ∈ compare_modes -> numeric v ->
  tryParseRequestCondition ("param(`" ++ p ++ "`) " ++ compare_op m ++ " " ++ v) = Returns None.
Proof.
  intros [Hne Hp] Hm Hv. unfold compare_modes in Hm. rewrite !elem_of_cons, elem_of_nil in Hm.
  unfold tryParseRequestCondition. destruct Hm as [-> | [-> | [-> | [-> | []]]]]; not_a_time;
    unfold header_exists_re, param_exists_re, header_contains_re, param_contains_re, param_compare_re, equals_re;
    re_run; rewrite ?exec_begin; (erewrite run_param_name by reflexivity); by re_run.
Qed.

Lemma compare_op_units m : m ∈ compare_modes ->
  no_parens (" " ++ compare_op m ++ " ") /\ (38%N ∉ " " ++ compare_op m ++ " ").
Proof.
  unfold compare_modes. rewrite !elem_of_cons, elem_of_nil.
  intros [-> | [-> | [-> | [-> | []]]]]; (split; [repeat constructor|]);
    apply (proj1 (bool_decide_eq_true (_ ∉ _))); by vm_compute.
Qed.
Lemma build_comparison p m v : clean p -> p <> [] -> m ∈ compare_modes -> numeric v ->
  buildRequestConditionExpr (ParamHeaderCondition param p m v)
  = join " && " ["param(`" ++ p ++ "`) != nil"; "param(`" ++ p ++ "`) " ++ compare_op m ++ " " ++ v].
Proof.
  intros (Hp & Ht & _) Hne Hm Hv. unfold compare_modes in Hm. rewrite !elem_of_cons, elem_of_nil in Hm.
  assert (Hn : normalizeCondition (partial (ParamHeaderCondition param p m v)) = ParamHeaderCondition param p m v)
    by (by destruct Hm as [-> | [-> | [-> | [-> | []]]]]).
  assert (Hnum : buildRequestConditionExpr (ParamHeaderCondition param p m v)
    = ("param" ++ "(" ++ quote p ++ ")") ++ " != nil && " ++ ("param" ++ "(" ++ quote p ++ ")") ++ " " ++ compare_op m ++ " " ++ v).
  { unfold buildRequestConditionExpr. rewrite Hn. unfold build_param_header.
    rewrite !trim_trimmed by (done || by apply numeric_trimmed). rewrite (proj2 (truthy_true p) Hne). cbn [negb].
    unfold numeric in Hv. rewrite Hv. by destruct Hm as [-> | [-> | [-> | [-> | []]]]]. }
  rewrite Hnum. cbn [join]. rewrite <-!app_assoc, !build_call by done. done.
Qed.

(** The two conjuncts of a printed comparison. *)
Definition null_check (p : jsstr) : jsstr := "param(`" ++ p ++ "`) != nil".
Definition comparison (p m v : jsstr) : jsstr := "param(`" ++ p ++ "`) " ++ compare_op m ++ " " ++ v.
Lemma comparison_shape p m v : clean p -> m ∈ compare_modes -> numeric v ->
  solid and_sep (comparison p m v) /\ trimmed (comparison p m v) /\ bal (comparison p m v).
Proof.
  intros (Hp & _) Hm Hv. destruct (compare_op_units m Hm) as [Ho1 Ho2]. unfold comparison. split_and!.
  - apply (solid_call "param" p (" " ++ compare_op m ++ " " ++ v)); [repeat constructor; done|done|].
    rewrite !app_assoc. rewrite <-(app_assoc " "). by apply solid_before_numeric.
  - rewrite !app_assoc. apply trimmed_app; [done|by apply numeric_nonempty|by apply numeric_trimmed].
  - apply (bal_call "param" p (" " ++ compare_op m ++ " " ++ v)); [repeat constructor|done|].
    rewrite !app_assoc, <-(app_assoc " "). apply bal_app; [by apply bal_plain|by apply bal_numeric].
Qed.
Lemma split_and es : es <> [] -> Forall (solid and_sep) es -> Forall trimmed es -> Forall (fun e => e <> []) es ->
  splitTopLevelAnd (join " && " es) = es.
Proof.
  intros Hne Hs Ht Hn. unfold splitTopLevelAnd.
  rewrite (split_top_join and_sep es and_separator Hne Hs : split_top " && " 0 0 [] (join " && " es) = _).
  clear Hne Hs. induction Ht as [|e es He Ht IH]; [done|]. inversion Hn; subst.
  unfold filter_truthy in *. simpl. rewrite trim_trimmed by done.
  rewrite (proj2 (truthy_true e)) by done. f_equal. by apply IH.
Qed.
Lemma comparison_rejected p m v : clean p -> p <> [] -> m ∈ compare_modes -> numeric v ->
  tryParseRequestConditions (join " && " [null_check p; comparison p m v]) = Returns None.
Proof.
  intros Hc Hne Hm Hv. destruct (readable_exists param p Hc Hne) as [_ Ht1 Hb1 Hs1 Hp1 _].
  destruct (comparison_shape p m v Hc Hm Hv) as (Hs2 & Ht2 & _).
  unfold tryParseRequestConditions. rewrite split_and;
    [|done|constructor; [exact Hs1|by constructor]|constructor; [exact Ht1|by constructor]|by repeat constructor].
  cbn [collect]. rewrite (trim_trimmed _ Ht1 : trim (null_check p) = null_check p).
  rewrite (Hp1 : tryParseRequestCondition (null_check p) = _).
  rewrite trim_trimmed by done. destruct Hc as (Hp & _).
  by rewrite (comparison_unparsed p m v : _ -> _ -> _ -> tryParseRequestCondition (comparison p m v) = _).
Qed.

(** A parenthesised conditional whose condition is rejected is rejected. *)
Lemma factor_rejected body M : body <> [] -> bal body -> numeric M ->
  tryParseRequestConditions body = Returns None ->
  tryParseRequestRuleExpr ("(" ++ body ++ " ? " ++ M ++ " : 1)") = Returns None.
Proof.
  intros Hn Hb HM Hr.
  assert (E : "(" ++ body ++ " ? " ++ M ++ " : 1)" = "(" ++ (body ++ " ? " ++ M ++ " : 1") ++ ")")
    by (rewrite <-!app_assoc; done).
  assert (Ht : trimmed ("(" ++ body ++ " ? " ++ M ++ " : 1)")) by (rewrite E; by apply (trimmed_closed 40%N)).
  unfold tryParseRequestRuleExpr. rewrite trim_trimmed by done. rewrite split_single; [|rewrite E|done|done].
  - destruct (exec_factor body M Hn HM) as (m & Hm & H1 & _).
    unfold tryParseRuleGroupFactor, collect. rewrite Hm, H1, Hr. done.
  - apply (solid_group mul_sep _ []); [|constructor]. apply bal_app; [done|].
    apply bal_app; [repeat constructor|]. apply bal_app; [by apply bal_numeric|repeat constructor].
Qed.

(** Comparisons on request parameters do not survive: the editor offers
    gt, gte, lt and lte for them and prints a null check joined with the
    comparison, but the parser splits the text at that conjunction, finds no
    reading of the bare comparison and rejects the rule it printed. *)
Theorem comparisons_not_read_back p m v M :
  clean p -> p <> [] -> m ∈ compare_modes -> numeric v -> numeric M ->
  tryParseRequestRuleExpr (buildRequestRuleExpr
    [{| rule_conditions := [ParamHeaderCondition param p m v]; multiplier := M;
        conditionText := None; matched := None |}]) = Returns None.
Proof.
  intros Hc Hne Hm Hv HM. destruct (readable_exists param p Hc Hne) as [_ _ Hb1 _ _ _].
  destruct (comparison_shape p m v Hc Hm Hv) as (_ & _ & Hb2).
  set (body := join " && " [null_check p; comparison p m v]).
  assert (E : buildRequestRuleExpr [{| rule_conditions := [ParamHeaderCondition param p m v]; multiplier := M;
        conditionText := None; matched := None |}] = "(" ++ body ++ " ? " ++ M ++ " : 1)").
  { unfold buildRequestRuleExpr, buildRuleGroupFactor. cbn [rule_conditions multiplier map].
    rewrite build_comparison by done. rewrite trim_trimmed by (by apply numeric_trimmed).
    unfold numeric in HM. rewrite HM. done. }
  rewrite E. apply factor_rejected; [done| |done|by apply comparison_rejected].
  apply bal_join; [repeat constructor|]. constructor; [exact Hb1|by constructor].
Qed.

Lemma comparisons_not_read_back_witness :
  buildRequestRuleExpr [{| rule_conditions := [ParamHeaderCondition param "n" MATCH_GT "5"]; multiplier := "2";
        conditionText := None; matched := None |}] = "(param(`n`) != nil && param(`n`) > 5 ? 2 : 1)" /\
  tryParseRequestRuleExpr (buildRequestRuleExpr
    [{| rule_conditions := [ParamHeaderCondition param "n" MATCH_GT "5"]; multiplier := "2";
        conditionText := None; matched := None |}]) = Returns None.
Proof.
  split; [vm_compute; reflexivity|].
  apply comparisons_not_read_back; [|discriminate|by left|reflexivity|reflexivity].
  apply (proj1 (bool_decide_eq_true (clean "n"))). vm_compute. reflexivity.
Defined.

(** ** Tiers *)

Lemma parseTierBody_fields b : exists f, parseTierBody b = map (fun kf => (kf.2, f kf.1)) BILLING_VAR_KEY_TO_FIELD /\
  forall k, is_nan (f k) = false.
Proof.
  unfold parseTierBody. set (coeffs := fold_left _ (match_all _ _) []).
  exists (fun k => match obj_get k coeffs with Some n => if num_truthy n then n else num 0 | None => num 0 end).
  split; [reflexivity|]. intros k. destruct (obj_get k coeffs) as [[| | |]|]; reflexivity.
Qed.

(** Every tier that is read from an expression, well-formed or not, has
    exactly the nine price fields of the registry, in its order, and no price
    is NaN. *)
Theorem tier_prices_complete expr :
  Forall (fun t => (prices t).*1 = (BILLING_VAR_KEY_TO_FIELD).*2 /\
                   Forall (fun kv => is_nan kv.2 = false) (prices t)) (parseTiersFromExpr expr).
Proof.
  unfold parseTiersFromExpr. destruct (negb (truthy expr)); [constructor|].
  destruct (stripExprVersion expr) as [v body]. apply Forall_forall. intros t Ht.
  apply elem_of_map in Ht as (m & -> & _). cbn [prices].
  destruct (parseTierBody_fields (group 3 m)) as (f & -> & Hf). split; [reflexivity|].
  apply Forall_forall. intros kv Hkv. apply elem_of_map in Hkv as (kf & -> & _). apply Hf.
Qed.

(** The parser of request rules is not total: a string literal with an
    escape that JSON does not know makes it throw instead of returning null. *)
Theorem malformed_escape_throws :
  tryParseRequestRuleExpr ("(has(header(`x`), `" ++ [backslash] ++ "q`) ? 2 : 1)") = Throws /\
  tryParseRequestRuleExpr "(has(header(`x`), 5) ? 2 : 1)" = Returns None.
Proof. by vm_compute. Qed.

End BillingRules.
