(* ===== verification/AdvancedCustom.v ===== *)
(** Advanced custom channels (src/web/src/features/channels/lib/advanced-custom.ts,
    types in src/web/src/features/channels/types.ts): the route table of a
    channel, its normalisation, the replacement of management and forwarding
    routes, converter defaults, validation and the summary.

    The WHATWG parser behind [new URL(value)] belongs to the browser: it is the
    parameter [new_URL] of the definitions that use it. *)
From S2P Require Import Prelude JsNumber Json.

Record AdvancedCustomRouteAuth := {
  auth_type : option jsstr; auth_name : option jsstr; auth_value : option jsstr }.
Record AdvancedCustomRoute := {
  incoming_path : option jsstr; upstream_path : option jsstr; converter : option jsstr;
  models : option (list jsstr); route_auth : option AdvancedCustomRouteAuth }.
(** [None]: advanced_routes is missing. *)
Record AdvancedCustomConfig := { advanced_routes : option (list AdvancedCustomRoute) }.
Record AdvancedCustomValidationError := { err_message : jsstr; routeIndex : option nat }.

(** The two attributes of a parsed URL that the code reads. *)
Record URL := { host : jsstr; protocol : jsstr }.

Module AdvancedCustom.

Definition ADVANCED_CUSTOM_MODEL_LIST_PATH : jsstr := "/v1/models".
Definition ADVANCED_CUSTOM_MODEL_LIST_LABEL : jsstr := "OpenAI Models".
Definition ADVANCED_CUSTOM_BALANCE_PATH : jsstr := "/v1/dashboard/billing/credit_grants".
Definition ADVANCED_CUSTOM_BALANCE_LABEL : jsstr := "Balance Query".

Definition conv_none : jsstr := "none".
Definition conv_claude_chat : jsstr := "anthropic_messages_to_openai_chat_completions".
Definition conv_chat_claude : jsstr := "openai_chat_completions_to_anthropic_messages".
Definition conv_chat_responses : jsstr := "openai_chat_completions_to_openai_responses".
Definition conv_responses_chat : jsstr := "openai_responses_to_openai_chat_completions".
Definition conv_responses_gemini : jsstr := "openai_responses_to_gemini_generate_content".
Definition conv_gemini_chat : jsstr := "gemini_generate_content_to_openai_chat_completions".
Definition conv_chat_gemini : jsstr := "openai_chat_completions_to_gemini_generate_content".

(** Value, label and trigger label. *)
Definition ADVANCED_CUSTOM_CONVERTER_OPTIONS : list (jsstr * (jsstr * jsstr)) := [
  (conv_none, ("Native forwarding" : jsstr, "Native forwarding" : jsstr));
  (conv_claude_chat, ("Anthropic Messages to OpenAI Chat" : jsstr, "To OpenAI Chat" : jsstr));
  (conv_chat_claude, ("OpenAI Chat to Anthropic Messages" : jsstr, "To Anthropic Messages" : jsstr));
  (conv_chat_responses, ("OpenAI Chat to OpenAI Responses" : jsstr, "To OpenAI Responses" : jsstr));
  (conv_responses_chat, ("OpenAI Responses to OpenAI Chat" : jsstr, "To OpenAI Chat" : jsstr));
  (conv_responses_gemini, ("OpenAI Responses to Gemini Generate Content" : jsstr, "To Gemini Generate Content" : jsstr));
  (conv_gemini_chat, ("Gemini Generate Content to OpenAI Chat" : jsstr, "To OpenAI Chat" : jsstr));
  (conv_chat_gemini, ("OpenAI Chat to Gemini Generate Content" : jsstr, "To Gemini Generate Content" : jsstr))].

Definition ADVANCED_CUSTOM_AUTH_MODE_OPTIONS : list (jsstr * jsstr) := [
  ("default" : jsstr, "Default Bearer" : jsstr); ("none" : jsstr, "No Auth" : jsstr);
  ("header" : jsstr, "Header" : jsstr); ("query" : jsstr, "Query" : jsstr)].

Definition ADVANCED_CUSTOM_INCOMING_PATH_OPTIONS : list (jsstr * jsstr) := [
  ("/v1/chat/completions" : jsstr, "OpenAI Chat" : jsstr);
  ("/v1/responses" : jsstr, "OpenAI Responses" : jsstr);
  ("/v1/responses/compact" : jsstr, "OpenAI Responses Compact" : jsstr);
  ("/v1/alpha/search" : jsstr, "Codex Alpha Search" : jsstr);
  ("/v1/embeddings" : jsstr, "OpenAI Embeddings" : jsstr);
  ("/v1/images/generations" : jsstr, "OpenAI Image Generations" : jsstr);
  ("/v1/images/edits" : jsstr, "OpenAI Image Edits" : jsstr);
  ("/v1/completions" : jsstr, "OpenAI Completions" : jsstr);
  ("/v1/audio/speech" : jsstr, "OpenAI Audio Speech" : jsstr);
  ("/v1/audio/transcriptions" : jsstr, "OpenAI Audio Transcriptions" : jsstr);
  ("/v1/audio/translations" : jsstr, "OpenAI Audio Translations" : jsstr);
  ("/v1/rerank" : jsstr, "Rerank" : jsstr);
  ("/v1/realtime" : jsstr, "OpenAI Realtime" : jsstr);
  ("/v1/messages" : jsstr, "Claude Messages" : jsstr);
  ("/v1beta/models/{model}:generateContent" : jsstr, "Gemini Generate Content" : jsstr);
  ("/v1beta/models/{model}:embedContent" : jsstr, "Gemini Embed Content" : jsstr);
  ("/v1beta/models/{model}:batchEmbedContents" : jsstr, "Gemini Batch Embed Contents" : jsstr)].

Definition ADVANCED_CUSTOM_ROUTE_SUMMARY_LABELS : obj jsstr := [
  ("/v1/chat/completions" : jsstr, "OpenAI Chat" : jsstr);
  (ADVANCED_CUSTOM_MODEL_LIST_PATH, ADVANCED_CUSTOM_MODEL_LIST_LABEL);
  (ADVANCED_CUSTOM_BALANCE_PATH, ADVANCED_CUSTOM_BALANCE_LABEL)].

Definition ADVANCED_CUSTOM_MODEL_REGEX_PREFIX : jsstr := "re:".
Definition openAIChatPath : jsstr := "/v1/chat/completions".
Definition openAIResponsesPath : jsstr := "/v1/responses".
Definition claudeMessagesPath : jsstr := "/v1/messages".
Definition geminiGenerateContentPath : jsstr := "/v1beta/models/{model}:generateContent".

Definition mk_auth (t n v : jsstr) : AdvancedCustomRouteAuth :=
  {| auth_type := Some t; auth_name := Some n; auth_value := Some v |}.
Definition bearerHeaderAuth : AdvancedCustomRouteAuth := mk_auth "header" "Authorization" "Bearer {api_key}".
Definition apiKeyHeaderAuth : AdvancedCustomRouteAuth := mk_auth "header" "x-api-key" "{api_key}".
Definition geminiQueryAuth : AdvancedCustomRouteAuth := mk_auth "query" "key" "{api_key}".

Definition native_route (a : AdvancedCustomRouteAuth) (path : jsstr) : AdvancedCustomRoute :=
  {| incoming_path := Some path; upstream_path := Some path; converter := Some conv_none;
     models := None; route_auth := Some a |}.
Definition createOpenAINativeRoutes : list AdvancedCustomRoute :=
  map (native_route bearerHeaderAuth)
    ["/v1/chat/completions"; "/v1/completions"; "/v1/responses"; "/v1/responses/compact";
     "/v1/embeddings"; "/v1/images/generations"; "/v1/images/edits"; "/v1/audio/speech";
     "/v1/audio/transcriptions"; "/v1/audio/translations"; "/v1/realtime"].
Definition createClaudeNativeRoutes : list AdvancedCustomRoute :=
  [native_route apiKeyHeaderAuth "/v1/messages"].
Definition createGeminiNativeRoutes : list AdvancedCustomRoute :=
  map (native_route geminiQueryAuth)
    ["/v1beta/models/{model}:generateContent"; "/v1beta/models/{model}:embedContent";
     "/v1beta/models/{model}:batchEmbedContents"].
Definition createGatewayNativeRoutes : list AdvancedCustomRoute :=
  map (native_route bearerHeaderAuth) ["/v1/alpha/search"; "/v1/rerank"].

Definition config_of (l : list AdvancedCustomRoute) : AdvancedCustomConfig := {| advanced_routes := Some l |}.
Definition ADVANCED_CUSTOM_TEMPLATE_OPTIONS : list (jsstr * (jsstr * AdvancedCustomConfig)) := [
  ("all_protocols" : jsstr, ("All routes" : jsstr, config_of
     (createOpenAINativeRoutes ++ createClaudeNativeRoutes ++ createGeminiNativeRoutes ++ createGatewayNativeRoutes)));
  ("openai_only" : jsstr, ("OpenAI only" : jsstr, config_of createOpenAINativeRoutes));
  ("claude_only" : jsstr, ("Claude only" : jsstr, config_of createClaudeNativeRoutes));
  ("gemini_only" : jsstr, ("Gemini only" : jsstr, config_of createGeminiNativeRoutes))].

(** structuredClone of plain data. *)
Definition cloneAdvancedCustomConfig (c : AdvancedCustomConfig) : AdvancedCustomConfig := c.
Definition getAdvancedCustomTemplateConfig (templateKey : jsstr) : AdvancedCustomConfig :=
  match List.find (fun o => str_eqb o.1 templateKey) ADVANCED_CUSTOM_TEMPLATE_OPTIONS,
        ADVANCED_CUSTOM_TEMPLATE_OPTIONS with
  | Some o, _ | None, o :: _ => cloneAdvancedCustomConfig o.2.2
  | None, [] => {| advanced_routes := None |}
  end.

(** ** Normalisation *)

(** [route.upstream_path || ''], trimmed *)
Definition getAdvancedCustomRouteUpstreamPath (r : AdvancedCustomRoute) : jsstr :=
  trim (default [] (upstream_path r)).
Definition normalizeAdvancedCustomRouteModels (ms : option (list jsstr)) : list jsstr :=
  match ms with Some l => filter_truthy (map trim l) | None => [] end.

Definition normalizeAdvancedCustomRoute (r : AdvancedCustomRoute) : AdvancedCustomRoute :=
  let ms := normalizeAdvancedCustomRouteModels (models r) in
  {| incoming_path := Some (default [] (incoming_path r));
     upstream_path := Some (getAdvancedCustomRouteUpstreamPath r);
     converter := Some (str_or (default [] (converter r)) conv_none);
     models := match ms with [] => None | _ => Some ms end;
     route_auth := match route_auth r with
                   | Some a => Some {| auth_type := auth_type a;
                                       auth_name := Some (default [] (auth_name a));
                                       auth_value := Some (default [] (auth_value a)) |}
                   | None => None
                   end |}.
Definition normalizeAdvancedCustomConfig (c : AdvancedCustomConfig) : AdvancedCustomConfig :=
  config_of (match advanced_routes c with
             | Some l => map normalizeAdvancedCustomRoute l
             | None => []
             end).
Definition routes_of (c : AdvancedCustomConfig) : list AdvancedCustomRoute :=
  default [] (advanced_routes (normalizeAdvancedCustomConfig c)).

(** ** Management and forwarding routes *)

Definition isAdvancedCustomManagementPath (p : jsstr) : bool :=
  str_eqb p ADVANCED_CUSTOM_MODEL_LIST_PATH || str_eqb p ADVANCED_CUSTOM_BALANCE_PATH.
(** [route.incoming_path?.trim() || ''] *)
Definition route_path (r : AdvancedCustomRoute) : jsstr := trim (default [] (incoming_path r)).
(** [route.incoming_path?.trim() === path] *)
Definition has_path (p : jsstr) (r : AdvancedCustomRoute) : bool :=
  bool_decide (trim <$> incoming_path r = Some p).

Definition getAdvancedCustomManagementRoute (c : AdvancedCustomConfig) (path : jsstr)
  : option AdvancedCustomRoute := List.find (has_path path) (routes_of c).

Definition management_route (path : jsstr) (r : AdvancedCustomRoute) : AdvancedCustomRoute :=
  {| incoming_path := Some path; upstream_path := Some (default [] (upstream_path r));
     converter := Some conv_none; models := Some []; route_auth := route_auth r |}.
Definition replaceAdvancedCustomManagementRoute (c : AdvancedCustomConfig) (path : jsstr)
    (route : option AdvancedCustomRoute) : AdvancedCustomConfig :=
  let routes := routes_of c in
  config_of
    match route, find_index (has_path path) routes with
    | None, Some i => delete i routes
    | None, None => routes
    | Some r, Some i => <[i := management_route path r]> routes
    | Some r, None => routes ++ [management_route path r]
    end.

Definition is_management (r : AdvancedCustomRoute) : bool := isAdvancedCustomManagementPath (route_path r).
Definition replaceAdvancedCustomForwardingRoutes (c : AdvancedCustomConfig)
    (forwardingRoutes : list AdvancedCustomRoute) : AdvancedCustomConfig :=
  let routes := routes_of c in
  let managementRoutes := List.filter is_management routes in
  config_of
    match find_index (fun r => negb (is_management r)) routes with
    | None => managementRoutes ++ forwardingRoutes
    | Some i =>
        List.filter is_management (take i routes) ++ forwardingRoutes
        ++ List.filter is_management (drop i routes)
    end.

Definition createAdvancedCustomRoute : AdvancedCustomRoute :=
  {| incoming_path := Some openAIChatPath; upstream_path := Some openAIChatPath;
     converter := Some conv_none; models := None; route_auth := None |}.
Definition createAdvancedCustomConfig : AdvancedCustomConfig := config_of [createAdvancedCustomRoute].
Definition createAdvancedCustomManagementRoute (path : jsstr) : AdvancedCustomRoute :=
  {| incoming_path := Some path; upstream_path := Some path; converter := Some conv_none;
     models := Some []; route_auth := None |}.

(** ** Converters *)

Definition isAdvancedCustomConverter (v : jsstr) : bool :=
  existsb (fun o => str_eqb o.1 v) ADVANCED_CUSTOM_CONVERTER_OPTIONS.

Definition isConverterPathAllowed (incomingPath conv : jsstr) : bool :=
  if str_eqb conv conv_none then true
  else if str_eqb incomingPath "/v1/alpha/search" then false
  else if str_eqb conv conv_claude_chat then str_eqb incomingPath "/v1/messages"
  else if str_eqb conv conv_chat_claude || str_eqb conv conv_chat_responses || str_eqb conv conv_chat_gemini
  then str_eqb incomingPath "/v1/chat/completions"
  else if str_eqb conv conv_responses_chat then str_eqb incomingPath "/v1/responses"
  else if str_eqb conv conv_responses_gemini then str_eqb incomingPath "/v1/responses"
  else includes ":generateContent" incomingPath || includes ":streamGenerateContent" incomingPath.

Definition getAdvancedCustomIncomingPathOptions (conv : jsstr) : list (jsstr * jsstr) :=
  List.filter (fun o => isConverterPathAllowed o.1 conv) ADVANCED_CUSTOM_INCOMING_PATH_OPTIONS.
Definition getDefaultAdvancedCustomIncomingPath (conv : jsstr) : jsstr :=
  match getAdvancedCustomIncomingPathOptions conv with
  | o :: _ => str_or o.1 "/v1/chat/completions"
  | [] => "/v1/chat/completions"
  end.
Definition getAdvancedCustomConverterOptions (incomingPath : jsstr) : list (jsstr * (jsstr * jsstr)) :=
  let p := trim incomingPath in
  List.filter (fun o => str_eqb o.1 conv_none || isConverterPathAllowed p o.1) ADVANCED_CUSTOM_CONVERTER_OPTIONS.
Definition getAdvancedCustomIncomingPathLabel (v : jsstr) : jsstr :=
  match List.find (fun o => str_eqb o.1 v) ADVANCED_CUSTOM_INCOMING_PATH_OPTIONS with
  | Some o => str_or o.2 v
  | None => v
  end.

Definition getAdvancedCustomNativeAuth (incomingPath : jsstr) : AdvancedCustomRouteAuth :=
  if str_eqb incomingPath claudeMessagesPath then apiKeyHeaderAuth
  else if includes ":generateContent" incomingPath || includes ":streamGenerateContent" incomingPath
          || includes ":embedContent" incomingPath || includes ":batchEmbedContents" incomingPath
  then geminiQueryAuth
  else bearerHeaderAuth.

(** Upstream path and authentication. *)
Definition getAdvancedCustomConverterDefaults (conv incomingPath : jsstr) : jsstr * AdvancedCustomRouteAuth :=
  let p := str_or (trim incomingPath) (getDefaultAdvancedCustomIncomingPath conv) in
  if str_eqb conv conv_none then (p, getAdvancedCustomNativeAuth p)
  else if str_eqb conv conv_claude_chat || str_eqb conv conv_gemini_chat || str_eqb conv conv_responses_chat
  then (openAIChatPath, bearerHeaderAuth)
  else if str_eqb conv conv_chat_responses then (openAIResponsesPath, bearerHeaderAuth)
  else if str_eqb conv conv_chat_claude then (claudeMessagesPath, apiKeyHeaderAuth)
  else if str_eqb conv conv_chat_gemini || str_eqb conv conv_responses_gemini
  then (geminiGenerateContentPath, geminiQueryAuth)
  else (str_or p openAIChatPath, getAdvancedCustomNativeAuth p).
Definition getAdvancedCustomUpstreamPathPlaceholder (conv : jsstr) (incomingPath : option jsstr) : jsstr :=
  (getAdvancedCustomConverterDefaults conv
     (default (getDefaultAdvancedCustomIncomingPath conv) incomingPath)).1.

(** ** Models of a route *)

Definition parseAdvancedCustomRouteModels (v : jsstr) : list jsstr :=
  nub (filter_truthy (map trim (split_char 44 v))).
(** [true] for a regular expression rule. *)
Definition getAdvancedCustomModelRuleKind (rule : jsstr) : bool :=
  starts_with ADVANCED_CUSTOM_MODEL_REGEX_PREFIX rule.
Definition getAdvancedCustomRegexModelPattern (rule : jsstr) : jsstr :=
  drop (length ADVANCED_CUSTOM_MODEL_REGEX_PREFIX) rule.

(** ** Validation *)

(** The entry of routeModelsByPath for one path. *)
Record PathState := { catchAllIndex : option nat; path_models : gmap jsstr nat }.
Definition fresh_path : PathState := {| catchAllIndex := None; path_models := ∅ |}.

Definition error_at (i : nat) (m : jsstr) : AdvancedCustomValidationError :=
  {| err_message := m; routeIndex := Some i |}.

(** The loop over the models of one route. *)
Fixpoint add_models (i : nat) (seenInRoute : list jsstr) (ms : list jsstr) (st : PathState)
  : AdvancedCustomValidationError + PathState :=
  match ms with
  | [] => inr st
  | m :: rest =>
      if getAdvancedCustomModelRuleKind m && str_eqb (getAdvancedCustomRegexModelPattern m) []
      then inl (error_at i "Model regex cannot be empty")
      else if has m seenInRoute then inl (error_at i "Duplicate model in route models")
      else match path_models st !! m with
           | Some _ => inl (error_at i "Route models must be unique for the same incoming path")
           | None => add_models i (m :: seenInRoute) rest
                       {| catchAllIndex := catchAllIndex st; path_models := <[m := i]> (path_models st) |}
           end
  end.

Definition validateAdvancedCustomRouteModels (i : nat) (incomingPath : jsstr) (ms : list jsstr)
    (byPath : gmap jsstr PathState) : AdvancedCustomValidationError + gmap jsstr PathState :=
  let st := default fresh_path (byPath !! incomingPath) in
  match ms, catchAllIndex st with
  | [], Some _ => inl (error_at i "Only one catch-all route is allowed for the same incoming path")
  | [], None => inr (<[incomingPath := {| catchAllIndex := Some i; path_models := path_models st |}]> byPath)
  | _ :: _, Some _ => inl (error_at i "Catch-all route must be last for the same incoming path")
  | _ :: _, None =>
      match add_models i [] ms st with
      | inl e => inl e
      | inr st' => inr (<[incomingPath := st']> byPath)
      end
  end.

Definition blank (o : option jsstr) : bool :=
  match o with Some s => negb (truthy (trim s)) | None => true end.
Definition validateRouteAuth (a : option AdvancedCustomRouteAuth) : option jsstr :=
  match a with
  | None => None
  | Some a =>
      if bool_decide (auth_type a = Some ("none" : jsstr)) then None
      else if negb (bool_decide (auth_type a = Some ("header" : jsstr)))
              && negb (bool_decide (auth_type a = Some ("query" : jsstr)))
      then Some "Auth type is invalid"
      else if blank (auth_name a) then Some "Auth name is required"
      else if blank (auth_value a) then Some "Auth value is required"
      else None
  end.

(** The local variables of the validation loop. *)
Record ValState := {
  routeModelsByPath : gmap jsstr PathState;
  modelListRouteIndex : option nat; balanceRouteIndex : option nat }.

Section Validation.
Context (new_URL : jsstr -> option URL).

Definition isFullHttpURLOrAbsolutePath (v : jsstr) : bool :=
  if starts_with "/" v then negb (starts_with "//" v)
  else match new_URL v with
       | Some u => truthy (host u) && (str_eqb (protocol u) "http:" || str_eqb (protocol u) "https:")
       | None => false
       end.

(** The rules of a management route. *)
Definition check_management_rules (i : nat) (routeLabel upstreamPath conv : jsstr) (ms : list jsstr) (st : ValState)
  : AdvancedCustomValidationError + ValState :=
  if Nat.ltb 0 (length ms) then inl (error_at i (routeLabel ++ " route does not support client model rules"))
  else if negb (str_eqb conv conv_none) then inl (error_at i (routeLabel ++ " route must use native forwarding"))
  else if includes "{model}" upstreamPath
  then inl (error_at i (routeLabel ++ " upstream path must not contain {model}"))
  else inr st.

(** The block for management paths: an error, or the updated indices. *)
Definition check_management (i : nat) (incomingPath upstreamPath conv : jsstr) (ms : list jsstr) (st : ValState)
  : AdvancedCustomValidationError + ValState :=
  if negb (isAdvancedCustomManagementPath incomingPath) then inr st
  else
    let isModelListRoute := str_eqb incomingPath ADVANCED_CUSTOM_MODEL_LIST_PATH in
    let existingIndex := if isModelListRoute then modelListRouteIndex st else balanceRouteIndex st in
    let routeLabel : jsstr := if isModelListRoute then "OpenAI Models" else "Balance Query" in
    match existingIndex with
    | Some _ => inl (error_at i ("Only one " ++ routeLabel ++ " route is allowed"))
    | None =>
        let st := {| routeModelsByPath := routeModelsByPath st;
                     modelListRouteIndex := if isModelListRoute then Some i else modelListRouteIndex st;
                     balanceRouteIndex := if isModelListRoute then balanceRouteIndex st else Some i |} in
        check_management_rules i routeLabel upstreamPath conv ms st
    end.

(** One iteration. *)
Definition validate_route (i : nat) (r : AdvancedCustomRoute) (st : ValState)
  : AdvancedCustomValidationError + ValState :=
  let incomingPath := route_path r in
  let upstreamPath := getAdvancedCustomRouteUpstreamPath r in
  let conv := str_or (default [] (converter r)) conv_none in
  let routeModels := normalizeAdvancedCustomRouteModels (models r) in
  if negb (truthy incomingPath) then inl (error_at i "Incoming path is required")
  else if negb (starts_with "/" incomingPath) then inl (error_at i "Incoming path must start with /")
  else if includes "?" incomingPath then inl (error_at i "Incoming path must not include query")
  else match check_management i incomingPath upstreamPath conv routeModels st with
       | inl e => inl e
       | inr st =>
           match validateAdvancedCustomRouteModels i incomingPath routeModels (routeModelsByPath st) with
           | inl e => inl e
           | inr byPath =>
               let st := {| routeModelsByPath := byPath; modelListRouteIndex := modelListRouteIndex st;
                            balanceRouteIndex := balanceRouteIndex st |} in
               if negb (truthy upstreamPath) then inl (error_at i "Upstream path is required")
               else if negb (isFullHttpURLOrAbsolutePath upstreamPath)
               then inl (error_at i "Upstream path must be a full URL or a path starting with /")
               else if negb (isAdvancedCustomConverter conv) then inl (error_at i "Converter is not registered")
               else if negb (isConverterPathAllowed incomingPath conv)
               then inl (error_at i "Converter does not match incoming path")
               else match validateRouteAuth (route_auth r) with
                    | Some m => inl (error_at i m)
                    | None => inr st
                    end
           end
       end.

Fixpoint validate_routes (i : nat) (rs : list AdvancedCustomRoute) (st : ValState)
  : option AdvancedCustomValidationError :=
  match rs with
  | [] => None
  | r :: rest => match validate_route i r st with
                 | inl e => Some e
                 | inr st' => validate_routes (S i) rest st'
                 end
  end.

Definition initial_state : ValState :=
  {| routeModelsByPath := ∅; modelListRouteIndex := None; balanceRouteIndex := None |}.

Definition validateAdvancedCustomConfig (c : option AdvancedCustomConfig)
  : option AdvancedCustomValidationError :=
  match c with
  | None => Some {| err_message := "Advanced custom configuration is required"; routeIndex := None |}
  | Some c =>
      match routes_of c with
      | [] => Some {| err_message := "Advanced custom configuration requires at least one route";
                      routeIndex := None |}
      | rs => validate_routes 0 rs initial_state
      end
  end.

Definition hasValidAdvancedCustomModelListRoute (c : option AdvancedCustomConfig) : bool :=
  match c, validateAdvancedCustomConfig c with
  | Some c, None => existsb (has_path ADVANCED_CUSTOM_MODEL_LIST_PATH) (routes_of c)
  | _, _ => false
  end.
Definition advancedCustomConfigUsesRelativeUpstreamPath (c : option AdvancedCustomConfig) : bool :=
  match c with
  | Some c => existsb (fun r => starts_with "/" (getAdvancedCustomRouteUpstreamPath r)) (routes_of c)
  | None => false
  end.

(** [null] for no label. *)
Definition getAdvancedCustomRouteSummaryLabel (r : AdvancedCustomRoute) : option jsstr :=
  let p := route_path r in
  if negb (truthy p) then None
  else Some (match obj_get p ADVANCED_CUSTOM_ROUTE_SUMMARY_LABELS with
             | Some l => str_or l (getAdvancedCustomIncomingPathLabel p)
             | None => getAdvancedCustomIncomingPathLabel p
             end).
(** Route count, validity and the labels in order of first occurrence, of a
    parsed configuration. *)
Definition stats_of_config (config : option AdvancedCustomConfig) : nat * bool * list jsstr :=
  match config with
  | None => (0, false, [])
  | Some c =>
      let normalized := normalizeAdvancedCustomConfig c in
      let routes := default [] (advanced_routes normalized) in
      (length routes,
       match validateAdvancedCustomConfig (Some normalized) with None => true | Some _ => false end,
       nub (filter_truthy (omap getAdvancedCustomRouteSummaryLabel routes)))
  end.
End Validation.

(** ** Authentication of a route *)

Definition getAdvancedCustomAuthMode (r : AdvancedCustomRoute) : jsstr :=
  match route_auth r with
  | Some a => str_or (default [] (auth_type a)) "default"
  | None => "default"
  end.
Definition prev_or (f : AdvancedCustomRouteAuth -> option jsstr) (prev : option AdvancedCustomRouteAuth)
    (d : jsstr) : jsstr :=
  match prev with Some a => str_or (default [] (f a)) d | None => d end.
Definition buildAdvancedCustomAuth (mode : jsstr) (prev : option AdvancedCustomRouteAuth)
  : option AdvancedCustomRouteAuth :=
  if str_eqb mode "default" then None
  else if str_eqb mode "none"
  then Some {| auth_type := Some ("none" : jsstr); auth_name := None; auth_value := None |}
  else if str_eqb mode "header"
  then Some (mk_auth "header" (prev_or auth_name prev "Authorization") (prev_or auth_value prev "Bearer {api_key}"))
  else Some (mk_auth "query" (prev_or auth_name prev "api_key") (prev_or auth_value prev "{api_key}")).

End AdvancedCustom.

(** * What validation decides *)

Module Routes.
Import AdvancedCustom.

Definition route_models (r : AdvancedCustomRoute) : list jsstr := normalizeAdvancedCustomRouteModels (models r).
Definition route_converter (r : AdvancedCustomRoute) : jsstr := str_or (default [] (converter r)) conv_none.
Definition empty_regex (m : jsstr) : bool :=
  getAdvancedCustomModelRuleKind m && str_eqb (getAdvancedCustomRegexModelPattern m) [].

Section Spec.
Context (new_URL : jsstr -> option URL).

(** A route that is acceptable by itself. *)
Record route_ok (r : AdvancedCustomRoute) : Prop := {
  ok_path : route_path r <> [] /\ starts_with "/" (route_path r) = true /\ includes "?" (route_path r) = false;
  ok_management : is_management r = true ->
    route_models r = [] /\ route_converter r = conv_none /\
    includes "{model}" (getAdvancedCustomRouteUpstreamPath r) = false;
  ok_models : NoDup (route_models r) /\ Forall (fun m => empty_regex m = false) (route_models r);
  ok_upstream : getAdvancedCustomRouteUpstreamPath r <> [] /\
    isFullHttpURLOrAbsolutePath new_URL (getAdvancedCustomRouteUpstreamPath r) = true;
  ok_converter : isAdvancedCustomConverter (route_converter r) = true /\
    isConverterPathAllowed (route_path r) (route_converter r) = true;
  ok_auth : validateRouteAuth (route_auth r) = None }.

(** A route before another one of the same path: it is no catch-all, and they
    share no model rule. *)
Definition compatible (r r' : AdvancedCustomRoute) : Prop :=
  route_path r = route_path r' ->
  route_models r <> [] /\ forall m, m ∈ route_models r -> m ∈ route_models r' -> False.

Definition valid (rs : list AdvancedCustomRoute) : Prop := Forall route_ok rs /\ ForallOrdPairs compatible rs.

Lemma pairs_snoc {A} (R : A -> A -> Prop) l x :
  ForallOrdPairs R (l ++ [x]) <-> ForallOrdPairs R l /\ Forall (fun y => R y x) l.
Proof.
  induction l as [|a l IH]; simpl.
  - split; [repeat constructor|repeat constructor].
  - split.
    + intros H. inversion H as [|? ? Ha Hl]; subst. apply IH in Hl as [Hl Hx].
      apply Forall_app in Ha as [Ha Hax]. inversion Hax; subst. split; constructor; done.
    + intros [H Hx]. inversion H as [|? ? Ha Hl]; subst. inversion Hx; subst.
      constructor; [apply Forall_app; split; [done|by constructor]|by apply IH].
Qed.
Lemma pairs_prefix {A} (R : A -> A -> Prop) l k : ForallOrdPairs R (l ++ k) -> ForallOrdPairs R l.
Proof.
  revert l. induction k as [|x k IH]; intros l; [by rewrite app_nil_r|].
  rewrite (app_assoc l [x] k : l ++ x :: k = _). intros H%IH. by apply pairs_snoc in H as [? _].
Qed.
Lemma valid_snoc rs r : valid (rs ++ [r]) <-> valid rs /\ route_ok r /\ Forall (fun r' => compatible r' r) rs.
Proof. unfold valid. rewrite pairs_snoc, Forall_app, Forall_singleton. tauto. Qed.
Lemma valid_prefix rs k : valid (rs ++ k) -> valid rs.
Proof. intros [H1 H2]. apply Forall_app in H1 as [H1 _]. split; [done|by eapply pairs_prefix]. Qed.

(** ** The state of the loop describes the routes already passed *)

Definition entry (byPath : gmap jsstr PathState) (p : jsstr) : PathState := default fresh_path (byPath !! p).
Record tracks (done : list AdvancedCustomRoute) (byPath : gmap jsstr PathState) : Prop := {
  t_catch : forall p, catchAllIndex (entry byPath p) <> None <->
    exists r, r ∈ done /\ route_path r = p /\ route_models r = [];
  t_models : forall p m, path_models (entry byPath p) !! m <> None <->
    exists r, r ∈ done /\ route_path r = p /\ m ∈ route_models r }.
Record describes (done : list AdvancedCustomRoute) (st : ValState) : Prop := {
  d_valid : valid done;
  d_tracks : tracks done (routeModelsByPath st);
  d_list : modelListRouteIndex st <> None <-> exists r, r ∈ done /\ route_path r = ADVANCED_CUSTOM_MODEL_LIST_PATH;
  d_balance : balanceRouteIndex st <> None <-> exists r, r ∈ done /\ route_path r = ADVANCED_CUSTOM_BALANCE_PATH }.

Lemma no_route (P : AdvancedCustomRoute -> Prop) : (exists r, r ∈ @nil AdvancedCustomRoute /\ P r) -> False.
Proof. intros (r & Hr & _). by apply elem_of_nil in Hr. Qed.
Lemma describes_initial : describes [] initial_state.
Proof.
  split; [split; constructor|split|..]; unfold entry; intros; simpl; rewrite ?lookup_empty; simpl;
    (split; [done|]); intros []%no_route.
Qed.

Lemma add_models_spec i seen ms st :
  match add_models i seen ms st with
  | inl e => routeIndex e = Some i /\
      ~ (Forall (fun m => empty_regex m = false) ms /\ NoDup ms /\
         forall m, m ∈ ms -> (m ∉ seen) /\ path_models st !! m = None)
  | inr st' => Forall (fun m => empty_regex m = false) ms /\ NoDup ms /\
      (forall m, m ∈ ms -> (m ∉ seen) /\ path_models st !! m = None) /\
      catchAllIndex st' = catchAllIndex st /\
      forall m, path_models st' !! m <> None <-> m ∈ ms \/ path_models st !! m <> None
  end.
Proof.
  revert seen st. induction ms as [|m ms IH]; intros seen st; simpl.
  { split_and!; try done; [by constructor| |]; [by intros ? ?%elem_of_nil|].
    intros m. rewrite elem_of_nil. tauto. }
  fold (empty_regex m). destruct (empty_regex m) eqn:Er.
  { split; [done|]. intros [H _]. inversion H; congruence. }
  destruct (has m seen) eqn:Es.
  { split; [done|]. intros (_ & _ & H). apply has_spec in Es. destruct (H m); [by left|done]. }
  apply has_spec_false in Es. destruct (path_models st !! m) as [j|] eqn:Em.
  { split; [done|]. intros (_ & _ & H). destruct (H m) as [_ ?]; [by left|]. congruence. }
  specialize (IH (m :: seen) {| catchAllIndex := catchAllIndex st; path_models := <[m := i]> (path_models st) |}).
  simpl in IH. destruct (add_models _ _ _ _) as [e|st'].
  - destruct IH as [He Hn]. split; [done|]. intros (Hf & Hnd & H). apply Hn.
    inversion Hf; subst. inversion Hnd as [|? ? Hm Hnd']; subst. split_and!; [done|done|].
    intros m' Hm'. assert (m' <> m) by congruence. destruct (H m') as [? ?]; [by right|].
    rewrite lookup_insert_ne by done. rewrite not_elem_of_cons. done.
  - destruct IH as (Hf & Hnd & H & Hc & Hl).
    assert (Hm : m ∉ ms). { intros Hm. destruct (H m Hm) as [Hs _]. apply Hs. by left. }
    split_and!; [by constructor|by constructor| |done|].
    + intros m' [->|Hm']%elem_of_cons; [done|]. destruct (H m' Hm') as [Hs Hk].
      apply not_elem_of_cons in Hs as [Hne Hs]. by rewrite lookup_insert_ne in Hk.
    + intros m'. rewrite Hl, elem_of_cons. destruct (decide (m' = m)) as [->|Hne].
      * rewrite lookup_insert. rewrite decide_True by done. naive_solver.
      * rewrite lookup_insert_ne by done. naive_solver.
Qed.

(** Adding a route to the picture changes the entry of its path only. *)
Lemma exists_snoc (P : AdvancedCustomRoute -> Prop) done r :
  (exists r', r' ∈ done ++ [r] /\ P r') <-> (exists r', r' ∈ done /\ P r') \/ P r.
Proof.
  setoid_rewrite elem_of_app. setoid_rewrite list_elem_of_singleton. naive_solver.
Qed.
Lemma tracks_snoc done byPath r st' :
  tracks done byPath ->
  (catchAllIndex st' <> None <-> catchAllIndex (entry byPath (route_path r)) <> None \/ route_models r = []) ->
  (forall m, path_models st' !! m <> None <->
     path_models (entry byPath (route_path r)) !! m <> None \/ m ∈ route_models r) ->
  tracks (done ++ [r]) (<[route_path r := st']> byPath).
Proof.
  intros [Hc Hm] H1 H2. split.
  - intros p. rewrite exists_snoc, <-Hc. unfold entry.
    destruct (decide (p = route_path r)) as [->|Hne].
    + rewrite lookup_insert, decide_True by done. simpl. rewrite H1. unfold entry. naive_solver.
    + rewrite lookup_insert_ne by done. naive_solver.
  - intros p m. rewrite exists_snoc, <-Hm. unfold entry.
    destruct (decide (p = route_path r)) as [->|Hne].
    + rewrite lookup_insert, decide_True by done. simpl. rewrite H2. unfold entry. naive_solver.
    + rewrite lookup_insert_ne by done. naive_solver.
Qed.

Definition models_fit (done : list AdvancedCustomRoute) (r : AdvancedCustomRoute) : Prop :=
  (NoDup (route_models r) /\ Forall (fun m => empty_regex m = false) (route_models r)) /\
  Forall (fun r' => compatible r' r) done.

Lemma fit_iff done byPath r : tracks done byPath ->
  Forall (fun r' => compatible r' r) done <->
  catchAllIndex (entry byPath (route_path r)) = None /\
  forall m, m ∈ route_models r -> path_models (entry byPath (route_path r)) !! m = None.
Proof.
  intros [Hc Hm]. rewrite Forall_forall. unfold compatible. split.
  - intros H. split.
    + apply dec_stable. intros Hn. apply Hc in Hn as (r' & Hr' & Hp & He). by destruct (H r' Hr' Hp).
    + intros m Hin. apply dec_stable. intros Hn. apply Hm in Hn as (r' & Hr' & Hp & He).
      destruct (H r' Hr' Hp) as [_ Hd]. by apply (Hd m).
  - intros [Hn Hd] r' Hr' Hp. split.
    + intros He. apply (Hc (route_path r)); [eauto|done].
    + intros m Hin Hin'. apply (Hm (route_path r) m); [eauto|by apply Hd].
Qed.

Lemma validate_models_spec i done byPath r : tracks done byPath ->
  match validateAdvancedCustomRouteModels i (route_path r) (route_models r) byPath with
  | inl e => routeIndex e = Some i /\ ~ models_fit done r
  | inr byPath' => models_fit done r /\ tracks (done ++ [r]) byPath'
  end.
Proof.
  intros Ht. unfold validateAdvancedCustomRouteModels, models_fit. fold (entry byPath (route_path r)).
  pose proof (fit_iff done byPath r Ht) as Hfit.
  destruct (route_models r) as [|m ms] eqn:Er; destruct (catchAllIndex (entry byPath (route_path r))) as [j|] eqn:Ec.
  - split; [done|]. intros [_ [H _]%Hfit]. done.
  - split; [split_and!; [by constructor|by constructor|]|].
    + apply Hfit. split; [done|by intros ? ?%elem_of_nil].
    + apply tracks_snoc; [done|simpl; rewrite Er; naive_solver|]. intros m. simpl. rewrite Er, elem_of_nil. tauto.
  - split; [done|]. intros [_ [H _]%Hfit]. done.
  - pose proof (add_models_spec i [] (m :: ms) (entry byPath (route_path r))) as Ha.
    destruct (add_models _ _ _ _) as [e|st'].
    + destruct Ha as [He Hn]. split; [done|]. intros ([Hnd Hf] & [_ Hd]%Hfit). apply Hn.
      split_and!; [done|done|]. intros m' Hm'. split; [apply not_elem_of_nil|by apply Hd].
    + destruct Ha as (Hf & Hnd & Hd & Hc & Hl). split.
      * split; [done|]. apply Hfit. split; [done|]. intros m' Hm'. by apply Hd.
      * apply tracks_snoc; [done| |].
        -- rewrite Hc, Ec, Er. naive_solver.
        -- intros m'. rewrite Hl, Er. tauto.
Qed.

(** ** Management routes *)

Lemma management_done done r r' :
  valid done -> r' ∈ done -> is_management r = true -> route_path r' = route_path r ->
  ~ Forall (fun x => compatible x r) done.
Proof.
  intros [Hv _] Hr' Hm Hp H. rewrite Forall_forall in Hv, H.
  destruct (ok_management _ (Hv r' Hr')) as [He _]; [unfold is_management in *; by rewrite Hp|].
  by destruct (H r' Hr' Hp).
Qed.
Definition management_fit (r : AdvancedCustomRoute) : Prop :=
  is_management r = true -> route_models r = [] /\ route_converter r = conv_none /\
    includes "{model}" (getAdvancedCustomRouteUpstreamPath r) = false.

Lemma management_rules_spec i r lbl st : is_management r = true ->
  match check_management_rules i lbl (getAdvancedCustomRouteUpstreamPath r) (route_converter r) (route_models r) st with
  | inl e => routeIndex e = Some i /\ ~ management_fit r
  | inr st' => st' = st /\ management_fit r
  end.
Proof.
  intros Em. unfold check_management_rules, management_fit. rewrite Em.
  destruct (route_models r) as [|m ms]; cbn [length Nat.ltb Nat.leb]; [|split; [done|naive_solver]].
  destruct (str_eqb (route_converter r) conv_none) eqn:Ec; cbn [negb]; js_reflect; [|split; [done|naive_solver]].
  destruct (includes "{model}" _) eqn:Ei; [split; [done|naive_solver]|naive_solver].
Qed.

Lemma check_management_spec i done st r :
  describes done st ->
  match check_management i (route_path r) (getAdvancedCustomRouteUpstreamPath r) (route_converter r) (route_models r) st with
  | inl e => routeIndex e = Some i /\ ~ (management_fit r /\ Forall (fun x => compatible x r) done)
  | inr st' => management_fit r /\ routeModelsByPath st' = routeModelsByPath st /\
      (modelListRouteIndex st' <> None <-> exists r', r' ∈ done ++ [r] /\ route_path r' = ADVANCED_CUSTOM_MODEL_LIST_PATH) /\
      (balanceRouteIndex st' <> None <-> exists r', r' ∈ done ++ [r] /\ route_path r' = ADVANCED_CUSTOM_BALANCE_PATH)
  end.
Proof.
  intros [Hv _ Hl Hb]. unfold check_management. fold (is_management r).
  pose proof (exists_snoc (fun r' => route_path r' = ADVANCED_CUSTOM_MODEL_LIST_PATH) done r) as Sl.
  pose proof (exists_snoc (fun r' => route_path r' = ADVANCED_CUSTOM_BALANCE_PATH) done r) as Sb.
  simpl in Sl, Sb. rewrite <-Hl in Sl. rewrite <-Hb in Sb.
  destruct (is_management r) eqn:Em; cbn [negb].
  2:{ assert (Hmf : management_fit r) by (intros H; congruence).
      unfold is_management, isAdvancedCustomManagementPath in Em. js_reflect.
      split_and!; [done|done|rewrite Sl; tauto|rewrite Sb; tauto]. }
  assert (Hex : forall r', r' ∈ done -> route_path r' = route_path r -> ~ Forall (fun x => compatible x r) done)
    by (intros; by eapply management_done).
  pose proof (fun lbl st => management_rules_spec i r lbl st Em) as Hcases.
  unfold is_management, isAdvancedCustomManagementPath in Em.
  destruct (str_eqb (route_path r) ADVANCED_CUSTOM_MODEL_LIST_PATH) eqn:Ep; js_reflect.
  - destruct (modelListRouteIndex st) as [j|] eqn:Ej.
    + split; [done|]. intros [_ H]. destruct (proj1 Hl) as (r' & Hr' & Hp); [done|].
      apply (Hex r'); [done|congruence|done].
    + match goal with |- context [check_management_rules i ?lbl _ _ _ ?st'] => specialize (Hcases lbl st') end.
      destruct (check_management_rules _ _ _ _ _ _) as [e|st'']; [naive_solver|]. destruct Hcases as [-> Hf].
      split_and!; [done|done|rewrite Sl; simpl; naive_solver|rewrite Sb; simpl].
      rewrite Ep. intuition discriminate.
  - destruct Em as [Em|Em]; [done|]. apply str_eqb_true in Em.
    destruct (balanceRouteIndex st) as [j|] eqn:Ej.
    + split; [done|]. intros [_ H]. destruct (proj1 Hb) as (r' & Hr' & Hp); [done|].
      apply (Hex r'); [done|congruence|done].
    + match goal with |- context [check_management_rules i ?lbl _ _ _ ?st'] => specialize (Hcases lbl st') end.
      destruct (check_management_rules _ _ _ _ _ _) as [e|st'']; [naive_solver|]. destruct Hcases as [-> Hf].
      split_and!; [done|done|rewrite Sl; simpl|rewrite Sb; simpl; naive_solver].
      rewrite Em. intuition discriminate.
Qed.

(** ** One route, then all of them *)

Lemma validate_route_spec i done st r : describes done st ->
  match validate_route new_URL i r st with
  | inl e => routeIndex e = Some i /\ ~ valid (done ++ [r])
  | inr st' => describes (done ++ [r]) st'
  end.
Proof.
  intros Hd. pose proof Hd as [Hv Ht _ _]. unfold validate_route.
  assert (Hno : forall P : Prop, (route_ok r -> Forall (fun x => compatible x r) done -> P) -> ~ P ->
    ~ valid (done ++ [r])) by (intros P; rewrite valid_snoc; tauto).
  destruct (truthy (route_path r)) eqn:E1; cbn [negb].
  2:{ split; [done|]. apply (Hno (route_path r <> [])); [by intros H _; apply (ok_path _ H)|]. apply truthy_false in E1. tauto. }
  destruct (starts_with "/" (route_path r)) eqn:E2; cbn [negb].
  2:{ split; [done|]. apply (Hno (starts_with "/" (route_path r) = true)); [by intros H _; apply (ok_path _ H)|congruence]. }
  destruct (includes "?" (route_path r)) eqn:E3.
  { split; [done|]. apply (Hno (includes "?" (route_path r) = false)); [by intros H _; apply (ok_path _ H)|congruence]. }
  fold (route_converter r) (route_models r).
  pose proof (check_management_spec i done st r Hd) as Hm.
  destruct (check_management _ _ _ _ _ _) as [e|st1].
  { destruct Hm as [He Hn]. split; [done|]. apply (Hno _ (fun Hr Hc => conj (ok_management _ Hr) Hc) Hn). }
  destruct Hm as (Hmf & Hby & Hl & Hb). rewrite Hby.
  pose proof (validate_models_spec i done _ r Ht) as Hms.
  destruct (validateAdvancedCustomRouteModels _ _ _ _) as [e|byPath].
  { destruct Hms as [He Hn]. split; [done|]. apply (Hno _ (fun Hr Hc => conj (ok_models _ Hr) Hc) Hn). }
  destruct Hms as [[Hmo Hco] Htr].
  destruct (truthy (getAdvancedCustomRouteUpstreamPath r)) eqn:E4; cbn [negb].
  2:{ split; [done|]. apply (Hno (getAdvancedCustomRouteUpstreamPath r <> []));
        [by intros H _; apply (ok_upstream _ H)|]. apply truthy_false in E4. tauto. }
  destruct (isFullHttpURLOrAbsolutePath _ _) eqn:E5; cbn [negb].
  2:{ split; [done|]. eapply Hno; [intros H _; exact (proj2 (ok_upstream _ H))|congruence]. }
  destruct (isAdvancedCustomConverter _) eqn:E6; cbn [negb].
  2:{ split; [done|]. eapply Hno; [intros H _; exact (proj1 (ok_converter _ H))|congruence]. }
  destruct (isConverterPathAllowed _ _) eqn:E7; cbn [negb].
  2:{ split; [done|]. eapply Hno; [intros H _; exact (proj2 (ok_converter _ H))|congruence]. }
  destruct (validateRouteAuth _) as [m|] eqn:E8.
  { split; [done|]. eapply Hno; [intros H _; exact (ok_auth _ H)|congruence]. }
  split; [|done|done|done]. apply valid_snoc. split_and!; [done| |done].
  apply truthy_true in E1, E4. by split.
Qed.

Lemma validate_routes_spec i done rs st : describes done st -> i = length done ->
  match validate_routes new_URL i rs st with
  | None => valid (done ++ rs)
  | Some e => exists j, routeIndex e = Some (i + j) /\ j < length rs /\
      valid (done ++ take j rs) /\ ~ valid (done ++ take (S j) rs)
  end.
Proof.
  revert i done st. induction rs as [|r rs IH]; intros i done st Hd Hi; simpl.
  { rewrite app_nil_r. apply Hd. }
  pose proof (validate_route_spec i done st r Hd) as Hr.
  destruct (validate_route new_URL i r st) as [e|st'].
  - exists 0. simpl. rewrite Nat.add_0_r, app_nil_r. destruct Hr. split_and!; [done|lia|apply Hd|done].
  - specialize (IH (S i) (done ++ [r]) st' Hr). rewrite length_app in IH. simpl in IH.
    specialize (IH ltac:(lia)). destruct (validate_routes new_URL (S i) rs st') as [e|].
    + destruct IH as (j & He & Hj & H1 & H2). exists (S j). rewrite <-!app_assoc in *. simpl in *.
      split_and!; [rewrite He; f_equal; lia|lia|done|done].
    + by rewrite <-app_assoc in IH.
Qed.
End Spec.

(** * Claims *)

(** C31: validation decides validity and points at the culprit: a configuration
    is accepted exactly when it has routes, every route is acceptable by
    itself, a catch-all route is the last of its path and model rules are
    unique per path; otherwise the reported index is the first route that
    breaks this (the routes before it are valid, with it they are not). *)
Theorem validation_exact new_URL c :
  match validateAdvancedCustomConfig new_URL (Some c) with
  | None => routes_of c <> [] /\ valid new_URL (routes_of c)
  | Some e =>
      match routeIndex e with
      | None => routes_of c = []
      | Some i => i < length (routes_of c) /\ valid new_URL (take i (routes_of c)) /\
          ~ valid new_URL (take (S i) (routes_of c))
      end
  end.
Proof.
  unfold validateAdvancedCustomConfig. destruct (routes_of c) as [|r rs] eqn:E; [done|].
  pose proof (validate_routes_spec new_URL 0 [] (r :: rs) initial_state (describes_initial new_URL) eq_refl) as H.
  destruct (validate_routes _ _ _ _) as [e|]; [|by split].
  destruct H as (j & -> & Hj & H1 & H2). done.
Qed.

Lemma route_models_fixed ms :
  normalizeAdvancedCustomRouteModels (match normalizeAdvancedCustomRouteModels ms with
    | [] => None | _ => Some (normalizeAdvancedCustomRouteModels ms) end) = normalizeAdvancedCustomRouteModels ms.
Proof.
  destruct (normalizeAdvancedCustomRouteModels ms) as [|m l'] eqn:E; [done|]. rewrite <-E. clear m l' E.
  unfold normalizeAdvancedCustomRouteModels. destruct ms as [l'|]; [|done].
  unfold filter_truthy. rewrite (map_id_on trim), bfilter_id; [done|..].
  - intros x Hx. by apply elem_of_bfilter in Hx as [_ ?].
  - intros x Hx. apply elem_of_bfilter in Hx as [Hx _]. apply elem_of_map in Hx as (y & -> & _). apply trim_idemp.
Qed.
Lemma normalizeRoute_idemp r :
  normalizeAdvancedCustomRoute (normalizeAdvancedCustomRoute r) = normalizeAdvancedCustomRoute r.
Proof.
  unfold normalizeAdvancedCustomRoute, getAdvancedCustomRouteUpstreamPath. simpl. f_equal.
  - by rewrite trim_idemp.
  - unfold str_or. by destruct (default [] (converter r)).
  - by rewrite route_models_fixed.
  - by destruct (route_auth r) as [[]|].
Qed.

(** Normalisation is a projection: a normalised configuration is left
    unchanged, so validating, summarising or replacing routes in it a second
    time works on the same routes. *)
Theorem normalize_idempotent_config c :
  normalizeAdvancedCustomConfig (normalizeAdvancedCustomConfig c) = normalizeAdvancedCustomConfig c.
Proof.
  unfold normalizeAdvancedCustomConfig, config_of. simpl. f_equal. f_equal.
  destruct (advanced_routes c) as [l|]; [|done]. rewrite map_map. apply map_ext, normalizeRoute_idemp.
Qed.

Lemma management_split (rs : list AdvancedCustomRoute) i :
  find_index (fun r => negb (is_management r)) rs = Some i ->
  List.filter is_management (take i rs) = take i rs.
Proof.
  intros H. apply bfilter_id. intros x Hx. apply find_index_some in H as (y & _ & _ & H).
  apply list_elem_of_lookup in Hx as [j Hj]. apply lookup_take_Some in Hj as [Hj Hlt].
  specialize (H j x Hlt Hj). by apply negb_false_iff in H.
Qed.

(** Saving the forwarding routes replaces exactly those: the management
    routes keep their order, the new routes are the forwarding routes of the
    result, and they start where the old forwarding routes started. *)
Theorem replace_forwarding_exact c fs :
  Forall (fun r => is_management r = false) fs ->
  exists before after,
    advanced_routes (replaceAdvancedCustomForwardingRoutes c fs) = Some (before ++ fs ++ after) /\
    before ++ after = List.filter is_management (routes_of c) /\
    List.filter (fun r => negb (is_management r)) (before ++ fs ++ after) = fs /\
    (exists rest, routes_of c = before ++ rest /\ match rest with r :: _ => is_management r = false | [] => True end).
Proof.
  intros Hfs. unfold replaceAdvancedCustomForwardingRoutes, config_of. simpl.
  assert (Hflt : forall b a, Forall (fun r => is_management r = true) b -> Forall (fun r => is_management r = true) a ->
    List.filter (fun r => negb (is_management r)) (b ++ fs ++ a) = fs).
  { intros b a Hb Ha. rewrite !bfilter_app. rewrite (bfilter_none _ b), (bfilter_id _ fs), (bfilter_none _ a).
    - by rewrite app_nil_r.
    - intros x Hx. rewrite Forall_forall in Ha. by rewrite Ha.
    - intros x Hx. rewrite Forall_forall in Hfs. by rewrite Hfs.
    - intros x Hx. rewrite Forall_forall in Hb. by rewrite Hb. }
  assert (Hall : forall l, Forall (fun r => is_management r = true) (List.filter is_management l)).
  { intros l. apply Forall_forall. intros x Hx. by apply elem_of_bfilter in Hx as [_ ?]. }
  destruct (find_index _ _) as [i|] eqn:E.
  - exists (List.filter is_management (take i (routes_of c))), (List.filter is_management (drop i (routes_of c))).
    split_and!; [done|by rewrite <-bfilter_app, take_drop|by apply Hflt|].
    rewrite (management_split _ _ E). exists (drop i (routes_of c)). split; [by rewrite take_drop|].
    apply find_index_some in E as (y & Hy & Hf & _). rewrite (drop_S _ _ _ Hy). by apply negb_true_iff in Hf.
  - exists (List.filter is_management (routes_of c)), []. rewrite !app_nil_r.
    split_and!; [done|done|by pose proof (Hflt (List.filter is_management (routes_of c)) [] (Hall _) (Forall_nil_2 _)) as H; rewrite app_nil_r in H|].
    exists []. split; [|done]. rewrite app_nil_r. symmetry. apply bfilter_id. intros x Hx.
    rewrite find_index_none in E. specialize (E x Hx). by apply negb_false_iff in E.
Qed.

(** ** Replacing a management route *)

Lemma find_index_split {A} (f : A -> bool) l i : find_index f l = Some i ->
  exists l1 x l2, l = l1 ++ x :: l2 /\ i = length l1 /\ f x = true /\ forall y, y ∈ l1 -> f y = false.
Proof.
  revert i. induction l as [|a l IH]; intros i; simpl; [done|]. destruct (f a) eqn:E.
  - intros [= <-]. exists [], a, l. split_and!; [done..|]. by intros y Hy%elem_of_nil.
  - intros (j & Hj & ->)%fmap_Some. destruct (IH j Hj) as (l1 & x & l2 & -> & -> & Hx & Hl).
    exists (a :: l1), x, l2. split_and!; [done..|]. intros y [->|Hy]%elem_of_cons; [done|auto].
Qed.
Lemma find_app_first {A} (f : A -> bool) l1 x l2 :
  (forall y, y ∈ l1 -> f y = false) -> f x = true -> List.find f (l1 ++ x :: l2) = Some x.
Proof.
  intros H Hx. induction l1 as [|a l1 IH]; simpl; [by rewrite Hx|].
  rewrite H by (by left). apply IH. intros y Hy. apply H. by right.
Qed.
Lemma normalize_has_path p r : has_path p (normalizeAdvancedCustomRoute r) = true <->
  trim (default [] (incoming_path r)) = p.
Proof. unfold has_path. simpl. rewrite bool_decide_eq_true. naive_solver. Qed.
Lemma normalized_fixed c r : r ∈ routes_of c -> normalizeAdvancedCustomRoute r = r.
Proof.
  unfold routes_of, normalizeAdvancedCustomConfig. simpl.
  destruct (advanced_routes c) as [l|]; [|by intros ?%elem_of_nil].
  intros (y & -> & _)%elem_of_map. apply normalizeRoute_idemp.
Qed.
Lemma routes_of_config l : routes_of (config_of l) = map normalizeAdvancedCustomRoute l.
Proof. done. Qed.

Lemma management_found p r l1 l2 : trim p = p ->
  (forall y, y ∈ l1 -> has_path p y = false) -> (forall y, y ∈ l1 -> normalizeAdvancedCustomRoute y = y) ->
  getAdvancedCustomManagementRoute (config_of (l1 ++ management_route p r :: l2)) p
  = Some (normalizeAdvancedCustomRoute (management_route p r)).
Proof.
  intros Hp Hl Hn. unfold getAdvancedCustomManagementRoute. rewrite routes_of_config, map_app. simpl map.
  apply find_app_first.
  - rewrite map_id_on by done. done.
  - by apply normalize_has_path.
Qed.

(** Setting a management route (the model list or the balance query)
    touches the routes of that path only: every other route keeps its place in
    the order; the route set is the one looked up afterwards; removing takes
    away exactly one route of the path. *)
Theorem replace_management_exact c p route :
  trim p = p ->
  let l := default [] (advanced_routes (replaceAdvancedCustomManagementRoute c p route)) in
  List.filter (fun r => negb (has_path p r)) l = List.filter (fun r => negb (has_path p r)) (routes_of c) /\
  match route with
  | Some r => getAdvancedCustomManagementRoute (replaceAdvancedCustomManagementRoute c p route) p
                = Some (normalizeAdvancedCustomRoute (management_route p r))
  | None => length (List.filter (has_path p) l) = pred (length (List.filter (has_path p) (routes_of c)))
  end.
Proof.
  intros Hp l. subst l. pose proof (normalized_fixed c) as Hfix.
  assert (Hnew : forall r, has_path p (management_route p r) = true)
    by (intros r; unfold has_path; simpl; by rewrite bool_decide_eq_true, Hp).
  unfold replaceAdvancedCustomManagementRoute. destruct (find_index (has_path p) (routes_of c)) as [i|] eqn:E.
  - apply find_index_split in E as (l1 & x & l2 & Hl & -> & Hx & Hl1). rewrite Hl in *.
    assert (H1 : forall y, y ∈ l1 -> normalizeAdvancedCustomRoute y = y)
      by (intros y Hy; apply Hfix; rewrite elem_of_app; auto).
    destruct route as [r|]; simpl.
    + rewrite <-(Nat.add_0_r (length l1)), insert_app_r. simpl. rewrite !bfilter_app. simpl.
      rewrite Hx, Hnew. simpl. split; [done|]. by apply management_found.
    + rewrite delete_middle, !bfilter_app. simpl. rewrite Hx. simpl. split; [done|].
      rewrite !length_app. simpl. rewrite (bfilter_none _ l1) by done. simpl. lia.
  - rewrite find_index_none in E. destruct route as [r|]; simpl.
    + rewrite bfilter_app. simpl. rewrite Hnew. simpl. rewrite app_nil_r. split; [done|].
      apply (management_found p r (routes_of c) []); auto.
    + split; [done|]. by rewrite bfilter_none.
Qed.

(** ** Defaults and templates *)

Definition default_route (conv : jsstr) : AdvancedCustomRoute :=
  let p := getDefaultAdvancedCustomIncomingPath conv in
  let d := getAdvancedCustomConverterDefaults conv p in
  {| incoming_path := Some p; upstream_path := Some d.1; converter := Some conv; models := None;
     route_auth := Some d.2 |}.

(** What the editor offers is acceptable: every template validates, and so
    does, for every registered converter, the route made of its default path,
    upstream path and authentication. *)
Theorem defaults_valid new_URL :
  (forall key, validateAdvancedCustomConfig new_URL (Some (getAdvancedCustomTemplateConfig key)) = None) /\
  (forall o, o ∈ ADVANCED_CUSTOM_CONVERTER_OPTIONS ->
     validateAdvancedCustomConfig new_URL (Some (config_of [default_route o.1])) = None).
Proof.
  split.
  - intros key. unfold getAdvancedCustomTemplateConfig, ADVANCED_CUSTOM_TEMPLATE_OPTIONS. cbn [List.find fst snd].
    repeat case_match; simplify_eq/=; vm_compute; reflexivity.
  - intros o Ho. unfold ADVANCED_CUSTOM_CONVERTER_OPTIONS in Ho. rewrite !elem_of_cons, elem_of_nil in Ho.
    repeat (destruct Ho as [->|Ho]; [vm_compute; reflexivity|]). done.
Qed.

(** Choosing an authentication mode always yields an acceptable one,
    unless a name or value made of white space is carried over. *)
Theorem built_auth_valid mode prev :
  (forall a, prev = Some a -> forall s, auth_name a = Some s \/ auth_value a = Some s -> s <> [] -> trim s <> []) ->
  validateRouteAuth (buildAdvancedCustomAuth mode prev) = None.
Proof.
  intros H.
  assert (Hp : forall f d, (forall a s, prev = Some a -> f a = Some s -> s <> [] -> trim s <> []) -> trim d <> [] ->
    blank (Some (prev_or f prev d)) = false).
  { intros f d Hf Hd. apply negb_false_iff. apply truthy_true. unfold prev_or, str_or.
    destruct prev as [a|]; [|done]. destruct (f a) as [s|] eqn:E; simpl; [|done].
    destruct (truthy s) eqn:Es; [|done]. apply truthy_true in Es. by apply (Hf a). }
  unfold buildAdvancedCustomAuth. destruct (str_eqb mode "default"); [done|].
  destruct (str_eqb mode "none"); [done|].
  destruct (str_eqb mode "header"); unfold validateRouteAuth, mk_auth; cbn [auth_type auth_name auth_value];
    (replace (bool_decide (_ = Some "none")) with false by done);
    rewrite !Hp; try done; intros a s Ha Hs; eapply H; eauto.
Qed.

(** ** Concrete configurations *)

Lemma replace_forwarding_exact_witness :
  exists before after,
    advanced_routes (replaceAdvancedCustomForwardingRoutes
      (config_of [createAdvancedCustomManagementRoute "/v1/models"; createAdvancedCustomRoute]) createClaudeNativeRoutes)
      = Some (before ++ createClaudeNativeRoutes ++ after) /\
    before ++ after = List.filter is_management (routes_of
      (config_of [createAdvancedCustomManagementRoute "/v1/models"; createAdvancedCustomRoute])) /\
    List.filter (fun r => negb (is_management r)) (before ++ createClaudeNativeRoutes ++ after) = createClaudeNativeRoutes /\
    (exists rest, routes_of (config_of [createAdvancedCustomManagementRoute "/v1/models"; createAdvancedCustomRoute])
       = before ++ rest /\ match rest with r :: _ => is_management r = false | [] => True end).
Proof. apply replace_forwarding_exact. repeat constructor. Defined.

Lemma replace_management_exact_witness :
  getAdvancedCustomManagementRoute (replaceAdvancedCustomManagementRoute createAdvancedCustomConfig "/v1/models"
    (Some (createAdvancedCustomManagementRoute "/models"))) "/v1/models"
  = Some (normalizeAdvancedCustomRoute (management_route "/v1/models" (createAdvancedCustomManagementRoute "/models"))).
Proof.
  apply (replace_management_exact createAdvancedCustomConfig "/v1/models" (Some (createAdvancedCustomManagementRoute "/models"))).
  reflexivity.
Defined.

Lemma built_auth_valid_witness :
  validateRouteAuth (buildAdvancedCustomAuth "header" (Some geminiQueryAuth)) = None.
Proof.
  apply built_auth_valid. intros a [= <-] s [Hs|Hs] _; injection Hs as <-; discriminate.
Defined.
End Routes.
