(* ===== verification/AdvancedCustomText.v ===== *)
(** The JSON text of an advanced custom configuration
    (src/web/src/features/channels/lib/advanced-custom.ts): reading a text with
    [JSON.parse] and a cast, printing a configuration, the summary of a text,
    and that printing and reading are inverse. *)
From S2P Require Import Prelude JsNumber Json JsonText AdvancedCustom.
Import AdvancedCustom Routes.

Module AdvancedCustomText.

(** * Reading *)

(** [v || d] *)
Definition or_string (v : option json) (d : jsstr) : json :=
  match v with Some j => if json_truthy (Some j) then j else JStr d | None => JStr d end.
(** [v.trim()]: only a string has the method. *)
Definition trim_json (v : json) : option jsstr := match v with JStr s => Some (trim s) | _ => None end.

(** What normalizeAdvancedCustomRoute makes of a parsed value.  The code casts
    the value to AdvancedCustomRoute: a field that is passed on keeps whatever
    value the text has. *)
Record raw_auth := RawAuth { raw_type : option json; raw_name : json; raw_value : json }.
Record raw_route := RawRoute {
  raw_incoming_path : json; raw_upstream_path : jsstr; raw_converter : json;
  raw_models : list jsstr; raw_route_auth : option raw_auth }.

Definition normalize_raw_models (v : option json) : option (list jsstr) :=
  match v with Some (JArr l) => filter_truthy <$> mapM trim_json l | _ => Some [] end.
Definition normalize_raw_auth (v : option json) : option raw_auth :=
  if json_truthy v
  then Some (RawAuth (prop "type" v) (or_string (prop "name" v) []) (or_string (prop "value" v) []))
  else None.
(** [None] when the code throws: a property of null, [trim] of a value that is
    not a string. *)
Definition normalize_raw_route (v : json) : option raw_route :=
  match v with
  | JNull => None
  | _ =>
      let get k := prop k (Some v) in
      upstream ← trim_json (or_string (get "upstream_path") []);
      ms ← normalize_raw_models (get "models");
      Some (RawRoute (or_string (get "incoming_path") []) upstream (or_string (get "converter") conv_none)
              ms (normalize_raw_auth (get "auth")))
  end.
Definition normalize_raw_config (o : obj json) : option (list raw_route) :=
  match obj_get "advanced_routes" o with
  | Some (JArr l) => mapM normalize_raw_route l
  | _ => Some []
  end.

(** The values of the declared types. *)
Definition as_string (v : json) : option jsstr := match v with JStr s => Some s | _ => None end.
Definition typed_auth (a : raw_auth) : option AdvancedCustomRouteAuth :=
  type ← match raw_type a with Some v => Some <$> as_string v | None => Some None end;
  name ← as_string (raw_name a); value ← as_string (raw_value a);
  Some {| auth_type := type; auth_name := Some name; auth_value := Some value |}.
Definition typed_route (r : raw_route) : option AdvancedCustomRoute :=
  path ← as_string (raw_incoming_path r); conv ← as_string (raw_converter r);
  auth ← match raw_route_auth r with Some a => Some <$> typed_auth a | None => Some None end;
  Some {| incoming_path := Some path; upstream_path := Some (raw_upstream_path r); converter := Some conv;
          models := match raw_models r with [] => None | ms => Some ms end; route_auth := auth |}.

(** The result of the parser: null, a configuration, or a value that the code
    takes for one although some field is not of its declared type. *)
Inductive parsed_config := NoConfig | Config (c : AdvancedCustomConfig) | IllTyped (l : list raw_route).

Definition parseAdvancedCustomConfig (value : option jsstr) : parsed_config :=
  match value with
  | None => NoConfig
  | Some text =>
      if negb (truthy (trim text)) then NoConfig
      else match Json.parse text with
           | Some (JObj o) =>
               match normalize_raw_config o with
               | None => NoConfig
               | Some l => match mapM typed_route l with
                           | Some routes => Config (config_of routes)
                           | None => IllTyped l
                           end
               end
           | _ => NoConfig
           end
  end.

(** * Printing *)

(** JSON.stringify leaves out a property that is undefined. *)
Definition field (k : jsstr) (v : option jsstr) : obj json :=
  match v with Some s => [(k, JStr s)] | None => [] end.
Definition auth_json (a : AdvancedCustomRouteAuth) : json :=
  JObj (field "type" (auth_type a) ++ field "name" (auth_name a) ++ field "value" (auth_value a)).
Definition route_obj (r : AdvancedCustomRoute) : obj json :=
  (field "incoming_path" (incoming_path r) ++ field "upstream_path" (upstream_path r)
    ++ field "converter" (converter r)
    ++ match models r with Some ms => [("models" : jsstr, JArr (map JStr ms))] | None => [] end
    ++ match route_auth r with Some a => [("auth" : jsstr, auth_json a)] | None => [] end).
Definition route_json (r : AdvancedCustomRoute) : json := JObj (route_obj r).
Definition config_json (c : AdvancedCustomConfig) : json :=
  JObj match advanced_routes c with
       | Some l => [("advanced_routes" : jsstr, JArr (map route_json l))]
       | None => []
       end.
Definition stringifyAdvancedCustomConfig (c : AdvancedCustomConfig) : jsstr :=
  stringify_pretty (config_json (normalizeAdvancedCustomConfig c)).

(** * The summary of a text *)

(** [None] when the text holds a value that is not of the declared type. *)
Definition getAdvancedCustomStats (new_URL : jsstr -> option URL) (value : option jsstr)
  : option (nat * bool * list jsstr) :=
  match parseAdvancedCustomConfig value with
  | NoConfig => Some (stats_of_config new_URL None)
  | Config c => Some (stats_of_config new_URL (Some c))
  | IllTyped _ => None
  end.
End AdvancedCustomText.
