(* ===== verification/AdvancedCustomTextProofs.v ===== *)
(** What the text of an advanced custom configuration carries: printing and
    reading back gives the normalised configuration, so saving and reopening
    is stable, and the reader is total on texts. *)
From S2P Require Import Prelude JsNumber Json JsonText AdvancedCustom AdvancedCustomText.
Import AdvancedCustom Routes AdvancedCustomText.

Module ConfigText.

(** ** The printed values denote themselves *)

Lemma printable_field k v : Forall (fun kv => printable kv.2) (field k v).
Proof. destruct v; repeat constructor. Qed.
Lemma printable_strings l : printable (JArr (map JStr l)).
Proof. constructor. apply Forall_forall. intros x (s & -> & _)%elem_of_map. constructor. Qed.
Lemma printable_auth a : printable (auth_json a).
Proof.
  constructor.
  - rewrite !Forall_app. split_and!; apply printable_field.
  - by destruct a as [[] [] []].
Qed.
Lemma printable_route r : printable (route_json r).
Proof.
  destruct r as [p u c ms a]. constructor; cbn [incoming_path upstream_path converter models route_auth].
  - unfold route_obj. rewrite !Forall_app. split_and!; try apply printable_field.
    + destruct ms; constructor; [apply printable_strings|constructor].
    + destruct a; constructor; [apply printable_auth|constructor].
  - destruct p, u, c, ms, a; reflexivity.
Qed.
Lemma printable_config c : printable (config_json c).
Proof.
  destruct c as [[l|]]; constructor; try done; constructor; [constructor|constructor]. apply Forall_forall.
  intros x (r & -> & _)%elem_of_map. apply printable_route.
Qed.

(** ** Reading a printed route *)

Lemma or_string_str s d : or_string (Some (JStr s)) d = JStr (str_or s d).
Proof. unfold or_string, str_or. simpl. by destruct (truthy s). Qed.
Lemma mapM_strings l : mapM trim_json (map JStr l) = Some (map trim l).
Proof. induction l as [|s l IH]; [done|]. simpl. by rewrite IH. Qed.
Lemma str_or_same s : str_or s [] = s.
Proof. by destruct s. Qed.

(** The routes that normalisation produces. *)
Record normal (r : AdvancedCustomRoute) : Prop := {
  n_path : incoming_path r <> None;
  n_upstream : exists s, upstream_path r = Some s /\ trim s = s;
  n_converter : exists s, converter r = Some s /\ s <> [];
  n_models : match models r with Some l => l <> [] /\ filter_truthy (map trim l) = l | None => True end;
  n_auth : match route_auth r with Some a => auth_name a <> None /\ auth_value a <> None | None => True end }.
Lemma normalized_normal r : normal (normalizeAdvancedCustomRoute r).
Proof.
  split; simpl; try done.
  - eexists. split; [done|]. apply trim_idemp.
  - eexists. split; [done|]. unfold str_or. by destruct (default [] (converter r)).
  - pose proof (route_models_fixed (models r)) as H.
    destruct (normalizeAdvancedCustomRouteModels (models r)) eqn:E; [done|]. split; [done|exact H].
  - by destruct (route_auth r).
Qed.

Definition raw_of_auth (a : AdvancedCustomRouteAuth) : raw_auth :=
  RawAuth (JStr <$> auth_type a) (JStr (default [] (auth_name a))) (JStr (default [] (auth_value a))).
Lemma read_auth a : auth_name a <> None -> auth_value a <> None ->
  normalize_raw_auth (Some (auth_json a)) = Some (raw_of_auth a) /\ typed_auth (raw_of_auth a) = Some a.
Proof.
  destruct a as [t [n|] [v|]]; intros ??; try done. split; [|by destruct t].
  unfold normalize_raw_auth, raw_of_auth. cbn [json_truthy auth_json]. cbn [auth_type auth_name auth_value].
  f_equal. replace (prop "name" _) with (Some (JStr n)) by (by destruct t).
  replace (prop "value" _) with (Some (JStr v)) by (by destruct t). rewrite !or_string_str, !str_or_same.
  by destruct t.
Qed.
Lemma normalize_object r :
  normalize_raw_route (route_json r) =
  (let get k := prop k (Some (route_json r)) in
   upstream ← trim_json (or_string (get "upstream_path") []);
   ms ← normalize_raw_models (get "models");
   Some (RawRoute (or_string (get "incoming_path") []) upstream (or_string (get "converter") conv_none)
           ms (normalize_raw_auth (get "auth")))).
Proof. done. Qed.
Lemma read_route r : normal r -> normalize_raw_route (route_json r) ≫= typed_route = Some r.
Proof.
  destruct r as [p u c ms a]. intros [Hp (u' & Hu & Htu) (c' & Hc & Htc) Hm Ha].
  cbn [incoming_path upstream_path converter models route_auth] in *. simplify_eq.
  destruct p as [p|]; [|done]. set (r := Build_AdvancedCustomRoute _ _ _ _ _).
  assert (prop "incoming_path" (Some (route_json r)) = Some (JStr p)) as E1 by (by destruct ms, a).
  assert (prop "upstream_path" (Some (route_json r)) = Some (JStr u')) as E2 by (by destruct ms, a).
  assert (prop "converter" (Some (route_json r)) = Some (JStr c')) as E3 by (by destruct ms, a).
  assert (prop "models" (Some (route_json r)) = (fun l => JArr (map JStr l)) <$> ms) as E4 by (by destruct ms, a).
  assert (prop "auth" (Some (route_json r)) = auth_json <$> a) as E5 by (by destruct ms, a).
  rewrite normalize_object. cbv zeta beta. rewrite E1, E2, E3, E4, E5, !or_string_str, str_or_same, str_or_same. cbn [trim_json]. rewrite Htu.
  replace (str_or c' conv_none) with c' by (unfold str_or; by destruct c').
  replace (normalize_raw_models _) with (Some (default [] ms)).
  2:{ destruct ms as [l|]; [|done]. cbn [fmap option_fmap option_map normalize_raw_models].
      rewrite mapM_strings. simpl. by destruct Hm as [_ ->]. }
  cbn [mbind option_bind]. unfold typed_route.
  cbn [raw_incoming_path raw_upstream_path raw_converter raw_models raw_route_auth as_string mbind option_bind].
  destruct a as [a|]; cbn [fmap option_fmap option_map].
  - destruct Ha as [Hn Hv]. destruct (read_auth a Hn Hv) as [-> Ht].
    cbn [mbind option_bind]. rewrite Ht. cbn. subst r. f_equal. f_equal. destruct ms as [[]|]; naive_solver.
  - subst r. f_equal. f_equal. destruct ms as [[]|]; naive_solver.
Qed.

Lemma read_routes l : Forall normal l ->
  exists raws, mapM normalize_raw_route (map route_json l) = Some raws /\ mapM typed_route raws = Some l.
Proof.
  induction 1 as [|r l Hr _ (raws & IH1 & IH2)]; [by exists []|].
  apply read_route in Hr. destruct (normalize_raw_route (route_json r)) as [raw|] eqn:E; [|done].
  exists (raw :: raws). cbn [map mapM]. rewrite E, IH1. cbn. cbn in Hr. by rewrite Hr, IH2.
Qed.

Lemma pretty_object_text o : truthy (trim (stringify_pretty (JObj o))) = true.
Proof. by rewrite trim_pretty_object. Qed.

Lemma parse_stringified c :
  parseAdvancedCustomConfig (Some (stringifyAdvancedCustomConfig c)) = Config (normalizeAdvancedCustomConfig c).
Proof.
  unfold parseAdvancedCustomConfig, stringifyAdvancedCustomConfig.
  rewrite (pretty_object_text _ : truthy (trim (stringify_pretty (config_json _))) = true). cbn [negb].
  rewrite parse_pretty by apply printable_config. unfold config_json, normalizeAdvancedCustomConfig, config_of.
  cbn [advanced_routes]. unfold normalize_raw_config.
  replace (obj_get _ _) with (Some (JArr (map route_json
    (match advanced_routes c with Some l => map normalizeAdvancedCustomRoute l | None => [] end)))) by done.
  destruct (read_routes (match advanced_routes c with Some l => map normalizeAdvancedCustomRoute l | None => [] end))
    as (raws & E1 & E2).
  { destruct (advanced_routes c); [|constructor]. apply Forall_forall. intros x (y & -> & _)%elem_of_map.
    apply normalized_normal. }
  cbv iota beta. rewrite E1. by rewrite E2.
Qed.

(** ** What the reader returns is normalised *)

Lemma normal_fixed r : normal r -> normalizeAdvancedCustomRoute r = r.
Proof.
  destruct r as [p u c ms a]. intros [Hp (u' & Hu & Htu) (c' & Hc & Htc) Hm Ha].
  cbn [incoming_path upstream_path converter models route_auth] in *. simplify_eq.
  destruct p as [p|]; [|done]. unfold normalizeAdvancedCustomRoute, getAdvancedCustomRouteUpstreamPath.
  cbn [incoming_path upstream_path converter models route_auth default from_option id]. rewrite Htu.
  replace (str_or c' conv_none) with c' by (unfold str_or; by destruct c').
  f_equal.
  - destruct ms as [l|]; [|done]. destruct Hm as [Hl Hm]. cbn [normalizeAdvancedCustomRouteModels].
    rewrite Hm. by destruct l.
  - destruct a as [[t [n|] [v|]]|]; naive_solver.
Qed.

Lemma or_string_truthy v d s : d <> [] -> or_string v d = JStr s -> s <> [].
Proof.
  unfold or_string. destruct v as [j|]; [|congruence]. destruct (json_truthy (Some j)) eqn:E; [|congruence].
  intros _ ->. by apply truthy_true.
Qed.
Lemma raw_models_fixed v l : normalize_raw_models v = Some l -> filter_truthy (map trim l) = l.
Proof.
  assert (forall k, filter_truthy (map trim (filter_truthy (map trim k))) = filter_truthy (map trim k)) as Hfix.
  { intros k. pose proof (route_models_fixed (Some k)) as H. cbn [normalizeAdvancedCustomRouteModels] in H.
    by destruct (filter_truthy (map trim k)). }
  assert (forall k t, mapM trim_json k = Some t -> exists u, t = map trim u) as Htrim.
  { induction k as [|x k IH]; intros t; simpl; [intros [= <-]; by exists []|].
    destruct x as [| | |s| |]; simpl; try done. destruct (mapM trim_json k) as [t'|]; simpl; [|done].
    intros [= <-]. destruct (IH t' eq_refl) as [u ->]. by exists (s :: u). }
  unfold normalize_raw_models. destruct v as [[]|]; try (by intros [= <-]).
  intros (t & Ht & ->)%fmap_Some. destruct (Htrim _ _ Ht) as [u ->]. apply Hfix.
Qed.
Lemma typed_normal v raw r : normalize_raw_route v = Some raw -> typed_route raw = Some r -> normal r.
Proof.
  assert (forall j s, trim_json j = Some s -> trim s = s) as Htrim.
  { intros [] t; try done. intros [= <-]. apply trim_idemp. }
  intros Hraw Hr.
  assert (raw_upstream_path raw = trim (raw_upstream_path raw) /\
    filter_truthy (map trim (raw_models raw)) = raw_models raw /\
    raw_converter raw = or_string (prop "converter" (Some v)) conv_none) as (Hu & Hm & Hc).
  { unfold normalize_raw_route in Hraw. destruct v; try done;
      (apply bind_Some in Hraw as (u & Hu & (ms & Hms & [= <-])%bind_Some);
       cbn [raw_upstream_path raw_models raw_converter];
       split_and!; [by rewrite (Htrim _ _ Hu)|exact (raw_models_fixed _ _ Hms)|done]). }
  unfold typed_route in Hr. apply bind_Some in Hr as (p & _ & (c & Hc' & (a & Ha & [= <-])%bind_Some)%bind_Some).
  split; cbn [incoming_path upstream_path converter models route_auth]; [done| | | |].
  - by eexists.
  - exists c. split; [done|]. rewrite Hc in Hc'. destruct (or_string _ conv_none) as [| | |s| |] eqn:E; try done.
    injection Hc' as <-. by apply (or_string_truthy _ conv_none _ ltac:(discriminate) E).
  - destruct (raw_models raw) eqn:E; [done|]. by split.
  - destruct (raw_route_auth raw) as [ra|]; [|by injection Ha as <-].
    apply fmap_Some in Ha as (a' & Ha & ->). unfold typed_auth in Ha.
    by apply bind_Some in Ha as (t & _ & (n & _ & (w & _ & [= <-])%bind_Some)%bind_Some).
Qed.
Lemma parsed_normal value c : parseAdvancedCustomConfig value = Config c ->
  exists l, c = config_of l /\ Forall normal l.
Proof.
  unfold parseAdvancedCustomConfig. destruct value as [text|]; [|done].
  destruct (negb _); [done|]. destruct (Json.parse text) as [[]|]; try done.
  destruct (normalize_raw_config o) as [raws|] eqn:Er; [|done].
  destruct (mapM typed_route raws) as [l|] eqn:El; [|done]. intros [= <-]. exists l. split; [done|].
  unfold normalize_raw_config in Er.
  destruct (obj_get _ o) as [[| | | |vs|]|];
    try (injection Er as <-; cbn in El; injection El as <-; constructor).
  apply mapM_Some in Er, El. revert l El. induction Er as [|v raw vs raws Hv _ IH]; intros l El.
  - inversion El. constructor.
  - inversion El as [|? r ? l' Hr Hl]; subst. constructor; [by eapply typed_normal|by apply IH].
Qed.
Lemma parsed_fixed value c : parseAdvancedCustomConfig value = Config c -> normalizeAdvancedCustomConfig c = c.
Proof.
  intros (l & -> & Hl)%parsed_normal. unfold normalizeAdvancedCustomConfig, config_of. simpl. do 2 f_equal.
  apply map_id_on. intros x Hx. rewrite Forall_forall in Hl. by apply normal_fixed, Hl.
Qed.

(** * Claims *)

(** C28: configurations survive their text: reading the printed text of any
    configuration gives its normal form, never an error, and whatever
    configuration the reader accepts is already in normal form, so that
    printing it and reading it again changes nothing. *)
Theorem config_text_roundtrip :
  (forall c, parseAdvancedCustomConfig (Some (stringifyAdvancedCustomConfig c))
             = Config (normalizeAdvancedCustomConfig c)) /\
  (forall value c, parseAdvancedCustomConfig value = Config c ->
     parseAdvancedCustomConfig (Some (stringifyAdvancedCustomConfig c)) = Config c).
Proof.
  split; [apply parse_stringified|]. intros value c H. rewrite parse_stringified. by rewrite (parsed_fixed _ _ H).
Qed.

Lemma config_text_roundtrip_witness :
  parseAdvancedCustomConfig (Some (stringifyAdvancedCustomConfig createAdvancedCustomConfig))
    = Config (normalizeAdvancedCustomConfig createAdvancedCustomConfig) /\
  parseAdvancedCustomConfig (Some (stringifyAdvancedCustomConfig (normalizeAdvancedCustomConfig createAdvancedCustomConfig)))
    = Config (normalizeAdvancedCustomConfig createAdvancedCustomConfig).
Proof.
  split; [apply (proj1 config_text_roundtrip)|].
  apply (proj2 config_text_roundtrip (Some (stringifyAdvancedCustomConfig createAdvancedCustomConfig))).
  apply (proj1 config_text_roundtrip).
Defined.

(** The cast hides ill-typed fields: a text whose route has a numeric path
    is not refused as a text that is no configuration, although reading the
    path as a string throws later on; with a numeric upstream path the reader
    itself throws and the text is refused. *)
Theorem numeric_path_accepted :
  (exists l, parseAdvancedCustomConfig (Some "{`advanced_routes`:[{`incoming_path`:5}]}") = IllTyped l) /\
  parseAdvancedCustomConfig (Some "{`advanced_routes`:[{`upstream_path`:5}]}") = NoConfig.
Proof. split; [eexists|]; vm_compute; reflexivity. Qed.
End ConfigText.
