(* ===== verification/RouteEditor.v ===== *)
(** The editor of advanced custom routes
    (src/web/src/features/channels/components/dialogs/advanced-custom-editor-dialog.tsx):
    the state of the dialog, the rows and groups it shows, the handlers of its
    tabs, and the events the page offers in a state. *)
From S2P Require Import Prelude JsNumber JsCollections Json AdvancedCustom AdvancedCustomText.
Import AdvancedCustom AdvancedCustomText.

Module RouteEditor.

(** * Routes *)

Definition catchAllOrderErrorMessage : jsstr := "Catch-all route must be last for the same incoming path".

Definition getOptionLabel (options : list (jsstr * jsstr)) (v : jsstr) : jsstr :=
  match List.find (fun o => str_eqb o.1 v) options with Some o => str_or o.2 v | None => v end.
(** [(route.incoming_path || '').trim()] *)
Definition getRouteIncomingPath (r : AdvancedCustomRoute) : jsstr := trim (default [] (incoming_path r)).
Definition isCatchAllRoute (r : AdvancedCustomRoute) : bool :=
  match models r with None | Some [] => true | Some _ => false end.
Definition getRouteConverterLabel (r : AdvancedCustomRoute) : jsstr :=
  let conv := str_or (default [] (converter r)) conv_none in
  match List.find (fun o => str_eqb o.1 conv) ADVANCED_CUSTOM_CONVERTER_OPTIONS with
  | Some o => str_or o.2.2 conv
  | None => conv
  end.
(** Converter and label, the first route of each converter. *)
Definition getRouteConverters (rs : list AdvancedCustomRoute) : list (jsstr * jsstr) :=
  mvalues (fold_left (fun m r =>
    let conv := str_or (default [] (converter r)) conv_none in
    match mget conv m with Some _ => m | None => mset conv (conv, getRouteConverterLabel r) m end) rs []).

(** * Patches
    A row passes a partial route, which is spread over the current one. *)

Definition set_models (ms : list jsstr) (r : AdvancedCustomRoute) : AdvancedCustomRoute :=
  {| incoming_path := incoming_path r; upstream_path := upstream_path r; converter := converter r;
     models := Some ms; route_auth := route_auth r |}.
Definition set_upstream_path (s : jsstr) (r : AdvancedCustomRoute) : AdvancedCustomRoute :=
  {| incoming_path := incoming_path r; upstream_path := Some s; converter := converter r;
     models := models r; route_auth := route_auth r |}.
Definition set_auth (a : option AdvancedCustomRouteAuth) (r : AdvancedCustomRoute) : AdvancedCustomRoute :=
  {| incoming_path := incoming_path r; upstream_path := upstream_path r; converter := converter r;
     models := models r; route_auth := a |}.
Definition set_conversion (conv path upstream : jsstr) (a : AdvancedCustomRouteAuth) (r : AdvancedCustomRoute)
  : AdvancedCustomRoute :=
  {| incoming_path := Some path; upstream_path := Some upstream; converter := Some conv;
     models := models r; route_auth := Some a |}.

(** The name or the value of an authentication. *)
Inductive auth_field := AuthName | AuthValue.
(** [None]: the handler returns without a change. *)
Definition updateAuth (f : auth_field) (v : jsstr) (r : AdvancedCustomRoute)
  : option (option AdvancedCustomRouteAuth) :=
  match route_auth r with
  | None => None
  | Some a =>
      if bool_decide (auth_type a = Some ("none" : jsstr)) then None
      else Some (Some {| auth_type := auth_type a;
                         auth_name := Some match f with AuthName => v | AuthValue => default [] (auth_name a) end;
                         auth_value := Some match f with AuthName => default [] (auth_value a) | AuthValue => v end |})
  end.

(** ** RouteEditor *)

Definition shown_path (r : AdvancedCustomRoute) : jsstr :=
  str_or (default [] (incoming_path r))
    (getDefaultAdvancedCustomIncomingPath (str_or (default [] (converter r)) conv_none)).
Definition converterOptions (r : AdvancedCustomRoute) : list (jsstr * (jsstr * jsstr)) :=
  getAdvancedCustomConverterOptions (shown_path r).
Definition modelsInputValue (r : AdvancedCustomRoute) : jsstr :=
  match models r with Some ms => join ", " ms | None => [] end.
Definition isFallback (r : AdvancedCustomRoute) : bool :=
  negb (str_eqb (shown_path r) ADVANCED_CUSTOM_MODEL_LIST_PATH)
  && match parseAdvancedCustomRouteModels (modelsInputValue r) with [] => true | _ => false end.

(** The inputs of a route; each gives the patch it passes, if any. *)
Inductive route_input :=
| SetConverter (nextConverter : jsstr)
| SetAuthMode (mode : jsstr)
| SetModelsInput (text : jsstr)
| BlurModelsInput (text : jsstr)
| SetUpstream (text : jsstr)
| SetAuthField (f : auth_field) (text : jsstr).

Definition setConverter (nextConverter : jsstr) (r : AdvancedCustomRoute) : AdvancedCustomRoute -> AdvancedCustomRoute :=
  let nextIncomingPath :=
    if isConverterPathAllowed (shown_path r) nextConverter then shown_path r
    else getDefaultAdvancedCustomIncomingPath nextConverter in
  let defaults := getAdvancedCustomConverterDefaults nextConverter nextIncomingPath in
  set_conversion nextConverter nextIncomingPath defaults.1 defaults.2.
Definition setModelsInput (text : jsstr) : AdvancedCustomRoute -> AdvancedCustomRoute :=
  set_models (if str_eqb text [] then [] else split_char 44 text).
Definition normalizeModelsInput (text : jsstr) : AdvancedCustomRoute -> AdvancedCustomRoute :=
  set_models (parseAdvancedCustomRouteModels text).
Definition patch_of (i : route_input) (r : AdvancedCustomRoute) : option (AdvancedCustomRoute -> AdvancedCustomRoute) :=
  match i with
  | SetConverter c => Some (setConverter c r)
  | SetAuthMode mode => Some (set_auth (buildAdvancedCustomAuth mode (route_auth r)))
  | SetModelsInput text => Some (setModelsInput text)
  | BlurModelsInput text => Some (normalizeModelsInput text)
  | SetUpstream text => Some (set_upstream_path text)
  | SetAuthField f text => set_auth <$> updateAuth f text r
  end.

(** ** ManagementRouteEditor
    [None]: no call of [onChange]; [Some None]: the route is deleted. *)

Inductive management_input :=
| AddManagement | DeleteManagement
| ManagementUpstream (text : jsstr)
| ManagementAuthMode (mode : jsstr)
| ManagementAuthField (f : auth_field) (text : jsstr).
Definition management_change (path : jsstr) (route : option AdvancedCustomRoute) (i : management_input)
  : option (option AdvancedCustomRoute) :=
  match route, i with
  | None, AddManagement => Some (Some (createAdvancedCustomManagementRoute path))
  | Some _, DeleteManagement => Some None
  | Some r, ManagementUpstream text => Some (Some (set_upstream_path text r))
  | Some r, ManagementAuthMode mode => Some (Some (set_auth (buildAdvancedCustomAuth mode (route_auth r)) r))
  | Some r, ManagementAuthField f text => (fun a => Some (set_auth a r)) <$> updateAuth f text r
  | _, _ => None
  end.

(** * The dialog *)

Inductive tab := TabForwarding | TabModels | TabBalance | TabJson.
#[export] Instance tab_eq_dec : EqDecision tab.
Proof. solve_decision. Defined.

(** jsonError holds the key that is given to [t]. *)
Record dialog := Dialog {
  config : AdvancedCustomConfig; routeKeys : list jsstr; routeKeyCounter : nat;
  activeTab : tab; jsonText : jsstr; jsonError : jsstr;
  templateKey : jsstr; templateConfirmOpen : bool; expandedRouteGroups : gset jsstr }.
(** Calls of the props and of toast.error. *)
Inductive output := OnSave (text : jsstr) | OnOpenChange (open : bool) | ToastError (message : jsstr).

Definition with_config (c : AdvancedCustomConfig) (d : dialog) : dialog :=
  Dialog c (routeKeys d) (routeKeyCounter d) (activeTab d) (jsonText d) (jsonError d) (templateKey d)
    (templateConfirmOpen d) (expandedRouteGroups d).
Definition with_keys (ks : list jsstr) (n : nat) (d : dialog) : dialog :=
  Dialog (config d) ks n (activeTab d) (jsonText d) (jsonError d) (templateKey d) (templateConfirmOpen d)
    (expandedRouteGroups d).
Definition with_tab (t : tab) (d : dialog) : dialog :=
  Dialog (config d) (routeKeys d) (routeKeyCounter d) t (jsonText d) (jsonError d) (templateKey d)
    (templateConfirmOpen d) (expandedRouteGroups d).
Definition with_json (text error : jsstr) (d : dialog) : dialog :=
  Dialog (config d) (routeKeys d) (routeKeyCounter d) (activeTab d) text error (templateKey d)
    (templateConfirmOpen d) (expandedRouteGroups d).
Definition with_template (key : jsstr) (confirm : bool) (d : dialog) : dialog :=
  Dialog (config d) (routeKeys d) (routeKeyCounter d) (activeTab d) (jsonText d) (jsonError d) key confirm
    (expandedRouteGroups d).
Definition with_expanded (s : gset jsstr) (d : dialog) : dialog :=
  Dialog (config d) (routeKeys d) (routeKeyCounter d) (activeTab d) (jsonText d) (jsonError d) (templateKey d)
    (templateConfirmOpen d) s.

(** ** What is shown *)

Definition normalizedConfig (d : dialog) : AdvancedCustomConfig := normalizeAdvancedCustomConfig (config d).
Definition routes (d : dialog) : list AdvancedCustomRoute := default [] (advanced_routes (normalizedConfig d)).

Record row := Row { row_route : AdvancedCustomRoute; routeKey : jsstr; row_index : nat }.
Definition row_path (r : row) : jsstr := getRouteIncomingPath (row_route r).
Definition allRouteRows (d : dialog) : list row :=
  imap (fun i r =>
    Row r (str_or (default [] (routeKeys d !! i))
             (str_or (default [] (incoming_path r))
                (str_or (default [] (upstream_path r))
                   (str_or (default [] (converter r)) "advanced-custom-route")))) i) (routes d).
Definition is_forwarding (r : row) : bool := negb (isAdvancedCustomManagementPath (row_path r)).
Definition routeRows (d : dialog) : list row := List.filter is_forwarding (allRouteRows d).

(** Rows by incoming path, in the order of the first row of each path; the
    groups of the array are the values of the map. *)
Definition rows_by_path (rows : list row) : jsmap jsstr (list row) :=
  fold_left (accumulate row_path (fun _ => []) (fun l r => l ++ [r])) rows [].
Definition buildRouteGroups (rows : list row) : list (jsstr * list row) := rows_by_path rows.
Definition routeGroups (d : dialog) : list (jsstr * list row) := buildRouteGroups (routeRows d).
Definition usedIncomingPaths (d : dialog) : list jsstr := (routeGroups d).*1.
Definition availableIncomingPathOptions (d : dialog) : list (jsstr * jsstr) :=
  List.filter (fun o => negb (isAdvancedCustomManagementPath o.1) && negb (has o.1 (usedIncomingPaths d)))
    ADVANCED_CUSTOM_INCOMING_PATH_OPTIONS.
Definition modelListRoute (d : dialog) : option AdvancedCustomRoute :=
  getAdvancedCustomManagementRoute (normalizedConfig d) ADVANCED_CUSTOM_MODEL_LIST_PATH.
Definition balanceRoute (d : dialog) : option AdvancedCustomRoute :=
  getAdvancedCustomManagementRoute (normalizedConfig d) ADVANCED_CUSTOM_BALANCE_PATH.
Definition template_of (key : jsstr) : option (jsstr * (jsstr * AdvancedCustomConfig)) :=
  match List.find (fun o => str_eqb o.1 key) ADVANCED_CUSTOM_TEMPLATE_OPTIONS with
  | Some o => Some o
  | None => head ADVANCED_CUSTOM_TEMPLATE_OPTIONS
  end.
Definition selectedTemplate (d : dialog) : option (jsstr * (jsstr * AdvancedCustomConfig)) :=
  template_of (templateKey d).

(** ** Keys of the rows *)

Definition route_key (n : nat) : jsstr := "advanced-custom-route-" ++ digits (Z.of_nat n).
(** [createRouteKeys(count)] and the counter afterwards. *)
Definition createRouteKeys (counter count : nat) : list jsstr * nat :=
  (map route_key (seq (S counter) count), counter + count).
Definition with_new_keys (count : nat) (d : dialog) : dialog :=
  let ks := createRouteKeys (routeKeyCounter d) count in with_keys ks.1 ks.2 d.
Definition append_key (d : dialog) : dialog :=
  let ks := createRouteKeys (routeKeyCounter d) 1 in with_keys (routeKeys d ++ ks.1) ks.2 d.

(** ** Mounting and opening
    [None]: the text is of the ill-typed kind. *)

Definition parsed_or_default (value : jsstr) : option AdvancedCustomConfig :=
  match parseAdvancedCustomConfig (Some value) with
  | NoConfig => Some createAdvancedCustomConfig
  | Config c => Some c
  | IllTyped _ => None
  end.
Definition mount (value : jsstr) : option dialog :=
  c ← parsed_or_default value;
  let n := length (default [] (advanced_routes (normalizeAdvancedCustomConfig c))) in
  Some (Dialog c (map (fun i => "advanced-custom-route-initial-" ++ digits (Z.of_nat i)) (seq 0 n)) 0 TabForwarding
          (stringifyAdvancedCustomConfig c) [] (default [] (fst <$> head ADVANCED_CUSTOM_TEMPLATE_OPTIONS)) false ∅).
(** The effect on [open] and [value]. *)
Definition open_effect (open : bool) (value : jsstr) (d : dialog) : option dialog :=
  if negb open then Some d
  else
    c ← parsed_or_default value;
    let normalized := normalizeAdvancedCustomConfig c in
    let rs := default [] (advanced_routes normalized) in
    let d := with_new_keys (length rs) (with_config normalized d) in
    let d := with_tab TabForwarding (with_json (stringifyAdvancedCustomConfig normalized) [] d) in
    let firstForwardingPath := List.find (fun p => negb (isAdvancedCustomManagementPath p)) (map getRouteIncomingPath rs) in
    Some (with_expanded match firstForwardingPath with Some p => if truthy p then {[p]} else ∅ | None => ∅ end
            (with_template (templateKey d) false d)).

(** * Handlers of the forwarding routes
    An index is that of a row shown; [alter] and the lookups leave the dialog
    alone for another one, where JavaScript would extend the array or throw. *)

(** [setConfig] with new routes, over the normalised ones. *)
Definition update_routes (f : list AdvancedCustomRoute -> list AdvancedCustomRoute) (d : dialog) : dialog :=
  with_config (config_of (f (routes d))) d.

Definition updateRoute (i : nat) (patch : AdvancedCustomRoute -> AdvancedCustomRoute) (d : dialog) : dialog :=
  update_routes (alter patch i) d.
Definition replaceRoutes (nextRoutes : list AdvancedCustomRoute) (nextRouteKeys : list jsstr) (d : dialog) : dialog :=
  with_keys nextRouteKeys (routeKeyCounter d) (with_config (config_of nextRoutes) d).
Definition shown_keys (d : dialog) : list jsstr := map routeKey (allRouteRows d).

Definition route_for (path : jsstr) : AdvancedCustomRoute :=
  {| incoming_path := Some path; upstream_path := Some path; converter := converter createAdvancedCustomRoute;
     models := models createAdvancedCustomRoute; route_auth := route_auth createAdvancedCustomRoute |}.
Definition append_route (path : jsstr) (d : dialog) : dialog :=
  let d := append_key (update_routes (fun rs => rs ++ [route_for path]) d) in
  with_expanded ({[path]} ∪ expandedRouteGroups d) d.
Definition addRoute (incomingPath : option jsstr) (d : dialog) : dialog :=
  match incomingPath with
  | None => d
  | Some p => if negb (truthy p) || has p (usedIncomingPaths d) then d else append_route p d
  end.
Definition addRouteForIncomingPath (incomingPath : jsstr) (d : dialog) : dialog :=
  append_route (str_or incomingPath "/v1/chat/completions") d.

(** [filter((_, i) => i !== index)] *)
Definition without_index {A} (i : nat) (l : list A) : list A := (List.filter (fun x => negb (Nat.eqb x.1 i)) (imap pair l)).*2.
Definition removeRoute (i : nat) (d : dialog) : dialog :=
  let d := update_routes (without_index i) d in with_keys (without_index i (routeKeys d)) (routeKeyCounter d) d.

(** A route of a group whose path changes. *)
Definition move_to_path (path : jsstr) (r : AdvancedCustomRoute) : AdvancedCustomRoute :=
  if str_eqb path ADVANCED_CUSTOM_MODEL_LIST_PATH
  then {| incoming_path := Some path; upstream_path := Some ADVANCED_CUSTOM_MODEL_LIST_PATH;
          converter := Some conv_none; models := Some []; route_auth := route_auth r |}
  else
    let conv := str_or (default [] (converter r)) conv_none in
    {| incoming_path := Some path; upstream_path := upstream_path r;
       converter := Some (if isConverterPathAllowed path conv then conv else conv_none);
       models := models r; route_auth := route_auth r |}.
Definition updateGroupIncomingPath (group : jsstr * list row) (nextIncomingPath : option jsstr) (d : dialog) : dialog :=
  let resolvedIncomingPath := str_or (default [] nextIncomingPath) "/v1/chat/completions" in
  let groupRouteIndexes := map row_index group.2 in
  let nextRoutes := imap (fun i r => if has i groupRouteIndexes then move_to_path resolvedIncomingPath r else r) (routes d) in
  let d := replaceRoutes nextRoutes (shown_keys d) d in
  with_expanded ({[resolvedIncomingPath]} ∪ expandedRouteGroups d ∖ {[group.1]}) d.

Definition swap {A} (i j : nat) (l : list A) : list A :=
  match l !! i, l !! j with Some x, Some y => <[j := x]> (<[i := y]> l) | _, _ => l end.
Definition swapRoutes (i j : nat) (d : dialog) : dialog :=
  if Nat.eqb i j then d else replaceRoutes (swap i j (routes d)) (swap i j (shown_keys d)) d.

(** [l.at(i)] *)
Definition at_index {A} (i : Z) (l : list A) : option A :=
  if (0 <=? i)%Z then l !! Z.to_nat i
  else if (0 <=? i + Z.of_nat (length l))%Z then l !! Z.to_nat (i + Z.of_nat (length l)) else None.
Definition same_path_indexes (path : jsstr) (rs : list AdvancedCustomRoute) : list nat :=
  (List.filter (fun x => str_eqb (getRouteIncomingPath x.2) path) (imap pair rs)).*1.
(** [true] moves down. *)
Definition moveRouteWithinGroup (i : nat) (down : bool) (d : dialog) : dialog :=
  match routes d !! i with
  | None => d
  | Some r =>
      let samePathIndexes := same_path_indexes (getRouteIncomingPath r) (routes d) in
      let position : Z := match find_index (Nat.eqb i) samePathIndexes with Some p => Z.of_nat p | None => (-1)%Z end in
      match at_index (position + if down then 1 else -1)%Z samePathIndexes with
      | Some j => swapRoutes i j d
      | None => d
      end
  end.

(** [splice(i, 1)] followed by [splice(j, 0, x)] with the element removed. *)
Definition move_element {A} (i j : nat) (l : list A) : list A :=
  match l !! i with
  | Some x => let rest := delete i l in take j rest ++ x :: drop j rest
  | None => l
  end.
(** The loop from the end. *)
Definition last_same_path (path : jsstr) (rs : list AdvancedCustomRoute) : option nat := last (same_path_indexes path rs).
Definition moveRouteToGroupEnd (i : nat) (d : dialog) : dialog :=
  match routes d !! i with
  | None => d
  | Some r =>
      match last_same_path (getRouteIncomingPath r) (routes d) with
      | None => d
      | Some j => if Nat.eqb i j then d
                  else replaceRoutes (move_element i j (routes d)) (move_element i j (shown_keys d)) d
      end
  end.

(** ** fixCatchAllOrder *)

Definition ordered_rows (rows : list row) : list row :=
  List.filter (fun r => negb (isCatchAllRoute (row_route r))) rows
  ++ List.filter (fun r => isCatchAllRoute (row_route r)) rows.
Definition orderedRowsByPath (rows : list row) : jsmap jsstr (list row) :=
  map (fun kv => (kv.1, ordered_rows kv.2)) (rows_by_path rows).
(** The rows replaced one by one by the next ordered row of their path. *)
Fixpoint shift_rows (queues : jsmap jsstr (list row)) (rows : list row) : list row :=
  match rows with
  | [] => []
  | r :: rest =>
      match mget (row_path r) queues with
      | Some (x :: q) => x :: shift_rows (mset (row_path r) q queues) rest
      | _ => r :: shift_rows queues rest
      end
  end.
(** The rows of the table: a management row stays, another one is replaced by
    the next of the queue. *)
Fixpoint refill {A} (current : row -> A) (next : row -> A) (queue rows : list row) : list A :=
  match rows with
  | [] => []
  | r :: rest =>
      if negb (is_forwarding r) then current r :: refill current next queue rest
      else match queue with
           | x :: q => next x :: refill current next q rest
           | [] => current r :: refill current next [] rest
           end
  end.
Definition fixCatchAllOrder (d : dialog) : dialog :=
  let nextRows := shift_rows (orderedRowsByPath (routeRows d)) (routeRows d) in
  replaceRoutes (refill row_route row_route nextRows (allRouteRows d))
    (refill routeKey routeKey nextRows (allRouteRows d)) d.

(** * Text, templates and saving *)

Section Dialog.
Context (new_URL : jsstr -> option URL).

Definition validationError (d : dialog) : option AdvancedCustomValidationError :=
  validateAdvancedCustomConfig new_URL (Some (normalizedConfig d)).
Definition canFixCatchAllOrder (d : dialog) : bool :=
  match validationError d with Some e => str_eqb (err_message e) catchAllOrderErrorMessage | None => false end.

(** The parsed text, or the message put in jsonError; [None]: the text is of
    the ill-typed kind. *)
Definition check_json (text : jsstr) : option (jsstr + AdvancedCustomConfig) :=
  match parseAdvancedCustomConfig (Some text) with
  | NoConfig => Some (inl ("Invalid JSON" : jsstr))
  | Config c => Some match validateAdvancedCustomConfig new_URL (Some c) with
                     | Some e => inl (err_message e)
                     | None => inr c
                     end
  | IllTyped _ => None
  end.
Definition parseJsonEditorConfig (d : dialog) : option (option AdvancedCustomConfig * dialog) :=
  (fun r => match r with
            | inl m => (None, with_json (jsonText d) m d)
            | inr c => (Some c, with_json (jsonText d) [] d)
            end) <$> check_json (jsonText d).

(** [None] as the argument: a value that is no tab. *)
Definition switchTab (nextTab : option tab) (d : dialog) : option dialog :=
  match nextTab with
  | None => Some d
  | Some t =>
      if bool_decide (activeTab d <> TabJson)
      then Some (with_tab t (if bool_decide (t = TabJson)
                             then with_json (stringifyAdvancedCustomConfig (normalizedConfig d)) [] d else d))
      else
        (fun r : option AdvancedCustomConfig * dialog =>
           match r with
           | (None, d) => d
           | (Some parsed, d) =>
               let normalized := normalizeAdvancedCustomConfig parsed in
               with_tab t (with_new_keys (length (default [] (advanced_routes normalized))) (with_config normalized d))
           end) <$> parseJsonEditorConfig d
  end.

Definition handleJsonChange (nextValue : jsstr) (d : dialog) : dialog := with_json nextValue [] d.

Definition selectTemplate (key : jsstr) (d : dialog) : dialog :=
  match template_of key with Some o => with_template o.1 true d | None => d end.
Definition applySelectedTemplate (d : dialog) : dialog :=
  match selectedTemplate d with
  | None => d
  | Some o =>
      let templateRoutes := map (set_models []) (default [] (advanced_routes o.2.2)) in
      let normalized := replaceAdvancedCustomForwardingRoutes (normalizedConfig d) templateRoutes in
      let d := with_new_keys (length (default [] (advanced_routes normalized))) (with_config normalized d) in
      let d := with_json (stringifyAdvancedCustomConfig normalized) [] d in
      with_template (templateKey d) false
        (with_expanded (list_to_set (map getRouteIncomingPath templateRoutes)) d)
  end.

Definition saveConfig (d : dialog) : option (dialog * list output) :=
  if bool_decide (activeTab d = TabJson) then
    (fun r : option AdvancedCustomConfig * dialog =>
       match r with
       | (None, d) => (d, [ToastError "Please fix JSON errors before saving"])
       | (Some parsed, d) => (d, [OnSave (stringifyAdvancedCustomConfig parsed); OnOpenChange false])
       end) <$> parseJsonEditorConfig d
  else
    Some match validationError d with
         | Some e => (d, [ToastError (err_message e)])
         | None => (d, [OnSave (stringifyAdvancedCustomConfig (normalizedConfig d)); OnOpenChange false])
         end.

(** * Events *)

Inductive event :=
| SwitchTab (t : tab)
| AddRoute (path : jsstr)
| SelectTemplate (key : jsstr)
| AnswerTemplate (replace : bool)
| CollapseAll | ExpandAll
| ToggleGroup (path : jsstr) (expanded : bool)
| FixOrder
| ChangeRoute (i : nat) (input : route_input)
| MoveRoute (i : nat) (down : bool)
| MoveToEnd (i : nat)
| RemoveRoute (i : nat)
| ChangeManagement (balance : bool) (input : management_input)
| EditJson (text : jsstr)
| Save | Cancel.

Definition management_path (balance : bool) : jsstr :=
  if balance then ADVANCED_CUSTOM_BALANCE_PATH else ADVANCED_CUSTOM_MODEL_LIST_PATH.
Definition change_route (i : nat) (input : route_input) (d : dialog) : dialog :=
  match routes d !! i with
  | Some r => match patch_of input r with Some p => updateRoute i p d | None => d end
  | None => d
  end.
Definition change_management (balance : bool) (input : management_input) (d : dialog) : dialog :=
  let path := management_path balance in
  match management_change path (getAdvancedCustomManagementRoute (normalizedConfig d) path) input with
  | Some route => with_config (replaceAdvancedCustomManagementRoute (config d) path route) d
  | None => d
  end.

(** The outcome of an event; [None] for a text of the ill-typed kind. *)
Definition handle (e : event) (d : dialog) : option (dialog * list output) :=
  let quiet (d : dialog) := Some (d, []) in
  match e with
  | SwitchTab t => (fun d => (d, [])) <$> switchTab (Some t) d
  | AddRoute p => quiet (addRoute (Some p) d)
  | SelectTemplate k => quiet (selectTemplate k d)
  | AnswerTemplate true => quiet (applySelectedTemplate d)
  | AnswerTemplate false => quiet (with_template (templateKey d) false d)
  | CollapseAll => quiet (with_expanded ∅ d)
  | ExpandAll => quiet (with_expanded (list_to_set (routeGroups d).*1) d)
  | ToggleGroup p true => quiet (with_expanded ({[p]} ∪ expandedRouteGroups d) d)
  | ToggleGroup p false => quiet (with_expanded (expandedRouteGroups d ∖ {[p]}) d)
  | FixOrder => quiet (fixCatchAllOrder d)
  | ChangeRoute i input => quiet (change_route i input d)
  | MoveRoute i down => quiet (moveRouteWithinGroup i down d)
  | MoveToEnd i => quiet (moveRouteToGroupEnd i d)
  | RemoveRoute i => quiet (removeRoute i d)
  | ChangeManagement b input => quiet (change_management b input d)
  | EditJson text => quiet (handleJsonChange text d)
  | Save => saveConfig d
  | Cancel => Some (d, [OnOpenChange false])
  end.

(** The position of a row in its group and the size of the group. *)
Definition group_position (i : nat) (d : dialog) : option (nat * nat) :=
  r ← List.find (fun r => Nat.eqb (row_index r) i) (routeRows d);
  g ← mget (row_path r) (routeGroups d);
  p ← find_index (fun r => Nat.eqb (row_index r) i) g;
  Some (p, length g).
Definition offered_value (v : jsstr) (l : list jsstr) : bool := has v l.

(** At least what the page offers: the controls of the current tab that are enabled.
    The group editor gets [hideHeader], so its header (the path of the group
    and the button that adds a split) is not shown. *)
Definition offered (d : dialog) (e : event) : bool :=
  let forwarding := bool_decide (activeTab d = TabForwarding) in
  match e with
  | SwitchTab _ | Save | Cancel => true
  | AnswerTemplate _ => templateConfirmOpen d
  | EditJson _ => bool_decide (activeTab d = TabJson)
  | ChangeManagement b _ => bool_decide (activeTab d = if b then TabBalance else TabModels)
  | CollapseAll | ExpandAll => forwarding
  | SelectTemplate k => forwarding && offered_value k ADVANCED_CUSTOM_TEMPLATE_OPTIONS.*1
  | AddRoute p => forwarding && offered_value p (availableIncomingPathOptions d).*1
  | ToggleGroup p _ => forwarding && has p (usedIncomingPaths d)
  | FixOrder => forwarding && canFixCatchAllOrder d
  | ChangeRoute i input =>
      forwarding && match group_position i d, routes d !! i, input with
                    | Some _, Some r, SetConverter c => offered_value c (converterOptions r).*1
                    | Some _, Some r, SetAuthMode m => offered_value m ADVANCED_CUSTOM_AUTH_MODE_OPTIONS.*1
                    | Some _, Some _, _ => true
                    | _, _, _ => false
                    end
  | MoveRoute i down =>
      forwarding && match group_position i d with
                    | Some (p, n) => if down then Nat.ltb (S p) n else Nat.ltb 0 p
                    | None => false
                    end
  | MoveToEnd i =>
      forwarding && match group_position i d, routes d !! i with
                    | Some (p, n), Some r => isCatchAllRoute r && Nat.ltb (S p) n
                    | _, _ => false
                    end
  | RemoveRoute i => forwarding && match group_position i d with Some _ => true | None => false end
  end.

Inductive step (d : dialog) : event -> dialog -> list output -> Prop :=
| step_handle e d' out : offered d e = true -> handle e d = Some (d', out) -> step d e d' out.

(** The dialogs reached from one by events of a kind. *)
Inductive reached (kind : event -> Prop) (d0 : dialog) : dialog -> Prop :=
| reached_start : reached kind d0 d0
| reached_step d e d' out : reached kind d0 d -> kind e -> step d e d' out -> reached kind d0 d'.
End Dialog.
End RouteEditor.
