(* ===== verification/RouteEditorProofs.v ===== *)
(** The editor of advanced custom routes is right: what it saves, what moving
    and reordering routes do, the keys of the rows, templates, converters and
    the inputs of a route. *)
From S2P Require Import Prelude JsNumber JsCollections Json AdvancedCustom AdvancedCustomText AdvancedCustomTextProofs RouteEditor.
Import AdvancedCustom Routes AdvancedCustomText ConfigText RouteEditor.

Module RouteEditing.

(** ** Rows and routes *)

Definition fixed (r : AdvancedCustomRoute) : Prop := normalizeAdvancedCustomRoute r = r.
Lemma routes_fixed d : Forall fixed (routes d).
Proof. apply Forall_forall. intros r Hr. by eapply normalized_fixed. Qed.
Lemma routes_with_config l d : routes (with_config (config_of l) d) = map normalizeAdvancedCustomRoute l.
Proof. done. Qed.
Lemma routes_set l d : Forall fixed l -> routes (with_config (config_of l) d) = l.
Proof. intros H. rewrite routes_with_config. apply map_id_on. intros r Hr. rewrite Forall_forall in H. by apply H. Qed.
Lemma normalizedConfig_routes d : normalizedConfig d = config_of (routes d).
Proof. unfold normalizedConfig, routes. unfold normalizeAdvancedCustomConfig. done. Qed.

Lemma catch_all_models r : fixed r -> isCatchAllRoute r = true <-> route_models r = [].
Proof.
  intros H. unfold isCatchAllRoute, route_models. rewrite <-H. unfold normalizeAdvancedCustomRoute. cbn [models].
  destruct (normalizeAdvancedCustomRouteModels (models r)) as [|m ms] eqn:E; [done|].
  split; [done|]. intros H'. pose proof (route_models_fixed (models r)) as Hf. rewrite E in Hf. congruence.
Qed.

Lemma allRouteRows_length d : length (allRouteRows d) = length (routes d).
Proof. unfold allRouteRows. by rewrite length_imap. Qed.
Lemma row_routes d : map row_route (allRouteRows d) = routes d.
Proof.
  unfold allRouteRows. change (map row_route) with (fmap (M := list) row_route). rewrite fmap_imap.
  rewrite (imap_ext _ (const id) _) by done. by rewrite imap_const, list_fmap_id.
Qed.
Lemma str_or_nonempty a b : b <> [] -> str_or a b <> [].
Proof. unfold str_or. by destruct a. Qed.
Lemma row_lookup d i r : allRouteRows d !! i = Some r ->
  routes d !! i = Some (row_route r) /\ row_index r = i /\ routeKey r <> [].
Proof.
  unfold allRouteRows. rewrite list_lookup_imap. intros (y & Hy & ->)%fmap_Some. simpl.
  split_and!; [done..|]. do 3 apply str_or_nonempty. apply str_or_nonempty. discriminate.
Qed.
Lemma row_at d i r : routes d !! i = Some r -> exists x, allRouteRows d !! i = Some x /\ row_route x = r.
Proof. intros H. unfold allRouteRows. rewrite list_lookup_imap, H. simpl. by eexists. Qed.
Lemma row_indices d : map row_index (allRouteRows d) = seq 0 (length (routes d)).
Proof.
  unfold allRouteRows. change (map row_index) with (fmap (M := list) row_index). rewrite fmap_imap.
  rewrite (imap_ext _ (fun j _ => j) _) by done. rewrite (imap_seq_0 _ id). apply list_fmap_id.
Qed.
Lemma row_indices_NoDup d : NoDup (map row_index (allRouteRows d)).
Proof. rewrite row_indices. apply NoDup_ListNoDup, seq_NoDup. Qed.
Lemma row_position d a x c : allRouteRows d = a ++ x :: c -> row_index x = length a.
Proof. intros H. apply (row_lookup d). by rewrite H, list_lookup_middle. Qed.

(** The dialog whose rows are rearranged. *)
Definition rearranged (l : list row) (d : dialog) : dialog := replaceRoutes (map row_route l) (map routeKey l) d.
Lemma rearranged_routes l d : l ≡ₚ allRouteRows d -> routes (rearranged l d) = map row_route l.
Proof.
  intros Hl. unfold rearranged, replaceRoutes.
  change (routes (with_config (config_of (map row_route l)) d) = map row_route l). apply routes_set.
  rewrite Forall_forall. intros r (x & -> & Hx)%elem_of_map. rewrite Hl in Hx.
  pose proof (routes_fixed d) as H. rewrite Forall_forall in H. apply H. rewrite <-row_routes.
  apply elem_of_map. by exists x.
Qed.

(** ** Rows of a path *)

Abbreviation rows_of := (of_key row_path).
Lemma rows_of_app p l k : rows_of p (l ++ k) = rows_of p l ++ rows_of p k.
Proof. apply bfilter_app. Qed.
Lemma rows_of_same p x l : row_path x = p -> rows_of p (x :: l) = x :: rows_of p l.
Proof. intros H. unfold of_key. simpl. by rewrite bool_decide_true. Qed.
Lemma rows_of_other p x l : row_path x <> p -> rows_of p (x :: l) = rows_of p l.
Proof. intros H. unfold of_key. simpl. by rewrite bool_decide_false. Qed.
Lemma elem_of_rows_of p x l : x ∈ rows_of p l <-> x ∈ l /\ row_path x = p.
Proof. unfold of_key. by rewrite elem_of_bfilter, bool_decide_eq_true. Qed.

Lemma fold_append {A} (l k : list A) : fold_left (fun l r => l ++ [r]) k l = l ++ k.
Proof. revert l. induction k as [|x k IH]; intros l; simpl; [by rewrite app_nil_r|]. by rewrite IH, <-app_assoc. Qed.
Lemma rows_by_path_get p rows : mget p (rows_by_path rows) = match rows_of p rows with [] => None | g => Some g end.
Proof.
  unfold rows_by_path. rewrite accumulate_get. unfold gathered.
  destruct (rows_of p rows) as [|x g]; [done|]. by rewrite fold_append.
Qed.
Lemma forwarding_rows_of d p : isAdvancedCustomManagementPath p = false ->
  rows_of p (routeRows d) = rows_of p (allRouteRows d).
Proof.
  intros Hp. unfold routeRows. induction (allRouteRows d) as [|x l IH]; [done|]. cbn [List.filter].
  destruct (decide (row_path x = p)) as [Hx|Hx].
  - unfold is_forwarding at 1. rewrite Hx, Hp. cbn [negb]. by rewrite !rows_of_same, IH.
  - rewrite (rows_of_other p x l) by done. destruct (is_forwarding x); [by rewrite rows_of_other|done].
Qed.

Lemma group_position_spec d i p n : group_position i d = Some (p, n) ->
  exists path b x a, isAdvancedCustomManagementPath path = false /\
    rows_of path (allRouteRows d) = b ++ x :: a /\ length b = p /\ length (b ++ x :: a) = n /\ row_index x = i /\
    row_path x = path.
Proof.
  unfold group_position. intros (r & Hr & (g & Hg & (q & Hq & [= <- <-])%bind_Some)%bind_Some)%bind_Some.
  apply find_some in Hr as [Hr Hi]. apply list_elem_of_In in Hr. apply elem_of_bfilter in Hr as [Hr Hf].
  assert (isAdvancedCustomManagementPath (row_path r) = false) as Hp by (unfold is_forwarding in Hf; by apply negb_true_iff).
  exists (row_path r). unfold routeGroups, buildRouteGroups in Hg. rewrite rows_by_path_get in Hg.
  rewrite forwarding_rows_of in Hg by done.
  apply find_index_split in Hq as (b & x & a & -> & -> & Hx & _). apply Nat.eqb_eq in Hx.
  exists b, x, a. assert (rows_of (row_path r) (allRouteRows d) = b ++ x :: a) as E.
  { destruct (rows_of _ _); [done|]. congruence. }
  split_and!; try done. assert (x ∈ rows_of (row_path r) (allRouteRows d)) as Hin by (rewrite E; set_solver).
  by apply elem_of_rows_of in Hin as [_ ?].
Qed.

(** ** Swapping and moving rows *)

Lemma swap_map {A B} (f : A -> B) i j l : swap i j (map f l) = map f (swap i j l).
Proof.
  unfold swap. change (map f) with (fmap (M := list) f). rewrite !list_lookup_fmap.
  destruct (l !! i), (l !! j); try done. cbn [fmap option_fmap option_map]. by rewrite !list_fmap_insert.
Qed.
Lemma swap_apart {A} (a b c : list A) x y :
  swap (length a) (length (a ++ x :: b)) (a ++ x :: b ++ y :: c) = a ++ y :: b ++ x :: c /\
  swap (length (a ++ x :: b)) (length a) (a ++ x :: b ++ y :: c) = a ++ y :: b ++ x :: c.
Proof.
  assert ((a ++ x :: b ++ y :: c) !! length a = Some x) as E1 by (by rewrite list_lookup_middle).
  assert (forall z w, (a ++ z :: b ++ w :: c) !! length (a ++ x :: b) = Some w) as E2.
  { intros z w. rewrite (app_assoc a (z :: b) (w :: c) : a ++ z :: b ++ w :: c = _). apply list_lookup_middle.
    rewrite !length_app. done. }
  assert (forall z w u, <[length (a ++ x :: b) := u]> (a ++ z :: b ++ w :: c) = a ++ z :: b ++ u :: c) as E3.
  { intros z w u. rewrite (app_assoc a (z :: b) (w :: c) : a ++ z :: b ++ w :: c = _).
    rewrite (app_assoc a (z :: b) (u :: c) : a ++ z :: b ++ u :: c = _).
    replace (length (a ++ x :: b)) with (length (a ++ z :: b) + 0) by (rewrite !length_app; simpl; lia).
    by rewrite insert_app_r. }
  assert (forall z w u, <[length a := u]> (a ++ z :: w) = a ++ u :: w) as E4.
  { intros z w u. replace (length a) with (length a + 0) by lia. by rewrite insert_app_r. }
  unfold swap. rewrite E1, E2. by rewrite E4, !E3, E4.
Qed.
Lemma swap_rearranged i j l d : i <> j -> swap i j (allRouteRows d) = l -> swapRoutes i j d = rearranged l d.
Proof.
  intros Hij <-. unfold swapRoutes. rewrite (proj2 (Nat.eqb_neq i j)) by done.
  unfold rearranged, shown_keys. by rewrite <-(row_routes d), !swap_map.
Qed.

Lemma move_element_map {A B} (f : A -> B) i j l : move_element i j (map f l) = map f (move_element i j l).
Proof.
  unfold move_element. change (map f) with (fmap (M := list) f). rewrite list_lookup_fmap.
  destruct (l !! i); [|done]. cbn [fmap option_fmap option_map].
  by rewrite fmap_app, fmap_cons, fmap_take, fmap_drop, list_fmap_delete.
Qed.
Lemma move_element_past {A} (a b c : list A) x :
  move_element (length a) (length (a ++ b)) (a ++ x :: b ++ c) = a ++ b ++ x :: c.
Proof.
  unfold move_element. rewrite list_lookup_middle by done. rewrite delete_middle.
  rewrite (app_assoc a b c), take_app_length, drop_app_length. by rewrite <-app_assoc.
Qed.

(** The indices listed for a path are those of its rows. *)
Lemma indexed_rows d : imap pair (routes d) = map (fun r => (row_index r, row_route r)) (allRouteRows d).
Proof.
  unfold allRouteRows. match goal with |- _ = map ?g _ => change (map g) with (fmap (M := list) g) end.
  rewrite fmap_imap. by apply imap_ext.
Qed.
Lemma same_path_rows p d : same_path_indexes p (routes d) = map row_index (rows_of p (allRouteRows d)).
Proof.
  unfold same_path_indexes. rewrite indexed_rows, bfilter_map. change (fmap fst) with (map (@fst nat AdvancedCustomRoute)).
  rewrite map_map. cbn [fst snd].
  match goal with |- map _ (List.filter ?f _) = _ => rewrite (filter_ext f (fun x => bool_decide (row_path x = p))) end.
  - done.
  - intros x. unfold row_path, str_eqb. done.
Qed.

(** Two neighbouring rows of a path, in the table. *)
Lemma neighbours d p b x y a : rows_of p (allRouteRows d) = b ++ x :: y :: a ->
  exists l m k, allRouteRows d = l ++ x :: m ++ y :: k /\ rows_of p l = b /\ rows_of p m = [] /\ rows_of p k = a /\
    row_index x = length l /\ row_index y = length (l ++ x :: m).
Proof.
  intros (l & l' & E & Hl & (e & l2 & -> & He & _ & (m & k & -> & Hm & _ & Hk)%bfilter_cons_inv)%bfilter_cons_inv)%bfilter_app_inv.
  exists (l ++ e), m, k. rewrite E. split_and!.
  - by rewrite <-app_assoc.
  - unfold of_key in *. by rewrite bfilter_app, He, app_nil_r.
  - done.
  - done.
  - apply (row_position d _ _ (m ++ y :: k)). by rewrite E, <-app_assoc.
  - apply (row_position d _ _ k). rewrite E, <-!app_assoc. done.
Qed.

Lemma exchanged_rows q p (l m k : list row) x y : row_path x = p -> row_path y = p -> rows_of p m = [] ->
  (q <> p -> rows_of q (l ++ y :: m ++ x :: k) = rows_of q (l ++ x :: m ++ y :: k)) /\
  rows_of p (l ++ y :: m ++ x :: k) = rows_of p l ++ y :: x :: rows_of p k.
Proof.
  intros Hx Hy Hm. split.
  - intros Hq. rewrite !rows_of_app, !(rows_of_other q), !rows_of_app, !(rows_of_other q) by congruence. done.
  - rewrite rows_of_app, (rows_of_same p), rows_of_app, Hm, (rows_of_same p) by done. done.
Qed.
Lemma exchange_perm {A} (l m k : list A) x y : l ++ y :: m ++ x :: k ≡ₚ l ++ x :: m ++ y :: k.
Proof. f_equiv. rewrite <-!Permutation_middle. apply Permutation_swap. Qed.

Lemma find_index_at (l k : list nat) i : i ∉ l -> find_index (Nat.eqb i) (l ++ i :: k) = Some (length l).
Proof.
  induction l as [|j l IH]; intros H; simpl; [by rewrite Nat.eqb_refl|].
  apply not_elem_of_cons in H as [Hne H]. by rewrite (proj2 (Nat.eqb_neq i j)), IH by done.
Qed.
Lemma rows_of_NoDup d p : NoDup (map row_index (rows_of p (allRouteRows d))).
Proof.
  pose proof (row_indices_NoDup d) as H. revert H. unfold of_key. induction (allRouteRows d) as [|x l IH]; [done|].
  cbn [map List.filter]. intros [Hx Hl]%NoDup_cons. case_bool_decide; [|by apply IH].
  apply NoDup_cons. split; [|by apply IH]. intros (y & Hy & Hin)%elem_of_map. apply Hx, elem_of_map.
  exists y. by apply elem_of_bfilter in Hin as [? _].
Qed.
Lemma find_row d p b x a : rows_of p (allRouteRows d) = b ++ x :: a ->
  find_index (Nat.eqb (row_index x)) (same_path_indexes p (routes d)) = Some (length b).
Proof.
  intros E. pose proof (rows_of_NoDup d p) as H. rewrite same_path_rows. rewrite E, map_app in *. cbn [map] in *.
  rewrite find_index_at; [by rewrite length_map|]. apply NoDup_app in H as (_ & H & _).
  intros Hin. by destruct (H _ Hin); left.
Qed.
Lemma row_of_group d p b x a : rows_of p (allRouteRows d) = b ++ x :: a ->
  routes d !! row_index x = Some (row_route x) /\ row_path x = p.
Proof.
  intros E. assert (x ∈ rows_of p (allRouteRows d)) as [Hin Hp]%elem_of_rows_of by (rewrite E; set_solver).
  split; [|done]. apply list_elem_of_lookup in Hin as [i Hi]. apply row_lookup in Hi as (Hr & <- & _). done.
Qed.
Lemma at_nat {A} (l : list A) n : at_index (Z.of_nat n) l = l !! n.
Proof. unfold at_index. rewrite (proj2 (Z.leb_le 0 (Z.of_nat n))) by lia. by rewrite Nat2Z.id. Qed.

(** A move exchanges a row with its neighbour in the group. *)
Lemma move_neighbour d p b x y a (down : bool) : rows_of p (allRouteRows d) = b ++ x :: y :: a ->
  exists l, moveRouteWithinGroup (row_index (if down then x else y)) down d = rearranged l d /\
    l ≡ₚ allRouteRows d /\ rows_of p l = b ++ y :: x :: a /\
    forall q, q <> p -> rows_of q l = rows_of q (allRouteRows d).
Proof.
  intros E. destruct (neighbours _ _ _ _ _ _ E) as (l & m & k & El & Hl & Hm & Hk & Hx & Hy).
  destruct (row_of_group _ _ _ _ _ E) as [Rx Px].
  assert (rows_of p (allRouteRows d) = (b ++ [x]) ++ y :: a) as E' by (by rewrite E, <-app_assoc).
  destruct (row_of_group _ _ _ _ _ E') as [Ry Py].
  exists (l ++ y :: m ++ x :: k). split.
  - pose proof (swap_apart l m k x y) as [Hs Hs']. rewrite <-El, <-Hx, <-Hy in Hs, Hs'.
    assert (row_index x <> row_index y) as Hne by (rewrite Hx, Hy, length_app; simpl; lia).
    assert (map row_index (rows_of p (allRouteRows d)) !! length b = Some (row_index x)) as Lx.
    { rewrite E, map_app. cbn [map]. apply list_lookup_middle. by rewrite length_map. }
    assert (map row_index (rows_of p (allRouteRows d)) !! S (length b) = Some (row_index y)) as Ly.
    { rewrite E', map_app. cbn [map]. apply list_lookup_middle. rewrite length_map, length_app. simpl. lia. }
    unfold moveRouteWithinGroup. destruct down.
    + rewrite Rx. change (getRouteIncomingPath (row_route x)) with (row_path x). rewrite Px. rewrite (find_row _ _ _ _ _ E).
      replace (Z.of_nat (length b) + 1)%Z with (Z.of_nat (S (length b))) by lia.
      rewrite at_nat, same_path_rows, Ly. by apply swap_rearranged.
    + rewrite Ry. change (getRouteIncomingPath (row_route y)) with (row_path y). rewrite Py. rewrite (find_row _ _ _ _ _ E').
      rewrite length_app. cbn [length]. replace (Z.of_nat (length b + 1) + -1)%Z with (Z.of_nat (length b)) by lia.
      rewrite at_nat, same_path_rows, Lx. by apply swap_rearranged.
  - destruct (exchanged_rows p p l m k x y Px Py Hm) as [_ Hp]. rewrite Hl, Hk in Hp.
    split_and!; [rewrite El; apply exchange_perm|done|].
    intros q Hq. destruct (exchanged_rows q p l m k x y Px Py Hm) as [Ho _]. rewrite El. by apply Ho.
Qed.

(** A row moved behind the last one of its group. *)
Lemma move_last d p b x a z : rows_of p (allRouteRows d) = b ++ x :: a ++ [z] ->
  exists l, moveRouteToGroupEnd (row_index x) d = rearranged l d /\
    l ≡ₚ allRouteRows d /\ rows_of p l = b ++ a ++ [z; x] /\
    forall q, q <> p -> rows_of q l = rows_of q (allRouteRows d).
Proof.
  intros E. destruct (row_of_group _ _ _ _ _ E) as [Rx Px].
  pose proof E as (l1 & l' & El & Hb & (e & l2 & -> & He & _ & Hl2)%bfilter_cons_inv)%bfilter_app_inv.
  apply bfilter_app_inv in Hl2 as (l3 & l4 & -> & H3 & (f & l5 & -> & Hf & Hz & H5)%bfilter_cons_inv).
  apply bool_decide_eq_true in Hz.
  set (A := l1 ++ e). set (B := l3 ++ f ++ [z]).
  assert (allRouteRows d = A ++ x :: B ++ l5) as Er.
  { rewrite El. subst A B. rewrite <-!app_assoc. done. }
  assert (row_index x = length A) as Hx by (by apply (row_position d _ _ (B ++ l5))).
  assert (row_index z = length (A ++ B)) as Hzi.
  { rewrite (row_position d (A ++ x :: l3 ++ f) z l5).
    - subst B. rewrite !length_app. simpl. rewrite !length_app. simpl. lia.
    - rewrite Er. subst B. rewrite <-!app_assoc. simpl. by rewrite <-!app_assoc. }
  assert (rows_of p B = a ++ [z]) as HB.
  { subst B. rewrite !rows_of_app, (rows_of_same p) by done. unfold of_key in *. by rewrite H3, Hf. }
  assert (rows_of p A = b) as HA by (subst A; rewrite rows_of_app; unfold of_key in *; by rewrite Hb, He, app_nil_r).
  exists (A ++ B ++ x :: l5). split_and!.
  - unfold moveRouteToGroupEnd. rewrite Rx. change (getRouteIncomingPath (row_route x)) with (row_path x). rewrite Px.
    unfold last_same_path. rewrite same_path_rows, E.
    rewrite (app_assoc b (x :: a) [z] : b ++ x :: a ++ [z] = _), map_app. cbn [map]. rewrite last_snoc.
    rewrite (proj2 (Nat.eqb_neq _ _)).
    2:{ rewrite Hx, Hzi, length_app. subst B. rewrite !length_app. simpl. lia. }
    unfold rearranged, shown_keys. rewrite <-(row_routes d), !move_element_map, Hx, Hzi, Er.
    by rewrite move_element_past.
  - rewrite Er. f_equiv. symmetry. apply Permutation_middle.
  - rewrite !rows_of_app, (rows_of_same p), HA, HB by done. unfold of_key. rewrite H5. by rewrite <-!app_assoc.
  - intros q Hq. rewrite Er, !rows_of_app, !(rows_of_other q), !rows_of_app by congruence. done.
Qed.

(** The rows of the dialog rearranged: the group of a path becomes another
    list, the rows of every other path keep their order, and every row keeps
    its key. *)
Definition regrouped (d d' : dialog) (p : jsstr) (g g' : list row) : Prop :=
  exists l, d' = rearranged l d /\ l ≡ₚ allRouteRows d /\ rows_of p (allRouteRows d) = g /\ rows_of p l = g' /\
    forall q, q <> p -> rows_of q l = rows_of q (allRouteRows d).

Lemma move_step new_URL d d' out i down : step new_URL d (MoveRoute i down) d' out ->
  exists p b x y a, row_index (if down then x else y) = i /\
    regrouped d d' p (b ++ x :: y :: a) (b ++ y :: x :: a).
Proof.
  intros Hs. inversion Hs as [? ? ? Ho Hh]; subst. injection Hh as <- <-. cbn [offered] in Ho.
  apply andb_true_iff in Ho as [_ Ho]. destruct (group_position i d) as [[pos n]|] eqn:Eg; [|done].
  apply group_position_spec in Eg as (p & b & x & a & Hp & Eg & Hb & Hn & <- & _). destruct down.
  + apply Nat.ltb_lt in Ho. rewrite length_app in Hn. destruct a as [|y a]; [simpl in Hn; lia|].
    destruct (move_neighbour d p b x y a true Eg) as (l & H1 & H2 & H3 & H4).
    exists p, b, x, y, a. split; [done|]. by exists l.
  + apply Nat.ltb_lt in Ho. destruct b as [|w b _] using rev_ind; [simpl in Hb; lia|].
    rewrite <-app_assoc in Eg. destruct (move_neighbour d p b w x a false Eg) as (l & H1 & H2 & H3 & H4).
    exists p, b, w, x, a. split; [done|]. by exists l.
Qed.
Lemma move_end_step new_URL d d' out i : step new_URL d (MoveToEnd i) d' out ->
  exists p b x a, row_index x = i /\ isCatchAllRoute (row_route x) = true /\
    regrouped d d' p (b ++ x :: a) (b ++ a ++ [x]).
Proof.
  intros Hs. inversion Hs as [? ? ? Ho Hh]; subst. injection Hh as <- <-. cbn [offered] in Ho.
  apply andb_true_iff in Ho as [_ Ho]. destruct (group_position i d) as [[pos n]|] eqn:Eg; [|done].
  apply group_position_spec in Eg as (p & b & x & a & Hp & Eg & Hb & Hn & <- & _).
  destruct (row_of_group _ _ _ _ _ Eg) as [Rx _]. rewrite Rx in Ho. apply andb_true_iff in Ho as [Hc Ho].
  apply Nat.ltb_lt in Ho. rewrite length_app in Hn.
  destruct a as [|z a _] using rev_ind; [simpl in Hn; lia|].
  destruct (move_last d p b x a z Eg) as (l & H1 & H2 & H3 & H4).
  exists p, b, x, (a ++ [z]). split_and!; [done..|]. exists l. rewrite <-(app_assoc a [z] [x]). by split_and!.
Qed.

(** Moving a route moves it among the routes of its path only: the
    buttons that the page offers exchange it with its neighbour or put it
    behind the last route of the path, every route moves together with its
    key, none is lost, and the routes of all other paths, the management
    routes among them, keep their order. *)
Theorem moves_exact new_URL d d' out i :
  (forall down, step new_URL d (MoveRoute i down) d' out ->
     exists p b x y a, row_index (if down then x else y) = i /\
       regrouped d d' p (b ++ x :: y :: a) (b ++ y :: x :: a)) /\
  (step new_URL d (MoveToEnd i) d' out ->
     exists p b x a, row_index x = i /\ isCatchAllRoute (row_route x) = true /\
       regrouped d d' p (b ++ x :: a) (b ++ a ++ [x])).
Proof. split; [intros down; apply move_step|apply move_end_step]. Qed.

(** The handler alone wraps around: [at(-1)] is the last route of the path,
    so moving the first one up exchanges it with the last.  Only the disabled
    button keeps this from happening. *)
Definition sample_route (path : jsstr) (ms : list jsstr) : AdvancedCustomRoute := set_models ms (route_for path).
Definition sample_dialog (l : list AdvancedCustomRoute) : dialog :=
  Dialog (config_of l) (map route_key (seq 1 (length l))) (length l) TabForwarding [] [] "all_protocols" false ∅.
Definition three_models : dialog :=
  sample_dialog [sample_route "/v1/messages" ["a" : jsstr]; sample_route "/v1/messages" ["b" : jsstr];
                 sample_route "/v1/messages" ["c" : jsstr]].
Theorem first_moved_up_wraps :
  map models (routes (moveRouteWithinGroup 0 false three_models)) = [Some ["c" : jsstr]; Some ["b" : jsstr]; Some ["a" : jsstr]] /\
  offered (fun _ => None) three_models (MoveRoute 0 false) = false.
Proof. split; vm_compute; reflexivity. Qed.
Lemma moves_exact_witness :
  exists p b x y a, row_index x = 0 /\
    regrouped three_models (moveRouteWithinGroup 0 true three_models) p (b ++ x :: y :: a) (b ++ y :: x :: a).
Proof.
  apply (proj1 (moves_exact (fun _ => None) three_models (moveRouteWithinGroup 0 true three_models) [] 0) true).
  apply step_handle; [vm_compute; reflexivity|reflexivity].
Defined.

(** ** Catch-all routes last *)

Lemma partition_perm {A} (f : A -> bool) l : List.filter (fun x => negb (f x)) l ++ List.filter f l ≡ₚ l.
Proof.
  induction l as [|x l IH]; [done|]. simpl. destruct (f x); simpl.
  - rewrite <-Permutation_middle. by constructor.
  - by constructor.
Qed.
Lemma ordered_perm l : ordered_rows l ≡ₚ l.
Proof. apply partition_perm. Qed.

Lemma mget_map {V W} (f : V -> W) (k : jsstr) (m : jsmap jsstr V) :
  mget k (map (fun kv => (kv.1, f kv.2)) m) = f <$> mget k m.
Proof. induction m as [|[k' v] m IH]; [done|]. simpl. by destruct (decide (k' = k)). Qed.
Lemma ordered_queue p rows : default [] (mget p (orderedRowsByPath rows)) = ordered_rows (rows_of p rows).
Proof. unfold orderedRowsByPath. rewrite mget_map, rows_by_path_get. by destruct (rows_of p rows). Qed.

(** Queues that hold as many rows of each path as are left. *)
Definition fits (queues : jsmap jsstr (list row)) (rows : list row) : Prop :=
  forall p, length (default [] (mget p queues)) = length (rows_of p rows) /\
    Forall (fun r => row_path r = p) (default [] (mget p queues)).
Lemma fits_shift queues r rest x q : fits queues (r :: rest) -> mget (row_path r) queues = Some (x :: q) ->
  fits (mset (row_path r) q queues) rest.
Proof.
  intros H E p. destruct (H p) as [Hl Hp]. destruct (decide (p = row_path r)) as [->|Hne].
  - rewrite mget_mset_eq. rewrite E in *. cbn [default from_option id] in *. rewrite rows_of_same in Hl by done.
    inversion Hp. split; [by injection Hl|done].
  - rewrite mget_mset_ne by done. by rewrite rows_of_other in Hl by done.
Qed.
Lemma shift_spec queues rows : fits queues rows ->
  map row_path (shift_rows queues rows) = map row_path rows /\
  forall p, rows_of p (shift_rows queues rows) = default [] (mget p queues).
Proof.
  revert queues. induction rows as [|r rest IH]; intros queues H.
  { split; [done|]. intros p. destruct (H p) as [Hl _]. by destruct (default [] (mget p queues)). }
  destruct (H (row_path r)) as [Hl Hp]. rewrite rows_of_same in Hl by done. cbn [shift_rows].
  destruct (mget (row_path r) queues) as [[|x q]|] eqn:E; try done. cbn [default from_option id] in Hp.
  apply Forall_cons in Hp as [Hx _]. destruct (IH _ (fits_shift _ _ _ _ _ H E)) as [IH1 IH2]. split.
  - cbn [map]. by rewrite Hx, IH1.
  - intros p. destruct (decide (p = row_path r)) as [->|Hne].
    + rewrite rows_of_same, IH2, mget_mset_eq, E by done. done.
    + rewrite rows_of_other, IH2, mget_mset_ne by congruence. done.
Qed.

Abbreviation refilled := (refill (fun r : row => r) (fun r => r)).
Lemma refill_map {A} (f : row -> A) queue rows : refill f f queue rows = map f (refilled queue rows).
Proof.
  revert queue. induction rows as [|r rows IH]; intros queue; [done|]. cbn [refill].
  destruct (negb _); [|destruct queue]; cbn [map]; by rewrite IH.
Qed.
Lemma forwarding_path r r' : row_path r = row_path r' -> is_forwarding r = is_forwarding r'.
Proof. unfold is_forwarding. by intros ->. Qed.
Lemma refill_spec queue rows : map row_path queue = map row_path (List.filter is_forwarding rows) ->
  map row_path (refilled queue rows) = map row_path rows /\
  List.filter is_forwarding (refilled queue rows) = queue /\
  forall i r, rows !! i = Some r -> is_forwarding r = false -> refilled queue rows !! i = Some r.
Proof.
  revert queue. induction rows as [|r rows IH]; intros queue; cbn [List.filter refill].
  { intros H. by destruct queue. }
  destruct (is_forwarding r) eqn:Ef; cbn [negb].
  - destruct queue as [|x q]; cbn [map]; intros H; [done|]. injection H as Hx H.
    destruct (IH q H) as (H1 & H2 & H3). cbn [map List.filter]. rewrite (forwarding_path x r Hx), Ef, Hx, H1, H2.
    split_and!; [done..|]. intros [|i] r' Hi Hf; [injection Hi as <-; congruence|]. by apply H3.
  - intros H. destruct (IH queue H) as (H1 & H2 & H3). cbn [map List.filter]. rewrite Ef, H1, H2.
    split_and!; [done..|]. intros [|i] r' Hi Hf; [done|]. by apply H3.
Qed.

Lemma rows_of_forwarding p l : isAdvancedCustomManagementPath p = false ->
  rows_of p (List.filter is_forwarding l) = rows_of p l.
Proof.
  intros Hp. induction l as [|x l IH]; [done|]. cbn [List.filter].
  destruct (decide (row_path x = p)) as [Hx|Hx].
  - unfold is_forwarding at 1. rewrite Hx, Hp. cbn [negb]. by rewrite !rows_of_same, IH.
  - rewrite (rows_of_other p x l) by done. destruct (is_forwarding x); [by rewrite rows_of_other|done].
Qed.
(** Rows at the places of a path, when the paths are in place. *)
Lemma rows_of_place p l k : map row_path l = map row_path k ->
  (forall i r, k !! i = Some r -> row_path r = p -> l !! i = Some r) -> rows_of p l = rows_of p k.
Proof.
  revert l. induction k as [|r k IH]; intros [|x l] Hm H; try done. injection Hm as Hx Hm.
  assert (rows_of p l = rows_of p k) as E by (apply IH; [done|]; intros i r' Hi; apply (H (S i) r' Hi)).
  destruct (decide (row_path r = p)) as [Hp|Hp].
  - specialize (H 0 r eq_refl Hp). injection H as ->. by rewrite !rows_of_same, E.
  - rewrite !rows_of_other; [done|done|congruence].
Qed.

Record in_order (d : dialog) (l : list row) : Prop := {
  o_perm : l ≡ₚ allRouteRows d;
  o_paths : map row_path l = map row_path (allRouteRows d);
  o_management : forall i r, allRouteRows d !! i = Some r -> is_forwarding r = false -> l !! i = Some r;
  o_groups : forall p, isAdvancedCustomManagementPath p = false ->
    rows_of p l = ordered_rows (rows_of p (allRouteRows d)) }.
Lemma fix_order_rows d : exists l, fixCatchAllOrder d = rearranged l d /\ in_order d l.
Proof.
  unfold fixCatchAllOrder. set (next := shift_rows (orderedRowsByPath (routeRows d)) (routeRows d)).
  destruct (shift_spec (orderedRowsByPath (routeRows d)) (routeRows d)) as [Hp Hg].
  { intros p. rewrite ordered_queue. split; [by rewrite ordered_perm|]. apply Forall_forall.
    intros r Hr. rewrite ordered_perm in Hr. by apply elem_of_rows_of in Hr as [_ ?]. }
  fold next in Hp, Hg. clearbody next.
  destruct (refill_spec next (allRouteRows d)) as (H1 & H2 & H3); [exact Hp|].
  exists (refilled next (allRouteRows d)). split.
  { unfold rearranged. by rewrite <-!refill_map. }
  assert (forall p, isAdvancedCustomManagementPath p = false ->
    rows_of p (refilled next (allRouteRows d)) = ordered_rows (rows_of p (allRouteRows d))) as Hgroups.
  { intros p Hm. rewrite <-(rows_of_forwarding p), H2, (Hg p), ordered_queue by done. f_equal. by apply rows_of_forwarding. }
  split; try done. apply (perm_of_keys row_path). intros p.
  destruct (isAdvancedCustomManagementPath p) eqn:Em; [|rewrite Hgroups by done; apply ordered_perm].
  rewrite (rows_of_place p _ (allRouteRows d)); [done|done|]. intros i r Hi Hr. apply H3; [done|].
  unfold is_forwarding. by rewrite Hr, Em.
Qed.

(** *** What the message of a misplaced catch-all route means *)

Definition is_order_error (m : jsstr) : Prop := m = catchAllOrderErrorMessage.
Lemma add_models_message i seen ms st e : add_models i seen ms st = inl e -> ~ is_order_error (err_message e).
Proof.
  revert seen st. induction ms as [|m ms IH]; intros seen st; simpl; [done|].
  destruct (_ && _); [by intros [= <-]|]. destruct (has m seen); [by intros [= <-]|].
  destruct (path_models st !! m); [by intros [= <-]|]. apply IH.
Qed.
Lemma auth_message a m : validateRouteAuth a = Some m -> ~ is_order_error m.
Proof. unfold validateRouteAuth. destruct a; [|done]. intros H. repeat case_match; simplify_eq; done. Qed.
Lemma management_message i p u c ms st e : check_management i p u c ms st = inl e -> ~ is_order_error (err_message e).
Proof.
  unfold check_management, check_management_rules. intros H.
  destruct (negb _); [done|]. destruct (str_eqb p ADVANCED_CUSTOM_MODEL_LIST_PATH); repeat case_match; simplify_eq; done.
Qed.
Lemma models_message i p ms byPath e : validateAdvancedCustomRouteModels i p ms byPath = inl e ->
  is_order_error (err_message e) -> ms <> [] /\ catchAllIndex (entry byPath p) <> None.
Proof.
  unfold validateAdvancedCustomRouteModels, entry.
  destruct ms as [|m ms]; destruct (catchAllIndex _) eqn:E; try done; try (by intros [= <-]).
  destruct (add_models _ _ _ _) eqn:Ea; [|done]. intros [= <-] H. by apply add_models_message in Ea.
Qed.

Lemma partition_split {A} (f : A -> bool) u x v y w l1 l2 : u ++ x :: v ++ y :: w = l1 ++ l2 ->
  Forall (fun z => f z = false) l1 -> Forall (fun z => f z = true) l2 -> f x = true -> f y = false -> False.
Proof.
  revert u. induction l1 as [|z l1 IH]; intros u E H1 H2 Hx Hy.
  - simpl in E. subst l2. rewrite Forall_forall in H2. specialize (H2 y ltac:(set_solver)). congruence.
  - apply Forall_cons in H1 as [Hz H1]. destruct u as [|z' u]; injection E as -> E; [congruence|]. by eapply IH.
Qed.

Section Order.
Context (new_URL : jsstr -> option URL).

Lemma route_message i done st r e : describes new_URL done st -> validate_route new_URL i r st = inl e ->
  is_order_error (err_message e) ->
  exists r', r' ∈ done /\ route_path r' = route_path r /\ route_models r' = [] /\ route_models r <> [] /\
    is_management r = false.
Proof.
  intros Hd. unfold validate_route. fold (route_models r) (route_converter r).
  destruct (negb _); [by intros [= <-]|]. destruct (negb _); [by intros [= <-]|].
  destruct (includes "?" _); [by intros [= <-]|].
  pose proof (check_management_spec new_URL i done st r Hd) as Hm.
  destruct (check_management _ _ _ _ _ _) as [e'|st1] eqn:Ec.
  { intros [= <-] He. by apply management_message in Ec. }
  destruct Hm as (Hmf & Hby & _). rewrite Hby.
  destruct (validateAdvancedCustomRouteModels _ _ _ _) as [e'|byPath] eqn:Em.
  - intros [= <-] He. destruct (models_message _ _ _ _ _ Em He) as [Hne Hc].
    apply (t_catch _ _ (d_tracks _ _ _ Hd)) in Hc as (r' & Hr' & Hp & Hc). exists r'. split_and!; try done.
    destruct (is_management r) eqn:E; [|done]. by destruct (Hmf E) as [? _].
  - intros H He. exfalso. revert H.
    destruct (negb _); [by intros [= <-]|]. destruct (negb _); [by intros [= <-]|].
    destruct (negb _); [by intros [= <-]|]. destruct (negb _); [by intros [= <-]|].
    destruct (validateRouteAuth _) as [m|] eqn:Ea; [|by intros [=]]. intros [= <-].
    by apply auth_message in Ea.
Qed.
Lemma routes_message i done rs st e : describes new_URL done st -> validate_routes new_URL i rs st = Some e ->
  is_order_error (err_message e) ->
  exists a r' b r c, done ++ rs = a ++ r' :: b ++ r :: c /\ route_path r' = route_path r /\ route_models r' = [] /\
    route_models r <> [] /\ is_management r = false.
Proof.
  revert i done st. induction rs as [|r rs IH]; intros i done st Hd; simpl; [by intros [=]|].
  pose proof (validate_route_spec new_URL i done st r Hd) as Hs.
  destruct (validate_route new_URL i r st) as [e'|st'] eqn:E.
  - intros [= <-] He. destruct (route_message _ _ _ _ _ Hd E He) as (r' & Hr' & H1 & H2 & H3 & H4).
    apply list_elem_of_split in Hr' as (a & b & ->). exists a, r', b, r, rs. by rewrite <-app_assoc.
  - intros H He. destruct (IH (S i) (done ++ [r]) st' Hs H He) as (a & r' & b & r0 & c & Ed & H').
    rewrite <-app_assoc in Ed. by exists a, r', b, r0, c.
Qed.
Lemma order_error_means d : canFixCatchAllOrder new_URL d = true ->
  exists a r' b r c, routes d = a ++ r' :: b ++ r :: c /\ route_path r' = route_path r /\ route_models r' = [] /\
    route_models r <> [] /\ is_management r = false.
Proof.
  unfold canFixCatchAllOrder, validationError, validateAdvancedCustomConfig.
  rewrite normalizedConfig_routes, routes_of_config, (map_id_on normalizeAdvancedCustomRoute).
  2:{ intros r Hr. pose proof (routes_fixed d) as H. rewrite Forall_forall in H. by apply H. }
  destruct (routes d) as [|r rs] eqn:E; [done|]. destruct (validate_routes _ _ _ _) as [e|] eqn:Ev; [|done].
  intros H%str_eqb_true. apply (routes_message 0 [] (r :: rs) initial_state e (describes_initial new_URL) Ev H).
Qed.
Lemma ordered_no_error d l : in_order d l -> canFixCatchAllOrder new_URL (rearranged l d) = false.
Proof.
  intros [Hperm _ _ Hg]. apply not_true_iff_false. intros (a & r' & b & r & c & E & Hp & Hc & Hr & Hm)%order_error_means.
  rewrite rearranged_routes in E by done.
  assert (Forall (fun x => fixed (row_route x)) l) as Hfix.
  { rewrite Hperm. apply Forall_forall. intros x Hx. pose proof (routes_fixed d) as H. rewrite Forall_forall in H.
    apply H. rewrite <-row_routes. apply elem_of_map. by exists x. }
  change (map row_route l) with (row_route <$> l) in E.
  apply fmap_app_inv in E as (la & l1 & -> & E & ->). symmetry in E.
  apply fmap_cons_inv in E as (x' & l2 & -> & E & ->). symmetry in E.
  apply fmap_app_inv in E as (lb & l3 & -> & E & ->). symmetry in E.
  apply fmap_cons_inv in E as (x & lc & -> & E & ->).
  set (p := row_path x). assert (row_path x' = p) as Hx' by exact Hp.
  assert (isAdvancedCustomManagementPath p = false) as Hnm by exact Hm.
  specialize (Hg p Hnm). rewrite rows_of_app, (rows_of_same p x'), rows_of_app, (rows_of_same p x) in Hg by done.
  rewrite !Forall_app, Forall_cons, Forall_app, Forall_cons in Hfix. destruct Hfix as (_ & Fx' & _ & Fx & _).
  assert (isCatchAllRoute (row_route x') = true) as Cx' by (by apply catch_all_models).
  assert (isCatchAllRoute (row_route x) = false) as Cx.
  { apply not_true_iff_false. by rewrite catch_all_models. }
  revert Hg. unfold ordered_rows. generalize (rows_of p (allRouteRows d)) as g. intros g Hg.
  eapply (partition_split (fun r => isCatchAllRoute (row_route r))); [exact Hg| | |exact Cx'|exact Cx];
    apply Forall_forall; intros y [_ Hy]%elem_of_bfilter; [by apply negb_true_iff in Hy|done].
Qed.
End Order.

(** C27: the repair of the order does what it says: the routes stay on the
    paths of the table, management routes do not move, on every other path
    the routes for given models come first and the catch-all routes last,
    each part in its order, no route is lost, keys move with their routes, and
    afterwards the error that offers the repair is gone. *)
Theorem fix_order_exact new_URL d : exists l,
  fixCatchAllOrder d = rearranged l d /\ l ≡ₚ allRouteRows d /\
  map row_path l = map row_path (allRouteRows d) /\
  (forall i r, allRouteRows d !! i = Some r -> is_forwarding r = false -> l !! i = Some r) /\
  (forall p, isAdvancedCustomManagementPath p = false ->
     rows_of p l = List.filter (fun r => negb (isCatchAllRoute (row_route r))) (rows_of p (allRouteRows d))
                   ++ List.filter (fun r => isCatchAllRoute (row_route r)) (rows_of p (allRouteRows d))) /\
  canFixCatchAllOrder new_URL (fixCatchAllOrder d) = false.
Proof.
  destruct (fix_order_rows d) as (l & El & Hl). exists l. pose proof Hl as [H1 H2 H3 H4].
  split_and!; try done. rewrite El. by apply ordered_no_error.
Qed.

(** ** The input of the models *)

Lemma trim_space s : trim (32%N :: s) = trim s.
Proof. done. Qed.
Lemma split_prepend c d s : d <> c -> exists h t, split_char c s = h :: t /\ split_char c (d :: s) = (d :: h) :: t.
Proof.
  intros H. destruct (split_char c s) as [|h t] eqn:E; [by apply split_char_nonempty in E|]. exists h, t.
  split; [done|]. simpl. rewrite (proj2 (N.eqb_neq d c)) by done. by rewrite E.
Qed.
Lemma split_space s : map trim (split_char 44 (32%N :: s)) = map trim (split_char 44 s).
Proof. destruct (split_prepend 44 32 s) as (h & t & -> & ->); [done|]. cbn [map]. by rewrite trim_space. Qed.

Definition no_comma (ms : list jsstr) : Prop := Forall (fun m => 44%N ∉ m) ms.
Lemma split_models ms u : no_comma ms -> ms <> [] -> (u = [] \/ u = [44%N]) ->
  map trim (split_char 44 (join ", " ms ++ u)) = map trim ms ++ match u with [] => [] | _ => [[]] end.
Proof.
  intros H Hne Hu. induction H as [|m ms Hm Hms IH]; [done|]. destruct ms as [|m' ms].
  - simpl join. destruct Hu as [-> | ->].
    + by rewrite app_nil_r, split_char_no_sep.
    + rewrite split_char_app by done. done.
  - rewrite join_cons by done. rewrite <-!app_assoc.
    change (m ++ ", " ++ join ", " (m' :: ms) ++ u) with (m ++ 44%N :: (32%N :: (join ", " (m' :: ms) ++ u))).
    rewrite split_char_app by done. rewrite map_cons, split_space, IH by done. done.
Qed.
Lemma parse_split ms u : no_comma ms -> filter_truthy (map trim ms) = ms -> (u = [] \/ u = [44%N]) ->
  filter_truthy (map trim (split_char 44 (join ", " ms ++ u))) = ms.
Proof.
  intros Hc Hf Hu. destruct ms as [|m ms]; [by destruct Hu as [-> | ->]|].
  rewrite split_models by done. unfold filter_truthy in *. rewrite bfilter_app, Hf.
  destruct Hu as [-> | ->]; simpl; by rewrite ?app_nil_r.
Qed.

Lemma fixed_models r : fixed r -> filter_truthy (map trim (route_models r)) = route_models r /\
  modelsInputValue r = join ", " (route_models r).
Proof.
  intros H. assert (models r = match route_models r with [] => None | ms => Some ms end) as E.
  { rewrite <-(H : normalizeAdvancedCustomRoute r = r) at 1. cbn [models normalizeAdvancedCustomRoute].
    fold (route_models r). by destruct (route_models r). }
  split.
  - unfold route_models, normalizeAdvancedCustomRouteModels. destruct (models r) as [l|]; [|done].
    pose proof (route_models_fixed (Some l)) as Hf. cbn [normalizeAdvancedCustomRouteModels] in Hf.
    by destruct (filter_truthy (map trim l)).
  - unfold modelsInputValue. rewrite E. by destruct (route_models r).
Qed.
Lemma set_models_fixed r ms : fixed r -> filter_truthy (map trim ms) = route_models r ->
  normalizeAdvancedCustomRoute (set_models ms r) = r.
Proof.
  intros H E. transitivity (normalizeAdvancedCustomRoute r); [|done].
  unfold normalizeAdvancedCustomRoute, set_models.
  cbn [incoming_path converter models route_auth]. unfold getAdvancedCustomRouteUpstreamPath. cbn [upstream_path].
  f_equal. by rewrite (E : normalizeAdvancedCustomRouteModels (Some ms) = normalizeAdvancedCustomRouteModels (models r)).
Qed.

(** An update that normalisation takes back. *)
Lemma update_undone d i r patch : routes d !! i = Some r -> normalizeAdvancedCustomRoute (patch r) = r ->
  routes (updateRoute i patch d) = routes d.
Proof.
  intros Hi Hp. unfold updateRoute, update_routes. rewrite routes_with_config.
  apply list_eq. intros j. change (map normalizeAdvancedCustomRoute) with (fmap (M := list) normalizeAdvancedCustomRoute).
  rewrite list_lookup_fmap. destruct (decide (i = j)) as [<-|Hne].
  - rewrite list_lookup_alter, Hi. rewrite decide_True by done. cbn [fmap option_fmap option_map]. by rewrite Hp.
  - rewrite list_lookup_alter_ne by done. destruct (routes d !! j) as [x|] eqn:E; [|done]. cbn [fmap option_fmap option_map]. f_equal.
    pose proof (routes_fixed d) as H. rewrite Forall_forall in H. apply H. by apply list_elem_of_lookup_2 in E.
Qed.

(** A comma cannot be typed after the models of a route: the input shows
    the normalised models, and normalisation drops the empty entry behind the
    comma, so that the routes are the same and the comma is gone.  Leaving the
    input changes nothing either, as long as no model is listed twice. *)
Theorem typed_comma_lost d i r : routes d !! i = Some r -> Forall (fun m => 44%N ∉ m) (route_models r) ->
  routes (change_route i (SetModelsInput (modelsInputValue r ++ ",")) d) = routes d /\
  (NoDup (route_models r) -> routes (change_route i (BlurModelsInput (modelsInputValue r)) d) = routes d).
Proof.
  intros Hi Hc. assert (fixed r) as Hf.
  { pose proof (routes_fixed d) as H. rewrite Forall_forall in H. apply H. by apply list_elem_of_lookup_2 in Hi. }
  destruct (fixed_models r Hf) as [Hm Hv]. unfold change_route. rewrite Hi. cbn [patch_of]. rewrite Hv. split.
  - eapply update_undone; [done|]. unfold setModelsInput. apply set_models_fixed; [done|].
    destruct (str_eqb (join ", " (route_models r) ++ ",") []) eqn:E.
    { apply str_eqb_true in E. by apply app_eq_nil in E as [_ ?]. }
    apply parse_split; [done|done|by right].
  - intros Hd. eapply update_undone; [done|]. unfold normalizeModelsInput. apply set_models_fixed; [done|].
    assert (parseAdvancedCustomRouteModels (join ", " (route_models r)) = route_models r) as ->; [|done].
    unfold parseAdvancedCustomRouteModels. pose proof (parse_split _ [] Hc Hm (or_introl eq_refl)) as H.
    rewrite app_nil_r in H. by rewrite H, nub_id.
Qed.
Lemma typed_comma_lost_witness :
  routes (change_route 0 (SetModelsInput "gpt-4o,") (sample_dialog [sample_route "/v1/messages" ["gpt-4o" : jsstr]]))
  = routes (sample_dialog [sample_route "/v1/messages" ["gpt-4o" : jsstr]]).
Proof.
  refine (proj1 (typed_comma_lost (sample_dialog [sample_route "/v1/messages" ["gpt-4o" : jsstr]]) 0
    (normalizeAdvancedCustomRoute (sample_route "/v1/messages" ["gpt-4o" : jsstr])) _ _)).
  - reflexivity.
  - apply Forall_forall. intros m Hm. vm_compute in Hm.
    apply list_elem_of_singleton in Hm as ->. apply (bool_decide_unpack _). vm_compute. exact I.
Defined.

(** A regular expression with a comma does not survive the input: leaving it
    without a change splits the rule. *)
Theorem blur_splits_regex :
  let d := sample_dialog [sample_route "/v1/messages" ["re:^a{1,2}$" : jsstr]] in
  map modelsInputValue (routes d) = ["re:^a{1,2}$" : jsstr] /\
  map models (routes (change_route 0 (BlurModelsInput "re:^a{1,2}$") d)) = [Some ["re:^a{1" : jsstr; "2}$" : jsstr]].
Proof. split; vm_compute; reflexivity. Qed.
End RouteEditing.
