(* ===== verification/RouteEditorReach.v ===== *)
(** The dialogs that the editor of advanced custom routes reaches: the keys of
    the rows, what is saved and reopened, the text tab, templates, converters,
    and that the forms never put two routes on a path. *)
From S2P Require Import Prelude JsNumber JsCollections Json AdvancedCustom AdvancedCustomText AdvancedCustomTextProofs RouteEditor RouteEditorProofs.
Import AdvancedCustom Routes AdvancedCustomText ConfigText RouteEditor RouteEditing.

Module RouteReach.

(** * Keys *)

(** One key per route, all different, none newer than the counter. *)
Record aligned (d : dialog) : Prop := {
  k_length : length (routeKeys d) = length (routes d);
  k_distinct : NoDup (routeKeys d);
  k_known : Forall (fun k => exists n, k = route_key n /\ 1 <= n <= routeKeyCounter d) (routeKeys d) }.

Lemma route_key_inj n m : route_key n = route_key m -> n = m.
Proof. intros H%app_inv_head. apply digits_inj in H; lia. Qed.
Lemma route_keys_NoDup a n : NoDup (map route_key (seq a n)).
Proof.
  revert a. induction n as [|n IH]; intros a; [constructor|]. cbn [seq map]. apply NoDup_cons. split; [|apply IH].
  intros (m & Hm%route_key_inj & Hin)%elem_of_map. apply list_elem_of_In, in_seq in Hin. lia.
Qed.
Lemma new_keys_known c n : Forall (fun k => exists m, k = route_key m /\ S c <= m <= c + n) (map route_key (seq (S c) n)).
Proof.
  apply Forall_forall. intros k (m & -> & Hm)%elem_of_map. apply list_elem_of_In, in_seq in Hm. exists m. split; [done|lia].
Qed.

Lemma aligned_new d : aligned (with_new_keys (length (routes d)) d).
Proof.
  split; cbn.
  - by rewrite length_map, length_seq.
  - apply route_keys_NoDup.
  - eapply Forall_impl; [apply new_keys_known|]. intros k (m & -> & Hm). exists m. split; [done|]. simpl in Hm |- *. lia.
Qed.
Lemma aligned_shown d : aligned d -> shown_keys d = routeKeys d.
Proof.
  intros [Hl _ Hk]. unfold shown_keys. apply list_eq. intros i.
  change (map routeKey) with (fmap (M := list) routeKey). unfold allRouteRows. rewrite list_lookup_fmap, list_lookup_imap.
  destruct (routes d !! i) as [r|] eqn:Er.
  - destruct (lookup_lt_is_Some_2 (routeKeys d) i) as [k Ek]; [rewrite Hl; by eapply lookup_lt_Some|].
    rewrite Ek. cbn. f_equal. rewrite Forall_forall in Hk.
    destruct (Hk k ltac:(by eapply list_elem_of_lookup_2)) as (n & -> & _). done.
  - rewrite (lookup_ge_None_2 (routeKeys d)); [done|]. rewrite Hl. by apply lookup_ge_None.
Qed.
Lemma aligned_rearranged l d : aligned d -> l ≡ₚ allRouteRows d -> aligned (rearranged l d).
Proof.
  intros Ha Hl. pose proof (aligned_shown d Ha) as Hs. destruct Ha as [H1 H2 H3].
  assert (map routeKey l ≡ₚ routeKeys d) as Hp by (rewrite <-Hs; by apply Permutation_map).
  split.
  - rewrite rearranged_routes by done. cbn. by rewrite !length_map.
  - cbn. by rewrite Hp.
  - cbn. by rewrite Hp.
Qed.
Lemma aligned_append p d : aligned d -> aligned (append_route p d).
Proof.
  intros [H1 H2 H3].
  assert (routeKeys (append_route p d) = routeKeys d ++ [route_key (S (routeKeyCounter d))]) as Ek by done.
  assert (routeKeyCounter (append_route p d) = routeKeyCounter d + 1) as Ec by done.
  assert (routes (append_route p d) = map normalizeAdvancedCustomRoute (routes d ++ [route_for p])) as Er by done.
  split; rewrite ?Ek, ?Ec, ?Er.
  - rewrite length_map, !length_app, H1. done.
  - apply NoDup_app. split_and!; [done| |apply NoDup_singleton].
    intros k Hk ->%list_elem_of_singleton. rewrite Forall_forall in H3. destruct (H3 _ Hk) as (n & E%route_key_inj & Hn). lia.
  - apply Forall_app. split.
    + eapply Forall_impl; [exact H3|]. intros k (n & -> & Hn). exists n. split; [done|lia].
    + constructor; [|constructor]. eexists. split; [done|lia].
Qed.
Lemma without_index_spec {A} i (l : list A) : without_index i l = delete i l.
Proof.
  assert (forall n (k : list A), (List.filter (fun x : nat * A => negb (Nat.eqb x.1 (n + i))) (imap (fun j x => (n + j, x)) k)).*2 = delete i k) as H.
  { revert l. induction i as [|i IH]; intros l n k; destruct k as [|x k]; try done; cbn [imap List.filter].
    - cbn [fst]. rewrite Nat.eqb_refl. cbn [negb]. rewrite bfilter_id; [|].
      + change (delete 0 (x :: k)) with k. apply list_eq. intros j. rewrite list_lookup_fmap, list_lookup_imap.
        by destruct (k !! j).
      + intros y (j & z & -> & _)%elem_of_lookup_imap. cbn. apply negb_true_iff, Nat.eqb_neq. simpl. lia.
    - cbn [fst]. rewrite (proj2 (Nat.eqb_neq (n + 0) (n + S i))) by lia. cbn [negb]. csimpl.
      change (delete (S i) (x :: k)) with (x :: delete i k). f_equal. rewrite <-(IH k (S n) k).
      f_equal. rewrite (filter_ext (fun y : nat * A => negb (Nat.eqb y.1 (n + S i))) (fun y => negb (Nat.eqb y.1 (S n + i))))
        by (intros y; do 2 f_equal; lia). f_equal. apply imap_ext. intros j y _. cbn. f_equal. lia. }
  apply (H 0 l).
Qed.
Lemma delete_beyond {A} i (l : list A) : length l <= i -> delete i l = l.
Proof.
  revert i. induction l as [|x l IH]; intros [|i] H; simpl in H; try done; try lia.
  change (delete (S i) (x :: l)) with (x :: delete i l). f_equal. apply IH. lia.
Qed.
Lemma removeRoute_routes i d : routes (removeRoute i d) = delete i (routes d).
Proof.
  change (routes (removeRoute i d)) with (map normalizeAdvancedCustomRoute (without_index i (routes d))).
  rewrite without_index_spec. apply map_id_on. intros r Hr.
  pose proof (routes_fixed d) as H. rewrite Forall_forall in H. apply H.
  by eapply elem_of_sublist, sublist_delete.
Qed.
Lemma aligned_remove i d : aligned d -> aligned (removeRoute i d).
Proof.
  intros [H1 H2 H3].
  assert (routeKeys (removeRoute i d) = delete i (routeKeys d)) as Ek by apply without_index_spec.
  assert (routeKeyCounter (removeRoute i d) = routeKeyCounter d) as Ec by done.
  split; rewrite ?Ek, ?Ec, ?removeRoute_routes.
  - destruct (decide (i < length (routes d))) as [Hi|Hi].
    + rewrite !length_delete by (apply lookup_lt_is_Some; lia). by rewrite H1.
    + rewrite !delete_beyond by lia. done.
  - eapply sublist_NoDup; [exact H2|apply sublist_delete].
  - eapply sublist_Forall; [apply sublist_delete|exact H3].
Qed.
Lemma aligned_update i patch d : aligned d -> aligned (updateRoute i patch d).
Proof.
  intros [H1 H2 H3]. split; [|done..]. unfold updateRoute, update_routes. rewrite routes_with_config, length_map, length_alter.
  exact H1.
Qed.
Lemma aligned_same d d' : routes d' = routes d -> routeKeys d' = routeKeys d -> routeKeyCounter d' = routeKeyCounter d ->
  aligned d -> aligned d'.
Proof. intros Hr Hk Hc [H1 H2 H3]. split; by rewrite ?Hr, ?Hk, ?Hc. Qed.
Lemma length_normalized l : length (default [] (advanced_routes (normalizeAdvancedCustomConfig (config_of l)))) = length l.
Proof. cbn. apply length_map. Qed.
(** New keys for a new configuration. *)
Lemma aligned_config c d n : n = length (default [] (advanced_routes (normalizeAdvancedCustomConfig c))) ->
  aligned (with_new_keys n (with_config c d)).
Proof. intros ->. apply (aligned_new (with_config c d)). Qed.

Section Reached.
Context (new_URL : jsstr -> option URL).

Lemma switch_cases t d d' : switchTab new_URL (Some t) d = Some d' ->
  (exists text err tb, d' = with_tab tb (with_json text err d)) \/
  (exists c err, check_json new_URL (jsonText d) = Some (inr c) /\ activeTab d = TabJson /\
     d' = with_tab t (with_new_keys (length (default [] (advanced_routes (normalizeAdvancedCustomConfig c))))
            (with_config (normalizeAdvancedCustomConfig c) (with_json (jsonText d) err d)))).
Proof.
  unfold switchTab. case_bool_decide as Ht.
  - intros [= <-]. left. case_bool_decide; [by eexists _, _, _|]. exists (jsonText d), (jsonError d), t. by destruct d.
  - unfold parseJsonEditorConfig. intros (r & (r' & Hr & ->)%fmap_Some & ->)%fmap_Some.
    destruct r' as [m|c].
    + left. exists (jsonText d), m, (activeTab d). by destruct d.
    + right. by exists c, [].
Qed.
Lemma template_cases d : applySelectedTemplate d = d \/
  exists o, selectedTemplate d = Some o /\
    let c := replaceAdvancedCustomForwardingRoutes (normalizedConfig d) (map (set_models []) (default [] (advanced_routes o.2.2))) in
    exists s text k, applySelectedTemplate d = with_template k false (with_expanded s (with_json text []
      (with_new_keys (length (default [] (advanced_routes c))) (with_config c d)))) /\ text = stringifyAdvancedCustomConfig c.
Proof.
  unfold applySelectedTemplate. destruct (selectedTemplate d) as [o|]; [|by left]. right. exists o. split; [done|].
  by eexists _, _, _.
Qed.

Lemma save_cases d d' out : saveConfig new_URL d = Some (d', out) ->
  exists err, d' = with_json (jsonText d) err d.
Proof.
  unfold saveConfig. case_bool_decide.
  - unfold parseJsonEditorConfig. intros (r & (r' & Hr & ->)%fmap_Some & E)%fmap_Some.
    destruct r'; injection E as -> ->; by eexists.
  - intros [= E]. exists (jsonError d). destruct (validationError _ _); injection E as <- <-; by destruct d.
Qed.

Definition no_management (e : event) : Prop := match e with ChangeManagement _ _ => False | _ => True end.
Lemma step_aligned d e d' out : step new_URL d e d' out -> no_management e -> aligned d -> aligned d'.
Proof.
  intros Hs Hk Ha. pose proof Hs as Hs'. inversion Hs' as [? ? ? Ho Hh]; subst.
  destruct e; try (injection Hh as <- <-); try done.
  - apply fmap_Some in Hh as (d1 & Hd & [= -> ->]). apply switch_cases in Hd as [(text & err & tb & ->)|(c & err & _ & _ & ->)].
    + by apply (aligned_same d).
    + apply (aligned_same (with_new_keys (length (default [] (advanced_routes (normalizeAdvancedCustomConfig c))))
        (with_config (normalizeAdvancedCustomConfig c) (with_json (jsonText d) err d)))); try done.
      apply aligned_config. by rewrite normalize_idempotent_config.
  - unfold addRoute. destruct (_ || _); [done|]. by apply aligned_append.
  - unfold selectTemplate. destruct (template_of key); by apply (aligned_same d).
  - destruct replace; injection Hh as <- <-; [|by apply (aligned_same d)].
    destruct (template_cases d) as [->|(o & _ & s & text & k & -> & _)]; [done|].
    eapply aligned_same; [| | |eapply aligned_config]; try done. symmetry. apply length_normalized.
  - by apply (aligned_same d).
  - by apply (aligned_same d).
  - destruct expanded; injection Hh as <- <-; by apply (aligned_same d).
  - destruct (fix_order_rows d) as (l & -> & Hl). apply aligned_rearranged; [done|apply Hl].
  - unfold change_route. destruct (routes d !! i); [|done]. destruct (patch_of _ _); [by apply aligned_update|done].
  - destruct (move_step _ _ _ _ _ _ Hs) as (p & b & x & y & a & _ & l & -> & Hl & _). by apply aligned_rearranged.
  - destruct (move_end_step _ _ _ _ _ Hs) as (p & b & x & a & _ & _ & l & -> & Hl & _). by apply aligned_rearranged.
  - by apply aligned_remove.
  - by apply (aligned_same d).
  - apply save_cases in Hh as (err & ->). by apply (aligned_same d).
Qed.
End Reached.

Lemma open_aligned value d d' : open_effect true value d = Some d' -> aligned d'.
Proof.
  unfold open_effect. cbn [negb]. intros (c & _ & [= <-])%bind_Some.
  eapply aligned_same; [| | |eapply (aligned_config (normalizeAdvancedCustomConfig c))]; try done.
  by rewrite normalize_idempotent_config.
Qed.

(** Rows keep their identity: in every dialog reached from an opened one
    without adding or deleting a management route, each route has its own key,
    the keys are all different, and the rows show exactly the stored keys. *)
Theorem keys_identify new_URL value d0 d1 d : open_effect true value d0 = Some d1 ->
  reached new_URL (fun e => match e with ChangeManagement _ _ => False | _ => True end) d1 d ->
  length (routeKeys d) = length (routes d) /\ NoDup (routeKeys d) /\ map routeKey (allRouteRows d) = routeKeys d.
Proof.
  intros Ho Hr. assert (aligned d) as Ha.
  { induction Hr as [|d e d' out _ IH Hk Hs]; [by eapply open_aligned|]. by eapply step_aligned. }
  pose proof (aligned_shown d Ha). by destruct Ha.
Qed.

Definition empty_dialog : dialog := sample_dialog [].
Definition opened : dialog := default empty_dialog (open_effect true [] empty_dialog).
Definition no_URL : jsstr -> option URL := fun _ => None.
Lemma keys_identify_witness :
  length (routeKeys (addRoute (Some "/v1/messages") opened)) = length (routes (addRoute (Some "/v1/messages") opened)) /\
  NoDup (routeKeys (addRoute (Some "/v1/messages") opened)) /\
  map routeKey (allRouteRows (addRoute (Some "/v1/messages") opened)) = routeKeys (addRoute (Some "/v1/messages") opened).
Proof.
  apply (keys_identify no_URL [] empty_dialog opened); [reflexivity|].
  apply (reached_step _ _ _ opened (AddRoute "/v1/messages") _ []); [apply reached_start|exact I|].
  apply step_handle; [vm_compute; reflexivity|reflexivity].
Defined.

(** With a management route this is lost: no key is added for it, so that the
    route behind it is shown without a key of its own, and takes over another
    one when the management route is deleted. *)
Theorem management_shifts_keys :
  let d := append_route "/v1/responses" (change_management false AddManagement opened) in
  let d' := change_management false DeleteManagement d in
  map (fun r => (row_path r, routeKey r)) (allRouteRows d) =
    [("/v1/chat/completions" : jsstr, "advanced-custom-route-1" : jsstr); ("/v1/models" : jsstr, "advanced-custom-route-2" : jsstr);
     ("/v1/responses" : jsstr, "/v1/responses" : jsstr)] /\
  map (fun r => (row_path r, routeKey r)) (allRouteRows d') =
    [("/v1/chat/completions" : jsstr, "advanced-custom-route-1" : jsstr); ("/v1/responses" : jsstr, "advanced-custom-route-2" : jsstr)].
Proof. split; vm_compute; reflexivity. Qed.

(** * Saving and the text tab *)

Section Saving.
Context (new_URL : jsstr -> option URL).

Lemma validate_normalized c :
  validateAdvancedCustomConfig new_URL (Some (normalizeAdvancedCustomConfig c)) = validateAdvancedCustomConfig new_URL (Some c).
Proof. unfold validateAdvancedCustomConfig, routes_of. by rewrite normalize_idempotent_config. Qed.
Lemma checked text c : check_json new_URL text = Some (inr c) ->
  normalizeAdvancedCustomConfig c = c /\ validateAdvancedCustomConfig new_URL (Some c) = None.
Proof.
  unfold check_json. destruct (parseAdvancedCustomConfig _) as [|c'|] eqn:E; [by intros [=]| |by intros [=]].
  destruct (validateAdvancedCustomConfig _ _) eqn:Ev; [by intros [=]|]. intros [= <-]. split; [by eapply parsed_fixed|done].
Qed.
Lemma check_stringified c : check_json new_URL (stringifyAdvancedCustomConfig c) =
  Some match validateAdvancedCustomConfig new_URL (Some c) with
       | Some e => inl (err_message e)
       | None => inr (normalizeAdvancedCustomConfig c)
       end.
Proof. unfold check_json. rewrite parse_stringified, validate_normalized. done. Qed.
Lemma open_stringified c d : exists d1, open_effect true (stringifyAdvancedCustomConfig c) d = Some d1 /\
  config d1 = normalizeAdvancedCustomConfig c /\ activeTab d1 = TabForwarding /\
  validationError new_URL d1 = validateAdvancedCustomConfig new_URL (Some c).
Proof.
  unfold open_effect, parsed_or_default. rewrite parse_stringified. cbn [negb mbind option_bind].
  eexists. split; [done|]. split; [apply normalize_idempotent_config|]. split; [done|].
  unfold validationError, normalizedConfig. cbn [config with_expanded with_template with_tab with_json with_new_keys with_keys with_config].
  by rewrite !validate_normalized.
Qed.
Lemma save_outcome d d' out : saveConfig new_URL d = Some (d', out) ->
  (exists m, out = [ToastError m]) \/
  exists c, out = [OnSave (stringifyAdvancedCustomConfig c); OnOpenChange false] /\
    normalizeAdvancedCustomConfig c = c /\ validateAdvancedCustomConfig new_URL (Some c) = None /\
    (activeTab d <> TabJson -> c = normalizedConfig d).
Proof.
  unfold saveConfig. case_bool_decide as Ht.
  - unfold parseJsonEditorConfig. intros (r & (r' & Hr & ->)%fmap_Some & E)%fmap_Some.
    destruct r' as [m|c]; injection E as -> ->; [left; by eexists|right]. exists c.
    destruct (checked _ _ Hr). by split_and!.
  - intros [= E]. destruct (validationError new_URL d) as [e|] eqn:Ev; injection E as <- <-; [left; by eexists|right].
    exists (normalizedConfig d). split_and!; [done|apply normalize_idempotent_config|exact Ev|done].
Qed.
End Saving.

(** C26: only valid configurations are saved, and they survive: saving either
    shows an error and hands nothing over, or hands over a text that reads as
    a valid configuration, which in the form tabs is the one shown, and an
    editor opened on that text shows this configuration without an error.  The
    routes shown never change.  It goes through exactly unless the text tab
    holds JSON with fields of other types than declared: there the validation
    may throw, which nothing catches, so no error is shown. *)
Theorem saved_config_valid new_URL d :
  (saveConfig new_URL d = None <-> activeTab d = TabJson /\ exists l, parseAdvancedCustomConfig (Some (jsonText d)) = IllTyped l) /\
  forall d' out, saveConfig new_URL d = Some (d', out) ->
  config d' = config d /\
  ((exists m, out = [ToastError m]) \/
   exists c text, out = [OnSave text; OnOpenChange false] /\
     parseAdvancedCustomConfig (Some text) = Config c /\ validateAdvancedCustomConfig new_URL (Some c) = None /\
     (activeTab d <> TabJson -> c = normalizedConfig d) /\
     forall d0, exists d1, open_effect true text d0 = Some d1 /\ config d1 = c /\ validationError new_URL d1 = None).
Proof.
  split.
  { unfold saveConfig, parseJsonEditorConfig, check_json. case_bool_decide as Ht; [|split; [done|by intros [? _]]].
    destruct (parseAdvancedCustomConfig (Some (jsonText d))) as [|c|l]; (split; [|intros [_ (l' & E)]]); try done.
    intros _. split; [done|by exists l]. }
  intros d' out H. split; [by destruct (save_cases _ _ _ _ H) as [err ->]|].
  destruct (save_outcome _ _ _ _ H) as [Hm|(c & -> & Hn & Hv & Hc)]; [by left|right].
  exists c, (stringifyAdvancedCustomConfig c). split_and!; [done|by rewrite parse_stringified, Hn|done|done|].
  intros d0. destruct (open_stringified new_URL c d0) as (d1 & H1 & H2 & _ & H4). exists d1.
  split_and!; [done|by rewrite H2|by rewrite H4].
Qed.
Lemma saved_config_valid_witness :
  config opened = config opened /\
  ((exists m, snd (default (opened, []) (saveConfig no_URL opened)) = [ToastError m]) \/
   exists c text, snd (default (opened, []) (saveConfig no_URL opened)) = [OnSave text; OnOpenChange false] /\
     parseAdvancedCustomConfig (Some text) = Config c /\ validateAdvancedCustomConfig no_URL (Some c) = None /\
     (activeTab opened <> TabJson -> c = normalizedConfig opened) /\
     forall d0, exists d1, open_effect true text d0 = Some d1 /\ config d1 = c /\ validationError no_URL d1 = None).
Proof. apply (saved_config_valid no_URL opened). vm_compute. reflexivity. Defined.

(** The text tab is a faithful view: coming from a form tab and leaving it
    without an edit gives back the configuration in normal form when it is
    valid; when it is not, the tab is not left, shows the message of the error,
    and the draft stays as it was. *)
Theorem text_tab_faithful new_URL d t d1 : activeTab d <> TabJson -> switchTab new_URL (Some TabJson) d = Some d1 ->
  exists d2, switchTab new_URL (Some t) d1 = Some d2 /\
  match validationError new_URL d with
  | None => activeTab d2 = t /\ config d2 = normalizedConfig d /\ length (routeKeys d2) = length (routes d)
  | Some e => activeTab d2 = TabJson /\ jsonError d2 = err_message e /\ config d2 = config d /\ routeKeys d2 = routeKeys d
  end.
Proof.
  intros Ht. unfold switchTab at 1. rewrite bool_decide_true by done. rewrite (bool_decide_true (TabJson = TabJson)) by done.
  intros [= <-]. unfold switchTab. rewrite bool_decide_false by (intros H; by apply H).
  unfold parseJsonEditorConfig. cbn [jsonText with_tab with_json]. rewrite check_stringified. fold (validationError new_URL d).
  destruct (validationError new_URL d) as [e|]; cbn [fmap option_fmap option_map]; eexists; (split; [reflexivity|]); [done|].
  split; [done|]. unfold normalizedConfig. rewrite !normalize_idempotent_config. split; [done|].
  etransitivity; [exact (length_map route_key _)|]. apply length_seq.
Qed.
Lemma text_tab_faithful_witness :
  exists d2, switchTab no_URL (Some TabModels) (default opened (switchTab no_URL (Some TabJson) opened)) = Some d2 /\
    activeTab d2 = TabModels /\ config d2 = normalizedConfig opened /\ length (routeKeys d2) = length (routes opened).
Proof.
  refine (text_tab_faithful no_URL opened TabModels _ _ _); [discriminate|]. vm_compute. reflexivity.
Defined.

(** * Converters *)

Lemma trim_infix s : exists a b, s = a ++ trim s ++ b.
Proof.
  unfold trim. destruct (drop_spaces_suffix s) as (w & E & _).
  destruct (drop_spaces_suffix (reverse (drop_spaces s))) as (w' & E' & _).
  exists w, (reverse w'). apply (f_equal reverse) in E'. rewrite reverse_involutive, reverse_app in E'.
  by rewrite <-E'.
Qed.
Lemma includes_trim p s : includes p (trim s) = true -> includes p s = true.
Proof.
  intros (a & b & E)%includes_spec. destruct (trim_infix s) as (u & v & Es). rewrite E in Es.
  apply includes_spec. exists (u ++ a), (b ++ v). by rewrite Es, <-!app_assoc.
Qed.
Lemma offered_converter p c : c ∈ (getAdvancedCustomConverterOptions p).*1 ->
  isAdvancedCustomConverter c = true /\ isConverterPathAllowed (trim p) c = true.
Proof.
  intros (o & -> & Ho)%list_elem_of_fmap. unfold getAdvancedCustomConverterOptions in Ho.
  apply elem_of_bfilter in Ho as [Ho Hc]. split.
  - unfold isAdvancedCustomConverter. apply existsb_exists. exists o. split; [by apply list_elem_of_In|apply str_eqb_refl].
  - apply orb_true_iff in Hc as [->%str_eqb_true|Hc]; [done|done].
Qed.
(** A converter that fits the trimmed path keeps the path: the default path
    of the converter is only taken when it is the path itself. *)
Definition next_path (p c : jsstr) : jsstr :=
  if isConverterPathAllowed p c then p else getDefaultAdvancedCustomIncomingPath c.
Lemma next_path_same p c : isAdvancedCustomConverter c = true -> isConverterPathAllowed (trim p) c = true ->
  trim (next_path p c) = trim p.
Proof.
  intros Hc Ha. unfold next_path. destruct (isConverterPathAllowed p c) eqn:E; [done|].
  unfold isAdvancedCustomConverter, ADVANCED_CUSTOM_CONVERTER_OPTIONS in Hc. cbn [existsb fst] in Hc.
  repeat (apply orb_true_iff in Hc as [<-%str_eqb_true|Hc]); try done;
    unfold isConverterPathAllowed in Ha, E; cbn in Ha;
    destruct (str_eqb (trim p) "/v1/alpha/search") eqn:Es; try done;
    try (apply str_eqb_true in Ha; rewrite Ha; vm_compute; reflexivity).
  exfalso. cbn in E. destruct (str_eqb p "/v1/alpha/search") eqn:Ep.
  - apply str_eqb_true in Ep as ->. vm_compute in Ha. done.
  - apply orb_false_iff in E as [E1 E2]. apply orb_true_iff in Ha as [Ha|Ha]; apply includes_trim in Ha; congruence.
Qed.

Lemma native_auth p : getAdvancedCustomNativeAuth p ∈ [bearerHeaderAuth; apiKeyHeaderAuth; geminiQueryAuth].
Proof. unfold getAdvancedCustomNativeAuth. repeat case_match; set_solver. Qed.
Lemma defaults_shape c p : isAdvancedCustomConverter c = true -> trim p <> [] ->
  (getAdvancedCustomConverterDefaults c p).2 ∈ [bearerHeaderAuth; apiKeyHeaderAuth; geminiQueryAuth] /\
  (getAdvancedCustomConverterDefaults c p).1
    ∈ [trim p; openAIChatPath; openAIResponsesPath; claudeMessagesPath; geminiGenerateContentPath].
Proof.
  intros _ Hp. unfold getAdvancedCustomConverterDefaults.
  assert (str_or (trim p) (getDefaultAdvancedCustomIncomingPath c) = trim p) as -> by (unfold str_or; by destruct (trim p)).
  assert (str_or (trim p) openAIChatPath = trim p) as -> by (unfold str_or; by destruct (trim p)).
  pose proof (native_auth (trim p)) as Hn.
  repeat case_match; cbn [fst snd]; (split; [done || set_solver|set_solver]).
Qed.

(** An update in place, and the route it gives. *)
Lemma update_routes_at d i r patch : routes d !! i = Some r ->
  routes (updateRoute i patch d) = <[i := normalizeAdvancedCustomRoute (patch r)]> (routes d).
Proof.
  intros Hi. unfold updateRoute, update_routes. rewrite routes_with_config. apply list_eq. intros j.
  change (map normalizeAdvancedCustomRoute) with (fmap (M := list) normalizeAdvancedCustomRoute).
  rewrite list_lookup_fmap. destruct (decide (i = j)) as [<-|Hne].
  - rewrite list_lookup_alter, decide_True, list_lookup_insert, decide_True, Hi; [done| |done].
    split; [done|by eapply lookup_lt_Some].
  - rewrite list_lookup_alter_ne, list_lookup_insert_ne by done. destruct (routes d !! j) as [x|] eqn:E; [|done].
    cbn [fmap option_fmap option_map]. f_equal. pose proof (routes_fixed d) as H. rewrite Forall_forall in H. apply H.
    by apply list_elem_of_lookup_2 in E.
Qed.
Lemma shown_path_set r : fixed r -> route_path r <> [] -> shown_path r = default [] (incoming_path r).
Proof. intros _ H. unfold shown_path, str_or. unfold route_path in H. by destruct (default [] (incoming_path r)). Qed.

Lemma converter_keeps_path r c : fixed r -> route_path r <> [] -> c ∈ (converterOptions r).*1 ->
  let r' := normalizeAdvancedCustomRoute (setConverter c r r) in
  route_path r' = route_path r /\ route_models r' = route_models r /\ route_converter r' = c /\
  isAdvancedCustomConverter c = true /\ isConverterPathAllowed (route_path r) c = true /\
  validateRouteAuth (route_auth r') = None /\
  getAdvancedCustomRouteUpstreamPath r'
    ∈ [route_path r; openAIChatPath; openAIResponsesPath; claudeMessagesPath; geminiGenerateContentPath].
Proof.
  intros Hf Hp Hc r'. unfold converterOptions in Hc. apply offered_converter in Hc as [Hc Ha].
  rewrite shown_path_set in Ha by done. fold (route_path r) in Ha.
  pose proof (next_path_same (default [] (incoming_path r)) c Hc Ha) as Hn. fold (route_path r) in Hn.
  set (p := next_path (default [] (incoming_path r)) c) in *.
  assert (r' = normalizeAdvancedCustomRoute (set_conversion c p (getAdvancedCustomConverterDefaults c p).1
    (getAdvancedCustomConverterDefaults c p).2 r)) as Hr'.
  { subst r' p. unfold setConverter, next_path. by rewrite shown_path_set. }
  clearbody r'. subst r'. destruct (defaults_shape c p Hc) as [Hd2 Hd1]; [by rewrite Hn|].
  split_and!; try done.
  - unfold route_models. rewrite <-(Hf : normalizeAdvancedCustomRoute r = r) at 2. done.
  - unfold route_converter. cbn [converter normalizeAdvancedCustomRoute set_conversion default from_option id].
    destruct c; [done|]. done.
  - rewrite !elem_of_cons in Hd2. destruct Hd2 as [->|[->|[->|[]%elem_of_nil]]]; reflexivity.
  - unfold getAdvancedCustomRouteUpstreamPath. cbn [upstream_path normalizeAdvancedCustomRoute set_conversion default from_option id].
    unfold getAdvancedCustomRouteUpstreamPath. cbn [upstream_path set_conversion default from_option id].
    rewrite trim_idemp. rewrite Hn in Hd1. rewrite !elem_of_cons in Hd1.
    destruct Hd1 as [->|[->|[->|[->|[->|[]%elem_of_nil]]]]]; [|vm_compute; set_solver..].
    unfold route_path. rewrite trim_idemp. left.
Qed.

(** Choosing a converter from the list of a route gives an acceptable
    route: it stays on its path with its models, the converter fits the path,
    the authentication filled in is accepted, and so is the upstream path
    filled in whenever the path of the route is an absolute one. *)
Theorem converter_choice_acceptable new_URL d i r c :
  routes d !! i = Some r -> route_path r <> [] -> c ∈ (converterOptions r).*1 ->
  exists r', routes (change_route i (SetConverter c) d) = <[i := r']> (routes d) /\
    route_path r' = route_path r /\ route_models r' = route_models r /\ route_converter r' = c /\
    isAdvancedCustomConverter c = true /\ isConverterPathAllowed (route_path r') c = true /\
    validateRouteAuth (route_auth r') = None /\
    (starts_with "/" (route_path r) = true -> starts_with "//" (route_path r) = false ->
     isFullHttpURLOrAbsolutePath new_URL (getAdvancedCustomRouteUpstreamPath r') = true).
Proof.
  intros Hi Hp Hc. assert (fixed r) as Hf.
  { pose proof (routes_fixed d) as H. rewrite Forall_forall in H. apply H. by apply list_elem_of_lookup_2 in Hi. }
  destruct (converter_keeps_path r c Hf Hp Hc) as (H1 & H2 & H3 & H4 & H5 & H6 & H7).
  exists (normalizeAdvancedCustomRoute (setConverter c r r)). rewrite H1. split_and!; try done.
  - unfold change_route. rewrite Hi. cbn [patch_of]. by apply update_routes_at.
  - intros Hs Hd. rewrite !elem_of_cons in H7.
    destruct H7 as [->|[->|[->|[->|[->|[]%elem_of_nil]]]]]; [|reflexivity..].
    unfold isFullHttpURLOrAbsolutePath. by rewrite Hs, Hd.
Qed.
Lemma converter_choice_acceptable_witness :
  exists r', routes (change_route 0 (SetConverter conv_chat_claude) opened) = <[0 := r']> (routes opened) /\
    route_path r' = "/v1/chat/completions" /\ route_converter r' = conv_chat_claude.
Proof.
  destruct (converter_choice_acceptable no_URL opened 0 (normalizeAdvancedCustomRoute createAdvancedCustomRoute) conv_chat_claude)
    as (r' & H1 & H2 & _ & H3 & _).
  - reflexivity.
  - discriminate.
  - apply (bool_decide_unpack _). vm_compute. exact I.
  - exists r'. exact (conj H1 (conj H2 H3)).
Defined.

(** * One route per path *)

Definition forwarding_paths (l : list AdvancedCustomRoute) : list jsstr :=
  List.filter (fun p => negb (isAdvancedCustomManagementPath p)) (map route_path l).
Lemma forwarding_paths_app l k : forwarding_paths (l ++ k) = forwarding_paths l ++ forwarding_paths k.
Proof. unfold forwarding_paths. by rewrite map_app, bfilter_app. Qed.
Lemma forwarding_paths_filter l :
  forwarding_paths l = map route_path (List.filter (fun r => negb (is_management r)) l).
Proof. exact (bfilter_map (fun p => negb (isAdvancedCustomManagementPath p)) route_path l). Qed.
Lemma normalize_path r : route_path (normalizeAdvancedCustomRoute r) = route_path r.
Proof. done. Qed.
Lemma forwarding_paths_normalize l : forwarding_paths (map normalizeAdvancedCustomRoute l) = forwarding_paths l.
Proof. unfold forwarding_paths. rewrite map_map. done. Qed.
Lemma used_paths d p : p ∈ usedIncomingPaths d <-> p ∈ forwarding_paths (routes d).
Proof.
  unfold usedIncomingPaths, routeGroups, buildRouteGroups, rows_by_path. rewrite accumulate_keys_elem.
  rewrite forwarding_paths_filter, <-(row_routes d), bfilter_map, map_map. done.
Qed.

(** Distinct paths, none empty. *)
Definition single (l : list jsstr) : Prop := NoDup l /\ [] ∉ l.
Lemma single_perm l k : l ≡ₚ k -> single k -> single l.
Proof. intros H [H1 H2]. split; by rewrite H. Qed.
Lemma single_sublist l k : l `sublist_of` k -> single k -> single l.
Proof.
  intros H [H1 H2]. split; [by eapply sublist_NoDup|]. intros Hn. by eapply H2, elem_of_sublist.
Qed.
Lemma forwarding_perm l k : l ≡ₚ k -> forwarding_paths l ≡ₚ forwarding_paths k.
Proof. intros H. apply bfilter_perm. by apply Permutation_map. Qed.
Lemma forwarding_sublist l k : l `sublist_of` k -> forwarding_paths l `sublist_of` forwarding_paths k.
Proof.
  intros H. unfold forwarding_paths. induction H as [|x l k _ IH|x l k _ IH]; cbn [map List.filter]; [constructor| |];
    destruct (negb _); [by constructor|done|by constructor|done].
Qed.
Lemma rearranged_paths l d : l ≡ₚ allRouteRows d ->
  forwarding_paths (routes (rearranged l d)) ≡ₚ forwarding_paths (routes d).
Proof.
  intros H. rewrite rearranged_routes by done. apply forwarding_perm. rewrite <-row_routes. by apply Permutation_map.
Qed.
Lemma same_paths l k : map route_path l = map route_path k -> forwarding_paths l = forwarding_paths k.
Proof. unfold forwarding_paths. by intros ->. Qed.

(** A patch of a row shown keeps the path, unless the path is missing. *)
Lemma patch_keeps_path input r p : fixed r -> route_path r <> [] ->
  (forall c, input = SetConverter c -> c ∈ (converterOptions r).*1) ->
  patch_of input r = Some p -> route_path (normalizeAdvancedCustomRoute (p r)) = route_path r.
Proof.
  intros Hf Hp Hc. destruct input; cbn [patch_of]; try (by intros [= <-]).
  - intros [= <-]. by apply converter_keeps_path; [| |apply Hc].
  - by intros (a & _ & ->)%fmap_Some.
Qed.
Lemma change_paths d i input : 
  (forall r, routes d !! i = Some r -> route_path r <> [] /\ forall c, input = SetConverter c -> c ∈ (converterOptions r).*1) ->
  map route_path (routes (change_route i input d)) = map route_path (routes d).
Proof.
  intros H. unfold change_route. destruct (routes d !! i) as [r|] eqn:Er; [|done].
  destruct (patch_of input r) as [p|] eqn:Ep; [|done]. destruct (H r eq_refl) as [Hp Hc].
  rewrite (update_routes_at d i r p Er). change (map route_path) with (fmap (M := list) route_path).
  rewrite list_fmap_insert, (patch_keeps_path input r p); [|by eapply (Forall_lookup_1 _ _ _ _ (routes_fixed d))|done..].
  apply list_insert_id. by rewrite list_lookup_fmap, Er.
Qed.

Lemma management_keeps d b input : forwarding_paths (routes (change_management b input d)) = forwarding_paths (routes d).
Proof.
  unfold change_management. destruct (management_change _ _ _) as [route|]; [|done].
  set (path := management_path b). assert (isAdvancedCustomManagementPath path = true) as Hm by (by destruct b).
  assert (forall r, route_path (management_route path r) = path) as Hpath by (intros r; by destruct b).
  unfold replaceAdvancedCustomManagementRoute. change (routes_of (config d)) with (routes d).
  rewrite routes_with_config, forwarding_paths_normalize.
  destruct route as [r|], (find_index (has_path path) (routes d)) as [i|] eqn:Ei; [| | |done].
  - apply find_index_some in Ei as (y & Hy & Hh & _). apply same_paths.
    change (map route_path) with (fmap (M := list) route_path). rewrite list_fmap_insert, Hpath.
    apply list_insert_id. rewrite list_lookup_fmap, Hy. cbn. f_equal.
    unfold has_path in Hh. apply bool_decide_eq_true in Hh. unfold route_path. destruct (incoming_path y); [|done].
    by injection Hh.
  - rewrite forwarding_paths_app. unfold forwarding_paths at 2. cbn [map List.filter]. rewrite Hpath, Hm. by rewrite app_nil_r.
  - apply find_index_split in Ei as (l1 & x & l2 & El & -> & Hx & _). rewrite El, delete_middle, !forwarding_paths_app.
    f_equal. unfold forwarding_paths. cbn [map List.filter].
    assert (route_path x = path) as ->; [|by rewrite Hm].
    unfold has_path in Hx. apply bool_decide_eq_true in Hx. unfold route_path. destruct (incoming_path x); [|done].
    by injection Hx.
Qed.

(** ** Templates *)

Definition template_routes (o : jsstr * (jsstr * AdvancedCustomConfig)) : list AdvancedCustomRoute :=
  map (set_models []) (default [] (advanced_routes o.2.2)).
Lemma template_in key o : template_of key = Some o -> o ∈ ADVANCED_CUSTOM_TEMPLATE_OPTIONS.
Proof.
  unfold template_of. destruct (List.find _ _) as [o'|] eqn:E.
  - intros [= <-]. apply find_some in E as [E _]. by apply list_elem_of_In.
  - intros [= <-]. left.
Qed.
Ltac each_template Ho :=
  unfold ADVANCED_CUSTOM_TEMPLATE_OPTIONS in Ho; rewrite !elem_of_cons, elem_of_nil in Ho;
  repeat (destruct Ho as [->|Ho]; [|]); [..|done].
Lemma template_forwarding o : o ∈ ADVANCED_CUSTOM_TEMPLATE_OPTIONS ->
  Forall (fun r => is_management r = false) (template_routes o).
Proof. intros Ho. each_template Ho; apply (bool_decide_unpack _); vm_compute; exact I. Qed.
Lemma template_single o : o ∈ ADVANCED_CUSTOM_TEMPLATE_OPTIONS -> single (map route_path (template_routes o)).
Proof. intros Ho. each_template Ho; split; apply (bool_decide_unpack _); vm_compute; exact I. Qed.
Lemma validate_valid new_URL rs : validate_routes new_URL 0 rs initial_state = None <-> valid new_URL rs.
Proof.
  pose proof (validate_routes_spec new_URL 0 [] rs initial_state (describes_initial new_URL) eq_refl) as H.
  destruct (validate_routes _ _ _ _) as [e|]; [|done]. split; [done|]. intros Hv.
  destruct H as (j & _ & Hj & _ & Hn). destruct Hn. rewrite <-(take_drop (S j) rs) in Hv. by eapply valid_prefix.
Qed.
Lemma template_valid new_URL o : o ∈ ADVANCED_CUSTOM_TEMPLATE_OPTIONS ->
  valid new_URL (map normalizeAdvancedCustomRoute (template_routes o)).
Proof. intros Ho. apply validate_valid. each_template Ho; vm_compute; reflexivity. Qed.

(** The routes after the template is applied. *)
Lemma template_routes_after d : exists o before after, o ∈ ADVANCED_CUSTOM_TEMPLATE_OPTIONS /\
  selectedTemplate d = Some o /\
  routes (applySelectedTemplate d) = before ++ map normalizeAdvancedCustomRoute (template_routes o) ++ after /\
  before ++ after = List.filter is_management (routes d).
Proof.
  destruct (selectedTemplate d) as [o|] eqn:E; [|by unfold selectedTemplate, template_of in E; destruct (List.find _ _)].
  pose proof (template_in _ _ E) as Ho.
  destruct (replace_forwarding_exact (normalizedConfig d) (template_routes o) (template_forwarding o Ho))
    as (before & after & Hr & Hba & _ & _).
  assert (routes_of (normalizedConfig d) = routes d) as Hrd.
  { unfold routes_of, normalizedConfig. by rewrite normalize_idempotent_config. }
  rewrite Hrd in Hba. exists o, before, after. split_and!; [done|done| |done].
  unfold applySelectedTemplate. rewrite E. fold (template_routes o).
  match goal with |- routes ?x = _ => change (routes x) with
    (routes_of (replaceAdvancedCustomForwardingRoutes (normalizedConfig d) (template_routes o))) end.
  destruct (replaceAdvancedCustomForwardingRoutes _ _) as [rs]. cbn [advanced_routes] in Hr. subst rs.
  change {| advanced_routes := Some (before ++ template_routes o ++ after) |} with (config_of (before ++ template_routes o ++ after)).
  rewrite routes_of_config, !map_app. pose proof (routes_fixed d) as Hf. rewrite Forall_forall in Hf.
  assert (forall r, r ∈ before ++ after -> normalizeAdvancedCustomRoute r = r) as Hfix.
  { intros r Hin. rewrite Hba in Hin. apply Hf. by apply elem_of_bfilter in Hin as [? _]. }
  rewrite (map_id_on normalizeAdvancedCustomRoute before), (map_id_on normalizeAdvancedCustomRoute after); [done| |];
    intros r Hr; apply Hfix, elem_of_app; auto.
Qed.

Lemma pairs_app {A} (R : A -> A -> Prop) l k :
  ForallOrdPairs R l -> ForallOrdPairs R k -> (forall x y, x ∈ l -> y ∈ k -> R x y) -> ForallOrdPairs R (l ++ k).
Proof.
  intros Hl Hk H. induction Hl as [|x l Hx Hl IH]; [done|]. cbn [app]. constructor.
  - apply Forall_app. split; [done|]. apply Forall_forall. intros y Hy. apply H; [left|done].
  - apply IH. intros z y Hz Hy. apply H; [by right|done].
Qed.
Lemma pairs_app_inv {A} (R : A -> A -> Prop) l k : ForallOrdPairs R (l ++ k) ->
  ForallOrdPairs R l /\ ForallOrdPairs R k /\ forall x y, x ∈ l -> y ∈ k -> R x y.
Proof.
  induction l as [|x l IH]; cbn [app]; intros H.
  - split_and!; [constructor|done|]. by intros x y ?%elem_of_nil.
  - inversion H as [|? ? Hx Hl]; subst. apply Forall_app in Hx as [Hx Hxk]. destruct (IH Hl) as (H1 & H2 & H3).
    split_and!; [by constructor|done|]. intros z y [->|Hz]%elem_of_cons Hy; [|by apply H3].
    rewrite Forall_forall in Hxk. by apply Hxk.
Qed.
Lemma valid_between new_URL before mid after : valid new_URL (before ++ after) -> valid new_URL mid ->
  Forall (fun r => is_management r = true) (before ++ after) -> Forall (fun r => is_management r = false) mid ->
  valid new_URL (before ++ mid ++ after).
Proof.
  intros [Hok Hp] [Mok Mp] Hm Mm. apply Forall_app in Hok as [? ?]. apply pairs_app_inv in Hp as (P1 & P2 & P3).
  rewrite !Forall_forall in Hm, Mm.
  assert (forall x y, x ∈ before ++ after -> y ∈ mid -> compatible x y /\ compatible y x) as Hd.
  { intros x y Hx Hy. apply Hm in Hx. apply Mm in Hy. unfold compatible, is_management in *.
    split; intros E; rewrite E in *; congruence. }
  split; [by rewrite !Forall_app|]. apply pairs_app; [done| |].
  - apply pairs_app; [done|done|]. intros x y Hx Hy. by apply (Hd y x (proj2 (elem_of_app _ _ _) (or_intror Hy))).
  - intros x y Hx [Hy|Hy]%elem_of_app; [|by apply P3].
    by apply (Hd x y (proj2 (elem_of_app _ _ _) (or_introl Hx))).
Qed.

(** Applying a template replaces the forwarding routes by those of the
    template and leaves the management routes as they are, in their order;
    when these are valid, so is the result, whatever the forwarding routes
    were. *)
Theorem template_applied new_URL d : exists o before after,
  o ∈ ADVANCED_CUSTOM_TEMPLATE_OPTIONS /\
  routes (applySelectedTemplate d) =
    before ++ map normalizeAdvancedCustomRoute (map (set_models []) (default [] (advanced_routes o.2.2))) ++ after /\
  before ++ after = List.filter is_management (routes d) /\
  (valid new_URL (List.filter is_management (routes d)) -> validationError new_URL (applySelectedTemplate d) = None).
Proof.
  destruct (template_routes_after d) as (o & before & after & Ho & _ & Hr & Hba). exists o, before, after.
  split_and!; [done|done|done|]. intros Hv. rewrite <-Hba in Hv.
  assert (valid new_URL (routes (applySelectedTemplate d))) as Hall.
  { rewrite Hr. apply valid_between; [done|by apply template_valid| |].
    - rewrite Hba. apply Forall_forall. by intros r [_ ?]%elem_of_bfilter.
    - pose proof (template_forwarding o Ho) as Hf. rewrite Forall_forall in Hf |- *.
      intros r (x & -> & Hx)%elem_of_map. exact (Hf x Hx). }
  unfold validationError, validateAdvancedCustomConfig.
  assert (routes_of (normalizedConfig (applySelectedTemplate d)) = routes (applySelectedTemplate d)) as ->.
  { unfold routes_of, normalizedConfig. by rewrite normalize_idempotent_config. }
  apply validate_valid in Hall. destruct (routes (applySelectedTemplate d)) eqn:E; [|done].
  exfalso. each_template Ho; destruct before; done.
Qed.
Lemma template_applied_witness :
  exists o before after, o ∈ ADVANCED_CUSTOM_TEMPLATE_OPTIONS /\
    routes (applySelectedTemplate opened) =
      before ++ map normalizeAdvancedCustomRoute (map (set_models []) (default [] (advanced_routes o.2.2))) ++ after /\
    before ++ after = List.filter is_management (routes opened) /\
    validationError no_URL (applySelectedTemplate opened) = None.
Proof.
  destruct (template_applied no_URL opened) as (o & b & a & H1 & H2 & H3 & H4). exists o, b, a.
  split; [exact H1|]. split; [exact H2|]. split; [exact H3|]. apply H4. vm_compute. split; constructor.
Defined.

(** ** The forms add no second route to a path *)

Record single_routes (d : dialog) : Prop := {
  s_paths : single (forwarding_paths (routes d));
  s_text : activeTab d = TabJson -> jsonText d = stringifyAdvancedCustomConfig (normalizedConfig d) }.
Lemma single_same d d' : routes d' = routes d -> (activeTab d' = TabJson -> activeTab d = TabJson /\ jsonText d' = jsonText d) ->
  single_routes d -> single_routes d'.
Proof.
  intros Hr Ht [H1 H2]. split; [by rewrite Hr|]. intros H. destruct (Ht H) as [Ht' ->].
  rewrite H2 by done. by rewrite !normalizedConfig_routes, Hr.
Qed.
Lemma single_forms d' : activeTab d' <> TabJson -> single (forwarding_paths (routes d')) -> single_routes d'.
Proof. intros Ht Hs. by split. Qed.
Lemma stringify_normalized c : stringifyAdvancedCustomConfig (normalizeAdvancedCustomConfig c) = stringifyAdvancedCustomConfig c.
Proof. unfold stringifyAdvancedCustomConfig. by rewrite normalize_idempotent_config. Qed.

Lemma option_paths : Forall (fun o : jsstr * jsstr => trim o.1 = o.1 /\ o.1 <> []) ADVANCED_CUSTOM_INCOMING_PATH_OPTIONS.
Proof. apply (bool_decide_unpack _). vm_compute. exact I. Qed.

Section Single.
Context (new_URL : jsstr -> option URL).

Lemma switch_single t d d' : switchTab new_URL (Some t) d = Some d' -> single_routes d -> single_routes d'.
Proof.
  intros H Hd. pose proof Hd as [Hs Ht]. unfold switchTab in H. case_bool_decide as Hj.
  - injection H as <-. case_bool_decide as Ht'; [|by apply single_forms].
    split; [exact Hs|]. intros _. cbn [jsonText with_tab with_json]. done.
  - unfold parseJsonEditorConfig in H. rewrite Ht, check_stringified in H by done.
    destruct (validateAdvancedCustomConfig _ _) as [e|]; cbn [fmap option_fmap option_map] in H; injection H as <-.
    + split; [exact Hs|]. intros _. cbn [jsonText with_json]. done.
    + unfold normalizedConfig. rewrite !normalize_idempotent_config. split.
      * match goal with |- single (forwarding_paths (routes ?x)) => change (routes x) with (routes_of (normalizedConfig d)) end.
        unfold routes_of, normalizedConfig. rewrite normalize_idempotent_config. exact Hs.
      * intros _. cbn [jsonText with_json with_tab with_new_keys with_keys with_config].
        unfold normalizedConfig. cbn [config with_json with_tab with_new_keys with_keys with_config].
        by rewrite normalize_idempotent_config.
Qed.
Lemma template_single_routes (d : dialog) : single_routes (applySelectedTemplate d).
Proof.
  destruct (template_routes_after d) as (o & before & after & Ho & Hso & Hr & Hba). split.
  - rewrite Hr, !forwarding_paths_app, forwarding_paths_normalize.
    assert (forall l, (forall r, r ∈ l -> r ∈ before ++ after) -> forwarding_paths l = []) as Hn.
    { intros l Hl. rewrite forwarding_paths_filter, bfilter_none; [done|]. intros r Hin. apply Hl in Hin.
      rewrite Hba in Hin. apply elem_of_bfilter in Hin as [_ Hin]. by rewrite Hin. }
    rewrite (Hn before), (Hn after) by set_solver. rewrite app_nil_r. cbn [app].
    rewrite forwarding_paths_filter, bfilter_id; [by apply template_single|]. intros r Hin.
    pose proof (template_forwarding o Ho) as Hf. rewrite Forall_forall in Hf. by rewrite Hf.
  - intros _. unfold applySelectedTemplate. rewrite Hso.
    cbn [jsonText with_template with_expanded with_json]. unfold normalizedConfig.
    cbn [config with_template with_expanded with_json with_new_keys with_keys with_config]. by rewrite stringify_normalized.
Qed.

Definition no_text_edit (e : event) : Prop := match e with EditJson _ => False | _ => True end.
Ltac unchanged d := apply (single_same d); [reflexivity|intros H; exact (conj H eq_refl)|assumption].
Lemma step_single d e d' out : step new_URL d e d' out -> no_text_edit e -> single_routes d -> single_routes d'.
Proof.
  intros Hs Hk Ha. pose proof Ha as [Hp Ht]. pose proof Hs as Hs'. inversion Hs' as [? ? ? Ho Hh]; subst.
  assert (forall (b : bool), bool_decide (activeTab d = TabForwarding) && b = true -> activeTab d <> TabJson /\ b = true) as Hform.
  { intros b [H%bool_decide_eq_true ?]%andb_true_iff. split; [congruence|done]. }
  destruct e; cbn [offered] in Ho; try (injection Hh as <- <-); try done.
  - apply fmap_Some in Hh as (d1 & Hd & [= -> ->]). by eapply switch_single.
  - apply Hform in Ho as [Hf Ho]. unfold addRoute. destruct (negb (truthy path) || _) eqn:Eu; [done|].
    apply orb_false_iff in Eu as [Et Eu]. apply single_forms; [done|].
    change (routes (append_route path d)) with (map normalizeAdvancedCustomRoute (routes d ++ [route_for path])).
    rewrite forwarding_paths_normalize, forwarding_paths_app. destruct Hp as [Hp1 Hp2].
    apply has_spec_false in Eu. rewrite used_paths in Eu.
    assert (trim path = path /\ path <> []) as [Htr Hne].
    { unfold offered_value in Ho. apply has_spec in Ho. apply list_elem_of_fmap in Ho as (o & -> & Ho).
      apply elem_of_bfilter in Ho as [Ho _]. pose proof option_paths as Hall. rewrite Forall_forall in Hall. by apply Hall. }
    unfold forwarding_paths at 2. cbn [map List.filter]. change (route_path (route_for path)) with (trim path). rewrite Htr.
    destruct (negb (isAdvancedCustomManagementPath path)).
    2:{ by rewrite (app_nil_r (forwarding_paths (routes d))). }
    split.
    + apply NoDup_app. split_and!; [done| |apply NoDup_singleton]. by intros x Hx ->%list_elem_of_singleton.
    + rewrite elem_of_app, list_elem_of_singleton. by intros [?|<-].
  - unfold selectTemplate. destruct (template_of key); [unchanged d|done].
  - destruct replace; injection Hh as <- <-; [apply template_single_routes|unchanged d].
  - destruct expanded; injection Hh as <- <-; unchanged d.
  - apply Hform in Ho as [Hf _]. destruct (fix_order_rows d) as (l & -> & Hl). apply single_forms; [done|].
    eapply single_perm; [by apply rearranged_paths, Hl|done].
  - apply Hform in Ho as [Hf Ho]. apply single_forms.
    { unfold change_route. destruct (routes d !! i); [|done]. by destruct (patch_of _ _). }
    rewrite (same_paths _ (routes d)); [done|]. apply change_paths. intros r Hr. rewrite Hr in Ho.
    destruct (group_position i d) as [[pos n]|] eqn:Eg; [|done]. split.
    + apply group_position_spec in Eg as (p & b & x & a & Hm & Eg & _ & _ & <- & Hx).
      destruct (row_of_group _ _ _ _ _ Eg) as [Rx _]. rewrite Rx in Hr. injection Hr as <-. intros He.
      destruct Hp as [_ Hp]. apply Hp. unfold forwarding_paths. apply elem_of_bfilter.
      split; [|done]. rewrite <-He. apply elem_of_map. exists (row_route x). split; [done|].
      by apply list_elem_of_lookup_2 in Rx.
    + intros c ->. unfold offered_value in Ho. by apply has_spec in Ho.
  - apply Hform in Ho as [Hf _]. destruct (move_step _ _ _ _ _ _ Hs) as (p & b & x & y & a & _ & l & -> & Hl & _).
    apply single_forms; [done|]. eapply single_perm; [by apply rearranged_paths|done].
  - apply Hform in Ho as [Hf _]. destruct (move_end_step _ _ _ _ _ Hs) as (p & b & x & a & _ & _ & l & -> & Hl & _).
    apply single_forms; [done|]. eapply single_perm; [by apply rearranged_paths|done].
  - apply Hform in Ho as [Hf _]. apply single_forms; [done|]. rewrite removeRoute_routes.
    eapply single_sublist; [apply forwarding_sublist, sublist_delete|done].
  - apply bool_decide_eq_true in Ho. apply single_forms; [|by rewrite management_keeps].
    unfold change_management. destruct (management_change _ _ _); cbn [activeTab with_config]; rewrite Ho; by destruct balance.
  - apply save_cases in Hh as (err & ->). unchanged d.
Qed.
End Single.

Lemma rows_of_single p l : NoDup (map row_path l) -> length (of_key row_path p l) <= 1.
Proof.
  induction l as [|x l IH]; cbn [map]; [intros _; simpl; lia|]. intros [Hx Hl]%NoDup_cons.
  destruct (decide (row_path x = p)) as [Hp|Hp]; [|rewrite rows_of_other by done; by apply IH].
  rewrite rows_of_same by done. cbn [length].
  destruct (of_key row_path p l) as [|y k] eqn:E; [done|]. exfalso. apply Hx, elem_of_map. exists y.
  assert (y ∈ of_key row_path p l) as Hy by (rewrite E; left). apply elem_of_rows_of in Hy as [Hy ->]. by rewrite Hp.
Qed.
Lemma shown_paths d : map row_path (routeRows d) = forwarding_paths (routes d).
Proof. by rewrite forwarding_paths_filter, <-(row_routes d), bfilter_map, map_map. Qed.
Lemma nothing_to_move new_URL d i down : NoDup (forwarding_paths (routes d)) -> offered new_URL d (MoveRoute i down) = false.
Proof.
  intros Hd. cbn [offered]. apply andb_false_iff. right.
  destruct (group_position i d) as [[pos n]|] eqn:Eg; [|done].
  apply group_position_spec in Eg as (p & b & x & a & Hm & Eg & Hb & Hn & _ & _).
  rewrite <-shown_paths in Hd. pose proof (rows_of_single p _ Hd) as Hl. rewrite forwarding_rows_of, Eg in Hl by done.
  rewrite length_app in Hl, Hn. cbn [length] in Hl, Hn. destruct down; apply Nat.ltb_ge; lia.
Qed.

(** The forms of the editor cannot split a path: starting from routes on
    distinct paths, whatever the user does outside the text tab keeps one
    route per path, so that the buttons that move a route are never enabled. *)
Theorem forms_cannot_split new_URL d0 d :
  NoDup (forwarding_paths (routes d0)) -> [] ∉ forwarding_paths (routes d0) -> activeTab d0 <> TabJson ->
  reached new_URL (fun e => match e with EditJson _ => False | _ => True end) d0 d ->
  NoDup (forwarding_paths (routes d)) /\ forall i down, offered new_URL d (MoveRoute i down) = false.
Proof.
  intros H1 H2 H3 Hr. assert (single_routes d) as [[Hs _] _].
  { induction Hr as [|d e d' out _ IH Hk Hs]; [by apply single_forms|]. by eapply step_single. }
  split; [done|]. intros i down. by apply nothing_to_move.
Qed.
Lemma forms_cannot_split_witness :
  NoDup (forwarding_paths (routes (addRoute (Some "/v1/messages") opened))) /\
  forall i down, offered no_URL (addRoute (Some "/v1/messages") opened) (MoveRoute i down) = false.
Proof.
  apply (forms_cannot_split no_URL opened).
  - apply (bool_decide_unpack _). vm_compute. exact I.
  - apply (bool_decide_unpack _). vm_compute. exact I.
  - discriminate.
  - apply (reached_step _ _ _ opened (AddRoute "/v1/messages") _ []); [apply reached_start|exact I|].
    apply step_handle; [vm_compute; reflexivity|reflexivity].
Defined.
End RouteReach.
