(* ===== verification/Playground.v ===== *)
(** The chat playground (src/web/src/features/playground): messages and their
    versions, think tags, streaming and finalisation, timing, the operations on
    a conversation, request payloads and the reading of stream events.

    Three things come from outside: the clock (Date.now(), the argument [now]),
    the identifiers of the nanoid package (the supply [ids], of which the
    operations take the next ones), and the translation function of i18next
    ([t]). *)
From S2P Require Import Prelude JsNumber Json.

Inductive MessageRole := role_user | role_assistant | role_system.
Inductive MessageStatus := LOADING | STREAMING | COMPLETE | ERROR.

Record MessageVersion := { version_id : jsstr; content : jsstr }.
Record Reasoning := {
  reasoning_content : jsstr; duration : jsnum; reasoning_startedAt : option jsnum;
  reasoning_completedAt : option jsnum; reasoning_durationMs : option jsnum }.
Record Message := {
  message_key : jsstr; from : MessageRole; versions : list MessageVersion;
  createdAt : option jsnum; startedAt : option jsnum; completedAt : option jsnum;
  durationMs : option jsnum; sources : option (list (jsstr * jsstr));
  reasoning : option Reasoning;
  isReasoningStreaming : option bool; isReasoningComplete : option bool;
  isContentComplete : option bool; status : option MessageStatus;
  errorCode : option jsstr }.

#[export] Instance MessageRole_dec : EqDecision MessageRole.
Proof. solve_decision. Defined.
#[export] Instance MessageStatus_dec : EqDecision MessageStatus.
Proof. solve_decision. Defined.

Module Playground.

(** ** Updates of single fields *)

Definition with_versions (v : list MessageVersion) (m : Message) : Message :=
  {| message_key := message_key m; from := from m; versions := v; createdAt := createdAt m;
     startedAt := startedAt m; completedAt := completedAt m; durationMs := durationMs m;
     sources := sources m; reasoning := reasoning m; isReasoningStreaming := isReasoningStreaming m;
     isReasoningComplete := isReasoningComplete m; isContentComplete := isContentComplete m;
     status := status m; errorCode := errorCode m |}.
Definition with_createdAt (c : option jsnum) (m : Message) : Message :=
  {| message_key := message_key m; from := from m; versions := versions m; createdAt := c;
     startedAt := startedAt m; completedAt := completedAt m; durationMs := durationMs m;
     sources := sources m; reasoning := reasoning m; isReasoningStreaming := isReasoningStreaming m;
     isReasoningComplete := isReasoningComplete m; isContentComplete := isContentComplete m;
     status := status m; errorCode := errorCode m |}.
Definition with_timing (s c d : option jsnum) (m : Message) : Message :=
  {| message_key := message_key m; from := from m; versions := versions m; createdAt := createdAt m;
     startedAt := s; completedAt := c; durationMs := d;
     sources := sources m; reasoning := reasoning m; isReasoningStreaming := isReasoningStreaming m;
     isReasoningComplete := isReasoningComplete m; isContentComplete := isContentComplete m;
     status := status m; errorCode := errorCode m |}.
Definition with_reasoning (r : option Reasoning) (m : Message) : Message :=
  {| message_key := message_key m; from := from m; versions := versions m; createdAt := createdAt m;
     startedAt := startedAt m; completedAt := completedAt m; durationMs := durationMs m;
     sources := sources m; reasoning := r; isReasoningStreaming := isReasoningStreaming m;
     isReasoningComplete := isReasoningComplete m; isContentComplete := isContentComplete m;
     status := status m; errorCode := errorCode m |}.
Definition with_streaming (b : bool) (m : Message) : Message :=
  {| message_key := message_key m; from := from m; versions := versions m; createdAt := createdAt m;
     startedAt := startedAt m; completedAt := completedAt m; durationMs := durationMs m;
     sources := sources m; reasoning := reasoning m; isReasoningStreaming := Some b;
     isReasoningComplete := isReasoningComplete m; isContentComplete := isContentComplete m;
     status := status m; errorCode := errorCode m |}.
Definition with_status (s : MessageStatus) (m : Message) : Message :=
  {| message_key := message_key m; from := from m; versions := versions m; createdAt := createdAt m;
     startedAt := startedAt m; completedAt := completedAt m; durationMs := durationMs m;
     sources := sources m; reasoning := reasoning m; isReasoningStreaming := isReasoningStreaming m;
     isReasoningComplete := isReasoningComplete m; isContentComplete := isContentComplete m;
     status := Some s; errorCode := errorCode m |}.
Definition with_errorCode (e : option jsstr) (m : Message) : Message :=
  {| message_key := message_key m; from := from m; versions := versions m; createdAt := createdAt m;
     startedAt := startedAt m; completedAt := completedAt m; durationMs := durationMs m;
     sources := sources m; reasoning := reasoning m; isReasoningStreaming := isReasoningStreaming m;
     isReasoningComplete := isReasoningComplete m; isContentComplete := isContentComplete m;
     status := status m; errorCode := e |}.

(** ** Messages (message-utils.ts) *)

Definition createMessageVersion (id c : jsstr) : MessageVersion := {| version_id := id; content := c |}.
Definition getCurrentVersion (m : Message) : MessageVersion :=
  match versions m with v :: _ => v | [] => {| version_id := "default"; content := [] |} end.
Definition getMessageContent (m : Message) : jsstr := content (getCurrentVersion m).
Definition hasMessageContent (m : Message) : bool := negb (str_eqb (trim (getMessageContent m)) []).
Definition updateCurrentVersionContent (m : Message) (c : jsstr) : Message :=
  with_versions [{| version_id := version_id (getCurrentVersion m); content := c |}] m.

(** The next two identifiers: the key of the message, then that of its version. *)
Definition createUserMessage (id1 id2 c : jsstr) (at_ : jsnum) : Message :=
  {| message_key := id1; from := role_user; versions := [createMessageVersion id2 c];
     createdAt := Some at_; startedAt := None; completedAt := None; durationMs := None;
     sources := None; reasoning := None; isReasoningStreaming := None; isReasoningComplete := None;
     isContentComplete := None; status := None; errorCode := None |}.
Definition createLoadingAssistantMessage (id1 id2 : jsstr) (at_ : jsnum) : Message :=
  {| message_key := id1; from := role_assistant; versions := [createMessageVersion id2 []];
     createdAt := Some at_; startedAt := Some at_; completedAt := None; durationMs := None;
     sources := None; reasoning := None; isReasoningStreaming := Some false;
     isReasoningComplete := Some false; isContentComplete := Some false;
     status := Some LOADING; errorCode := None |}.

Inductive ContentPart := TextPart (text : option jsstr) | ImagePart (url : jsstr).
Definition buildMessageContent (text : jsstr) (imageUrls : list jsstr) : jsstr + list ContentPart :=
  match List.filter (fun url => negb (str_eqb (trim url) [])) imageUrls with
  | [] => inl text
  | valid => inr (TextPart (Some text) :: map (fun url => ImagePart (trim url)) valid)
  end.
Definition getTextContent (c : jsstr + list ContentPart) : jsstr :=
  match c with
  | inl s => s
  | inr parts =>
      match List.find (fun p => match p with TextPart _ => true | _ => false end) parts with
      | Some (TextPart (Some s)) => s
      | _ => []
      end
  end.

Record ChatCompletionMessage := { api_role : MessageRole; api_content : jsstr }.
Definition formatMessageForAPI (m : Message) : ChatCompletionMessage :=
  {| api_role := from m; api_content := content (getCurrentVersion m) |}.
Definition isValidMessage (m : Message) : bool :=
  match versions m with
  | [] => false
  | _ => negb (bool_decide (from m = role_assistant) && negb (hasMessageContent m))
  end.

(** ** Think tags (message-reasoning-utils.ts) *)

Record ParsedThinkTags := { visibleContent : jsstr; think_reasoning : jsstr; hasUnclosedTag : bool }.
Definition open_tag : jsstr := "<think>".
Definition close_tag : jsstr := "</think>".

(** The loop on the text after currentPos: the visible parts, the reasoning
    parts and whether the last tag is open.  Every round passes a tag, so that
    the length of the text bounds their number. *)
Fixpoint think_loop (fuel : nat) (rest : jsstr) : list jsstr * list jsstr * bool :=
  match fuel with
  | O => ([], [], false)
  | S f =>
      match index_of open_tag rest with
      | None => (match rest with [] => [] | _ => [rest] end, [], false)
      | Some openPos =>
          let visible := match take openPos rest with [] => [] | v => [v] end in
          let after := drop (openPos + 7) rest in
          match index_of close_tag after with
          | None => (visible, [after], true)
          | Some closePos =>
              let '(vs, rs, u) := think_loop f (drop (closePos + 8) after) in
              (visible ++ vs, take closePos after :: rs, u)
          end
      end
  end.
Definition newlines : jsstr := [10; 10]%N.
Definition parseThinkTags (c : jsstr) : ParsedThinkTags :=
  if negb (includes open_tag c)
  then {| visibleContent := c; think_reasoning := []; hasUnclosedTag := false |}
  else let '(vs, rs, u) := think_loop (S (length c)) c in
       {| visibleContent := trim (join [] vs); think_reasoning := trim (join newlines rs);
          hasUnclosedTag := u |}.

(** ** Timing (message-timing-utils.ts) *)

Definition or_else {A} (a b : option A) : option A := match a with Some x => Some x | None => b end.

Definition completeAssistantTiming (m : Message) (completed : jsnum) : Message :=
  if negb (bool_decide (from m = role_assistant)) then m
  else
    let started := default completed (or_else (startedAt m) (createdAt m)) in
    with_timing (Some started) (Some completed)
      (Some (num_max (num 0) (num_sub completed started))) m.

Definition startReasoningTiming (m : Message) (started : jsnum) : Reasoning :=
  match reasoning m with
  | Some r => {| reasoning_content := reasoning_content r; duration := duration r;
                 reasoning_startedAt := Some (default started (reasoning_startedAt r));
                 reasoning_completedAt := reasoning_completedAt r;
                 reasoning_durationMs := reasoning_durationMs r |}
  | None => {| reasoning_content := []; duration := num 0; reasoning_startedAt := Some started;
               reasoning_completedAt := None; reasoning_durationMs := None |}
  end.
Definition with_content (r : Reasoning) (c : jsstr) : Reasoning :=
  {| reasoning_content := c; duration := duration r; reasoning_startedAt := reasoning_startedAt r;
     reasoning_completedAt := reasoning_completedAt r; reasoning_durationMs := reasoning_durationMs r |}.

Definition completeReasoningTiming (m : Message) (completed : jsnum) : Message :=
  match reasoning m with
  | None => m
  | Some r =>
      match reasoning_durationMs r with
      | Some _ => m
      | None =>
          let started := default completed (or_else (reasoning_startedAt r) (startedAt m)) in
          let ms := num_max (num 0) (num_sub completed started) in
          with_reasoning (Some {| reasoning_content := reasoning_content r;
            duration := num_ceil (num_div ms (num 1000)); reasoning_startedAt := Some started;
            reasoning_completedAt := Some completed; reasoning_durationMs := Some ms |}) m
      end
  end.

(** ** Streaming (message-streaming-utils.ts) *)

Definition processStreamingContent (m : Message) (chunk : option jsstr) (now : jsnum) : Message :=
  let current := content (getCurrentVersion m) in
  let full := match chunk with Some c => if truthy c then current ++ c else current | None => current end in
  match reasoning m, includes open_tag full with
  | None, false => with_streaming false (updateCurrentVersionContent m full)
  | _, _ =>
      let p := parseThinkTags full in
      let final := if truthy (think_reasoning p)
                   then Some (with_content (startReasoningTiming m now) (think_reasoning p))
                   else reasoning m in
      with_streaming (hasUnclosedTag p) (with_reasoning final (updateCurrentVersionContent m full))
  end.

Inductive StreamChunkType := reasoning_chunk | content_chunk.

Definition getAppendableChunk (current chunk : jsstr) : jsstr :=
  if negb (truthy current) || negb (starts_with current chunk) then chunk
  else drop (length current) chunk.

Definition applyStreamingChunk (m : Message) (type : StreamChunkType) (chunk : jsstr) (now : jsnum) : Message :=
  if bool_decide (status m = Some ERROR) then m
  else match type with
       | reasoning_chunk =>
           let r := startReasoningTiming m now in
           let appendable := getAppendableChunk (reasoning_content r) chunk in
           with_status STREAMING (with_streaming true
             (with_reasoning (Some (with_content r (reasoning_content r ++ appendable))) m))
       | content_chunk =>
           let appendable := getAppendableChunk (content (getCurrentVersion m)) chunk in
           let cm := processStreamingContent m (Some appendable) now in
           with_status STREAMING
             (if default false (isReasoningStreaming cm) then cm else completeReasoningTiming cm now)
       end.

Definition finalizeMessage (m : Message) (apiReasoningContent : option jsstr) (now : jsnum) : Message :=
  let current := content (getCurrentVersion m) in
  let parsed := if includes open_tag current then Some (parseThinkTags current) else None in
  let visible := match parsed with Some p => visibleContent p | None => current end in
  let finalReasoning :=
    str_or (default [] apiReasoningContent)
      (str_or (match reasoning m with Some r => reasoning_content r | None => [] end)
        (match parsed with Some p => think_reasoning p | None => [] end)) in
  let finalized :=
    with_streaming false
      (with_reasoning (if truthy finalReasoning
                       then Some (with_content (startReasoningTiming m now) finalReasoning) else None)
        (updateCurrentVersionContent m visible)) in
  completeReasoningTiming finalized now.

Definition completeAssistantMessage (m : Message) (now : jsnum) : Message :=
  completeAssistantTiming (with_status COMPLETE (finalizeMessage m None now)) now.

Definition isAssistantMessageFinal (m : Message) : bool :=
  bool_decide (status m = Some COMPLETE) || bool_decide (status m = Some ERROR).
Definition isAssistantMessagePending (m : Message) : bool :=
  bool_decide (status m = Some LOADING) || bool_decide (status m = Some STREAMING).
Definition isPendingAssistantMessage (m : Message) : bool :=
  bool_decide (from m = role_assistant) && isAssistantMessagePending m.

(** The message of a choice of a completed response: content and reasoning. *)
Record ChatCompletionChoice := { choice_content : option jsstr; choice_reasoning : option jsstr }.
Definition hasChatCompletionChoice (choices : list ChatCompletionChoice) : bool :=
  match choices with [] => false | _ => true end.
Definition applyChatCompletionChoice (m : Message) (c : ChatCompletionChoice) (now : jsnum) : Message :=
  completeAssistantTiming (with_status COMPLETE
    (finalizeMessage (updateCurrentVersionContent m (default [] (choice_content c)))
       (choice_reasoning c) now)) now.
Definition applyChatCompletionResponse (m : Message) (choices : list ChatCompletionChoice) (now : jsnum)
  : option Message :=
  match choices with c :: _ => Some (applyChatCompletionChoice m c now) | [] => None end.

Definition API_REQUEST_ERROR : jsstr := "Request error occurred".
Definition INTERRUPTED : jsstr := "Generation was interrupted".

(** The index of the last pending assistant message. *)
Fixpoint last_pending (ms : list Message) : option nat :=
  match ms with
  | [] => None
  | m :: rest => match last_pending rest with
                 | Some i => Some (S i)
                 | None => if isPendingAssistantMessage m then Some 0 else None
                 end
  end.
Definition sanitize (t : jsstr -> jsstr) (now : jsnum) (m : Message) : Message :=
  let finalized := finalizeMessage m None now in
  let hasReasoning := match reasoning finalized with
                      | Some r => truthy (trim (reasoning_content r))
                      | None => false
                      end in
  if hasMessageContent finalized || hasReasoning
  then completeAssistantTiming (with_streaming false (with_status COMPLETE finalized)) now
  else completeAssistantTiming (with_streaming false (with_status ERROR
         (updateCurrentVersionContent finalized (t API_REQUEST_ERROR ++ ": " ++ t INTERRUPTED)))) now.
Definition sanitizeMessagesOnLoad (t : jsstr -> jsstr) (now : jsnum) (ms : list Message) : list Message :=
  match last_pending ms with
  | None => ms
  | Some i => match ms !! i with
              | Some m => <[i := sanitize t now m]> ms
              | None => ms
              end
  end.

(** ** Updates of the last message (message-update-utils.ts) *)

Definition updateLastAssistantMessage (ms : list Message) (updater : Message -> Message) : list Message :=
  match last ms with
  | Some m => if bool_decide (from m = role_assistant)
              then <[length ms - 1 := updater m]> ms else ms
  | None => ms
  end.
Definition updateAssistantMessageWithError (ms : list Message) (errorMessage : jsstr)
    (code : option jsstr) (title : jsstr) (now : jsnum) : list Message :=
  updateLastAssistantMessage ms (fun m =>
    completeAssistantTiming
      (with_errorCode (match code with Some c => if truthy c then Some c else None | None => None end)
        (with_streaming false (with_status ERROR
          (updateCurrentVersionContent m (title ++ ": " ++ errorMessage))))) now).

(** ** Conversations (conversation-message-utils.ts) *)

Section Conversation.
Context (ids : nat -> jsstr).

(** [n]: how many identifiers have been taken already. *)
Definition appendUserMessagePair (n : nat) (ms : list Message) (c : jsstr) (now : jsnum) : list Message :=
  ms ++ [createUserMessage (ids n) (ids (n + 1)) c now;
         createLoadingAssistantMessage (ids (n + 2)) (ids (n + 3)) now].

Definition has_key (k : jsstr) (m : Message) : bool := str_eqb (message_key m) k.
Definition createRegeneratedMessages (n : nat) (ms : list Message) (k : jsstr) (now : jsnum)
  : option (list Message) :=
  match find_index (has_key k) ms with
  | None => None
  | Some i =>
      let loading := createLoadingAssistantMessage (ids n) (ids (n + 1)) now in
      match ms !! i with
      | Some m => if bool_decide (from m = role_user) then Some (take (i + 1) ms ++ [loading])
                  else Some (take i ms ++ [loading])
      | None => None
      end
  end.

Definition removeMessageByKey (ms : list Message) (k : jsstr) : list Message :=
  List.filter (fun m => negb (has_key k m)) ms.

(** From [beforeIndex - 1] down to 0. *)
Definition getPreviousUserMessage (ms : list Message) (beforeIndex : nat) : option Message :=
  List.find (fun m => bool_decide (from m = role_user)) (reverse (take beforeIndex ms)).

Definition edit_one (k c : jsstr) (shouldSubmit : bool) (now : jsnum) (m : Message) : Message :=
  if has_key k m
  then with_createdAt (if shouldSubmit then Some now else createdAt m) (updateCurrentVersionContent m c)
  else m.
Definition applyMessageEdit (n : nat) (ms : list Message) (k c : jsstr) (shouldSubmit : bool) (now : jsnum)
  : option (list Message * bool) :=
  match find_index (has_key k) ms with
  | None => None
  | Some i =>
      let updated := map (edit_one k c shouldSubmit now) ms in
      match updated !! i with
      | Some m =>
          if negb shouldSubmit || negb (bool_decide (from m = role_user)) then Some (updated, false)
          else Some (take (i + 1) updated ++ [createLoadingAssistantMessage (ids n) (ids (n + 1)) now], true)
      | None => None
      end
  end.

Definition getEditingMessageContent (ms : list Message) (editingKey : option jsstr) : jsstr :=
  match editingKey with
  | Some k => if truthy k
              then match List.find (has_key k) ms with Some m => getMessageContent m | None => [] end
              else []
  | None => []
  end.
Definition getChatMessageRenderState (ms : list Message) (m : Message) (index : nat) (editingKey : option jsstr)
  : bool * jsstr * bool :=
  (Nat.eqb (S index) (length ms) && bool_decide (from m = role_assistant),
   getMessageContent m, bool_decide (editingKey = Some (message_key m))).
End Conversation.

(** ** Display (message-content-utils.ts, -action-, -editor-, -error-, -layout-) *)

Definition shouldShowMessageLoader (m : Message) (isAssistant : bool) (versionContent : jsstr) : bool :=
  isAssistant && negb (default false (isReasoningStreaming m))
  && (bool_decide (status m = Some LOADING)
      || bool_decide (status m = Some STREAMING) && negb (truthy versionContent)).
Definition shouldShowMessageContent (m : Message) (versionContent : jsstr) : bool :=
  (bool_decide (from m = role_user) || negb (default false (isReasoningStreaming m)))
  && Nat.ltb 0 (length versionContent).
Definition getDisplayContent (m : Message) (versionContent : jsstr) : jsstr :=
  if negb (bool_decide (from m = role_assistant)) then versionContent
  else if negb (includes open_tag versionContent) then versionContent
  else visibleContent (parseThinkTags versionContent).
Record MessageContentState := {
  displayContent : jsstr; hasSources : bool; isAssistant_ : bool; showLoader : bool;
  showMessageContent : bool; state_sources : list (jsstr * jsstr); reasoningContent : option jsstr }.
Definition getMessageContentState (m : Message) (versionContent : jsstr) : MessageContentState :=
  let isAssistant := bool_decide (from m = role_assistant) in
  let srcs := default [] (sources m) in
  let rc := if isAssistant then reasoning_content <$> reasoning m else None in
  {| displayContent := getDisplayContent m versionContent;
     hasSources := match srcs with [] => false | _ => true end;
     isAssistant_ := isAssistant;
     showLoader := shouldShowMessageLoader m isAssistant versionContent;
     showMessageContent := shouldShowMessageContent m versionContent;
     state_sources := srcs;
     reasoningContent := match rc with Some c => if truthy c then Some c else None | None => None end |}.

Record MessageActionState := {
  action_content : jsstr; hasContent : bool; isAssistant : bool; isLoading : bool; isUser : bool }.
Definition getMessageActionState (m : Message) : MessageActionState :=
  {| action_content := getMessageContent m; hasContent := hasMessageContent m;
     isAssistant := bool_decide (from m = role_assistant);
     isLoading := bool_decide (status m = Some LOADING) || bool_decide (status m = Some STREAMING);
     isUser := bool_decide (from m = role_user) |}.

Record MessageEditorState := { canSave : bool; hasChanged : bool; showSaveAndSubmit : bool }.
Definition getMessageEditorState (m : Message) (editText originalText : jsstr) : MessageEditorState :=
  let changed := negb (str_eqb editText originalText) in
  {| canSave := Nat.ltb 0 (length (trim editText)) && changed; hasChanged := changed;
     showSaveAndSubmit := bool_decide (from m = role_user) |}.

Definition isAdminRole (role : option jsnum) : bool :=
  match role with Some r => num_leb (num 10) r | None => false end.
Definition isErrorMessage (m : Message) : bool := bool_decide (status m = Some ERROR).
Record MessageErrorState := { error_content : jsstr; modelPrice : bool; showSettingsLink : bool }.
Definition getMessageErrorState (m : Message) (isAdmin : bool) : option MessageErrorState :=
  if negb (isErrorMessage m) then None
  else
    let isModelPriceError := bool_decide (errorCode m = Some ("model_price_error" : jsstr)) in
    Some {| error_content := str_or (getMessageContent m) "An unknown error occurred";
            modelPrice := isModelPriceError; showSettingsLink := isModelPriceError && isAdmin |}.
(** [true] is the right-hand side. *)
Definition getMessageAlignment (m : Message) (leftMode : bool) : bool :=
  if leftMode then false else bool_decide (from m = role_user).

(** ** Requests (payload-builder.ts) *)

Record PlaygroundConfig := {
  cfg_model : jsstr; cfg_group : jsstr; cfg_temperature : jsnum; cfg_top_p : jsnum; cfg_max_tokens : jsnum;
  cfg_frequency_penalty : jsnum; cfg_presence_penalty : jsnum; cfg_seed : option jsnum; cfg_stream : bool }.
Record ParameterEnabled := {
  en_temperature : bool; en_top_p : bool; en_max_tokens : bool; en_frequency_penalty : bool;
  en_presence_penalty : bool; en_seed : bool }.
Record ChatCompletionRequest := {
  req_model : jsstr; req_group : jsstr; req_messages : list ChatCompletionMessage; req_stream : bool;
  req_temperature : option jsnum; req_top_p : option jsnum; req_max_tokens : option jsnum;
  req_frequency_penalty : option jsnum; req_presence_penalty : option jsnum; req_seed : option jsnum }.

Definition buildChatCompletionPayload (ms : list Message) (c : PlaygroundConfig) (e : ParameterEnabled)
  : ChatCompletionRequest :=
  {| req_model := cfg_model c; req_group := cfg_group c;
     req_messages := map formatMessageForAPI (List.filter isValidMessage ms);
     req_stream := cfg_stream c;
     req_temperature := if en_temperature e then Some (cfg_temperature c) else None;
     req_top_p := if en_top_p e then Some (cfg_top_p c) else None;
     req_max_tokens := if en_max_tokens e then Some (cfg_max_tokens c) else None;
     req_frequency_penalty := if en_frequency_penalty e then Some (cfg_frequency_penalty c) else None;
     req_presence_penalty := if en_presence_penalty e then Some (cfg_presence_penalty c) else None;
     req_seed := if en_seed e then cfg_seed c else None |}.

(** ** Stream events (stream-utils.ts) *)

(** Error code and message.  The fields of the payload are used as they are. *)
Definition truthy_value (v : option json) : option json := if json_truthy v then v else None.
Definition parseStreamErrorDetails (data : option jsstr) : option json * json :=
  let fallback := str_or (default [] data) API_REQUEST_ERROR in
  match data with
  | None => (None, JStr fallback)
  | Some d =>
      if negb (truthy d) then (None, JStr fallback)
      else match parse d with
           | None => (None, JStr fallback)
           | Some parsed =>
               if negb (json_truthy (prop "error" (Some parsed))) then (None, JStr fallback)
               else let e := prop "error" (Some parsed) in
                    (truthy_value (prop "code" e), default (JStr fallback) (truthy_value (prop "message" e)))
           end
  end.

(** [v?.[0]] *)
Definition first_of (v : option json) : option json :=
  match v with
  | Some (JArr (x :: _)) => Some x
  | Some (JObj o) => obj_get "0" o
  | Some (JStr (c :: _)) => Some (JStr [c])
  | _ => None
  end.
(** [None]: JSON.parse or the access to a property of null throws. *)
Definition parseStreamMessageUpdates (data : jsstr) : option (list (StreamChunkType * json)) :=
  match parse data with
  | None | Some JNull => None
  | Some chunk =>
      let choice := first_of (prop "choices" (Some chunk)) in
      let delta := prop "delta" choice in
      if negb (json_truthy delta) then Some []
      else Some (match truthy_value (prop "reasoning_content" delta) with
                 | Some r => [(reasoning_chunk, r)] | None => [] end
                 ++ match truthy_value (prop "content" delta) with
                    | Some c => [(content_chunk, c)] | None => [] end)
  end.
Definition isStreamDoneMessage (data : jsstr) : bool := str_eqb data "[DONE]".
Definition isStreamClosedReadyState (readyState : option jsnum) : bool :=
  match readyState with Some n => num_eqb n (num 2) | None => false end.
Definition getStreamReadyStateError (eventReadyState status : option jsnum) : option jsstr :=
  match eventReadyState, status with
  | Some n, Some s =>
      if num_leb (num 2) n && negb (num_eqb s (num 200))
      then Some ("HTTP " ++ num_to_string s ++ ": Connection closed") else None
  | _, _ => None
  end.

(** ** Input *)

Definition getSubmittableInputText (text : option jsstr) (disabled : bool) : option jsstr :=
  match text with
  | Some s => if disabled || negb (truthy (trim s)) then None else Some s
  | None => None
  end.
Definition getModelFallback (models : list jsstr) (currentModel : jsstr) : option jsstr :=
  match models with
  | [] => None
  | m :: _ => if has currentModel models then None else Some m
  end.
Definition shouldClearModelForGroup (models : list jsstr) (currentModel : jsstr) : bool :=
  if str_eqb currentModel [] then false else negb (has currentModel models).
Definition getGroupFallback (groups : list jsstr) (currentGroup : jsstr) : option jsstr :=
  match groups with
  | [] => None
  | g :: _ => if has currentGroup groups then None
              else Some (if has ("default" : jsstr) groups then "default" else g)
  end.

End Playground.

(** * Properties *)

Module Chat.
Import Playground.

(** ** Think tags *)

(** A tag whose first unit does not recur in it cannot start inside text that
    does not contain it and end in the tag that follows. *)
Definition bordered (p : jsstr) : Prop := match p with [] => False | h :: t => h ∉ t end.
Lemma open_bordered : bordered open_tag.
Proof. apply (proj1 (bool_decide_eq_true (_ ∉ _))). by vm_compute. Qed.
Lemma close_bordered : bordered close_tag.
Proof. apply (proj1 (bool_decide_eq_true (_ ∉ _))). by vm_compute. Qed.

Lemma tag_not_inside p a r : bordered p -> a <> [] -> includes p a = false -> starts_with p (a ++ p ++ r) = false.
Proof.
  destruct p as [|h t]; [done|]. intros Hb Ha Hi. apply not_true_iff_false. intros (y & E)%starts_with_spec.
  apply includes_false in Hi. apply app_eq_inv in E as [(k & -> & _)|(k & Ek & E)]; [apply Hi; by exists [], k|].
  destruct k as [|x k]; [apply Hi; exists [], []; by rewrite Ek, !app_nil_r|].
  destruct a as [|c a]; [done|]. simplify_eq/=. apply Hb. rewrite elem_of_app. right. by left.
Qed.
Lemma index_of_tag p v r : bordered p -> includes p v = false -> index_of p (v ++ p ++ r) = Some (length v).
Proof.
  intros Hb. induction v as [|c v IH]; intros Hi.
  - simpl app. destruct p as [|h t]; [done|]. cbn [app index_of].
    change (h :: t ++ r) with ((h :: t) ++ r). by rewrite starts_with_app.
  - pose proof (tag_not_inside p (c :: v) r Hb ltac:(done) Hi) as Hs. cbn [app] in *. cbn [index_of].
    rewrite Hs, IH; [done|]. apply includes_false. intros (a & b & ->). apply includes_false in Hi.
    apply Hi. by exists (c :: a), b.
Qed.
Lemma index_of_absent p s : includes p s = false -> index_of p s = None.
Proof. unfold includes. by destruct (index_of p s). Qed.

(** Text written as visible parts and thoughts: [v1<think>r1</think>v2...]. *)
Definition tagged (segs : list (jsstr * jsstr)) (tail : jsstr) : jsstr :=
  fold_right (fun vr acc => vr.1 ++ open_tag ++ vr.2 ++ close_tag ++ acc) tail segs.
Definition segs_ok (segs : list (jsstr * jsstr)) : Prop :=
  Forall (fun vr => includes open_tag vr.1 = false /\ includes close_tag vr.2 = false) segs.
Definition one (v : jsstr) : list jsstr := match v with [] => [] | _ => [v] end.

Lemma drop_tag (v p r : jsstr) n : n = length v + length p -> drop n (v ++ p ++ r) = r.
Proof. intros ->. rewrite app_assoc, <-length_app. apply drop_app_length. Qed.

Lemma think_loop_segment fuel v r rest :
  includes open_tag v = false -> includes close_tag r = false ->
  think_loop (S fuel) (v ++ open_tag ++ r ++ close_tag ++ rest) =
  (let '(vs, rs, u) := think_loop fuel rest in (one v ++ vs, r :: rs, u)).
Proof.
  intros Hv Hr. cbn [think_loop]. rewrite index_of_tag by (done || apply open_bordered).
  rewrite take_app_length, (drop_tag v open_tag) by done.
  rewrite index_of_tag by (done || apply close_bordered).
  rewrite take_app_length, (drop_tag r close_tag) by done.
  destruct (think_loop fuel rest) as [[vs rs] u]. by destruct v.
Qed.
Lemma think_loop_tail fuel v : includes open_tag v = false -> think_loop (S fuel) v = (one v, [], false).
Proof. intros Hv. cbn [think_loop]. by rewrite index_of_absent. Qed.
Lemma think_loop_open fuel v r : includes open_tag v = false -> includes close_tag r = false ->
  think_loop (S fuel) (v ++ open_tag ++ r) = (one v, [r], true).
Proof.
  intros Hv Hr. cbn [think_loop]. rewrite index_of_tag by (done || apply open_bordered).
  rewrite take_app_length, (drop_tag v open_tag) by done. rewrite (index_of_absent _ _ Hr). by destruct v.
Qed.

Lemma think_loop_tagged fuel segs tail vs rs u :
  segs_ok segs -> think_loop fuel tail = (vs, rs, u) ->
  think_loop (length segs + fuel) (tagged segs tail)
  = (concat (map (fun vr => one vr.1) segs) ++ vs, map snd segs ++ rs, u).
Proof.
  intros Hs Ht. induction Hs as [|[v r] segs [Hv Hr] Hs IH]; [done|].
  cbn [tagged fold_right length Nat.add]. change (fold_right _ tail segs) with (tagged segs tail).
  cbn [fst snd] in *. rewrite think_loop_segment, IH by done. cbn [map concat fst snd].
  by rewrite <-!app_assoc.
Qed.

Lemma join_one (l : list jsstr) : join [] (concat (map one l)) = concat l.
Proof.
  induction l as [|v l IH]; [done|]. cbn [map concat]. destruct v as [|c v]; [exact IH|].
  cbn [one app]. destruct (concat (map one l)) as [|w k] eqn:E.
  - rewrite <-IH. simpl. by rewrite app_nil_r.
  - rewrite join_cons by done. rewrite IH. done.
Qed.

(** More fuel than the text is long changes nothing: the loop ends by itself. *)
Lemma index_of_bound p s i : index_of p s = Some i -> p <> [] -> i + length p <= length s.
Proof.
  intros (r & E & Hj)%index_of_some Hp. destruct (decide (i <= length s)) as [Hi|Hi].
  - rewrite E, !length_app, length_take. lia.
  - rewrite take_ge in E by lia. apply (f_equal length) in E. rewrite !length_app in E.
    destruct p; simpl in *; [done|lia].
Qed.
Lemma think_loop_fuel fuel s : length s < fuel -> think_loop fuel s = think_loop (S (length s)) s.
Proof.
  revert s. induction fuel as [fuel IH] using lt_wf_ind. intros s Hs. destruct fuel as [|f]; [lia|].
  cbn [think_loop]. destruct (index_of open_tag s) as [i|] eqn:E; [|done].
  destruct (index_of close_tag (drop (i + 7) s)) as [j|] eqn:E'; [|done].
  set (rest := drop (j + 8) (drop (i + 7) s)).
  assert (Hr : length rest < length s).
  { unfold rest. rewrite !length_drop. apply index_of_bound in E; [|done]. simpl in E. lia. }
  assert (E1 : think_loop f rest = think_loop (S (length rest)) rest) by (apply IH; lia).
  assert (E2 : think_loop (length s) rest = think_loop (S (length rest)) rest) by (apply IH; lia).
  by rewrite E1, E2.
Qed.

(** Thoughts and visible text are separated exactly: in a text made of
    visible parts and closed thoughts, the visible content is the visible
    parts put together and the reasoning is the thoughts in order, separated
    by a blank line, both trimmed; an unclosed last thought is reported. *)
Theorem think_tags_separated segs v r :
  segs <> [] -> segs_ok segs -> includes open_tag v = false -> includes close_tag r = false ->
  parseThinkTags (tagged segs v) =
    {| visibleContent := trim (concat (map fst segs) ++ v);
       think_reasoning := trim (join newlines (map snd segs)); hasUnclosedTag := false |} /\
  parseThinkTags (tagged segs (v ++ open_tag ++ r)) =
    {| visibleContent := trim (concat (map fst segs) ++ v);
       think_reasoning := trim (join newlines (map snd segs ++ [r])); hasUnclosedTag := true |}.
Proof.
  intros Hne Hs Hv Hr.
  assert (Hinc : forall tail, includes open_tag (tagged segs tail) = true).
  { intros tail. destruct segs as [|[v0 r0] segs]; [done|]. apply includes_spec.
    exists v0, (r0 ++ close_tag ++ tagged segs tail). done. }
  assert (Hlen : forall tail, length segs <= length (tagged segs tail)).
  { intros tail. clear. induction segs as [|[v0 r0] segs IH]; simpl; [lia|]. rewrite !length_app. simpl.
    rewrite !length_app. simpl. lia. }
  assert (Hall : forall tail vs rs u, (forall f, think_loop (S f) tail = (vs, rs, u)) ->
    think_loop (S (length (tagged segs tail))) (tagged segs tail)
    = (concat (map (fun vr => one vr.1) segs) ++ vs, map snd segs ++ rs, u)).
  { intros tail vs rs u Ht. specialize (Hlen tail).
    rewrite <-(think_loop_tagged _ segs tail vs rs u Hs (Ht (length (tagged segs tail) - length segs))).
    f_equal. lia. }
  assert (Hvis : join [] (concat (map (fun vr => one vr.1) segs) ++ one v) = concat (map fst segs) ++ v).
  { pose proof (join_one (map fst segs ++ [v])) as H. rewrite map_app, !concat_app, map_map in H. simpl in H.
    by rewrite !app_nil_r in H. }
  unfold parseThinkTags. rewrite !Hinc. cbn [negb]. split.
  - rewrite (Hall v (one v) [] false) by (intros; by apply think_loop_tail). by rewrite Hvis, app_nil_r.
  - rewrite (Hall _ (one v) [r] true) by (intros; by apply think_loop_open). by rewrite Hvis.
Qed.

Lemma think_tags_separated_witness :
  parseThinkTags "Hi <think>step one</think>there<think>step two</think>!" =
    {| visibleContent := "Hi there!"; think_reasoning := "step one" ++ newlines ++ "step two"; hasUnclosedTag := false |} /\
  parseThinkTags "Hi <think>step one</think>there<think>step two</think>!<think>mo" =
    {| visibleContent := "Hi there!"; think_reasoning := "step one" ++ newlines ++ "step two" ++ newlines ++ "mo";
       hasUnclosedTag := true |}.
Proof.
  apply (think_tags_separated [("Hi " : jsstr, "step one" : jsstr); ("there" : jsstr, "step two" : jsstr)] "!" "mo");
    [discriminate|repeat constructor|reflexivity|reflexivity].
Defined.

(** ** Streaming *)

Definition raw (m : Message) : jsstr := getMessageContent m.

Lemma raw_update m c : raw (updateCurrentVersionContent m c) = c.
Proof. done. Qed.
Lemma raw_process m c now : raw (processStreamingContent m (Some c) now) = raw m ++ c.
Proof.
  unfold processStreamingContent. unfold raw at 2, getMessageContent.
  destruct (truthy c) eqn:E; [|apply truthy_false in E; subst; rewrite app_nil_r];
    by repeat case_match.
Qed.
Lemma raw_completeReasoning m now : raw (completeReasoningTiming m now) = raw m.
Proof. unfold completeReasoningTiming. by repeat case_match. Qed.
Lemma raw_status s m : raw (with_status s m) = raw m.
Proof. done. Qed.
Lemma raw_chunk m c now : status m <> Some ERROR ->
  raw (applyStreamingChunk m content_chunk c now) = raw m ++ getAppendableChunk (raw m) c.
Proof.
  intros Hs. unfold applyStreamingChunk. rewrite bool_decide_false by done. rewrite raw_status.
  case_match; rewrite ?raw_completeReasoning; apply raw_process.
Qed.
Lemma status_chunk m t c now : status m <> Some ERROR ->
  status (applyStreamingChunk m t c now) = Some STREAMING.
Proof. intros Hs. unfold applyStreamingChunk. rewrite bool_decide_false by done. by destruct t. Qed.
Lemma appendable_spec a c : a ++ getAppendableChunk a c = if truthy a && starts_with a c then c else a ++ c.
Proof.
  unfold getAppendableChunk. destruct (truthy a) eqn:E; [|done]. cbn [negb orb andb].
  destruct (starts_with a c) eqn:Es; [|done]. apply starts_with_spec in Es as [r ->]. cbn [negb].
  by rewrite drop_app_length.
Qed.

(** The messages of a stream, applied one after the other. *)
Definition stream (m : Message) (chunks : list (jsstr * jsnum)) : Message :=
  fold_left (fun m c => applyStreamingChunk m content_chunk c.1 c.2) chunks m.
(** No piece begins with everything received before it. *)
Fixpoint incremental (acc : jsstr) (chunks : list (jsstr * jsnum)) : Prop :=
  match chunks with
  | [] => True
  | c :: rest => (acc = [] \/ starts_with acc c.1 = false) /\ incremental (acc ++ c.1) rest
  end.
(** Every piece repeats everything received before it. *)
Fixpoint cumulative (acc : jsstr) (chunks : list (jsstr * jsnum)) : Prop :=
  match chunks with
  | [] => True
  | c :: rest => starts_with acc c.1 = true /\ cumulative c.1 rest
  end.

Lemma last_default {A} (x : A) l d d' : List.last (x :: l) d = List.last (x :: l) d'.
Proof. revert x. induction l as [|y l IH]; intros x; [done|]. apply IH. Qed.

(** Streamed content is kept verbatim: pieces that are true increments are
    concatenated, and snapshots that repeat the text so far replace it by the
    last one, in both cases including the think tags. *)
Theorem stream_keeps_content m chunks :
  status m <> Some ERROR ->
  (incremental (raw m) chunks -> raw (stream m chunks) = raw m ++ concat (map fst chunks)) /\
  (cumulative (raw m) chunks -> raw (stream m chunks) = List.last (map fst chunks) (raw m)).
Proof.
  revert m. induction chunks as [|[c now] chunks IH]; intros m Hs; simpl; [by rewrite app_nil_r|].
  destruct (IH (applyStreamingChunk m content_chunk c now)) as [Hi Hc]; [by rewrite status_chunk|].
  rewrite raw_chunk, appendable_spec in Hi, Hc by done. split.
  - intros [[Hn|Hn] H].
    + rewrite Hn in *. cbn [truthy andb] in *. by rewrite Hi.
    + rewrite Hn, andb_false_r in *. by rewrite Hi, <-app_assoc.
  - intros [Hn H]. rewrite Hn, andb_true_r in *. destruct (truthy (raw m)) eqn:Et.
    + rewrite Hc by done. destruct (map fst chunks) eqn:El; [done|apply last_default].
    + apply truthy_false in Et. rewrite Et in *. simpl in Hc. rewrite Hc by done.
      destruct (map fst chunks) eqn:El; [done|apply last_default].
Qed.

(** A piece that happens to begin with everything received so far loses
    that beginning: the increment that repeats the whole text is dropped. *)
Theorem repeated_increment_dropped m c now :
  status m <> Some ERROR -> raw m <> [] ->
  raw (applyStreamingChunk m content_chunk (raw m ++ c) now) = raw m ++ c.
Proof.
  intros Hs Hn. rewrite raw_chunk, appendable_spec by done.
  by rewrite (proj2 (truthy_true _) Hn), starts_with_app.
Qed.

Definition demo_message : Message := createLoadingAssistantMessage "k" "v" (num 1000).
Lemma stream_keeps_content_witness :
  raw (stream demo_message [("a<think>" : jsstr, num 1001); ("b" : jsstr, num 1002)]) = "a<think>b".
Proof.
  apply (proj1 (stream_keeps_content demo_message [("a<think>" : jsstr, num 1001); ("b" : jsstr, num 1002)] ltac:(discriminate))).
  split; [left; reflexivity|split; [right; reflexivity|exact I]].
Defined.
Lemma repeated_increment_dropped_witness :
  raw (applyStreamingChunk (applyStreamingChunk demo_message content_chunk "ha" (num 1001)) content_chunk "ha" (num 1002)) = "ha".
Proof.
  apply (repeated_increment_dropped (applyStreamingChunk demo_message content_chunk "ha" (num 1001)) [] (num 1002));
    discriminate.
Defined.

(** ** Completion and recovery *)

Lemma completeAssistantTiming_fields m now :
  let m' := completeAssistantTiming m now in
  message_key m' = message_key m /\ from m' = from m /\ status m' = status m /\ versions m' = versions m /\
  reasoning m' = reasoning m /\ isReasoningStreaming m' = isReasoningStreaming m.
Proof. unfold completeAssistantTiming. by case_match. Qed.
Lemma completeReasoningTiming_fields m now :
  let m' := completeReasoningTiming m now in
  message_key m' = message_key m /\ from m' = from m /\ status m' = status m /\ versions m' = versions m /\
  isReasoningStreaming m' = isReasoningStreaming m /\
  (forall r, reasoning m' = Some r -> reasoning_durationMs r <> None).
Proof.
  unfold completeReasoningTiming. destruct (reasoning m) as [r|] eqn:E; [|rewrite E; naive_solver].
  destruct (reasoning_durationMs r) as [d|] eqn:Ed; simpl; split_and!; try done; naive_solver.
Qed.
Lemma finalizeMessage_fields m api now :
  let m' := finalizeMessage m api now in
  message_key m' = message_key m /\ from m' = from m /\ isReasoningStreaming m' = Some false /\
  (forall r, reasoning m' = Some r -> reasoning_durationMs r <> None).
Proof.
  unfold finalizeMessage. simpl. set (fin := with_streaming false _).
  destruct (completeReasoningTiming_fields fin now) as (-> & -> & _ & _ & -> & Hr). done.
Qed.

(** A completed reply is final: its status is complete, no thought is
    streaming any more, its thought (if any) has a recorded duration, and the
    recorded duration of the reply is not negative even if the clock went
    backwards. *)
Theorem completed_message_final m now :
  from m = role_assistant ->
  let m' := completeAssistantMessage m now in
  isAssistantMessageFinal m' = true /\ isPendingAssistantMessage m' = false /\
  message_key m' = message_key m /\ isReasoningStreaming m' = Some false /\
  (forall r, reasoning m' = Some r -> reasoning_durationMs r <> None) /\
  exists d, durationMs m' = Some d /\ num_ltb d (num 0) = false.
Proof.
  intros Ha. unfold completeAssistantMessage. simpl.
  destruct (finalizeMessage_fields m None now) as (Hk & Hf & Hs & Hr).
  set (fin := with_status COMPLETE (finalizeMessage m None now)).
  destruct (completeAssistantTiming_fields fin now) as (Ek & Ef & Es & _ & Er & Eis).
  assert (Hst : status (completeAssistantTiming fin now) = Some COMPLETE) by (rewrite Es; done).
  split_and!.
  - unfold isAssistantMessageFinal. by rewrite Hst.
  - unfold isPendingAssistantMessage, isAssistantMessagePending. rewrite Hst. apply andb_false_r.
  - rewrite Ek. done.
  - rewrite Eis. done.
  - rewrite Er. exact Hr.
  - unfold completeAssistantTiming. rewrite bool_decide_true by (simpl; congruence). simpl.
    eexists. split; [done|]. apply num_max_zero_nonneg.
Qed.

Definition pending_count (ms : list Message) : nat := length (List.filter isPendingAssistantMessage ms).

Lemma last_pending_some ms i : last_pending ms = Some i ->
  exists l1 m l2, ms = l1 ++ m :: l2 /\ i = length l1 /\ isPendingAssistantMessage m = true /\
    forall x, x ∈ l2 -> isPendingAssistantMessage x = false.
Proof.
  assert (Hn : forall l, last_pending l = None -> forall x, x ∈ l -> isPendingAssistantMessage x = false).
  { induction l as [|a l IHl]; simpl; [by intros _ x Hx%elem_of_nil|].
    destruct (last_pending l) eqn:El; [done|]. destruct (isPendingAssistantMessage a) eqn:Ea; [done|].
    intros _ x [->|Hx]%elem_of_cons; auto. }
  revert i. induction ms as [|m ms IH]; intros i; simpl; [done|].
  destruct (last_pending ms) as [j|] eqn:E.
  - intros [= <-]. destruct (IH j eq_refl) as (l1 & x & l2 & -> & -> & H). by exists (m :: l1), x, l2.
  - destruct (isPendingAssistantMessage m) eqn:Em; [|done]. intros [= <-]. exists [], m, ms.
    split_and!; [done..|by apply Hn].
Qed.
Lemma last_pending_none ms : last_pending ms = None -> pending_count ms = 0.
Proof.
  unfold pending_count. induction ms as [|m ms IH]; simpl; [done|]. destruct (last_pending ms); [done|].
  destruct (isPendingAssistantMessage m); [done|]. intros _. by apply IH.
Qed.

Lemma sanitize_final t now m :
  isPendingAssistantMessage m = true ->
  let m' := sanitize t now m in
  message_key m' = message_key m /\ from m' = from m /\ isAssistantMessageFinal m' = true /\
  isPendingAssistantMessage m' = false /\ isReasoningStreaming m' = Some false.
Proof.
  intros _. destruct (finalizeMessage_fields m None now) as (Hk & Hf & _ & _).
  unfold sanitize. simpl. set (fin := finalizeMessage m None now) in *.
  assert (Hgo : forall x s, message_key x = message_key m -> from x = from m -> status x = Some s ->
    (s = COMPLETE \/ s = ERROR) -> isReasoningStreaming x = Some false ->
    let m' := completeAssistantTiming x now in
    message_key m' = message_key m /\ from m' = from m /\ isAssistantMessageFinal m' = true /\
    isPendingAssistantMessage m' = false /\ isReasoningStreaming m' = Some false).
  { intros x s Hxk Hxf Hxs Hs Hxi. destruct (completeAssistantTiming_fields x now) as (Ek & Ef & Es & _ & _ & Ei).
    unfold isAssistantMessageFinal, isPendingAssistantMessage, isAssistantMessagePending. simpl.
    rewrite Ek, Ef, Es, Ei, Hxk, Hxf, Hxs, Hxi. destruct Hs as [-> | ->]; split_and!; try done; apply andb_false_r. }
  destruct (_ || _); [apply (Hgo _ COMPLETE)|apply (Hgo _ ERROR)]; try done; auto.
Qed.

Lemma sanitize_repairs_last_aux t now ms :
  sanitizeMessagesOnLoad t now ms = ms \/
  exists l1 m l2, ms = l1 ++ m :: l2 /\ sanitizeMessagesOnLoad t now ms = l1 ++ sanitize t now m :: l2 /\
    message_key (sanitize t now m) = message_key m.
Proof.
  unfold sanitizeMessagesOnLoad. destruct (last_pending ms) as [i|] eqn:E; [right|by left].
  apply last_pending_some in E as (l1 & m & l2 & -> & -> & Hm & Hl). rewrite list_lookup_middle by done.
  exists l1, m, l2. split_and!; [done| |by apply sanitize_final].
  rewrite <-(Nat.add_0_r (length l1)), insert_app_r. done.
Qed.

(** Loading a stored conversation repairs one interrupted reply: the last
    pending reply becomes final (complete if it has content or thoughts, an
    error otherwise), every other message and the order are untouched, so that
    of several interrupted replies all but the last stay pending. *)
Theorem sanitize_repairs_last t now ms :
  pending_count (sanitizeMessagesOnLoad t now ms) = pred (pending_count ms) /\
  match last_pending ms with
  | None => sanitizeMessagesOnLoad t now ms = ms
  | Some i => exists l1 m l2, ms = l1 ++ m :: l2 /\ isPendingAssistantMessage m = true /\
      sanitizeMessagesOnLoad t now ms = l1 ++ sanitize t now m :: l2 /\
      isAssistantMessageFinal (sanitize t now m) = true /\
      message_key (sanitize t now m) = message_key m
  end.
Proof.
  unfold sanitizeMessagesOnLoad. destruct (last_pending ms) as [i|] eqn:E.
  - apply last_pending_some in E as (l1 & m & l2 & -> & -> & Hm & Hl).
    rewrite list_lookup_middle by done.
    destruct (sanitize_final t now m Hm) as (Hk & _ & Hf & Hp & _).
    assert (Hi : <[length l1 := sanitize t now m]> (l1 ++ m :: l2) = l1 ++ sanitize t now m :: l2).
    { rewrite <-(Nat.add_0_r (length l1)), insert_app_r. done. }
    rewrite Hi. split.
    + unfold pending_count. rewrite !bfilter_app, !length_app. cbn [List.filter]. rewrite Hm, Hp. simpl. lia.
    + exists l1, m, l2. done.
  - by rewrite (last_pending_none ms E).
Qed.

(** ** Conversations *)

Lemma keyed_split ms k i : find_index (has_key k) ms = Some i ->
  exists l1 m l2, ms = l1 ++ m :: l2 /\ i = length l1 /\ message_key m = k /\ k ∉ map message_key l1.
Proof.
  intros H. destruct (find_index_some _ _ _ H) as (m & Hm & Hk & Hb).
  exists (take i ms), m, (drop (S i) ms). split_and!.
  - by rewrite take_drop_middle.
  - rewrite length_take. apply lookup_lt_Some in Hm. lia.
  - by apply str_eqb_true in Hk.
  - intros Hin. apply elem_of_map in Hin as (x & -> & Hx). apply list_elem_of_lookup in Hx as [j Hj].
    apply lookup_take_Some in Hj as [Hj Hlt]. specialize (Hb j x Hlt Hj). unfold has_key in Hb. by rewrite str_eqb_refl in Hb.
Qed.
Lemma keyed_none ms k : find_index (has_key k) ms = None -> k ∉ map message_key ms.
Proof.
  intros H Hin. apply elem_of_map in Hin as (x & -> & Hx). rewrite find_index_none in H.
  specialize (H x Hx). unfold has_key in H. by rewrite str_eqb_refl in H.
Qed.

Lemma regenerate_aux ids n ms k now :
  match createRegeneratedMessages ids n ms k now with
  | None => k ∉ map message_key ms
  | Some l => exists l1 m l2, ms = l1 ++ m :: l2 /\ message_key m = k /\ (k ∉ map message_key l1) /\
      l = (if bool_decide (from m = role_user) then l1 ++ [m] else l1)
          ++ [createLoadingAssistantMessage (ids n) (ids (n + 1)) now]
  end.
Proof.
  unfold createRegeneratedMessages. destruct (find_index (has_key k) ms) as [i|] eqn:E; [|by apply keyed_none].
  apply keyed_split in E as (l1 & m & l2 & -> & -> & Hk & Hn). rewrite list_lookup_middle by done.
  assert (Ht : take (length l1 + 1) (l1 ++ m :: l2) = l1 ++ [m]).
  { rewrite take_app_add. done. }
  rewrite Ht, take_app_length. 
  by destruct (bool_decide (from m = role_user)) eqn:Eb; exists l1, m, l2; rewrite Eb.
Qed.

(** Regenerating keeps the conversation up to the chosen message (a user
    message included, a reply excluded), drops everything after it and adds
    one loading reply; without such a message nothing happens. *)
Theorem regenerate_exact ids n ms k now :
  match createRegeneratedMessages ids n ms k now with
  | None => k ∉ map message_key ms
  | Some l => exists l1 m l2, ms = l1 ++ m :: l2 /\ message_key m = k /\ (k ∉ map message_key l1) /\
      l = (if bool_decide (from m = role_user) then l1 ++ [m] else l1)
          ++ [createLoadingAssistantMessage (ids n) (ids (n + 1)) now]
  end.
Proof. apply regenerate_aux. Qed.

Lemma edit_aux ids n ms k c submit now :
  NoDup (map message_key ms) ->
  match applyMessageEdit ids n ms k c submit now with
  | None => k ∉ map message_key ms
  | Some (l, send) => exists l1 m l2, ms = l1 ++ m :: l2 /\ message_key m = k /\
      let m' := edit_one k c submit now m in
      getMessageContent m' = c /\ message_key m' = k /\ from m' = from m /\
      send = submit && bool_decide (from m = role_user) /\
      l = l1 ++ m' :: (if send then [createLoadingAssistantMessage (ids n) (ids (n + 1)) now] else l2)
  end.
Proof.
  intros Hnd. unfold applyMessageEdit. destruct (find_index (has_key k) ms) as [i|] eqn:E; [|by apply keyed_none].
  apply keyed_split in E as (l1 & m & l2 & -> & -> & Hk & Hn).
  assert (Hsame : forall l, k ∉ map message_key l -> map (edit_one k c submit now) l = l).
  { intros l Hl. apply map_id_on. intros x Hx. unfold edit_one, has_key.
    destruct (str_eqb (message_key x) k) eqn:Ex; [|done]. apply str_eqb_true in Ex. exfalso. apply Hl.
    apply elem_of_map. eauto. }
  assert (Hl2 : k ∉ map message_key l2).
  { rewrite map_app in Hnd. apply NoDup_app in Hnd as (_ & _ & Hnd). simpl in Hnd. inversion Hnd; congruence. }
  rewrite map_app. cbn [map]. rewrite !Hsame by done.
  assert (He : edit_one k c submit now m =
    with_createdAt (if submit then Some now else createdAt m) (updateCurrentVersionContent m c)).
  { unfold edit_one, has_key. by rewrite Hk, str_eqb_refl. }
  assert (Hbd : bool_decide (from (edit_one k c submit now m) = role_user) = bool_decide (from m = role_user))
    by (by rewrite He).
  rewrite list_lookup_middle, Hbd by done. rewrite take_app_add. rewrite <-app_assoc. cbn [take app].
  destruct submit, (bool_decide (from m = role_user)) eqn:Eu; cbn [negb orb]; exists l1, m, l2;
    rewrite Eu; cbn [andb]; rewrite He; split_and!; done.
Qed.

(** Editing a message of a conversation with distinct keys changes that
    message only, and replaces its content; submitting an edited user message
    also drops what follows and adds one loading reply. *)
Theorem edit_exact ids n ms k c submit now :
  NoDup (map message_key ms) ->
  match applyMessageEdit ids n ms k c submit now with
  | None => k ∉ map message_key ms
  | Some (l, send) => exists l1 m l2, ms = l1 ++ m :: l2 /\ message_key m = k /\
      let m' := edit_one k c submit now m in
      getMessageContent m' = c /\ message_key m' = k /\ from m' = from m /\
      send = submit && bool_decide (from m = role_user) /\
      l = l1 ++ m' :: (if send then [createLoadingAssistantMessage (ids n) (ids (n + 1)) now] else l2)
  end.
Proof. apply edit_aux. Qed.

(** The operations on a conversation, with the number of identifiers taken. *)
Inductive conv_step (ids : nat -> jsstr) : nat * list Message -> nat * list Message -> Prop :=
| conv_append n ms c now : conv_step ids (n, ms) (n + 4, appendUserMessagePair ids n ms c now)
| conv_regenerate n ms k now l : createRegeneratedMessages ids n ms k now = Some l ->
    conv_step ids (n, ms) (n + 2, l)
| conv_remove n ms k : conv_step ids (n, ms) (n, removeMessageByKey ms k)
| conv_edit n ms k c submit now l send : applyMessageEdit ids n ms k c submit now = Some (l, send) ->
    conv_step ids (n, ms) (n + 2, l)
| conv_chunk n ms t c now :
    conv_step ids (n, ms) (n, updateLastAssistantMessage ms (fun m => applyStreamingChunk m t c now))
| conv_complete n ms now :
    conv_step ids (n, ms) (n, updateLastAssistantMessage ms (fun m => completeAssistantMessage m now))
| conv_error n ms e code title now :
    conv_step ids (n, ms) (n, updateAssistantMessageWithError ms e code title now)
| conv_sanitize n ms t now : conv_step ids (n, ms) (n, sanitizeMessagesOnLoad t now ms).

Definition keys_ok (ids : nat -> jsstr) (s : nat * list Message) : Prop :=
  NoDup (map message_key s.2) /\ forall k, k ∈ map message_key s.2 -> exists j, j < s.1 /\ k = ids j.

Lemma keys_ok_sub ids n n' ms l : keys_ok ids (n, ms) -> n <= n' ->
  sublist (map message_key l) (map message_key ms) -> keys_ok ids (n', l).
Proof.
  intros [Hn Hk] Hle Hs. split; simpl in *; [by eapply sublist_NoDup|].
  intros k Hin. destruct (Hk k) as (j & Hj & ->); [by eapply elem_of_sublist|]. exists j. split; [lia|done].
Qed.
Lemma keys_ok_fresh ids n ms l m : Inj (=) (=) ids -> keys_ok ids (n, ms) ->
  sublist (map message_key l) (map message_key ms) -> message_key m = ids n -> keys_ok ids (n + 2, l ++ [m]).
Proof.
  intros Hinj Hok Hs Hm. destruct (keys_ok_sub ids n n ms l Hok ltac:(lia) Hs) as [Hn Hk]. simpl in *.
  assert (Hnew : ids n ∉ map message_key l).
  { intros Hin. destruct (Hk _ Hin) as (j & Hj & E). apply Hinj in E. lia. }
  split; simpl; rewrite map_app; simpl.
  - apply NoDup_app. split_and!; [done| |apply NoDup_singleton].
    intros x Hx Hx'. apply list_elem_of_singleton in Hx'. by rewrite Hx', Hm in Hx.
  - intros k Hin. apply elem_of_app in Hin as [Hin|Hin].
    + destruct (Hk k Hin) as (j & Hj & ->). exists j. split; [lia|done].
    + apply list_elem_of_singleton in Hin as ->. exists n. split; [lia|done].
Qed.

Lemma update_last_keys ms f : (forall m, message_key (f m) = message_key m) ->
  map message_key (updateLastAssistantMessage ms f) = map message_key ms.
Proof.
  intros Hf. unfold updateLastAssistantMessage. destruct (last ms) as [m|] eqn:E; [|done].
  apply last_Some in E as [l ->]. case_bool_decide; [|done]. rewrite length_app. simpl.
  replace (length l + 1 - 1) with (length l + 0) by lia. rewrite insert_app_r. rewrite !map_app. simpl. by rewrite Hf.
Qed.
Lemma chunk_key m t c now : message_key (applyStreamingChunk m t c now) = message_key m.
Proof.
  unfold applyStreamingChunk. case_match; [done|]. destruct t; [done|]. simpl.
  case_match; [|destruct (completeReasoningTiming_fields (processStreamingContent m (Some (getAppendableChunk (content (getCurrentVersion m)) c)) now) now) as [-> _]];
    unfold processStreamingContent; by repeat case_match.
Qed.
Lemma complete_key m now : message_key (completeAssistantMessage m now) = message_key m.
Proof.
  unfold completeAssistantMessage.
  destruct (completeAssistantTiming_fields (with_status COMPLETE (finalizeMessage m None now)) now) as [-> _].
  apply finalizeMessage_fields.
Qed.
Lemma sanitize_keys t now ms : map message_key (sanitizeMessagesOnLoad t now ms) = map message_key ms.
Proof.
  destruct (sanitize_repairs_last_aux t now ms) as [->|(l1 & m & l2 & -> & -> & Hk)]; [done|].
  rewrite !map_app. simpl. by rewrite Hk.
Qed.
Lemma sublist_prefix {A} (l1 l2 : list A) : sublist l1 (l1 ++ l2).
Proof. by apply sublist_inserts_r. Qed.

Lemma conv_step_ok ids s s' : Inj (=) (=) ids -> keys_ok ids s -> conv_step ids s s' -> keys_ok ids s'.
Proof.
  intros Hinj Hok Hstep. destruct Hstep as [n ms c now|n ms k now l E|n ms k|n ms k c sub now l send E|n ms t c now|n ms now|n ms e code title now|n ms t now].
  - unfold appendUserMessagePair. change [?a; ?b] with ([a] ++ [b]). rewrite app_assoc.
    replace (n + 4) with ((n + 2) + 2) by lia.
    apply (keys_ok_fresh ids (n + 2) (ms ++ [createUserMessage (ids n) (ids (n + 1)) c now])); [done| |done|done].
    by apply (keys_ok_fresh ids n ms).
  - pose proof (regenerate_aux ids n ms k now) as H. rewrite E in H.
    destruct H as (l1 & m & l2 & -> & _ & _ & ->). eapply keys_ok_fresh; [done|done| |done].
    rewrite map_app. case_bool_decide; rewrite ?map_app; simpl; [|apply sublist_prefix].
    apply sublist_app; [done|]. constructor. apply sublist_nil_l.
  - apply (keys_ok_sub ids n n ms); [done|lia|]. unfold removeMessageByKey. clear.
    induction ms as [|m ms IH]; simpl; [constructor|]. case_match; simpl; by constructor.
  - destruct Hok as [Hnd Hk]. pose proof (edit_aux ids n ms k c sub now Hnd) as H. rewrite E in H.
    destruct H as (l1 & m & l2 & -> & Hm & Hc & Hk' & Hf & Hs & ->). destruct send.
    + rewrite (app_assoc l1 [_] [_] : l1 ++ edit_one k c sub now m :: [_] = _).
      eapply (keys_ok_fresh ids n (l1 ++ m :: l2)); [done|by split| |done].
      rewrite !map_app. apply sublist_app; [done|]. simpl. rewrite Hk', Hm. constructor. apply sublist_nil_l.
    + apply (keys_ok_sub ids n (n + 2) (l1 ++ m :: l2)); [by split|lia|]. rewrite !map_app. simpl. by rewrite Hk', Hm.
  - apply (keys_ok_sub ids n n ms); [done|lia|]. rewrite update_last_keys by (intros; apply chunk_key). done.
  - apply (keys_ok_sub ids n n ms); [done|lia|]. rewrite update_last_keys by (intros; apply complete_key). done.
  - apply (keys_ok_sub ids n n ms); [done|lia|]. unfold updateAssistantMessageWithError.
    rewrite update_last_keys; [done|]. intros m.
    destruct (completeAssistantTiming_fields (with_errorCode (match code with Some c => if truthy c then Some c else None | None => None end)
        (with_streaming false (with_status ERROR
          (updateCurrentVersionContent m (title ++ ": " ++ e))))) now) as [-> _]. done.
  - apply (keys_ok_sub ids n n ms); [done|lia|]. by rewrite sanitize_keys.
Qed.

Lemma conv_steps_ok ids s s' : Inj (=) (=) ids -> rtc (conv_step ids) s s' -> keys_ok ids s -> keys_ok ids s'.
Proof. intros Hinj. induction 1; eauto using conv_step_ok. Qed.

(** As long as nanoid does not repeat itself, every sequence of operations
    on an empty conversation keeps the keys of its messages distinct, which is
    what editing, removing and regenerating by key rely on. *)
Theorem conversation_keys_unique ids n ms :
  Inj (=) (=) ids -> rtc (conv_step ids) (0, []) (n, ms) -> NoDup (map message_key ms).
Proof.
  intros Hinj H. apply (conv_steps_ok ids _ _ Hinj) in H; [apply H|].
  split; simpl; [constructor|]. by intros k Hk%elem_of_nil.
Qed.

Definition demo_ids (n : nat) : jsstr := replicate n 97%N.
Lemma conversation_keys_unique_witness :
  rtc (conv_step demo_ids) (0, []) (4, appendUserMessagePair demo_ids 0 [] "hello" (num 5)) /\
  NoDup (map message_key (appendUserMessagePair demo_ids 0 [] "hello" (num 5))).
Proof.
  assert (H : rtc (conv_step demo_ids) (0, []) (4, appendUserMessagePair demo_ids 0 [] "hello" (num 5)))
    by (apply rtc_once; constructor).
  split; [exact H|]. apply (conversation_keys_unique demo_ids 4); [|exact H].
  intros i j E. apply (f_equal length) in E. unfold demo_ids in E. by rewrite !length_replicate in E.
Defined.

(** ** Requests *)

(** The request carries the contents in order, every message but blank
    replies; the temperature is sent exactly when it is switched on, the seed
    when it is also set. *)
Theorem payload_exact ms c e :
  let p := buildChatCompletionPayload ms c e in
  (forall x, x ∈ req_messages p <-> exists m, m ∈ ms /\ versions m <> [] /\
     (from m = role_assistant -> trim (getMessageContent m) <> []) /\
     x = {| api_role := from m; api_content := getMessageContent m |}) /\
  sublist (map api_content (req_messages p)) (map getMessageContent ms) /\
  (req_temperature p = Some (cfg_temperature c) <-> en_temperature e = true) /\
  (req_seed p <> None <-> en_seed e = true /\ cfg_seed c <> None).
Proof.
  simpl. split_and!.
  - intros x. rewrite elem_of_map. setoid_rewrite elem_of_bfilter. unfold isValidMessage, hasMessageContent.
    split; intros (m & H).
    + destruct H as (-> & Hm & Hv). exists m. destruct (versions m) as [|v vs] eqn:Ev; [done|].
      split_and!; [done|done| |unfold formatMessageForAPI, getMessageContent; done].
      intros Ha. rewrite bool_decide_true in Hv by done. apply negb_true_iff in Hv. simpl in Hv.
      apply negb_false_iff, negb_true_iff, str_eqb_false in Hv. done.
    + destruct H as (Hm & Hv & Ha & ->). exists m. split_and!; [done|done|]. destruct (versions m); [done|].
      case_bool_decide as Hr; [|done]. simpl. apply negb_true_iff, negb_false_iff, negb_true_iff, str_eqb_false. auto.
  - induction ms as [|m ms IH]; simpl; [constructor|]. case_match; simpl; by constructor.
  - destruct (en_temperature e); naive_solver.
  - destruct (en_seed e); naive_solver.
Qed.

(** A reply that is still streaming, and a user message without text, are
    sent to the model as well. *)
Theorem streaming_reply_is_sent m :
  versions m <> [] ->
  (from m = role_assistant /\ status m = Some STREAMING /\ trim (getMessageContent m) <> []) \/
  (from m = role_user /\ trim (getMessageContent m) = []) ->
  isValidMessage m = true.
Proof.
  intros Hv H. unfold isValidMessage, hasMessageContent. destruct (versions m); [done|].
  destruct H as [(_ & _ & Hc)|[-> _]]; [|done].
  destruct (str_eqb _ []) eqn:E; [apply str_eqb_true in E; done|]. by rewrite andb_false_r.
Qed.
Lemma streaming_reply_is_sent_witness :
  isValidMessage (applyStreamingChunk demo_message content_chunk "par" (num 1001)) = true.
Proof. apply streaming_reply_is_sent; [discriminate|left; repeat split; discriminate]. Defined.

(** ** Stream events *)

(** The event data of a delta. *)
Definition chunk_json (r c : jsstr) : json :=
  JObj [("choices" : jsstr, JArr [JObj [("delta" : jsstr,
    JObj [("reasoning_content" : jsstr, JStr r); ("content" : jsstr, JStr c)])]])].

(** Every delta the server serialises is read back as its updates: the
    reasoning first, then the content, each only when it is not empty. *)
Theorem stream_updates_read r c :
  parseStreamMessageUpdates (stringify (chunk_json r c)) =
  Some ((if truthy r then [(reasoning_chunk, JStr r)] else [])
        ++ (if truthy c then [(content_chunk, JStr c)] else [])).
Proof.
  unfold parseStreamMessageUpdates. rewrite parse_stringify.
  - unfold chunk_json. destruct r, c; reflexivity.
  - unfold chunk_json. repeat (apply storable_obj || apply storable_arr || apply storable_str || apply Forall_cons_2 || apply Forall_nil_2); reflexivity.
Qed.

Lemma completed_message_final_witness :
  let m' := completeAssistantMessage (stream demo_message [("<think>x" : jsstr, num 1001)]) (num 900) in
  isAssistantMessageFinal m' = true /\ isPendingAssistantMessage m' = false /\
  message_key m' = "k" /\ isReasoningStreaming m' = Some false /\
  (forall r, reasoning m' = Some r -> reasoning_durationMs r <> None) /\
  exists d, durationMs m' = Some d /\ num_ltb d (num 0) = false.
Proof. apply completed_message_final. reflexivity. Defined.
Lemma edit_exact_witness :
  exists l send, applyMessageEdit demo_ids 8 (appendUserMessagePair demo_ids 0 [] "hello" (num 5)) (demo_ids 0) "hi" true (num 9)
    = Some (l, send) /\
  exists l1 m l2, appendUserMessagePair demo_ids 0 [] "hello" (num 5) = l1 ++ m :: l2 /\ message_key m = demo_ids 0 /\
      let m' := edit_one (demo_ids 0) "hi" true (num 9) m in
      getMessageContent m' = "hi" /\ message_key m' = demo_ids 0 /\ from m' = from m /\
      send = true && bool_decide (from m = role_user) /\
      l = l1 ++ m' :: (if send then [createLoadingAssistantMessage (demo_ids 8) (demo_ids (8 + 1)) (num 9)] else l2).
Proof.
  eexists _, _. split; [reflexivity|].
  apply (edit_exact demo_ids 8 (appendUserMessagePair demo_ids 0 [] "hello" (num 5)) (demo_ids 0) "hi" true (num 9)).
  apply (proj1 (bool_decide_eq_true (NoDup _))). vm_compute. reflexivity.
Defined.

End Chat.
