(* ===== verification/StreamController.v ===== *)
(** The controller of streaming requests
    (createStreamRequestController in
    src/web/src/features/playground/hooks/use-stream-request.ts).

    The closure variables of the controller are the fields of [controller]; a
    request and the event source it opens are named by the generation the
    request was given.  One step is one turn of the event loop: a call of send,
    stop or dispose, the settling of the promise for the headers, or one event
    of a source.  Events of old sources may arrive at any time. *)
From S2P Require Import Prelude JsNumber Json Playground.
Import Playground.

Inductive callback :=
| onUpdate (type : StreamChunkType) (chunk : json)
| onComplete
| onError (message : json) (code : option json).

Record controller := {
  source : option nat;                 (* the active source *)
  generation : nat;
  awaiting : list nat;                 (* requests waiting for their headers *)
  opened : list nat;                   (* sources created so far *)
  closed : list nat;                   (* sources on which close() was called *)
  completed : list nat;                (* requests whose flag completed is set *)
  streaming : bool;                    (* the last argument of setStreaming *)
  calls : list (nat * callback) }.     (* callbacks made, in order *)

Module StreamController.

Definition initial : controller :=
  {| source := None; generation := 0; awaiting := []; opened := []; closed := []; completed := [];
     streaming := false; calls := [] |}.

Definition STREAM_START_ERROR : jsstr := "Error establishing connection".
Definition PARSE_ERROR : jsstr := "Error parsing response data".

(** [source?.close()] *)
Definition close_source (s : option nat) (l : list nat) : list nat :=
  match s with Some g => l ++ [g] | None => l end.

(** [send(payload, callbacks)] up to its await; the request is [generation + 1]. *)
Definition send (c : controller) : controller :=
  {| source := None; generation := S (generation c); awaiting := S (generation c) :: awaiting c;
     opened := opened c; closed := close_source (source c) (closed c); completed := completed c;
     streaming := false; calls := calls c |}.

(** [cancel(notify)]: stop is [cancel(true)], dispose is [cancel(false)]. *)
Definition cancel (notify : bool) (c : controller) : controller :=
  {| source := None; generation := S (generation c); awaiting := awaiting c; opened := opened c;
     closed := close_source (source c) (closed c); completed := completed c;
     streaming := if notify then false else streaming c; calls := calls c |}.

Definition call (g : nat) (cb : callback) (c : controller) : controller :=
  {| source := source c; generation := generation c; awaiting := awaiting c; opened := opened c;
     closed := closed c; completed := completed c; streaming := streaming c; calls := calls c ++ [(g, cb)] |}.
Definition complete_ (g : nat) (c : controller) : controller :=
  {| source := source c; generation := generation c; awaiting := awaiting c; opened := opened c;
     closed := closed c; completed := g :: completed c; streaming := streaming c; calls := calls c |}.

Definition closeActiveSource (g : nat) (c : controller) : controller :=
  {| source := if bool_decide (source c = Some g) then None else source c;
     generation := generation c; awaiting := awaiting c; opened := opened c; closed := closed c ++ [g];
     completed := completed c;
     streaming := if bool_decide (source c = Some g) then false else streaming c; calls := calls c |}.

(** [isCurrent() && !completed] of request [g]. *)
Definition live (g : nat) (c : controller) : bool :=
  Nat.eqb (generation c) g && bool_decide (source c = Some g) && negb (bool_decide (g ∈ completed c)).

Definition handleError (g : nat) (message : json) (code : option json) (c : controller) : controller :=
  if negb (live g c) then c
  else closeActiveSource g (call g (onError message code) (complete_ g c)).

(** The headers have arrived: the source is created and started; [started] is
    false when stream() throws. *)
Definition headers (g : nat) (started : bool) (c : controller) : controller :=
  let c := {| source := source c; generation := generation c;
              awaiting := List.filter (fun x => negb (Nat.eqb x g)) (awaiting c); opened := opened c;
              closed := closed c; completed := completed c; streaming := streaming c; calls := calls c |} in
  if negb (Nat.eqb (generation c) g) then c
  else
    let c := {| source := Some g; generation := generation c; awaiting := awaiting c;
                opened := g :: opened c; closed := closed c; completed := completed c;
                streaming := true; calls := calls c |} in
    if started then c else handleError g (JStr STREAM_START_ERROR) None c.

(** The headers could not be had; [message] is the message of the Error thrown,
    [None] when something else was thrown. *)
Definition headers_failed (g : nat) (message : option jsstr) (c : controller) : controller :=
  let c := {| source := source c; generation := generation c;
              awaiting := List.filter (fun x => negb (Nat.eqb x g)) (awaiting c); opened := opened c;
              closed := closed c; completed := completed c; streaming := streaming c; calls := calls c |} in
  if negb (Nat.eqb (generation c) g) then c
  else call g (onError (JStr (default STREAM_START_ERROR message)) None) c.

Definition updates (g : nat) (us : list (StreamChunkType * json)) (c : controller) : controller :=
  fold_left (fun c u => call g (onUpdate u.1 u.2) c) us c.

(** The listener of message events. *)
Definition on_message (g : nat) (data : option jsstr) (c : controller) : controller :=
  if negb (live g c) then c
  else
    let d := default [] data in
    if isStreamDoneMessage d then call g onComplete (closeActiveSource g (complete_ g c))
    else match parseStreamMessageUpdates d with
         | Some us => updates g us c
         | None => handleError g (JStr PARSE_ERROR) None c
         end.

(** The listener of error events; [readyState] is that of the source. *)
Definition on_error (g : nat) (readyState : option jsnum) (data : option jsstr) (c : controller) : controller :=
  if negb (live g c) then c
  else if isStreamClosedReadyState readyState then c
  else let '(code, message) := parseStreamErrorDetails data in handleError g message code c.

(** The listener of readystatechange events. *)
Definition on_readystate (g : nat) (eventReadyState status : option jsnum) (c : controller) : controller :=
  if negb (live g c) then c
  else match getStreamReadyStateError eventReadyState status with
       | Some m => handleError g (JStr m) None c
       | None => c
       end.

Inductive step : controller -> controller -> Prop :=
| step_send c : step c (send c)
| step_stop c : step c (cancel true c)
| step_dispose c : step c (cancel false c)
| step_headers c g started : g ∈ awaiting c -> step c (headers g started c)
| step_headers_failed c g m : g ∈ awaiting c -> step c (headers_failed g m c)
| step_message c g data : g ∈ opened c -> step c (on_message g data c)
| step_error c g rs data : g ∈ opened c -> step c (on_error g rs data c)
| step_readystate c g rs st : g ∈ opened c -> step c (on_readystate g rs st c).

Definition reachable (c : controller) : Prop := rtc step initial c.

(** * Invariant *)

Definition terminal (cb : callback) : bool := match cb with onUpdate _ _ => false | _ => true end.
(** The callbacks of request [g]. *)
Definition calls_of (g : nat) (c : controller) : list callback :=
  map snd (List.filter (fun x => Nat.eqb x.1 g) (calls c)).
Definition ended (g : nat) (c : controller) : Prop := exists cb, cb ∈ calls_of g c /\ terminal cb = true.
(** Updates, then at most one terminal callback. *)
Definition well_formed (l : list callback) : Prop :=
  exists us, Forall (fun cb => terminal cb = false) us /\
    (l = us \/ exists cb, terminal cb = true /\ l = us ++ [cb]).

Record inv (c : controller) : Prop := {
  i_awaiting : forall g, g ∈ awaiting c -> g <= generation c /\ calls_of g c = [] /\ (g ∉ opened c);
  i_awaiting_nodup : NoDup (awaiting c);
  i_opened : forall g, g ∈ opened c -> g <= generation c;
  i_source : forall g, source c = Some g -> g ∈ opened c /\ g = generation c /\ ~ ended g c;
  i_open : forall g, g ∈ opened c -> g ∈ closed c \/ source c = Some g;
  i_calls : forall g, calls_of g c <> [] -> g <= generation c;
  i_wf : forall g, well_formed (calls_of g c);
  i_completed : forall g, g ∈ completed c -> g ∈ opened c /\ source c <> Some g }.

(** ** Steps *)

Lemma calls_of_call g g' cb c :
  calls_of g (call g' cb c) = calls_of g c ++ (if Nat.eqb g' g then [cb] else []).
Proof.
  unfold calls_of. simpl. rewrite bfilter_app, map_app. simpl. by destruct (Nat.eqb g' g).
Qed.
Lemma live_true g c : live g c = true -> source c = Some g /\ generation c = g /\ g ∉ completed c.
Proof.
  unfold live. intros H. js_reflect. split_and!; [done| |done].
  match goal with H : Nat.eqb _ _ = true |- _ => by apply Nat.eqb_eq in H end.
Qed.

Lemma well_formed_snoc l cb : well_formed l -> (forall x, x ∈ l -> terminal x = false) -> well_formed (l ++ [cb]).
Proof.
  intros (us & Hus & [->|(cb' & Hc & ->)]) Hn.
  - destruct (terminal cb) eqn:E; [exists us; split; [done|right; by exists cb]|].
    exists (us ++ [cb]). split; [|by left]. apply Forall_app. split; [done|by constructor].
  - exfalso. assert (terminal cb' = false) by (apply Hn; rewrite elem_of_app; right; by left). congruence.
Qed.
Lemma not_ended_updates g c : ~ ended g c -> forall x, x ∈ calls_of g c -> terminal x = false.
Proof. intros H x Hx. destruct (terminal x) eqn:E; [|done]. exfalso. apply H. by exists x. Qed.

(** An update of the active request. *)
Lemma inv_update g t u c : inv c -> source c = Some g -> inv (call g (onUpdate t u) c).
Proof.
  intros Hi Hs. destruct (i_source _ Hi g Hs) as (Ho & Hg & He).
  assert (Hend : forall g', ended g' (call g (onUpdate t u) c) -> ended g' c).
  { intros g' (cb & Hcb & Ht). rewrite calls_of_call in Hcb. apply elem_of_app in Hcb as [Hcb|Hcb]; [by exists cb|].
    destruct (Nat.eqb g g'); [|by apply elem_of_nil in Hcb]. apply list_elem_of_singleton in Hcb as ->. done. }
  destruct Hi as [I1 I2 I3 I4 I5 I6 I7 I8]. split; simpl; try done.
  - intros g' Ha. destruct (I1 g' Ha) as (H1 & H2 & H3). split_and!; [done| |done].
    rewrite calls_of_call, H2. assert (g <> g') by congruence. by rewrite (proj2 (Nat.eqb_neq _ _)).
  - intros g' Hg'. destruct (I4 g' Hg') as (? & ? & ?). split_and!; [done..|]. intros Hx. by apply Hend in Hx.
  - intros g'. rewrite calls_of_call. destruct (Nat.eqb_spec g g') as [->|Hne]; [subst; lia|].
    rewrite app_nil_r. apply I6.
  - intros g'. rewrite calls_of_call. destruct (Nat.eqb_spec g g') as [->|Hne]; [|by rewrite app_nil_r].
    apply well_formed_snoc; [done|]. by apply not_ended_updates.
Qed.
Lemma inv_updates g us c : inv c -> source c = Some g -> inv (updates g us c).
Proof.
  unfold updates. revert c. induction us as [|u us IH]; intros c Hi Hs; simpl; [done|].
  apply IH; [by apply inv_update|done].
Qed.

(** The end of the active request. *)
Lemma inv_finish g cb c : inv c -> source c = Some g -> terminal cb = true ->
  inv (closeActiveSource g (call g cb (complete_ g c))).
Proof.
  intros Hi Hs Ht. destruct (i_source _ Hi g Hs) as (Ho & Hg & He).
  destruct Hi as [I1 I2 I3 I4 I5 I6 I7 I8].
  set (c' := closeActiveSource g (call g cb (complete_ g c))).
  assert (Hc : forall g', calls_of g' c' = calls_of g' c ++ (if Nat.eqb g g' then [cb] else []))
    by (intros g'; exact (calls_of_call g' g cb c)).
  assert (Hsrc : source c' = None) by (unfold c', closeActiveSource; simpl; by rewrite bool_decide_true).
  assert (Eq : generation c' = generation c /\ awaiting c' = awaiting c /\ opened c' = opened c /\
    closed c' = closed c ++ [g] /\ completed c' = g :: completed c) by done.
  destruct Eq as (Egen & Eaw & Eop & Ecl & Eco). clearbody c'.
  split; rewrite ?Egen, ?Eaw, ?Eop, ?Ecl, ?Eco, ?Hsrc; try done.
  - intros g' Ha. destruct (I1 g' Ha) as (H1 & H2 & H3). split_and!; [done| |done].
    rewrite Hc, H2. assert (g <> g') by congruence. by rewrite (proj2 (Nat.eqb_neq _ _)).
  - intros g' Hg'. left. rewrite elem_of_app. destruct (I5 g' Hg') as [?|E]; [by left|].
    right. assert (g' = g) as -> by congruence. by left.
  - intros g'. rewrite Hc. destruct (Nat.eqb_spec g g') as [->|Hne]; [subst; lia|]. rewrite app_nil_r. apply I6.
  - intros g'. rewrite Hc. destruct (Nat.eqb_spec g g') as [->|Hne]; [|by rewrite app_nil_r].
    apply well_formed_snoc; [done|]. by apply not_ended_updates.
  - intros g' [->|Hg']%elem_of_cons; [done|]. split; [by apply I8|done].
Qed.
Lemma inv_handleError g m code c : inv c -> inv (handleError g m code c).
Proof.
  intros Hi. unfold handleError. destruct (live g c) eqn:E; simpl; [|done].
  apply live_true in E as (Hs & _). by apply inv_finish.
Qed.

(** A new generation: nothing is active any more. *)
Lemma inv_bump c s : inv c -> inv
  {| source := None; generation := S (generation c); awaiting := awaiting c; opened := opened c;
     closed := close_source (source c) (closed c); completed := completed c; streaming := s; calls := calls c |}.
Proof.
  intros [I1 I2 I3 I4 I5 I6 I7 I8]. split; simpl; try done.
  - intros g Hg. destruct (I1 g Hg) as (? & ? & ?). split_and!; [lia|done|done].
  - intros g Hg. specialize (I3 g Hg). lia.
  - intros g Hg. left. destruct (I5 g Hg) as [?|E]; [|rewrite E; simpl; rewrite elem_of_app; right; by left].
    destruct (source c); simpl; [rewrite elem_of_app|]; auto.
  - intros g Hg. specialize (I6 g Hg). lia.
  - intros g Hg. split; [by apply I8|done].
Qed.
Lemma inv_await c : inv c -> source c = None -> generation c ∉ awaiting c -> generation c ∉ opened c ->
  calls_of (generation c) c = [] -> inv
  {| source := None; generation := generation c; awaiting := generation c :: awaiting c; opened := opened c;
     closed := closed c; completed := completed c; streaming := streaming c; calls := calls c |}.
Proof.
  intros [I1 I2 I3 I4 I5 I6 I7 I8] Hs Ha Ho Hc. split; simpl; try done.
  - intros g [->|Hg]%elem_of_cons; [|by apply I1]. split_and!; [lia|done|done].
  - by constructor.
  - intros g Hg. left. destruct (I5 g Hg); [done|congruence].
  - intros g Hg. split; [by apply I8|done].
Qed.
Lemma inv_send c : inv c -> inv (send c).
Proof.
  intros Hi. pose proof (inv_bump c false Hi) as Hb. apply inv_await in Hb; simpl in *; [exact Hb|done|..].
  - intros Hin. apply (i_awaiting _ Hi) in Hin as [? _]. lia.
  - intros Hin. apply (i_opened _ Hi) in Hin. lia.
  - destruct (calls_of (S (generation c)) c) eqn:E; [exact E|].
    exfalso. assert (H : S (generation c) <= generation c) by (apply (i_calls _ Hi); by rewrite E). lia.
Qed.

(** A request leaves the waiting list. *)
Definition unwait (g : nat) (c : controller) : controller :=
  {| source := source c; generation := generation c;
     awaiting := List.filter (fun x => negb (Nat.eqb x g)) (awaiting c); opened := opened c;
     closed := closed c; completed := completed c; streaming := streaming c; calls := calls c |}.
Lemma elem_unwait g g' c : g' ∈ awaiting (unwait g c) <-> g' ∈ awaiting c /\ g' <> g.
Proof. simpl. rewrite elem_of_bfilter, negb_true_iff, Nat.eqb_neq. done. Qed.
Lemma inv_unwait g c : inv c -> inv (unwait g c).
Proof.
  intros [I1 I2 I3 I4 I5 I6 I7 I8]. split; try done.
  - intros g' [H _]%elem_unwait. by apply I1.
  - simpl. clear -I2. induction I2 as [|x l Hx Hl IH]; simpl; [constructor|]. case_match; [|done].
    constructor; [|done]. intros Hin. by apply elem_of_bfilter in Hin as [? _].
Qed.
Lemma inv_headers_failed g m c : inv c -> g ∈ awaiting c -> inv (headers_failed g m c).
Proof.
  intros Hi Hg. unfold headers_failed. fold (unwait g c). destruct (i_awaiting _ Hi g Hg) as (Hle & Hc & Ho).
  pose proof (inv_unwait g c Hi) as Hu. destruct (Nat.eqb_spec (generation (unwait g c)) g) as [E|]; simpl; [|done].
  set (cb := onError _ _). simpl in E.
  assert (Hcalls : forall g', calls_of g' (call g cb (unwait g c)) = calls_of g' c ++ (if Nat.eqb g g' then [cb] else []))
    by (intros g'; exact (calls_of_call g' g cb (unwait g c))).
  assert (Hns : source c = None).
  { destruct (source c) as [s|] eqn:Es; [|done]. destruct (i_source _ Hi s Es) as (? & ? & _). congruence. }
  destruct Hu as [I1 I2 I3 I4 I5 I6 I7 I8]. split; try done.
  - intros g' [Hg' Hne]%elem_unwait. destruct (i_awaiting _ Hi g' Hg') as (? & H2 & ?). split_and!; [done| |done].
    rewrite Hcalls, H2. by rewrite (proj2 (Nat.eqb_neq _ _)) by done.
  - simpl. rewrite Hns. done.
  - intros g'. rewrite Hcalls. destruct (Nat.eqb_spec g g') as [->|]; [simpl; lia|]. rewrite app_nil_r. apply (i_calls _ Hi).
  - intros g'. rewrite Hcalls. destruct (Nat.eqb_spec g g') as [->|]; [|rewrite app_nil_r; apply (i_wf _ Hi)].
    rewrite Hc. exists []. split; [constructor|]. right. by exists cb.
Qed.
Lemma inv_headers g started c : inv c -> g ∈ awaiting c -> inv (headers g started c).
Proof.
  intros Hi Hg. unfold headers. fold (unwait g c). destruct (i_awaiting _ Hi g Hg) as (Hle & Hc & Ho).
  pose proof (inv_unwait g c Hi) as Hu. destruct (Nat.eqb_spec (generation (unwait g c)) g) as [E|]; simpl; [|done].
  set (c' := {| source := Some g; generation := _; awaiting := _; opened := _; closed := _; completed := _;
                streaming := _; calls := _ |}).
  assert (Hi' : inv c'); [|destruct started; [done|by apply inv_handleError]].
  assert (Hns : source c = None).
  { destruct (source c) as [s|] eqn:Es; [|done]. destruct (i_source _ Hi s Es) as (? & ? & _). simpl in E. congruence. }
  destruct Hu as [I1 I2 I3 I4 I5 I6 I7 I8]. split; try done.
  - intros g' Hg'. destruct (I1 g' Hg') as (? & ? & Ho'). apply elem_unwait in Hg' as [_ Hne].
    split_and!; [done|done|]. simpl. rewrite not_elem_of_cons. done.
  - intros g' [->|Hg']%elem_of_cons; [simpl in *; lia|by apply I3].
  - intros g' [= <-]. split_and!; [by left|done|]. intros (cb & Hcb & _).
    change (calls_of g c') with (calls_of g c) in Hcb. rewrite Hc in Hcb. by apply elem_of_nil in Hcb.
  - intros g' [->|Hg']%elem_of_cons; [by right|]. left. destruct (i_open _ Hi g' Hg'); [done|congruence].
  - intros g' Hg'. destruct (i_completed _ Hi g' Hg') as [Hop _]. split; [by right|]. intros [= <-]. done.
Qed.

Lemma step_inv c c' : inv c -> step c c' -> inv c'.
Proof.
  intros Hi Hs. destruct Hs as [c|c|c|c g st Hg|c g m Hg|c g data Hg|c g rs data Hg|c g rs st Hg].
  - by apply inv_send.
  - by apply inv_bump.
  - by apply inv_bump.
  - by apply inv_headers.
  - by apply inv_headers_failed.
  - unfold on_message. destruct (live g c) eqn:E; simpl; [|done]. apply live_true in E as (Hs & _).
    destruct (isStreamDoneMessage _); [by apply (inv_finish g onComplete)|].
    destruct (parseStreamMessageUpdates _); [by apply inv_updates|by apply inv_handleError].
  - unfold on_error. destruct (live g c) eqn:E; simpl; [|done]. case_match; [done|].
    destruct (parseStreamErrorDetails data) as [code m]. by apply inv_handleError.
  - unfold on_readystate. destruct (live g c) eqn:E; simpl; [|done].
    destruct (getStreamReadyStateError rs st); [by apply inv_handleError|done].
Qed.
Lemma inv_initial : inv initial.
Proof.
  split; simpl; try done; try (by intros g Hg%elem_of_nil); [constructor|].
  intros g. exists []. split; [constructor|by left].
Qed.
Lemma reachable_inv c : reachable c -> inv c.
Proof.
  unfold reachable. intros H. pose proof inv_initial as Hi. revert Hi.
  induction H; eauto using step_inv.
Qed.

(** ** Only the current request speaks *)

Definition extends (c c' : controller) : Prop :=
  exists l, calls c' = calls c ++ l /\ Forall (fun x => x.1 = generation c) l.
Lemma extends_refl c c' : calls c' = calls c -> extends c c'.
Proof. intros E. exists []. by rewrite app_nil_r. Qed.
Lemma extends_updates us c c0 :
  extends c0 c -> generation c = generation c0 -> extends c0 (updates (generation c0) us c).
Proof.
  unfold updates. revert c. induction us as [|u us IH]; intros c (l & E & Hl) Hg; simpl; [by exists l|].
  apply IH; [|done]. exists (l ++ [(generation c0, onUpdate u.1 u.2)]). simpl. rewrite E, <-app_assoc.
  split; [done|]. apply Forall_app. split; [done|by constructor].
Qed.
Lemma extends_handleError g m code c : extends c (handleError g m code c).
Proof.
  unfold handleError. destruct (live g c) eqn:E; simpl; [|by apply extends_refl].
  apply live_true in E as (_ & Hg & _). eexists. split; [done|]. by repeat constructor.
Qed.
Lemma handleError_generation g m code c : generation (handleError g m code c) = generation c.
Proof. unfold handleError. by case_match. Qed.
Lemma updates_generation g us c : generation (updates g us c) = generation c.
Proof. unfold updates. revert c. induction us as [|u us IH]; intros c; simpl; [done|]. by rewrite IH. Qed.
Lemma step_generation c c' : step c c' -> generation c <= generation c'.
Proof.
  intros Hs. destruct Hs as [c|c|c|c g st Hg|c g m Hg|c g data Hg|c g rs data Hg|c g rs st Hg]; simpl; try lia.
  - unfold headers. simpl. case_match; [done|]. destruct st; [done|]. by rewrite handleError_generation.
  - unfold headers_failed. simpl. by case_match.
  - unfold on_message. repeat case_match; rewrite ?updates_generation, ?handleError_generation; done.
  - unfold on_error. repeat case_match; rewrite ?handleError_generation; done.
  - unfold on_readystate. repeat case_match; rewrite ?handleError_generation; done.
Qed.
Lemma step_extends c c' : step c c' -> extends c c'.
Proof.
  intros Hs. destruct Hs as [c|c|c|c g st Hg|c g m Hg|c g data Hg|c g rs data Hg|c g rs st Hg];
    try (by apply extends_refl).
  - unfold headers. simpl. destruct (Nat.eqb_spec (generation c) g) as [<-|]; simpl; [|by apply extends_refl].
    destruct st; [by apply extends_refl|].
    match goal with |- extends _ (handleError ?g ?m ?code ?x) => exact (extends_handleError g m code x) end.
  - unfold headers_failed. simpl. destruct (Nat.eqb_spec (generation c) g) as [<-|]; simpl; [|by apply extends_refl].
    eexists. split; [done|]. constructor; [done|constructor].
  - unfold on_message. destruct (live g c) eqn:E; simpl; [|by apply extends_refl].
    apply live_true in E as (_ & <- & _).
    case_match; [eexists; split; [done|]; constructor; [done|constructor]|].
    destruct (parseStreamMessageUpdates _); [|apply extends_handleError].
    apply extends_updates; [by apply extends_refl|done].
  - unfold on_error. destruct (live g c) eqn:E; simpl; [|by apply extends_refl]. case_match; [by apply extends_refl|].
    destruct (parseStreamErrorDetails data) as [code m]. apply extends_handleError.
  - unfold on_readystate. destruct (live g c) eqn:E; simpl; [|by apply extends_refl].
    case_match; [apply extends_handleError|by apply extends_refl].
Qed.

(** * Claims *)

(** C30: every streaming request is answered cleanly, whatever events arrive and
    however sends, stops and old sources interleave: its callbacks are updates
    followed by at most one completion or error, and nothing after it. *)
Theorem callbacks_well_formed c g : reachable c -> well_formed (calls_of g c).
Proof. intros H%reachable_inv. apply H. Qed.

(** A request that has been superseded by a newer one, stopped or disposed
    never calls back again. *)
Theorem stale_request_silent c c' g :
  g < generation c -> rtc step c c' -> calls_of g c' = calls_of g c.
Proof.
  intros Hg H. induction H as [|c c1 c' Hs _ IH]; [done|].
  rewrite IH by (pose proof (step_generation _ _ Hs); lia).
  destruct (step_extends _ _ Hs) as (l & E & Hl). unfold calls_of. rewrite E, bfilter_app, map_app.
  rewrite (bfilter_none _ l); [by rewrite app_nil_r|]. intros x Hx. rewrite Forall_forall in Hl.
  rewrite (Hl x Hx). apply Nat.eqb_neq. lia.
Qed.

(** Connections do not leak: at any time at most one source that was opened
    has not been closed, the active one; and after stop or dispose none. *)
Theorem sources_closed c notify :
  reachable c ->
  (forall g, g ∈ opened c -> g ∈ closed c \/ source c = Some g) /\
  (forall g, g ∈ opened (cancel notify c) -> g ∈ closed (cancel notify c)).
Proof.
  intros H%reachable_inv. split; [apply H|]. intros g Hg. simpl in *.
  destruct (i_open _ H g Hg) as [?|E]; [|rewrite E; simpl; rewrite elem_of_app; right; by left].
  destruct (source c); simpl; [rewrite elem_of_app|]; auto.
Qed.

(** ** A run *)

Definition demo_data : jsstr := stringify (JObj [("choices" : jsstr,
  JArr [JObj [("delta" : jsstr, JObj [("content" : jsstr, JStr "hi")])]])]).
Definition demo : controller :=
  on_message 1 (Some ("[DONE]" : jsstr)) (on_message 1 (Some demo_data) (headers 1 true (send initial))).
Lemma demo_run_reachable : reachable demo.
Proof.
  apply (rtc_r _ (on_message 1 (Some demo_data) (headers 1 true (send initial)))); [|apply step_message; vm_compute; left].
  apply (rtc_r _ (headers 1 true (send initial))); [|apply step_message; vm_compute; left].
  apply (rtc_r _ (send initial)); [|apply step_headers; vm_compute; left].
  apply rtc_once, step_send.
Qed.
Lemma callbacks_well_formed_witness :
  calls_of 1 demo = [onUpdate content_chunk (JStr "hi"); onComplete] /\ well_formed (calls_of 1 demo).
Proof. split; [vm_compute; reflexivity|]. apply callbacks_well_formed. apply demo_run_reachable. Defined.
Lemma stale_request_silent_witness :
  calls_of 1 (on_message 1 (Some ("[DONE]" : jsstr)) (send (headers 1 true (send initial)))) = [].
Proof.
  apply (stale_request_silent (send (headers 1 true (send initial)))); [vm_compute; lia|].
  apply rtc_once, step_message. vm_compute. left.
Defined.
Lemma sources_closed_witness :
  (forall g, g ∈ opened demo -> g ∈ closed demo \/ source demo = Some g) /\
  (forall g, g ∈ opened (cancel true demo) -> g ∈ closed (cancel true demo)).
Proof. apply sources_closed. apply demo_run_reachable. Defined.

End StreamController.
