(* ===== verification/ChatHandler.v ===== *)
(** The chat of the playground: the hooks that drive a conversation
    (src/web/src/features/playground/hooks/use-chat-handler.ts,
    use-playground-conversation.ts, and updateMessages of
    use-playground-state.ts).

    A streamed reply arrives in pieces, which are buffered and written to the
    conversation every 50 ms.  The refs and states of the hooks are the fields
    of [chat].  Three things come from outside.

    React: an updater given to setMessages is put into a queue and run when the
    component renders ([Render]); React may run it at once when nothing is
    queued, and then keeps the result ([eager]).

    The transport that carries streaming requests: the class
    [StreamTransport] says what the hooks rely on; [ChatTransport] shows that
    the streaming controller provides it.

    The clock, the identifiers of nanoid and the translation function, as in
    [Playground].  Notifications (toasts) and the copy of the conversation in
    the local storage are left out. *)
From S2P Require Import Prelude JsNumber Json Playground.
Import Playground.

(** * The transport *)

(** The callbacks of a streaming request, with the types of the source. *)
Inductive event :=
| Update (type : StreamChunkType) (chunk : jsstr)
| Done
| Failed (message : jsstr) (code : option jsstr).
Definition ends_request (ev : event) : bool := match ev with Update _ _ => false | _ => true end.

(** Requests are numbered.  [delivers t cbs t']: an event of the outside world
    leads from [t] to [t'] and makes the callbacks [cbs] in this order. *)
Class StreamTransport (T : Type) := {
  idle_transport : T;
  transport_send : T -> T;
  transport_cancel : bool -> T -> T;
  next_request : T -> nat;
  current_request : T -> option nat;
  delivers : T -> list (nat * event) -> T -> Prop;
  transport_ok : T -> Prop;
  ok_idle : transport_ok idle_transport;
  ok_send t : transport_ok t -> transport_ok (transport_send t);
  ok_cancel b t : transport_ok t -> transport_ok (transport_cancel b t);
  ok_delivers t cbs t' : transport_ok t -> delivers t cbs t' -> transport_ok t';
  current_idle : current_request idle_transport = None;
  current_send t : transport_ok t -> current_request (transport_send t) = Some (next_request t);
  current_cancel b t : transport_ok t -> current_request (transport_cancel b t) = None;
  (** Only the current request speaks; it ends with its terminal callback, and
      in no other way. *)
  delivers_current t cbs t' : transport_ok t -> delivers t cbs t' ->
    Forall (fun c => current_request t = Some c.1) cbs;
  delivers_end t cbs t' : transport_ok t -> delivers t cbs t' ->
    (Forall (fun c => ends_request c.2 = false) cbs /\ current_request t' = current_request t) \/
    (exists us c, cbs = us ++ [c] /\ Forall (fun c => ends_request c.2 = false) us /\
       ends_request c.2 = true /\ current_request t' = None) }.

(** * State *)

Record PendingStreamChunks := { p_generation : nat; p_content : jsstr; p_reasoning : jsstr }.

(** The updaters handed to setMessages, by the code that makes them. *)
Inductive update :=
| Flush (g : nat) (reasoning content : jsstr)
| Complete (g : nat)
| Fail (g : nat) (displayError : jsstr) (code : option jsstr) (title : jsstr)
| Respond (g : nat) (choices : list ChatCompletionChoice)
| Stopped (g : nat)
| Replace (ms : list Message)
| Remove (k : jsstr).

Record chat (T : Type) := {
  messages : list Message;              (* as last rendered *)
  queue : list update;                  (* updaters that have not been run *)
  requestGeneration : nat;
  pendingStreamChunks : PendingStreamChunks;
  streamFlushTimer : option nat;        (* the generation its callback flushes *)
  isRequesting : bool;
  abortController : option nat;         (* the request that can be aborted *)
  aborted : list nat;
  inFlight : list nat;                  (* requests without streaming that wait *)
  transport : T;
  captured : gmap nat nat;              (* the generation each callback closes over *)
  requests : list (nat * ChatCompletionRequest);
  editingMessageKey : option jsstr }.
Arguments messages {T}. Arguments queue {T}. Arguments requestGeneration {T}.
Arguments pendingStreamChunks {T}. Arguments streamFlushTimer {T}. Arguments isRequesting {T}.
Arguments abortController {T}. Arguments aborted {T}. Arguments inFlight {T}.
Arguments transport {T}. Arguments captured {T}. Arguments requests {T}. Arguments editingMessageKey {T}.

(** What one turn of the event loop finds: the clock, whether React runs the
    first updater at once, and the settings the hooks were rendered with. *)
Record turn := { now : jsnum; eager : bool; config : PlaygroundConfig; enabled : ParameterEnabled }.

(** The declared shape of a request error. *)
Record RequestErrorLike := {
  re_message : option jsstr; re_data_message : option jsstr; re_code : option jsstr }.

Module ChatHandler.

Definition NETWORK_ERROR : jsstr := "Network connection failed or server not responding".
Definition PARSE_ERROR : jsstr := "Error parsing response data".
Definition STREAM_START_ERROR : jsstr := "Error establishing connection".
Definition CONNECTION_CLOSED : jsstr := "Connection closed".
Definition KNOWN_ERROR_MESSAGES : list jsstr :=
  [API_REQUEST_ERROR; NETWORK_ERROR; PARSE_ERROR; STREAM_START_ERROR; CONNECTION_CLOSED; INTERRUPTED].

Definition mergePendingStreamChunk (currentChunk nextChunk : jsstr) : jsstr :=
  if negb (truthy currentChunk) || negb (starts_with currentChunk nextChunk)
  then currentChunk ++ nextChunk else nextChunk.

(** [a || b] on optional strings. *)
Definition truthy_or (a : option jsstr) (b : jsstr) : jsstr :=
  match a with Some s => str_or s b | None => b end.
(** Error code and message. *)
Definition parseRequestErrorDetails (e : RequestErrorLike) : option jsstr * jsstr :=
  (match re_code e with Some c => if truthy c then Some c else None | None => None end,
   truthy_or (re_data_message e) (truthy_or (re_message e) API_REQUEST_ERROR)).

(** ** Running an updater *)

(** What the updaters do to the last reply. *)
Definition flush_message (reasoning content : jsstr) (now : jsnum) (m : Message) : Message :=
  let m := if truthy reasoning then applyStreamingChunk m reasoning_chunk reasoning now else m in
  if truthy content then applyStreamingChunk m content_chunk content now else m.
Definition complete_message (now : jsnum) (m : Message) : Message :=
  if isAssistantMessageFinal m then m else completeAssistantMessage m now.
Definition respond_message (choices : list ChatCompletionChoice) (now : jsnum) (m : Message) : Message :=
  default m (applyChatCompletionResponse m choices now).
Definition stop_message (now : jsnum) (m : Message) : Message :=
  if isAssistantMessagePending m then completeAssistantMessage m now else m.

(** [current] is [requestGenerationRef.current] when the updater runs. *)
Definition run_update (current : nat) (now : jsnum) (u : update) (prev : list Message) : list Message :=
  match u with
  | Flush g reasoning content =>
      if negb (Nat.eqb g current) then prev
      else updateLastAssistantMessage prev (flush_message reasoning content now)
  | Complete g =>
      if negb (Nat.eqb g current) then prev else updateLastAssistantMessage prev (complete_message now)
  | Fail g displayError code title =>
      if negb (Nat.eqb g current) then prev
      else updateAssistantMessageWithError prev displayError code title now
  | Respond g choices =>
      if negb (Nat.eqb g current) then prev else updateLastAssistantMessage prev (respond_message choices now)
  | Stopped g =>
      if negb (Nat.eqb g current) then prev else updateLastAssistantMessage prev (stop_message now)
  | Replace ms => ms
  | Remove k => removeMessageByKey prev k
  end.

Section Hooks.
Context {T : Type} `{StreamTransport T}.
(** The supply of nanoid, with the identifiers an operation takes, and i18next. *)
Context (ids : nat -> jsstr) (t : jsstr -> jsstr).

Definition initial : chat T :=
  {| messages := []; queue := []; requestGeneration := 0;
     pendingStreamChunks := {| p_generation := 0; p_content := []; p_reasoning := [] |};
     streamFlushTimer := None; isRequesting := false; abortController := None; aborted := [];
     inFlight := []; transport := idle_transport; captured := ∅; requests := [];
     editingMessageKey := None |}.

(** ** Assignments *)

Definition set_view (ms : list Message) (q : list update) (s : chat T) : chat T :=
  {| messages := ms; queue := q; requestGeneration := requestGeneration s;
     pendingStreamChunks := pendingStreamChunks s; streamFlushTimer := streamFlushTimer s;
     isRequesting := isRequesting s; abortController := abortController s; aborted := aborted s;
     inFlight := inFlight s; transport := transport s; captured := captured s; requests := requests s;
     editingMessageKey := editingMessageKey s |}.
Definition set_generation (g : nat) (s : chat T) : chat T :=
  {| messages := messages s; queue := queue s; requestGeneration := g;
     pendingStreamChunks := pendingStreamChunks s; streamFlushTimer := streamFlushTimer s;
     isRequesting := isRequesting s; abortController := abortController s; aborted := aborted s;
     inFlight := inFlight s; transport := transport s; captured := captured s; requests := requests s;
     editingMessageKey := editingMessageKey s |}.
Definition set_buffer (p : PendingStreamChunks) (timer : option nat) (s : chat T) : chat T :=
  {| messages := messages s; queue := queue s; requestGeneration := requestGeneration s;
     pendingStreamChunks := p; streamFlushTimer := timer;
     isRequesting := isRequesting s; abortController := abortController s; aborted := aborted s;
     inFlight := inFlight s; transport := transport s; captured := captured s; requests := requests s;
     editingMessageKey := editingMessageKey s |}.
Definition setIsRequesting (b : bool) (s : chat T) : chat T :=
  {| messages := messages s; queue := queue s; requestGeneration := requestGeneration s;
     pendingStreamChunks := pendingStreamChunks s; streamFlushTimer := streamFlushTimer s;
     isRequesting := b; abortController := abortController s; aborted := aborted s;
     inFlight := inFlight s; transport := transport s; captured := captured s; requests := requests s;
     editingMessageKey := editingMessageKey s |}.
Definition set_abort (a : option nat) (ab fl : list nat) (s : chat T) : chat T :=
  {| messages := messages s; queue := queue s; requestGeneration := requestGeneration s;
     pendingStreamChunks := pendingStreamChunks s; streamFlushTimer := streamFlushTimer s;
     isRequesting := isRequesting s; abortController := a; aborted := ab;
     inFlight := fl; transport := transport s; captured := captured s; requests := requests s;
     editingMessageKey := editingMessageKey s |}.
Definition set_transport (tr : T) (c : gmap nat nat) (s : chat T) : chat T :=
  {| messages := messages s; queue := queue s; requestGeneration := requestGeneration s;
     pendingStreamChunks := pendingStreamChunks s; streamFlushTimer := streamFlushTimer s;
     isRequesting := isRequesting s; abortController := abortController s; aborted := aborted s;
     inFlight := inFlight s; transport := tr; captured := c; requests := requests s;
     editingMessageKey := editingMessageKey s |}.
Definition log_request (g : nat) (p : ChatCompletionRequest) (s : chat T) : chat T :=
  {| messages := messages s; queue := queue s; requestGeneration := requestGeneration s;
     pendingStreamChunks := pendingStreamChunks s; streamFlushTimer := streamFlushTimer s;
     isRequesting := isRequesting s; abortController := abortController s; aborted := aborted s;
     inFlight := inFlight s; transport := transport s; captured := captured s;
     requests := requests s ++ [(g, p)]; editingMessageKey := editingMessageKey s |}.
Definition setEditingMessageKey (k : option jsstr) (s : chat T) : chat T :=
  {| messages := messages s; queue := queue s; requestGeneration := requestGeneration s;
     pendingStreamChunks := pendingStreamChunks s; streamFlushTimer := streamFlushTimer s;
     isRequesting := isRequesting s; abortController := abortController s; aborted := aborted s;
     inFlight := inFlight s; transport := transport s; captured := captured s; requests := requests s;
     editingMessageKey := k |}.

(** [setMessages(updater)].  React runs an updater at once only when none is
    queued; the result is then what the next render shows. *)
Definition updateMessages (e : turn) (u : update) (s : chat T) : chat T :=
  match eager e, queue s with
  | true, [] => set_view (messages s) [Replace (run_update (requestGeneration s) (now e) u (messages s))] s
  | _, q => set_view (messages s) (q ++ [u]) s
  end.

(** [abortControllerRef.current?.abort()], after which the ref holds [a]. *)
Definition abort_and_set (a : option nat) (s : chat T) : chat T :=
  set_abort a (match abortController s with Some g => g :: aborted s | None => aborted s end) (inFlight s) s.
Definition stopStream (s : chat T) : chat T :=
  set_transport (transport_cancel true (transport s)) (captured s) s.

(** ** Buffered updates (use-chat-handler.ts) *)

Definition empty_chunks (g : nat) : PendingStreamChunks :=
  {| p_generation := g; p_content := []; p_reasoning := [] |}.
Definition discardPendingStreamUpdates (g : nat) (s : chat T) : chat T := set_buffer (empty_chunks g) None s.

Definition flushStreamUpdates (e : turn) (g : nat) (s : chat T) : chat T :=
  if negb (Nat.eqb g (requestGeneration s)) then s
  else
    let p := pendingStreamChunks s in
    let s := set_buffer p None s in
    if negb (Nat.eqb (p_generation p) g) then s
    else if negb (truthy (p_reasoning p)) && negb (truthy (p_content p)) then s
    else updateMessages e (Flush g (p_reasoning p) (p_content p)) (set_buffer (empty_chunks g) None s).

Definition scheduleStreamFlush (g : nat) (s : chat T) : chat T :=
  if negb (Nat.eqb g (requestGeneration s)) then s
  else match streamFlushTimer s with
       | Some _ => s
       | None => set_buffer (pendingStreamChunks s) (Some g) s
       end.

Definition getDisplayError (error : jsstr) : jsstr :=
  if has error KNOWN_ERROR_MESSAGES then t error
  else if ends_with (": " ++ CONNECTION_CLOSED) error
  then take (length error - length CONNECTION_CLOSED) error ++ t CONNECTION_CLOSED
  else error.

Definition handleStreamUpdate (g : nat) (type : StreamChunkType) (chunk : jsstr) (s : chat T) : chat T :=
  let p := pendingStreamChunks s in
  if negb (Nat.eqb g (requestGeneration s)) then s
  else if negb (Nat.eqb (p_generation p) g) then s
  else
    let p' := match type with
              | content_chunk => {| p_generation := p_generation p;
                  p_content := mergePendingStreamChunk (p_content p) chunk; p_reasoning := p_reasoning p |}
              | reasoning_chunk => {| p_generation := p_generation p; p_content := p_content p;
                  p_reasoning := mergePendingStreamChunk (p_reasoning p) chunk |}
              end in
    scheduleStreamFlush g (set_buffer p' (streamFlushTimer s) s).

Definition handleStreamComplete (e : turn) (g : nat) (s : chat T) : chat T :=
  if negb (Nat.eqb g (requestGeneration s)) then s
  else updateMessages e (Complete g) (setIsRequesting false (flushStreamUpdates e g s)).

Definition handleStreamError (e : turn) (g : nat) (error : jsstr) (code : option jsstr) (s : chat T) : chat T :=
  if negb (Nat.eqb g (requestGeneration s)) then s
  else updateMessages e (Fail g (getDisplayError error) code (t API_REQUEST_ERROR))
         (setIsRequesting false (flushStreamUpdates e g s)).

(** ** Requests *)

Definition sendStreamingChat (e : turn) (ms : list Message) (s : chat T) : chat T :=
  let g := requestGeneration s + 1 in
  let s := abort_and_set None (set_generation g s) in
  let s := setIsRequesting true (discardPendingStreamUpdates g s) in
  let s := log_request g (buildChatCompletionPayload ms (config e) (enabled e)) s in
  set_transport (transport_send (transport s)) (<[next_request (transport s) := g]> (captured s)) s.

(** [sendNonStreamingChat] up to its await. *)
Definition sendNonStreamingChat (e : turn) (ms : list Message) (s : chat T) : chat T :=
  let g := requestGeneration s + 1 in
  let s := log_request g (buildChatCompletionPayload ms (config e) (enabled e)) (set_generation g s) in
  let s := discardPendingStreamUpdates g (stopStream s) in
  let s := setIsRequesting true (abort_and_set (Some g) s) in
  set_abort (abortController s) (aborted s) (g :: inFlight s) s.

(** The rest of it, once the request is answered or has failed. *)
Definition nonStreamingSettled (e : turn) (g : nat) (answer : RequestErrorLike + list ChatCompletionChoice)
    (s : chat T) : chat T :=
  let s := set_abort (abortController s) (aborted s) (List.filter (fun x => negb (Nat.eqb x g)) (inFlight s)) s in
  let s := if has g (aborted s) || negb (Nat.eqb (requestGeneration s) g) then s
           else match answer with
                | inr choices =>
                    if negb (hasChatCompletionChoice choices)
                    then handleStreamError e g API_REQUEST_ERROR None s
                    else updateMessages e (Respond g choices) s
                | inl error => let '(code, message) := parseRequestErrorDetails error in
                               handleStreamError e g message code s
                end in
  if Nat.eqb (requestGeneration s) g then setIsRequesting false (set_abort None (aborted s) (inFlight s) s) else s.

Definition sendChat (e : turn) (ms : list Message) (s : chat T) : chat T :=
  if cfg_stream (config e) then sendStreamingChat e ms s else sendNonStreamingChat e ms s.

Definition stopGeneration (e : turn) (s : chat T) : chat T :=
  let s := flushStreamUpdates e (requestGeneration s) s in
  let g := requestGeneration s + 1 in
  let s := stopStream (discardPendingStreamUpdates g (set_generation g s)) in
  updateMessages e (Stopped g) (setIsRequesting false (abort_and_set None s)).

(** The cleanups of useChatHandler and useStreamRequest. *)
Definition unmount (s : chat T) : chat T :=
  let s := set_buffer (pendingStreamChunks s) None (set_generation (requestGeneration s + 1) s) in
  let s := abort_and_set None s in
  set_transport (transport_cancel false (transport s)) (captured s) s.

(** ** The conversation (use-playground-conversation.ts) *)

(** [n]: how many identifiers have been taken before. *)
Definition handleSendMessage (e : turn) (n : nat) (text : jsstr) (s : chat T) : chat T :=
  let next := appendUserMessagePair ids n (messages s) text (now e) in
  sendChat e next (updateMessages e (Replace next) s).
Definition handleRegenerateMessage (e : turn) (n : nat) (k : jsstr) (s : chat T) : chat T :=
  match createRegeneratedMessages ids n (messages s) k (now e) with
  | None => s
  | Some next => sendChat e next (updateMessages e (Replace next) s)
  end.
Definition applyEdit (e : turn) (n : nat) (newContent : jsstr) (shouldSubmit : bool) (s : chat T) : chat T :=
  match editingMessageKey s with
  | None => s
  | Some k =>
      if negb (truthy k) then s
      else match applyMessageEdit ids n (messages s) k newContent shouldSubmit (now e) with
           | None => s
           | Some (next, shouldSend) =>
               let s := updateMessages e (Replace next) (setEditingMessageKey None s) in
               if shouldSend then sendChat e next s else s
           end
  end.
Definition handleEditMessage (k : jsstr) (s : chat T) : chat T := setEditingMessageKey (Some k) s.
Definition handleEditOpenChange (open : bool) (s : chat T) : chat T :=
  if negb open then setEditingMessageKey None s else s.
Definition handleDeleteMessage (e : turn) (k : jsstr) (s : chat T) : chat T := updateMessages e (Remove k) s.

(** The oldest queued updater is run; a render runs all of them in turn. *)
Definition render (e : turn) (s : chat T) : chat T :=
  match queue s with
  | [] => s
  | u :: q => set_view (run_update (requestGeneration s) (now e) u (messages s)) q s
  end.

(** ** One turn *)

Inductive action :=
| SendMessage (n : nat) (text : jsstr)
| RegenerateMessage (n : nat) (k : jsstr)
| ApplyEdit (n : nat) (newContent : jsstr) (shouldSubmit : bool)
| EditMessage (k : jsstr)
| EditOpenChange (open : bool)
| DeleteMessage (k : jsstr)
| StopGeneration
| Unmount
| Callback (g : nat) (ev : event)       (* of the request sent in generation [g] *)
| FlushTimer                            (* the 50 ms are over *)
| Settled (g : nat) (answer : RequestErrorLike + list ChatCompletionChoice)
| Render.

Definition dispatch (e : turn) (g : nat) (ev : event) (s : chat T) : chat T :=
  match ev with
  | Update type chunk => handleStreamUpdate g type chunk s
  | Done => handleStreamComplete e g s
  | Failed message code => handleStreamError e g message code s
  end.

Definition act (a : turn * action) (s : chat T) : chat T :=
  let e := a.1 in
  match a.2 with
  | SendMessage n text => handleSendMessage e n text s
  | RegenerateMessage n k => handleRegenerateMessage e n k s
  | ApplyEdit n c submit => applyEdit e n c submit s
  | EditMessage k => handleEditMessage k s
  | EditOpenChange open => handleEditOpenChange open s
  | DeleteMessage k => handleDeleteMessage e k s
  | StopGeneration => stopGeneration e s
  | Unmount => unmount s
  | Callback g ev => dispatch e g ev s
  | FlushTimer => match streamFlushTimer s with Some g => flushStreamUpdates e g s | None => s end
  | Settled g answer => if has g (inFlight s) then nonStreamingSettled e g answer s else s
  | Render => render e s
  end.
Definition play (l : list (turn * action)) (s : chat T) : chat T := fold_left (fun s a => act a s) l s.

End Hooks.
End ChatHandler.

(** * What the user sees *)

Module ChatBuffer.
Import ChatHandler.

(** A message up to its timing and thoughts: the abstract state of a reply. *)
Record view := { v_key : jsstr; v_from : MessageRole; v_status : option MessageStatus; v_text : jsstr }.
Definition view_of (m : Message) : view :=
  {| v_key := message_key m; v_from := from m; v_status := status m; v_text := getMessageContent m |}.
Definition with_text (st : MessageStatus) (s : jsstr) (v : view) : view :=
  {| v_key := v_key v; v_from := v_from v; v_status := Some st; v_text := s |}.

Definition visible_text (s : jsstr) : jsstr :=
  if includes open_tag s then visibleContent (parseThinkTags s) else s.
Definition append_chunk (c : jsstr) (v : view) : view :=
  if bool_decide (v_status v = Some ERROR) then v
  else with_text STREAMING (v_text v ++ getAppendableChunk (v_text v) c) v.
Definition start_streaming (v : view) : view :=
  if bool_decide (v_status v = Some ERROR) then v else with_text STREAMING (v_text v) v.
Definition complete_view (v : view) : view := with_text COMPLETE (visible_text (v_text v)) v.
Definition pending_view (v : view) : bool :=
  bool_decide (v_status v = Some LOADING) || bool_decide (v_status v = Some STREAMING).
Definition final_view (v : view) : bool :=
  bool_decide (v_status v = Some COMPLETE) || bool_decide (v_status v = Some ERROR).

Definition view_last (f : view -> view) (l : list view) : list view :=
  match last l with
  | Some v => if bool_decide (v_from v = role_assistant) then <[length l - 1 := f v]> l else l
  | None => l
  end.
(** The specification of an updater: no clock, no timing. *)
Definition view_update (current : nat) (u : update) (l : list view) : list view :=
  match u with
  | Flush g reasoning content =>
      if negb (Nat.eqb g current) then l
      else view_last (fun v =>
        let v := if truthy reasoning then start_streaming v else v in
        if truthy content then append_chunk content v else v) l
  | Complete g => if negb (Nat.eqb g current) then l
                  else view_last (fun v => if final_view v then v else complete_view v) l
  | Fail g displayError _ title =>
      if negb (Nat.eqb g current) then l
      else view_last (with_text ERROR (title ++ ": " ++ displayError)) l
  | Respond g choices =>
      if negb (Nat.eqb g current) then l
      else view_last (fun v => match choices with
                               | c :: _ => with_text COMPLETE (visible_text (default [] (choice_content c))) v
                               | [] => v
                               end) l
  | Stopped g => if negb (Nat.eqb g current) then l
                 else view_last (fun v => if pending_view v then complete_view v else v) l
  | Replace ms => map view_of ms
  | Remove k => List.filter (fun v => negb (str_eqb (v_key v) k)) l
  end.

Lemma view_chunk_reasoning m c now :
  view_of (applyStreamingChunk m reasoning_chunk c now) = start_streaming (view_of m).
Proof. unfold applyStreamingChunk, start_streaming. simpl. by case_match. Qed.
Lemma view_chunk_content m c now :
  view_of (applyStreamingChunk m content_chunk c now) = append_chunk c (view_of m).
Proof.
  unfold append_chunk. simpl. case_bool_decide as Hs.
  - unfold applyStreamingChunk. by rewrite bool_decide_true.
  - unfold view_of, with_text. cbn [v_key v_from v_text]. f_equal.
    + by rewrite Chat.chunk_key.
    + unfold applyStreamingChunk. rewrite bool_decide_false by done. cbn [from with_status].
      case_match; [|unfold completeReasoningTiming; repeat case_match];
        unfold processStreamingContent; by repeat case_match.
    + by apply Chat.status_chunk.
    + by apply Chat.raw_chunk.
Qed.
Lemma view_timing m now : view_of (completeAssistantTiming m now) = view_of m.
Proof. unfold completeAssistantTiming. by case_match. Qed.
Lemma view_finalize m api now st :
  view_of (with_status st (finalizeMessage m api now)) = with_text st (visible_text (getMessageContent m)) (view_of m).
Proof.
  unfold finalizeMessage, completeReasoningTiming, visible_text, getMessageContent.
  destruct (includes open_tag (content (getCurrentVersion m))); repeat case_match; done.
Qed.
Lemma view_complete m now : view_of (completeAssistantMessage m now) = complete_view (view_of m).
Proof. unfold completeAssistantMessage. by rewrite view_timing, view_finalize. Qed.

Lemma update_last_view ms f h :
  (forall m, view_of (f m) = h (view_of m)) ->
  map view_of (updateLastAssistantMessage ms f) = view_last h (map view_of ms).
Proof.
  intros Hf. unfold updateLastAssistantMessage, view_last. destruct (last ms) as [m|] eqn:E.
  - apply last_Some in E as [l ->]. rewrite !map_app. cbn [map]. rewrite last_snoc. cbn [view_of v_from].
    case_bool_decide; [|by rewrite map_app]. rewrite !length_app, length_map. simpl.
    replace (length l + 1 - 1) with (length l + 0) by lia.
    rewrite <-(length_map view_of l) at 2. rewrite !insert_app_r, map_app. simpl. by rewrite Hf.
  - apply last_None in E. by subst.
Qed.

(** Every updater implements its specification, at any time of the clock. *)
Lemma run_update_view current now u ms :
  map view_of (run_update current now u ms) = view_update current u (map view_of ms).
Proof.
  destruct u as [g r c|g|g d code title|g choices|g|ms'|k]; simpl.
  1-5: case_match; [done|]; apply update_last_view; intros m;
    unfold flush_message, complete_message, respond_message, stop_message.
  - destruct (truthy r), (truthy c); rewrite ?view_chunk_content, ?view_chunk_reasoning; done.
  - change (final_view (view_of m)) with (isAssistantMessageFinal m). case_match; [done|apply view_complete].
  - by rewrite view_timing.
  - destruct choices as [|c choices]; simpl; [done|]. unfold applyChatCompletionChoice.
    by rewrite view_timing, view_finalize.
  - change (pending_view (view_of m)) with (isAssistantMessagePending m). case_match; [apply view_complete|done].
  - done.
  - unfold removeMessageByKey. induction ms as [|m ms IH]; simpl; [done|]. unfold has_key at 1.
    case_match; simpl; by rewrite IH.
Qed.


(** ** Buffering *)

Section Buffering.
Context {T : Type} `{StreamTransport T} (ids : nat -> jsstr) (t : jsstr -> jsstr).
Abbreviation chat := (chat T).

(** What will be shown once everything queued has been rendered. *)
Definition shown (s : chat) : list view :=
  fold_left (fun l u => view_update (requestGeneration s) u l) (queue s) (map view_of (messages s)).

Lemma shown_render e s : shown (render e s) = shown s.
Proof.
  unfold shown, render. destruct (queue s) as [|u q] eqn:E; [by rewrite E|]. simpl. by rewrite run_update_view.
Qed.
Lemma shown_update e u s : shown (updateMessages e u s) = view_update (requestGeneration s) u (shown s).
Proof.
  unfold shown, updateMessages. destruct (eager e), (queue s) as [|u' q] eqn:E; simpl;
    rewrite ?fold_left_app; simpl; rewrite ?run_update_view; done.
Qed.
Lemma updateMessages_fields e u (s : chat) :
  let s' := updateMessages e u s in
  requestGeneration s' = requestGeneration s /\ pendingStreamChunks s' = pendingStreamChunks s /\
  streamFlushTimer s' = streamFlushTimer s /\ isRequesting s' = isRequesting s /\ inFlight s' = inFlight s /\
  transport s' = transport s /\ captured s' = captured s /\ aborted s' = aborted s /\ abortController s' = abortController s.
Proof. unfold updateMessages. by destruct (eager e), (queue s). Qed.

Lemma view_last_snoc f l v : v_from v = role_assistant -> view_last f (l ++ [v]) = l ++ [f v].
Proof.
  intros Hv. unfold view_last. rewrite last_snoc, bool_decide_true by done. rewrite length_app. simpl.
  replace (length l + 1 - 1) with (length l + 0) by lia. by rewrite insert_app_r.
Qed.

(** The reply of generation [g] under way: its text [a] is shown after the
    messages [l], the text [b] waits in the buffer. *)
Record streaming (g : nat) (l : list view) (k : jsstr) (a b : jsstr) (s : chat) : Prop := {
  st_generation : requestGeneration s = g;
  st_pending : p_generation (pendingStreamChunks s) = g;
  st_buffer : p_content (pendingStreamChunks s) = b;
  st_shown : exists st, (st = LOADING \/ st = STREAMING) /\
    shown s = l ++ [{| v_key := k; v_from := role_assistant; v_status := Some st; v_text := a |}] }.

Lemma streaming_update e g l k a b s type c :
  streaming g l k a b s ->
  streaming g l k a (match type with content_chunk => mergePendingStreamChunk b c | _ => b end)
    (act ids t (e, Callback g (Update type c)) s).
Proof.
  intros [Hg Hp Hb Hs]. unfold act, dispatch, handleStreamUpdate, scheduleStreamFlush. cbn [fst snd].
  rewrite Hg, Hp, Nat.eqb_refl. cbn [negb requestGeneration set_buffer]. rewrite Hg, Nat.eqb_refl. cbn [negb].
  destruct type; case_match; split; simpl; rewrite ?Hb; done.
Qed.

Lemma streaming_flush e g l k a b s :
  streaming g l k a b s -> (truthy a && starts_with a b) && truthy b = false ->
  streaming g l k (a ++ b) [] (flushStreamUpdates e g s).
Proof.
  intros [Hg Hp Hb (st & Hst & Hs)] Hab. unfold flushStreamUpdates. rewrite Hg, Nat.eqb_refl. cbn [negb].
  rewrite Hp, Nat.eqb_refl. cbn [negb].
  destruct (truthy (p_reasoning (pendingStreamChunks s))) eqn:Er, (truthy (p_content (pendingStreamChunks s))) eqn:Ec;
    cbn [negb andb].
  4: { apply truthy_false in Ec. rewrite Hb in Ec. rewrite Ec, app_nil_r in *. split; try done. by exists st. }
  all: set (s1 := set_buffer (empty_chunks g) None _); destruct (updateMessages_fields e
      (Flush g (p_reasoning (pendingStreamChunks s)) (p_content (pendingStreamChunks s))) s1) as (E1 & E2 & _);
    split; [by rewrite E1|by rewrite E2|by rewrite E2|]; rewrite shown_update;
    change (shown s1) with (shown s); rewrite Hs; cbn [view_update]; change (requestGeneration s1) with (requestGeneration s);
    rewrite Hg, Nat.eqb_refl, Er, Ec, ?Hb; cbn [negb]; rewrite view_last_snoc by done;
    rewrite Hb in Ec; try (rewrite Ec, andb_true_r in Hab); pose proof (Chat.appendable_spec a b) as Hap; rewrite ?Hab in Hap;
    exists STREAMING; (split; [by right|]); do 2 f_equal.
  - unfold append_chunk, start_streaming. cbn [v_status]. rewrite !bool_decide_false by (destruct Hst; by subst).
    unfold with_text. cbn [v_key v_from v_text]. by rewrite Hap.
  - apply truthy_false in Ec. rewrite Ec, app_nil_r. unfold start_streaming.
    cbn [v_status]. by rewrite bool_decide_false by (destruct Hst; by subst).
  - unfold append_chunk. cbn [v_status]. rewrite !bool_decide_false by (destruct Hst; by subst).
    unfold with_text. cbn [v_key v_from v_text]. by rewrite Hap.
Qed.

(** What may happen while the reply of generation [g] arrives: rendering, the
    timer, callbacks and answers of older requests, pieces of the reply, and
    opening or closing the editor. *)
Definition passive (g : nat) (a : turn * action) : Prop :=
  match a.2 with
  | Render | FlushTimer | EditMessage _ | EditOpenChange _ | Callback _ (Update _ _) => True
  | Callback g' _ | Settled g' _ => g' <> g
  | _ => False
  end.
(** The pieces of the reply's text, in order. *)
Definition pieces (g : nat) (l : list (turn * action)) : list jsstr :=
  omap (fun a => match a.2 with
                 | Callback g' (Update content_chunk c) => if Nat.eqb g' g then Some c else None
                 | _ => None
                 end) l.
(** No piece begins with the pieces just before it, and no run of pieces
    begins with everything before it. *)
Definition unambiguous (cs : list jsstr) : Prop :=
  (forall pre b x post, cs = pre ++ b ++ x :: post -> concat b <> [] -> starts_with (concat b) x = false) /\
  (forall a b post, cs = a ++ b ++ post -> concat a <> [] -> concat b <> [] ->
     starts_with (concat a) (concat b) = false).

Lemma unambiguous_prefix cs ds : unambiguous (cs ++ ds) -> unambiguous cs.
Proof.
  intros [H1 H2]. split.
  - intros pre b x post -> Hb. apply (H1 pre b x (post ++ ds)); [|done]. by rewrite <-!app_assoc.
  - intros a b post -> Ha Hb. apply (H2 a b (post ++ ds)); [|done..]. by rewrite <-!app_assoc.
Qed.
(** The condition, as a test of all pairs of neighbouring runs. *)
Definition unambiguousb (cs : list jsstr) : bool :=
  forallb (fun i => forallb (fun j =>
    let a := concat (take i cs) in
    let b := concat (take j (drop i cs)) in
    match drop (i + j) cs with x :: _ => negb (truthy b && starts_with b x) | [] => true end
    && negb (truthy a && truthy b && starts_with a b)) (seq 0 (S (length cs)))) (seq 0 (S (length cs))).
Lemma unambiguousb_spec cs : unambiguousb cs = true -> unambiguous cs.
Proof.
  intros Hc. assert (Hij : forall pre b post, cs = pre ++ b ++ post ->
    match post with x :: _ => negb (truthy (concat b) && starts_with (concat b) x) | [] => true end
    && negb (truthy (concat pre) && truthy (concat b) && starts_with (concat pre) (concat b)) = true).
  { intros pre b post ->. unfold unambiguousb in Hc. rewrite forallb_forall in Hc.
    specialize (Hc (length pre)). rewrite forallb_forall in Hc. rewrite !length_app in Hc.
    specialize (Hc ltac:(apply in_seq; lia) (length b) ltac:(apply in_seq; lia)).
    rewrite drop_app_length, !take_app_length, <-drop_drop, drop_app_length, drop_app_length in Hc. done. }
  split.
  - intros pre b x post E Hb. specialize (Hij pre b (x :: post) E). apply andb_true_iff in Hij as [Hij _].
    rewrite (proj2 (truthy_true _) Hb) in Hij. by apply negb_true_iff in Hij.
  - intros a b post E Ha Hb. specialize (Hij a b post E). apply andb_true_iff in Hij as [_ Hij].
    rewrite (proj2 (truthy_true _) Ha), (proj2 (truthy_true _) Hb) in Hij. by apply negb_true_iff in Hij.
Qed.
Lemma flush_condition (a b : list jsstr) : unambiguous (a ++ b) ->
  (truthy (concat a) && starts_with (concat a) (concat b)) && truthy (concat b) = false.
Proof.
  intros [_ H2]. destruct (truthy (concat a)) eqn:Ea; [|done]. destruct (truthy (concat b)) eqn:Eb; [|apply andb_false_r].
  apply truthy_true in Ea, Eb. rewrite (H2 a b []); [done|by rewrite app_nil_r|done..].
Qed.
Lemma merge_piece (b : list jsstr) x pre : unambiguous (pre ++ b ++ [x]) ->
  mergePendingStreamChunk (concat b) x = concat (b ++ [x]).
Proof.
  intros [H1 _]. unfold mergePendingStreamChunk. rewrite concat_app. simpl. rewrite app_nil_r.
  destruct (truthy (concat b)) eqn:E; [|done]. apply truthy_true in E. by rewrite (H1 pre b x []).
Qed.

Lemma flush_stale e g (s : chat) : g <> requestGeneration s -> flushStreamUpdates e g s = s.
Proof. intros Hne. unfold flushStreamUpdates. by rewrite (proj2 (Nat.eqb_neq _ _) Hne). Qed.
Lemma dispatch_stale e g ev (s : chat) : g <> requestGeneration s -> dispatch t e g ev s = s.
Proof.
  intros Hne%Nat.eqb_neq. destruct ev; simpl; unfold handleStreamUpdate, handleStreamComplete, handleStreamError;
    by rewrite Hne.
Qed.
Lemma streaming_same g l k a b s s' :
  streaming g l k a b s -> requestGeneration s' = requestGeneration s ->
  pendingStreamChunks s' = pendingStreamChunks s -> shown s' = shown s -> streaming g l k a b s'.
Proof. intros [? ? ? ?] E1 E2 E3. split; rewrite ?E1, ?E2, ?E3; done. Qed.
Lemma settled_stale e g answer (s : chat) : g <> requestGeneration s ->
  nonStreamingSettled t e g answer s =
  set_abort (abortController s) (aborted s) (List.filter (fun x => negb (Nat.eqb x g)) (inFlight s)) s.
Proof.
  intros Hne. unfold nonStreamingSettled. simpl.
  assert (E : Nat.eqb (requestGeneration s) g = false) by (apply Nat.eqb_neq; congruence).
  rewrite E, orb_true_r. simpl. by rewrite E.
Qed.

Lemma passive_step g l k ca cb s a :
  streaming g l k (concat ca) (concat cb) s -> passive g a -> unambiguous ((ca ++ cb) ++ pieces g [a]) ->
  exists ca' cb', ca' ++ cb' = (ca ++ cb) ++ pieces g [a] /\
    streaming g l k (concat ca') (concat cb') (act ids t a s).
Proof.
  intros Hs Hp Hu. destruct a as [e a].
  assert (Hsame : pieces g [(e, a)] = [] -> streaming g l k (concat ca) (concat cb) (act ids t (e, a) s) ->
    exists ca' cb', ca' ++ cb' = (ca ++ cb) ++ pieces g [(e, a)] /\
      streaming g l k (concat ca') (concat cb') (act ids t (e, a) s)).
  { intros -> Hx. exists ca, cb. by rewrite app_nil_r. }
  destruct a as [| | |ek|open| | | |g' ev| |g' ans|]; try done.
  - apply Hsame; [done|]. by apply (streaming_same _ _ _ _ _ s).
  - apply Hsame; [done|]. apply (streaming_same _ _ _ _ _ s); [done|..]; by destruct open.
  - destruct (decide (g' = g)) as [->|Hne].
    + destruct ev as [type c| |]; [|done..]. destruct type.
      * apply Hsame; [done|]. by apply (streaming_update e _ _ _ _ _ _ reasoning_chunk c) in Hs.
      * exists ca, (cb ++ [c]). unfold pieces in *. cbn [omap list_omap snd] in *. rewrite Nat.eqb_refl in *. rewrite app_assoc.
        split; [done|]. apply (streaming_update e _ _ _ _ _ _ content_chunk c) in Hs.
        rewrite (merge_piece cb c ca) in Hs by (by rewrite app_assoc). done.
    + apply Hsame; [destruct ev as [[]| |]; try done; unfold pieces; simpl; by rewrite (proj2 (Nat.eqb_neq _ _) Hne)|].
      unfold act. cbn [fst snd]. rewrite dispatch_stale; [done|]. by rewrite (st_generation _ _ _ _ _ _ Hs).
  - unfold act. cbn [fst snd]. rewrite app_nil_r in *. destruct (streamFlushTimer s) as [g'|]; [|by exists ca, cb].
    destruct (decide (g' = g)) as [->|Hne].
    + exists (ca ++ cb), []. rewrite app_nil_r. split; [done|]. rewrite concat_app.
      apply streaming_flush; [done|]. by apply flush_condition.
    + exists ca, cb. split; [done|]. rewrite flush_stale; [done|]. by rewrite (st_generation _ _ _ _ _ _ Hs).
  - apply Hsame; [done|]. unfold act. cbn [fst snd]. case_match; [|done].
    rewrite settled_stale; [by apply (streaming_same _ _ _ _ _ s)|]. rewrite (st_generation _ _ _ _ _ _ Hs). by apply Hp.
  - apply Hsame; [done|]. apply (streaming_same _ _ _ _ _ s); [done|..|apply shown_render];
      unfold act, render; simpl; by case_match.
Qed.

Lemma passive_run g l k acts ca cb s :
  streaming g l k (concat ca) (concat cb) s -> Forall (passive g) acts ->
  unambiguous ((ca ++ cb) ++ pieces g acts) ->
  exists ca' cb', ca' ++ cb' = (ca ++ cb) ++ pieces g acts /\
    streaming g l k (concat ca') (concat cb') (play ids t acts s).
Proof.
  intros Hs Hp. revert ca cb s Hs. induction Hp as [|a acts Ha Hp IH]; intros ca cb s Hs Hu.
  - exists ca, cb. by rewrite app_nil_r.
  - change (a :: acts) with ([a] ++ acts) in *. unfold pieces in Hu. rewrite omap_app in Hu.
    fold (pieces g [a]) (pieces g acts) in Hu. rewrite app_assoc in Hu.
    destruct (passive_step g l k ca cb s a Hs Ha (unambiguous_prefix _ _ Hu)) as (ca1 & cb1 & E & Hs1).
    rewrite <-E in Hu. destruct (IH ca1 cb1 _ Hs1 Hu) as (ca2 & cb2 & E2 & Hs2). exists ca2, cb2. split; [|done].
    rewrite E2, E. unfold pieces. rewrite omap_app. by rewrite app_assoc.
Qed.

(** Sending a conversation that ends in a loading reply. *)
Lemma streaming_start e l0 m (s : chat) :
  cfg_stream (config e) = true -> from m = role_assistant -> status m = Some LOADING ->
  getMessageContent m = [] ->
  streaming (requestGeneration s + 1) (map view_of l0) (message_key m) [] []
    (sendChat e (l0 ++ [m]) (updateMessages e (Replace (l0 ++ [m])) s)).
Proof.
  intros Hc Hf Hs Ht. unfold sendChat. rewrite Hc.
  assert (E : view_of m = {| v_key := message_key m; v_from := role_assistant; v_status := Some LOADING; v_text := [] |})
    by (unfold view_of; by rewrite Hf, Hs, Ht).
  unfold sendStreamingChat. destruct (updateMessages_fields e (Replace (l0 ++ [m])) s) as [Eg _].
  split; simpl; rewrite ?Eg; [done..|]. exists LOADING. split; [by left|]. rewrite <-E.
  change [view_of m] with (map view_of [m]). rewrite <-map_app. unfold shown. simpl.
  unfold updateMessages. destruct (eager e), (queue s); simpl; rewrite ?fold_left_app; done.
Qed.

Lemma render_all rs (s : chat) :
  Forall (fun a => a.2 = Render) rs -> length (queue s) <= length rs ->
  map view_of (messages (play ids t rs s)) = shown s /\ isRequesting (play ids t rs s) = isRequesting s.
Proof.
  intros Hr. revert s. induction Hr as [|[e a] rs Ha Hr IH]; intros s Hl; [|cbn [snd] in Ha; subst a; cbn [length] in Hl].
  - simpl. unfold shown. destruct (queue s); [done|simpl in Hl; lia].
  - change (play ids t ((e, Render) :: rs) s) with (play ids t rs (render e s)).
    destruct (IH (render e s)) as [E1 E2].
    { unfold render. destruct (queue s) as [|u q] eqn:Eq; simpl in *; [rewrite Eq; simpl; lia|lia]. }
    rewrite E1, E2, shown_render. split; [done|]. unfold render. by case_match.
Qed.

Definition reply_view (k : jsstr) (ev : event) (text : jsstr) : view :=
  {| v_key := k; v_from := role_assistant;
     v_status := Some (match ev with Failed _ _ => ERROR | _ => COMPLETE end);
     v_text := match ev with
               | Failed message _ => t API_REQUEST_ERROR ++ ": " ++ getDisplayError t message
               | _ => visible_text text
               end |}.
Lemma streaming_end e g l k a b s ev :
  streaming g l k a b s -> (truthy a && starts_with a b) && truthy b = false -> ends_request ev = true ->
  shown (dispatch t e g ev s) = l ++ [reply_view k ev (a ++ b)] /\ isRequesting (dispatch t e g ev s) = false.
Proof.
  intros Hs Hab Hev. pose proof (streaming_flush e g l k a b s Hs Hab) as [Hg Hp _ (st & Hst & Hsh)].
  assert (Hu : forall u, let s' := updateMessages e u (setIsRequesting false (flushStreamUpdates e g s)) in
    isRequesting s' = false /\ shown s' = view_update g u (shown (flushStreamUpdates e g s))).
  { intros u. simpl. destruct (updateMessages_fields e u (setIsRequesting false (flushStreamUpdates e g s))) as (_ & _ & _ & -> & _).
    split; [done|]. rewrite shown_update. simpl. by rewrite Hg. }
  destruct ev as [|  |message code]; [done|..]; simpl; unfold handleStreamComplete, handleStreamError;
    rewrite (st_generation _ _ _ _ _ _ Hs), Nat.eqb_refl; cbn [negb];
    match goal with |- context [updateMessages e ?u _] => destruct (Hu u) as [-> ->] end;
    rewrite Hsh; cbn [view_update]; rewrite Nat.eqb_refl; cbn [negb]; rewrite view_last_snoc by done;
    (split; [|done]); do 2 f_equal.
  unfold final_view. cbn [v_status]. destruct Hst as [-> | ->]; done.
Qed.

(** C32: a streamed reply is shown exactly, for a conversation sent with streaming
    on that ends in an empty loading reply, when no piece is mistaken for a
    repetition of the text before it (see text_depends_on_timer for pieces
    that are).  However the pieces, the flush timer, rendering, React's choice
    to run updaters at once or later, and the callbacks and answers of older
    requests interleave, once the request has ended and everything is
    rendered the conversation is the one that was sent with the reply
    completed by the concatenation of its pieces (without its thoughts), or
    replaced by the error; the other messages are untouched and the request
    no longer counts as running. *)
Theorem streamed_reply_exact (s0 : chat) e l0 m acts e' ev rs :
  cfg_stream (config e) = true ->
  from m = role_assistant -> status m = Some LOADING -> getMessageContent m = [] ->
  let g := requestGeneration s0 + 1 in
  Forall (passive g) acts -> unambiguous (pieces g acts) -> ends_request ev = true ->
  let s := play ids t (acts ++ [(e', Callback g ev)])
             (sendChat e (l0 ++ [m]) (updateMessages e (Replace (l0 ++ [m])) s0)) in
  Forall (fun a => a.2 = Render) rs -> length (queue s) <= length rs ->
  isRequesting (play ids t rs s) = false /\
  map view_of (messages (play ids t rs s)) =
    map view_of l0 ++ [reply_view (message_key m) ev (concat (pieces g acts))].
Proof.
  intros Hc Hf Hst Ht g Hp Hu Hev s Hr Hl. destruct (render_all rs s Hr Hl) as [-> ->].
  destruct (passive_run g (map view_of l0) (message_key m) acts [] [] _
    (streaming_start e l0 m s0 Hc Hf Hst Ht) Hp Hu) as (ca & cb & E & Hs). cbn [app] in E.
  unfold s. unfold play at 1 2. rewrite fold_left_app. simpl. fold (@play T _ ids t).
  rewrite <-E in Hu. destruct (streaming_end e' g _ _ _ _ _ ev Hs (flush_condition _ _ Hu) Hev) as [E1 E2].
  rewrite <-E, concat_app. split; [exact E2|exact E1].
Qed.

(** The buffer and the timer after a piece. *)
Lemma update_timer e g l k a b s type c :
  streaming g l k a b s -> streamFlushTimer s = None \/ streamFlushTimer s = Some g ->
  streamFlushTimer (act ids t (e, Callback g (Update type c)) s) = Some g.
Proof.
  intros [Hg Hp _ _] Ht. unfold act, dispatch, handleStreamUpdate, scheduleStreamFlush. cbn [fst snd].
  rewrite Hg, Hp, Nat.eqb_refl. cbn [negb requestGeneration set_buffer]. rewrite Hg, Nat.eqb_refl. cbn [negb].
  destruct Ht as [Ht|Ht]; destruct type; simpl; by rewrite Ht.
Qed.
Lemma timer_fires e g l k a b s :
  streaming g l k a b s -> streamFlushTimer s = Some g ->
  (truthy a && starts_with a b) && truthy b = false ->
  streaming g l k (a ++ b) [] (act ids t (e, FlushTimer) s) /\ streamFlushTimer (act ids t (e, FlushTimer) s) = None.
Proof.
  intros Hs Ht Hab. unfold act. cbn [fst snd]. rewrite Ht. split; [by apply streaming_flush|].
  unfold flushStreamUpdates. rewrite (st_generation _ _ _ _ _ _ Hs), Nat.eqb_refl. cbn [negb].
  rewrite (st_pending _ _ _ _ _ _ Hs), Nat.eqb_refl. cbn [negb]. case_match; [done|].
  match goal with |- context [updateMessages e ?u ?x] => by destruct (updateMessages_fields e u x) as (_ & _ & -> & _) end.
Qed.

(** What is shown can depend on the timer: of two pieces where the second
    begins with the first, the repeated part is dropped when both arrive
    within one flush interval and kept when the timer fires in between. *)
Theorem text_depends_on_timer e g l k a c y s :
  streaming g l k a [] s -> streamFlushTimer s = None -> c <> [] ->
  truthy a && starts_with a (c ++ y) = false -> truthy a && starts_with a c = false ->
  starts_with (a ++ c) (c ++ y) = false ->
  let first := (e, Callback g (Update content_chunk c)) in
  let second := (e, Callback g (Update content_chunk (c ++ y))) in
  streaming g l k (a ++ c ++ y) [] (play ids t [first; second; (e, FlushTimer)] s) /\
  streaming g l k (a ++ c ++ c ++ y) [] (play ids t [first; (e, FlushTimer); second; (e, FlushTimer)] s).
Proof.
  intros Hs Ht Hc H1 H2 H3 first second. unfold play. cbn [fold_left].
  pose proof (streaming_update e _ _ _ _ _ _ content_chunk c Hs) as Hs1. cbn [app] in Hs1.
  pose proof (update_timer e _ _ _ _ _ _ content_chunk c Hs (or_introl Ht)) as Ht1.
  change (mergePendingStreamChunk [] c) with c in Hs1. fold first in Hs1, Ht1. split.
  - pose proof (streaming_update e _ _ _ _ _ _ content_chunk (c ++ y) Hs1) as Hs2.
    pose proof (update_timer e _ _ _ _ _ _ content_chunk (c ++ y) Hs1 (or_intror Ht1)) as Ht2.
    unfold mergePendingStreamChunk in Hs2. rewrite (proj2 (truthy_true c) Hc), starts_with_app in Hs2.
    apply (timer_fires e _ _ _ _ _ _ Hs2 Ht2). by rewrite H1.
  - destruct (timer_fires e _ _ _ _ _ _ Hs1 Ht1) as [Hs2 Ht2]; [by rewrite H2|].
    pose proof (streaming_update e _ _ _ _ _ _ content_chunk (c ++ y) Hs2) as Hs3.
    pose proof (update_timer e _ _ _ _ _ _ content_chunk (c ++ y) Hs2 (or_introl Ht2)) as Ht3.
    change (mergePendingStreamChunk [] (c ++ y)) with (c ++ y) in Hs3.
    rewrite (app_assoc a c). apply (timer_fires e _ _ _ _ _ _ Hs3 Ht3). by rewrite H3, andb_false_r.
Qed.

(** Stopping completes the reply with the text that was rendered.  The
    text in the buffer is flushed as well, but that updater checks the
    generation that stopping moves on: the text is kept when React runs the
    updater at once and lost when it runs it with the next render. *)
Theorem stop_completes_reply e g l k a b s :
  streaming g l k a b s -> queue s = [] -> (truthy a && starts_with a b) && truthy b = false ->
  isRequesting (stopGeneration e s) = false /\
  shown (stopGeneration e s) =
    l ++ [reply_view k Done (if eager e then a ++ b else a)].
Proof.
  intros Hs Hq Hab. unfold stopGeneration.
  set (s1 := flushStreamUpdates e (requestGeneration s) s). set (g' := requestGeneration s1 + 1).
  set (s2 := abort_and_set None _).
  assert (Hg' : g' = g + 1).
  { unfold g', s1. rewrite (st_generation _ _ _ _ _ _ Hs). by rewrite (st_generation _ _ _ _ _ _ (streaming_flush e g l k a b s Hs Hab)). }
  destruct (updateMessages_fields e (Stopped g') (setIsRequesting false s2)) as (_ & _ & _ & Er & _).
  split; [by rewrite Er|]. rewrite shown_update. change (requestGeneration (setIsRequesting false s2)) with g'.
  assert (Hsh : exists st, (st = LOADING \/ st = STREAMING) /\ shown (setIsRequesting false s2) =
    l ++ [{| v_key := k; v_from := role_assistant; v_status := Some st; v_text := if eager e then a ++ b else a |}]).
  { change (shown (setIsRequesting false s2)) with (shown (set_generation g' s1)).
    pose proof (streaming_flush e g l k a b s Hs Hab) as Hf. destruct Hs as [Hg Hp Hb (st & Hst & Hsh)].
    unfold s1 in *. rewrite Hg in *. revert Hf. unfold flushStreamUpdates in *. rewrite Hg, Nat.eqb_refl, Hp, Nat.eqb_refl in *.
    cbn [negb] in *. destruct (negb (truthy (p_reasoning (pendingStreamChunks s))) && negb (truthy (p_content (pendingStreamChunks s)))) eqn:Ec.
    - intros _. apply andb_true_iff in Ec as [_ Ec%negb_true_iff%truthy_false]. rewrite Hb in Ec. rewrite Ec, app_nil_r.
      exists st. split; [done|]. unfold shown in *. simpl. rewrite Hq in *. destruct (eager e); done.
    - intros [_ _ _ (st' & Hst' & Hsh')]. unfold updateMessages in *. cbn [queue set_buffer] in *. rewrite Hq in *.
      destruct (eager e); cbn [app] in *.
      + exists st'. split; [done|]. exact Hsh'.
      + exists st. split; [done|]. unfold shown in *. simpl. rewrite Hq in Hsh.
        destruct (Nat.eqb_spec g g') as [E|_]; [|exact Hsh].
        exfalso. lia. }
  destruct Hsh as (st & Hst & ->). cbn [view_update]. rewrite Nat.eqb_refl. cbn [negb].
  rewrite view_last_snoc by done. do 2 f_equal. unfold pending_view. cbn [v_status]. by destruct Hst as [-> | ->].
Qed.

End Buffering.


(** ** The hooks with their transport *)

Section System.
Context {T : Type} `{StreamTransport T} (ids : nat -> jsstr) (t : jsstr -> jsstr).
Abbreviation chat := (chat T).

(** The callbacks of one event, run with the generations they close over. *)
Definition receive_callbacks (e : turn) (cbs : list (nat * event)) (s : chat) : chat :=
  fold_left (fun s c => match captured s !! c.1 with
                        | Some g => act ids t (e, Callback g c.2) s
                        | None => s
                        end) cbs s.
Definition by_user (a : action) : Prop := match a with Callback _ _ | Unmount => False | _ => True end.

(** While the component is mounted. *)
Inductive system_step : chat -> chat -> Prop :=
| user_step e a s : by_user a -> system_step s (act ids t (e, a) s)
| transport_step e cbs tr s : delivers (transport s) cbs tr ->
    system_step s (receive_callbacks e cbs (set_transport tr (captured s) s)).
Definition reachable (s : chat) : Prop := rtc system_step initial s.

(** What the operations leave alone. *)
Definition same_requests (s s' : chat) : Prop :=
  requestGeneration s' = requestGeneration s /\ captured s' = captured s /\ transport s' = transport s /\
  inFlight s' = inFlight s /\ (isRequesting s' = true -> isRequesting s = true) /\
  p_generation (pendingStreamChunks s') = p_generation (pendingStreamChunks s) /\
  (forall g, streamFlushTimer s' = Some g -> streamFlushTimer s = Some g \/ g = requestGeneration s).
Lemma same_by (s s' : chat) :
  requestGeneration s' = requestGeneration s -> captured s' = captured s -> transport s' = transport s ->
  inFlight s' = inFlight s -> (isRequesting s' = true -> isRequesting s = true) ->
  p_generation (pendingStreamChunks s') = p_generation (pendingStreamChunks s) ->
  streamFlushTimer s' = streamFlushTimer s \/ streamFlushTimer s' = None \/ streamFlushTimer s' = Some (requestGeneration s) ->
  same_requests s s'.
Proof.
  intros. split_and!; try done. intros g Hg. destruct_or!; [left; congruence|congruence|right; congruence].
Qed.
Ltac same := apply same_by; cbn; by auto.
Lemma same_refl s : same_requests s s.
Proof. same. Qed.
Lemma same_trans s1 s2 s3 : same_requests s1 s2 -> same_requests s2 s3 -> same_requests s1 s3.
Proof.
  intros (E1 & E2 & E3 & E4 & E5 & E6 & E7) (F1 & F2 & F3 & F4 & F5 & F6 & F7). split_and!; try congruence; [auto|].
  intros g [Hg| ->]%F7; [by apply E7|right; congruence].
Qed.
Lemma same_update e u (s : chat) : same_requests s (updateMessages e u s).
Proof.
  destruct (updateMessages_fields e u s) as (E1 & E2 & E3 & E4 & E5 & E6 & E7 & _).
  apply same_by; rewrite ?E1, ?E2, ?E3, ?E4, ?E5, ?E6, ?E7; auto.
Qed.
Lemma same_flush e g s : same_requests s (flushStreamUpdates e g s).
Proof.
  unfold flushStreamUpdates. case_match; [same|]. case_match eqn:Ep; [same|]. case_match; [same|].
  eapply same_trans; [|apply same_update]. apply negb_false_iff, Nat.eqb_eq in Ep. same.
Qed.
Lemma same_terminal e g u s :
  same_requests s (updateMessages e u (setIsRequesting false (flushStreamUpdates e g s))) /\
  isRequesting (updateMessages e u (setIsRequesting false (flushStreamUpdates e g s))) = false.
Proof.
  destruct (updateMessages_fields e u (setIsRequesting false (flushStreamUpdates e g s))) as (_ & _ & _ & E & _).
  split; [|by rewrite E]. eapply same_trans; [apply same_flush|]. eapply same_trans; [|apply same_update]. same.
Qed.
Lemma same_dispatch e g ev s : same_requests s (dispatch t e g ev s).
Proof.
  destruct ev; simpl; unfold handleStreamUpdate, scheduleStreamFlush, handleStreamComplete, handleStreamError.
  - destruct (Nat.eqb_spec g (requestGeneration s)) as [->|]; [|same]. cbn [negb]. case_match; [same|].
    cbn [requestGeneration set_buffer]. rewrite Nat.eqb_refl. cbn [negb]. destruct type; case_match; same.
  - case_match; [same|]. apply same_terminal.
  - case_match; [same|]. apply same_terminal.
Qed.
Lemma dispatch_ends e ev (s : chat) : ends_request ev = true -> isRequesting (dispatch t e (requestGeneration s) ev s) = false.
Proof.
  intros He. destruct ev; [done|..]; simpl; unfold handleStreamComplete, handleStreamError; rewrite Nat.eqb_refl;
    apply same_terminal.
Qed.
Lemma same_callbacks e r cbs (s : chat) : captured s !! r = Some (requestGeneration s) ->
  Forall (fun c => c.1 = r) cbs -> same_requests s (receive_callbacks e cbs s).
Proof.
  intros Hr Hc. revert s Hr. induction Hc as [|[r' ev] cbs Hr' Hc IH]; intros s Hr; [same|].
  cbn [fst] in Hr'. subst r'. unfold receive_callbacks in *. cbn [fold_left fst snd]. rewrite Hr.
  pose proof (same_dispatch e (requestGeneration s) ev s) as Hd.
  eapply same_trans; [exact Hd|]. apply IH. destruct Hd as (E1 & E2 & _). unfold act. cbn [fst snd]. by rewrite E1, E2.
Qed.

(** The invariant: the current request of the transport belongs to the current
    generation, which is also that of the buffer and of the timer, the spinner
    is on only while a request is under way, and requests without streaming
    exclude a streaming one. *)
Record sys_inv (s : chat) : Prop := {
  sys_ok : transport_ok (transport s);
  sys_current : forall r, current_request (transport s) = Some r -> captured s !! r = Some (requestGeneration s);
  sys_busy : isRequesting s = true ->
    current_request (transport s) <> None \/ requestGeneration s ∈ inFlight s;
  sys_buffer : p_generation (pendingStreamChunks s) = requestGeneration s;
  sys_timer : forall g, streamFlushTimer s = Some g -> g = requestGeneration s;
  sys_known : forall g, g ∈ inFlight s -> g <= requestGeneration s;
  sys_plain : requestGeneration s ∈ inFlight s -> current_request (transport s) = None }.

Lemma inv_same s s' : same_requests s s' -> sys_inv s -> sys_inv s'.
Proof.
  intros (E1 & E2 & E3 & E4 & E5 & E6 & E7) [I1 I2 I3 I4 I5 I6 I7]. split; rewrite ?E1, ?E2, ?E3, ?E4, ?E6; auto.
  intros g [Hg| ->]%E7; auto.
Qed.
Lemma sys_send e ms s : sys_inv s -> sys_inv (sendChat e ms s).
Proof.
  intros [I1 I2 I3 I4 I5 I6 I7]. unfold sendChat. case_match.
  - split; simpl; try done.
    + by apply ok_send.
    + intros r. rewrite current_send by done. intros [= <-]. by rewrite lookup_insert_eq.
    + intros _. left. by rewrite current_send.
    + intros g Hg%I6. lia.
    + intros Hg%I6. lia.
  - split; simpl; try done.
    + by apply ok_cancel.
    + intros r. by rewrite current_cancel.
    + intros _. right. by left.
    + intros g [->|Hg%I6]%elem_of_cons; lia.
    + intros _. by apply current_cancel.
Qed.
Lemma inv_settled e g ans s : sys_inv s -> sys_inv (nonStreamingSettled t e g ans s).
Proof.
  intros Hi. destruct (decide (g = requestGeneration s)) as [->|Hne].
  - unfold nonStreamingSettled. simpl. set (s1 := set_abort _ _ _ s).
    match goal with |- context [if has _ _ || _ then _ else ?x] => set (s2 := x) end.
    assert (H2 : same_requests s1 s2).
    { unfold s2. destruct ans as [err|choices]; simpl.
      - unfold handleStreamError. case_match; [same|apply same_terminal].
      - case_match; [unfold handleStreamError; case_match; [same|apply same_terminal]|apply same_update]. }
    set (s3 := if _ || _ then s1 else s2).
    assert (H3 : same_requests s1 s3) by (unfold s3; case_match; [same|exact H2]).
    assert (Eg : requestGeneration s3 = requestGeneration s) by (by destruct H3 as [-> _]).
    rewrite Eg, Nat.eqb_refl. destruct H3 as (E1 & E2 & E3 & E4 & E5 & E6 & E7), Hi as [I1 I2 I3 I4 I5 I6 I7].
    split; simpl; rewrite ?E1, ?E2, ?E3, ?E4, ?E6; simpl; try done.
    + intros g [Hg| ->]%E7; auto.
    + by intros g [Hg%I6 _]%elem_of_bfilter.
    + intros [Hg _]%elem_of_bfilter. auto.
  - rewrite settled_stale by done. destruct Hi as [I1 I2 I3 I4 I5 I6 I7]. split; simpl; try done;
      [|by intros g' [Hg%I6 _]%elem_of_bfilter|intros [Hg _]%elem_of_bfilter; auto].
    intros Hb. destruct (I3 Hb) as [|Hin]; [by left|right]. apply elem_of_bfilter. split; [done|].
    apply negb_true_iff, Nat.eqb_neq. congruence.
Qed.
Lemma inv_stop e s : sys_inv s -> sys_inv (stopGeneration e s).
Proof.
  intros Hi. unfold stopGeneration. eapply inv_same; [apply same_update|].
  pose proof (inv_same _ _ (same_flush e (requestGeneration s) s) Hi) as [I1 I2 I3 I4 I5 I6 I7]. split; simpl; try done.
  - by apply ok_cancel.
  - intros r. by rewrite current_cancel.
  - intros g Hg%I6. lia.
  - intros Hg%I6. lia.
Qed.
Lemma inv_act e a s : by_user a -> sys_inv s -> sys_inv (act ids t (e, a) s).
Proof.
  intros Ha Hi. destruct a as [n text|n k|n c sub|k|open|k| | |g ev| |g ans|]; try done; unfold act; cbn [fst snd].
  - apply sys_send. eapply inv_same; [apply same_update|done].
  - unfold handleRegenerateMessage. case_match; [|done]. apply sys_send. eapply inv_same; [apply same_update|done].
  - unfold applyEdit. case_match; [|done]. case_match; [done|]. case_match; [|done]. case_match.
    case_match; [apply sys_send|]; (eapply inv_same; [|exact Hi]); (eapply same_trans; [|apply same_update]); same.
  - apply (inv_same s); [same|done].
  - apply (inv_same s); [|done]. destruct open; same.
  - eapply inv_same; [apply same_update|done].
  - by apply inv_stop.
  - case_match; [|done]. eapply inv_same; [apply same_flush|done].
  - case_match; [by apply inv_settled|done].
  - apply (inv_same s); [|done]. unfold render. case_match; same.
Qed.

Lemma current_captured s cbs tr : sys_inv s -> delivers (transport s) cbs tr ->
  Forall (fun c => captured s !! c.1 = Some (requestGeneration s)) cbs.
Proof.
  intros Hi Hd. pose proof (delivers_current _ _ _ (sys_ok _ Hi) Hd) as Hc.
  eapply Forall_impl; [exact Hc|]. intros c Ec. by apply (sys_current _ Hi).
Qed.
Lemma inv_receive e cbs tr s : sys_inv s -> delivers (transport s) cbs tr ->
  sys_inv (receive_callbacks e cbs (set_transport tr (captured s) s)).
Proof.
  intros Hi Hd. set (s1 := set_transport tr (captured s) s).
  pose proof (delivers_current _ _ _ (sys_ok _ Hi) Hd) as Hc.
  pose proof (ok_delivers _ _ _ (sys_ok _ Hi) Hd) as Hok.
  assert (Hall : forall us, Forall (fun c => current_request (transport s) = Some c.1) us ->
    same_requests s1 (receive_callbacks e us s1)).
  { intros us Hus. destruct us as [|[r ev] us]; [same|]. inversion Hus as [|? ? E Hus']; subst.
    apply (same_callbacks e r).
    - by apply (sys_current _ Hi).
    - constructor; [done|]. eapply Forall_impl; [exact Hus'|]. cbn. intros c Ec. cbn in E. congruence. }
  destruct (delivers_end _ _ _ (sys_ok _ Hi) Hd) as [[_ Ecur]|(us & [r ev] & -> & _ & Hev & Ecur)].
  - apply (inv_same s1); [by apply Hall|]. destruct Hi as [I1 I2 I3 I4 I5 I6 I7]. split; simpl; rewrite ?Ecur; auto.
  - apply Forall_app in Hc as [Hus Hlast]. destruct (Hall us Hus) as (E1 & E2 & E3 & E4 & E5 & E6 & E7).
    inversion Hlast as [|? ? Er _]; subst. cbn [fst] in Er.
    unfold receive_callbacks in *. rewrite fold_left_app. cbn [fold_left fst snd].
    set (s2 := fold_left _ us s1) in *. rewrite E2. change (captured s1) with (captured s).
    rewrite (sys_current _ Hi _ Er). change (requestGeneration s) with (requestGeneration s1). rewrite <-E1.
    unfold act. cbn [fst snd]. pose proof (dispatch_ends e ev s2 Hev) as Hd'.
    pose proof (same_dispatch e (requestGeneration s2) ev s2) as (D1 & D2 & D3 & D4 & D5 & D6 & D7).
    set (s3 := dispatch t e (requestGeneration s2) ev s2) in *. clearbody s3. destruct Hi as [I1 I2 I3 I4 I5 I6 I7].
    split; rewrite ?D1, ?D3, ?D4, ?D6, ?E1, ?E3, ?E4, ?E6; simpl; auto; [by rewrite Ecur|by rewrite Hd'|].
    intros g [[Hg| ->]%E7| ->]%D7; auto.
Qed.
Lemma reachable_sys s : reachable s -> sys_inv s.
Proof.
  intros Hr. unfold reachable in Hr. assert (H0 : sys_inv (initial : chat)).
  { split; simpl; try done; [apply ok_idle|by rewrite current_idle|by intros g Hg%elem_of_nil|by intros Hg%elem_of_nil]. }
  revert H0. induction Hr as [|s1 s2 s3 Hs _ IH]; [done|]. intros Hi. apply IH.
  destruct Hs; [by apply inv_act|by apply inv_receive].
Qed.

(** ** What the callbacks do *)

(** The pieces of one kind among callbacks, in order, and the buffer after them. *)
Definition received (type : StreamChunkType) (cbs : list (nat * event)) : list jsstr :=
  omap (fun c : nat * event => match c.2, type with
                               | Update content_chunk chunk, content_chunk => Some chunk
                               | Update reasoning_chunk chunk, reasoning_chunk => Some chunk
                               | _, _ => None
                               end) cbs.
Definition buffered (p : PendingStreamChunks) (cbs : list (nat * event)) : PendingStreamChunks :=
  {| p_generation := p_generation p;
     p_content := fold_left mergePendingStreamChunk (received content_chunk cbs) (p_content p);
     p_reasoning := fold_left mergePendingStreamChunk (received reasoning_chunk cbs) (p_reasoning p) |}.
(** How the end of a request shows. *)
Definition ending (g : nat) (ev : event) : update :=
  match ev with
  | Failed message code => Fail g (getDisplayError t message) code (t API_REQUEST_ERROR)
  | _ => Complete g
  end.

Lemma buffered_cons p c cbs : buffered p (c :: cbs) = buffered (buffered p [c]) cbs.
Proof. unfold buffered, received. destruct c as [r [[] chunk| |m code]]; reflexivity. Qed.
Lemma receive_update e type chunk (s : chat) : p_generation (pendingStreamChunks s) = requestGeneration s ->
  let s' := act ids t (e, Callback (requestGeneration s) (Update type chunk)) s in
  pendingStreamChunks s' = buffered (pendingStreamChunks s) [(0, Update type chunk)] /\ shown s' = shown s /\
  streamFlushTimer s' <> None.
Proof.
  intros Hp. unfold act, dispatch, handleStreamUpdate, scheduleStreamFlush. cbn [fst snd].
  rewrite Nat.eqb_refl, Hp, Nat.eqb_refl. cbn [negb requestGeneration set_buffer streamFlushTimer]. rewrite Nat.eqb_refl. cbn [negb].
  destruct (streamFlushTimer s) eqn:Et; destruct type; split_and!; cbn; rewrite ?Et, ?Hp; try done; unfold buffered; cbn; by rewrite ?Hp.
Qed.
Lemma receive_updates e r us (s : chat) :
  captured s !! r = Some (requestGeneration s) -> p_generation (pendingStreamChunks s) = requestGeneration s ->
  Forall (fun c => c.1 = r) us -> Forall (fun c => ends_request c.2 = false) us ->
  let s' := receive_callbacks e us s in
  pendingStreamChunks s' = buffered (pendingStreamChunks s) us /\ shown s' = shown s /\
  (us <> [] \/ streamFlushTimer s <> None -> streamFlushTimer s' <> None).
Proof.
  intros Hr Hp Hus. revert s Hr Hp. induction Hus as [|[r' ev] us Hr' Hus IH]; intros s Hr Hp He.
  { split_and!; [unfold buffered; cbn; by destruct (pendingStreamChunks s)|done|cbn; by intros [|]]. }
  cbn [fst] in Hr'. subst r'. apply Forall_cons in He as [He1 He]. destruct ev as [ty chunk| |]; [|done..].
  unfold receive_callbacks in *. cbn [fold_left fst snd]. rewrite Hr, buffered_cons.
  destruct (receive_update e ty chunk s Hp) as (B1 & B2 & B3).
  pose proof (same_dispatch e (requestGeneration s) (Update ty chunk) s) as (E1 & E2 & _ & _ & _ & E6 & _).
  set (s1 := act ids t (e, Callback (requestGeneration s) (Update ty chunk)) s) in *.
  change (dispatch t e (requestGeneration s) (Update ty chunk) s) with s1 in *.
  destruct (IH s1) as (I1 & I2 & I3); [by rewrite E1, E2|by rewrite E6, E1|done|].
  rewrite I1, I2, B1, B2. split_and!; [done|done|auto].
Qed.

Lemma view_last_id l : view_last (fun v => v) l = l.
Proof.
  unfold view_last. destruct (last l) as [v|] eqn:E; [|done]. case_bool_decide; [|done]. apply list_insert_id.
  rewrite last_lookup in E. by replace (length l - 1) with (pred (length l)) by lia.
Qed.
Lemma shown_flush e (s : chat) : p_generation (pendingStreamChunks s) = requestGeneration s ->
  let p := pendingStreamChunks s in
  shown (flushStreamUpdates e (requestGeneration s) s)
  = view_update (requestGeneration s) (Flush (requestGeneration s) (p_reasoning p) (p_content p)) (shown s).
Proof.
  intros Hp. cbv zeta. unfold flushStreamUpdates. rewrite Nat.eqb_refl. cbn [negb]. rewrite Hp, Nat.eqb_refl. cbn [negb].
  destruct (negb (truthy (p_reasoning (pendingStreamChunks s))) && negb (truthy (p_content (pendingStreamChunks s)))) eqn:E.
  - apply andb_prop in E as [Er%negb_true_iff Ec%negb_true_iff]. cbn [view_update]. rewrite Nat.eqb_refl, Er, Ec.
    cbn [negb]. by rewrite view_last_id.
  - by rewrite shown_update.
Qed.
Lemma receive_end e ev (s : chat) : p_generation (pendingStreamChunks s) = requestGeneration s -> ends_request ev = true ->
  let p := pendingStreamChunks s in let g := requestGeneration s in
  shown (act ids t (e, Callback g ev) s)
  = view_update g (ending g ev) (view_update g (Flush g (p_reasoning p) (p_content p)) (shown s)).
Proof.
  intros Hp He. cbv zeta. pose proof (shown_flush e s Hp) as Hf. cbv zeta in Hf.
  pose proof (same_flush e (requestGeneration s) s) as (E1 & _).
  destruct ev as [| |m code]; [done|..]; unfold act, dispatch, handleStreamComplete, handleStreamError; cbn [fst snd ending];
    rewrite Nat.eqb_refl; cbn [negb]; rewrite shown_update; cbn [requestGeneration setIsRequesting]; rewrite E1;
    change (shown (setIsRequesting false ?x)) with (shown x); by rewrite Hf.
Qed.

Lemma current_of s cbs tr : sys_inv s -> delivers (transport s) cbs tr -> forall us, (forall c, c ∈ us -> c ∈ cbs) ->
  us <> [] -> exists r, captured s !! r = Some (requestGeneration s) /\ Forall (fun c => c.1 = r) us.
Proof.
  intros Hi Hd us Hus Hn. pose proof (delivers_current _ _ _ (sys_ok _ Hi) Hd) as Hc. rewrite Forall_forall in Hc.
  destruct us as [|c us]; [done|]. exists c.1. split; [apply (sys_current _ Hi), Hc, Hus; left|].
  apply Forall_forall. intros x Hx. assert (Some c.1 = Some x.1) by (rewrite <-(Hc x), <-(Hc c); [done|apply Hus; left|by apply Hus]).
  congruence.
Qed.

(** C33: nothing of a reply gets lost between transport and conversation: in
    every reachable state, the callbacks of an event of the transport all take
    effect.  Pieces are appended to the buffer of their kind in order, and a
    flush of the current generation is scheduled; a callback that ends the
    request first shows what the buffer then holds, then the completion or the
    error, and the request no longer counts as running. *)
Theorem callbacks_reach_reply e s cbs tr :
  reachable s -> delivers (transport s) cbs tr ->
  let g := requestGeneration s in
  let s' := receive_callbacks e cbs (set_transport tr (captured s) s) in
  (Forall (fun c => ends_request c.2 = false) cbs /\
   pendingStreamChunks s' = buffered (pendingStreamChunks s) cbs /\ shown s' = shown s /\
   (cbs <> [] -> streamFlushTimer s' = Some g)) \/
  (exists us c, cbs = us ++ [c] /\ Forall (fun c => ends_request c.2 = false) us /\ ends_request c.2 = true /\
   let p := buffered (pendingStreamChunks s) us in
   shown s' = view_update g (ending g c.2) (view_update g (Flush g (p_reasoning p) (p_content p)) (shown s)) /\
   isRequesting s' = false).
Proof.
  intros Hr%reachable_sys Hd. cbv zeta. pose proof (inv_receive e _ _ _ Hr Hd) as Hr'.
  set (s1 := set_transport tr (captured s) s) in *.
  assert (Hups : forall us, (forall c, c ∈ us -> c ∈ cbs) -> Forall (fun c => ends_request c.2 = false) us ->
    let s' := receive_callbacks e us s1 in
    same_requests s1 s' /\ pendingStreamChunks s' = buffered (pendingStreamChunks s) us /\ shown s' = shown s /\
    (us <> [] -> streamFlushTimer s' <> None)).
  { intros us Hin Hus. cbv zeta. destruct us as [|c us].
    { split_and!; [same|unfold buffered; cbn; by destruct (pendingStreamChunks s)|done|done]. }
    destruct (current_of _ _ _ Hr Hd _ Hin ltac:(done)) as (r & Hc & Hall).
    destruct (receive_updates e r (c :: us) s1 Hc (sys_buffer _ Hr) Hall Hus) as (H1 & H2 & H3).
    split_and!; [by apply (same_callbacks e r)|done|done|auto]. }
  destruct (delivers_end _ _ _ (sys_ok _ Hr) Hd) as [[Hf _]|(us & [r ev] & -> & Hf & Hev & _)].
  - left. destruct (Hups cbs ltac:(done) Hf) as (Hs & H1 & H2 & H3). split_and!; [done..|]. intros Hn.
    destruct (streamFlushTimer _) as [g|] eqn:E; [|by destruct (H3 Hn)]. apply (sys_timer _ Hr') in E as ->.
    by destruct Hs as [-> _].
  - right. exists us, (r, ev). split; [done|]. split; [done|]. split; [done|]. cbv zeta.
    assert (Hin : forall c, c ∈ us -> c ∈ us ++ [(r, ev)]) by (intros c Hc; apply elem_of_app; by left).
    destruct (Hups us Hin Hf) as ((E1 & E2 & _ & _ & _ & E6 & _) & H1 & H2 & _).
    destruct (current_of _ _ _ Hr Hd [(r, ev)]) as (r' & Hc & Hr1); [intros c Hc; apply elem_of_app; by right|done|].
    apply Forall_cons in Hr1 as [Hr1 _]. cbn [fst] in Hr1. subst r'.
    unfold receive_callbacks in *. rewrite fold_left_app. cbn [fold_left fst snd].
    set (s2 := fold_left _ us s1) in *. rewrite E2. change (captured s1) with (captured s). rewrite Hc.
    change (requestGeneration s) with (requestGeneration s1). rewrite <-E1.
    assert (Hp : p_generation (pendingStreamChunks s2) = requestGeneration s2) by (rewrite E6, E1; apply (sys_buffer _ Hr)).
    pose proof (receive_end e ev s2 Hp Hev) as He. cbv zeta in He. rewrite He, H1, H2. split; [done|].
    exact (dispatch_ends e ev s2 Hev).
Qed.

(** ** Requests under way *)

(** A streaming request of the transport that belongs to the current generation,
    or a request without streaming that waits for its answer. *)
Definition under_way (s : chat) : Prop :=
  (exists r, current_request (transport s) = Some r /\ captured s !! r = Some (requestGeneration s)) \/
  requestGeneration s ∈ inFlight s.
Lemma current_under_way s : sys_inv s -> current_request (transport s) <> None -> under_way s.
Proof.
  intros Hi Hc. left. destruct (current_request (transport s)) as [r|] eqn:E; [|done]. exists r. split; [done|].
  by apply (sys_current _ Hi).
Qed.
Lemma requesting_under_way s : sys_inv s -> isRequesting s = true -> under_way s.
Proof. intros Hi Hb. destruct (sys_busy _ Hi Hb) as [Hc|]; [by apply current_under_way|by right]. Qed.
Lemma callbacks_transport e l (s : chat) : transport (receive_callbacks e l s) = transport s.
Proof.
  revert s. induction l as [|c l IH]; intros s; [done|]. unfold receive_callbacks in *. cbn [fold_left]. rewrite IH.
  case_match; [apply same_dispatch|done].
Qed.
(** A property of transports that the operations of the hooks keep. *)
Lemma transport_always (P : T -> Prop) s :
  P idle_transport -> (forall tr, P tr -> P (transport_send tr)) -> (forall tr, P tr -> P (transport_cancel true tr)) ->
  (forall tr cbs tr', transport_ok tr -> delivers tr cbs tr' -> P tr -> P tr') ->
  reachable s -> P (transport s).
Proof.
  intros H0 Hsend Hstop Hdel Hr.
  assert (Hc : forall e ms (x : chat), P (transport x) -> P (transport (sendChat e ms x))).
  { intros e ms x Hx. unfold sendChat. case_match; cbn; auto. }
  assert (Hu : forall e u (x : chat), transport (updateMessages e u x) = transport x) by (intros e u x; apply updateMessages_fields).
  assert (Hfl : forall e g (x : chat), transport (flushStreamUpdates e g x) = transport x) by (intros e g x; apply same_flush).
  assert (Hact : forall e a (x : chat), by_user a -> P (transport x) -> P (transport (act ids t (e, a) x))).
  { intros e a x Ha Hx. destruct a as [n text|n k|n c sub|k|open|k| | |g ev| |g ans|]; try done; unfold act; cbn [fst snd].
    - apply Hc. by rewrite Hu.
    - unfold handleRegenerateMessage. case_match; [|done]. apply Hc. by rewrite Hu.
    - unfold applyEdit. repeat case_match; try done; [apply Hc|]; by rewrite Hu.
    - by destruct open.
    - unfold handleDeleteMessage. by rewrite Hu.
    - unfold stopGeneration. rewrite Hu. cbn. apply Hstop. by rewrite Hfl.
    - case_match; [by rewrite Hfl|done].
    - case_match; [|done]. unfold nonStreamingSettled. destruct ans as [err|choices]; cbn; repeat case_match; cbn; rewrite ?Hu; cbn;
        unfold handleStreamError; repeat case_match; cbn; rewrite ?Hu; cbn; rewrite ?Hfl; exact Hx.
    - unfold render. by case_match. }
  enough (H1 : P (transport s) /\ sys_inv s) by apply H1. unfold reachable in Hr. revert Hr.
  apply (rtc_ind_r (fun x => P (transport x) /\ sys_inv x)).
  { split; [done|]. apply reachable_sys, rtc_refl. }
  intros x y _ Hs [Hp Hi]. split; [|destruct Hs; [by apply inv_act|by apply inv_receive]].
  destruct Hs as [e a x Ha|e cbs tr x Hd]; [by apply Hact|].
  rewrite callbacks_transport. cbn. by apply (Hdel (transport x) cbs); [apply (sys_ok _ Hi)| |].
Qed.

(** The end of a request, as the transport and the flag see it. *)
Lemma ended_transport s cbs tr e : reachable s -> delivers (transport s) cbs tr ->
  Exists (fun c => ends_request c.2 = true) cbs ->
  let s' := receive_callbacks e cbs (set_transport tr (captured s) s) in
  transport s' = tr /\ isRequesting s' = false /\ current_request tr = None.
Proof.
  intros Hr%reachable_sys Hd He. cbv zeta. rewrite callbacks_transport. split; [done|].
  destruct (delivers_end _ _ _ (sys_ok _ Hr) Hd) as [[Hf _]|(us & [r ev] & -> & Hf & Hev & Hc)].
  { exfalso. apply Exists_exists in He as (c & Hin & Hc). rewrite Forall_forall in Hf. specialize (Hf _ Hin). congruence. }
  split; [|done]. set (s1 := set_transport tr (captured s) s).
  destruct (current_of _ _ _ Hr Hd (us ++ [(r, ev)]) ltac:(done)) as (r' & Hcap & Hall); [by destruct us|].
  apply Forall_app in Hall as [Hus Hlast]. apply Forall_cons in Hlast as [Hr' _]. cbn [fst] in Hr'. subst r'.
  destruct (same_callbacks e r us s1 Hcap Hus) as (E1 & E2 & _).
  unfold receive_callbacks in *. rewrite fold_left_app. cbn [fold_left fst snd].
  set (s2 := fold_left _ us s1) in *. rewrite E2. change (captured s1) with (captured s). rewrite Hcap.
  change (requestGeneration s) with (requestGeneration s1). rewrite <-E1. exact (dispatch_ends e ev s2 Hev).
Qed.
Lemma settled_flags e answer (s : chat) : requestGeneration s ∈ inFlight s ->
  let s' := act ids t (e, Settled (requestGeneration s) answer) s in
  isRequesting s' = false /\ transport s' = transport s.
Proof.
  intros Hin. cbv zeta. unfold act. cbn [fst snd]. rewrite (proj2 (has_spec _ _) Hin).
  unfold nonStreamingSettled. simpl. set (s1 := set_abort _ _ _ s).
  match goal with |- context [if has _ _ || _ then _ else ?x] => set (s2 := x) end.
  assert (H2 : same_requests s1 s2).
  { unfold s2. destruct answer as [err|choices]; simpl.
    - unfold handleStreamError. case_match; [same|apply same_terminal].
    - case_match; [unfold handleStreamError; case_match; [same|apply same_terminal]|apply same_update]. }
  set (s3 := if _ || _ then s1 else s2).
  assert (H3 : same_requests s1 s3) by (unfold s3; case_match; [same|exact H2]).
  destruct H3 as (E1 & _ & E3 & _). rewrite E1. change (requestGeneration s1) with (requestGeneration s). rewrite Nat.eqb_refl.
  cbn. by rewrite E3.
Qed.
Lemma stopped_flags e (s : chat) :
  isRequesting (stopGeneration e s) = false /\ transport (stopGeneration e s) = transport_cancel true (transport s).
Proof.
  unfold stopGeneration.
  match goal with |- isRequesting (updateMessages e ?u ?x) = _ /\ _ => destruct (updateMessages_fields e u x) as (_ & _ & _ & E1 & _ & E2 & _) end.
  rewrite E1, E2. split; [done|]. cbn. f_equal. apply same_flush.
Qed.
End System.

End ChatBuffer.
