(* ===== verification/ChatTransport.v ===== *)
(** The streaming controller as the transport of the chat: the laws of
    [StreamTransport] hold of [StreamController], so the theorems of
    [ChatHandler] hold of the hooks as they are composed in
    src/web/src/features/playground/hooks/use-chat-handler.ts and
    use-stream-request.ts.

    The callbacks of the controller carry what the server sent; the chat takes
    the strings its types promise.  An event is delivered when the fields it
    reads are strings. *)
From S2P Require Import Prelude JsNumber Json Playground StreamController ChatHandler.
Import Playground.

Module ChatTransport.
Import StreamController.

(** A callback of the controller, read with the types of the chat. *)
Definition typed (x : nat * callback) : option (nat * event) :=
  match x.2 with
  | onUpdate type (JStr s) => Some (x.1, Update type s)
  | onComplete => Some (x.1, Done)
  | onError (JStr m) None => Some (x.1, Failed m None)
  | onError (JStr m) (Some (JStr code)) => Some (x.1, Failed m (Some code))
  | _ => None
  end.

(** The request in progress: its headers are awaited or its source is active. *)
Definition current (c : controller) : option nat :=
  if bool_decide (generation c ∈ awaiting c) || bool_decide (source c = Some (generation c))
  then Some (generation c) else None.

(** The events of the outside world. *)
Inductive outside : controller -> controller -> Prop :=
| out_headers c g started : g ∈ awaiting c -> outside c (headers g started c)
| out_headers_failed c g m : g ∈ awaiting c -> outside c (headers_failed g m c)
| out_message c g data : g ∈ opened c -> outside c (on_message g data c)
| out_error c g rs data : g ∈ opened c -> outside c (on_error g rs data c)
| out_readystate c g rs st : g ∈ opened c -> outside c (on_readystate g rs st c).
Definition hears (c : controller) (cbs : list (nat * event)) (c' : controller) : Prop :=
  outside c c' /\ exists l, calls c' = calls c ++ l /\ Forall2 (fun x y => typed x = Some y) l cbs.

Lemma outside_step c c' : outside c c' -> step c c'.
Proof. destruct 1; by constructor. Qed.
Lemma typed_request x y : typed x = Some y -> y.1 = x.1 /\ ends_request y.2 = terminal x.2.
Proof.
  destruct x as [g cb]. unfold typed. cbn [fst snd].
  destruct cb as [ty []| |[] [[]|]]; intros; simplify_eq; done.
Qed.

(** What an event does: updates of the current request that go on, or one
    terminal callback that ends it, or nothing. *)
Definition effect (c c' : controller) : Prop :=
  exists l, calls c' = calls c ++ l /\
    ((Forall (fun x => current c = Some x.1 /\ terminal x.2 = false) l /\ current c' = current c) \/
     (exists x, l = [x] /\ current c = Some x.1 /\ terminal x.2 = true /\ current c' = None)).

Lemma effect_nothing c c' : calls c' = calls c -> current c' = current c -> effect c c'.
Proof. intros E1 E2. exists []. rewrite app_nil_r. split; [done|]. left. by split; [constructor|]. Qed.
Lemma live_current g c : live g c = true -> current c = Some g.
Proof.
  intros (Hs & Hg & _)%live_true. unfold current. rewrite (bool_decide_true (source c = _)) by congruence.
  rewrite orb_true_r. by rewrite Hg.
Qed.
Lemma closed_current g c : inv c -> source c = Some g ->
  current (closeActiveSource g c) = None.
Proof.
  intros Hi Hs. destruct (i_source _ Hi g Hs) as (Ho & Hg & _). unfold current. simpl.
  rewrite (bool_decide_true (source c = Some g)) by done. rewrite (bool_decide_false (_ ∈ _)), bool_decide_false; [done..|].
  intros Ha. destruct (i_awaiting _ Hi _ Ha) as (_ & _ & Hn). apply Hn. by rewrite <-Hg.
Qed.
Lemma effect_error g m code c : inv c -> effect c (handleError g m code c).
Proof.
  intros Hi. unfold handleError. destruct (live g c) eqn:E; cbn [negb]; [|by apply effect_nothing].
  pose proof (live_current _ _ E) as Hc. apply live_true in E as (Hs & _).
  eexists. split; [simpl; reflexivity|]. right. eexists. split; [done|]. split_and!; [done|done|].
  exact (closed_current g c Hi Hs).
Qed.
Lemma updates_shape g us c :
  let c' := updates g us c in
  calls c' = calls c ++ map (fun u => (g, onUpdate u.1 u.2)) us /\ current c' = current c.
Proof.
  unfold updates. revert c. induction us as [|u us IH]; intros c; simpl; [by rewrite app_nil_r|].
  destruct (IH (call g (onUpdate u.1 u.2) c)) as [E1 E2]. rewrite E1, E2. simpl. by rewrite <-app_assoc.
Qed.

Lemma elem_filter_ne g (l : list nat) x : x ∈ List.filter (fun y => negb (Nat.eqb y g)) l <-> x ∈ l /\ x <> g.
Proof. rewrite elem_of_bfilter, negb_true_iff, Nat.eqb_neq. done. Qed.

Lemma effect_from c1 c c' : calls c1 = calls c -> current c1 = current c -> effect c1 c' -> effect c c'.
Proof. intros E1 E2. unfold effect. by rewrite E1, E2. Qed.
Lemma current_awaiting c : generation c ∈ awaiting c -> current c = Some (generation c).
Proof. intros Ha. unfold current. by rewrite bool_decide_true. Qed.

Lemma effect_headers g started c : inv c -> g ∈ awaiting c -> effect c (headers g started c).
Proof.
  intros Hi Ha. destruct (decide (generation c = g)) as [<-|Hne].
  - assert (E1 : calls (headers (generation c) true c) = calls c) by (unfold headers; simpl; by rewrite Nat.eqb_refl).
    assert (E2 : current (headers (generation c) true c) = current c).
    { rewrite (current_awaiting c Ha). unfold headers. simpl. rewrite Nat.eqb_refl. unfold current. simpl.
      by rewrite (bool_decide_true (Some _ = _)), orb_true_r. }
    destruct started; [by apply effect_nothing|]. apply (effect_from (headers (generation c) true c)); [done..|].
    replace (headers (generation c) false c)
      with (handleError (generation c) (JStr STREAM_START_ERROR) None (headers (generation c) true c))
      by (unfold headers; simpl; by rewrite Nat.eqb_refl).
    apply effect_error. by apply inv_headers.
  - unfold headers. simpl. rewrite (proj2 (Nat.eqb_neq _ _) Hne). apply effect_nothing; [done|].
    unfold current. simpl. by rewrite (bool_decide_ext _ (generation c ∈ awaiting c)) by (rewrite elem_filter_ne; naive_solver).
Qed.
Lemma effect_headers_failed g m c : inv c -> g ∈ awaiting c -> effect c (headers_failed g m c).
Proof.
  intros Hi Ha. unfold headers_failed. simpl. destruct (decide (generation c = g)) as [<-|Hne].
  - rewrite Nat.eqb_refl. cbn [negb]. eexists. split; [simpl; reflexivity|]. right. eexists. split; [done|].
    split_and!; [by apply current_awaiting|done|]. unfold current. simpl.
    rewrite (bool_decide_false (_ ∈ _)) by (rewrite elem_filter_ne; naive_solver).
    rewrite bool_decide_false; [done|]. intros Hs. destruct (i_source _ Hi _ Hs) as [Ho _].
    by destruct (i_awaiting _ Hi _ Ha) as (_ & _ & Hn).
  - rewrite (proj2 (Nat.eqb_neq _ _) Hne). apply effect_nothing; [done|].
    unfold current. simpl. by rewrite (bool_decide_ext _ (generation c ∈ awaiting c)) by (rewrite elem_filter_ne; naive_solver).
Qed.
Lemma effect_message g data c : inv c -> effect c (on_message g data c).
Proof.
  intros Hi. unfold on_message. destruct (live g c) eqn:E; cbn [negb]; [|by apply effect_nothing].
  pose proof (live_current _ _ E) as Hc. apply live_true in E as (Hs & _). case_match.
  - eexists. split; [simpl; reflexivity|]. right. eexists. split; [done|]. split_and!; [done|done|].
    exact (closed_current g c Hi Hs).
  - destruct (parseStreamMessageUpdates _) as [us|]; [|by apply effect_error].
    destruct (updates_shape g us c) as [E1 E2]. eexists. split; [exact E1|]. left. split; [|done].
    apply Forall_forall. intros x (u & -> & _)%elem_of_map. done.
Qed.
Lemma outside_effect c c' : inv c -> outside c c' -> effect c c'.
Proof.
  intros Hi Ho. destruct Ho as [c g st Hg|c g m Hg|c g data Hg|c g rs data Hg|c g rs st Hg].
  - by apply effect_headers.
  - by apply effect_headers_failed.
  - by apply effect_message.
  - unfold on_error. repeat case_match; try (by apply effect_nothing). by apply effect_error.
  - unfold on_readystate. repeat case_match; try (by apply effect_nothing). by apply effect_error.
Qed.

Lemma hears_effect c cbs c' : inv c -> hears c cbs c' ->
  Forall (fun x => current c = Some x.1) cbs /\
  ((Forall (fun x => ends_request x.2 = false) cbs /\ current c' = current c) \/
   (exists us x, cbs = us ++ [x] /\ Forall (fun x => ends_request x.2 = false) us /\
      ends_request x.2 = true /\ current c' = None)).
Proof.
  intros Hi (Ho & l & E & Hl). destruct (outside_effect c c' Hi Ho) as (l' & E' & Heff).
  rewrite E in E'. apply app_inv_head in E'. subst l'.
  destruct Heff as [[Hf Hc]|(x & -> & Hx & Ht & Hc)].
  - assert (Hb : Forall (fun y => current c = Some y.1 /\ ends_request y.2 = false) cbs).
    { clear -Hf Hl. induction Hl as [|x y l cbs Hxy _ IH]; [constructor|]. apply Forall_cons in Hf as [[Hx1 Hx2] Hf].
      apply typed_request in Hxy as [E1 E2]. constructor; [split; congruence|auto]. }
    split; [|left; split; [|done]]; (eapply Forall_impl; [exact Hb|]); cbn; by intros ? [? ?].
  - inversion Hl as [|? y ? ? Hy Hn]; subst. inversion Hn; subst. apply typed_request in Hy as [E1 E2].
    split; [constructor; [by rewrite E1|constructor]|]. right. exists [], y. split_and!; [done|constructor|congruence|done].
Qed.

#[refine, export] Instance controller_transport : StreamTransport controller := {
  idle_transport := initial;
  transport_send := send;
  transport_cancel := cancel;
  next_request c := S (generation c);
  current_request := current;
  delivers := hears;
  transport_ok := inv }.
Proof.
  - exact inv_initial.
  - intros c Hi. exact (step_inv _ _ Hi (step_send c)).
  - intros [] c Hi; [exact (step_inv _ _ Hi (step_stop c))|exact (step_inv _ _ Hi (step_dispose c))].
  - intros c cbs c' Hi [Ho _]. exact (step_inv _ _ Hi (outside_step _ _ Ho)).
  - done.
  - intros c _. apply current_awaiting. simpl. left.
  - intros b c Hi. unfold current. simpl. rewrite (bool_decide_false (_ ∈ _)); [done|].
    intros Ha. destruct (i_awaiting _ Hi _ Ha). lia.
  - intros c cbs c' Hi Hh. by apply (hears_effect c cbs c').
  - intros c cbs c' Hi Hh. by apply (hears_effect c cbs c').
Defined.

(** ** A chat over the controller *)

Import ChatHandler ChatBuffer.

Definition demo_ids (n : nat) : jsstr := replicate n 97%N.
Definition demo_t (s : jsstr) : jsstr := s.
Definition demo_config : PlaygroundConfig :=
  {| cfg_model := "gpt-4o"; cfg_group := "default"; cfg_temperature := num 1; cfg_top_p := num 1;
     cfg_max_tokens := num 4096; cfg_frequency_penalty := num 0; cfg_presence_penalty := num 0;
     cfg_seed := None; cfg_stream := true |}.
Definition demo_enabled : ParameterEnabled :=
  {| en_temperature := true; en_top_p := false; en_max_tokens := false; en_frequency_penalty := false;
     en_presence_penalty := false; en_seed := false |}.
Definition demo_turn (eager_ : bool) : turn :=
  {| now := num 1000; eager := eager_; config := demo_config; enabled := demo_enabled |}.
Definition piece (c : jsstr) : turn * action := (demo_turn false, Callback 1 (Update content_chunk c)).
Definition fires : turn * action := (demo_turn false, FlushTimer).
Definition renders : turn * action := (demo_turn false, Render).
Definition asked : list Message := appendUserMessagePair demo_ids 0 [] "What is 20 * 20?" (num 1000).
Definition sent_chat : chat controller := act demo_ids demo_t (demo_turn false, SendMessage 0 "What is 20 * 20?") initial.

Lemma streamed_reply_exact_witness :
  let s := play demo_ids demo_t ([piece "<think>20*20</think>It"; fires; renders; piece " is"; piece " 400"]
             ++ [(demo_turn true, Callback 1 Done)]) sent_chat in
  isRequesting (play demo_ids demo_t [renders; renders; renders; renders] s) = false /\
  map view_of (messages (play demo_ids demo_t [renders; renders; renders; renders] s)) =
    map view_of (removelast asked) ++
    [{| v_key := demo_ids 2; v_from := role_assistant; v_status := Some COMPLETE; v_text := "It is 400" |}].
Proof.
  assert (Hu : unambiguous (pieces 1 [piece "<think>20*20</think>It"; fires; renders; piece " is"; piece " 400"]))
    by (apply unambiguousb_spec; vm_compute; reflexivity).
  apply (streamed_reply_exact demo_ids demo_t initial (demo_turn false) (removelast asked)
    (createLoadingAssistantMessage (demo_ids 2) (demo_ids 3) (num 1000))
    [piece "<think>20*20</think>It"; fires; renders; piece " is"; piece " 400"] (demo_turn true) Done
    [renders; renders; renders; renders]); try reflexivity; [repeat constructor|exact Hu|repeat constructor|vm_compute; lia].
Defined.

(** "4" has been rendered. *)
Definition digit_chat : chat controller := play demo_ids demo_t [renders; piece "4"; fires; renders] sent_chat.
Lemma digit_streaming : streaming 1 (map view_of (removelast asked)) (demo_ids 2) "4" [] digit_chat.
Proof. split; [vm_compute; reflexivity..|]. exists STREAMING. split; [by right|]. vm_compute. reflexivity. Qed.
Lemma text_depends_on_timer_witness :
  streaming 1 (map view_of (removelast asked)) (demo_ids 2) "40" []
    (play demo_ids demo_t [piece "0"; piece "0"; fires] digit_chat) /\
  streaming 1 (map view_of (removelast asked)) (demo_ids 2) "400" []
    (play demo_ids demo_t [piece "0"; fires; piece "0"; fires] digit_chat).
Proof.
  apply (text_depends_on_timer demo_ids demo_t (demo_turn false) 1 (map view_of (removelast asked)) (demo_ids 2)
    "4" "0" [] digit_chat digit_streaming); vm_compute; (reflexivity || discriminate).
Defined.

Lemma stop_completes_reply_witness :
  let s := act demo_ids demo_t (piece "00") digit_chat in
  shown (stopGeneration (demo_turn true) s) = map view_of (removelast asked) ++ [reply_view demo_t (demo_ids 2) Done "400"] /\
  shown (stopGeneration (demo_turn false) s) = map view_of (removelast asked) ++ [reply_view demo_t (demo_ids 2) Done "4"].
Proof.
  assert (Hs : streaming 1 (map view_of (removelast asked)) (demo_ids 2) "4" "00" (act demo_ids demo_t (piece "00") digit_chat)).
  { split; [vm_compute; reflexivity..|]. exists STREAMING. split; [by right|]. vm_compute. reflexivity. }
  split.
  - apply (stop_completes_reply demo_t (demo_turn true) 1 _ _ _ _ _ Hs); vm_compute; reflexivity.
  - apply (stop_completes_reply demo_t (demo_turn false) 1 _ _ _ _ _ Hs); vm_compute; reflexivity.
Defined.

(** The headers are there. *)
Definition open_chat : chat controller :=
  receive_callbacks demo_ids demo_t (demo_turn false) []
    (set_transport (headers 1 true (transport sent_chat)) (captured sent_chat) sent_chat).
Lemma sent_reachable : ChatBuffer.reachable demo_ids demo_t sent_chat.
Proof. apply rtc_once. by apply (user_step demo_ids demo_t (demo_turn false) (SendMessage 0 "What is 20 * 20?")). Qed.
Lemma open_reachable : ChatBuffer.reachable demo_ids demo_t open_chat.
Proof.
  eapply rtc_r; [apply sent_reachable|]. apply transport_step. split; [apply out_headers; vm_compute; left|].
  exists []. split; [vm_compute; reflexivity|constructor].
Qed.
Lemma callbacks_reach_reply_witness :
  let cbs := [(1, Update content_chunk "hi" : event)] in
  let s' := receive_callbacks demo_ids demo_t (demo_turn false) cbs
              (set_transport (on_message 1 (Some demo_data) (transport open_chat)) (captured open_chat) open_chat) in
  p_content (pendingStreamChunks s') = "hi" /\ streamFlushTimer s' = Some 1.
Proof.
  assert (Hd : delivers (transport open_chat) [(1, Update content_chunk "hi")] (on_message 1 (Some demo_data) (transport open_chat))).
  { split; [apply out_message; vm_compute; left|]. exists [(1, onUpdate content_chunk (JStr "hi"))].
    split; [vm_compute; reflexivity|repeat constructor]. }
  destruct (callbacks_reach_reply demo_ids demo_t (demo_turn false) open_chat _ _ open_reachable Hd)
    as [(_ & Hb & _ & Ht)|(us & c & E & _ & He & _)].
  - split; [cbv zeta; rewrite Hb; vm_compute; reflexivity|exact (Ht ltac:(discriminate))].
  - destruct us as [|x us]; [injection E as <-; discriminate|injection E as _ E; by destruct us].
Defined.

(** ** The flag of the interface *)




End ChatTransport.
