(* ===== verification/Flow.v ===== *)
(** The flow chart of the dashboard (src/web/src/features/dashboard/lib/flow.ts,
    flow-selection.ts and the Flow types of types.ts): usage rows become paths
    through the stages of a role (user, node, token, group, model, channel), the
    paths are cut to the top nodes of each stage, and nodes and links accumulate
    the metrics of the paths through them.

    [localeCompare] and [Intl.NumberFormat] depend on the locale of the browser
    and are parameters, as is the colour scheme of the chart library.  A [Set]
    that is only asked for membership or emptiness is the list of what was
    added to it. *)
From Stdlib Require Import Floats.SpecFloat.
From S2P Require Import Prelude JsNumber JsInteger JsCollections.

Module Flow.

(** * Data *)

Record FlowQuotaDataItem := FlowRow {
  user_id : option jsnum; username : option jsstr; node_name : option jsstr;
  use_group : option jsstr; token_id : option jsnum; token_name : option jsstr;
  channel_id : option jsnum; channel_name : option jsstr; model_name : option jsstr;
  token_used : option jsnum; count : option jsnum; quota : option jsnum }.

Inductive FlowMetric := m_quota | m_tokens | m_requests.
Inductive FlowOverflowMode := aggregate | hide.
Inductive FlowRole := r_user | r_admin | r_root.
Inductive FlowNodeKind := k_user | k_node | k_token | k_group | k_model | k_channel.

#[global] Instance FlowMetric_eq : EqDecision FlowMetric.
Proof. solve_decision. Defined.
#[global] Instance FlowNodeKind_eq : EqDecision FlowNodeKind.
Proof. solve_decision. Defined.

Record FlowNodeFilter := NodeFilter { f_kind : FlowNodeKind; f_id : jsstr }.
Record FlowLinkSelection := LinkSelection { s_source : jsstr; s_target : jsstr }.

Record FlowMetrics := Metrics { fm_quota : jsnum; fm_tokens : jsnum; fm_requests : jsnum }.
Record FlowPathNode := PathNode { id : jsstr; label : jsstr; kind : FlowNodeKind }.
Record PreparedFlowPath := Prepared { path : list FlowPathNode; metrics : FlowMetrics }.
Record FlowNodeRank := Rank { rk_node : FlowPathNode; rk_value : jsnum }.
Record FlowPathContext := PathContext { ctx_deletedTokenLabel : option (jsnum -> jsstr) }.
Record FlowHighlightSets := HighlightSets { hs_nodes : list jsstr; hs_links : list jsstr }.

Record FlowGraphOptions := GraphOptions {
  topNodeLimit : option jsnum; overflowMode : option FlowOverflowMode;
  otherNodeLabel : option (FlowNodeKind -> jsstr); activeNode : option FlowNodeFilter;
  activeLink : option FlowLinkSelection; maskSensitive : bool }.

Record FlowBuildOptions := BuildOptions {
  bo_role : option FlowRole; selectedUsers : option (list jsstr);
  selectedNodes : option (list FlowNodeFilter); bo_activeNode : option FlowNodeFilter;
  bo_activeLink : option FlowLinkSelection; bo_colorPalette : option (list jsstr);
  bo_visibleStages : option (list FlowNodeKind); bo_topNodeLimit : option jsnum;
  bo_overflowMode : option FlowOverflowMode; bo_maskSensitive : bool;
  bo_deletedTokenLabel : option (jsnum -> jsstr);
  bo_otherNodeLabel : option (FlowNodeKind -> jsstr) }.

Record DashboardFlowNode := FlowNode {
  n_id : jsstr; n_label : jsstr; n_kind : FlowNodeKind; n_value : jsnum;
  n_requests : jsnum; n_quota : jsnum; n_tokens : jsnum; n_color : jsstr;
  n_colorKey : jsstr; n_highlighted : option bool; n_dimmed : option bool }.

Record DashboardFlowLink := FlowLink {
  l_source : jsstr; l_target : jsstr; l_value : jsnum; l_requests : jsnum;
  l_quota : jsnum; l_tokens : jsnum; l_sourceLabel : jsstr; l_targetLabel : jsstr;
  l_color : jsstr; l_linkColor : jsstr; l_linkAlpha : jsnum; l_hoverColor : jsstr;
  l_colorKey : jsstr; l_share : jsnum; l_highlighted : option bool; l_dimmed : option bool }.

Record DashboardFlowGraph := FlowGraph { nodes : list DashboardFlowNode; links : list DashboardFlowLink }.

Record FlowUserFilterOption := UserOption {
  uo_value : jsstr; uo_label : jsstr; uo_valueLabel : jsstr; uo_valueRaw : jsnum; uo_color : jsstr }.
Record FlowNodeFilterOption := NodeOption {
  no_kind : FlowNodeKind; no_value : jsstr; no_label : jsstr; no_valueLabel : jsstr;
  no_valueRaw : jsnum; no_color : jsstr }.
Record FlowFilterOptions := FilterOptions {
  fo_users : list FlowUserFilterOption; fo_nodes : list FlowNodeFilterOption }.
Record FlowSummary := Summary { su_quota : jsnum; su_tokens : jsnum; su_requests : jsnum }.
Record ProcessedFlowData := Processed {
  summary : FlowSummary; flow : DashboardFlowGraph; filterOptions : FlowFilterOptions }.

(** * Constants *)

Definition DEFAULT_FLOW_ROLE : FlowRole := r_user.
Definition DEFAULT_FLOW_OVERFLOW_MODE : FlowOverflowMode := aggregate.
Definition DEFAULT_FLOW_CHART_COLOR : jsstr := "#1664FF".

Definition FLOW_NODE_KINDS : list FlowNodeKind :=
  [k_user; k_node; k_token; k_group; k_model; k_channel].

Definition OTHER_FLOW_NODE_IDS (k : FlowNodeKind) : jsstr :=
  match k with
  | k_user => "user:__other__" | k_node => "node:__other__" | k_token => "token:__other__"
  | k_group => "group:__other__" | k_model => "model:__other__" | k_channel => "channel:__other__"
  end.
Definition DEFAULT_OTHER_FLOW_NODE_LABELS (k : FlowNodeKind) : jsstr :=
  match k with
  | k_user => "Other users" | k_node => "Other nodes" | k_token => "Other tokens"
  | k_group => "Other groups" | k_model => "Other models" | k_channel => "Other channels"
  end.
Definition SENSITIVE_FLOW_KINDS : list FlowNodeKind := [k_user; k_node; k_token; k_group; k_channel].
Definition OTHER_FLOW_NODE_ID_SET : list jsstr := map OTHER_FLOW_NODE_IDS FLOW_NODE_KINDS.

Definition ROLE_FLOW_STAGES (r : FlowRole) : list FlowNodeKind :=
  match r with
  | r_root => [k_user; k_node; k_token; k_group; k_model; k_channel]
  | r_admin => [k_user; k_group; k_model; k_channel]
  | r_user => [k_token; k_group; k_model]
  end.
Definition MIN_FLOW_STAGES : nat := 2.

(** * Rows and paths *)

(** [Number(v)] of a number or undefined, 0 unless finite. *)
Definition numberValue (v : option jsnum) : jsnum :=
  match v with Some n => if is_finite n then n else num 0 | None => num 0 end.

Definition rowMetrics (row : FlowQuotaDataItem) : FlowMetrics :=
  Metrics (numberValue (quota row)) (numberValue (token_used row)) (numberValue (count row)).

Definition metricValue (m : FlowMetrics) (metric : FlowMetric) : jsnum :=
  match metric with
  | m_requests => fm_requests m
  | m_tokens => fm_tokens m
  | m_quota => fm_quota m
  end.

(** [s || d] for a string that may be undefined. *)
Definition opt_or (s : option jsstr) (d : jsstr) : jsstr := str_or (default [] s) d.

Definition positive (n : jsnum) : bool := num_ltb (num 0) n.

Definition userNode (row : FlowQuotaDataItem) : FlowPathNode :=
  let userID := numberValue (user_id row) in
  PathNode (if positive userID then "user:" ++ num_to_string userID
            else "user:" ++ opt_or (username row) "unknown")
           (opt_or (username row)
              (if positive userID then "user-" ++ num_to_string userID else "Unknown User"))
           k_user.

Definition nodeNameNode (row : FlowQuotaDataItem) : FlowPathNode :=
  let nodeName := opt_or (node_name row) "default-node" in
  PathNode ("node:" ++ nodeName) nodeName k_node.

Definition deletedTokenLabel (tokenID : jsnum) (ctx : FlowPathContext) : jsstr :=
  if num_leb tokenID (num 0) then "Unknown Token"
  else match ctx_deletedTokenLabel ctx with
       | Some f => f tokenID
       | None => "token-" ++ num_to_string tokenID
       end.

Definition tokenNode (row : FlowQuotaDataItem) (ctx : FlowPathContext) : FlowPathNode :=
  let tokenID := numberValue (token_id row) in
  PathNode (if positive tokenID then "token:" ++ num_to_string tokenID
            else "token:" ++ opt_or (token_name row) "unknown")
           (opt_or (token_name row) (deletedTokenLabel tokenID ctx))
           k_token.

Definition groupNode (row : FlowQuotaDataItem) : FlowPathNode :=
  let useGroup := opt_or (use_group row) "unknown" in
  PathNode ("group:" ++ useGroup) useGroup k_group.

Definition modelNode (row : FlowQuotaDataItem) : FlowPathNode :=
  let model := opt_or (model_name row) "unknown" in
  PathNode ("model:" ++ model) (opt_or (model_name row) "Unknown Model") k_model.

Definition channelNode (row : FlowQuotaDataItem) : FlowPathNode :=
  let channelID := numberValue (channel_id row) in
  PathNode (if positive channelID then "channel:" ++ num_to_string channelID
            else "channel:" ++ opt_or (channel_name row) "unknown")
           (opt_or (channel_name row)
              (if positive channelID then "channel-" ++ num_to_string channelID else "Unknown"))
           k_channel.

Definition NODE_BUILDERS (k : FlowNodeKind) (row : FlowQuotaDataItem) (ctx : FlowPathContext)
  : FlowPathNode :=
  match k with
  | k_user => userNode row
  | k_node => nodeNameNode row
  | k_token => tokenNode row ctx
  | k_group => groupNode row
  | k_model => modelNode row
  | k_channel => channelNode row
  end.

Definition getFlowStages (role : FlowRole) : list FlowNodeKind := ROLE_FLOW_STAGES role.

Definition resolveVisibleStages (role : FlowRole) (visibleStages : option (list FlowNodeKind))
  : list FlowNodeKind :=
  let stages := getFlowStages role in
  match visibleStages with
  | None => stages
  | Some visible =>
      let filtered := List.filter (fun stage => has stage visible) stages in
      if MIN_FLOW_STAGES <=? length filtered then filtered else stages
  end.

Definition flowPathForStages (row : FlowQuotaDataItem) (stages : list FlowNodeKind)
  (ctx : FlowPathContext) : list FlowPathNode :=
  map (fun stage => NODE_BUILDERS stage row ctx) stages.

(** * Row filters *)

Definition filterRows (rows : list FlowQuotaDataItem) (options : FlowBuildOptions)
  : list FlowQuotaDataItem :=
  let selected := nullish (selectedUsers options) [] in
  match selected with
  | [] => rows
  | _ => List.filter (fun row => has (id (userNode row)) selected) rows
  end.

Definition kind_name (k : FlowNodeKind) : jsstr :=
  match k with
  | k_user => "user" | k_node => "node" | k_token => "token"
  | k_group => "group" | k_model => "model" | k_channel => "channel"
  end.
Definition nul : N := 0.
Definition nodeFilterKey (f : FlowNodeFilter) : jsstr := kind_name (f_kind f) ++ nul :: f_id f.

(** The ids selected per kind, for the kinds that are on the path. *)
Definition normalizeSelectedNodeFilters (selected : option (list FlowNodeFilter))
  (stages : list FlowNodeKind) : jsmap FlowNodeKind (list jsstr) :=
  fold_left
    (fun filters f =>
       if has (f_kind f) stages
       then mset (f_kind f) (nullish (mget (f_kind f) filters) [] ++ [f_id f]) filters
       else filters)
    (nullish selected []) [].

Definition pathMatchesNodeFilters (p : list FlowPathNode)
  (filters : jsmap FlowNodeKind (list jsstr)) : bool :=
  match filters with
  | [] => true
  | _ =>
      let pathNodesByKind :=
        fold_left (fun m n => mset (kind n) (nullish (mget (kind n) m) [] ++ [id n]) m) p [] in
      forallb (fun '(k, selectedIds) =>
                 match mget k pathNodesByKind with
                 | None => false
                 | Some pathIds => existsb (fun i => has i pathIds) selectedIds
                 end) filters
  end.

Definition filterRowsByNodes (rows : list FlowQuotaDataItem)
  (selected : option (list FlowNodeFilter)) (stages : list FlowNodeKind) (ctx : FlowPathContext)
  : list FlowQuotaDataItem :=
  match normalizeSelectedNodeFilters selected stages with
  | [] => rows
  | filters =>
      List.filter (fun row => pathMatchesNodeFilters (flowPathForStages row stages ctx) filters) rows
  end.

Definition selectedNodeFiltersExceptKind (selected : option (list FlowNodeFilter)) (k : FlowNodeKind)
  : option (list FlowNodeFilter) :=
  match List.filter (fun f => negb (bool_decide (f_kind f = k))) (nullish selected []) with
  | [] => None
  | filtered => Some filtered
  end.
(** * Accumulation *)

Definition addNode (m : jsmap jsstr DashboardFlowNode) (pathNode : FlowPathNode)
  (mt : FlowMetrics) (metric : FlowMetric) (color colorKey : jsstr) : jsmap jsstr DashboardFlowNode :=
  let previous :=
    nullish (mget (id pathNode) m)
      (FlowNode (id pathNode) (label pathNode) (kind pathNode) (num 0) (num 0) (num 0) (num 0)
         color colorKey None None) in
  mset (id pathNode)
    (FlowNode (n_id previous) (n_label previous) (n_kind previous)
       (num_add (n_value previous) (metricValue mt metric))
       (num_add (n_requests previous) (fm_requests mt))
       (num_add (n_quota previous) (fm_quota mt))
       (num_add (n_tokens previous) (fm_tokens mt))
       (n_color previous) (n_colorKey previous) (n_highlighted previous) (n_dimmed previous)) m.

Definition pathLinkKey (source target : FlowPathNode) : jsstr := id source ++ nul :: id target.
Definition linkStableKey (link : DashboardFlowLink) : jsstr := l_source link ++ nul :: l_target link.

Definition addLink (m : jsmap jsstr DashboardFlowLink) (source target : FlowPathNode)
  (mt : FlowMetrics) (metric : FlowMetric) (color colorKey : jsstr) : jsmap jsstr DashboardFlowLink :=
  let key := id source ++ nul :: id target in
  let previous :=
    nullish (mget key m)
      (FlowLink (id source) (id target) (num 0) (num 0) (num 0) (num 0) (label source) (label target)
         color color (num 1) color colorKey (num 0) None None) in
  mset key
    (FlowLink (l_source previous) (l_target previous)
       (num_add (l_value previous) (metricValue mt metric))
       (num_add (l_requests previous) (fm_requests mt))
       (num_add (l_quota previous) (fm_quota mt))
       (num_add (l_tokens previous) (fm_tokens mt))
       (l_sourceLabel previous) (l_targetLabel previous) (l_color previous) (l_linkColor previous)
       (l_linkAlpha previous) (l_hoverColor previous) (l_colorKey previous) (l_share previous)
       (l_highlighted previous) (l_dimmed previous)) m.

Definition buildSummary (rows : list FlowQuotaDataItem) : FlowSummary :=
  fold_left
    (fun s row =>
       let mt := rowMetrics row in
       Summary (num_add (su_quota s) (fm_quota mt)) (num_add (su_tokens s) (fm_tokens mt))
               (num_add (su_requests s) (fm_requests mt)))
    rows (Summary (num 0) (num 0) (num 0)).

(** * Top nodes *)

Definition normalizeTopNodeLimit (limit : option jsnum) : option jsnum :=
  match limit with
  | None => None
  | Some l => let parsed := num_floor l in
              if is_finite parsed && positive parsed then Some parsed else None
  end.

(** [l.slice(0, limit)] for a positive integer [limit]. *)
Definition slice_limit {A} (limit : jsnum) (l : list A) : list A :=
  match limit with
  | S754_finite s m e => take (Z.to_nat (Z.min (floor_Z s m e) (Z.of_nat (length l)))) l
  | _ => []
  end.

Definition otherFlowNode (k : FlowNodeKind) (labeler : option (FlowNodeKind -> jsstr)) : FlowPathNode :=
  PathNode (OTHER_FLOW_NODE_IDS k)
    (match labeler with Some f => f k | None => DEFAULT_OTHER_FLOW_NODE_LABELS k end) k.

Definition isTopFlowNode (n : FlowPathNode) (topNodeSets : option (jsmap FlowNodeKind (list jsstr)))
  : bool :=
  match topNodeSets ≫= mget (kind n) with
  | None => true
  | Some topNodes => has (id n) topNodes
  end.

Definition applyTopNodeLimit (p : list FlowPathNode)
  (topNodeSets : option (jsmap FlowNodeKind (list jsstr))) (mode : FlowOverflowMode)
  (labeler : option (FlowNodeKind -> jsstr)) : option (list FlowPathNode) :=
  match topNodeSets with
  | None => Some p
  | Some _ =>
      if existsb (fun n => negb (isTopFlowNode n topNodeSets)) p then
        match mode with
        | hide => None
        | aggregate =>
            Some (map (fun n => if isTopFlowNode n topNodeSets then n
                                else otherFlowNode (kind n) labeler) p)
        end
      else Some p
  end.

(** * Highlighting *)

Definition pathContainsFlowNode (p : list FlowPathNode) (f : FlowNodeFilter) : bool :=
  existsb (fun n => bool_decide (kind n = f_kind f) && str_eqb (id n) (f_id f)) p.

(** The pairs [(path[i], path[i + 1])], in order. *)
Fixpoint steps {A} (p : list A) : list (A * A) :=
  match p with
  | a :: (b :: _) as t => (a, b) :: steps t
  | _ => []
  end.

Definition pathContainsFlowLink (p : list FlowPathNode) (link : FlowLinkSelection) : bool :=
  existsb (fun '(a, b) => str_eqb (id a) (s_source link) && str_eqb (id b) (s_target link)) (steps p).

Definition matchesPath (active : option FlowNodeFilter) (link : option FlowLinkSelection)
  (p : list FlowPathNode) : bool :=
  match link with
  | Some l => pathContainsFlowLink p l
  | None => match active with Some f => pathContainsFlowNode p f | None => false end
  end.

Definition buildFlowHighlightSets (preparedPaths : list PreparedFlowPath)
  (active : option FlowNodeFilter) (link : option FlowLinkSelection) (stages : list FlowNodeKind)
  : option FlowHighlightSets :=
  let nodeActive := match active with Some f => has (f_kind f) stages | None => false end in
  if negb nodeActive && bool_decide (link = None) then None
  else
    let matching := List.filter (fun p => matchesPath active link (path p)) preparedPaths in
    let highlightedNodes := concat (map (fun p => map id (path p)) matching) in
    let highlightedLinks :=
      concat (map (fun p => map (fun '(a, b) => pathLinkKey a b) (steps (path p))) matching) in
    match highlightedNodes with
    | [] => None
    | _ => Some (HighlightSets highlightedNodes highlightedLinks)
    end.

(** * Masking *)

Definition FLOW_MASK_TEXT : jsstr := [8226; 8226; 8226; 8226]%N.

Definition maskFlowLabel (l : jsstr) : jsstr := match l with [] => l | _ => FLOW_MASK_TEXT end.

(** [map.values()] updated in place. *)
Definition update_values {K V} (f : V -> V) (m : jsmap K V) : jsmap K V :=
  map (fun '(k, v) => (k, f v)) m.

Definition masked_node (n : DashboardFlowNode) : bool :=
  has (n_kind n) SENSITIVE_FLOW_KINDS && negb (has (n_id n) OTHER_FLOW_NODE_ID_SET).

Definition with_label (l : jsstr) (n : DashboardFlowNode) : DashboardFlowNode :=
  FlowNode (n_id n) l (n_kind n) (n_value n) (n_requests n) (n_quota n) (n_tokens n)
    (n_color n) (n_colorKey n) (n_highlighted n) (n_dimmed n).
Definition with_labels (sl tl : jsstr) (l : DashboardFlowLink) : DashboardFlowLink :=
  FlowLink (l_source l) (l_target l) (l_value l) (l_requests l) (l_quota l) (l_tokens l) sl tl
    (l_color l) (l_linkColor l) (l_linkAlpha l) (l_hoverColor l) (l_colorKey l) (l_share l)
    (l_highlighted l) (l_dimmed l).

Definition maskFlowGraphLabels (ns : jsmap jsstr DashboardFlowNode) (ls : jsmap jsstr DashboardFlowLink)
  : jsmap jsstr DashboardFlowNode * jsmap jsstr DashboardFlowLink :=
  let maskedById :=
    fold_left (fun m n => if masked_node n then mset (n_id n) (maskFlowLabel (n_label n)) m else m)
      (mvalues ns) ([] : jsmap jsstr jsstr) in
  let ns' := update_values (fun n => if masked_node n then with_label (maskFlowLabel (n_label n)) n else n) ns in
  match maskedById with
  | [] => (ns', ls)
  | _ =>
      (ns', update_values
              (fun l => with_labels (nullish (mget (l_source l) maskedById) (l_sourceLabel l))
                                    (nullish (mget (l_target l) maskedById) (l_targetLabel l)) l) ls)
  end.

Definition highlight_node (b : bool) (n : DashboardFlowNode) : DashboardFlowNode :=
  FlowNode (n_id n) (n_label n) (n_kind n) (n_value n) (n_requests n) (n_quota n) (n_tokens n)
    (n_color n) (n_colorKey n) (Some b) (Some (negb b)).
Definition highlight_link (b : bool) (l : DashboardFlowLink) : DashboardFlowLink :=
  FlowLink (l_source l) (l_target l) (l_value l) (l_requests l) (l_quota l) (l_tokens l)
    (l_sourceLabel l) (l_targetLabel l) (l_color l) (l_linkColor l) (l_linkAlpha l) (l_hoverColor l)
    (l_colorKey l) (l_share l) (Some b) (Some (negb b)).

Definition applyFlowHighlights (ns : jsmap jsstr DashboardFlowNode) (ls : jsmap jsstr DashboardFlowLink)
  (sets : option FlowHighlightSets) : jsmap jsstr DashboardFlowNode * jsmap jsstr DashboardFlowLink :=
  match sets with
  | None => (ns, ls)
  | Some hs =>
      (update_values (fun n => highlight_node (has (n_id n) (hs_nodes hs)) n) ns,
       update_values (fun l => highlight_link (has (linkStableKey l) (hs_links hs)) l) ls)
  end.

(** * Colours *)

(** A scheme of the chart library: the largest domain it serves and its
    entries, [None] for an entry that is not a string. *)
Record DataScheme := Scheme { maxDomainLength : option Z; scheme : list (option jsstr) }.

Definition alphaColor (color : jsstr) (alpha : jsnum) : jsstr * jsnum :=
  let normalized := trim color in
  let hex := match normalized with 35%N :: t => t | _ => normalized end in
  if negb (Nat.eqb (length hex) 6 && forallb is_hex hex) then (normalized, alpha)
  else
    let value := fold_left (fun a c => 16 * a + hex_digit c)%Z hex 0%Z in
    let red := Z.land (Z.shiftr value 16) 255 in
    let green := Z.land (Z.shiftr value 8) 255 in
    let blue := Z.land value 255 in
    ("rgba(" ++ int_to_string red ++ ", " ++ int_to_string green ++ ", " ++ int_to_string blue
       ++ ", " ++ to_fixed 2 alpha ++ ")", num 1).

Definition with_colors (linkColor : jsstr) (linkAlpha : jsnum) (hoverColor : jsstr) (l : DashboardFlowLink)
  : DashboardFlowLink :=
  FlowLink (l_source l) (l_target l) (l_value l) (l_requests l) (l_quota l) (l_tokens l)
    (l_sourceLabel l) (l_targetLabel l) (l_color l) linkColor linkAlpha hoverColor
    (l_colorKey l) (l_share l) (l_highlighted l) (l_dimmed l).
Definition with_share (share : jsnum) (l : DashboardFlowLink) : DashboardFlowLink :=
  FlowLink (l_source l) (l_target l) (l_value l) (l_requests l) (l_quota l) (l_tokens l)
    (l_sourceLabel l) (l_targetLabel l) (l_color l) (l_linkColor l) (l_linkAlpha l) (l_hoverColor l)
    (l_colorKey l) share (l_highlighted l) (l_dimmed l).

Section Graph.
Context (localeCompare : jsstr -> jsstr -> jsnum) (formatNumber : jsnum -> jsstr)
  (vchartDefaultDataScheme : list DataScheme).

Definition getDashboardChartColors (domainLength : nat) : list jsstr :=
  let fits item :=
    match maxDomainLength item with
    | None => true
    | Some m => (m =? 0)%Z || (Z.of_nat domainLength <=? m)%Z
    end in
  match match find fits vchartDefaultDataScheme with
        | Some item => Some item
        | None => last vchartDefaultDataScheme
        end with
  | Some item => omap (fun color => color) (scheme item)
  | None => []
  end.

Definition colorAt (index : nat) (palette : option (list jsstr)) : jsstr :=
  let colors :=
    match palette with
    | Some ((_ :: _) as p) => p
    | _ => getDashboardChartColors (index + 1)
    end in
  match colors with
  | [] => DEFAULT_FLOW_CHART_COLOR
  | _ => nullish (colors !! (index mod length colors)) DEFAULT_FLOW_CHART_COLOR
  end.

Definition colorPalette (colorCount : nat) (palette : option (list jsstr)) : list jsstr :=
  match palette with
  | Some ((_ :: _) as p) => p
  | _ => match getDashboardChartColors colorCount with
         | [] => [DEFAULT_FLOW_CHART_COLOR]
         | colors => colors
         end
  end.

Definition stableColorMap (keys : list jsstr) (palette : option (list jsstr)) : jsmap jsstr jsstr :=
  let uniqueKeys := nub keys in
  let colors := colorPalette (length uniqueKeys) palette in
  imap (fun index key => (key, colorAt index (Some colors))) uniqueKeys.

(** Links of one source are shaded by rank.  The links are updated in place:
    a group holds the positions of its links. *)
Definition link_rank_cmp (a b : DashboardFlowLink) : jsnum :=
  num_or (num_sub (l_value b) (l_value a)) (localeCompare (linkStableKey a) (linkStableKey b)).

Definition shade (count index : nat) : jsnum :=
  if Nat.eqb count 1 then to_number "0.34"
  else num_add (to_number "0.24")
         (num_mul (num_div (num (Z.of_nat index)) (num (Z.max (Z.of_nat count - 1) 1))) (to_number "0.2")).

Definition assignLinkDisplayColors (ls : list DashboardFlowLink) : list DashboardFlowLink :=
  let linksBySource :=
    fold_left (fun m '(i, l) => mset (l_source l) (nullish (mget (l_source l) m) [] ++ [(i, l)]) m)
      (imap pair ls) ([] : jsmap jsstr (list (nat * DashboardFlowLink))) in
  fold_left
    (fun out sourceLinks =>
       let sortedLinks := sort (fun a b => link_rank_cmp a.2 b.2) sourceLinks in
       fold_left
         (fun out '(rank, (i, l)) =>
            let display := alphaColor (l_color l) (shade (length sortedLinks) rank) in
            alter (with_colors display.1 display.2 (l_color l)) i out)
         (imap pair sortedLinks) out)
    (mvalues linksBySource) ls.

(** * The graph *)

Definition byValueThenLabel (a b : DashboardFlowNode) : jsnum :=
  num_or (num_sub (n_value b) (n_value a)) (localeCompare (n_label a) (n_label b)).

Definition rank_cmp (a b : FlowNodeRank) : jsnum :=
  num_or (num_sub (rk_value b) (rk_value a))
    (num_or (localeCompare (label (rk_node a)) (label (rk_node b)))
            (localeCompare (id (rk_node a)) (id (rk_node b)))).

Definition buildTopNodeSets (rows : list FlowQuotaDataItem) (metric : FlowMetric)
  (stages : list FlowNodeKind) (limit : option jsnum) (ctx : FlowPathContext)
  : option (jsmap FlowNodeKind (list jsstr)) :=
  match limit with
  | None => None
  | Some l =>
      let totals0 : jsmap FlowNodeKind (jsmap jsstr FlowNodeRank) :=
        fold_left (fun m stage => mset stage [] m) stages [] in
      let totals :=
        fold_left
          (fun m row =>
             let value := metricValue (rowMetrics row) metric in
             fold_left
               (fun m n =>
                  match mget (kind n) m with
                  | None => m
                  | Some stageTotals =>
                      let current := nullish (mget (id n) stageTotals) (Rank n (num 0)) in
                      mset (kind n)
                        (mset (id n) (Rank (rk_node current) (num_add (rk_value current) value)) stageTotals) m
                  end)
               (flowPathForStages row stages ctx) m)
          rows totals0 in
      Some (fold_left
              (fun m '(k, stageTotals) =>
                 mset k (map (fun r => id (rk_node r)) (slice_limit l (sort rank_cmp (mvalues stageTotals)))) m)
              totals [])
  end.

Definition preparePaths (rows : list FlowQuotaDataItem) (stages : list FlowNodeKind)
  (ctx : FlowPathContext) (topNodeSets : option (jsmap FlowNodeKind (list jsstr)))
  (mode : FlowOverflowMode) (labeler : option (FlowNodeKind -> jsstr)) : list PreparedFlowPath :=
  omap (fun row =>
          p ← applyTopNodeLimit (flowPathForStages row stages ctx) topNodeSets mode labeler;
          Some (Prepared p (rowMetrics row))) rows.

(** [prepared.path[0]?.id] of the paths that have one. *)
Definition root_ids (preparedPaths : list PreparedFlowPath) : list jsstr :=
  filter_truthy (omap (fun p => id <$> head (path p)) preparedPaths).

Definition addPath (metric : FlowMetric) (palette : option (list jsstr)) (colors : jsmap jsstr jsstr)
  (g : jsmap jsstr DashboardFlowNode * jsmap jsstr DashboardFlowLink) (p : PreparedFlowPath)
  : jsmap jsstr DashboardFlowNode * jsmap jsstr DashboardFlowLink :=
  match head (path p) with
  | None => g
  | Some root =>
      let color := nullish (mget (id root) colors) (colorAt 0 palette) in
      (fold_left (fun m n => addNode m n (metrics p) metric color (id root)) (path p) g.1,
       fold_left (fun m '(a, b) => addLink m a b (metrics p) metric color (id root)) (steps (path p)) g.2)
  end.

Definition link_cmp (a b : DashboardFlowLink) : jsnum :=
  num_or (localeCompare (l_source a) (l_source b)) (localeCompare (l_target a) (l_target b)).

Definition buildFlowGraph (rows : list FlowQuotaDataItem) (metric : FlowMetric) (role : FlowRole)
  (palette : option (list jsstr)) (visibleStages : option (list FlowNodeKind)) (ctx : FlowPathContext)
  (options : FlowGraphOptions) : DashboardFlowGraph :=
  let stages := resolveVisibleStages role visibleStages in
  let topNodeSets :=
    buildTopNodeSets rows metric stages (normalizeTopNodeLimit (topNodeLimit options)) ctx in
  let mode := nullish (overflowMode options) DEFAULT_FLOW_OVERFLOW_MODE in
  let preparedPaths := preparePaths rows stages ctx topNodeSets mode (otherNodeLabel options) in
  let colors := stableColorMap (sort localeCompare (root_ids preparedPaths)) palette in
  let '(ns, ls) := fold_left (addPath metric palette colors) preparedPaths ([], []) in
  let '(ns, ls) := if maskSensitive options then maskFlowGraphLabels ns ls else (ns, ls) in
  let '(ns, ls) :=
    applyFlowHighlights ns ls
      (buildFlowHighlightSets preparedPaths (activeNode options) (activeLink options) stages) in
  let flowLinks := sort link_cmp (mvalues ls) in
  let firstStepSources := root_ids preparedPaths in
  let total :=
    fold_left (fun sum link => num_add sum (l_value link))
      (List.filter (fun link => has (l_source link) firstStepSources) flowLinks) (num 0) in
  let flowLinks :=
    map (fun link => with_share (if positive total then num_div (l_value link) total else num 0) link)
      flowLinks in
  FlowGraph (sort byValueThenLabel (mvalues ns)) (assignLinkDisplayColors flowLinks).

(** * Filter options *)

Definition buildUserFilterOptions (rows : list FlowQuotaDataItem) (metric : FlowMetric)
  (palette : option (list jsstr)) : list FlowUserFilterOption :=
  let colors := stableColorMap (sort localeCompare (map (fun row => id (userNode row)) rows)) palette in
  let users : jsmap jsstr (jsstr * jsnum * jsstr) :=
    fold_left
      (fun m row =>
         let user := userNode row in
         if negb (match user_id row with Some n => num_truthy n | None => false end)
            && negb (truthy (default [] (username row)))
         then m
         else
           let value := metricValue (rowMetrics row) metric in
           let '(lbl, total, color) :=
             nullish (mget (id user) m)
               (label user, num 0, nullish (mget (id user) colors) (colorAt 0 palette)) in
           mset (id user) (lbl, num_add total value, color) m)
      rows [] in
  sort (fun a b => num_or (num_sub (uo_valueRaw b) (uo_valueRaw a))
                          (localeCompare (uo_label a) (uo_label b)))
    (map (fun '(value, (lbl, total, color)) => UserOption value lbl (formatNumber total) total color) users).

(** The totals of one stage over the rows that pass the other filters. *)
Definition stageTotals (rows : list FlowQuotaDataItem) (metric : FlowMetric) (stage : FlowNodeKind)
  (ctx : FlowPathContext) : jsmap jsstr FlowNodeRank :=
  fold_left
    (fun m row =>
       let value := metricValue (rowMetrics row) metric in
       let n := NODE_BUILDERS stage row ctx in
       let key := nodeFilterKey (NodeFilter (kind n) (id n)) in
       let current := nullish (mget key m) (Rank n (num 0)) in
       mset key (Rank (rk_node current) (num_add (rk_value current) value)) m)
    rows [].

Definition node_option_cmp (stageOrder : jsmap FlowNodeKind nat) (a b : FlowNodeFilterOption) : jsnum :=
  let order k := num (Z.of_nat (nullish (mget k stageOrder) 0)) in
  num_or (num_sub (order (no_kind a)) (order (no_kind b)))
    (num_or (num_sub (no_valueRaw b) (no_valueRaw a))
       (num_or (localeCompare (no_label a) (no_label b)) (localeCompare (no_value a) (no_value b)))).

Definition buildNodeFilterOptions (rows : list FlowQuotaDataItem) (metric : FlowMetric) (role : FlowRole)
  (visibleStages : option (list FlowNodeKind)) (palette : option (list jsstr)) (ctx : FlowPathContext)
  (selected : option (list FlowNodeFilter)) : list FlowNodeFilterOption :=
  let stages := resolveVisibleStages role visibleStages in
  let stageOrder : jsmap FlowNodeKind nat := imap (fun i stage => (stage, i)) stages in
  let colorIds := nub (concat (map (fun row => map id (flowPathForStages row stages ctx)) rows)) in
  let colors := stableColorMap (sort localeCompare colorIds) palette in
  let options :=
    concat
      (map (fun stage =>
              let candidateRows :=
                filterRowsByNodes rows (selectedNodeFiltersExceptKind selected stage) stages ctx in
              map (fun rank =>
                     NodeOption (kind (rk_node rank)) (id (rk_node rank)) (label (rk_node rank))
                       (formatNumber (rk_value rank)) (rk_value rank)
                       (nullish (mget (id (rk_node rank)) colors) (colorAt 0 palette)))
                (mvalues (stageTotals candidateRows metric stage ctx)))
         stages) in
  sort (node_option_cmp stageOrder) options.

Definition EMPTY_FLOW_PATH_CONTEXT : FlowPathContext := PathContext None.

Definition buildFlowFilterOptions (rows : list FlowQuotaDataItem) (metric : FlowMetric)
  (palette : option (list jsstr)) (role : FlowRole) (visibleStages : option (list FlowNodeKind))
  (selected : option (list FlowNodeFilter)) : FlowFilterOptions :=
  FilterOptions (buildUserFilterOptions rows metric palette)
    (buildNodeFilterOptions rows metric role visibleStages palette EMPTY_FLOW_PATH_CONTEXT selected).

Definition buildDashboardFlowData (rows : list FlowQuotaDataItem) (metric : FlowMetric)
  (options : FlowBuildOptions) : ProcessedFlowData :=
  let role := nullish (bo_role options) DEFAULT_FLOW_ROLE in
  let palette := bo_colorPalette options in
  let ctx := PathContext (bo_deletedTokenLabel options) in
  let stages := resolveVisibleStages role (bo_visibleStages options) in
  let userFilteredRows := filterRows rows options in
  let filteredRows := filterRowsByNodes userFilteredRows (selectedNodes options) stages ctx in
  Processed (buildSummary filteredRows)
    (buildFlowGraph filteredRows metric role palette (bo_visibleStages options) ctx
       (GraphOptions (bo_topNodeLimit options) (bo_overflowMode options) (bo_otherNodeLabel options)
          (bo_activeNode options) (bo_activeLink options) (bo_maskSensitive options)))
    (FilterOptions (buildUserFilterOptions rows metric palette)
       (buildNodeFilterOptions userFilteredRows metric role (bo_visibleStages options) palette ctx
          (selectedNodes options))).

(** * The links of the chart *)

(** [Number(b)] of a flag that may be undefined. *)
Definition flag_number (b : option bool) : jsnum :=
  match b with None => nan | Some true => num 1 | Some false => num 0 end.

Definition byLinkDrawPriority (a b : DashboardFlowLink) : jsnum :=
  num_or (num_sub (flag_number (l_dimmed a)) (flag_number (l_dimmed b)))
    (num_or (num_sub (flag_number (l_highlighted b)) (flag_number (l_highlighted a)))
       (num_or (num_sub (l_value b) (l_value a)) (localeCompare (linkStableKey a) (linkStableKey b)))).

(** The links of [buildFlowSankeySpec] with their drawing order. *)
Definition sankeyLinks (f : DashboardFlowGraph) : list (DashboardFlowLink * Z) :=
  imap (fun index link =>
          let i := Z.of_nat index in
          (link, if default false (l_highlighted link) then 1000000 + i
                 else if default false (l_dimmed link) then i
                 else 100000 + i)%Z)
    (sort byLinkDrawPriority (List.filter (fun link => positive (l_value link)) (links f))).

End Graph.

(** * Selection *)

Inductive FlowDisplayState := d_loading | d_error | d_empty | d_chart.

Record FlowResponse := Response {
  success : bool; data : option (list FlowQuotaDataItem); message : option jsstr }.

(** The message of the error thrown, or the rows. *)
Definition requireSuccessfulFlowRows (response : FlowResponse) (fallbackMessage : jsstr)
  : jsstr + list FlowQuotaDataItem :=
  if negb (success response) then inl (opt_or (message response) fallbackMessage)
  else inr (nullish (data response) []).

Definition flowDisplayState (isLoading isError : bool) (linkCount : nat) (themeReady : bool)
  : FlowDisplayState :=
  if isLoading then d_loading
  else if isError then d_error
  else if Nat.eqb linkCount 0 then d_empty
  else if negb themeReady then d_loading
  else d_chart.

Definition compactFlowSelectionLabel (count : nat) : jsstr :=
  if 0 <? count then int_to_string (Z.of_nat count) else "*".

Definition visibleFlowUsers (users : list FlowUserFilterOption) (selected : list jsstr)
  : list FlowUserFilterOption :=
  match selected with
  | [] => users
  | _ => List.filter (fun user => has (uo_value user) selected) users
  end.

End Flow.
