(* ===== verification/FlowProofs.v ===== *)
(** Correctness of the flow chart of the dashboard: the nodes and links of the
    graph carry exactly the totals of the paths through them, what flows into
    a node flows out of it, the limit on the nodes of a stage keeps the largest
    ones, masking changes nothing but labels, and filters keep the rows they
    select. *)
From Stdlib Require Import Floats.SpecFloat Sorting.Sorted.
From S2P Require Import Prelude JsNumber JsInteger JsCollections Flow.

Module FlowProofs.
Import Flow.

(** * Paths *)

(** The first unit of an id tells its kind. *)
Definition kind_unit (k : FlowNodeKind) : N :=
  match k with
  | k_user => 117 | k_node => 110 | k_token => 116 | k_group => 103 | k_model => 109 | k_channel => 99
  end%N.

(** A node whose id starts with the unit of its kind. *)
Definition well_kinded (n : FlowPathNode) : Prop := head (id n) = Some (kind_unit (kind n)).

Lemma kind_unit_inj k k' : kind_unit k = kind_unit k' -> k = k'.
Proof. by destruct k, k'. Qed.
Lemma well_kinded_same_id a b : well_kinded a -> well_kinded b -> id a = id b -> kind a = kind b.
Proof. unfold well_kinded. intros Ha Hb E. rewrite E, Hb in Ha. apply kind_unit_inj. congruence. Qed.

Lemma NODE_BUILDERS_kind k row ctx : kind (NODE_BUILDERS k row ctx) = k.
Proof. by destruct k. Qed.
Lemma NODE_BUILDERS_kinded k row ctx : well_kinded (NODE_BUILDERS k row ctx).
Proof.
  unfold well_kinded. destruct k; simpl; unfold userNode, tokenNode, channelNode; simpl;
    repeat match goal with |- context [if ?b then _ else _] => destruct b end; done.
Qed.
Lemma otherFlowNode_kinded k lab : well_kinded (otherFlowNode k lab).
Proof. by destruct k. Qed.

(** A path through the stages: one node per stage. *)
Definition path_ok (stages : list FlowNodeKind) (p : list FlowPathNode) : Prop :=
  map kind p = stages /\ Forall well_kinded p.

Lemma flowPathForStages_ok row stages ctx : path_ok stages (flowPathForStages row stages ctx).
Proof.
  unfold flowPathForStages. split.
  - rewrite map_map. apply map_id_on. intros; apply NODE_BUILDERS_kind.
  - rewrite Forall_forall. intros n (k & -> & _)%elem_of_map. apply NODE_BUILDERS_kinded.
Qed.
Lemma applyTopNodeLimit_ok stages p ts mode lab p' :
  path_ok stages p -> applyTopNodeLimit p ts mode lab = Some p' -> path_ok stages p'.
Proof.
  intros [Hk Hw]. unfold applyTopNodeLimit. destruct ts as [sets|]; [|by intros [= <-]].
  destruct (existsb _ p); [|by intros [= <-]]. destruct mode; [|done]. intros [= <-]. split.
  - rewrite map_map. rewrite <- Hk. apply map_ext_in. intros n _. by destruct (isTopFlowNode n _).
  - rewrite Forall_forall in *. intros n (x & -> & Hx)%elem_of_map.
    destruct (isTopFlowNode _ _); [auto|]. apply otherFlowNode_kinded.
Qed.

(** The stages shown are distinct stages of the role, at least two of them. *)
Lemma stages_NoDup role vs : NoDup (resolveVisibleStages role vs).
Proof.
  assert (H : NoDup (getFlowStages role)) by (destruct role; repeat constructor; set_solver).
  unfold resolveVisibleStages. destruct vs as [v|]; [|done].
  destruct (_ <=? _); [|done]. apply NoDup_ListNoDup, List.NoDup_filter. by apply NoDup_ListNoDup.
Qed.

Lemma preparePaths_ok rows stages ctx ts mode lab p :
  p ∈ preparePaths rows stages ctx ts mode lab -> path_ok stages (path p).
Proof.
  unfold preparePaths. intros (row & _ & E)%list_elem_of_omap.
  apply bind_Some in E as (q & Hq & [= <-]).
  eapply applyTopNodeLimit_ok; [apply flowPathForStages_ok|exact Hq].
Qed.

Lemma path_ok_ids stages p : NoDup stages -> path_ok stages p -> NoDup (map id p).
Proof.
  intros Hs [Hk Hw]. rewrite <- Hk in Hs. clear Hk.
  induction p as [|n p IH]; simpl in *; [constructor|].
  apply NoDup_cons in Hs as [Hn Hs]. inversion Hw as [|? ? Hwn Hw']; subst.
  constructor; [|auto]. intros (m & E & Hm)%elem_of_map. apply Hn, elem_of_map.
  exists m. split; [|done]. rewrite Forall_forall in Hw'. apply well_kinded_same_id; auto.
Qed.

(** ** Steps of a path *)

Lemma steps_fst {A} (p : list A) : map fst (steps p) = removelast p.
Proof. induction p as [|a [|b p] IH]; [done..|]. change (a :: map fst (steps (b :: p)) = a :: removelast (b :: p)). by rewrite IH. Qed.
Lemma steps_snd {A} (p : list A) : map snd (steps p) = tail p.
Proof. induction p as [|a [|b p] IH]; [done..|]. change (b :: map snd (steps (b :: p)) = b :: p). by rewrite IH. Qed.
Lemma steps_lookup {A} (p : list A) a b :
  (a, b) ∈ steps p -> exists i, p !! i = Some a /\ p !! S i = Some b.
Proof.
  induction p as [|x [|y p] IH]; [by intros ?%elem_of_nil..|].
  change (steps (x :: y :: p)) with ((x, y) :: steps (y :: p)).
  intros [[= -> ->]|H]%elem_of_cons; [by exists 0|].
  destruct (IH H) as (i & H1 & H2). by exists (S i).
Qed.
Lemma removelast_incl {A} (p : list A) x : x ∈ removelast p -> x ∈ p.
Proof.
  induction p as [|a [|b p] IH]; [by intros ?%elem_of_nil..|].
  change (removelast (a :: b :: p)) with (a :: removelast (b :: p)). set_solver.
Qed.

(** * Accumulation *)

(** What [addNode] and [addLink] are called with. *)
Definition node_call : Type := FlowPathNode * FlowMetrics * jsstr * jsstr.
Definition link_call : Type := (FlowPathNode * FlowPathNode) * FlowMetrics * jsstr * jsstr.

Definition node_key (c : node_call) : jsstr := id c.1.1.1.
Definition link_key (c : link_call) : jsstr := pathLinkKey c.1.1.1.1 c.1.1.1.2.
Definition node_start (c : node_call) : DashboardFlowNode :=
  FlowNode (id c.1.1.1) (label c.1.1.1) (kind c.1.1.1) (num 0) (num 0) (num 0) (num 0) c.1.2 c.2 None None.
Definition link_start (c : link_call) : DashboardFlowLink :=
  let '(a, b) := c.1.1.1 in
  FlowLink (id a) (id b) (num 0) (num 0) (num 0) (num 0) (label a) (label b)
    c.1.2 c.1.2 (num 1) c.1.2 c.2 (num 0) None None.

Section Accumulation.
Context (metric : FlowMetric).

Definition node_add (n : DashboardFlowNode) (c : node_call) : DashboardFlowNode :=
  let mt := c.1.1.2 in
  FlowNode (n_id n) (n_label n) (n_kind n) (num_add (n_value n) (metricValue mt metric))
    (num_add (n_requests n) (fm_requests mt)) (num_add (n_quota n) (fm_quota mt))
    (num_add (n_tokens n) (fm_tokens mt)) (n_color n) (n_colorKey n) (n_highlighted n) (n_dimmed n).
Definition link_add (l : DashboardFlowLink) (c : link_call) : DashboardFlowLink :=
  let mt := c.1.1.2 in
  FlowLink (l_source l) (l_target l) (num_add (l_value l) (metricValue mt metric))
    (num_add (l_requests l) (fm_requests mt)) (num_add (l_quota l) (fm_quota mt))
    (num_add (l_tokens l) (fm_tokens mt)) (l_sourceLabel l) (l_targetLabel l) (l_color l)
    (l_linkColor l) (l_linkAlpha l) (l_hoverColor l) (l_colorKey l) (l_share l)
    (l_highlighted l) (l_dimmed l).

Lemma addNode_accumulate m n mt color ck :
  addNode m n mt metric color ck = accumulate node_key node_start node_add m (n, mt, color, ck).
Proof. done. Qed.
Lemma addLink_accumulate m a b mt color ck :
  addLink m a b mt metric color ck = accumulate link_key link_start link_add m (a, b, mt, color, ck).
Proof. done. Qed.

(** The calls of one path. *)
Definition node_calls (color : FlowPathNode -> jsstr) (p : PreparedFlowPath) : list node_call :=
  match head (path p) with
  | None => []
  | Some root => map (fun n => (n, metrics p, color root, id root)) (path p)
  end.
Definition link_calls (color : FlowPathNode -> jsstr) (p : PreparedFlowPath) : list link_call :=
  match head (path p) with
  | None => []
  | Some root => map (fun s => (s, metrics p, color root, id root)) (steps (path p))
  end.

Definition acc_nodes color paths : jsmap jsstr DashboardFlowNode :=
  fold_left (accumulate node_key node_start node_add) (concat (map (node_calls color) paths)) [].
Definition acc_links color paths : jsmap jsstr DashboardFlowLink :=
  fold_left (accumulate link_key link_start link_add) (concat (map (link_calls color) paths)) [].

Lemma addPath_calls scheme palette colors paths :
  let color root := nullish (mget (id root) colors) (colorAt scheme 0 palette) in
  fold_left (addPath scheme metric palette colors) paths ([], []) = (acc_nodes color paths, acc_links color paths).
Proof.
  intros color. unfold acc_nodes, acc_links.
  induction paths as [|p paths IH] using rev_ind; [done|].
  rewrite fold_left_app, !map_app, !concat_app, !fold_left_app, IH. clear IH. simpl.
  rewrite !app_nil_r.
  set (gn := fold_left (accumulate _ _ node_add) (concat (map (node_calls color) paths)) []).
  set (gl := fold_left (accumulate _ _ link_add) (concat (map (link_calls color) paths)) []). clearbody gn gl.
  unfold addPath, node_calls, link_calls. destruct (path p) as [|root t]; [done|]. cbn [head fst snd].
  f_equal.
  - rewrite fold_left_map. apply fold_left_ext_on. intros; apply addNode_accumulate.
  - rewrite fold_left_map. apply fold_left_ext_on. intros m [a b] _. apply addLink_accumulate.
Qed.

End Accumulation.

(** * Totals *)

(** The calls for one key, path by path. *)
Lemma of_key_concat {K X P Y} `{EqDecision K} (key : X -> K) (f : P -> list X) (g : X -> Y)
  (h : P -> Y) (t : P -> bool) k paths :
  (forall p, p ∈ paths -> map g (of_key key k (f p)) = if t p then [h p] else []) ->
  map g (of_key key k (concat (map f paths))) = map h (List.filter t paths).
Proof.
  induction paths as [|p paths IH]; intros H; [done|]. simpl.
  unfold of_key in *. rewrite bfilter_app, map_app, IH by (intros; apply H; by right).
  rewrite (H p) by left. by destruct (t p).
Qed.

(** A key that occurs at most once. *)
Lemma of_key_once {K X Y Z} `{EqDecision K} (key : X -> K) (f : Y -> X) (g : X -> Z) z k l :
  NoDup (map (fun y => key (f y)) l) -> (forall y, g (f y) = z) ->
  map g (of_key key k (map f l)) = if has k (map (fun y => key (f y)) l) then [z] else [].
Proof.
  intros Hd Hg. unfold of_key. induction l as [|y l IH]; simpl in *; [done|].
  apply NoDup_cons in Hd as [Hy Hd]. specialize (IH Hd). case_bool_decide as Hk; simpl.
  - subst k. rewrite IH, Hg, (proj2 (has_spec_false _ _) Hy).
    by rewrite (proj2 (has_spec _ (_ :: _))) by left.
  - rewrite IH. unfold has. erewrite bool_decide_ext; [done|]. set_solver.
Qed.

(** Whether a path goes through a node, and through a link. *)
Definition visits (i : jsstr) (p : PreparedFlowPath) : bool := has i (map id (path p)).
Definition step_keys (p : PreparedFlowPath) : list jsstr := map (fun '(a, b) => pathLinkKey a b) (steps (path p)).
Definition traverses (k : jsstr) (p : PreparedFlowPath) : bool := has k (step_keys p).

(** The total of a metric over paths, added up in their order. *)
Definition total (mt : FlowMetric) (paths : list PreparedFlowPath) : jsnum :=
  fold_left num_add (map (fun p => metricValue (metrics p) mt) paths) (num 0).

Section Totals.
Context (stages : list FlowNodeKind) (stages_distinct : NoDup stages).

Lemma node_calls_of color p i :
  path_ok stages (path p) ->
  map (fun c => c.1.1.2) (of_key node_key i (node_calls color p)) = if visits i p then [metrics p] else [].
Proof.
  intros Hp. pose proof (path_ok_ids _ _ stages_distinct Hp) as Hd. unfold node_calls, visits.
  destruct (path p) as [|root t]; [done|]. cbn [head].
  apply (of_key_once node_key (fun n => (n, metrics p, color root, id root)) (fun c => c.1.1.2)); done.
Qed.

Lemma step_keys_NoDup p : path_ok stages (path p) -> NoDup (step_keys p).
Proof.
  intros [Hk Hw]. unfold step_keys.
  assert (Hs : NoDup (map kind (removelast (path p)))).
  { assert (Hd : NoDup (map kind (path p))) by (by rewrite Hk). clear Hk Hw.
    induction (path p) as [|a [|b q] IH]; [constructor..|].
    change (removelast (a :: b :: q)) with (a :: removelast (b :: q)). cbn [map] in *.
    apply NoDup_cons in Hd as [Ha Hd]. constructor; [|auto].
    intros (x & E & Hx%removelast_incl)%elem_of_map. apply Ha.
    change (kind a ∈ map kind (b :: q)). apply elem_of_map. eauto. }
  rewrite <- steps_fst, map_map in Hs.
  assert (Hw' : Forall (fun s => well_kinded s.1) (steps (path p))).
  { rewrite Forall_forall. intros [a b] (j & Ha & _)%steps_lookup.
    exact (Forall_lookup_1 _ _ _ _ Hw Ha). }
  clear Hk Hw. induction (steps (path p)) as [|[a b] l IH]; simpl in *; [constructor|].
  inversion Hw' as [|? ? Ha Hl]; subst. apply NoDup_cons in Hs as [Hn Hs]. constructor; [|auto].
  intros ([x y] & E & Hx)%elem_of_map. apply Hn, elem_of_map. exists (x, y). split; [|done].
  rewrite Forall_forall in Hl. specialize (Hl _ Hx). unfold well_kinded, pathLinkKey in *. simpl in *.
  apply kind_unit_inj. destruct (id a), (id x); simplify_eq/=; done.
Qed.

Lemma link_calls_of color p k :
  path_ok stages (path p) ->
  map (fun c => c.1.1.2) (of_key link_key k (link_calls color p)) = if traverses k p then [metrics p] else [].
Proof.
  intros Hp. pose proof (step_keys_NoDup p Hp) as Hd. unfold link_calls, traverses, step_keys in *.
  assert (E : forall root, map (fun s : FlowPathNode * FlowPathNode =>
            link_key (s, metrics p, color root, id root)) (steps (path p))
            = map (fun '(a, b) => pathLinkKey a b) (steps (path p))).
  { intros root. apply map_ext. by intros [a b]. }
  destruct (path p) as [|root t] eqn:Ep; [done|]. cbn [head]. rewrite <- Ep in *.
  rewrite <- (E root). rewrite <- (E root) in Hd.
  by apply (of_key_once link_key (fun s => (s, metrics p, color root, id root)) (fun c => c.1.1.2)).
Qed.

Context (paths : list PreparedFlowPath) (paths_ok : forall p, p ∈ paths -> path_ok stages (path p)).

(** The metrics gathered by a node and by a link. *)
Lemma node_calls_total color i :
  map (fun c => c.1.1.2) (of_key node_key i (concat (map (node_calls color) paths)))
  = map metrics (List.filter (visits i) paths).
Proof. apply of_key_concat. intros p Hp. by apply node_calls_of, paths_ok. Qed.
Lemma link_calls_total color k :
  map (fun c => c.1.1.2) (of_key link_key k (concat (map (link_calls color) paths)))
  = map metrics (List.filter (traverses k) paths).
Proof. apply of_key_concat. intros p Hp. by apply link_calls_of, paths_ok. Qed.

End Totals.

(** * The graph without its presentation *)

(** What a node and a link are apart from labels, flags, shares and shades. *)
Definition bare_node (n : DashboardFlowNode) : DashboardFlowNode :=
  FlowNode (n_id n) [] (n_kind n) (n_value n) (n_requests n) (n_quota n) (n_tokens n)
    (n_color n) (n_colorKey n) None None.
Definition bare_link (l : DashboardFlowLink) : DashboardFlowLink :=
  FlowLink (l_source l) (l_target l) (l_value l) (l_requests l) (l_quota l) (l_tokens l)
    [] [] (l_color l) [] (num 0) [] (l_colorKey l) (num 0) None None.

Lemma update_values_map {K V W} (f : V -> V) (g : V -> W) (m : jsmap K V) :
  (forall v, g (f v) = g v) -> map g (mvalues (update_values f m)) = map g (mvalues m).
Proof.
  intros H. unfold mvalues, update_values. induction m as [|[k v] m IH]; csimpl; [done|]. by rewrite H, IH.
Qed.
Lemma update_values_keys {K V} (f : V -> V) (m : jsmap K V) : (update_values f m).*1 = m.*1.
Proof. unfold update_values. induction m as [|[k v] m IH]; csimpl; [done|]. by rewrite IH. Qed.

Lemma mask_bare ns ls :
  map bare_node (mvalues (maskFlowGraphLabels ns ls).1) = map bare_node (mvalues ns) /\
  map bare_link (mvalues (maskFlowGraphLabels ns ls).2) = map bare_link (mvalues ls).
Proof.
  unfold maskFlowGraphLabels.
  set (m := fold_left _ _ _). destruct m; cbn [fst snd]; split; try done;
    apply update_values_map; intros v; by try destruct (masked_node v).
Qed.
Lemma highlight_bare ns ls hs :
  map bare_node (mvalues (applyFlowHighlights ns ls hs).1) = map bare_node (mvalues ns) /\
  map bare_link (mvalues (applyFlowHighlights ns ls hs).2) = map bare_link (mvalues ls).
Proof. destruct hs; cbn [applyFlowHighlights fst snd]; split; by try apply update_values_map. Qed.

Lemma alter_map {A B} (f : A -> A) (g : A -> B) i l :
  (forall x, g (f x) = g x) -> map g (alter f i l) = map g l.
Proof.
  intros H. revert i. induction l as [|x l IH]; intros [|i]; csimpl; [done..| |].
  - by rewrite H.
  - by rewrite IH.
Qed.

Section Graph.
Context (localeCompare : jsstr -> jsstr -> jsnum) (vchart : list DataScheme).

Lemma colors_map {B} (g : DashboardFlowLink -> B) ls :
  (forall c a h l, g (with_colors c a h l) = g l) ->
  map g (assignLinkDisplayColors localeCompare ls) = map g ls.
Proof.
  intros Hg. unfold assignLinkDisplayColors. set (groups := mvalues _). clearbody groups.
  assert (H : forall out, map g out = map g ls ->
     map g (fold_left (fun out sourceLinks =>
       let sortedLinks := sort (fun a b => link_rank_cmp localeCompare a.2 b.2) sourceLinks in
       fold_left (fun out '(rank, (i, l)) =>
            let display := alphaColor (l_color l) (shade (length sortedLinks) rank) in
            alter (with_colors display.1 display.2 (l_color l)) i out)
         (imap pair sortedLinks) out) groups out) = map g ls); [|by apply H].
  induction groups as [|grp groups IH]; intros out Ho; [done|]. cbn [fold_left]. apply IH. cbv zeta.
  set (n := length _). revert out Ho. induction (imap pair _) as [|[r [i l]] q IHq]; intros out Ho; [done|].
  cbn [fold_left]. apply IHq. rewrite alter_map by (intros; apply Hg). done.
Qed.

Context (rows : list FlowQuotaDataItem) (metric : FlowMetric) (role : FlowRole)
  (palette : option (list jsstr)) (visibleStages : option (list FlowNodeKind)) (ctx : FlowPathContext)
  (options : FlowGraphOptions).

(** The paths drawn, and the colour of a root. *)
Definition graph_stages : list FlowNodeKind := resolveVisibleStages role visibleStages.
Definition graph_tops : option (jsmap FlowNodeKind (list jsstr)) :=
  buildTopNodeSets localeCompare rows metric graph_stages (normalizeTopNodeLimit (topNodeLimit options)) ctx.
Definition graph_paths : list PreparedFlowPath :=
  preparePaths rows graph_stages ctx graph_tops
    (nullish (overflowMode options) DEFAULT_FLOW_OVERFLOW_MODE) (otherNodeLabel options).
Definition graph_color (root : FlowPathNode) : jsstr :=
  nullish (mget (id root) (stableColorMap vchart (sort localeCompare (root_ids graph_paths)) palette))
    (colorAt vchart 0 palette).
Definition graph : DashboardFlowGraph :=
  buildFlowGraph localeCompare vchart rows metric role palette visibleStages ctx options.

Abbreviation graph_nodes := (acc_nodes metric graph_color graph_paths).
Abbreviation graph_links := (acc_links metric graph_color graph_paths).

Lemma graph_bare :
  map bare_node (nodes graph) ≡ₚ map bare_node (mvalues graph_nodes) /\
  map bare_link (links graph) ≡ₚ map bare_link (mvalues graph_links).
Proof.
  unfold graph, buildFlowGraph. fold graph_stages graph_tops. fold graph_paths.
  rewrite (addPath_calls metric vchart). fold graph_color.
  set (ml := if maskSensitive options then _ else _).
  assert (Hm : map bare_node (mvalues ml.1) = map bare_node (mvalues graph_nodes) /\
               map bare_link (mvalues ml.2) = map bare_link (mvalues graph_links)).
  { unfold ml. destruct (maskSensitive options); [apply mask_bare|done]. }
  clearbody ml. destruct ml as [ns ls]. destruct Hm as [Hmn Hml].
  pose proof (highlight_bare ns ls (buildFlowHighlightSets graph_paths (activeNode options)
    (activeLink options) graph_stages)) as [Hhn Hhl].
  destruct (applyFlowHighlights ns ls _) as [ns' ls']. cbn [fst snd nodes links] in *. split.
  - rewrite <- Hmn, <- Hhn. apply Permutation_map, sort_perm.
  - rewrite colors_map by done. rewrite map_map. rewrite <- Hml, <- Hhl.
    change (fun x => bare_link (with_share _ x)) with bare_link. apply Permutation_map, sort_perm.
Qed.

Lemma graph_paths_ok p : p ∈ graph_paths -> path_ok graph_stages (path p).
Proof. apply preparePaths_ok. Qed.

(** What the nodes and links should be: every id visited, with the totals of
    the paths that visit it; every link traversed, likewise. *)
Definition totals_of (paths : list PreparedFlowPath) : jsnum * jsnum * jsnum * jsnum :=
  (total metric paths, total m_requests paths, total m_quota paths, total m_tokens paths).
Definition node_sums (n : DashboardFlowNode) : jsstr * (jsnum * jsnum * jsnum * jsnum) :=
  (n_id n, (n_value n, n_requests n, n_quota n, n_tokens n)).
Definition link_sums (l : DashboardFlowLink) : jsstr * (jsnum * jsnum * jsnum * jsnum) :=
  (linkStableKey l, (l_value l, l_requests l, l_quota l, l_tokens l)).
Definition reference_nodes (paths : list PreparedFlowPath) : list (jsstr * (jsnum * jsnum * jsnum * jsnum)) :=
  map (fun i => (i, totals_of (List.filter (visits i) paths)))
    (nub (concat (map (fun p => map id (path p)) paths))).
Definition reference_links (paths : list PreparedFlowPath) : list (jsstr * (jsnum * jsnum * jsnum * jsnum)) :=
  map (fun k => (k, totals_of (List.filter (traverses k) paths)))
    (nub (concat (map step_keys paths))).

Lemma node_add_fold cs n :
  node_sums (fold_left (node_add metric) cs n) =
  (n_id n, (fold_left num_add (map (fun m => metricValue m metric) (map (fun c : node_call => c.1.1.2) cs)) (n_value n),
            fold_left num_add (map fm_requests (map (fun c : node_call => c.1.1.2) cs)) (n_requests n),
            fold_left num_add (map fm_quota (map (fun c : node_call => c.1.1.2) cs)) (n_quota n),
            fold_left num_add (map fm_tokens (map (fun c : node_call => c.1.1.2) cs)) (n_tokens n))).
Proof. revert n. induction cs as [|c cs IH]; intros n; [done|]. cbn [fold_left map]. by rewrite IH. Qed.
Lemma link_add_fold cs l :
  link_sums (fold_left (link_add metric) cs l) =
  (linkStableKey l,
   (fold_left num_add (map (fun m => metricValue m metric) (map (fun c : link_call => c.1.1.2) cs)) (l_value l),
    fold_left num_add (map fm_requests (map (fun c : link_call => c.1.1.2) cs)) (l_requests l),
    fold_left num_add (map fm_quota (map (fun c : link_call => c.1.1.2) cs)) (l_quota l),
    fold_left num_add (map fm_tokens (map (fun c : link_call => c.1.1.2) cs)) (l_tokens l))).
Proof. revert l. induction cs as [|c cs IH]; intros l; [done|]. cbn [fold_left map]. by rewrite IH. Qed.

Lemma totals_of_metrics paths :
  totals_of paths =
  (fold_left num_add (map (fun m => metricValue m metric) (map metrics paths)) (num 0),
   fold_left num_add (map fm_requests (map metrics paths)) (num 0),
   fold_left num_add (map fm_quota (map metrics paths)) (num 0),
   fold_left num_add (map fm_tokens (map metrics paths)) (num 0)).
Proof. unfold totals_of, total. by rewrite !map_map. Qed.

Lemma graph_node_entry i n :
  (i, n) ∈ graph_nodes -> node_sums n = (i, totals_of (List.filter (visits i) graph_paths)).
Proof.
  intros H%accumulate_entry. rewrite totals_of_metrics.
  rewrite <- (node_calls_total graph_stages (stages_NoDup _ _) graph_paths graph_paths_ok graph_color).
  destruct (of_key node_key i _) as [|c cs] eqn:E; [done|]. injection H as <-.
  change (fold_left (node_add metric) cs (node_add metric (node_start c) c))
    with (fold_left (node_add metric) (c :: cs) (node_start c)).
  rewrite node_add_fold. cbn [node_start n_id n_value n_requests n_quota n_tokens]. f_equal.
  assert (Hc : c ∈ of_key node_key i (concat (map (node_calls graph_color) graph_paths))) by (rewrite E; left).
  by apply elem_of_bfilter in Hc as [_ ?%bool_decide_eq_true].
Qed.
Lemma graph_link_entry k l :
  (k, l) ∈ graph_links -> link_sums l = (k, totals_of (List.filter (traverses k) graph_paths)).
Proof.
  intros H%accumulate_entry. rewrite totals_of_metrics.
  rewrite <- (link_calls_total graph_stages (stages_NoDup _ _) graph_paths graph_paths_ok graph_color).
  destruct (of_key link_key k _) as [|c cs] eqn:E; [done|]. injection H as <-.
  change (fold_left (link_add metric) cs (link_add metric (link_start c) c))
    with (fold_left (link_add metric) (c :: cs) (link_start c)).
  rewrite link_add_fold.
  assert (Hc : c ∈ of_key link_key k (concat (map (link_calls graph_color) graph_paths))) by (rewrite E; left).
  apply elem_of_bfilter in Hc as [_ <-%bool_decide_eq_true]. by destruct c as [[[[a b] mt] co] ck].
Qed.

(** The keys of the two maps. *)
Lemma node_calls_keys color p : map node_key (node_calls color p) = map id (path p).
Proof. unfold node_calls. destruct (path p) as [|root t]; [done|]. cbn [head]. by rewrite map_map. Qed.
Lemma link_calls_keys color p : map link_key (link_calls color p) = step_keys p.
Proof.
  unfold link_calls, step_keys. destruct (path p) as [|root t]; [done|]. cbn [head]. rewrite map_map.
  apply map_ext. by intros [a b].
Qed.
Lemma map_concat_map {A B C} (g : B -> C) (f : A -> list B) l : map g (concat (map f l)) = concat (map (fun x => map g (f x)) l).
Proof. by rewrite concat_map, map_map. Qed.

Lemma graph_node_keys : graph_nodes.*1 ≡ₚ nub (concat (map (fun p => map id (path p)) graph_paths)).
Proof.
  apply NoDup_Permutation; [apply accumulate_NoDup|apply nub_NoDup|]. intros i. rewrite elem_of_nub.
  unfold acc_nodes. rewrite accumulate_keys_elem, map_concat_map.
  by rewrite (map_ext _ _ (node_calls_keys graph_color)).
Qed.
Lemma graph_link_keys : graph_links.*1 ≡ₚ nub (concat (map step_keys graph_paths)).
Proof.
  apply NoDup_Permutation; [apply accumulate_NoDup|apply nub_NoDup|]. intros i. rewrite elem_of_nub.
  unfold acc_links. rewrite accumulate_keys_elem, map_concat_map.
  by rewrite (map_ext _ _ (link_calls_keys graph_color)).
Qed.

Lemma mvalues_map_keys {K V B} (m : jsmap K V) (g : V -> B) (h : K -> B) :
  (forall k v, (k, v) ∈ m -> g v = h k) -> map g (mvalues m) = map h m.*1.
Proof.
  unfold mvalues. induction m as [|[k v] m IH]; intros H; csimpl; [done|].
  rewrite (H k v) by left. f_equal. apply IH. intros; apply H; by right.
Qed.

Lemma graph_nodes_sums : map node_sums (nodes graph) ≡ₚ reference_nodes graph_paths.
Proof.
  destruct graph_bare as [H _].
  assert (E : forall l, map node_sums l = map node_sums (map bare_node l)) by (intros; by rewrite map_map).
  rewrite E, H, <- E. unfold reference_nodes. rewrite <- graph_node_keys.
  erewrite mvalues_map_keys; [done|]. exact graph_node_entry.
Qed.
Lemma graph_links_sums : map link_sums (links graph) ≡ₚ reference_links graph_paths.
Proof.
  destruct graph_bare as [_ H].
  assert (E : forall l, map link_sums l = map link_sums (map bare_link l)) by (intros; by rewrite map_map).
  rewrite E, H, <- E. unfold reference_links. rewrite <- graph_link_keys.
  erewrite mvalues_map_keys; [done|]. exact graph_link_entry.
Qed.

(** The ids and the keys of links are distinct. *)
Lemma graph_ids_NoDup : NoDup (map n_id (nodes graph)).
Proof.
  assert (E : map n_id (nodes graph) = map fst (map node_sums (nodes graph))) by (by rewrite map_map).
  rewrite E, graph_nodes_sums. unfold reference_nodes. rewrite map_map, map_id. apply nub_NoDup.
Qed.
Lemma graph_keys_NoDup : NoDup (map linkStableKey (links graph)).
Proof.
  assert (E : map linkStableKey (links graph) = map fst (map link_sums (links graph))) by (by rewrite map_map).
  rewrite E, graph_links_sums. unfold reference_links. rewrite map_map, map_id. apply nub_NoDup.
Qed.
Lemma graph_link_value l : l ∈ links graph -> l_value l = total metric (List.filter (traverses (linkStableKey l)) graph_paths).
Proof.
  intros Hl. assert (H : link_sums l ∈ map link_sums (links graph)) by (apply elem_of_map; eauto).
  rewrite graph_links_sums in H. apply elem_of_map in H as (k & E & _).
  unfold link_sums, totals_of in E. by injection E as -> -> _ _ _.
Qed.

(** C3: the loops that build the graph compute its declarative definition: the
    nodes are exactly the ids on the prepared paths, each once, and carry the
    totals of value, requests, quota and tokens over the paths through them,
    added in row order; the links are exactly the pairs of neighbours on the
    paths, each once, with the totals over the paths that take them.  The sums
    are equal as Numbers, rounding included, whatever the options and the
    locale. *)
Theorem flow_graph_totals :
  let g := buildFlowGraph localeCompare vchart rows metric role palette visibleStages ctx options in
  map node_sums (nodes g) ≡ₚ reference_nodes graph_paths /\
  map link_sums (links g) ≡ₚ reference_links graph_paths.
Proof. exact (conj graph_nodes_sums graph_links_sums). Qed.

(** ** Kinds *)

Lemma node_calls_in color p c : c ∈ node_calls color p -> c.1.1.1 ∈ path p.
Proof.
  unfold node_calls. destruct (path p) as [|root t]; [by intros ?%elem_of_nil|]. cbn [head].
  by intros (n & -> & Hn)%elem_of_map.
Qed.
Lemma link_calls_in color p c : c ∈ link_calls color p -> c.1.1.1 ∈ steps (path p).
Proof.
  unfold link_calls. destruct (path p) as [|root t]; [by intros ?%elem_of_nil|]. cbn [head].
  by intros (n & -> & Hn)%elem_of_map.
Qed.

(** A node of the graph stands for a node of a path. *)
Definition stands_for (i : jsstr) (n : DashboardFlowNode) : Prop :=
  exists p x, p ∈ graph_paths /\ x ∈ path p /\ id x = i /\ n_id n = i /\ n_kind n = kind x.
Lemma graph_node_kind i n : (i, n) ∈ graph_nodes -> stands_for i n.
Proof.
  apply accumulate_ind.
  - intros c (p & Hp & Hc%node_calls_in)%elem_of_concat_map. exists p, c.1.1.1. done.
  - intros c w _ (p & x & Hp & Hx & E & Ew & Ek). by exists p, x.
Qed.
(** A link of the graph stands for a step of a path. *)
Definition stands_for_step (k : jsstr) (l : DashboardFlowLink) : Prop :=
  exists p a b, p ∈ graph_paths /\ (a, b) ∈ steps (path p) /\ l_source l = id a /\ l_target l = id b /\
                k = pathLinkKey a b.
Lemma graph_link_step k l : (k, l) ∈ graph_links -> stands_for_step k l.
Proof.
  apply accumulate_ind.
  - intros [[[[a b] mt] co] ck] (p & Hp & Hc%link_calls_in)%elem_of_concat_map. by exists p, a, b.
  - intros c w _ (p & a & b & Hp & Hx & E & Ew & Ek). by exists p, a, b.
Qed.

Lemma graph_node_in n : n ∈ nodes graph -> stands_for (n_id n) n.
Proof.
  intros H. assert (Hb : bare_node n ∈ map bare_node (nodes graph)) by (apply elem_of_map; eauto).
  rewrite (proj1 graph_bare) in Hb. apply elem_of_map in Hb as (n' & E & Hn').
  apply list_elem_of_fmap in Hn' as ([i n''] & -> & Hn'). simpl in E.
  destruct (graph_node_kind _ _ Hn') as (p & x & Hp & Hx & Ei & En & Ek).
  injection E as Eid Ekind _ _ _ _ _ _. exists p, x. repeat split; congruence.
Qed.
Lemma graph_node_of p x : p ∈ graph_paths -> x ∈ path p -> exists n, n ∈ nodes graph /\ n_id n = id x /\ n_kind n = kind x.
Proof.
  intros Hp Hx.
  assert (Hi : id x ∈ graph_nodes.*1).
  { rewrite graph_node_keys, elem_of_nub. apply elem_of_concat_map. exists p. split; [done|].
    apply elem_of_map; eauto. }
  apply list_elem_of_fmap in Hi as ([i n] & E & Hn). simpl in E. subst i.
  destruct (graph_node_kind _ _ Hn) as (q & y & Hq & Hy & Ei & En & Ek).
  assert (Hb : bare_node n ∈ map bare_node (mvalues graph_nodes)).
  { apply elem_of_map. exists n. split; [done|]. apply list_elem_of_fmap. by exists (id x, n). }
  rewrite <- (proj1 graph_bare) in Hb. apply elem_of_map in Hb as (n' & E & Hn').
  injection E as Eid Ekind _ _ _ _ _ _. exists n'. split; [done|]. split; [congruence|].
  destruct (graph_paths_ok _ Hp) as [_ Hwp]. destruct (graph_paths_ok _ Hq) as [_ Hwq].
  rewrite Forall_forall in Hwp. rewrite Forall_forall in Hwq.
  rewrite <- Ekind, Ek. apply well_kinded_same_id; auto.
Qed.
Lemma graph_link_in l : l ∈ links graph -> stands_for_step (linkStableKey l) l.
Proof.
  intros H. assert (Hb : bare_link l ∈ map bare_link (links graph)) by (apply elem_of_map; eauto).
  rewrite (proj2 graph_bare) in Hb. apply elem_of_map in Hb as (l' & E & Hl').
  apply list_elem_of_fmap in Hl' as ([k l''] & -> & Hl'). simpl in E.
  destruct (graph_link_step _ _ Hl') as (p & a & b & Hp & Hx & Es & Et & Ek).
  injection E as Esrc Etgt _ _ _ _ _ _. exists p, a, b.
  unfold linkStableKey, pathLinkKey. rewrite Esrc, Etgt, Es, Et. done.
Qed.

Lemma graph_stages_two : 2 <= length graph_stages.
Proof.
  unfold graph_stages, resolveVisibleStages.
  destruct visibleStages as [v|]; [|by destruct role; simpl; lia].
  destruct (Nat.leb_spec MIN_FLOW_STAGES (length (List.filter (fun s => has s v) (getFlowStages role)))) as [H|H];
    [exact H|]. destruct role; simpl; lia.
Qed.

(** C6: the graph is well formed: its stages are at least two distinct stages of
    the role, no id and no pair of ends occurs twice, every node is of a stage
    shown, and every link leads from a node of one stage to a node of the next,
    both of them nodes of the graph; so the chart has no cycle and no dangling
    end. *)
Theorem flow_graph_typed :
  let g := buildFlowGraph localeCompare vchart rows metric role palette visibleStages ctx options in
  let stages := resolveVisibleStages role visibleStages in
  (NoDup stages /\ 2 <= length stages /\ stages `sublist_of` getFlowStages role) /\
  (NoDup (map n_id (nodes g)) /\ NoDup (map (fun l => (l_source l, l_target l)) (links g))) /\
  (forall n, n ∈ nodes g -> n_kind n ∈ stages) /\
  (forall l, l ∈ links g -> exists a b i,
     a ∈ nodes g /\ b ∈ nodes g /\ n_id a = l_source l /\ n_id b = l_target l /\
     stages !! i = Some (n_kind a) /\ stages !! S i = Some (n_kind b)).
Proof.
  cbv zeta. fold graph graph_stages. split; [|split; [|split]].
  - split; [apply stages_NoDup|]. split; [apply graph_stages_two|].
    unfold graph_stages, resolveVisibleStages. destruct visibleStages as [v|]; [|done].
    destruct (_ <=? _); [|done].
    apply sublist_bfilter.
  - split.
    + apply graph_ids_NoDup.
    + apply (NoDup_fmap_1 (fun '(a, b) => a ++ nul :: b)).
      change (NoDup (map (fun '(a, b) => a ++ nul :: b) (map (fun l => (l_source l, l_target l)) (links graph)))).
      rewrite map_map. apply graph_keys_NoDup.
  - intros n (p & x & Hp & Hx & _ & _ & ->)%graph_node_in.
    destruct (graph_paths_ok _ Hp) as [<- _]. apply elem_of_map; eauto.
  - intros l (p & a & b & Hp & (i & Ha & Hb)%steps_lookup & Es & Et & _)%graph_link_in.
    destruct (graph_node_of p a Hp) as (na & Hna & Eia & Eka); [by eapply list_elem_of_lookup_2|].
    destruct (graph_node_of p b Hp) as (nb & Hnb & Eib & Ekb); [by eapply list_elem_of_lookup_2|].
    exists na, nb, i. rewrite Es, Et, Eka, Ekb. destruct (graph_paths_ok _ Hp) as [<- _].
    repeat split; try done; change (map kind (path p)) with (kind <$> path p); by rewrite list_lookup_fmap, ?Ha, ?Hb.
Qed.

(** ** Whole numbers *)

(** The integer of a Number, and of a metric. *)
Definition int_of (x : jsnum) : Z :=
  match x with S754_finite s m e => floor_Z s m e | _ => 0%Z end.
Definition count_of (m : FlowMetrics) : Z := int_of (metricValue m metric).

(** Metrics that are natural numbers with a total in the safe range. *)
Definition whole (ms : list FlowMetrics) : Prop :=
  Forall (fun m => metricValue m metric = num (count_of m) /\ 0 <= count_of m)%Z ms /\
  (zsum (map count_of ms) < 2 ^ 53)%Z.

Lemma whole_nonneg ms : whole ms -> Forall (Z.le 0) (map count_of ms).
Proof. intros [H _]. rewrite Forall_forall in H. rewrite Forall_forall. intros z (m & -> & Hm)%elem_of_map. by apply H. Qed.
Lemma zsum_sublist k l : k `sublist_of` l -> Forall (Z.le 0) l -> (zsum k <= zsum l)%Z.
Proof.
  induction 1 as [|z k l _ IH|z k l _ IH]; intros H; [done| |];
    inversion H as [|? ? Hz Hl]; subst; rewrite !zsum_cons; specialize (IH Hl); lia.
Qed.
Lemma whole_sublist k l : k `sublist_of` l -> whole l -> whole k.
Proof.
  intros Hs Hw. pose proof (whole_nonneg l Hw) as Hn. destruct Hw as [Hf Ht]. split.
  - by eapply sublist_Forall.
  - eapply Z.le_lt_trans; [|exact Ht]. apply zsum_sublist; [|done].
    by apply sublist_map.
Qed.
Lemma total_whole paths :
  whole (map metrics paths) -> total metric paths = num (zsum (map (fun p => count_of (metrics p)) paths)).
Proof.
  intros Hw. pose proof (whole_nonneg _ Hw) as Hn. destruct Hw as [Hf Ht]. unfold total.
  rewrite map_map in Hn, Ht.
  assert (E : map (fun p => metricValue (metrics p) metric) paths
              = map num (map (fun p => count_of (metrics p)) paths)).
  { rewrite map_map. apply map_ext_in. intros p Hp%list_elem_of_In. rewrite Forall_forall in Hf.
    apply Hf, elem_of_map; eauto. }
  rewrite E, num_sum_exact by (done || lia). done.
Qed.

(** Counting pairs from either side. *)
Lemma double_count {K P} (z : P -> Z) (t : K -> P -> bool) ks paths :
  zsum (map (fun k => zsum (map z (List.filter (t k) paths))) ks)
  = zsum (map (fun p => z p * Z.of_nat (length (List.filter (fun k => t k p) ks)))%Z paths).
Proof.
  induction ks as [|k ks IH].
  - simpl. induction paths as [|p paths IHp]; [done|]. cbn [map]. rewrite zsum_cons, <- IHp. simpl. lia.
  - cbn [map]. rewrite zsum_cons, IH. clear IH. induction paths as [|p paths IHp]; [done|].
    rewrite !(map_cons _ p), !zsum_cons, <- IHp. cbn [List.filter].
    destruct (t k p); rewrite ?map_cons, ?zsum_cons; cbn [length]; lia.
Qed.

(** A duplicate-free list whose members that pass a test are one element. *)
Lemma filter_one {K} (f : K -> bool) (b : bool) ks :
  NoDup ks -> (b = true -> exists k, k ∈ ks /\ f k = true) ->
  (forall k k', k ∈ ks -> k' ∈ ks -> f k = true -> f k' = true -> k = k' /\ b = true) ->
  length (List.filter f ks) = if b then 1 else 0.
Proof.
  intros Hd He Hu. destruct b.
  - destruct (He eq_refl) as (k & Hk & Hf). clear He. induction ks as [|x ks IH]; [by apply elem_of_nil in Hk|].
    apply NoDup_cons in Hd as [Hx Hd]. simpl. destruct (f x) eqn:Ex; simpl.
    + f_equal. rewrite bfilter_none; [done|]. intros y Hy. destruct (f y) eqn:Ey; [|done].
      destruct (Hu x y) as [-> _]; [left|by right|done|done|done].
    + apply elem_of_cons in Hk as [->|Hk]; [congruence|]. apply IH; [done| |done].
      intros y y' Hy Hy'; apply Hu; by right.
  - rewrite bfilter_none; [done|]. intros y Hy. destruct (f y) eqn:Ey; [|done].
    by destruct (Hu y y).
Qed.

(** The sum of values that each total a part of the paths: when every path is
    counted once if it passes the test and not at all otherwise, the sum is
    the total of the paths that pass. *)
Lemma parts_total {K} (t : K -> PreparedFlowPath -> bool) (f : PreparedFlowPath -> bool) ks paths :
  whole (map metrics paths) ->
  (forall p, p ∈ paths -> length (List.filter (fun k => t k p) ks) = if f p then 1 else 0) ->
  fold_left num_add (map (fun k => total metric (List.filter (t k) paths)) ks) (num 0)
  = total metric (List.filter f paths).
Proof.
  intros Hw Hc.
  assert (Hsub : forall g, whole (map metrics (List.filter g paths))).
  { intros g. eapply whole_sublist; [|exact Hw].
    apply sublist_map, sublist_bfilter. }
  set (z p := count_of (metrics p)).
  assert (E : map (fun k => total metric (List.filter (t k) paths)) ks
              = map num (map (fun k => zsum (map z (List.filter (t k) paths))) ks)).
  { rewrite map_map. apply map_ext. intros k. by apply total_whole. }
  assert (Ez : zsum (map (fun k => zsum (map z (List.filter (t k) paths))) ks) = zsum (map z (List.filter f paths))).
  { rewrite double_count. clear -Hc. induction paths as [|p l IH]; [done|]. cbn [map List.filter].
    rewrite zsum_cons, (Hc p) by left.
    rewrite IH by (intros; apply Hc; by right). destruct (f p); cbn [map]; rewrite ?zsum_cons; lia. }
  rewrite E, num_sum_exact, total_whole, Ez; [done|done|lia| |].
  - rewrite Forall_forall. intros y (k & -> & _)%elem_of_map. apply zsum_nonneg.
    pose proof (whole_nonneg _ (Hsub (t k))) as H. by rewrite map_map in H.
  - rewrite Ez. destruct (Hsub f) as [_ H]. rewrite map_map in H. unfold z. lia.
Qed.

Lemma prepared_sublist rs stages ts mode lab :
  map metrics (preparePaths rs stages ctx ts mode lab) `sublist_of` map rowMetrics rs.
Proof.
  unfold preparePaths. induction rs as [|row rs IH]; [done|]. cbn [omap list_omap map].
  destruct (applyTopNodeLimit _ _ _ _) as [p|]; simpl; by constructor.
Qed.
Lemma graph_whole : whole (map rowMetrics rows) -> whole (map metrics graph_paths).
Proof. apply whole_sublist, prepared_sublist. Qed.

(** ** Conservation *)

(** No id of a row has the unit that separates the ends in the key of a link. *)
Definition nul_free : Prop :=
  Forall (fun row => Forall (fun k => nul ∉ id (NODE_BUILDERS k row ctx)) FLOW_NODE_KINDS) rows.

Lemma all_kinds k : k ∈ FLOW_NODE_KINDS.
Proof. destruct k; set_solver. Qed.
Lemma graph_nul_free p x : nul_free -> p ∈ graph_paths -> x ∈ path p -> nul ∉ id x.
Proof.
  intros Hn Hp Hx. unfold graph_paths, preparePaths in Hp.
  apply list_elem_of_omap in Hp as (row & Hrow & E).
  apply bind_Some in E as (q & Hq & [= <-]). simpl in Hx.
  unfold nul_free in Hn. rewrite Forall_forall in Hn. specialize (Hn _ Hrow). rewrite Forall_forall in Hn.
  assert (Hpath : forall y, y ∈ flowPathForStages row graph_stages ctx -> nul ∉ id y).
  { intros y (k & -> & _)%elem_of_map. apply Hn, all_kinds. }
  unfold applyTopNodeLimit in Hq. destruct graph_tops as [ts|]; [|injection Hq as <-; auto].
  destruct (existsb _ _); [|injection Hq as <-; auto]. destruct (nullish _ _); [|done]. injection Hq as <-.
  apply elem_of_map in Hx as (y & -> & Hy). destruct (isTopFlowNode y _); [auto|].
  destruct (kind y); simpl; set_solver.
Qed.

Lemma nul_split a b c d : nul ∉ a -> nul ∉ c -> a ++ nul :: b = c ++ nul :: d -> a = c /\ b = d.
Proof.
  revert c. induction a as [|x a IH]; intros [|y c] Ha Hc E; simplify_eq/=; [done|set_solver|set_solver|].
  destruct (IH c); [set_solver..|done|]. by subst.
Qed.

Section Conservation.
Context (rows_whole : whole (map rowMetrics rows)) (rows_nul_free : nul_free).

(** One end of a step and of a link. *)
Definition step_end (out : bool) (s : FlowPathNode * FlowPathNode) : jsstr := if out then id s.1 else id s.2.
Definition link_end (out : bool) (l : DashboardFlowLink) : jsstr := if out then l_source l else l_target l.

(** A link of the graph that a path traverses is a step of the path. *)
Lemma traversed_step l p :
  l ∈ links graph -> p ∈ graph_paths -> linkStableKey l ∈ step_keys p ->
  exists s, s ∈ steps (path p) /\ linkStableKey l = pathLinkKey s.1 s.2 /\ forall out, link_end out l = step_end out s.
Proof.
  intros Hl Hp ([a b] & Ek & Hs)%elem_of_map. exists (a, b). split; [done|]. split; [done|].
  destruct (graph_link_in l Hl) as (q & a' & b' & Hq & Hs' & Esrc & Etgt & _).
  destruct (steps_lookup _ _ _ Hs) as (i & Ha & _). destruct (steps_lookup _ _ _ Hs') as (j & Ha' & _).
  unfold linkStableKey in Ek. rewrite Esrc, Etgt in Ek.
  assert (Hn : nul ∉ id a') by (apply (graph_nul_free q); [done..|by eapply list_elem_of_lookup_2]).
  assert (Hn' : nul ∉ id a) by (apply (graph_nul_free p); [done..|by eapply list_elem_of_lookup_2]).
  destruct (nul_split _ _ _ _ Hn Hn' Ek) as [E1 E2].
  intros [|]; simpl; congruence.
Qed.
Lemma step_link s p :
  p ∈ graph_paths -> s ∈ steps (path p) -> exists l, l ∈ links graph /\ linkStableKey l = pathLinkKey s.1 s.2.
Proof.
  intros Hp Hs. destruct s as [a b].
  assert (Hk : pathLinkKey a b ∈ map fst (map link_sums (links graph))).
  { rewrite graph_links_sums. unfold reference_links. rewrite map_map, map_id, elem_of_nub.
    apply elem_of_concat_map. exists p. split; [done|]. apply elem_of_map. by exists (a, b). }
  rewrite map_map in Hk. apply elem_of_map in Hk as (l & E & Hl). exists l. by split.
Qed.

(** The ends of the steps of a path on one side are distinct. *)
Lemma step_end_inj out p s s' :
  p ∈ graph_paths -> s ∈ steps (path p) -> s' ∈ steps (path p) -> step_end out s = step_end out s' -> s = s'.
Proof.
  intros Hp Hs Hs' E. pose proof (path_ok_ids _ _ (stages_NoDup _ _) (graph_paths_ok _ Hp)) as Hd.
  destruct s as [a b], s' as [a' b'].
  destruct (steps_lookup _ _ _ Hs) as (i & Ha & Hb). destruct (steps_lookup _ _ _ Hs') as (j & Ha' & Hb').
  assert (Hl : forall k x, path p !! k = Some x -> map id (path p) !! k = Some (id x)).
  { intros k x Hx. change (map id (path p)) with (id <$> path p). by rewrite list_lookup_fmap, Hx. }
  assert (i = j) as <-.
  { destruct out; simpl in E.
    - eapply NoDup_lookup; [exact Hd|by apply Hl|]. rewrite E. by apply Hl.
    - apply (NoDup_lookup _ (S i) (S j) (id b)) in Hd; [lia|by apply Hl|]. rewrite E. by apply Hl. }
  congruence.
Qed.

(** The links at one end of an id carry the total of the paths that have the
    id at that end of a step. *)
Lemma side_total out i :
  fold_left num_add (map l_value (List.filter (fun l => str_eqb (link_end out l) i) (links graph))) (num 0)
  = total metric (List.filter (fun p => has i (map (step_end out) (steps (path p)))) graph_paths).
Proof.
  set (ls := List.filter (fun l => str_eqb (link_end out l) i) (links graph)).
  assert (Hls : forall l, l ∈ ls -> l ∈ links graph /\ link_end out l = i).
  { intros l [Hl E%str_eqb_true]%elem_of_bfilter. done. }
  assert (Hd : NoDup (map linkStableKey ls)).
  { eapply sublist_NoDup; [apply graph_keys_NoDup|]. apply sublist_map, sublist_bfilter. }
  rewrite <- (parts_total traverses _ (map linkStableKey ls)).
  - rewrite map_map. f_equal. apply map_ext_in. intros l Hl%list_elem_of_In.
    by apply graph_link_value, Hls.
  - by apply graph_whole.
  - intros p Hp. apply filter_one; [done| |].
    + intros (s & -> & Hs)%has_spec%elem_of_map.
      destruct (step_link s p Hp Hs) as (l & Hl & Ek). exists (linkStableKey l).
      assert (Ht : linkStableKey l ∈ step_keys p) by (rewrite Ek; apply elem_of_map; exists s; by destruct s).
      split; [|by apply has_spec]. apply elem_of_map. exists l. split; [done|].
      apply elem_of_bfilter. split; [done|]. apply str_eqb_true.
      destruct (traversed_step l p Hl Hp Ht) as (s' & Hs' & Ek' & E). rewrite E. f_equal.
      apply (NoDup_map_inj (fun '(a, b) => pathLinkKey a b) (steps (path p)));
        [apply (step_keys_NoDup _ (stages_NoDup role visibleStages) p); by apply graph_paths_ok|done|done|].
      destruct s, s'. simpl in *. congruence.
    + intros k k' (l & -> & [Hl El]%Hls)%elem_of_map (l' & -> & [Hl' El']%Hls)%elem_of_map Ht%has_spec Ht'%has_spec.
      destruct (traversed_step l p Hl Hp Ht) as (s & Hs & Ek & E).
      destruct (traversed_step l' p Hl' Hp Ht') as (s' & Hs' & Ek' & E').
      assert (s = s') as <- by (apply (step_end_inj out p); [done..|]; rewrite <- E, <- E'; congruence).
      split; [congruence|]. apply has_spec, elem_of_map. exists s. by rewrite <- E.
Qed.
End Conservation.

Lemma bfilter_ext_on {A} (f g : A -> bool) l : (forall x, x ∈ l -> f x = g x) -> List.filter f l = List.filter g l.
Proof.
  induction l as [|x l IH]; intros H; simpl; [done|].
  rewrite (H x), IH; [done| |left]. intros; apply H; by right.
Qed.
Lemma has_ext {A} `{EqDecision A} (x : A) l k : (x ∈ l <-> x ∈ k) -> has x l = has x k.
Proof. intros H. by apply bool_decide_ext. Qed.

Lemma graph_node_value n : n ∈ nodes graph -> n_value n = total metric (List.filter (visits (n_id n)) graph_paths).
Proof.
  intros Hn. assert (H : node_sums n ∈ map node_sums (nodes graph)) by (apply elem_of_map; eauto).
  rewrite graph_nodes_sums in H. apply elem_of_map in H as (i & E & _).
  unfold node_sums, totals_of in E. by injection E as -> -> _ _ _.
Qed.

(** The node of a path with the id of a node of the graph is of its kind. *)
Lemma visited_kind n p x : n ∈ nodes graph -> p ∈ graph_paths -> x ∈ path p -> id x = n_id n -> kind x = n_kind n.
Proof.
  intros (q & y & Hq & Hy & Ei & _ & ->)%graph_node_in Hp Hx E.
  destruct (graph_paths_ok _ Hp) as [_ Hwp]. destruct (graph_paths_ok _ Hq) as [_ Hwq].
  rewrite Forall_forall in Hwp. rewrite Forall_forall in Hwq. apply well_kinded_same_id; auto. congruence.
Qed.
Lemma last_or_removelast {A} (p : list A) x : x ∈ p -> x ∈ removelast p \/ last p = Some x.
Proof.
  induction p as [|a [|b p] IH]; [by intros ?%elem_of_nil|intros ->%list_elem_of_singleton; by right|].
  change (removelast (a :: b :: p)) with (a :: removelast (b :: p)).
  change (last (a :: b :: p)) with (last (b :: p)).
  intros [->|H]%elem_of_cons; [left; left|]. destruct (IH H); [left; by right|by right].
Qed.

Lemma source_side n p :
  n ∈ nodes graph -> p ∈ graph_paths -> Some (n_kind n) <> last graph_stages ->
  has (n_id n) (map (step_end true) (steps (path p))) = visits (n_id n) p.
Proof.
  intros Hn Hp Hl. unfold visits. apply has_ext.
  replace (map (step_end true) (steps (path p))) with (map id (removelast (path p)))
    by (rewrite <- steps_fst, map_map; done).
  rewrite !elem_of_map. split.
  - intros (x & E & Hx%removelast_incl). eauto.
  - intros (x & E & Hx). exists x. split; [done|].
    destruct (last_or_removelast _ _ Hx) as [|Hlast]; [done|]. destruct Hl.
    rewrite <- (visited_kind n p x) by done. destruct (graph_paths_ok _ Hp) as [<- _].
    change (map kind (path p)) with (kind <$> path p). by rewrite fmap_last, Hlast.
Qed.
Lemma target_side n p :
  n ∈ nodes graph -> p ∈ graph_paths -> Some (n_kind n) <> head graph_stages ->
  has (n_id n) (map (step_end false) (steps (path p))) = visits (n_id n) p.
Proof.
  intros Hn Hp Hl. unfold visits. apply has_ext.
  replace (map (step_end false) (steps (path p))) with (map id (tail (path p)))
    by (rewrite <- steps_snd, map_map; done).
  rewrite !elem_of_map. pose proof (graph_paths_ok _ Hp) as [Hk _]. destruct (path p) as [|a q] eqn:Ep; [done|].
  split; intros (x & E & Hx); exists x; (split; [done|]); [by right|].
  apply elem_of_cons in Hx as [->|Hx]; [|done]. destruct Hl.
  rewrite <- (visited_kind n p a), <- Hk; [done|done|done|rewrite Ep; left|done].
Qed.

(** C4: what flows into a node flows out of it.  For a metric that counts whole
    units with a total below 2^53, the values of the links that leave a node
    of any stage but the last add up to the value of the node, and so do those
    of the links that enter a node of any stage but the first; the additions
    are exact, in whatever order the locale sorts the links. *)
Theorem flow_conserved n :
  let g := buildFlowGraph localeCompare vchart rows metric role palette visibleStages ctx options in
  let stages := resolveVisibleStages role visibleStages in
  whole (map rowMetrics rows) -> nul_free -> n ∈ nodes g ->
  (Some (n_kind n) <> last stages ->
   fold_left num_add (map l_value (List.filter (fun l => str_eqb (l_source l) (n_id n)) (links g))) (num 0) = n_value n) /\
  (Some (n_kind n) <> head stages ->
   fold_left num_add (map l_value (List.filter (fun l => str_eqb (l_target l) (n_id n)) (links g))) (num 0) = n_value n).
Proof.
  cbv zeta. fold graph graph_stages. intros Hw Hnul Hn. rewrite (graph_node_value n Hn).
  split; intros Hl;
    (etransitivity; [first [exact (side_total Hw Hnul true _) | exact (side_total Hw Hnul false _)]|]);
    f_equal; apply bfilter_ext_on; intros p Hp; [by apply source_side|by apply target_side].
Qed.

(** ** Totals of a stage *)

Lemma unlimited_metrics :
  graph_tops = None \/ overflowMode options <> Some hide -> map metrics graph_paths = map rowMetrics rows.
Proof.
  intros H. unfold graph_paths, preparePaths. generalize rows at 1 2 as rs.
  induction rs as [|row rs IH]; [done|]. cbn [omap list_omap map]. rewrite <- IH.
  assert (E : exists q, applyTopNodeLimit (flowPathForStages row graph_stages ctx) graph_tops
     (nullish (overflowMode options) DEFAULT_FLOW_OVERFLOW_MODE) (otherNodeLabel options) = Some q).
  { unfold applyTopNodeLimit. destruct graph_tops as [ts|]; [|eauto]. destruct (existsb _ _); [|eauto].
    destruct H as [|H]; [done|]. destruct (overflowMode options) as [[|]|]; simpl; eauto. done. }
  destruct E as [q ->]. done.
Qed.

(** The figure of the summary for a metric. *)
Definition summary_value (s : FlowSummary) : jsnum :=
  match metric with m_quota => su_quota s | m_tokens => su_tokens s | m_requests => su_requests s end.

Lemma buildSummary_total rs :
  summary_value (buildSummary rs) = fold_left num_add (map (fun m => metricValue m metric) (map rowMetrics rs)) (num 0).
Proof.
  unfold buildSummary. rewrite map_map.
  set (f := fun s row => _).
  assert (H : forall s, summary_value (fold_left f rs s)
              = fold_left num_add (map (fun row => metricValue (rowMetrics row) metric) rs) (summary_value s)).
  { unfold f. induction rs as [|row rs IH]; intros s; [done|]. cbn [fold_left map]. rewrite IH.
    f_equal. unfold summary_value. by destruct metric. }
  rewrite H. f_equal. unfold summary_value. by destruct metric.
Qed.

Lemma stage_total k :
  whole (map rowMetrics rows) -> k ∈ graph_stages ->
  fold_left num_add (map n_value (List.filter (fun n => bool_decide (n_kind n = k)) (nodes graph))) (num 0)
  = total metric graph_paths.
Proof.
  intros Hw Hk. set (ns := List.filter _ (nodes graph)).
  assert (Hns : forall n, n ∈ ns -> n ∈ nodes graph /\ n_kind n = k).
  { by intros n [Hn ?%bool_decide_eq_true]%elem_of_bfilter. }
  rewrite <- (bfilter_id (fun _ => true) graph_paths) by done.
  rewrite <- (parts_total visits (fun _ => true) (map n_id ns)).
  - rewrite map_map. f_equal. apply map_ext_in. intros n Hn%list_elem_of_In. apply graph_node_value. by apply Hns.
  - by apply graph_whole.
  - intros p Hp. pose proof (graph_paths_ok _ Hp) as [Hkinds _].
    assert (Hx : k ∈ map kind (path p)) by (by rewrite Hkinds). apply elem_of_map in Hx as (x & -> & Hx).
    apply (filter_one _ true).
    + eapply sublist_NoDup; [apply graph_ids_NoDup|]. apply sublist_map, sublist_bfilter.
    + intros _. destruct (graph_node_of p x Hp Hx) as (n & Hn & Ei & Ek). exists (id x). split.
      * apply elem_of_map. exists n. split; [done|]. apply elem_of_bfilter. by rewrite bool_decide_true.
      * apply has_spec, elem_of_map; eauto.
    + intros i i' (n & -> & [Hn En]%Hns)%elem_of_map (n' & -> & [Hn' En']%Hns)%elem_of_map
        (y & Ey & Hy)%has_spec%elem_of_map (y' & Ey' & Hy')%has_spec%elem_of_map. split; [|done].
      assert (y = y') as <-; [|congruence].
      apply (NoDup_map_inj kind (path p)); [rewrite Hkinds; apply stages_NoDup|done|done|].
      rewrite (visited_kind n p y), (visited_kind n' p y'); congruence.
Qed.

(** No usage is lost between the columns of the chart: for a metric that
    counts whole units with a total below 2^53, the values of the nodes of any
    stage shown add up to the figure of the summary over the same rows, unless
    rows are hidden by the limit on nodes; folding the nodes beyond the limit
    into one keeps the total. *)
Theorem flow_stage_totals k :
  let g := buildFlowGraph localeCompare vchart rows metric role palette visibleStages ctx options in
  whole (map rowMetrics rows) -> k ∈ resolveVisibleStages role visibleStages ->
  overflowMode options <> Some hide \/ normalizeTopNodeLimit (topNodeLimit options) = None ->
  fold_left num_add (map n_value (List.filter (fun n => bool_decide (n_kind n = k)) (nodes g))) (num 0)
  = summary_value (buildSummary rows).
Proof.
  cbv zeta. fold graph graph_stages. intros Hw Hk Ho. rewrite (stage_total k Hw Hk), buildSummary_total.
  rewrite <- unlimited_metrics; [unfold total; by rewrite map_map|].
  destruct Ho as [|E]; [by right|left]. unfold graph_tops. by rewrite E.
Qed.

(** ** The top nodes of a stage *)

(** The ranks of one stage, gathered row by row. *)
Definition stage_id (k : FlowNodeKind) (row : FlowQuotaDataItem) : jsstr := id (NODE_BUILDERS k row ctx).
Definition stage_start (k : FlowNodeKind) (row : FlowQuotaDataItem) : FlowNodeRank :=
  Rank (NODE_BUILDERS k row ctx) (num 0).
Definition rank_add (r : FlowNodeRank) (row : FlowQuotaDataItem) : FlowNodeRank :=
  Rank (rk_node r) (num_add (rk_value r) (metricValue (rowMetrics row) metric)).
Definition stage_ranks (k : FlowNodeKind) (rs : list FlowQuotaDataItem) : jsmap jsstr FlowNodeRank :=
  fold_left (accumulate (stage_id k) (stage_start k) rank_add) rs [].
Definition top_ids (l : jsnum) (k : FlowNodeKind) : list jsstr :=
  map (fun r => id (rk_node r)) (slice_limit l (sort (rank_cmp localeCompare) (mvalues (stage_ranks k rows)))).

(** One step of the loop over the nodes of a path. *)
Definition rank_node (v : jsnum) (m : jsmap FlowNodeKind (jsmap jsstr FlowNodeRank)) (n : FlowPathNode)
  : jsmap FlowNodeKind (jsmap jsstr FlowNodeRank) :=
  match mget (kind n) m with
  | None => m
  | Some st => mset (kind n) (mset (id n)
      (let current := nullish (mget (id n) st) (Rank n (num 0)) in
       Rank (rk_node current) (num_add (rk_value current) v)) st) m
  end.

Lemma rank_row_get row ks m k :
  NoDup ks ->
  mget k (fold_left (rank_node (metricValue (rowMetrics row) metric)) (flowPathForStages row ks ctx) m)
  = if has k ks then (fun st => accumulate (stage_id k) (stage_start k) rank_add st row) <$> mget k m
    else mget k m.
Proof.
  revert m. induction ks as [|k' ks IH]; intros m Hd; [done|].
  apply NoDup_cons in Hd as [Hk' Hd]. cbn [flowPathForStages map fold_left].
  fold (flowPathForStages row ks ctx). rewrite (IH _ Hd). clear IH.
  unfold rank_node. rewrite NODE_BUILDERS_kind. destruct (decide (k' = k)) as [->|Hne].
  - rewrite (proj2 (has_spec_false k ks) Hk'), (proj2 (has_spec k (k :: ks))) by left.
    destruct (mget k m) as [st|] eqn:E; [|done]. by rewrite mget_mset_eq.
  - rewrite (has_ext k (k' :: ks) ks) by (rewrite elem_of_cons; naive_solver).
    destruct (mget k' m) as [st|]; [|done]. by rewrite mget_mset_ne.
Qed.
Lemma rank_rows_get rs m k st :
  k ∈ graph_stages -> mget k m = Some st ->
  mget k (fold_left (fun m row => fold_left (rank_node (metricValue (rowMetrics row) metric))
                                    (flowPathForStages row graph_stages ctx) m) rs m)
  = Some (fold_left (accumulate (stage_id k) (stage_start k) rank_add) rs st).
Proof.
  intros Hk. revert m st. induction rs as [|row rs IH]; intros m st Hm; [done|]. cbn [fold_left].
  apply IH. rewrite rank_row_get by apply stages_NoDup. rewrite (proj2 (has_spec _ _) Hk), Hm. done.
Qed.
Lemma rank_keys rs m :
  (fold_left (fun m row => fold_left (rank_node (metricValue (rowMetrics row) metric))
                             (flowPathForStages row graph_stages ctx) m) rs m).*1 = m.*1.
Proof.
  revert m. induction rs as [|row rs IH]; intros m; [done|]. cbn [fold_left]. rewrite IH. clear IH.
  generalize (flowPathForStages row graph_stages ctx) as p. intros p. revert m.
  induction p as [|n p IH]; intros m; [done|]. cbn [fold_left]. rewrite IH. unfold rank_node.
  destruct (mget (kind n) m) as [st|] eqn:E; [|done]. rewrite keys_mset, decide_True; [done|].
  destruct (decide (kind n ∈ m.*1)) as [|Hn]; [done|]. by apply mget_none in Hn; rewrite Hn in E.
Qed.

(** Setting the entries of a duplicate-free map one by one rebuilds it. *)
Lemma mset_fresh {K V} `{EqDecision K} (k : K) (v : V) m : k ∉ m.*1 -> mset k v m = m ++ [(k, v)].
Proof.
  induction m as [|[k' v'] m IH]; intros H; [done|]. csimpl in H. simpl.
  rewrite decide_False by set_solver. rewrite IH by set_solver. done.
Qed.
Lemma mset_entries {K V W} `{EqDecision K} (f : K -> V -> W) (m : list (K * V)) acc :
  NoDup (acc.*1 ++ m.*1) ->
  fold_left (fun a '(k, v) => mset k (f k v) a) m acc = acc ++ map (fun '(k, v) => (k, f k v)) m.
Proof.
  revert acc. induction m as [|[k v] m IH]; intros acc Hd; cbn [fold_left map]; [by rewrite app_nil_r|].
  csimpl in Hd. rewrite mset_fresh.
  - rewrite IH; [by rewrite <- app_assoc|]. rewrite fmap_app. csimpl. by rewrite <- app_assoc.
  - apply NoDup_app in Hd as (_ & Hd & _). intros Hin. apply (Hd _ Hin). left.
Qed.
Lemma mget_map_values {K V W} `{EqDecision K} (f : K -> V -> W) (m : list (K * V)) k :
  mget k (map (fun '(k, v) => (k, f k v)) m) = f k <$> mget k m.
Proof.
  induction m as [|[k' v] m IH]; [done|]. cbn [map mget].
  destruct (decide (k' = k)) as [->|]; [done|apply IH].
Qed.

Lemma stages_totals0 {V} (v : V) (ks : list FlowNodeKind) :
  NoDup ks -> fold_left (fun m stage => mset stage v m) ks [] = map (fun k => (k, v)) ks.
Proof.
  intros Hd. pose proof (mset_entries (fun _ w => w) (map (fun k => (k, v)) ks) []) as H.
  rewrite fold_left_map in H. rewrite H.
  - cbn [app]. apply map_id_on. by intros [].
  - simpl. change (NoDup (fst <$> map (fun k => (k, v)) ks)).
    change (fst <$> ?l) with (map fst l). by rewrite map_map, map_id.
Qed.

Lemma graph_tops_get l :
  normalizeTopNodeLimit (topNodeLimit options) = Some l ->
  exists sets, graph_tops = Some sets /\ forall k, k ∈ graph_stages -> mget k sets = Some (top_ids l k).
Proof.
  intros E.
  set (totals := fold_left (fun m row => fold_left (rank_node (metricValue (rowMetrics row) metric))
                   (flowPathForStages row graph_stages ctx) m) rows
                   (fold_left (fun m stage => mset stage [] m) graph_stages [])).
  set (top := fun (_ : FlowNodeKind) (st : jsmap jsstr FlowNodeRank) =>
                map (fun r => id (rk_node r)) (slice_limit l (sort (rank_cmp localeCompare) (mvalues st)))).
  assert (Et : graph_tops = Some (fold_left (fun m '(k, st) => mset k (top k st) m) totals [])).
  { unfold graph_tops, buildTopNodeSets. by rewrite E. }
  assert (Ek : totals.*1 = graph_stages).
  { unfold totals. rewrite rank_keys, stages_totals0 by apply stages_NoDup.
    change (map fst (map (fun k => (k, [] : jsmap jsstr FlowNodeRank)) graph_stages) = graph_stages).
    by rewrite map_map, map_id. }
  eexists. split; [exact Et|]. intros k Hk.
  rewrite (mset_entries top totals []) by (simpl; rewrite Ek; apply stages_NoDup).
  cbn [app]. rewrite mget_map_values. unfold totals.
  rewrite (rank_rows_get rows _ k [] Hk); [done|].
  rewrite stages_totals0 by apply stages_NoDup. apply mget_NoDup.
  - change (NoDup (map fst (map (fun k => (k, [] : jsmap jsstr FlowNodeRank)) graph_stages))).
    rewrite map_map, map_id. apply stages_NoDup.
  - apply elem_of_map. eauto.
Qed.

Lemma normalized_limit o l : normalizeTopNodeLimit o = Some l -> exists m e, l = S754_finite false m e.
Proof.
  destruct o as [x|]; [|done]. simpl. destruct (is_finite (num_floor x) && positive (num_floor x)) eqn:E; [|done].
  intros [= <-]. destruct (num_floor x) as [| | |[] m e]; try done. eauto.
Qed.
Lemma slice_limit_take {A} o l (xs : list A) :
  normalizeTopNodeLimit o = Some l -> slice_limit l xs = take (Z.to_nat (int_of l)) xs.
Proof.
  intros (m & e & ->)%normalized_limit. simpl. rewrite Z2Nat.inj_min, Nat2Z.id.
  destruct (Nat.le_ge_cases (Z.to_nat (floor_Z false m e)) (length xs)) as [H|H];
    [by rewrite Nat.min_l|]. rewrite Nat.min_r by done. by rewrite !take_ge.
Qed.

(** The nodes left on a path are top nodes, or stand for the others. *)
Lemma prepared_node p x :
  p ∈ graph_paths -> x ∈ path p ->
  isTopFlowNode x graph_tops = true \/
  (id x = OTHER_FLOW_NODE_IDS (kind x) /\ overflowMode options <> Some hide).
Proof.
  unfold graph_paths, preparePaths. intros (row & _ & E)%list_elem_of_omap.
  apply bind_Some in E as (q & Hq & [= <-]). cbn [path]. unfold applyTopNodeLimit in Hq. intros Hx.
  destruct graph_tops as [ts|] eqn:Et; [|by left].
  destruct (existsb _ _) eqn:Ee.
  - destruct (overflowMode options) as [[|]|]; simpl in Hq; [|done|]; injection Hq as <-;
      apply elem_of_map in Hx as (y & -> & Hy); destruct (isTopFlowNode y (Some ts)) eqn:Ey; first [by left|by right].
  - injection Hq as <-. left. destruct (isTopFlowNode x (Some ts)) eqn:Ex; [done|].
    rewrite <- not_true_iff_false in Ee. destruct Ee. apply existsb_exists.
    exists x. rewrite <- list_elem_of_In. by rewrite Ex.
Qed.

Lemma graph_top_id l x :
  normalizeTopNodeLimit (topNodeLimit options) = Some l -> kind x ∈ graph_stages ->
  isTopFlowNode x graph_tops = has (id x) (top_ids l (kind x)).
Proof.
  intros E Hk. destruct (graph_tops_get l E) as (sets & Es & Hget). unfold isTopFlowNode.
  rewrite Es. simpl. by rewrite Hget.
Qed.

(** A limit on the nodes of a stage is respected: with a limit of [l] every
    stage of the graph has at most [l] nodes, and one more that stands for all
    the others unless these are hidden. *)
Theorem top_nodes_bounded l k :
  let g := buildFlowGraph localeCompare vchart rows metric role palette visibleStages ctx options in
  normalizeTopNodeLimit (topNodeLimit options) = Some l ->
  length (List.filter (fun n => bool_decide (n_kind n = k)) (nodes g))
  <= Z.to_nat (int_of l) + match overflowMode options with Some hide => 0 | _ => 1 end.
Proof.
  cbv zeta. fold graph. intros El. set (ns := List.filter _ (nodes graph)).
  assert (Hd : List.NoDup (map n_id ns)).
  { apply NoDup_ListNoDup. eapply sublist_NoDup; [apply graph_ids_NoDup|apply sublist_map, sublist_bfilter]. }
  assert (Hlen : length (top_ids l k) <= Z.to_nat (int_of l)).
  { unfold top_ids. rewrite length_map, (slice_limit_take _ _ _ El), length_take. lia. }
  set (extra := match overflowMode options with Some hide => [] | _ => [OTHER_FLOW_NODE_IDS k] end).
  assert (Hincl : List.incl (map n_id ns) (top_ids l k ++ extra)).
  { intros i Hi. apply list_elem_of_In. apply list_elem_of_In, elem_of_map in Hi as (n & -> & Hn).
    apply elem_of_bfilter in Hn as [Hn Ek%bool_decide_eq_true].
    destruct (graph_node_in n Hn) as (p & x & Hp & Hx & <- & _ & Ekx). subst k.
    apply elem_of_app. destruct (prepared_node p x Hp Hx) as [Ht|[Eo Hm]].
    - left. rewrite (graph_top_id l) in Ht; [rewrite Ekx; by apply has_spec|done|].
      destruct (graph_paths_ok _ Hp) as [<- _]. apply elem_of_map; eauto.
    - right. rewrite Eo, <- Ekx. unfold extra. destruct (overflowMode options) as [[|]|]; [left|done|left]. }
  apply List.NoDup_incl_length in Hincl; [|done]. rewrite length_app, length_map in Hincl.
  assert (length extra = match overflowMode options with Some hide => 0 | _ => 1 end)
    by (unfold extra; by destruct (overflowMode options) as [[|]|]).
  lia.
Qed.

(** The usage of an id at a stage. *)
Definition usage (k : FlowNodeKind) (i : jsstr) : Z :=
  zsum (map (fun row => count_of (rowMetrics row)) (of_key (stage_id k) i rows)).

Lemma stage_rank_entry k i r :
  whole (map rowMetrics rows) -> (i, r) ∈ stage_ranks k rows ->
  id (rk_node r) = i /\ rk_value r = num (usage k i) /\ safe (usage k i) /\ (0 <= usage k i)%Z.
Proof.
  intros Hw H%accumulate_entry. unfold usage.
  assert (Hwk : whole (map rowMetrics (of_key (stage_id k) i rows))).
  { eapply whole_sublist; [|exact Hw]. apply sublist_map, sublist_bfilter. }
  pose proof (whole_nonneg _ Hwk) as Hn. destruct Hwk as [Hf Ht]. rewrite map_map in Hn, Ht.
  assert (Hof : forall y, y ∈ of_key (stage_id k) i rows -> stage_id k y = i).
  { by intros y [_ ?%bool_decide_eq_true]%elem_of_bfilter. }
  assert (Hfold : forall rs s, fold_left rank_add rs s =
    Rank (rk_node s) (fold_left num_add (map (fun row => metricValue (rowMetrics row) metric) rs) (rk_value s))).
  { induction rs as [|row rs IH]; intros s; [by destruct s|]. cbn [fold_left map]. by rewrite IH. }
  destruct (of_key (stage_id k) i rows) as [|x t]; [done|]. injection H as <-.
  change (fold_left rank_add t (rank_add (stage_start k x) x)) with (fold_left rank_add (x :: t) (stage_start k x)).
  rewrite Hfold. cbn [rk_node rk_value stage_start]. split; [by apply Hof; left|].
  pose proof (zsum_nonneg _ Hn). split; [|unfold safe; lia].
  assert (E : map (fun row => metricValue (rowMetrics row) metric) (x :: t)
              = map num (map (fun row => count_of (rowMetrics row)) (x :: t))).
  { rewrite map_map. apply map_ext_in. intros row Hrow%list_elem_of_In. rewrite Forall_forall in Hf.
    apply Hf, elem_of_map; eauto. }
  rewrite E, num_sum_exact by (done || lia). done.
Qed.

Lemma StronglySorted_split {A} (R : A -> A -> Prop) l k x y :
  StronglySorted R (l ++ k) -> x ∈ l -> y ∈ k -> R x y.
Proof.
  induction l as [|a l IH]; simpl; [by intros _ ?%elem_of_nil|].
  intros H Hx Hy. inversion H as [|? ? Hs Hf]; subst.
  apply elem_of_cons in Hx as [->|Hx]; [|auto]. rewrite Forall_forall in Hf. apply Hf, elem_of_app. by right.
Qed.

(** A rank of the stage, and the order of ranks by usage. *)
Definition ranked (k : FlowNodeKind) (r : FlowNodeRank) : Prop := (id (rk_node r), r) ∈ stage_ranks k rows.
Lemma ranked_values k r :
  whole (map rowMetrics rows) -> r ∈ mvalues (stage_ranks k rows) -> ranked k r.
Proof.
  intros Hw ([i r'] & -> & H)%list_elem_of_fmap. unfold ranked. simpl.
  by destruct (stage_rank_entry k i r' Hw H) as [-> _].
Qed.
Lemma ranks_sorted k :
  whole (map rowMetrics rows) ->
  StronglySorted (fun a b => usage k (id (rk_node b)) <= usage k (id (rk_node a)))%Z
    (sort (rank_cmp localeCompare) (mvalues (stage_ranks k rows))).
Proof.
  intros Hw. apply (sort_sorted _ _ (ranked k)).
  - intros x y z _ _ _. lia.
  - intros x y Hx Hy. destruct (stage_rank_entry k _ x Hw Hx) as (_ & Ex & Sx & Nx).
    destruct (stage_rank_entry k _ y Hw Hy) as (_ & Ey & Sy & Ny).
    unfold rank_cmp. rewrite Ex, Ey, num_sub_exact by (unfold safe in *; lia).
    unfold num_or. rewrite num_truthy_int by (unfold safe in *; lia).
    destruct (Z.eqb_spec (usage k (id (rk_node x)) - usage k (id (rk_node y))) 0); simpl; [lia|].
    rewrite num_pos_sign by (unfold safe in *; lia). intros ?%Z.ltb_lt. lia.
  - intros x y Hx Hy. destruct (stage_rank_entry k _ x Hw Hx) as (_ & Ex & Sx & Nx).
    destruct (stage_rank_entry k _ y Hw Hy) as (_ & Ey & Sy & Ny).
    unfold rank_cmp. rewrite Ex, Ey, num_sub_exact by (unfold safe in *; lia).
    unfold num_or. rewrite num_truthy_int by (unfold safe in *; lia).
    destruct (Z.eqb_spec (usage k (id (rk_node x)) - usage k (id (rk_node y))) 0); simpl; [lia|].
    rewrite num_pos_sign by (unfold safe in *; lia). intros ?%Z.ltb_ge. lia.
  - rewrite Forall_forall. intros r Hr. by apply ranked_values.
Qed.

(** The limit keeps the nodes with the most usage: at any stage, a node that
    the limit leaves out never has more usage, over all rows, than one that is
    kept; and when the stage has no more nodes than the limit, all are kept. *)
Theorem top_nodes_largest l k r r' :
  let sets := buildTopNodeSets localeCompare rows metric (resolveVisibleStages role visibleStages) (Some l) ctx in
  normalizeTopNodeLimit (topNodeLimit options) = Some l ->
  whole (map rowMetrics rows) -> k ∈ resolveVisibleStages role visibleStages -> r ∈ rows -> r' ∈ rows ->
  isTopFlowNode (NODE_BUILDERS k r' ctx) sets = false ->
  Z.to_nat (int_of l) < length (nub (map (stage_id k) rows)) /\
  (isTopFlowNode (NODE_BUILDERS k r ctx) sets = true ->
   usage k (stage_id k r') <= usage k (stage_id k r))%Z.
Proof.
  cbv zeta. fold graph_stages. intros El Hw Hk Hr Hr'.
  assert (Et : buildTopNodeSets localeCompare rows metric graph_stages (Some l) ctx = graph_tops)
    by (unfold graph_tops; by rewrite El).
  rewrite Et, !(graph_top_id l) by (by rewrite ?NODE_BUILDERS_kind). rewrite !NODE_BUILDERS_kind.
  unfold top_ids. rewrite (slice_limit_take _ _ _ El).
  pose proof (ranks_sorted k Hw) as Hs.
  pose proof (sort_perm (rank_cmp localeCompare) (mvalues (stage_ranks k rows))) as Hp.
  set (S := sort _ _) in *. set (n := Z.to_nat (int_of l)).
  assert (Hin : forall row, row ∈ rows -> exists x, x ∈ S /\ id (rk_node x) = stage_id k row).
  { intros row Hrow. assert (Hkey : stage_id k row ∈ (stage_ranks k rows).*1)
      by (apply accumulate_keys_elem, elem_of_map; eauto).
    apply list_elem_of_fmap in Hkey as ([i x] & Ei & Hx). simpl in Ei. exists x.
    split; [rewrite Hp; apply list_elem_of_fmap; by exists (i, x)|].
    rewrite Ei. by destruct (stage_rank_entry k i x Hw Hx) as [-> _]. }
  destruct (Hin r' Hr') as (y & Hy & Ey). intros Hout%has_spec_false.
  assert (Hyd : y ∈ drop n S).
  { rewrite <- (take_drop n S) in Hy. apply elem_of_app in Hy as [Hy|Hy]; [|done]. destruct Hout.
    apply elem_of_map. exists y. by split. }
  split.
  - assert (Hlen : length S = length (nub (map (stage_id k) rows))).
    { rewrite Hp. unfold mvalues. rewrite length_fmap, <- (length_fmap fst). apply Permutation_length.
      apply NoDup_Permutation; [apply accumulate_NoDup|apply nub_NoDup|]. intros i.
      rewrite elem_of_nub. apply accumulate_keys_elem. }
    rewrite <- Hlen. destruct (Nat.lt_ge_cases n (length S)) as [|Hge]; [done|].
    rewrite drop_ge in Hyd by done. by apply elem_of_nil in Hyd.
  - intros Hkept%has_spec. apply elem_of_map in Hkept as (x & Ex & Hx).
    unfold stage_id at 2. rewrite Ex, <- Ey.
    rewrite <- (take_drop n S) in Hs. exact (StronglySorted_split _ _ _ x y Hs Hx Hyd).
Qed.

(** ** Masking *)

Lemma alter_map_commute {A} (e f g : A -> A) i l :
  (forall x, e (f x) = g (e x)) -> map e (alter f i l) = alter g i (map e l).
Proof.
  intros H. revert i. induction l as [|x l IH]; intros [|i]; [done..| |].
  - change (e (f x) :: map e l = g (e x) :: map e l). by rewrite H.
  - change (e x :: map e (alter f i l) = e x :: alter g i (map e l)). by rewrite IH.
Qed.

(** Links by source, with their positions. *)
Definition add_link (m : jsmap jsstr (list (nat * DashboardFlowLink))) (il : nat * DashboardFlowLink)
  : jsmap jsstr (list (nat * DashboardFlowLink)) :=
  let '(i, l) := il in mset (l_source l) (nullish (mget (l_source l) m) [] ++ [(i, l)]) m.
Lemma groups_commute (e : DashboardFlowLink -> DashboardFlowLink) q m :
  (forall l, l_source (e l) = l_source l) ->
  let on (il : nat * DashboardFlowLink) := (il.1, e il.2) in
  mvalues (fold_left add_link (map on q) (map (fun '(k, g) => (k, map on g)) m))
  = map (map on) (mvalues (fold_left add_link q m)).
Proof.
  intros Hs on. revert m. induction q as [|[i l] q IH]; intros m; cbn [map fold_left].
  - unfold mvalues. induction m as [|[k g] m IHm]; csimpl; [done|]. by rewrite IHm.
  - rewrite <- IH. do 2 f_equal. unfold add_link, on. simpl. rewrite Hs.
    rewrite (mget_map_values (fun _ g => map on g)).
    replace (nullish (map on <$> mget (l_source l) m) [] ++ [(i, e l)])
      with (map on (nullish (mget (l_source l) m) [] ++ [(i, l)]))
      by (rewrite map_app; by destruct (mget (l_source l) m)).
    generalize (nullish (mget (l_source l) m) [] ++ [(i, l)]) as g. intros g.
    induction m as [|[k h] m IHm]; simpl; [done|].
    destruct (decide (k = l_source l)); simpl; [done|]. by rewrite IHm.
Qed.

(** Shading the links commutes with a change of what it does not look at. *)
Lemma colors_commute (e : DashboardFlowLink -> DashboardFlowLink) ls :
  (forall l, l_source (e l) = l_source l) -> (forall l, l_target (e l) = l_target l) ->
  (forall l, l_value (e l) = l_value l) -> (forall l, l_color (e l) = l_color l) ->
  (forall c a h l, with_colors c a h (e l) = e (with_colors c a h l)) ->
  assignLinkDisplayColors localeCompare (map e ls) = map e (assignLinkDisplayColors localeCompare ls).
Proof.
  intros Hs Ht Hv Hc He. unfold assignLinkDisplayColors.
  set (on (il : nat * DashboardFlowLink) := (il.1, e il.2)).
  assert (Himap : imap pair (map e ls) = map on (imap pair ls)).
  { change (map e ls) with (e <$> ls). rewrite imap_fmap.
    change (map on (imap pair ls)) with (on <$> imap pair ls). by rewrite fmap_imap. }
  rewrite Himap. pose proof (groups_commute e (imap pair ls) [] Hs) as Hgrp. cbn [map] in Hgrp.
  match goal with
  | |- fold_left _ (mvalues ?x) _ = map e (fold_left _ (mvalues ?y) _) =>
      change x with (fold_left add_link (map on (imap pair ls)) []);
      change y with (fold_left add_link (imap pair ls) [])
  end.
  unfold on. rewrite Hgrp. fold on. clear Hgrp Himap.
  generalize (mvalues (fold_left add_link (imap pair ls) [])) as groups. intros groups.
  rewrite fold_left_map. generalize ls as out. induction groups as [|grp groups IH]; intros out; [done|].
  cbn [fold_left]. rewrite <- IH. f_equal. cbv zeta.
  rewrite (sort_map (fun a b => link_rank_cmp localeCompare a.2 b.2) _ on)
    by (intros x y; unfold link_rank_cmp, linkStableKey, on; simpl; by rewrite !Hs, !Ht, !Hv).
  rewrite length_map. set (srt := sort _ grp). generalize (length srt) as cnt. intros cnt.
  change (map on srt) with (on <$> srt). rewrite imap_fmap.
  assert (E : imap (fun n => pair n ∘ on) srt = map (fun '(r, x) => (r, on x)) (imap pair srt)).
  { change (map ?f ?l) with (f <$> l). rewrite fmap_imap. done. }
  rewrite E, fold_left_map. generalize (imap pair srt) as q. intros q. clear E. revert out.
  induction q as [|[r [i l]] q IHq]; intros out; [done|]. cbn [fold_left on fst snd]. rewrite <- IHq.
  f_equal. rewrite !Hc. symmetry. apply alter_map_commute. intros x. by rewrite He.
Qed.

(** The last steps of the construction. *)
Definition finish_links (ls : list DashboardFlowLink) : list DashboardFlowLink :=
  let flowLinks := sort (link_cmp localeCompare) ls in
  let sum := fold_left (fun sum link => num_add sum (l_value link))
               (List.filter (fun link => has (l_source link) (root_ids graph_paths)) flowLinks) (num 0) in
  assignLinkDisplayColors localeCompare
    (map (fun link => with_share (if positive sum then num_div (l_value link) sum else num 0) link) flowLinks).
Definition with_mask (b : bool) : FlowGraphOptions :=
  GraphOptions (topNodeLimit options) (overflowMode options) (otherNodeLabel options)
    (activeNode options) (activeLink options) b.
Definition masked_graph (b : bool) : DashboardFlowGraph :=
  buildFlowGraph localeCompare vchart rows metric role palette visibleStages ctx (with_mask b).
Definition labelled (b : bool) : jsmap jsstr DashboardFlowNode * jsmap jsstr DashboardFlowLink :=
  if b then maskFlowGraphLabels graph_nodes graph_links else (graph_nodes, graph_links).
Definition highlights : option FlowHighlightSets :=
  buildFlowHighlightSets graph_paths (activeNode options) (activeLink options) graph_stages.

Lemma masked_graph_eq b :
  masked_graph b =
  let m := applyFlowHighlights (labelled b).1 (labelled b).2 highlights in
  FlowGraph (sort (byValueThenLabel localeCompare) (mvalues m.1)) (finish_links (mvalues m.2)).
Proof.
  unfold masked_graph, buildFlowGraph. cbn [with_mask topNodeLimit overflowMode otherNodeLabel activeNode activeLink maskSensitive].
  fold graph_stages graph_tops. fold graph_paths. rewrite (addPath_calls metric vchart). fold graph_color.
  fold highlights. unfold labelled.
  destruct b; [destruct (maskFlowGraphLabels _ _) as [ns ls]|]; cbn [fst snd];
    destruct (applyFlowHighlights _ _ _) as [ns' ls']; done.
Qed.

(** A change of the links that these steps do not look at. *)
Lemma finish_links_commute (e : DashboardFlowLink -> DashboardFlowLink) ls :
  (forall l, l_source (e l) = l_source l) -> (forall l, l_target (e l) = l_target l) ->
  (forall l, l_value (e l) = l_value l) -> (forall l, l_color (e l) = l_color l) ->
  (forall c a h l, with_colors c a h (e l) = e (with_colors c a h l)) ->
  (forall s l, with_share s (e l) = e (with_share s l)) ->
  finish_links (map e ls) = map e (finish_links ls).
Proof.
  intros Hs Ht Hv Hc He Hsh. unfold finish_links.
  rewrite (sort_map (link_cmp localeCompare) (link_cmp localeCompare) e)
    by (intros x y; unfold link_cmp; by rewrite !Hs, !Ht).
  set (fl := sort _ ls). rewrite <- colors_commute by done. f_equal. rewrite !map_map.
  assert (Esum : fold_left (fun sum link => num_add sum (l_value link))
                   (List.filter (fun link => has (l_source link) (root_ids graph_paths)) (map e fl)) (num 0)
               = fold_left (fun sum link => num_add sum (l_value link))
                   (List.filter (fun link => has (l_source link) (root_ids graph_paths)) fl) (num 0)).
  { generalize (num 0) as a. induction fl as [|l q IH]; intros a; [done|]. cbn [map List.filter]. rewrite Hs.
    destruct (has _ _); cbn [fold_left]; rewrite ?Hv; apply IH. }
  rewrite Esum. apply map_ext. intros l. by rewrite Hsh, Hv.
Qed.
Lemma finish_links_map {B} (g : DashboardFlowLink -> B) ls :
  (forall c a h l, g (with_colors c a h l) = g l) -> (forall s l, g (with_share s l) = g l) ->
  map g (finish_links ls) ≡ₚ map g ls.
Proof.
  intros Hc Hs. unfold finish_links. rewrite colors_map, map_map by done.
  rewrite (map_ext _ g) by (intros; apply Hs). apply Permutation_map, sort_perm.
Qed.

Lemma mvalues_update {K V} (f : V -> V) (m : jsmap K V) : mvalues (update_values f m) = map f (mvalues m).
Proof. unfold mvalues, update_values. induction m as [|[k v] m IH]; csimpl; [done|]. by rewrite IH. Qed.

(** The label a node gets. *)
Definition mask_node (n : DashboardFlowNode) : DashboardFlowNode :=
  if masked_node n then with_label (maskFlowLabel (n_label n)) n else n.
Definition unlabelled (l : DashboardFlowLink) : DashboardFlowLink := with_labels [] [] l.

Lemma mask_nodes_values ns ls : mvalues (maskFlowGraphLabels ns ls).1 = map mask_node (mvalues ns).
Proof.
  unfold maskFlowGraphLabels. set (m := fold_left _ _ _).
  destruct m; cbn [fst]; apply mvalues_update.
Qed.
Lemma mask_links_values ns ls :
  map unlabelled (mvalues (maskFlowGraphLabels ns ls).2) = map unlabelled (mvalues ls).
Proof.
  unfold maskFlowGraphLabels. set (m := fold_left _ _ _).
  destruct m; cbn [snd]; [done|]. by apply update_values_map.
Qed.

(** The mask found for the id of a masked node. *)
Definition masks (ns : list DashboardFlowNode) : jsmap jsstr jsstr :=
  fold_left (fun m n => if masked_node n then mset (n_id n) (maskFlowLabel (n_label n)) m else m) ns [].
Lemma masks_get ns n :
  NoDup (map n_id ns) -> n ∈ ns -> masked_node n = true -> mget (n_id n) (masks ns) = Some (maskFlowLabel (n_label n)).
Proof.
  unfold masks. induction ns as [|x ns IH] using rev_ind; [by intros _ ?%elem_of_nil|].
  rewrite map_app, fold_left_app. intros (Hd & Hx & _)%NoDup_app Hn Hm. cbn [fold_left].
  apply elem_of_app in Hn as [Hn | ->%list_elem_of_singleton].
  - assert (Hne : n_id n <> n_id x).
    { intros E. apply (Hx (n_id n)); [apply elem_of_map; eauto|]. rewrite E. left. }
    destruct (masked_node x); [rewrite mget_mset_ne by done|]; auto.
  - rewrite Hm. apply mget_mset_eq.
Qed.

Lemma graph_nodes_ids : graph_nodes.*1 = map n_id (mvalues graph_nodes).
Proof.
  symmetry. etransitivity; [apply (mvalues_map_keys graph_nodes n_id (fun i => i))|apply map_id].
  intros i n H. by destruct (graph_node_kind i n H) as (p & x & _ & _ & _ & E & _).
Qed.

(** The labels of the ends of the links after masking. *)
Lemma masked_link_ends l n :
  l ∈ mvalues (maskFlowGraphLabels graph_nodes graph_links).2 ->
  n ∈ mvalues graph_nodes -> masked_node n = true ->
  (n_id n = l_source l -> l_sourceLabel l = maskFlowLabel (n_label n)) /\
  (n_id n = l_target l -> l_targetLabel l = maskFlowLabel (n_label n)).
Proof.
  intros Hl Hn Hm.
  assert (Hget : mget (n_id n) (masks (mvalues graph_nodes)) = Some (maskFlowLabel (n_label n))).
  { apply masks_get; [|done|done]. rewrite <- graph_nodes_ids. apply accumulate_NoDup. }
  unfold maskFlowGraphLabels in Hl. fold (masks (mvalues graph_nodes)) in Hl.
  destruct (masks (mvalues graph_nodes)) as [|e m] eqn:Em; [done|]. rewrite <- Em in *. cbn [snd] in Hl.
  rewrite mvalues_update in Hl. apply elem_of_map in Hl as (l0 & -> & _). simpl.
  split; intros <-; by rewrite Hget.
Qed.

(** The masked maps with their highlighting. *)
Abbreviation masked_maps := (maskFlowGraphLabels graph_nodes graph_links).
Abbreviation masked_shown := (applyFlowHighlights masked_maps.1 masked_maps.2 highlights).
Lemma masked_nodes_shown :
  mvalues masked_shown.1 = map mask_node (mvalues (applyFlowHighlights graph_nodes graph_links highlights).1).
Proof.
  destruct highlights as [hs|]; cbn [applyFlowHighlights fst]; [|apply mask_nodes_values].
  rewrite !mvalues_update, mask_nodes_values, !map_map. apply map_ext. intros n. unfold mask_node.
  change (masked_node (highlight_node _ n)) with (masked_node n). by destruct (masked_node n).
Qed.
Lemma masked_links_shown :
  map unlabelled (mvalues masked_shown.2)
  = map unlabelled (mvalues (applyFlowHighlights graph_nodes graph_links highlights).2).
Proof.
  destruct highlights as [hs|]; [|apply mask_links_values].
  cbn [applyFlowHighlights snd]. rewrite !mvalues_update, !map_map.
  change (fun l => unlabelled (highlight_link (has (linkStableKey l) (hs_links hs)) l))
    with (fun l => highlight_link (has (linkStableKey (unlabelled l)) (hs_links hs)) (unlabelled l)).
  rewrite <- !(map_map unlabelled (fun l => highlight_link (has (linkStableKey l) (hs_links hs)) l)).
  by rewrite mask_links_values.
Qed.
Lemma mask_node_masked n : masked_node (mask_node n) = masked_node n.
Proof. unfold mask_node. by destruct (masked_node n) eqn:E. Qed.

(** A link and a node of the masked chart come from the masked maps. *)
Lemma masked_link_from l :
  l ∈ finish_links (mvalues masked_shown.2) ->
  exists l0, l0 ∈ mvalues masked_maps.2 /\ l_source l = l_source l0 /\ l_target l = l_target l0 /\
             l_sourceLabel l = l_sourceLabel l0 /\ l_targetLabel l = l_targetLabel l0.
Proof.
  set (gl := fun l => (l_source l, l_target l, l_sourceLabel l, l_targetLabel l)). intros Hl.
  assert (H : gl l ∈ map gl (finish_links (mvalues masked_shown.2))) by (apply elem_of_map; eauto).
  rewrite finish_links_map in H by done.
  assert (H' : gl l ∈ map gl (mvalues masked_maps.2)).
  { destruct highlights; [|exact H]. cbn [applyFlowHighlights snd] in H. by rewrite update_values_map in H. }
  apply elem_of_map in H' as (l0 & E & Hl0). injection E as E1 E2 E3 E4. by exists l0.
Qed.
Lemma masked_node_from n :
  n ∈ mvalues masked_shown.1 -> masked_node n = true ->
  exists n0, n0 ∈ mvalues graph_nodes /\ masked_node n0 = true /\ n_id n = n_id n0 /\
             n_label n = maskFlowLabel (n_label n0).
Proof.
  rewrite masked_nodes_shown. intros (n1 & -> & Hn1)%elem_of_map. rewrite mask_node_masked. intros Hm.
  assert (H : exists n0, n0 ∈ mvalues graph_nodes /\ n_id n1 = n_id n0 /\ n_kind n1 = n_kind n0 /\ n_label n1 = n_label n0).
  { destruct highlights; [|by exists n1]. cbn [applyFlowHighlights fst] in Hn1. rewrite mvalues_update in Hn1.
    apply elem_of_map in Hn1 as (n0 & -> & Hn0). by exists n0. }
  destruct H as (n0 & Hn0 & E1 & E2 & E3). exists n0. split; [done|]. unfold mask_node. rewrite Hm.
  unfold masked_node in *. cbn [with_label n_id n_label]. rewrite <- E1, <- E2, <- E3. done.
Qed.

(** Masking hides what it should and changes nothing else.  The links of
    the masked chart are those of the plain one, in the same order and with
    the same values, shares, colours and flags, apart from the texts of their
    ends; its nodes are the plain ones with the label of every sensitive node
    (a user, node, token, group or channel that is not an "other" node)
    replaced, where it is not empty, by the mask; and a link shows the masked
    label at each end that is such a node. *)
Theorem masking_changes_labels :
  let plain := masked_graph false in
  let masked := masked_graph true in
  map unlabelled (links masked) = map unlabelled (links plain) /\
  nodes masked ≡ₚ map mask_node (nodes plain) /\
  (forall l n, l ∈ links masked -> n ∈ nodes masked -> masked_node n = true ->
     (n_id n = l_source l -> l_sourceLabel l = n_label n) /\
     (n_id n = l_target l -> l_targetLabel l = n_label n)) /\
  (forall n, n ∈ nodes masked -> masked_node n = true -> n_label n = [] \/ n_label n = FLOW_MASK_TEXT).
Proof.
  cbv zeta. rewrite !masked_graph_eq. cbn [labelled fst snd nodes links]. split; [|split; [|split]].
  - rewrite <- !(finish_links_commute unlabelled) by done. f_equal. apply masked_links_shown.
  - rewrite sort_perm, masked_nodes_shown. apply Permutation_map. by rewrite sort_perm.
  - intros l n (l0 & Hl0 & -> & -> & -> & ->)%masked_link_from Hn Hm. rewrite sort_perm in Hn.
    destruct (masked_node_from n Hn Hm) as (n0 & Hn0 & Hm0 & -> & ->). by apply masked_link_ends.
  - intros n Hn Hm. rewrite sort_perm in Hn. destruct (masked_node_from n Hn Hm) as (n0 & _ & _ & _ & ->).
    destruct (n_label n0); [by left|by right].
Qed.


(** ** Shares *)

Lemma graph_shown :
  exists ns ls, nodes graph = sort (byValueThenLabel localeCompare) ns /\ links graph = finish_links ls /\
                map link_sums ls = map link_sums (mvalues graph_links) /\
                map bare_link ls = map bare_link (mvalues graph_links).
Proof.
  assert (Eo : with_mask (maskSensitive options) = options) by (unfold with_mask; by destruct options).
  assert (E : graph = masked_graph (maskSensitive options)) by (unfold masked_graph; by rewrite Eo).
  rewrite E, masked_graph_eq. eexists _, _. split; [done|]. split; [done|].
  assert (Hb : map bare_link (mvalues (applyFlowHighlights (labelled (maskSensitive options)).1
     (labelled (maskSensitive options)).2 highlights).2) = map bare_link (mvalues graph_links)).
  { rewrite (proj2 (highlight_bare _ _ _)). unfold labelled. destruct (maskSensitive options); [|done].
    apply mask_bare. }
  split; [|exact Hb]. assert (El : forall l, map link_sums l = map link_sums (map bare_link l))
    by (intros; by rewrite map_map). by rewrite El, Hb, <- El.
Qed.

(** The roots of the paths and the links that start at one of them. *)
Lemma root_ids_spec i : i ∈ root_ids graph_paths <-> exists p x, p ∈ graph_paths /\ head (path p) = Some x /\ id x = i.
Proof.
  unfold root_ids. rewrite elem_of_filter_truthy. split.
  - intros [(p & Hp & (x & Hx & ->)%fmap_Some)%list_elem_of_omap _]. by exists p, x.
  - intros (p & x & Hp & Hx & <-). split.
    + apply list_elem_of_omap. exists p. by rewrite Hx.
    + destruct (graph_paths_ok p Hp) as [_ Hw]. destruct (path p); [done|]. injection Hx as ->.
      inversion Hw as [|? ? Hx' _]; subst. unfold well_kinded in Hx'. by destruct (id x).
Qed.
Lemma first_step p : p ∈ graph_paths -> exists a b t, path p = a :: b :: t.
Proof.
  intros Hp. pose proof graph_stages_two as H2. destruct (graph_paths_ok p Hp) as [E _].
  rewrite <- E, length_map in H2. destruct (path p) as [|a [|b t]]; simpl in H2; [lia..|eauto].
Qed.
(** Only the first step of a path starts at a root. *)
Lemma root_step p s :
  p ∈ graph_paths -> s ∈ steps (path p) -> id s.1 ∈ root_ids graph_paths -> head (steps (path p)) = Some s.
Proof.
  intros Hp Hs (q & x & Hq & Hx & E)%root_ids_spec.
  destruct (graph_paths_ok p Hp) as [Ek Hw]. destruct (graph_paths_ok q Hq) as [Ekq Hwq].
  destruct (first_step p Hp) as (a & b & t & Ep). destruct (path q) as [|x' tq] eqn:Eq; [done|].
  injection Hx as ->. rewrite Ep in *.
  change (steps (a :: b :: t)) with ((a, b) :: steps (b :: t)) in *.
  apply elem_of_cons in Hs as [->|Hs]; [done|]. exfalso. destruct s as [c d]. simpl in E.
  destruct (steps_lookup _ _ _ Hs) as (i & Hc & _). apply list_elem_of_lookup_2 in Hc.
  pose proof (stages_NoDup role visibleStages) as Hd. fold graph_stages in Hd. rewrite <- Ek in Hd.
  apply NoDup_cons in Hd as [Ha _]. apply Ha. rewrite Forall_forall in Hw. rewrite Forall_forall in Hwq.
  assert (Ekc : kind c = kind x) by (apply well_kinded_same_id; [apply Hw; by right|apply Hwq; left|done]).
  assert (Eka : kind x = kind a) by (rewrite <- Ek in Ekq; by injection Ekq).
  change (kind a ∈ map kind (b :: t)). apply elem_of_map. exists c. split; [congruence|done].
Qed.

(** The links in drawing order are those of the graph. *)
Lemma link_values_total ls :
  whole (map rowMetrics rows) -> nul_free -> map bare_link ls ≡ₚ map bare_link (links graph) ->
  fold_left num_add (map l_value (List.filter (fun l => has (l_source l) (root_ids graph_paths)) ls)) (num 0)
  = total metric graph_paths.
Proof.
  intros Hw Hnul Hp. set (fl := List.filter _ ls).
  assert (Hfl : forall x, x ∈ fl -> l_source x ∈ root_ids graph_paths /\
     exists l, l ∈ links graph /\ l_source x = l_source l /\ linkStableKey x = linkStableKey l /\ l_value x = l_value l).
  { intros x [Hx Hr%has_spec]%elem_of_bfilter. split; [done|].
    assert (Hb : bare_link x ∈ map bare_link ls) by (apply elem_of_map; eauto).
    rewrite Hp in Hb. apply elem_of_map in Hb as (l & E & Hl). exists l. split; [done|].
    injection E as E1 E2 E3 _ _ _ _ _. unfold linkStableKey. by rewrite E1, E2, E3. }
  rewrite <- (bfilter_id (fun _ => true) graph_paths) by done.
  rewrite <- (parts_total traverses (fun _ => true) (map linkStableKey fl)); [|by apply graph_whole|].
  - rewrite map_map. f_equal. apply map_ext_in. intros x Hx%list_elem_of_In.
    destruct (Hfl x Hx) as (_ & l & Hl & _ & -> & ->). by apply graph_link_value.
  - intros p Hpp. destruct (first_step p Hpp) as (a & b & t & Ep).
    assert (Hab : (a, b) ∈ steps (path p)) by (rewrite Ep; left).
    assert (Hroot : id a ∈ root_ids graph_paths) by (apply root_ids_spec; exists p, a; by rewrite Ep).
    apply (filter_one _ true).
    + eapply sublist_NoDup; [|apply sublist_map, sublist_bfilter].
      assert (Ek : map linkStableKey ls = map linkStableKey (map bare_link ls)) by (by rewrite map_map).
      rewrite Ek, Hp, map_map. apply graph_keys_NoDup.
    + intros _. destruct (step_link (a, b) p Hpp Hab) as (l & Hl & Ekey). exists (linkStableKey l).
      assert (Ht : linkStableKey l ∈ step_keys p) by (rewrite Ekey; apply elem_of_map; by exists (a, b)).
      split; [|by apply has_spec].
      assert (Hb : bare_link l ∈ map bare_link (links graph)) by (apply elem_of_map; eauto).
      rewrite <- Hp in Hb. apply elem_of_map in Hb as (x & E & Hx). injection E as E1 E2 _ _ _ _ _ _.
      apply elem_of_map. exists x. split; [unfold linkStableKey; by rewrite E1, E2|].
      apply elem_of_bfilter. split; [done|]. apply has_spec. rewrite <- E1.
      destruct (traversed_step Hnul l p Hl Hpp Ht) as ([a' b'] & Hs' & Ek' & Eend).
      change (l_source l) with (link_end true l). rewrite (Eend true). simpl. rewrite Ekey in Ek'.
      assert (Eab : (a, b) = (a', b')); [|congruence].
      apply (NoDup_map_inj (fun '(a, b) => pathLinkKey a b) (steps (path p)));
        [apply (step_keys_NoDup _ (stages_NoDup role visibleStages) p); by apply graph_paths_ok|done|done|done].
    + intros k k' (x & -> & Hx)%elem_of_map (x' & -> & Hx')%elem_of_map Ht%has_spec Ht'%has_spec. split; [|done].
      destruct (Hfl x Hx) as (Hr & l & Hl & Es & Ek & _). destruct (Hfl x' Hx') as (Hr' & l' & Hl' & Es' & Ek' & _).
      rewrite Ek in *. rewrite Ek' in *. rewrite Es in Hr. rewrite Es' in Hr'.
      destruct (traversed_step Hnul l p Hl Hpp Ht) as (s & Hs & Eks & Eend).
      destruct (traversed_step Hnul l' p Hl' Hpp Ht') as (s' & Hs' & Eks' & Eend').
      change (l_source l) with (link_end true l) in Hr. change (l_source l') with (link_end true l') in Hr'.
      rewrite Eend in Hr. rewrite Eend' in Hr'.
      pose proof (root_step p s Hpp Hs Hr) as H1. pose proof (root_step p s' Hpp Hs' Hr') as H2. congruence.
Qed.

(** Shares are fractions of the whole: for a metric that counts whole units
    with a total below 2^53, the share of a link is its value divided by the
    total over all the paths drawn (counted once, at their first step), or 0
    when that total is 0. *)
Theorem link_shares l :
  let g := buildFlowGraph localeCompare vchart rows metric role palette visibleStages ctx options in
  whole (map rowMetrics rows) -> nul_free -> l ∈ links g ->
  l_share l = if positive (total metric graph_paths) then num_div (l_value l) (total metric graph_paths) else num 0.
Proof.
  cbv zeta. fold graph. intros Hw Hnul Hl. destruct graph_shown as (ns & ls & _ & El & _ & Eb).
  assert (Hp : map bare_link (sort (link_cmp localeCompare) ls) ≡ₚ map bare_link (links graph)).
  { rewrite (proj2 graph_bare), <- Eb. apply Permutation_map, sort_perm. }
  pose proof (link_values_total _ Hw Hnul Hp) as Hsum. rewrite fold_left_map in Hsum.
  rewrite El in Hl. unfold finish_links in Hl. rewrite Hsum in Hl.
  assert (H : (l_value l, l_share l) ∈ map (fun l => (l_value l, l_share l)) (assignLinkDisplayColors localeCompare
     (map (fun link => with_share (if positive (total metric graph_paths) then
        num_div (l_value link) (total metric graph_paths) else num 0) link) (sort (link_cmp localeCompare) ls))))
    by (apply elem_of_map; eauto).
  rewrite colors_map, map_map in H by done. apply elem_of_map in H as (l0 & E & _). simpl in E.
  by injection E as -> ->.
Qed.
End Graph.

(** * Filters *)

(** What a selection of nodes means for a row: of every kind shown that has a
    node selected, the node of the row is one of those selected. *)
Definition selected_row (selected : list FlowNodeFilter) (stages : list FlowNodeKind) (ctx : FlowPathContext)
  (row : FlowQuotaDataItem) : bool :=
  forallb (fun f => negb (has (f_kind f) stages) ||
             existsb (fun f' => bool_decide (f_kind f' = f_kind f)
                                && str_eqb (f_id f') (id (NODE_BUILDERS (f_kind f) row ctx))) selected) selected.

(** The ids collected for a kind. *)
Lemma collect_ids {X} (kd : X -> FlowNodeKind) (i : X -> jsstr) l k :
  mget k (fold_left (fun m x => mset (kd x) (nullish (mget (kd x) m) [] ++ [i x]) m) l [])
  = match map i (of_key kd k l) with [] => None | ids => Some ids end.
Proof.
  change (fold_left _ l []) with (fold_left (accumulate kd (fun _ => []) (fun ids x => ids ++ [i x])) l []).
  rewrite accumulate_get. unfold gathered. destruct (of_key kd k l) as [|x t]; [done|].
  assert (H : forall q acc, fold_left (fun ids y => ids ++ [i y]) q acc = acc ++ map i q).
  { induction q as [|y q IH]; intros acc; cbn [fold_left map]; [by rewrite app_nil_r|].
    by rewrite IH, <- app_assoc. }
  by rewrite H.
Qed.
Lemma collect_keys {X} (kd : X -> FlowNodeKind) (i : X -> jsstr) l k :
  k ∈ (fold_left (fun m x => mset (kd x) (nullish (mget (kd x) m) [] ++ [i x]) m) l []).*1 <-> k ∈ map kd l.
Proof.
  change (fold_left _ l []) with (fold_left (accumulate kd (fun _ => []) (fun ids x => ids ++ [i x])) l []).
  apply accumulate_keys_elem.
Qed.

Lemma normalize_selected selected stages :
  normalizeSelectedNodeFilters selected stages
  = fold_left (fun m f => mset (f_kind f) (nullish (mget (f_kind f) m) [] ++ [f_id f]) m)
      (List.filter (fun f => has (f_kind f) stages) (nullish selected [])) [].
Proof.
  unfold normalizeSelectedNodeFilters. generalize (nullish selected []) as l. intros l.
  generalize ([] : jsmap FlowNodeKind (list jsstr)) as m.
  induction l as [|f l IH]; intros m; [done|]. cbn [fold_left List.filter].
  destruct (has (f_kind f) stages); cbn [fold_left]; apply IH.
Qed.

(** The ids of a path of a kind: the node of the row at that stage. *)
Lemma path_ids_of_kind row stages ctx k i :
  i ∈ map id (of_key kind k (flowPathForStages row stages ctx)) <-> k ∈ stages /\ i = id (NODE_BUILDERS k row ctx).
Proof.
  unfold of_key. rewrite elem_of_map. split.
  - intros (n & -> & [(s & -> & Hs)%elem_of_map Hk%bool_decide_eq_true]%elem_of_bfilter).
    rewrite NODE_BUILDERS_kind in Hk. by subst.
  - intros [Hk ->]. exists (NODE_BUILDERS k row ctx). split; [done|]. apply elem_of_bfilter.
    rewrite NODE_BUILDERS_kind, bool_decide_true by done. split; [|done]. apply elem_of_map; eauto.
Qed.

(** Whether a path has one of the ids at a kind. *)
Lemma path_has_id row stages ctx k ids :
  k ∈ stages ->
  match mget k (fold_left (fun m n => mset (kind n) (nullish (mget (kind n) m) [] ++ [id n]) m)
                 (flowPathForStages row stages ctx) []) with
  | None => false
  | Some pathIds => existsb (fun i => has i pathIds) ids
  end = true <-> id (NODE_BUILDERS k row ctx) ∈ ids.
Proof.
  intros Hk. rewrite collect_ids. pose proof (path_ids_of_kind row stages ctx k) as Hi.
  destruct (map id (of_key kind k (flowPathForStages row stages ctx))) as [|i0 pi] eqn:E.
  - exfalso. apply (not_elem_of_nil (id (NODE_BUILDERS k row ctx))). apply Hi. by split.
  - rewrite existsb_exists. setoid_rewrite <- list_elem_of_In. split.
    + intros (i & Hin & Hh%has_spec). apply Hi in Hh as [_ ->]. done.
    + intros Hin. eexists. split; [exact Hin|]. apply has_spec, Hi. by split.
Qed.

(** The entries of the normalised selection. *)
Lemma selected_entry selected stages k ids :
  (k, ids) ∈ normalizeSelectedNodeFilters selected stages ->
  k ∈ stages /\ ids <> [] /\
  forall i, i ∈ ids <-> exists f, f ∈ nullish selected [] /\ f_kind f = k /\ f_id f = i.
Proof.
  rewrite normalize_selected.
  change (fold_left _ ?l []) with (fold_left (accumulate f_kind (fun _ => []) (fun ids f => ids ++ [f_id f])) l []).
  intros H. apply mget_NoDup in H; [|apply accumulate_NoDup].
  change (fold_left _ ?l []) with
    (fold_left (fun m f => mset (f_kind f) (nullish (mget (f_kind f) m) [] ++ [f_id f]) m) l []) in H.
  rewrite collect_ids in H. set (shown := List.filter _ _) in H.
  assert (Hids : forall i, i ∈ map f_id (of_key f_kind k shown) <->
     exists f, f ∈ nullish selected [] /\ f_kind f = k /\ k ∈ stages /\ f_id f = i).
  { intros i. unfold of_key, shown. rewrite elem_of_map. split.
    - intros (f & -> & [[Hf Hs%has_spec]%elem_of_bfilter Hk%bool_decide_eq_true]%elem_of_bfilter). subst k. eauto.
    - intros (f & Hf & <- & Hs & <-). exists f. split; [done|]. apply elem_of_bfilter.
      rewrite bool_decide_true by done. split; [|done]. apply elem_of_bfilter. by rewrite has_spec. }
  destruct (map f_id (of_key f_kind k shown)) as [|i0 t] eqn:E; [done|]. injection H as <-.
  destruct (proj1 (Hids i0)) as (f0 & _ & _ & Hk & _); [left|]. split; [done|].
  split; [done|]. intros i. rewrite Hids. naive_solver.
Qed.
Lemma selected_has_entry selected stages f :
  f ∈ nullish selected [] -> f_kind f ∈ stages -> exists ids, (f_kind f, ids) ∈ normalizeSelectedNodeFilters selected stages.
Proof.
  intros Hf Hs. assert (Hk : f_kind f ∈ (normalizeSelectedNodeFilters selected stages).*1).
  { rewrite normalize_selected, collect_keys. apply elem_of_map. exists f. split; [done|].
    apply elem_of_bfilter. by rewrite has_spec. }
  apply list_elem_of_fmap in Hk as ([k ids] & Ek & Hin). simpl in Ek. subst k. eauto.
Qed.

Lemma selected_row_spec sel stages ctx row :
  selected_row sel stages ctx row = true <->
  forall f, f ∈ sel -> f_kind f ∈ stages ->
    exists f', f' ∈ sel /\ f_kind f' = f_kind f /\ f_id f' = id (NODE_BUILDERS (f_kind f) row ctx).
Proof.
  unfold selected_row. rewrite forallb_forall. setoid_rewrite <- list_elem_of_In.
  split; intros H f Hf.
  - intros Hs%has_spec. specialize (H f Hf). rewrite Hs in H. simpl in H.
    apply existsb_exists in H as (f' & Hf'%list_elem_of_In & [Hk%bool_decide_eq_true Hi%str_eqb_true]%andb_true_iff).
    eauto.
  - destruct (has (f_kind f) stages) eqn:Hs; [|done]. simpl. apply has_spec in Hs.
    destruct (H f Hf Hs) as (f' & Hf' & Hk & Hi). apply existsb_exists. exists f'.
    rewrite <- list_elem_of_In. split; [done|]. by rewrite bool_decide_true, Hi, str_eqb_refl by done.
Qed.

Lemma path_matches row stages ctx selected :
  pathMatchesNodeFilters (flowPathForStages row stages ctx) (normalizeSelectedNodeFilters selected stages)
  = selected_row (nullish selected []) stages ctx row.
Proof.
  set (filters := normalizeSelectedNodeFilters selected stages).
  set (test := fun '(k, ids) =>
     match mget k (fold_left (fun m n => mset (kind n) (nullish (mget (kind n) m) [] ++ [id n]) m)
                     (flowPathForStages row stages ctx) []) with
     | None => false | Some pathIds => existsb (fun i => has i pathIds) ids end).
  assert (Em : pathMatchesNodeFilters (flowPathForStages row stages ctx) filters = forallb test filters)
    by (unfold pathMatchesNodeFilters; by destruct filters).
  rewrite Em. apply eq_true_iff_eq. rewrite selected_row_spec, forallb_forall.
  setoid_rewrite <- list_elem_of_In. split.
  - intros H f Hf Hs. destruct (selected_has_entry selected stages f Hf Hs) as (ids & Hin).
    specialize (H _ Hin). destruct (selected_entry _ _ _ _ Hin) as (_ & _ & Hids). apply path_has_id in H; [|done].
    apply Hids in H as (f' & Hf' & Hk & Hi). eauto.
  - intros H [k ids] Hin. destruct (selected_entry _ _ _ _ Hin) as (Hk & Hne & Hids). apply path_has_id; [done|].
    destruct ids as [|i0 t]; [done|]. destruct (proj1 (Hids i0)) as (f & Hf & <- & _); [left|].
    destruct (H f Hf Hk) as (f' & Hf' & Ek & Ei). apply Hids. eauto.
Qed.

Lemma filterRowsByNodes_spec rows selected stages ctx :
  filterRowsByNodes rows selected stages ctx = List.filter (selected_row (nullish selected []) stages ctx) rows.
Proof.
  unfold filterRowsByNodes. destruct (normalizeSelectedNodeFilters selected stages) as [|e m] eqn:E.
  - symmetry. apply bfilter_id. intros row _. by rewrite <- path_matches, E.
  - rewrite <- E. apply bfilter_ext_on. intros row _. apply path_matches.
Qed.

(** A selection of nodes keeps exactly the rows it describes: a row stays
    when, for every stage shown that has nodes selected, its own node at that
    stage is one of them; selections of stages that are not shown do not
    count. *)
Theorem node_filters_exact rows selected stages ctx :
  filterRowsByNodes rows selected stages ctx = List.filter (selected_row (nullish selected []) stages ctx) rows /\
  forall row, selected_row (nullish selected []) stages ctx row = true <->
    forall f, f ∈ nullish selected [] -> f_kind f ∈ stages ->
      exists f', f' ∈ nullish selected [] /\ f_kind f' = f_kind f /\
                 f_id f' = id (NODE_BUILDERS (f_kind f) row ctx).
Proof. split; [apply filterRowsByNodes_spec|intros; apply selected_row_spec]. Qed.

(** ** Filter options *)

Lemma except_kind selected k :
  nullish (selectedNodeFiltersExceptKind selected k) []
  = List.filter (fun f => negb (bool_decide (f_kind f = k))) (nullish selected []).
Proof. unfold selectedNodeFiltersExceptKind. by destruct (List.filter _ _). Qed.

(** Adding a node of a kind to a selection that has none of it. *)
Lemma selected_row_add sel stages ctx row k i :
  k ∈ stages -> (forall f, f ∈ sel -> f_kind f <> k) ->
  selected_row (sel ++ [NodeFilter k i]) stages ctx row = true <->
  selected_row sel stages ctx row = true /\ id (NODE_BUILDERS k row ctx) = i.
Proof.
  intros Hk Hsel. rewrite !selected_row_spec. setoid_rewrite elem_of_app. setoid_rewrite list_elem_of_singleton.
  split.
  - intros H. split.
    + intros f Hf Hs. destruct (H f (or_introl Hf) Hs) as (f' & [Hf'| ->] & Ek & Ei); [eauto|].
      simpl in Ek. by destruct (Hsel f Hf).
    + destruct (H (NodeFilter k i) (or_intror eq_refl) Hk) as (f' & [Hf'| ->] & Ek & Ei); [|done].
      by destruct (Hsel f' Hf').
  - intros [H Hi] f [Hf| ->] Hs.
    + destruct (H f Hf Hs) as (f' & Hf' & Ek & Ei). eauto.
    + exists (NodeFilter k i). auto.
Qed.

(** The ranks of a stage come from the rows that pass the other filters. *)
Definition option_key (k : FlowNodeKind) (ctx : FlowPathContext) (row : FlowQuotaDataItem) : jsstr :=
  nodeFilterKey (NodeFilter (kind (NODE_BUILDERS k row ctx)) (id (NODE_BUILDERS k row ctx))).
Lemma option_key_inj k ctx row row' :
  option_key k ctx row = option_key k ctx row' -> id (NODE_BUILDERS k row ctx) = id (NODE_BUILDERS k row' ctx).
Proof.
  unfold option_key, nodeFilterKey. cbn [f_kind f_id]. rewrite !NODE_BUILDERS_kind.
  intros E%app_inv_head. by injection E.
Qed.
Lemma stageTotals_accumulate rows metric k ctx :
  stageTotals rows metric k ctx = fold_left (accumulate (option_key k ctx) (stage_start ctx k) (rank_add metric)) rows [].
Proof. done. Qed.
Lemma stageTotals_entry rows metric k ctx kk r :
  (kk, r) ∈ stageTotals rows metric k ctx ->
  exists row, row ∈ rows /\ rk_node r = NODE_BUILDERS k row ctx /\ kk = option_key k ctx row.
Proof.
  rewrite stageTotals_accumulate.
  apply (accumulate_ind _ _ _
    (fun kk r => exists row, row ∈ rows /\ rk_node r = NODE_BUILDERS k row ctx /\ kk = option_key k ctx row)).
  - intros row Hrow. by exists row.
  - intros x w Hx (row & Hrow & En & Ek). by exists row.
Qed.
Lemma stageTotals_has rows metric k ctx row :
  row ∈ rows -> exists r, r ∈ mvalues (stageTotals rows metric k ctx) /\ id (rk_node r) = id (NODE_BUILDERS k row ctx)
                          /\ kind (rk_node r) = k.
Proof.
  intros Hrow. assert (Hk : option_key k ctx row ∈ (stageTotals rows metric k ctx).*1).
  { rewrite stageTotals_accumulate. apply accumulate_keys_elem, elem_of_map; eauto. }
  apply list_elem_of_fmap in Hk as ([kk r] & Ek & Hr). simpl in Ek.
  destruct (stageTotals_entry _ _ _ _ _ _ Hr) as (row' & _ & En & Ek'). exists r.
  split; [apply list_elem_of_fmap; by exists (kk, r)|]. rewrite En, NODE_BUILDERS_kind. split; [|done].
  apply option_key_inj. congruence.
Qed.

(** The filter menu offers exactly the choices that lead somewhere: a node
    is offered for a stage if and only if replacing the selection of that
    stage by this node, and keeping those of the other stages, leaves at least
    one row. *)
Theorem filter_options_exact localeCompare formatNumber vchart rows metric role visibleStages palette ctx selected k i :
  let stages := resolveVisibleStages role visibleStages in
  let others := List.filter (fun f => negb (bool_decide (f_kind f = k))) (nullish selected []) in
  (exists o, o ∈ buildNodeFilterOptions localeCompare formatNumber vchart rows metric role visibleStages palette ctx selected
             /\ no_kind o = k /\ no_value o = i) <->
  k ∈ stages /\ filterRowsByNodes rows (Some (others ++ [NodeFilter k i])) stages ctx <> [].
Proof.
  cbv zeta. set (stages := resolveVisibleStages role visibleStages). set (others := List.filter _ _).
  rewrite filterRowsByNodes_spec. change (nullish (Some ?x) []) with x.
  assert (Hoth : forall f, f ∈ others -> f_kind f <> k).
  { by intros f [_ ?%negb_true_iff%bool_decide_eq_false]%elem_of_bfilter. }
  unfold buildNodeFilterOptions. fold stages. setoid_rewrite elem_of_sort.
  setoid_rewrite elem_of_concat_map. setoid_rewrite elem_of_map. setoid_rewrite filterRowsByNodes_spec.
  setoid_rewrite except_kind. split.
  - intros (o & (s & Hs & r & -> & Hr) & Ek & Ei). cbn [no_kind no_value] in Ek, Ei.
    apply list_elem_of_fmap in Hr as ([kk r'] & -> & Hr). cbn [snd] in Ek, Ei.
    destruct (stageTotals_entry _ _ _ _ _ _ Hr) as (row & [Hrow Hsel]%elem_of_bfilter & En & _).
    rewrite En in Ek, Ei. rewrite NODE_BUILDERS_kind in Ek. subst s. split; [done|].
    intros Hnil. apply (not_elem_of_nil row). rewrite <- Hnil. apply elem_of_bfilter. split; [done|].
    by apply selected_row_add.
  - intros [Hk Hne]. destruct (List.filter _ rows) as [|row t] eqn:E in Hne; [done|].
    assert (Hrow : row ∈ List.filter (selected_row (others ++ [NodeFilter k i]) stages ctx) rows) by (rewrite E; left).
    apply elem_of_bfilter in Hrow as [Hrow [Hsel Hi]%selected_row_add]; [|done|done].
    destruct (stageTotals_has (List.filter (selected_row others stages ctx) rows) metric k ctx row) as (r & Hr & Er & Ek).
    { by apply elem_of_bfilter. }
    eexists. split; [exists k; split; [done|]; exists r; split; [done|exact Hr]|]. cbn [no_kind no_value]. by rewrite Er, Ek.
Qed.


(** * Witnesses *)

(** Comparison by code units, as an instance of [localeCompare]. *)
Fixpoint unit_compare (a b : jsstr) : jsnum :=
  match a, b with
  | [], [] => num 0
  | [], _ => num (-1)
  | _, [] => num 1
  | x :: a', y :: b' => if (x <? y)%N then num (-1) else if (y <? x)%N then num 1 else unit_compare a' b'
  end.

Definition sample_row (group token model : jsstr) (tokens : Z) : FlowQuotaDataItem :=
  FlowRow (Some (num 7)) (Some "bob") None (Some group) None (Some token) None None (Some model)
    (Some (num tokens)) (Some (num 1)) (Some (num (2 * tokens))).
Definition sample_rows : list FlowQuotaDataItem :=
  [sample_row "vip" "t1" "m-large" 10; sample_row "vip" "t2" "m-large" 20;
   sample_row "default" "t1" "m-large" 5; sample_row "default" "t3" "m-small" 7].
Definition sample_options (mode : FlowOverflowMode) : FlowGraphOptions :=
  GraphOptions (Some (num 2)) (Some mode) None None None false.
Definition sample_graph (mode : FlowOverflowMode) : DashboardFlowGraph :=
  buildFlowGraph unit_compare [] sample_rows m_tokens r_user None None EMPTY_FLOW_PATH_CONTEXT (sample_options mode).

Lemma sample_whole : whole m_tokens (map rowMetrics sample_rows).
Proof.
  split; [|by vm_compute].
  repeat (apply Forall_cons; split; [split; [by vm_compute|vm_compute; discriminate]|]). apply Forall_nil. done.
Qed.
Lemma sample_nul_free : nul_free sample_rows EMPTY_FLOW_PATH_CONTEXT.
Proof.
  unfold nul_free. apply (bool_decide_unpack (Forall (fun row => Forall (fun k => nul ∉
    id (NODE_BUILDERS k row EMPTY_FLOW_PATH_CONTEXT)) FLOW_NODE_KINDS) sample_rows)). by vm_compute.
Qed.

(** The node of an id. *)
Definition node_of (i : jsstr) (g : DashboardFlowGraph) : option DashboardFlowNode :=
  find (fun n => str_eqb (n_id n) i) (nodes g).
Lemma node_of_in i g n : node_of i g = Some n -> n ∈ nodes g.
Proof. unfold node_of. intros [H _]%List.find_some. by apply list_elem_of_In. Qed.

Lemma flow_conserved_witness : exists n, n ∈ nodes (sample_graph aggregate) /\ n_id n = "group:default" /\
  fold_left num_add (map l_value (List.filter (fun l => str_eqb (l_source l) (n_id n)) (links (sample_graph aggregate)))) (num 0)
  = n_value n.
Proof.
  destruct (node_of "group:default" (sample_graph aggregate)) as [n|] eqn:E; [|vm_compute in E; discriminate].
  assert (Hn : n ∈ nodes (sample_graph aggregate)) by exact (node_of_in _ _ _ E).
  exists n. split; [exact Hn|]. split; [vm_compute in E; by injection E as <-|].
  refine (proj1 (flow_conserved unit_compare [] sample_rows m_tokens r_user None None
    EMPTY_FLOW_PATH_CONTEXT (sample_options aggregate) n sample_whole sample_nul_free Hn) _).
  vm_compute in E. injection E as <-. discriminate.
Defined.

Lemma flow_stage_totals_witness :
  fold_left num_add (map n_value (List.filter (fun n => bool_decide (n_kind n = k_token)) (nodes (sample_graph aggregate)))) (num 0)
  = num 42.
Proof.
  refine (eq_trans (flow_stage_totals unit_compare [] sample_rows m_tokens r_user None None
    EMPTY_FLOW_PATH_CONTEXT (sample_options aggregate) k_token sample_whole _ _) _).
  - left.
  - left. discriminate.
  - by vm_compute.
Defined.

Lemma top_nodes_bounded_witness :
  length (List.filter (fun n => bool_decide (n_kind n = k_token)) (nodes (sample_graph aggregate))) <= 2 + 1 /\
  length (List.filter (fun n => bool_decide (n_kind n = k_token)) (nodes (sample_graph hide))) <= 2 + 0.
Proof.
  split.
  - exact (top_nodes_bounded unit_compare [] sample_rows m_tokens r_user None None
      EMPTY_FLOW_PATH_CONTEXT (sample_options aggregate) (num 2) k_token eq_refl).
  - exact (top_nodes_bounded unit_compare [] sample_rows m_tokens r_user None None
      EMPTY_FLOW_PATH_CONTEXT (sample_options hide) (num 2) k_token eq_refl).
Defined.

Lemma top_nodes_largest_witness :
  (usage sample_rows m_tokens EMPTY_FLOW_PATH_CONTEXT k_token "token:t3"
   <= usage sample_rows m_tokens EMPTY_FLOW_PATH_CONTEXT k_token "token:t1")%Z.
Proof.
  refine (proj2 (top_nodes_largest unit_compare sample_rows m_tokens r_user None
    EMPTY_FLOW_PATH_CONTEXT (sample_options hide) (num 2) k_token
    (sample_row "vip" "t1" "m-large" 10) (sample_row "default" "t3" "m-small" 7) _ sample_whole _ _ _ _) _).
  - done.
  - left.
  - left.
  - right. right. right. left.
  - by vm_compute.
  - by vm_compute.
Defined.

Lemma link_shares_witness : exists l, l ∈ links (sample_graph aggregate) /\ l_source l = "token:t2" /\
  l_share l = num_div (num 20) (num 42).
Proof.
  destruct (find (fun l => str_eqb (l_source l) "token:t2") (links (sample_graph aggregate))) as [l|] eqn:E;
    [|vm_compute in E; discriminate].
  assert (Hl : l ∈ links (sample_graph aggregate)) by (apply List.find_some in E as [H _]; by apply list_elem_of_In).
  exists l. split; [exact Hl|]. split; [vm_compute in E; by injection E as <-|].
  refine (eq_trans (link_shares unit_compare [] sample_rows m_tokens r_user None None
    EMPTY_FLOW_PATH_CONTEXT (sample_options aggregate) l sample_whole sample_nul_free Hl) _).
  vm_compute in E. injection E as <-. by vm_compute.
Defined.
End FlowProofs.
