(* ===== verification/RatioSync.v ===== *)
(** Synchronising prices from upstream channels
    (src/web/src/features/system-settings/models): the choices of
    upstream-ratio-sync-helpers.ts, the columns of upstream-ratio-sync-table.tsx
    and the handlers of upstream-ratio-sync.tsx, from fetched differences to the
    option texts that are written.

    Values of the server are JSON; a JavaScript Map is an association list in
    insertion order.  Property names are taken to be own properties: names
    inherited from Object.prototype are not modelled. *)
From Stdlib Require Import Floats.SpecFloat.
From S2P Require Import Prelude JsNumber JsCollections Json JsonText.

Module RatioSync.

(** * Data *)

Record RatioDifferenceEntry := Difference { current : json; upstreams : obj json; confidence : obj json }.
Abbreviation ModelDifferences := (obj RatioDifferenceEntry) (only parsing).
Abbreviation DifferencesMap := (obj (obj RatioDifferenceEntry)) (only parsing).
Abbreviation ResolutionsMap := (obj (obj json)) (only parsing).

Record ResolutionSelection := Selection {
  s_model : jsstr; s_ratioType : jsstr; s_value : json; s_sourceName : jsstr }.

(** A plan of removals: a Map from models to Sets of fields. *)
Definition ResolutionRemovalPlan : Type := jsmap jsstr (list jsstr).

Definition RATIO_SYNC_FIELDS : list jsstr := [
  "model_ratio"; "completion_ratio"; "cache_ratio"; "create_cache_ratio"; "image_ratio"; "audio_ratio";
  "audio_completion_ratio"].
Definition SYNC_FIELD_ORDER : list jsstr := RATIO_SYNC_FIELDS ++ ["model_price"; "billing_mode"; "billing_expr"].
Definition NUMERIC_SYNC_FIELDS : list jsstr := RATIO_SYNC_FIELDS ++ ["model_price"].
Definition RATIO_TYPE_OPTIONS : list (jsstr * jsstr) := [
  ("Model ratio", "model_ratio"); ("Completion ratio", "completion_ratio"); ("Cache ratio", "cache_ratio");
  ("Create cache ratio", "create_cache_ratio"); ("Image ratio", "image_ratio"); ("Audio ratio", "audio_ratio");
  ("Audio completion ratio", "audio_completion_ratio"); ("Fixed price", "model_price");
  ("Expression billing", "billing_expr")].

Definition OFFICIAL_CHANNEL_ID : Z := (-100)%Z.
(** The units of the Chinese name of the preset. *)
Definition OFFICIAL_CHANNEL_NAME : jsstr := [23448; 26041; 20493; 29575; 39044; 35774]%N.
Definition OFFICIAL_CHANNEL_ENDPOINT : jsstr := "/llm-metadata/api/newapi/ratio_config-v1-base.json".
Definition MODELS_DEV_PRESET_ID : Z := (-101)%Z.
Definition MODELS_DEV_PRESET_NAME : jsstr := "models.dev " ++ [20215; 26684; 39044; 35774]%N.
Definition MODELS_DEV_PRESET_ENDPOINT : jsstr := "https://models.dev/api.json".
Definition OPENROUTER_ENDPOINT : jsstr := "openrouter".
Definition OPENROUTER_CHANNEL_TYPE : Z := 20%Z.
Definition DEFAULT_ENDPOINT : jsstr := "/api/pricing".

(** * Fields *)

Definition getSyncFieldLabel (ratioType : jsstr) (t : jsstr -> jsstr) : jsstr :=
  match find (fun o => str_eqb o.2 ratioType) RATIO_TYPE_OPTIONS with
  | Some opt => t opt.1
  | None => ratioType
  end.

Definition no_filter (filter : jsstr) : bool := negb (truthy filter) || str_eqb filter "__all__".

Definition getOrderedRatioTypes (ratioTypes : ModelDifferences) (filter : jsstr) : list jsstr :=
  let keys := map fst ratioTypes in
  let ordered := List.filter (fun f => has f keys) SYNC_FIELD_ORDER
                 ++ List.filter (fun f => negb (has f SYNC_FIELD_ORDER)) keys in
  if no_filter filter then ordered else List.filter (fun f => str_eqb f filter) ordered.

(** [v !== null && v !== undefined && v !== 'same'] *)
Definition isSelectableUpstreamValue (value : option json) : bool :=
  match value with
  | None | Some JNull => false
  | Some (JStr s) => negb (str_eqb s "same")
  | Some _ => true
  end.

(** [ratioTypes[field]?.upstreams?.[sourceName]] *)
Definition upstream_value (ratioTypes : ModelDifferences) (field sourceName : jsstr) : option json :=
  match obj_get field ratioTypes with Some e => obj_get sourceName (upstreams e) | None => None end.

Definition getPreferredSyncField (ratioTypes : ModelDifferences) (ratioType sourceName : jsstr) : jsstr :=
  if negb (str_eqb ratioType "billing_expr")
     && isSelectableUpstreamValue (upstream_value ratioTypes "billing_expr" sourceName)
  then "billing_expr" else ratioType.

Definition getVisibleRatioTypesForSource (ratioTypes : ModelDifferences) (sourceName filter : jsstr) : list jsstr :=
  List.filter (fun ratioType => str_eqb (getPreferredSyncField ratioTypes ratioType sourceName) ratioType)
    (getOrderedRatioTypes ratioTypes filter).

Definition getAlignedRatioTypes (ratioTypes : ModelDifferences) (sourceNames : list jsstr) (filter : jsstr)
  : list jsstr :=
  let ordered := getOrderedRatioTypes ratioTypes filter in
  match sourceNames with
  | [] => ordered
  | _ =>
      let visible := concat (map (fun s => getVisibleRatioTypesForSource ratioTypes s filter) sourceNames) in
      List.filter (fun ratioType => has ratioType visible) ordered
  end.

Inductive category := price | ratio | tiered.
#[global] Instance category_eq : EqDecision category.
Proof. solve_decision. Defined.

Definition getBillingCategory (ratioType : jsstr) : category :=
  if str_eqb ratioType "model_price" then price
  else if str_eqb ratioType "billing_mode" || str_eqb ratioType "billing_expr" then tiered
  else ratio.

Definition getUpstreamDisplayName (sourceName : jsstr) : jsstr :=
  let synthesized (name : jsstr) (id : Z) := name ++ "(" ++ int_to_string id ++ ")" in
  if str_eqb sourceName (synthesized OFFICIAL_CHANNEL_NAME OFFICIAL_CHANNEL_ID) then OFFICIAL_CHANNEL_NAME
  else if str_eqb sourceName (synthesized MODELS_DEV_PRESET_NAME MODELS_DEV_PRESET_ID) then MODELS_DEV_PRESET_NAME
  else sourceName.

(** [a === b] on JSON values; objects and arrays are different references. *)
Definition strict_eq (a b : json) : bool :=
  match a, b with
  | JNull, JNull => true
  | JBool x, JBool y => Bool.eqb x y
  | JNum x, JNum y => num_eqb x y
  | JStr x, JStr y => str_eqb x y
  | _, _ => false
  end.

Definition isSelectedResolutionValue (resolutions : ResolutionsMap) (model ratioType : jsstr)
  (upstreamValue : option json) : bool :=
  if negb (isSelectableUpstreamValue upstreamValue) then false
  else
    match obj_get model resolutions with
    | None => false
    | Some fields =>
        match obj_get ratioType fields, upstreamValue with
        | Some selectedValue, Some upstreamValue =>
            if has ratioType NUMERIC_SYNC_FIELDS then
              let selectedNumber := json_to_number (Some selectedValue) in
              let upstreamNumber := json_to_number (Some upstreamValue) in
              is_finite selectedNumber && is_finite upstreamNumber && num_eqb selectedNumber upstreamNumber
            else strict_eq selectedValue upstreamValue
        | _, _ => false
        end
    end.

(** * Choosing values *)

(** The field and value a selection stands for. *)
Definition preferred_field (differences : DifferencesMap) (s : ResolutionSelection) : jsstr :=
  getPreferredSyncField (default [] (obj_get (s_model s) differences)) (s_ratioType s) (s_sourceName s).
Definition preferred_value (differences : DifferencesMap) (s : ResolutionSelection) : json :=
  let preferredType := preferred_field differences s in
  if str_eqb preferredType (s_ratioType s) then s_value s
  else match obj_get (s_model s) differences with
       | Some d => match upstream_value d preferredType (s_sourceName s) with
                   | None | Some JNull => s_value s
                   | Some v => v
                   end
       | None => s_value s
       end.

(** The fields of a model after choosing [value] for [field]: those of another
    category go, unless one of the two is tiered. *)
Definition drop_other_categories (c : category) (fields : obj json) : obj json :=
  List.filter (fun kv => negb (negb (bool_decide (c = tiered))
                               && negb (bool_decide (getBillingCategory kv.1 = tiered))
                               && negb (bool_decide (getBillingCategory kv.1 = c)))) fields.

Definition set_tiered (d : ModelDifferences) (s : ResolutionSelection) (finalType : jsstr) (fields : obj json)
  : obj json :=
  let modeVal := upstream_value d "billing_mode" (s_sourceName s) in
  let exprVal := upstream_value d "billing_expr" (s_sourceName s) in
  let fields :=
    match modeVal with
    | Some v => if isSelectableUpstreamValue modeVal then obj_set "billing_mode" v fields
                else if str_eqb finalType "billing_expr" then obj_set "billing_mode" (JStr "tiered_expr") fields
                else fields
    | None => if str_eqb finalType "billing_expr" then obj_set "billing_mode" (JStr "tiered_expr") fields else fields
    end in
  match exprVal with
  | Some v => if isSelectableUpstreamValue exprVal then obj_set "billing_expr" v fields else fields
  | None => fields
  end.

Definition select_fields (differences : DifferencesMap) (s : ResolutionSelection) (fields : obj json) : obj json :=
  let finalType := preferred_field differences s in
  let c := getBillingCategory finalType in
  let fields := obj_set finalType (preferred_value differences s) (drop_other_categories c fields) in
  match c, obj_get (s_model s) differences with
  | tiered, Some d => set_tiered d s finalType fields
  | _, _ => fields
  end.

Definition drafts : Type := jsmap jsstr (obj json).
Definition getDraftModelResolution (ds : drafts) (resolutions : ResolutionsMap) (model : jsstr) : obj json :=
  match mget model ds with
  | Some existingDraft => existingDraft
  | None => default [] (obj_get model resolutions)
  end.
Definition applyResolutionSelectionToDraft (resolutions : ResolutionsMap) (differences : DifferencesMap)
  (ds : drafts) (s : ResolutionSelection) : drafts :=
  mset (s_model s) (select_fields differences s (getDraftModelResolution ds resolutions (s_model s))) ds.

(** The drafts written back into a copy of the map. *)
Definition put_draft (next : ResolutionsMap) (md : jsstr * obj json) : ResolutionsMap :=
  match md.2 with [] => obj_delete md.1 next | draft => obj_set md.1 draft next end.

Definition applyResolutionSelections (resolutions : ResolutionsMap) (differences : DifferencesMap)
  (selections : list ResolutionSelection) : ResolutionsMap :=
  match selections with
  | [] => resolutions
  | _ =>
      let ds := fold_left (applyResolutionSelectionToDraft resolutions differences) selections [] in
      fold_left put_draft ds resolutions
  end.
Definition applyResolutionSelection (resolutions : ResolutionsMap) (differences : DifferencesMap)
  (selection : ResolutionSelection) : ResolutionsMap :=
  applyResolutionSelections resolutions differences [selection].

Definition resolveResolutionSelection (differences : DifferencesMap) (s : ResolutionSelection) : ResolutionSelection :=
  Selection (s_model s) (preferred_field differences s) (preferred_value differences s) (s_sourceName s).

Definition effective_key (s : ResolutionSelection) : jsstr := s_model s ++ 0%N :: s_ratioType s.
Definition add_effective (effectiveByKey : jsmap jsstr ResolutionSelection) (resolved : ResolutionSelection)
  : jsmap jsstr ResolutionSelection :=
  let c := getBillingCategory (s_ratioType resolved) in
  let kept :=
    if bool_decide (c = tiered) then effectiveByKey
    else List.filter (fun ke => negb (str_eqb (s_model ke.2) (s_model resolved)
                               && negb (bool_decide (getBillingCategory (s_ratioType ke.2) = tiered))
                               && negb (bool_decide (getBillingCategory (s_ratioType ke.2) = c)))) effectiveByKey in
  mset (effective_key resolved) resolved kept.
Definition getEffectiveResolutionSelections (differences : DifferencesMap) (selections : list ResolutionSelection)
  : list ResolutionSelection :=
  mvalues (fold_left (fun m s => add_effective m (resolveResolutionSelection differences s)) selections []).

(** * Taking choices back *)

Definition remove_field (draft : obj json) (ratioType : jsstr) : obj json :=
  let draft := obj_delete ratioType draft in
  let draft := if str_eqb ratioType "billing_expr" then obj_delete "billing_mode" draft else draft in
  if str_eqb ratioType "billing_mode" then obj_delete "billing_expr" draft else draft.

Definition applyResolutionRemovalPlan (resolutions : ResolutionsMap) (plan : ResolutionRemovalPlan) : ResolutionsMap :=
  fold_left (fun next mr =>
    match obj_get mr.1 resolutions with
    | None => next
    | Some current => put_draft next (mr.1, fold_left remove_field mr.2 current)
    end) plan resolutions.

(** A field added to a plan: to the Set of its model. *)
Definition plan_add (plan : ResolutionRemovalPlan) (mr : jsstr * jsstr) : ResolutionRemovalPlan :=
  match mget mr.1 plan with
  | Some ratioTypes => mset mr.1 (if has mr.2 ratioTypes then ratioTypes else ratioTypes ++ [mr.2]) plan
  | None => mset mr.1 [mr.2] plan
  end.
Definition applyResolutionRemovals (resolutions : ResolutionsMap) (removals : list (jsstr * jsstr)) : ResolutionsMap :=
  match removals with
  | [] => resolutions
  | _ => applyResolutionRemovalPlan resolutions (fold_left plan_add removals [])
  end.
Definition deleteResolutionField (resolutions : ResolutionsMap) (model ratioType : jsstr) : ResolutionsMap :=
  applyResolutionRemovals resolutions [(model, ratioType)].


(** * The table *)

(** A row; its key is its model. *)
Record ModelRow := Row { row_model : jsstr; ratioTypes : ModelDifferences; billingConflict : bool }.

Definition dataSource (differences : DifferencesMap) : list ModelRow :=
  map (fun '(model, types) =>
    let keys := map fst types in
    Row model types (has "model_price" keys && existsb (fun rt => has rt keys) RATIO_SYNC_FIELDS)) differences.

(** [lowercase]: the case mapping of model names. *)
Definition filteredData (lowercase : jsstr -> jsstr) (rows : list ModelRow) (search filter : jsstr) : list ModelRow :=
  let data := if truthy (trim search)
              then List.filter (fun row => includes (lowercase search) (lowercase (row_model row))) rows else rows in
  if no_filter filter then data
  else List.filter (fun row => has filter (map fst (ratioTypes row))) data.

Definition upstreamNames (rows : list ModelRow) (filter : jsstr) : list jsstr :=
  nub (concat (map (fun row =>
    concat (map (fun rt => match obj_get rt (ratioTypes row) with Some e => map fst (upstreams e) | None => [] end)
              (getOrderedRatioTypes (ratioTypes row) filter))) rows)).

(** The values of one upstream that can be chosen in the rows shown. *)
Definition row_selections (upstreamName filter : jsstr) (row : ModelRow) : list ResolutionSelection :=
  omap (fun rt =>
    match upstream_value (ratioTypes row) rt upstreamName with
    | Some v => if isSelectableUpstreamValue (Some v) then Some (Selection (row_model row) rt v upstreamName) else None
    | None => None
    end) (getAlignedRatioTypes (ratioTypes row) [upstreamName] filter).
Definition bulk_selections (rows : list ModelRow) (upstreamName filter : jsstr) : list ResolutionSelection :=
  concat (map (row_selections upstreamName filter) rows).

Record UpstreamBulkSelectState := Bulk {
  displayName : jsstr; selections : list ResolutionSelection; removalPlan : ResolutionRemovalPlan;
  selectableCount : nat; selectedCount : nat }.
Definition is_selected (resolutions : ResolutionsMap) (s : ResolutionSelection) : bool :=
  isSelectedResolutionValue resolutions (s_model s) (s_ratioType s) (Some (s_value s)).
Definition bulkSelectState (differences : DifferencesMap) (resolutions : ResolutionsMap) (rows : list ModelRow)
  (filter upstreamName : jsstr) : UpstreamBulkSelectState :=
  let chosen := bulk_selections rows upstreamName filter in
  let effectiveSelections := getEffectiveResolutionSelections differences chosen in
  Bulk (getUpstreamDisplayName upstreamName) effectiveSelections
    (fold_left (fun plan s => plan_add plan (s_model s, s_ratioType s)) chosen [])
    (length effectiveSelections) (length (List.filter (is_selected resolutions) effectiveSelections)).

(** * The screen *)

Record UpstreamChannel := Channel { ch_id : Z; ch_name : jsstr; ch_base_url : jsstr; ch_type : option Z }.

Definition getDefaultEndpointForChannel (channel : UpstreamChannel) : jsstr :=
  if (ch_id channel =? MODELS_DEV_PRESET_ID)%Z then MODELS_DEV_PRESET_ENDPOINT
  else if (ch_id channel =? OFFICIAL_CHANNEL_ID)%Z then OFFICIAL_CHANNEL_ENDPOINT
  else if bool_decide (ch_type channel = Some OPENROUTER_CHANNEL_TYPE) then OPENROUTER_ENDPOINT
  else DEFAULT_ENDPOINT.

(** Endpoints by channel, filled in for the channels that have none. *)
Definition default_endpoints (channels : list UpstreamChannel) (prev : jsmap Z jsstr) : jsmap Z jsstr :=
  fold_left (fun next ch =>
    if truthy (default [] (mget (ch_id ch) next)) then next
    else mset (ch_id ch) (getDefaultEndpointForChannel ch) next) channels prev.

Record UpstreamConfig := Config { u_id : Z; u_name : jsstr; u_base_url : jsstr; u_endpoint : jsstr }.
Definition upstream_configs (channels : list UpstreamChannel) (endpoints : jsmap Z jsstr) (selectedIds : list Z)
  : list UpstreamConfig :=
  map (fun ch => Config (ch_id ch) (ch_name ch) (ch_base_url ch)
                   (str_or (default [] (mget (ch_id ch) endpoints)) DEFAULT_ENDPOINT))
    (List.filter (fun ch => has (ch_id ch) selectedIds) channels).

(** The first letter of each word in upper case. *)
Definition upper_first (word : jsstr) : jsstr :=
  match word with
  | [] => []
  | c :: t => (if (97 <=? c) && (c <=? 122) then c - 32 else c)%N :: t
  end.
Definition optionKeyBySyncField (ratioType : jsstr) : jsstr :=
  if str_eqb ratioType "billing_mode" then "billing_setting.billing_mode"
  else if str_eqb ratioType "billing_expr" then "billing_setting.billing_expr"
  else concat (map upper_first (split_char 95 ratioType)).

Definition parseJsonRecord (raw : jsstr) : json := default (JObj []) (parse (str_or raw "{}")).

(** The options the screen reads and writes, in the order of [finalRatios]. *)
Definition OPTION_KEYS : list jsstr := [
  "ModelRatio"; "CompletionRatio"; "CacheRatio"; "CreateCacheRatio"; "ImageRatio"; "AudioRatio";
  "AudioCompletionRatio"; "ModelPrice"; "billing_setting.billing_mode"; "billing_setting.billing_expr"].
Definition RATIO_OPTION_KEYS : list jsstr := [
  "ModelRatio"; "CompletionRatio"; "CacheRatio"; "CreateCacheRatio"; "ImageRatio"; "AudioRatio";
  "AudioCompletionRatio"].

(** [raw key]: the text of an option. *)
Definition parsedRatios (raw : jsstr -> jsstr) : obj json := map (fun key => (key, parseJsonRecord (raw key))) OPTION_KEYS.

(** [currentRatios[key][model]]; [None] is the TypeError of a null record. *)
Definition local_value (currentRatios : obj json) (key model : jsstr) : option (option json) :=
  match obj_get key currentRatios with
  | Some JNull | None => None
  | Some v => Some (obj_get model (own_entries v))
  end.

(** The first record of [keys] that has the model. *)
Fixpoint any_local (currentRatios : obj json) (keys : list jsstr) (model : jsstr) : option bool :=
  match keys with
  | [] => Some false
  | key :: rest =>
      v ← local_value currentRatios key model;
      match v with Some _ => Some true | None => any_local currentRatios rest model end
  end.
Definition getLocalBillingCategory (model : jsstr) (currentRatios : obj json) : option (option category) :=
  v ← local_value currentRatios "ModelPrice" model;
  match v with
  | Some _ => Some (Some price)
  | None => (fun b : bool => if b then Some ratio else None) <$> any_local currentRatios RATIO_OPTION_KEYS model
  end.

Definition finalRatios : Type := obj (obj json).
Definition initial_ratios (currentRatios : obj json) : finalRatios :=
  map (fun key => (key, obj_of (own_entries (default JNull (obj_get key currentRatios))))) OPTION_KEYS.
Definition alter_table (key : jsstr) (f : obj json -> obj json) (r : finalRatios) : finalRatios :=
  map (fun kv => if str_eqb kv.1 key then (kv.1, f kv.2) else kv) r.

Definition sync_value (ratioType : jsstr) (value : json) : json :=
  if has ratioType NUMERIC_SYNC_FIELDS then JNum (json_to_number (Some value)) else value.
(** [finalRatios[optionKey][model] = v]; an unknown option is undefined: a TypeError. *)
Definition write_field (model : jsstr) (r : option finalRatios) (kv : jsstr * json) : option finalRatios :=
  r ← r;
  let optionKey := optionKeyBySyncField kv.1 in
  if has optionKey (map fst r) then Some (alter_table optionKey (obj_set model (sync_value kv.1 kv.2)) r) else None.
Definition sync_model (r : option finalRatios) (mr : jsstr * obj json) : option finalRatios :=
  r ← r;
  let selectedTypes := map fst mr.2 in
  let hasPrice := has "model_price" selectedTypes in
  let hasRatio := existsb (fun rt => has rt RATIO_SYNC_FIELDS) selectedTypes in
  let r := if hasPrice then fold_left (fun r key => alter_table key (obj_delete mr.1) r) RATIO_OPTION_KEYS r else r in
  let r := if hasRatio then alter_table "ModelPrice" (obj_delete mr.1) r else r in
  fold_left (write_field mr.1) mr.2 (Some r).
Definition sync_tables (currentRatios : obj json) (resolutions : ResolutionsMap) : option finalRatios :=
  fold_left sync_model resolutions (Some (initial_ratios currentRatios)).
(** The option writes that [performSync] starts. *)
Definition performSync (currentRatios : obj json) (resolutions : ResolutionsMap) : option (list (jsstr * jsstr)) :=
  r ← sync_tables currentRatios resolutions; Some (map (fun kv => (kv.1, stringify_pretty (JObj kv.2))) r).

Definition findSourceChannel (differences : DifferencesMap) (model ratioType : jsstr) (value : json) : jsstr :=
  match obj_get model differences with
  | Some d => match obj_get ratioType d with
              | Some e => match find (fun kv => strict_eq kv.2 value) (upstreams e) with
                          | Some kv => kv.1
                          | None => "Unknown"
                          end
              | None => "Unknown"
              end
  | None => "Unknown"
  end.

Record ConflictItem := Conflict { channel : jsstr; conflict_model : jsstr; conflict_current : jsstr; newVal : jsstr }.

(** The category chosen for a model. *)
Definition new_category (ratios : obj json) : category :=
  let selectedTypes := map fst ratios in
  if has "model_price" selectedTypes then price
  else if existsb (fun rt => has rt selectedTypes) RATIO_SYNC_FIELDS then ratio
  else tiered.

Section Screen.
(** The translation function, and [String(v)] of a value that may be undefined. *)
Context (t : jsstr -> jsstr).
Definition text_of (v : option json) : jsstr := match v with Some j => json_to_string j | None => "undefined" end.
Definition text_or_dash (v : option json) : jsstr := match v with None | Some JNull => "-" | Some j => json_to_string j end.

Definition price_text (v : option json) : jsstr := t "Fixed price" ++ ": " ++ text_of v.
Definition ratio_text (model_ratio completion_ratio : option json) : jsstr :=
  t "Model ratio" ++ ": " ++ text_or_dash model_ratio ++ 10%N :: t "Completion ratio" ++ ": " ++ text_or_dash completion_ratio.

(** The conflict of one model, if any; the outer [None] is a TypeError. *)
Definition model_conflict (differences : DifferencesMap) (currentRatios : obj json) (mr : jsstr * obj json)
  : option (option ConflictItem) :=
  let '(model, ratios) := mr in
  localCat ← getLocalBillingCategory model currentRatios;
  let newCat := new_category ratios in
  match localCat with
  | Some lc =>
      if negb (bool_decide (newCat = tiered)) && negb (bool_decide (lc = newCat)) then
        currentPrice ← local_value currentRatios "ModelPrice" model;
        currentModel ← local_value currentRatios "ModelRatio" model;
        currentCompletion ← local_value currentRatios "CompletionRatio" model;
        let currentDesc := if bool_decide (lc = price) then price_text currentPrice
                           else ratio_text currentModel currentCompletion in
        let newDesc := if bool_decide (newCat = price) then price_text (obj_get "model_price" ratios)
                       else ratio_text (obj_get "model_ratio" ratios) (obj_get "completion_ratio" ratios) in
        let channelNames := join ", " (nub (map (fun kv => findSourceChannel differences model kv.1 kv.2) ratios)) in
        Some (Some (Conflict channelNames model currentDesc newDesc))
      else Some None
  | None => Some None
  end.
Definition conflicts (differences : DifferencesMap) (currentRatios : obj json) (resolutions : ResolutionsMap)
  : option (list ConflictItem) :=
  match mapM (M := option) (model_conflict differences currentRatios) resolutions with
  | Some items => Some (concat (map (fun c => match c with Some item => [item] | None => [] end) items))
  | None => None
  end.

(** The state of the screen, with the writes it has sent. *)
Record screen := Screen {
  differences : DifferencesMap; resolutions : ResolutionsMap; conflictItems : list ConflictItem;
  conflictDialogOpen : bool; sent : list (list (jsstr * jsstr)); toasts : list jsstr }.
Definition set_resolutions (r : ResolutionsMap) (s : screen) : screen :=
  Screen (differences s) r (conflictItems s) (conflictDialogOpen s) (sent s) (toasts s).
Definition push_toast (m : jsstr) (s : screen) : screen :=
  Screen (differences s) (resolutions s) (conflictItems s) (conflictDialogOpen s) (sent s) (toasts s ++ [m]).
Definition send_updates (w : list (jsstr * jsstr)) (s : screen) : screen :=
  Screen (differences s) (resolutions s) (conflictItems s) (conflictDialogOpen s) (sent s ++ [w]) (toasts s).

Definition handleSelectValue (model ratioType : jsstr) (value : json) (sourceName : jsstr) (s : screen) : screen :=
  set_resolutions (applyResolutionSelection (resolutions s) (differences s)
                     (Selection model ratioType value sourceName)) s.
Definition handleSelectValues (sels : list ResolutionSelection) (s : screen) : screen :=
  match sels with
  | [] => s
  | _ => set_resolutions (applyResolutionSelections (resolutions s) (differences s) sels) s
  end.
Definition handleUnselectValue (model ratioType : jsstr) (s : screen) : screen :=
  set_resolutions (deleteResolutionField (resolutions s) model ratioType) s.
Definition handleUnselectValues (plan : ResolutionRemovalPlan) (s : screen) : screen :=
  match plan with
  | [] => s
  | _ => set_resolutions (applyResolutionRemovalPlan (resolutions s) plan) s
  end.

(** The answer of the fetch, with the errors of single channels. *)
Definition fetch_succeeded (diffs : DifferencesMap) (errors : list (jsstr * jsstr)) (s : screen) : screen :=
  let s := match errors with
           | [] => s
           | _ => push_toast (t "Some channels failed: " ++ join ", " (map (fun e => e.1 ++ ": " ++ e.2) errors)) s
           end in
  push_toast (match diffs with [] => t "No price differences found" | _ => t "Upstream prices fetched successfully" end)
    (Screen diffs [] (conflictItems s) (conflictDialogOpen s) (sent s) (toasts s)).

(** A refused or failed fetch. *)
Definition fetch_failed (message : jsstr) (s : screen) : screen :=
  push_toast (str_or message (t "Failed to fetch upstream prices")) s.

(** The channels chosen in the dialog, fetched when there are any. *)
Definition handleConfirmChannelSelection (channels : list UpstreamChannel) (endpoints : jsmap Z jsstr)
  (selectedIds : list Z) (s : screen) : screen * option (list UpstreamConfig) :=
  match upstream_configs channels endpoints selectedIds with
  | [] => (push_toast (t "Please select at least one channel") s, None)
  | upstreams => (s, Some upstreams)
  end.

(** The fields that were written leave the differences. *)
Definition settle_field (model : jsstr) (newDiffs : DifferencesMap) (ratioType : jsstr) : DifferencesMap :=
  match obj_get model newDiffs with
  | Some d =>
      match obj_get ratioType d with
      | Some _ => match obj_delete ratioType d with
                  | [] => obj_delete model newDiffs
                  | d' => obj_set model d' newDiffs
                  end
      | None => newDiffs
      end
  | None => newDiffs
  end.
Definition settle_model (newDiffs : DifferencesMap) (mr : jsstr * obj json) : DifferencesMap :=
  fold_left (settle_field mr.1) (map fst mr.2) newDiffs.
Definition sync_succeeded (s : screen) : screen :=
  push_toast (t "Prices synced successfully")
    (Screen (fold_left settle_model (resolutions s) (differences s)) [] (conflictItems s) (conflictDialogOpen s)
       (sent s) (toasts s)).
Definition sync_failed (message : jsstr) (s : screen) : screen := push_toast (str_or message (t "Failed to sync prices")) s.

(** [None]: a TypeError leaves the handler. *)
Definition handleApplySync (currentRatios : obj json) (s : screen) : option screen :=
  items ← conflicts (differences s) currentRatios (resolutions s);
  match items with
  | [] => w ← performSync currentRatios (resolutions s); Some (send_updates w (push_toast (t "Syncing prices, please wait...") s))
  | _ => Some (Screen (differences s) (resolutions s) items true (sent s) (toasts s))
  end.
Definition handleConfirmConflict (currentRatios : obj json) (s : screen) : option screen :=
  w ← performSync currentRatios (resolutions s); Some (send_updates w s).
Definition setConflictDialogOpen (open : bool) (s : screen) : screen :=
  Screen (differences s) (resolutions s) (conflictItems s) open (sent s) (toasts s).
(** When the writes of a confirmed conflict have settled. *)
Definition confirm_settled (success : bool) (s : screen) : screen :=
  if success then setConflictDialogOpen false s else s.
End Screen.
End RatioSync.
