(* ===== verification/RatioSyncProofs.v ===== *)
(** Synchronising prices ([RatioSync]): what the choices and the writes keep.

    - lemmas on objects: deletion, assignment in place;
    - a batch of choices is the same as one choice after the other;
    - chosen values never mix fixed price and ratios, and expression billing
      comes with its mode, in every state of the screen;
    - choosing a whole column marks all of it, and taking it back clears it;
    - what is written to the option tables, model by model and field by field. *)
From Stdlib Require Import Floats.SpecFloat.
From S2P Require Import Prelude JsNumber JsCollections Json JsonText RatioSync.
Import RatioSync.

Module PriceSync.

(** * Objects *)

Section ObjectLemmas.
Context {A : Type}.
Implicit Types o : obj A.

Lemma obj_get_filter (f : jsstr * A -> bool) o k :
  NoDup o.*1 -> obj_get k (List.filter f o) = v ← obj_get k o; if f (k, v) then Some v else None.
Proof.
  induction o as [|[x v] o IH]; intros Hn; [done|]. apply NoDup_cons in Hn as [Hx Hn]. cbn.
  assert (Hout : str_eqb k x = true -> obj_get k o = None).
  { intros E. apply str_eqb_true in E as ->. by apply obj_get_none. }
  destruct (f (x, v)) eqn:Ef; cbn; destruct (str_eqb k x) eqn:E; rewrite ?IH by done; try done.
  - apply str_eqb_true in E as ->. cbn. by rewrite Ef.
  - rewrite Hout by done. apply str_eqb_true in E as ->. cbn. by rewrite Ef.
Qed.
Lemma obj_filter_NoDup (f : jsstr * A -> bool) o : NoDup o.*1 -> NoDup (List.filter f o).*1.
Proof. intros H. eapply sublist_NoDup; [exact H|]. apply (sublist_map fst), sublist_bfilter. Qed.
Lemma obj_set_nonempty k v o : obj_set k v o <> [].
Proof.
  unfold obj_set. destruct (obj_get k o) eqn:E.
  - destruct o as [|[x w] o]; [done|]. cbn. by destruct (str_eqb k x).
  - destruct o as [|[x w] o]; [done|]. cbn. by destruct (key_before k x).
Qed.
Lemma obj_replace_insert k v w o : obj_get k o = None -> obj_replace k v (obj_insert k w o) = obj_insert k v o.
Proof.
  induction o as [|[x u] o IH]; cbn; [by rewrite str_eqb_refl|]. destruct (str_eqb k x) eqn:E; [done|].
  intros H. destruct (key_before k x); cbn; [by rewrite str_eqb_refl|]. by rewrite E, IH.
Qed.
Lemma obj_replace_replace k v w o : obj_replace k v (obj_replace k w o) = obj_replace k v o.
Proof. induction o as [|[x u] o IH]; [done|]. cbn. destruct (str_eqb k x) eqn:E; cbn; rewrite E; [done|by rewrite IH]. Qed.
(** The last assignment wins. *)
Lemma obj_set_set k v w o : obj_set k v (obj_set k w o) = obj_set k v o.
Proof.
  unfold obj_set at 1. rewrite obj_get_set_eq. unfold obj_set. destruct (obj_get k o) eqn:E.
  - apply obj_replace_replace.
  - by apply obj_replace_insert.
Qed.
Lemma obj_replace_comm k k' v w o : k <> k' ->
  obj_replace k v (obj_replace k' w o) = obj_replace k' w (obj_replace k v o).
Proof.
  intros Hne. induction o as [|[x u] o IH]; [done|]. cbn.
  destruct (str_eqb k' x) eqn:E1, (str_eqb k x) eqn:E2; cbn; rewrite ?E1, ?E2; try done; [|by rewrite IH].
  apply str_eqb_true in E1, E2. congruence.
Qed.
Lemma obj_replace_insert_comm k k' v w o : k <> k' ->
  obj_replace k v (obj_insert k' w o) = obj_insert k' w (obj_replace k v o).
Proof.
  intros Hne. apply str_eqb_false in Hne as E. induction o as [|[x u] o IH]; cbn; [by rewrite E|].
  destruct (key_before k' x) eqn:Eb; cbn.
  - rewrite E. destruct (str_eqb k x); cbn; by rewrite Eb.
  - destruct (str_eqb k x) eqn:Ex; cbn; rewrite Eb; [done|by rewrite IH].
Qed.
(** An assignment to a key that is there commutes with one to another key. *)
Lemma obj_set_comm k k' v w o : k <> k' -> is_Some (obj_get k o) ->
  obj_set k v (obj_set k' w o) = obj_set k' w (obj_set k v o).
Proof.
  intros Hne [u Hu].
  assert (E : forall o', obj_get k o' = Some u -> obj_set k v o' = obj_replace k v o').
  { intros o' H. unfold obj_set. by rewrite H. }
  rewrite (E o Hu), E by (by rewrite obj_get_set_ne). unfold obj_set. rewrite obj_get_replace.
  rewrite (proj2 (str_eqb_false k' k)) by congruence.
  destruct (obj_get k' o); [by apply obj_replace_comm|by apply obj_replace_insert_comm].
Qed.
End ObjectLemmas.


(** * A batch is one choice after the other *)

Lemma select_fields_nonempty d s fields : select_fields d s fields <> [].
Proof.
  unfold select_fields. destruct (getBillingCategory _); try apply obj_set_nonempty.
  destruct (obj_get (s_model s) d) as [m|]; [|apply obj_set_nonempty]. unfold set_tiered.
  assert (H : forall k v o, obj_set (A := json) k v o <> []) by (intros; apply obj_set_nonempty).
  repeat case_match; auto.
Qed.
Lemma put_draft_set next m f : f <> [] -> put_draft next (m, f) = obj_set m f next.
Proof. intros Hf. unfold put_draft. cbn. by destruct f. Qed.

(** The choice of one value, on the fields of its model. *)
Definition choose (d : DifferencesMap) (r : ResolutionsMap) (s : ResolutionSelection) : ResolutionsMap :=
  obj_set (s_model s) (select_fields d s (default [] (obj_get (s_model s) r))) r.
Lemma applyResolutionSelection_choose r d s : applyResolutionSelection r d s = choose d r s.
Proof.
  unfold applyResolutionSelection, applyResolutionSelections. cbn [fold_left].
  unfold applyResolutionSelectionToDraft. cbn [mset]. cbn [fold_left]. rewrite put_draft_set; [done|apply select_fields_nonempty].
Qed.

Definition puts (ds : drafts) (r : ResolutionsMap) : ResolutionsMap := fold_left (fun n md => obj_set md.1 md.2 n) ds r.
Lemma puts_put ds r : Forall (fun md => md.2 <> []) ds -> fold_left put_draft ds r = puts ds r.
Proof.
  intros H. revert r. induction H as [|[m f] ds Hf _ IH]; intros r; [done|]. cbn [fold_left]. unfold puts. cbn [fold_left].
  rewrite put_draft_set by done. apply IH.
Qed.
Lemma puts_get ds m r : NoDup ds.*1 ->
  obj_get m (puts ds r) = match mget m ds with Some f => Some f | None => obj_get m r end.
Proof.
  revert r. induction ds as [|[m' f] ds IH]; intros r Hn; [done|]. apply NoDup_cons in Hn as [Hm Hn].
  unfold puts in *. cbn [fold_left fst snd mget]. rewrite IH by done. rewrite obj_get_set.
  destruct (decide (m' = m)) as [->|Hne].
  - by rewrite str_eqb_refl, (proj2 (mget_none m ds) Hm).
  - by rewrite (proj2 (str_eqb_false m m')) by congruence.
Qed.
Lemma puts_comm ds m f r : m ∉ ds.*1 -> is_Some (obj_get m r) -> obj_set m f (puts ds r) = puts ds (obj_set m f r).
Proof.
  unfold puts. revert r. induction ds as [|[m' g] ds IH]; intros r Hm Hr; [done|]. cbn [fold_left fst snd].
  apply not_elem_of_cons in Hm as [Hne Hm]. cbn in Hne.
  rewrite IH; [by rewrite (obj_set_comm m m')|done|by rewrite obj_get_set_ne].
Qed.
Lemma puts_mset ds m f r : NoDup ds.*1 -> puts (mset m f ds) r = obj_set m f (puts ds r).
Proof.
  revert r. induction ds as [|[m' g] ds IH]; intros r Hn; [done|]. apply NoDup_cons in Hn as [Hm Hn]. cbn [mset].
  destruct (decide (m' = m)) as [->|Hne].
  - change (puts ((m, f) :: ds) r) with (puts ds (obj_set m f r)).
    change (puts ((m, g) :: ds) r) with (puts ds (obj_set m g r)).
    rewrite puts_comm; [by rewrite obj_set_set|done|rewrite obj_get_set_eq; eauto].
  - change (puts ((m', g) :: ds) r) with (puts ds (obj_set m' g r)).
    change (puts ((m', g) :: mset m f ds) r) with (puts (mset m f ds) (obj_set m' g r)). by apply IH.
Qed.

Lemma drafts_sequential d r sels :
  let ds := fold_left (applyResolutionSelectionToDraft r d) sels [] in
  NoDup ds.*1 /\ Forall (fun md => md.2 <> []) ds /\ puts ds r = fold_left (choose d) sels r.
Proof.
  induction sels as [|s sels IH] using rev_ind; [by repeat constructor|]. cbn zeta in *. rewrite !fold_left_app.
  set (ds := fold_left (applyResolutionSelectionToDraft r d) sels []) in *. destruct IH as (Hn & Hf & E).
  cbn [fold_left]. unfold applyResolutionSelectionToDraft.
  split; [by apply mset_NoDup|]. split.
  - apply Forall_forall. intros [m f] Hin. assert (f = select_fields d s (getDraftModelResolution ds r (s_model s)) \/ (m, f) ∈ ds) as [->|H].
    { revert Hin. generalize (select_fields d s (getDraftModelResolution ds r (s_model s))). intros g0 Hin.
      clear -Hin. induction ds as [|[m' g] ds IH]; cbn in Hin.
      - apply list_elem_of_singleton in Hin as [= -> ->]. by left.
      - destruct (decide (m' = s_model s)); apply elem_of_cons in Hin as [[= -> ->]|Hin]; try by left.
        + right. by right.
        + right. left.
        + destruct (IH Hin); [by left|right; by right]. }
    + apply select_fields_nonempty.
    + rewrite Forall_forall in Hf. by apply (Hf (m, f)).
  - assert (Hd : getDraftModelResolution ds r (s_model s) = default [] (obj_get (s_model s) (puts ds r))).
    { unfold getDraftModelResolution. rewrite puts_get by done. by destruct (mget (s_model s) ds). }
    by rewrite puts_mset, Hd, E.
Qed.

Lemma batch_sequential (resolutions : ResolutionsMap) (differences : DifferencesMap) selections :
  applyResolutionSelections resolutions differences selections =
  fold_left (fun r s => applyResolutionSelection r differences s) selections resolutions.
Proof.
  assert (E : fold_left (fun r s => applyResolutionSelection r differences s) selections resolutions =
              fold_left (choose differences) selections resolutions).
  { apply fold_left_ext_on. intros r s _. apply applyResolutionSelection_choose. }
  rewrite E. destruct (drafts_sequential differences resolutions selections) as (_ & Hf & Hp).
  unfold applyResolutionSelections. destruct selections as [|s l]; [done|]. by rewrite puts_put.
Qed.

(** Choosing several values at once gives exactly the object that choosing
    them one after the other gives, order of properties included: the drafts
    hide no interference between choices of the same model. *)
Theorem batch_is_sequential (resolutions : ResolutionsMap) (differences : DifferencesMap) selections :
  applyResolutionSelections resolutions differences selections =
  fold_left (fun r s => applyResolutionSelection r differences s) selections resolutions.
Proof. apply batch_sequential. Qed.

(** * Choices stay consistent *)

(** The fields chosen for one model: each once, of the known ones, fixed price
    never beside a ratio, expression billing never without its mode. *)
Record sound_fields (f : obj json) : Prop := SoundFields {
  sf_distinct : NoDup f.*1;
  sf_known : forall k, is_Some (obj_get k f) -> k ∈ SYNC_FIELD_ORDER;
  sf_exclusive : is_Some (obj_get "model_price" f) -> forall k, is_Some (obj_get k f) -> getBillingCategory k <> ratio;
  sf_mode : is_Some (obj_get "billing_expr" f) -> is_Some (obj_get "billing_mode" f) }.
Record consistent (r : ResolutionsMap) : Prop := Consistent {
  cs_distinct : NoDup r.*1;
  cs_fields : forall m f, obj_get m r = Some f -> sound_fields f /\ f <> [] }.

Lemma no_fields_sound : sound_fields [].
Proof. split; [apply NoDup_nil_2| | |]; try (intros k [v Hv]; done); by intros []. Qed.
Lemma consistent_nil : consistent [].
Proof. split; [apply NoDup_nil_2|done]. Qed.

Lemma category_tiered k : getBillingCategory k = tiered <-> k = "billing_mode" \/ k = "billing_expr".
Proof.
  unfold getBillingCategory. destruct (str_eqb k "model_price") eqn:E.
  - apply str_eqb_true in E as ->. split; [done|by intros [|]].
  - destruct (str_eqb k "billing_mode" || str_eqb k "billing_expr") eqn:E2.
    + apply orb_true_iff in E2 as [E2|E2]; apply str_eqb_true in E2; tauto.
    + apply orb_false_iff in E2 as [E2 E3]. apply str_eqb_false in E2, E3. split; [done|tauto].
Qed.
Lemma category_price k : getBillingCategory k = price <-> k = "model_price".
Proof.
  unfold getBillingCategory. destruct (str_eqb k "model_price") eqn:E.
  - by apply str_eqb_true in E.
  - apply str_eqb_false in E. by destruct (_ || _).
Qed.

(** What remains of the fields when one of category [c] is chosen. *)
Definition kept (c : category) (k : jsstr) : bool :=
  bool_decide (c = tiered) || bool_decide (getBillingCategory k = tiered) || bool_decide (getBillingCategory k = c).
Lemma get_drop c f k : NoDup f.*1 ->
  obj_get k (drop_other_categories c f) = if kept c k then obj_get k f else None.
Proof.
  intros Hn. unfold drop_other_categories. rewrite obj_get_filter by done. unfold kept. cbn [fst].
  destruct (obj_get k f) as [v|]; cbn; [|by destruct (_ || _)].
  by destruct (bool_decide (c = tiered)), (bool_decide (getBillingCategory k = tiered)), (bool_decide (getBillingCategory k = c)).
Qed.
Lemma drop_NoDup c f : NoDup f.*1 -> NoDup (drop_other_categories c f).*1.
Proof. apply obj_filter_NoDup. Qed.

Definition chosen_mode (d : ModelDifferences) (s : ResolutionSelection) (finalType : jsstr) : option json :=
  let modeVal := upstream_value d "billing_mode" (s_sourceName s) in
  if isSelectableUpstreamValue modeVal then modeVal
  else if str_eqb finalType "billing_expr" then Some (JStr "tiered_expr") else None.
Definition chosen_expr (d : ModelDifferences) (s : ResolutionSelection) : option json :=
  let exprVal := upstream_value d "billing_expr" (s_sourceName s) in
  if isSelectableUpstreamValue exprVal then exprVal else None.
Lemma get_set_tiered d s ft f k :
  obj_get k (set_tiered d s ft f) =
  if str_eqb k "billing_expr" then match chosen_expr d s with Some v => Some v | None => obj_get k f end
  else if str_eqb k "billing_mode" then match chosen_mode d s ft with Some v => Some v | None => obj_get k f end
  else obj_get k f.
Proof.
  unfold set_tiered, chosen_expr, chosen_mode.
  destruct (upstream_value d "billing_mode" (s_sourceName s)) as [mv|] eqn:Em;
    [destruct (isSelectableUpstreamValue (Some mv)) eqn:Es|];
    (destruct (upstream_value d "billing_expr" (s_sourceName s)) as [ev|] eqn:Ee;
      [destruct (isSelectableUpstreamValue (Some ev)) eqn:Ex|]);
    cbn [isSelectableUpstreamValue] in *; rewrite ?Es, ?Ex;
    destruct (str_eqb ft "billing_expr"); rewrite ?obj_get_set;
    (destruct (str_eqb k "billing_expr") eqn:E1; [apply str_eqb_true in E1 as ->|]);
    try done; by destruct (str_eqb k "billing_mode").
Qed.
Lemma set_tiered_NoDup d s ft f : NoDup f.*1 -> NoDup (set_tiered d s ft f).*1.
Proof. intros H. unfold set_tiered. repeat case_match; repeat apply obj_set_NoDup; done. Qed.

(** The fields after a choice, by reading. *)
Lemma get_select d s f k md : NoDup f.*1 -> obj_get (s_model s) d = Some md ->
  let ft := preferred_field d s in
  let c := getBillingCategory ft in
  let base := if str_eqb k ft then Some (preferred_value d s) else if kept c k then obj_get k f else None in
  obj_get k (select_fields d s f) =
  if bool_decide (c = tiered) then
    if str_eqb k "billing_expr" then match chosen_expr md s with Some v => Some v | None => base end
    else if str_eqb k "billing_mode" then match chosen_mode md s ft with Some v => Some v | None => base end
    else base
  else base.
Proof.
  intros Hn Hd. cbn zeta. unfold select_fields. rewrite Hd.
  assert (E : forall c, obj_get k (obj_set (preferred_field d s) (preferred_value d s) (drop_other_categories c f)) =
    if str_eqb k (preferred_field d s) then Some (preferred_value d s) else if kept c k then obj_get k f else None).
  { intros c. by rewrite obj_get_set, get_drop. }
  destruct (getBillingCategory (preferred_field d s)) eqn:Ec; cbn [bool_decide]; rewrite ?get_set_tiered, ?E; try done.
Qed.
Lemma select_NoDup d s f : NoDup f.*1 -> NoDup (select_fields d s f).*1.
Proof.
  intros H. unfold select_fields. assert (H' : forall c k v, NoDup (obj_set k v (drop_other_categories c f)).*1).
  { intros c k v. by apply obj_set_NoDup, drop_NoDup. }
  destruct (getBillingCategory _); auto. destruct (obj_get _ _); auto. by apply set_tiered_NoDup.
Qed.

(** A choice the screen offers: a field of a fetched model. *)
Definition offered (d : DifferencesMap) (s : ResolutionSelection) : Prop :=
  is_Some (obj_get (s_model s) d) /\ s_ratioType s ∈ SYNC_FIELD_ORDER.
Lemma preferred_known d s : s_ratioType s ∈ SYNC_FIELD_ORDER -> preferred_field d s ∈ SYNC_FIELD_ORDER.
Proof.
  intros H. unfold preferred_field, getPreferredSyncField. destruct (_ && _); [|done]. apply has_spec. by vm_compute.
Qed.

Lemma select_sound d s f : offered d s -> sound_fields f -> sound_fields (select_fields d s f).
Proof.
  intros [[md Hd] Hk] [H1 H2 H3 H4]. set (ft := preferred_field d s).
  assert (Hft : ft ∈ SYNC_FIELD_ORDER) by by apply preferred_known.
  assert (G := fun k => get_select d s f k md H1 Hd). cbn zeta in G. fold ft in G.
  assert (Hbase : forall k, is_Some (if str_eqb k ft then Some (preferred_value d s)
     else if kept (getBillingCategory ft) k then obj_get k f else None) -> k = ft \/ kept (getBillingCategory ft) k = true /\ is_Some (obj_get k f)).
  { intros k. destruct (str_eqb k ft) eqn:E; [left; by apply str_eqb_true|]. destruct (kept _ k); [by right|by intros []]. }
  revert G. destruct (bool_decide (getBillingCategory ft = tiered)) eqn:Hc; intros G.
  - apply bool_decide_eq_true in Hc. split.
    + by apply select_NoDup.
    + intros k. rewrite G.
      destruct (str_eqb k "billing_expr") eqn:E1; [apply str_eqb_true in E1 as ->; intros _; apply has_spec; by vm_compute|].
      destruct (str_eqb k "billing_mode") eqn:E2; [apply str_eqb_true in E2 as ->; intros _; apply has_spec; by vm_compute|].
      intros [->|[_ Hi]]%Hbase; auto.
    + rewrite G. change (str_eqb "model_price" "billing_expr") with false. change (str_eqb "model_price" "billing_mode") with false.
      cbn iota. intros Hp%Hbase k. rewrite G.
      destruct (str_eqb k "billing_expr") eqn:E1; [by apply str_eqb_true in E1 as ->|].
      destruct (str_eqb k "billing_mode") eqn:E2; [by apply str_eqb_true in E2 as ->|].
      destruct Hp as [Hp|[_ Hp]]; [exfalso; by rewrite <- Hp in Hc|].
      intros [->|[_ Hi]]%Hbase; [by rewrite Hc|by apply H3].
    + rewrite !G. change (str_eqb "billing_expr" "billing_expr") with true. change (str_eqb "billing_mode" "billing_expr") with false.
      change (str_eqb "billing_mode" "billing_mode") with true. cbn iota. intros He.
      apply category_tiered in Hc as [Hc|Hc]; rewrite Hc in *.
      * destruct (chosen_mode md s "billing_mode"); [eauto|]. rewrite str_eqb_refl. eauto.
      * unfold chosen_mode. rewrite str_eqb_refl. destruct (isSelectableUpstreamValue _) eqn:Es; [|eauto].
        destruct (upstream_value md "billing_mode" (s_sourceName s)); [eauto|done].
  - apply bool_decide_eq_false in Hc.
    assert (Hk' : forall k, kept (getBillingCategory ft) k = true ->
      getBillingCategory k = tiered \/ getBillingCategory k = getBillingCategory ft).
    { intros k. unfold kept. rewrite (bool_decide_false _ Hc). cbn [orb]. intros Hor.
      apply orb_true_iff in Hor as [Hor|Hor]; apply bool_decide_eq_true in Hor; auto. }
    split.
    + by apply select_NoDup.
    + intros k. rewrite G. intros [->|[_ Hi]]%Hbase; auto.
    + rewrite G. intros Hp%Hbase k. rewrite G. intros Hi%Hbase.
      assert (Hcat : getBillingCategory ft = price).
      { destruct Hp as [<-|[Hp _]]; [done|]. by apply Hk' in Hp as [Hp|Hp]. }
      destruct Hi as [->|[Hi _]]; [by rewrite Hcat|]. apply Hk' in Hi. rewrite Hcat in Hi. destruct Hi; congruence.
    + rewrite !G. intros [He|[_ He]]%Hbase; [by rewrite <- He in Hc|]. apply H4 in He.
      assert (Hne : str_eqb "billing_mode" ft = false).
      { apply str_eqb_false. intros E. by rewrite <- E in Hc. }
      assert (Hkm : kept (getBillingCategory ft) "billing_mode" = true).
      { unfold kept. by rewrite (bool_decide_true (getBillingCategory "billing_mode" = tiered) eq_refl), orb_true_r. }
      by rewrite Hne, Hkm.
Qed.
Lemma choose_consistent d r s : offered d s -> consistent r -> consistent (choose d r s).
Proof.
  intros Ho [H1 H2]. unfold choose. split; [by apply obj_set_NoDup|]. intros m f. rewrite obj_get_set.
  destruct (str_eqb m (s_model s)); [|apply H2]. intros [= <-]. split; [|apply select_fields_nonempty].
  apply select_sound; [done|]. destruct (obj_get (s_model s) r) as [g|] eqn:E; [by apply (H2 (s_model s))|apply no_fields_sound].
Qed.
Lemma selections_consistent d r sels : Forall (offered d) sels -> consistent r ->
  consistent (applyResolutionSelections r d sels).
Proof.
  intros Ho Hr. rewrite batch_sequential. revert r Hr. induction Ho as [|s l Hs _ IH]; intros r Hr; [done|].
  cbn [fold_left]. apply IH. rewrite applyResolutionSelection_choose. by apply choose_consistent.
Qed.

(** * Taking choices back *)

(** The fields that go with [rt]: itself, and the other field of expression
    billing when it is one of the two. *)
Definition linked (rt k : jsstr) : bool :=
  str_eqb k rt || bool_decide (getBillingCategory rt = tiered) && bool_decide (getBillingCategory k = tiered).

Lemma tiered_cases k : bool_decide (getBillingCategory k = tiered) = str_eqb k "billing_mode" || str_eqb k "billing_expr".
Proof.
  case_bool_decide as H.
  - apply category_tiered in H as [->| ->]; done.
  - symmetry. apply orb_false_iff. rewrite !str_eqb_false. split; intros ->; by apply H.
Qed.
Lemma get_remove_field f rt k : obj_get k (remove_field f rt) = if linked rt k then None else obj_get k f.
Proof.
  unfold linked. rewrite !tiered_cases. unfold remove_field.
  destruct (str_eqb rt "billing_expr") eqn:E1.
  - apply str_eqb_true in E1 as ->. change (str_eqb "billing_expr" "billing_mode") with false. cbn [orb andb].
    rewrite !obj_get_delete. destruct (str_eqb k "billing_mode"), (str_eqb k "billing_expr"); done.
  - destruct (str_eqb rt "billing_mode") eqn:E2.
    + apply str_eqb_true in E2 as ->. cbn [orb andb].
      rewrite !obj_get_delete. destruct (str_eqb k "billing_mode"), (str_eqb k "billing_expr"); done.
    + cbn [orb andb]. rewrite orb_false_r. apply obj_get_delete.
Qed.
Lemma get_remove_fields rts f k :
  obj_get k (fold_left remove_field rts f) = if existsb (fun rt => linked rt k) rts then None else obj_get k f.
Proof.
  revert f. induction rts as [|rt rts IH]; intros f; [done|]. cbn [fold_left existsb]. rewrite IH, get_remove_field.
  by destruct (linked rt k), (existsb _ rts).
Qed.
Lemma remove_field_NoDup f rt : NoDup f.*1 -> NoDup (remove_field f rt).*1.
Proof. intros H. unfold remove_field. repeat case_match; repeat apply obj_delete_NoDup; done. Qed.
Lemma remove_fields_NoDup rts f : NoDup f.*1 -> NoDup (fold_left remove_field rts f).*1.
Proof. revert f. induction rts; intros f H; [done|]. by apply IHrts, remove_field_NoDup. Qed.

Definition some_fields (f : obj json) : option (obj json) := match f with [] => None | _ => Some f end.
Lemma get_put_draft m m' f r : obj_get m (put_draft r (m', f)) = if str_eqb m m' then some_fields f else obj_get m r.
Proof. unfold put_draft. destruct f; cbn [snd fst]; [apply obj_get_delete|apply obj_get_set]. Qed.
Lemma put_draft_NoDup r md : NoDup r.*1 -> NoDup (put_draft r md).*1.
Proof. intros H. unfold put_draft. destruct md.2; [by apply obj_delete_NoDup|by apply obj_set_NoDup]. Qed.

Lemma get_removal_from (r next : ResolutionsMap) (plan : ResolutionRemovalPlan) m : NoDup plan.*1 ->
  obj_get m (fold_left (fun next mr => match obj_get mr.1 r with
                          | None => next
                          | Some current => put_draft next (mr.1, fold_left remove_field mr.2 current)
                          end) plan next) =
  match mget m plan, obj_get m r with
  | Some rts, Some f => some_fields (fold_left remove_field rts f)
  | _, _ => obj_get m next
  end.
Proof.
  revert next. induction plan as [|[m' rts] plan IH]; intros next Hn; [done|].
  apply NoDup_cons in Hn as [Hm Hn]. cbn [fold_left fst snd mget]. rewrite IH by done.
  destruct (decide (m' = m)) as [->|Hne].
  - rewrite (proj2 (mget_none m plan) Hm). destruct (obj_get m r); [|done]. by rewrite get_put_draft, str_eqb_refl.
  - destruct (mget m plan), (obj_get m r); destruct (obj_get m' r);
      rewrite ?get_put_draft, ?(proj2 (str_eqb_false m m')) by congruence; done.
Qed.
Lemma get_removal r plan m : NoDup plan.*1 ->
  obj_get m (applyResolutionRemovalPlan r plan) =
  match mget m plan, obj_get m r with
  | Some rts, Some f => some_fields (fold_left remove_field rts f)
  | _, _ => obj_get m r
  end.
Proof. apply get_removal_from. Qed.
Lemma removal_NoDup r plan : NoDup r.*1 -> NoDup (applyResolutionRemovalPlan r plan).*1.
Proof.
  intros H. unfold applyResolutionRemovalPlan. generalize r at 1 as r0. intros r0. revert r H.
  induction plan as [|mr plan IH]; intros r H; [done|]. cbn [fold_left]. apply IH.
  destruct (obj_get mr.1 r0); [by apply put_draft_NoDup|done].
Qed.

Lemma remove_sound rts f : sound_fields f -> sound_fields (fold_left remove_field rts f).
Proof.
  intros [H1 H2 H3 H4]. assert (G := fun k => get_remove_fields rts f k).
  split; [by apply remove_fields_NoDup|intros k|..]; rewrite !G.
  - destruct (existsb _ rts); [by intros []|auto].
  - destruct (existsb _ rts); [by intros []|]. intros Hp k. rewrite G. destruct (existsb _ rts); [by intros []|by apply H3].
  - assert (E : existsb (fun rt => linked rt "billing_mode") rts = existsb (fun rt => linked rt "billing_expr") rts).
    { induction rts as [|rt rts IH]; [done|]. cbn [existsb]. f_equal; [|apply IH; intros; apply get_remove_fields].
      unfold linked. rewrite !tiered_cases. change (str_eqb "billing_mode" "billing_mode") with true.
      change (str_eqb "billing_expr" "billing_mode") with false. change (str_eqb "billing_expr" "billing_expr") with true.
      change (str_eqb "billing_mode" "billing_expr") with false. cbn [orb]. rewrite !andb_true_r.
      destruct (str_eqb rt "billing_mode") eqn:E1; [apply str_eqb_true in E1 as ->; done|].
      destruct (str_eqb rt "billing_expr") eqn:E2; [apply str_eqb_true in E2 as ->; done|].
      apply str_eqb_false in E1, E2. rewrite !(proj2 (str_eqb_false _ rt)) by congruence. done. }
    rewrite E. case_match; [by intros []|auto].
Qed.
Lemma removal_consistent r plan : NoDup plan.*1 -> consistent r -> consistent (applyResolutionRemovalPlan r plan).
Proof.
  intros Hp [H1 H2]. split; [by apply removal_NoDup|]. intros m f. rewrite get_removal by done.
  destruct (mget m plan) as [rts|]; [|apply H2]. destruct (obj_get m r) as [g|] eqn:E; [|done].
  intros Hf. destruct (H2 m g E) as [Hs _]. apply (remove_sound rts) in Hs.
  unfold some_fields in Hf. destruct (fold_left remove_field rts g) eqn:E2; [done|]. injection Hf as <-. done.
Qed.

(** Plans are Maps. *)
Lemma plan_add_NoDup plan mr : NoDup plan.*1 -> NoDup (plan_add plan mr).*1.
Proof. intros H. unfold plan_add. destruct (mget mr.1 plan); by apply mset_NoDup. Qed.
Lemma plan_NoDup removals plan : NoDup plan.*1 -> NoDup (fold_left plan_add removals plan).*1.
Proof. revert plan. induction removals; intros plan H; [done|]. by apply IHremovals, plan_add_NoDup. Qed.
Lemma plan_fields removals plan m rt :
  (exists rts, mget m (fold_left plan_add removals plan) = Some rts /\ rt ∈ rts) <->
  (m, rt) ∈ removals \/ exists rts, mget m plan = Some rts /\ rt ∈ rts.
Proof.
  revert plan. induction removals as [|[m' rt'] l IH]; intros plan; cbn [fold_left].
  - split; [by right|]. intros [H|H]; [by apply elem_of_nil in H|done].
  - rewrite IH. unfold plan_add. cbn [fst snd].
    assert (E : (exists rts, mget m (match mget m' plan with
        | Some ratioTypes => mset m' (if has rt' ratioTypes then ratioTypes else ratioTypes ++ [rt']) plan
        | None => mset m' [rt'] plan end) = Some rts /\ rt ∈ rts) <->
      (m, rt) = (m', rt') \/ exists rts, mget m plan = Some rts /\ rt ∈ rts).
    { destruct (decide (m = m')) as [->|Hne].
      - destruct (mget m' plan) as [rts|]; rewrite mget_mset_eq.
        + assert (Hin : rt ∈ (if has rt' rts then rts else rts ++ [rt']) <-> rt = rt' \/ rt ∈ rts).
          { destruct (has rt' rts) eqn:Eh; [apply has_spec in Eh; split; [auto|by intros [->|]]|].
            rewrite elem_of_app, list_elem_of_singleton. tauto. }
          split; [intros (x & [= <-] & Hx)|intros Hx].
          * apply Hin in Hx as [->|Hx]; [by left|right; eauto].
          * eexists. split; [done|]. apply Hin. destruct Hx as [[= ->]|(x & [= <-] & Hx)]; auto.
        + split; [intros (x & [= <-] & ->%list_elem_of_singleton); by left|].
          intros [[= ->]|(x & Hx & _)]; [|done]. eexists. split; [done|left].
      - assert (Hm : mget m (match mget m' plan with
        | Some ratioTypes => mset m' (if has rt' ratioTypes then ratioTypes else ratioTypes ++ [rt']) plan
        | None => mset m' [rt'] plan end) = mget m plan) by (destruct (mget m' plan); by apply mget_mset_ne).
        rewrite Hm. split; [by right|]. intros [[= -> _]|H]; [done|done]. }
    rewrite E, elem_of_cons. tauto.
Qed.

(** * The screen *)

Section Reachable.
Context (t : jsstr -> jsstr).

(** What can happen to the screen: answers of the fetch, choices it offers, their
    removal, the start and the end of writes. *)
Inductive screen_step (currentRatios : obj json) : screen -> screen -> Prop :=
| on_fetch diffs errors s : screen_step currentRatios s (fetch_succeeded t diffs errors s)
| on_select m rt v src s : offered (differences s) (Selection m rt v src) ->
    screen_step currentRatios s (handleSelectValue m rt v src s)
| on_selects sels s : Forall (offered (differences s)) sels ->
    screen_step currentRatios s (handleSelectValues sels s)
| on_unselect m rt s : screen_step currentRatios s (handleUnselectValue m rt s)
| on_unselects plan s : NoDup plan.*1 -> screen_step currentRatios s (handleUnselectValues plan s)
| on_apply s s' : handleApplySync t currentRatios s = Some s' -> screen_step currentRatios s s'
| on_confirm s s' : handleConfirmConflict currentRatios s = Some s' -> screen_step currentRatios s s'
| on_settled b s : screen_step currentRatios s (confirm_settled b s)
| on_synced s : screen_step currentRatios s (sync_succeeded t s)
| on_fetch_failed m s : screen_step currentRatios s (fetch_failed t m s)
| on_sync_failed m s : screen_step currentRatios s (sync_failed t m s)
| on_channels chs eps ids s : screen_step currentRatios s (handleConfirmChannelSelection t chs eps ids s).1
| on_dialog open s : screen_step currentRatios s (setConflictDialogOpen open s).

(** The options may change between two steps. *)
Inductive screen_reachable : screen -> Prop :=
| screen_start : screen_reachable (Screen [] [] [] false [] [])
| screen_next currentRatios s s' : screen_reachable s -> screen_step currentRatios s s' -> screen_reachable s'.

Lemma screen_step_consistent cr s s' : screen_step cr s s' -> consistent (resolutions s) -> consistent (resolutions s').
Proof.
  intros Hs Hc. destruct Hs.
  - unfold fetch_succeeded. destruct errors; apply consistent_nil.
  - unfold handleSelectValue. cbn [resolutions set_resolutions].
    apply (selections_consistent _ _ [Selection m rt v src]); [by apply Forall_singleton|done].
  - unfold handleSelectValues. destruct sels as [|x l]; [done|]. by apply selections_consistent.
  - unfold handleUnselectValue, deleteResolutionField, applyResolutionRemovals. cbn [resolutions set_resolutions].
    apply removal_consistent; [|done]. apply plan_NoDup, NoDup_nil_2.
  - unfold handleUnselectValues. destruct plan; [done|]. by apply removal_consistent.
  - unfold handleApplySync in H. destruct (conflicts _ _ _ _) as [[|item items]|]; cbn in H; [|by injection H as <-|done].
    destruct (performSync _ _); cbn in H; [|done]. by injection H as <-.
  - unfold handleConfirmConflict in H. destruct (performSync _ _); cbn in H; [|done]. by injection H as <-.
  - by destruct b.
  - apply consistent_nil.
  - done.
  - done.
  - unfold handleConfirmChannelSelection. by destruct (upstream_configs _ _ _).
  - done.
Qed.
Lemma reachable_consistent s : screen_reachable s -> consistent (resolutions s).
Proof. induction 1 as [|cr s s' _ IH Hs]; [apply consistent_nil|]. by eapply screen_step_consistent. Qed.
End Reachable.

(** C15: whatever is fetched, chosen, taken back and written, in any order: the
    chosen values of a model are known fields, each once, never a fixed price
    together with a ratio, and expression billing never without its mode; a
    model without choices has no entry. *)
Theorem choices_consistent (t : jsstr -> jsstr) s m f :
  screen_reachable t s -> obj_get m (resolutions s) = Some f ->
  f <> [] /\ NoDup f.*1 /\ (forall k, is_Some (obj_get k f) -> k ∈ SYNC_FIELD_ORDER) /\
  (is_Some (obj_get "model_price" f) -> forall k, k ∈ RATIO_SYNC_FIELDS -> obj_get k f = None) /\
  (is_Some (obj_get "billing_expr" f) -> is_Some (obj_get "billing_mode" f)).
Proof.
  intros Hr%reachable_consistent Hf. destruct (cs_fields _ Hr m f Hf) as [[H1 H2 H3 H4] Hne].
  split; [done|]. split; [done|]. split; [done|]. split; [|done].
  intros Hp k Hk. destruct (obj_get k f) as [v|] eqn:E; [|done]. exfalso. apply (H3 Hp k); [eauto|].
  unfold RATIO_SYNC_FIELDS in Hk. repeat (apply elem_of_cons in Hk as [->|Hk]; [done|]). by apply elem_of_nil in Hk.
Qed.

(** A model with a fixed price and ratios upstream, and one with expression billing. *)
Definition sample_differences : DifferencesMap := [
  ("gpt" : jsstr, [
     ("model_ratio" : jsstr, Difference JNull [("up" : jsstr, JNum (num 2)); ("other" : jsstr, JStr "same")] []);
     ("cache_ratio" : jsstr, Difference (JNum (num 1)) [("up" : jsstr, JNum (num 3))] []);
     ("model_price" : jsstr, Difference (JNum (num 1)) [("up" : jsstr, JNum (num 5)); ("other" : jsstr, JNum (num 4))] [])]);
  ("claude" : jsstr, [
     ("model_ratio" : jsstr, Difference (JNum (num 2)) [("up" : jsstr, JNum (num 3))] []);
     ("billing_expr" : jsstr, Difference JNull [("up" : jsstr, JStr "tier(`a`, p)")] [])])].
Definition sample_screen : screen :=
  handleSelectValue "gpt" "model_price" (JNum (num 4)) "other"
    (handleSelectValue "claude" "model_ratio" (JNum (num 3)) "up"
      (handleSelectValue "gpt" "model_ratio" (JNum (num 2)) "up"
        (fetch_succeeded (fun s => s) sample_differences [] (Screen [] [] [] false [] [])))).
Lemma sample_screen_reachable : screen_reachable (fun s => s) sample_screen.
Proof.
  unfold sample_screen. eapply screen_next; [|apply (on_select _ [])].
  - eapply screen_next; [|apply (on_select _ [])].
    + eapply screen_next; [|apply (on_select _ [])].
      * eapply screen_next; [apply screen_start|apply (on_fetch _ [])].
      * split; [eexists; by vm_compute|apply has_spec; by vm_compute].
    + split; [eexists; by vm_compute|apply has_spec; by vm_compute].
  - split; [eexists; by vm_compute|apply has_spec; by vm_compute].
Qed.
Lemma choices_consistent_witness :
  exists f, obj_get "claude" (resolutions sample_screen) = Some f /\
  (f <> [] /\ NoDup f.*1 /\ (forall k, is_Some (obj_get k f) -> k ∈ SYNC_FIELD_ORDER) /\
   (is_Some (obj_get "model_price" f) -> forall k, k ∈ RATIO_SYNC_FIELDS -> obj_get k f = None) /\
   (is_Some (obj_get "billing_expr" f) -> is_Some (obj_get "billing_mode" f))).
Proof.
  eexists. split; [vm_compute; reflexivity|].
  apply (choices_consistent (fun s => s) sample_screen "claude"); [apply sample_screen_reachable|vm_compute; reflexivity].
Defined.

(** * Choosing a column *)

Lemma num_eqb_refl x : is_finite x = true -> num_eqb x x = true.
Proof.
  destruct x as [s|s| |s m e]; try done. intros _. unfold num_eqb, SFeqb. cbn.
  destruct s; by rewrite Z.compare_refl, Pos.compare_refl.
Qed.

Section Column.
Context (d : DifferencesMap) (u : jsstr).

(** A selection that the column of upstream [u] offers. *)
Record fits (s : ResolutionSelection) : Prop := Fits {
  fit_source : s_sourceName s = u;
  fit_selectable : isSelectableUpstreamValue (Some (s_value s)) = true;
  fit_value : exists md, obj_get (s_model s) d = Some md /\ upstream_value md (s_ratioType s) u = Some (s_value s);
  fit_preferred : preferred_field d s = s_ratioType s }.

Lemma fits_resolve s : fits s -> resolveResolutionSelection d s = s.
Proof.
  intros [_ _ _ Hp]. unfold resolveResolutionSelection, preferred_value. rewrite Hp, str_eqb_refl. by destruct s.
Qed.
Lemma fits_preferred_value s : fits s -> preferred_value d s = s_value s.
Proof. intros [_ _ _ Hp]. unfold preferred_value. by rewrite Hp, str_eqb_refl. Qed.
(** Where expression billing is offered, nothing else is. *)
Lemma fits_expr s md v : fits s -> obj_get (s_model s) d = Some md ->
  upstream_value md "billing_expr" u = Some v -> isSelectableUpstreamValue (Some v) = true ->
  s_ratioType s = "billing_expr".
Proof.
  intros [Hs _ _ Hp] Hd Hv Hsel. unfold preferred_field, getPreferredSyncField in Hp. rewrite Hd, Hs in Hp.
  change (default [] (Some md)) with md in Hp. rewrite Hv, Hsel, andb_true_r in Hp.
  destruct (str_eqb (s_ratioType s) "billing_expr") eqn:E; [by apply str_eqb_true|]. cbn [negb] in Hp. by rewrite <- Hp.
Qed.

(** Two choices of which the later removes the earlier. *)
Definition clash (s s' : ResolutionSelection) : Prop :=
  s_model s = s_model s' /\ getBillingCategory (s_ratioType s) <> tiered /\
  getBillingCategory (s_ratioType s') <> tiered /\ getBillingCategory (s_ratioType s) <> getBillingCategory (s_ratioType s').

Lemma kept_no_clash s s' : s_model s = s_model s' -> ~ clash s s' ->
  kept (getBillingCategory (s_ratioType s)) (s_ratioType s') = true.
Proof.
  intros Hm Hc. unfold kept. repeat case_bool_decide; try done. exfalso. apply Hc. unfold clash. repeat split; congruence.
Qed.

Definition distinct_fields (r : ResolutionsMap) : Prop := forall m f, obj_get m r = Some f -> NoDup f.*1.
Lemma choose_distinct r s : distinct_fields r -> distinct_fields (choose d r s).
Proof.
  intros H m f. unfold choose. rewrite obj_get_set. destruct (str_eqb m (s_model s)); [|apply H]. intros [= <-].
  apply select_NoDup. destruct (obj_get (s_model s) r) as [g|] eqn:E; [by apply (H (s_model s))|apply NoDup_nil_2].
Qed.
Definition holds (r : ResolutionsMap) (s : ResolutionSelection) : Prop :=
  exists f, obj_get (s_model s) r = Some f /\ obj_get (s_ratioType s) f = Some (s_value s).

Lemma choose_holds r s : fits s -> distinct_fields r -> holds (choose d r s) s.
Proof.
  intros Hf Hr. pose proof (fits_preferred_value s Hf) as Hv. destruct Hf as [Hs Hsel (md & Hd & Hval) Hp].
  eexists. split; [unfold choose; apply obj_get_set_eq|].
  rewrite get_select with (md := md); [|destruct (obj_get (s_model s) r) as [g|] eqn:E;
    [by apply (Hr (s_model s))|apply NoDup_nil_2]|done].
  rewrite Hp, str_eqb_refl, Hv. case_bool_decide as Hc; [|done]. apply category_tiered in Hc as [Hc|Hc].
  - rewrite Hc in *. change (str_eqb "billing_mode" "billing_expr") with false. rewrite str_eqb_refl. cbn iota.
    unfold chosen_mode. by rewrite Hs, Hval, Hsel.
  - rewrite Hc in *. rewrite str_eqb_refl. unfold chosen_expr. by rewrite Hs, Hval, Hsel.
Qed.
Lemma choose_keeps r s s' : fits s -> fits s' -> distinct_fields r ->
  ~ clash s s' -> (s_model s, s_ratioType s) <> (s_model s', s_ratioType s') -> holds r s' -> holds (choose d r s) s'.
Proof.
  intros Hf Hf' Hr Hc Hne (f & Hm & Hv). destruct (decide (s_model s' = s_model s)) as [E|E].
  - assert (Ht : s_ratioType s' <> s_ratioType s) by (intros Et; apply Hne; congruence).
    eexists. split; [unfold choose; rewrite E; apply obj_get_set_eq|].
    rewrite E in Hm. rewrite Hm. pose proof Hf as [Hs Hsel (md & Hd & Hval) Hp].
    pose proof Hf' as [Hs' Hsel' (md' & Hd' & Hval') Hp']. rewrite E, Hd in Hd'. injection Hd' as <-.
    change (default [] (Some f)) with f. rewrite get_select with (md := md); [|by apply (Hr (s_model s))|done].
    rewrite Hp, (proj2 (str_eqb_false _ _) Ht), kept_no_clash, Hv by done.
    case_bool_decide as Htier; [|done]. apply category_tiered in Htier as Htt.
    destruct (str_eqb (s_ratioType s') "billing_expr") eqn:E1.
    { apply str_eqb_true in E1. exfalso. apply Ht. rewrite E1. symmetry.
      rewrite E1 in Hval'. by apply (fits_expr s md (s_value s')). }
    destruct (str_eqb (s_ratioType s') "billing_mode") eqn:E2; [|done]. apply str_eqb_true in E2. exfalso.
    destruct Htt as [Htt|Htt]; [congruence|]. rewrite Htt in Hval. apply str_eqb_false in E1. apply E1.
    apply (fits_expr s' md (s_value s)); [done|by rewrite E|done|done].
  - exists f. split; [|done]. unfold choose. by rewrite obj_get_set_ne.
Qed.

(** A list without clashes or repetitions is chosen as a whole. *)
Lemma choose_all E r : NoDup (map effective_key E) -> Forall fits E ->
  (forall s s', s ∈ E -> s' ∈ E -> ~ clash s s') -> distinct_fields r ->
  forall s, s ∈ E -> holds (fold_left (choose d) E r) s.
Proof.
  induction E as [|x E IH] using rev_ind; intros Hn Hf Hc Hr s Hs; [by apply elem_of_nil in Hs|].
  rewrite fold_left_app. cbn [fold_left]. rewrite map_app in Hn. apply NoDup_app in Hn as (Hn & Hx & _).
  apply Forall_app in Hf as [HfE Hfx]. rewrite Forall_singleton in Hfx.
  assert (Hr' : distinct_fields (fold_left (choose d) E r)).
  { clear -Hr. revert r Hr. induction E as [|y E IH]; intros r Hr; [done|]. by apply IH, choose_distinct. }
  apply elem_of_app in Hs as [Hs| ->%list_elem_of_singleton]; [|by apply choose_holds].
  rewrite Forall_forall in HfE. apply choose_keeps; auto.
  - apply Hc; apply elem_of_app; [right; left|by left].
  - intros [= E1 E2]. apply (Hx (effective_key s)); [apply elem_of_map; eauto|].
    cbn. apply list_elem_of_singleton. unfold effective_key. by rewrite E1, E2.
  - apply IH; auto; [by apply Forall_forall|]. intros a b Ha Hb. apply Hc; apply elem_of_app; by left.
Qed.
End Column.

Section Effective.
Context (d : DifferencesMap) (u : jsstr).

Record effective_ok (sels : list ResolutionSelection) (m : jsmap jsstr ResolutionSelection) : Prop := EffectiveOk {
  eo_distinct : NoDup m.*1;
  eo_keys : Forall (fun ke => ke.1 = effective_key ke.2) m;
  eo_from : forall ke, ke ∈ m -> ke.2 ∈ sels;
  eo_clash : forall x y, x ∈ m -> y ∈ m -> ~ clash x.2 y.2 }.

Lemma add_effective_ok sels m s : effective_ok sels m -> effective_ok (sels ++ [s]) (add_effective m s).
Proof.
  intros [H1 H2 H3 H4]. unfold add_effective.
  set (c := getBillingCategory (s_ratioType s)).
  set (keep := if bool_decide (c = tiered) then m else _).
  assert (Hsub : forall x, x ∈ keep -> x ∈ m /\ ~ clash x.2 s).
  { intros x. unfold keep, clash. case_bool_decide as Hc; [intros Hx; split; [done|]; fold c; tauto|].
    intros [Hx Hf]%elem_of_bfilter. split; [done|]. intros (E1 & E2 & E3 & E4). fold c in E4.
    rewrite (proj2 (str_eqb_true _ _) E1), (bool_decide_false _ E2), (bool_decide_false _ E4) in Hf. done. }
  assert (Hcomm : forall x y, clash x y -> clash y x) by (unfold clash; intros x y; intuition congruence).
  assert (Hk : NoDup keep.*1).
  { unfold keep. case_bool_decide; [done|]. eapply sublist_NoDup; [exact H1|]. apply (sublist_map fst), sublist_bfilter. }
  split.
  - by apply mset_NoDup.
  - apply Forall_forall. intros x [->|Hx]%elem_of_mset; [done|]. rewrite Forall_forall in H2. by apply H2, Hsub.
  - intros x [->|Hx]%elem_of_mset; apply elem_of_app; [right; left|left; by apply H3, Hsub].
  - intros x y [->|Hx]%elem_of_mset [->|Hy]%elem_of_mset.
    + intros (_ & _ & _ & E). done.
    + intros Hc%Hcomm. by apply Hsub in Hy as [_ Hy].
    + by apply Hsub in Hx as [_ Hx].
    + apply H4; by apply Hsub.
Qed.

Lemma effective_spec sels : Forall (fits d u) sels ->
  let E := getEffectiveResolutionSelections d sels in
  NoDup (map effective_key E) /\ (forall s, s ∈ E -> s ∈ sels) /\
  (forall s s', s ∈ E -> s' ∈ E -> ~ clash s s').
Proof.
  intros Hf. cbn zeta. unfold getEffectiveResolutionSelections.
  assert (E : fold_left (fun m s => add_effective m (resolveResolutionSelection d s)) sels [] =
              fold_left add_effective sels []).
  { apply fold_left_ext_on. intros m s Hs. rewrite Forall_forall in Hf. by rewrite (fits_resolve d u) by auto. }
  rewrite E. clear E.
  assert (Hok : effective_ok sels (fold_left add_effective sels [])).
  { clear Hf. induction sels as [|s sels IH] using rev_ind.
    - split; [apply NoDup_nil_2|constructor|intros x Hx; by apply elem_of_nil in Hx|intros x y Hx; by apply elem_of_nil in Hx].
    - rewrite fold_left_app. by apply add_effective_ok. }
  destruct Hok as [H1 H2 H3 H4]. set (m := fold_left add_effective sels []) in *. unfold mvalues.
  split; [|split].
  - assert (Em : map effective_key m.*2 = m.*1).
    { clear -H2. induction H2 as [|[k x] m E _ IH]; [done|]. cbn in *. by rewrite IH, E. }
    by rewrite Em.
  - intros s (ke & -> & Hke)%list_elem_of_fmap. by apply H3.
  - intros s s' (x & -> & Hx)%list_elem_of_fmap (y & -> & Hy)%list_elem_of_fmap. by apply H4.
Qed.
End Effective.

(** ** The rows of the table *)

(** The rows shown: rows of the table, none twice. *)
Definition shown_rows (d : DifferencesMap) (rows : list ModelRow) : Prop := forall row, row ∈ rows -> row ∈ dataSource d.

Lemma row_differences d row : NoDup d.*1 -> row ∈ dataSource d -> obj_get (row_model row) d = Some (ratioTypes row).
Proof.
  intros Hn ([m types] & -> & Hin)%elem_of_map. cbn. by apply obj_get_NoDup.
Qed.
Lemma filtered_rows lowercase d search filter : shown_rows d (filteredData lowercase (dataSource d) search filter).
Proof.
  intros row. unfold filteredData.
  set (rows := if truthy (trim search) then _ else _).
  assert (Hs : row ∈ rows -> row ∈ dataSource d).
  { unfold rows. destruct (truthy _); [|done]. by intros [H _]%elem_of_bfilter. }
  destruct (no_filter filter); [done|]. intros [H _]%elem_of_bfilter. auto.
Qed.
Lemma bulk_fits d rows u filter : NoDup d.*1 -> shown_rows d rows -> Forall (fits d u) (bulk_selections rows u filter).
Proof.
  intros Hn Hr. apply Forall_forall. intros s Hs. unfold bulk_selections in Hs.
  apply elem_of_concat_map in Hs as (row & Hrow & Hs). unfold row_selections in Hs.
  apply list_elem_of_omap in Hs as (rt & Hrt & Hs).
  destruct (upstream_value (ratioTypes row) rt u) as [v|] eqn:Ev; [|done].
  destruct (isSelectableUpstreamValue (Some v)) eqn:Es; [|done]. injection Hs as <-.
  pose proof (row_differences d row Hn (Hr row Hrow)) as Hd. split; cbn [s_sourceName s_value s_model s_ratioType]; try done.
  - by exists (ratioTypes row).
  - unfold preferred_field. cbn [s_model s_ratioType s_sourceName]. rewrite Hd. change (default [] (Some ?x)) with x.
    unfold getAlignedRatioTypes in Hrt. apply elem_of_bfilter in Hrt as [_ Hvis]. apply has_spec in Hvis.
    cbn [map concat] in Hvis. rewrite app_nil_r in Hvis. apply elem_of_bfilter in Hvis as [_ Hp].
    by apply str_eqb_true.
Qed.

(** Values that compare equal to themselves once chosen. *)
Definition comparable (ratioType : jsstr) (v : json) : bool :=
  if has ratioType NUMERIC_SYNC_FIELDS then is_finite (json_to_number (Some v)) else strict_eq v v.
Lemma holds_selected r s : isSelectableUpstreamValue (Some (s_value s)) = true ->
  comparable (s_ratioType s) (s_value s) = true -> holds r s -> is_selected r s = true.
Proof.
  intros Hs Hc (f & Hm & Hv). unfold is_selected, isSelectedResolutionValue. rewrite Hs, Hm, Hv. cbn [negb].
  unfold comparable in Hc. destruct (has _ _); [|done]. by rewrite Hc, num_eqb_refl.
Qed.
Lemma bfilter_all_length {A} (f : A -> bool) l : (forall x, x ∈ l -> f x = true) -> length (List.filter f l) = length l.
Proof. intros H. by rewrite bfilter_id. Qed.

(** Choosing a whole column marks all of it: after the values of an
    upstream are chosen together, every value its column offers counts as
    chosen, whatever was chosen before, however the rows are filtered and
    whichever categories they mix. *)
Theorem bulk_select_marks_all (d : DifferencesMap) (r : ResolutionsMap) rows filter u :
  NoDup d.*1 -> shown_rows d rows -> consistent r ->
  (forall s, s ∈ bulk_selections rows u filter -> comparable (s_ratioType s) (s_value s) = true) ->
  let b := bulkSelectState d r rows filter u in
  let b' := bulkSelectState d (applyResolutionSelections r d (selections b)) rows filter u in
  selectedCount b' = selectableCount b' /\ selections b' = selections b.
Proof.
  intros Hn Hr Hc Hcmp. cbn zeta. unfold bulkSelectState. cbn [selections selectedCount selectableCount].
  split; [|done]. pose proof (bulk_fits d rows u filter Hn Hr) as Hf.
  destruct (effective_spec d u _ Hf) as (H1 & H2 & H3).
  set (E := getEffectiveResolutionSelections d (bulk_selections rows u filter)) in *.
  assert (HfE : Forall (fits d u) E).
  { apply Forall_forall. intros s Hs. rewrite Forall_forall in Hf. auto. }
  apply bfilter_all_length. intros s Hs. rewrite batch_sequential.
  rewrite (fold_left_ext_on _ (choose d)) by (intros; apply applyResolutionSelection_choose).
  rewrite Forall_forall in HfE. apply holds_selected; [apply HfE; done|auto|].
  apply (choose_all d u); auto; [by apply Forall_forall|].
  intros m f Hm. by destruct (cs_fields r Hc m f Hm) as [[Hnd _ _ _] _].
Qed.

(** Taking a column back leaves none of its values chosen, and the choices
    that remain are consistent. *)
Theorem bulk_unselect_clears (d : DifferencesMap) (r : ResolutionsMap) rows filter u :
  NoDup d.*1 -> shown_rows d rows -> consistent r ->
  let r' := applyResolutionRemovalPlan r (removalPlan (bulkSelectState d r rows filter u)) in
  selectedCount (bulkSelectState d r' rows filter u) = 0 /\ consistent r'.
Proof.
  intros Hn Hr Hc. cbn zeta. set (plan := removalPlan _).
  assert (Hplan : plan = fold_left plan_add (map (fun s => (s_model s, s_ratioType s)) (bulk_selections rows u filter)) []).
  { unfold plan, bulkSelectState. cbn [removalPlan]. by rewrite fold_left_map. }
  assert (Hnd : NoDup plan.*1) by (rewrite Hplan; apply plan_NoDup, NoDup_nil_2).
  split; [|by apply removal_consistent].
  unfold bulkSelectState. cbn [selectedCount]. rewrite bfilter_none; [done|]. intros s Hs.
  destruct (effective_spec d u _ (bulk_fits d rows u filter Hn Hr)) as (_ & Hin & _). apply Hin in Hs.
  assert (exists rts, mget (s_model s) plan = Some rts /\ s_ratioType s ∈ rts) as (rts & Hm & Hrt).
  { rewrite Hplan. apply plan_fields. left. apply elem_of_map. by exists s. }
  unfold is_selected, isSelectedResolutionValue. destruct (negb _); [done|]. rewrite get_removal by done. rewrite Hm.
  destruct (obj_get (s_model s) r) as [f|]; [|done]. unfold some_fields.
  destruct (fold_left remove_field rts f) eqn:E; [done|]. rewrite <- E, get_remove_fields.
  assert (Hex : existsb (fun rt => linked rt (s_ratioType s)) rts = true).
  { apply existsb_exists. exists (s_ratioType s). split; [by apply list_elem_of_In|]. unfold linked. by rewrite str_eqb_refl. }
  by rewrite Hex.
Qed.

Lemma sample_distinct : NoDup sample_differences.*1.
Proof. apply (bool_decide_unpack _); by vm_compute. Qed.
Lemma all_rows d : shown_rows d (dataSource d).
Proof. by intros row. Qed.
Lemma sample_consistent : consistent (resolutions sample_screen).
Proof. apply (reachable_consistent (fun s => s)), sample_screen_reachable. Qed.
Lemma bulk_select_marks_all_witness :
  let b := bulkSelectState sample_differences (resolutions sample_screen) (dataSource sample_differences) [] "up" in
  let b' := bulkSelectState sample_differences
      (applyResolutionSelections (resolutions sample_screen) sample_differences (selections b))
      (dataSource sample_differences) [] "up" in
  (selectedCount b' = selectableCount b' /\ selections b' = selections b) /\
  (selectedCount b, selectableCount b) = (1, 2).
Proof.
  split; [|by vm_compute].
  apply (bulk_select_marks_all sample_differences (resolutions sample_screen) (dataSource sample_differences) [] "up");
    [apply sample_distinct|apply all_rows|apply sample_consistent|].
  apply Forall_forall. apply (bool_decide_unpack _). by vm_compute.
Defined.
Lemma bulk_unselect_clears_witness :
  let plan := removalPlan (bulkSelectState sample_differences (resolutions sample_screen) (dataSource sample_differences) [] "up") in
  let r' := applyResolutionRemovalPlan (resolutions sample_screen) plan in
  selectedCount (bulkSelectState sample_differences r' (dataSource sample_differences) [] "up") = 0 /\ consistent r'.
Proof.
  apply (bulk_unselect_clears sample_differences (resolutions sample_screen) (dataSource sample_differences) [] "up");
    [apply sample_distinct|apply all_rows|apply sample_consistent].
Defined.

(** * What is written *)

(** The option a known field goes to, and back. *)
Definition field_of_option (key : jsstr) : option jsstr :=
  find (fun rt => str_eqb (optionKeyBySyncField rt) key) SYNC_FIELD_ORDER.
Lemma option_of_known rt : rt ∈ SYNC_FIELD_ORDER ->
  optionKeyBySyncField rt ∈ OPTION_KEYS /\ field_of_option (optionKeyBySyncField rt) = Some rt.
Proof.
  intros H. unfold SYNC_FIELD_ORDER, RATIO_SYNC_FIELDS in H. cbn [app] in H.
  repeat (apply elem_of_cons in H as [->|H]; [split; [apply has_spec; by vm_compute|by vm_compute]|]).
  by apply elem_of_nil in H.
Qed.
Lemma option_inj rt rt' : rt ∈ SYNC_FIELD_ORDER -> rt' ∈ SYNC_FIELD_ORDER ->
  optionKeyBySyncField rt = optionKeyBySyncField rt' -> rt = rt'.
Proof.
  intros H H' E. destruct (option_of_known rt H) as [_ E1]. destruct (option_of_known rt' H') as [_ E2]. congruence.
Qed.

(** The entry of a model in one of the tables. *)
Definition entry (r : finalRatios) (key model : jsstr) : option json := o ← obj_get key r; obj_get model o.
Definition tables (r : finalRatios) : Prop := map fst r = OPTION_KEYS.

Lemma alter_keys key f r : map fst (alter_table key f r) = map fst r.
Proof. unfold alter_table. rewrite map_map. apply map_ext. intros [k v]. by destruct (str_eqb _ _). Qed.
Lemma get_alter key f r k : obj_get k (alter_table key f r) = if str_eqb k key then f <$> obj_get k r else obj_get k r.
Proof.
  unfold alter_table. induction r as [|[x o] r IH]; cbn; [by destruct (str_eqb k key)|].
  destruct (str_eqb x key) eqn:E1; cbn; destruct (str_eqb k x) eqn:E2; rewrite ?IH; try done.
  - apply str_eqb_true in E1, E2. subst. by rewrite str_eqb_refl.
  - apply str_eqb_true in E2 as ->. by rewrite E1.
Qed.
Lemma entry_alter_delete key m r k m' :
  entry (alter_table key (obj_delete m) r) k m' =
  if str_eqb k key && str_eqb m' m then None else entry r k m'.
Proof.
  unfold entry. rewrite get_alter. destruct (str_eqb k key); cbn; [|done].
  destruct (obj_get k r) as [o|]; cbn; [|by destruct (str_eqb m' m)]. by rewrite obj_get_delete.
Qed.
Lemma entry_alter_set key m v r k m' : is_Some (obj_get key r) ->
  entry (alter_table key (obj_set m v) r) k m' =
  if str_eqb k key && str_eqb m' m then Some v else entry r k m'.
Proof.
  intros [o Ho]. unfold entry. rewrite get_alter. destruct (str_eqb k key) eqn:E; cbn; [|done].
  apply str_eqb_true in E as ->. rewrite Ho. cbn. by rewrite obj_get_set.
Qed.
Lemma table_some r k : tables r -> k ∈ OPTION_KEYS -> is_Some (obj_get k r).
Proof.
  intros Ht Hk. destruct (obj_get k r) eqn:E; [eauto|]. apply obj_get_none in E. destruct E.
  change (r.*1) with (map fst r). by rewrite Ht.
Qed.

Lemma known_cases (P : jsstr -> bool) : forallb P SYNC_FIELD_ORDER = true -> forall rt, rt ∈ SYNC_FIELD_ORDER -> P rt = true.
Proof. intros H rt Hrt. rewrite forallb_forall in H. by apply H, list_elem_of_In. Qed.
Lemma ratio_option rt : rt ∈ SYNC_FIELD_ORDER -> has (optionKeyBySyncField rt) RATIO_OPTION_KEYS = has rt RATIO_SYNC_FIELDS.
Proof.
  intros H. apply Bool.eqb_prop. revert rt H. apply (known_cases (fun rt => Bool.eqb _ _)). by vm_compute.
Qed.
Lemma price_option rt : rt ∈ SYNC_FIELD_ORDER -> str_eqb (optionKeyBySyncField rt) "ModelPrice" = str_eqb rt "model_price".
Proof.
  intros H. apply Bool.eqb_prop. revert rt H. apply (known_cases (fun rt => Bool.eqb _ _)). by vm_compute.
Qed.
Lemma same_option rt rt' : rt ∈ SYNC_FIELD_ORDER -> rt' ∈ SYNC_FIELD_ORDER ->
  str_eqb (optionKeyBySyncField rt) (optionKeyBySyncField rt') = str_eqb rt rt'.
Proof.
  intros H H'. destruct (str_eqb rt rt') eqn:E.
  - apply str_eqb_true in E as ->. apply str_eqb_refl.
  - apply str_eqb_false. intros E'. apply str_eqb_false in E. by apply E, option_inj.
Qed.

Lemma clear_ratios m keys r k m' :
  entry (fold_left (fun r key => alter_table key (obj_delete m) r) keys r) k m' =
  if has k keys && str_eqb m' m then None else entry r k m'.
Proof.
  revert r. induction keys as [|key keys IH]; intros r; [done|]. cbn [fold_left]. rewrite IH, entry_alter_delete.
  assert (E : has k (key :: keys) = str_eqb k key || has k keys).
  { apply Bool.eq_iff_eq_true. by rewrite orb_true_iff, !has_spec, elem_of_cons, str_eqb_true. }
  rewrite E. by destruct (str_eqb k key), (has k keys), (str_eqb m' m).
Qed.
Lemma clear_keys m keys r :
  map fst (fold_left (fun r key => alter_table key (obj_delete m) r) keys r) = map fst r.
Proof. revert r. induction keys as [|key keys IH]; intros r; [done|]. cbn [fold_left]. by rewrite IH, alter_keys. Qed.

(** The fields of one model, written one after the other. *)
Lemma write_fields m f r : NoDup f.*1 -> (forall k, is_Some (obj_get k f) -> k ∈ SYNC_FIELD_ORDER) -> tables r ->
  exists r', fold_left (write_field m) f (Some r) = Some r' /\ tables r' /\
  forall rt m', rt ∈ SYNC_FIELD_ORDER ->
    entry r' (optionKeyBySyncField rt) m' =
    match (if str_eqb m' m then obj_get rt f else None) with
    | Some v => Some (sync_value rt v)
    | None => entry r (optionKeyBySyncField rt) m'
    end.
Proof.
  revert r. induction f as [|[x v] f IH]; intros r Hn Hk Ht.
  { exists r. split; [done|]. split; [done|]. intros rt m' _. by destruct (str_eqb m' m). }
  apply NoDup_cons in Hn as [Hx Hn].
  assert (Hxk : x ∈ SYNC_FIELD_ORDER) by (apply Hk; cbn; rewrite str_eqb_refl; eauto).
  destruct (option_of_known x Hxk) as [Hopt _]. cbn [fold_left].
  assert (E : write_field m (Some r) (x, v) = Some (alter_table (optionKeyBySyncField x) (obj_set m (sync_value x v)) r)).
  { unfold write_field. cbn [mbind option_bind fst snd]. unfold tables in Ht. by rewrite Ht, (proj2 (has_spec _ _) Hopt). }
  rewrite E. destruct (IH (alter_table (optionKeyBySyncField x) (obj_set m (sync_value x v)) r)) as (r' & E' & Ht' & He); [done| | |].
  - intros k Hs. apply Hk. cbn. destruct (str_eqb k x); [eauto|done].
  - unfold tables. by rewrite alter_keys.
  - exists r'. split; [done|]. split; [done|]. intros rt m' Hrt. rewrite He by done.
    rewrite entry_alter_set by (by apply table_some). rewrite same_option by done. cbn [obj_get].
    destruct (str_eqb m' m); [|by rewrite andb_false_r]. rewrite andb_true_r.
    destruct (str_eqb rt x) eqn:Ex; [|done]. apply str_eqb_true in Ex as ->. by rewrite (proj2 (obj_get_none x f) Hx).
Qed.

(** The entry a choice of fields leaves, over the present one. *)
Definition synced (f : obj json) (rt : jsstr) (cur : option json) : option json :=
  match obj_get rt f with
  | Some v => Some (sync_value rt v)
  | None =>
      if has "model_price" (map fst f) && has rt RATIO_SYNC_FIELDS then None
      else if existsb (fun k => has k RATIO_SYNC_FIELDS) (map fst f) && str_eqb rt "model_price" then None
      else cur
  end.

Lemma sync_one m f r : sound_fields f -> tables r ->
  exists r', sync_model (Some r) (m, f) = Some r' /\ tables r' /\
  forall rt m', rt ∈ SYNC_FIELD_ORDER ->
    entry r' (optionKeyBySyncField rt) m' =
    if str_eqb m' m then synced f rt (entry r (optionKeyBySyncField rt) m') else entry r (optionKeyBySyncField rt) m'.
Proof.
  intros [Hn Hk _ _] Ht. unfold sync_model. cbn [mbind option_bind fst snd].
  set (hp := has "model_price" (map fst f)). set (hr := existsb (fun k => has k RATIO_SYNC_FIELDS) (map fst f)).
  set (r1 := if hp then fold_left (fun r key => alter_table key (obj_delete m) r) RATIO_OPTION_KEYS r else r).
  set (r2 := if hr then alter_table "ModelPrice" (obj_delete m) r1 else r1).
  assert (Ht2 : tables r2).
  { unfold tables. subst r2. assert (tables r1) as H1 by (unfold tables; subst r1; destruct hp; [by rewrite clear_keys|done]).
    destruct hr; [by rewrite alter_keys|done]. }
  destruct (write_fields m f r2 Hn Hk Ht2) as (r' & E & Ht' & He). exists r'. split; [done|]. split; [done|].
  intros rt m' Hrt. rewrite He by done.
  assert (E2 : entry r2 (optionKeyBySyncField rt) m' =
    if hp && has rt RATIO_SYNC_FIELDS && str_eqb m' m then None
    else if hr && str_eqb rt "model_price" && str_eqb m' m then None else entry r (optionKeyBySyncField rt) m').
  { subst r2 r1. destruct hp, hr; cbn [andb]; rewrite ?entry_alter_delete, ?clear_ratios, ?price_option, ?ratio_option by done;
      destruct (has rt RATIO_SYNC_FIELDS), (str_eqb m' m), (str_eqb rt "model_price"); done. }
  unfold synced. fold hp hr. destruct (str_eqb m' m); [|by rewrite E2, !andb_false_r].
  destruct (obj_get rt f); [done|]. by rewrite E2, !andb_true_r.
Qed.

Lemma sync_all r resolutions : consistent resolutions -> tables r ->
  exists r', fold_left sync_model resolutions (Some r) = Some r' /\ tables r' /\
  forall rt m, rt ∈ SYNC_FIELD_ORDER ->
    entry r' (optionKeyBySyncField rt) m =
    match obj_get m resolutions with
    | Some f => synced f rt (entry r (optionKeyBySyncField rt) m)
    | None => entry r (optionKeyBySyncField rt) m
    end.
Proof.
  intros [Hn Hf]. revert r. induction resolutions as [|[m f] rest IH]; intros r Ht; [by exists r|].
  apply NoDup_cons in Hn as [Hm Hn].
  destruct (sync_one m f r) as (r1 & E1 & Ht1 & He1); [|done|].
  { apply (Hf m). cbn. by rewrite str_eqb_refl. }
  cbn [fold_left]. rewrite E1. destruct (IH Hn) with (r := r1) as (r' & E & Ht' & He); [|done|].
  { intros m' g Hg. apply (Hf m'). cbn. destruct (str_eqb m' m) eqn:E; [|done].
    apply str_eqb_true in E as ->. by rewrite (proj2 (obj_get_none m rest) Hm) in Hg. }
  exists r'. split; [done|]. split; [done|]. intros rt m' Hrt. rewrite He, He1 by done. cbn [obj_get].
  destruct (str_eqb m' m) eqn:E'; [|done]. apply str_eqb_true in E' as ->. by rewrite (proj2 (obj_get_none m rest) Hm).
Qed.

Lemma obj_get_some_key (f : obj json) k : is_Some (obj_get k f) <-> k ∈ map fst f.
Proof.
  pose proof (obj_get_none k f) as H. destruct (obj_get k f) as [v|] eqn:E.
  - split; [intros _|eauto]. destruct (decide (k ∈ map fst f)) as [|Hn]; [done|]. by apply H in Hn.
  - split; [by intros []|]. intros Hk. by destruct (proj1 H eq_refl Hk).
Qed.
Lemma initial_tables current : tables (initial_ratios current).
Proof. unfold tables, initial_ratios. by rewrite map_map, map_id. Qed.

(** C13: what syncing writes: for the choices of any state of the screen it does
    not throw and sends all ten option tables; in the table of each field a
    model with a choice for that field has the chosen value, as a number where
    the field is numeric; a model that gets a fixed price leaves every ratio
    table, one that gets a ratio leaves the price table; every other entry is
    the one that was there. *)
Theorem sync_exact (current : obj json) (resolutions : ResolutionsMap) :
  consistent resolutions ->
  exists r, performSync current resolutions = Some (map (fun kv => (kv.1, stringify_pretty (JObj kv.2))) r) /\
    map fst r = OPTION_KEYS /\
    forall rt m, rt ∈ SYNC_FIELD_ORDER ->
      let key := optionKeyBySyncField rt in
      let before := entry (initial_ratios current) key m in
      match obj_get m resolutions with
      | None => entry r key m = before
      | Some f =>
          match obj_get rt f with
          | Some v => entry r key m = Some (sync_value rt v)
          | None =>
              (is_Some (obj_get "model_price" f) -> rt ∈ RATIO_SYNC_FIELDS -> entry r key m = None) /\
              ((exists k, k ∈ RATIO_SYNC_FIELDS /\ is_Some (obj_get k f)) -> rt = "model_price" -> entry r key m = None) /\
              (~ (is_Some (obj_get "model_price" f) /\ rt ∈ RATIO_SYNC_FIELDS) ->
               ~ ((exists k, k ∈ RATIO_SYNC_FIELDS /\ is_Some (obj_get k f)) /\ rt = "model_price") ->
               entry r key m = before)
          end
      end.
Proof.
  intros Hc. destruct (sync_all (initial_ratios current) resolutions Hc (initial_tables current)) as (r & E & Ht & He).
  exists r. split; [unfold performSync, sync_tables; by rewrite E|]. split; [done|].
  intros rt m Hrt. cbn zeta. specialize (He rt m Hrt). destruct (obj_get m resolutions) as [f|]; [|done].
  unfold synced in He. destruct (obj_get rt f) as [v|]; [done|].
  assert (Hp : has "model_price" (map fst f) = true <-> is_Some (obj_get "model_price" f)).
  { by rewrite has_spec, obj_get_some_key. }
  assert (Hr : existsb (fun k => has k RATIO_SYNC_FIELDS) (map fst f) = true <->
               exists k, k ∈ RATIO_SYNC_FIELDS /\ is_Some (obj_get k f)).
  { rewrite existsb_exists. split.
    - intros (k & Hk & Hs). exists k. split; [by apply has_spec|by apply obj_get_some_key, list_elem_of_In].
    - intros (k & Hk & Hs). exists k. split; [by apply list_elem_of_In, obj_get_some_key|by apply has_spec]. }
  rewrite <- Hp, <- Hr, <- has_spec, <- str_eqb_true.
  rewrite He. destruct (has "model_price" _), (has rt _), (existsb _ _), (str_eqb rt _); cbn; intuition congruence.
Qed.

(** * Conflicts *)

(** The options parsed to records. *)
Definition records (current : obj json) : Prop :=
  forall key, key ∈ OPTION_KEYS -> exists o, obj_get key current = Some (JObj o) /\ NoDup o.*1.

Definition present (v : option json) : bool := match v with Some _ => true | None => false end.
(** The category of a model whose entries are [get]. *)
Definition category_of (get : jsstr -> option json) : option category :=
  if present (get "ModelPrice") then Some price
  else if existsb (fun key => present (get key)) RATIO_OPTION_KEYS then Some ratio else None.

Lemma ratio_keys key : key ∈ RATIO_OPTION_KEYS -> key ∈ OPTION_KEYS.
Proof. intros H. change OPTION_KEYS with (RATIO_OPTION_KEYS ++ drop 7 OPTION_KEYS). apply elem_of_app. by left. Qed.
Lemma obj_get_keyed {A} (g : jsstr -> A) keys k : k ∈ keys -> obj_get k (map (fun key => (key, g key)) keys) = Some (g k).
Proof.
  induction keys as [|key keys IH]; intros H; [by apply elem_of_nil in H|]. cbn. destruct (str_eqb k key) eqn:E.
  - by apply str_eqb_true in E as ->.
  - apply elem_of_cons in H as [->|H]; [by rewrite str_eqb_refl in E|auto].
Qed.
Lemma any_local_spec current keys m get :
  (forall key, key ∈ keys -> local_value current key m = Some (get key)) ->
  any_local current keys m = Some (existsb (fun key => present (get key)) keys).
Proof.
  induction keys as [|key keys IH]; intros H; [done|]. cbn [any_local existsb]. rewrite H by (by left). cbn [mbind option_bind].
  destruct (get key); [done|]. apply IH. intros k Hk. apply H. by right.
Qed.
Lemma local_category current m get :
  (forall key, key ∈ OPTION_KEYS -> local_value current key m = Some (get key)) ->
  getLocalBillingCategory m current = Some (category_of get).
Proof.
  intros H. unfold getLocalBillingCategory, category_of. rewrite H by (apply has_spec; by vm_compute). cbn [mbind option_bind].
  destruct (get "ModelPrice"); [done|]. rewrite (any_local_spec _ _ _ get).
  - cbn [fmap option_fmap option_map present]. by destruct (existsb _ RATIO_OPTION_KEYS).
  - intros key Hk. apply H, ratio_keys, Hk.
Qed.

Lemma get_obj_of (l : obj json) k : NoDup l.*1 -> obj_get k (obj_of l) = obj_get k l.
Proof.
  unfold obj_of. assert (H : forall acc, NoDup l.*1 ->
    obj_get k (fold_left (fun o kv => obj_set kv.1 kv.2 o) l acc) = match obj_get k l with Some v => Some v | None => obj_get k acc end).
  { induction l as [|[x v] l IH]; intros acc Hn; [done|]. apply NoDup_cons in Hn as [Hx Hn]. cbn [fold_left fst snd obj_get].
    rewrite IH, obj_get_set by done. destruct (str_eqb k x) eqn:E; [|done]. apply str_eqb_true in E as ->.
    by rewrite (proj2 (obj_get_none x l) Hx). }
  intros Hn. rewrite H by done. by destruct (obj_get k l).
Qed.
Lemma initial_entry current key m : records current -> key ∈ OPTION_KEYS ->
  local_value current key m = Some (entry (initial_ratios current) key m).
Proof.
  intros Hr Hk. destruct (Hr key Hk) as (o & Ho & Hn). unfold local_value, entry. rewrite Ho. change (own_entries (JObj o)) with o.
  unfold initial_ratios. rewrite obj_get_keyed, Ho by done. cbn [default mbind option_bind].
  change (own_entries (JObj o)) with o. by rewrite get_obj_of.
Qed.

(** The chosen category is another one than the local one. *)
Definition changes_category (current : obj json) (mf : jsstr * obj json) : bool :=
  match category_of (fun key => entry (initial_ratios current) key mf.1) with
  | Some lc => negb (bool_decide (new_category mf.2 = tiered)) && negb (bool_decide (lc = new_category mf.2))
  | None => false
  end.
Lemma model_conflict_spec t d current mf : records current ->
  exists item, model_conflict t d current mf = Some item /\
    match item with
    | Some i => changes_category current mf = true /\ conflict_model i = mf.1
    | None => changes_category current mf = false
    end.
Proof.
  intros Hr. destruct mf as [m f]. unfold model_conflict, changes_category. cbn [fst snd].
  assert (Hl : forall key, key ∈ OPTION_KEYS -> local_value current key m = Some (entry (initial_ratios current) key m)).
  { intros key Hk. by apply initial_entry. }
  rewrite (local_category current m _ Hl). cbn [mbind option_bind].
  destruct (category_of _) as [lc|]; [|by exists None].
  destruct (_ && _) eqn:E; [|by exists None].
  rewrite !Hl by (apply has_spec; by vm_compute). cbn [mbind option_bind]. eexists. split; [done|]. done.
Qed.
Lemma conflicts_spec t d current resolutions : records current ->
  exists items, conflicts t d current resolutions = Some items /\
    map conflict_model items = map fst (List.filter (changes_category current) resolutions).
Proof.
  intros Hr. unfold conflicts. induction resolutions as [|mf rest IH]; [by exists []|].
  destruct (model_conflict_spec t d current mf Hr) as (item & Ei & Hi). destruct IH as (items & E & Hm). cbn [mapM] in *.
  rewrite Ei. cbn [mbind option_bind]. destruct (mapM _ rest) as [l|]; [|done]. injection E as E.
  cbn. destruct item as [i|].
  - destruct Hi as [Hc Hn]. eexists. split; [done|]. rewrite Hc. cbn. by rewrite Hn, <- Hm, E.
  - eexists. split; [done|]. rewrite Hi. cbn. by rewrite <- Hm, E.
Qed.

Lemma existsb_ext_on {A} (f g : A -> bool) l : (forall x, In x l -> f x = g x) -> existsb f l = existsb g l.
Proof. induction l as [|x l IH]; intros H; [done|]. cbn. rewrite IH, H; [done|by left|]. intros y Hy. apply H. by right. Qed.
(** The tables as the options that are read after the write. *)
Definition written (r : finalRatios) : obj json := map (fun kv => (kv.1, JObj kv.2)) r.
Lemma written_value r key m : tables r -> key ∈ OPTION_KEYS -> local_value (written r) key m = Some (entry r key m).
Proof.
  intros Ht Hk. destruct (table_some r key Ht Hk) as [o Ho]. unfold local_value, written, entry.
  rewrite (obj_get_map JObj), Ho. done.
Qed.

(** A category by fields rather than options. *)
Lemma category_fields get :
  category_of get =
  if present (get (optionKeyBySyncField "model_price")) then Some price
  else if existsb (fun rt => present (get (optionKeyBySyncField rt))) RATIO_SYNC_FIELDS then Some ratio else None.
Proof.
  unfold category_of. change RATIO_OPTION_KEYS with (map optionKeyBySyncField RATIO_SYNC_FIELDS).
  assert (E : forall l, existsb (fun key => present (get key)) (map optionKeyBySyncField l) =
                        existsb (fun rt => present (get (optionKeyBySyncField rt))) l).
  { induction l as [|x l IH]; [done|]. cbn. by rewrite IH. }
  by rewrite E.
Qed.
Lemma ratio_known rt : rt ∈ RATIO_SYNC_FIELDS -> rt ∈ SYNC_FIELD_ORDER.
Proof. intros H. unfold SYNC_FIELD_ORDER. apply elem_of_app. by left. Qed.
Lemma new_category_cases f :
  new_category f = if has "model_price" (map fst f) then price
                   else if existsb (fun k => has k RATIO_SYNC_FIELDS) (map fst f) then ratio else tiered.
Proof.
  unfold new_category. destruct (has _ _); [done|].
  assert (E : existsb (fun rt => has rt (map fst f)) RATIO_SYNC_FIELDS = existsb (fun k => has k RATIO_SYNC_FIELDS) (map fst f)).
  { apply Bool.eq_iff_eq_true. rewrite !existsb_exists. split; intros (k & Hk & Hh); exists k;
      rewrite has_spec, list_elem_of_In in *; done. }
  by rewrite E.
Qed.

(** Written without a conflict, the entries of a model stay in their category. *)
Lemma synced_category f get get' lc :
  (forall rt, rt ∈ SYNC_FIELD_ORDER -> get' (optionKeyBySyncField rt) = synced f rt (get (optionKeyBySyncField rt))) ->
  category_of get = Some lc -> new_category f = tiered \/ new_category f = lc -> category_of get' = Some lc.
Proof.
  intros Hg. rewrite !category_fields, new_category_cases.
  assert (Hp : "model_price"%js ∈ SYNC_FIELD_ORDER) by (apply has_spec; by vm_compute).
  rewrite (Hg _ Hp). unfold synced at 1. change (has "model_price" RATIO_SYNC_FIELDS) with false. rewrite andb_false_r, str_eqb_refl, andb_true_r.
  destruct (has "model_price" (map fst f)) eqn:E1.
  - apply has_spec, obj_get_some_key in E1 as [v ->]. cbn [present]. destruct (present _); [by intros [= <-]|].
    destruct (existsb _ _); [|done]. by intros [= <-] [|].
  - assert (Hn : obj_get "model_price" f = None).
    { destruct (obj_get "model_price" f) eqn:E; [|done]. apply has_spec_false in E1. destruct E1. apply obj_get_some_key. by rewrite E. }
    rewrite Hn. destruct (existsb (fun k => has k RATIO_SYNC_FIELDS) (map fst f)) eqn:E2; cbn [andb].
    + cbn [present]. intros Hl Hc.
      assert (existsb (fun rt => present (get' (optionKeyBySyncField rt))) RATIO_SYNC_FIELDS = true) as ->.
      { apply existsb_exists in E2 as (k & Hk & Hh%has_spec). apply existsb_exists. exists k. rewrite <- list_elem_of_In.
        split; [done|]. rewrite Hg by (by apply ratio_known). unfold synced.
        apply list_elem_of_In, obj_get_some_key in Hk as [v ->]. done. }
      destruct Hc as [Hc|Hc]; [done|by rewrite Hc].
    + intros Hl Hc.
      assert (E : forall rt, In rt RATIO_SYNC_FIELDS -> present (get' (optionKeyBySyncField rt)) = present (get (optionKeyBySyncField rt))).
      { intros rt Hrt%list_elem_of_In. rewrite Hg by (by apply ratio_known). unfold synced. rewrite E1, E2. cbn [andb].
        destruct (obj_get rt f) eqn:E; [|done]. exfalso.
        assert (existsb (fun k => has k RATIO_SYNC_FIELDS) (map fst f) = true) as E3; [|congruence].
        apply existsb_exists. exists rt. rewrite <- list_elem_of_In, <- obj_get_some_key, E. split; [eauto|by apply has_spec]. }
      by rewrite (existsb_ext_on _ _ _ E).
Qed.

(** The fields of billing by expression, and the value chosen for a field. *)
Definition TIERED_FIELDS : list jsstr := ["billing_mode"; "billing_expr"].
Definition chosen (resolutions : ResolutionsMap) (m rt : jsstr) : option json :=
  f ← obj_get m resolutions; obj_get rt f.

Lemma synced_tiered (resolutions : ResolutionsMap) r r0 m rt :
  (forall rt m, rt ∈ SYNC_FIELD_ORDER ->
    entry r (optionKeyBySyncField rt) m =
    match obj_get m resolutions with
    | Some f => synced f rt (entry r0 (optionKeyBySyncField rt) m)
    | None => entry r0 (optionKeyBySyncField rt) m
    end) ->
  rt ∈ TIERED_FIELDS ->
  entry r (optionKeyBySyncField rt) m =
  match chosen resolutions m rt with Some v => Some v | None => entry r0 (optionKeyBySyncField rt) m end.
Proof.
  intros He Hrt.
  assert (Hk : rt ∈ SYNC_FIELD_ORDER) by (apply elem_of_app; right; by apply elem_of_cons; right).
  assert (Hf : has rt RATIO_SYNC_FIELDS = false /\ has rt NUMERIC_SYNC_FIELDS = false /\ str_eqb rt "model_price" = false)
    by (apply elem_of_cons in Hrt as [->|Hrt%list_elem_of_singleton]; [|subst]; by vm_compute).
  destruct Hf as (Hr & Hn & Hp). rewrite He by done. unfold chosen, synced, sync_value. rewrite Hr, Hn, Hp. cbn [andb].
  destruct (obj_get m resolutions) as [f|]; cbn [mbind option_bind]; [|done]. destruct (obj_get rt f); [done|]. by rewrite !andb_false_r.
Qed.

(** C14: applying never moves a model between a fixed price and ratios without
    asking. For choices the screen can hold and options that parsed to
    objects: when a chosen fixed price or ratio is of another category than
    the local entries of its model, the dialog opens with exactly these
    models, in the order of the choices, and nothing is sent. Otherwise one
    write is sent, and every model that was billed by price or by ratio is
    still billed that way by the tables written. Billing by expression is
    outside that check: the mode and the expression of each model become the
    chosen ones without a dialog, and stay as they were where none is chosen.
    The handler does not throw. *)
Theorem conflicts_exact (t : jsstr -> jsstr) (current : obj json) (s : screen) :
  consistent (resolutions s) -> records current ->
  exists s', handleApplySync t current s = Some s' /\
    resolutions s' = resolutions s /\ differences s' = differences s /\
    let changed := List.filter (changes_category current) (resolutions s) in
    (changed <> [] /\ conflictDialogOpen s' = true /\ map conflict_model (conflictItems s') = map fst changed /\
     sent s' = sent s) \/
    (changed = [] /\ conflictDialogOpen s' = conflictDialogOpen s /\
     exists r, sent s' = sent s ++ [map (fun kv => (kv.1, stringify_pretty (JObj kv.2))) r] /\ map fst r = OPTION_KEYS /\
       (forall m lc, getLocalBillingCategory m current = Some (Some lc) ->
                     getLocalBillingCategory m (written r) = Some (Some lc)) /\
       forall m rt, rt ∈ TIERED_FIELDS ->
         entry r (optionKeyBySyncField rt) m =
         match chosen (resolutions s) m rt with
         | Some v => Some v
         | None => entry (initial_ratios current) (optionKeyBySyncField rt) m
         end).
Proof.
  intros Hc Hr. destruct (conflicts_spec t (differences s) current (resolutions s) Hr) as (items & Ei & Hm).
  destruct (sync_all (initial_ratios current) _ Hc (initial_tables current)) as (r & E & Ht & He).
  unfold handleApplySync. rewrite Ei. cbn [mbind option_bind]. destruct items as [|i items].
  - unfold performSync, sync_tables. rewrite E. cbn [mbind option_bind].
    eexists. split; [done|]. split; [done|]. split; [done|]. right. symmetry in Hm. apply map_eq_nil in Hm. split; [done|]. split; [done|].
    exists r. split; [done|]. split; [done|]. split; [|intros m rt; by apply synced_tiered]. intros m lc.
    rewrite (local_category current m (fun key => entry (initial_ratios current) key m)) by (intros; by apply initial_entry).
    rewrite (local_category (written r) m (fun key => entry r key m)) by (intros; by apply written_value).
    intros [= Hl]. f_equal. destruct (obj_get m (resolutions s)) as [f|] eqn:Ef.
    + eapply synced_category; [|exact Hl|].
      * intros rt Hrt. cbn beta. rewrite He, Ef by done. done.
      * assert (Hn : changes_category current (m, f) = false).
        { destruct (changes_category current (m, f)) eqn:Ex; [|done]. apply obj_get_elem in Ef.
          assert (Hin : (m, f) ∈ List.filter (changes_category current) (resolutions s)) by (by apply elem_of_bfilter).
          rewrite Hm in Hin. by apply elem_of_nil in Hin. }
        unfold changes_category in Hn. cbn [fst snd] in Hn. rewrite Hl in Hn.
        apply andb_false_iff in Hn as [Hn|Hn]; apply negb_false_iff, bool_decide_eq_true in Hn; auto.
    + rewrite <- Hl. rewrite !category_fields. rewrite He, Ef by (apply has_spec; by vm_compute).
      rewrite (existsb_ext_on _ (fun rt => present (entry (initial_ratios current) (optionKeyBySyncField rt) m))); [done|].
      intros rt Hrt%list_elem_of_In. by rewrite He, Ef by (by apply ratio_known).
  - eexists. split; [done|]. split; [done|]. split; [done|]. left. split; [|done].
    intros Hx. by rewrite Hx in Hm.
Qed.

(** Options where one model has a ratio, the other a price. *)
Definition sample_raw (key : jsstr) : jsstr :=
  if str_eqb key "ModelRatio" then "{`gpt`:2,`claude`:1}" else if str_eqb key "ModelPrice" then "{`old`:1}" else "".
Definition sample_options : obj json := parsedRatios sample_raw.
Lemma sample_records : records sample_options.
Proof.
  intros key Hk. unfold OPTION_KEYS in Hk.
  repeat (apply elem_of_cons in Hk as [->|Hk];
    [eexists; split; [vm_compute; reflexivity|apply (bool_decide_unpack _); by vm_compute]|]).
  by apply elem_of_nil in Hk.
Qed.
Lemma sync_exact_witness :
  exists r, performSync sample_options (resolutions sample_screen) =
      Some (map (fun kv => (kv.1, stringify_pretty (JObj kv.2))) r) /\
    map fst r = OPTION_KEYS /\ entry r (optionKeyBySyncField "model_price") "gpt" = Some (sync_value "model_price" (JNum (num 4))) /\
    entry r (optionKeyBySyncField "model_ratio") "gpt" = None.
Proof.
  destruct (sync_exact sample_options (resolutions sample_screen) sample_consistent) as (r & E & Hk & H).
  exists r. split; [exact E|]. split; [exact Hk|].
  assert (Hg : obj_get "gpt"%js (resolutions sample_screen) = Some [("model_price"%js, JNum (num 4))]) by (vm_compute; reflexivity).
  pose proof (H "model_price"%js "gpt"%js ltac:(apply has_spec; vm_compute; reflexivity)) as H1.
  pose proof (H "model_ratio"%js "gpt"%js ltac:(apply has_spec; vm_compute; reflexivity)) as H2.
  cbn zeta in H1, H2. rewrite Hg in H1, H2.
  assert (Hp : obj_get "model_price"%js [("model_price"%js, JNum (num 4))] = Some (JNum (num 4))) by (vm_compute; reflexivity).
  assert (Hm : obj_get "model_ratio"%js [("model_price"%js, JNum (num 4))] = None) by (vm_compute; reflexivity).
  rewrite Hp in H1. rewrite Hm in H2. split; [exact H1|].
  apply (proj1 H2); [rewrite Hp; eauto|apply has_spec; vm_compute; reflexivity].
Defined.
Lemma conflicts_exact_witness :
  let s := sample_screen in
  (exists s', handleApplySync (fun x => x) sample_options s = Some s' /\
    resolutions s' = resolutions s /\ differences s' = differences s /\
    let changed := List.filter (changes_category sample_options) (resolutions s) in
    (changed <> [] /\ conflictDialogOpen s' = true /\ map conflict_model (conflictItems s') = map fst changed /\
     sent s' = sent s) \/
    (changed = [] /\ conflictDialogOpen s' = conflictDialogOpen s /\
     exists r, sent s' = sent s ++ [map (fun kv => (kv.1, stringify_pretty (JObj kv.2))) r] /\ map fst r = OPTION_KEYS /\
       (forall m lc, getLocalBillingCategory m sample_options = Some (Some lc) ->
                     getLocalBillingCategory m (written r) = Some (Some lc)) /\
       forall m rt, rt ∈ TIERED_FIELDS ->
         entry r (optionKeyBySyncField rt) m =
         match chosen (resolutions s) m rt with
         | Some v => Some v
         | None => entry (initial_ratios sample_options) (optionKeyBySyncField rt) m
         end)) /\
  map fst (List.filter (changes_category sample_options) (resolutions s)) = ["gpt"%js].
Proof.
  split; [|by vm_compute].
  apply (conflicts_exact (fun x => x) sample_options sample_screen); [apply sample_consistent|apply sample_records].
Defined.
End PriceSync.
