(* ===== verification/Pricing.v ===== *)
(** The editor of model prices (src/web/src/features/system-settings/models):
    pricing-format.ts (module PricingFormat), model-pricing-core.ts (PricingCore),
    model-pricing-snapshots.ts (Snapshots), the panel of model-pricing-sheet.tsx
    (Panel) and the table of model-ratio-visual-editor.tsx (PriceTable).

    A record of strings with a fixed set of keys is a function on its keys; a
    missing field of a model is the empty string, since the code reads every
    field through [|| ''] or a test that treats both alike.  The ten option
    texts hold JSON objects: on other JSON, where the code throws a TypeError
    (null, or a primitive that is assigned to) or works on the indices of an
    array, the operations here give [None]. *)
From Stdlib Require Import Floats.SpecFloat.
From S2P Require Import Prelude JsNumber JsCollections Json JsonText BillingExpr.

(** [{ ...r, [k]: v }] on a record given as a function of its keys. *)
Definition upd {K A} `{EqDecision K} (k : K) (v : A) (r : K -> A) : K -> A :=
  fun k' => if bool_decide (k' = k) then v else r k'.

(** * Numbers in price fields *)

Module PricingFormat.
Definition DISPLAY_DECIMALS : nat := 12.
Definition SNAP_DECIMALS : nat := 8.
Definition SNAP_EPSILON : jsnum := num_of_decimal false 1 (-12).
(** [Number.EPSILON] *)
Definition EPSILON : jsnum := num_div (num 1) (num (2 ^ 52)).

Definition toNumberOrNull (value : option json) : option jsnum :=
  match value with
  | None | Some JNull | Some (JBool false) | Some (JStr []) => None
  | Some j => let n := json_to_number (Some j) in if is_finite n then Some n else None
  end.
Definition roundToDecimals (value : jsnum) (decimals : nat) : jsnum :=
  let factor := num (10 ^ Z.of_nat decimals) in
  num_div (num_round (num_mul value factor)) factor.
Definition snapFloatDrift (value : jsnum) : jsnum :=
  let tolerance := num_max SNAP_EPSILON (num_mul (num_mul (num_abs value) EPSILON) (num 8)) in
  match find (fun decimals => num_leb (num_abs (num_sub value (roundToDecimals value decimals))) tolerance)
             (seq 0 (S SNAP_DECIMALS)) with
  | Some decimals => roundToDecimals value decimals
  | None => value
  end.
Definition formatPricingNumber (value : option json) : jsstr :=
  match toNumberOrNull value with
  | None => []
  | Some x => num_to_string (parse_float (to_fixed DISPLAY_DECIMALS (snapFloatDrift x)))
  end.
(** Of a number that was computed. *)
Definition format_number (x : jsnum) : jsstr := formatPricingNumber (Some (JNum x)).
End PricingFormat.
Import PricingFormat.

(** * Data of a model *)

Module PricingCore.
(** The text fields of the form and of a model. *)
Inductive Field := name | price | ratio | cacheRatio | createCacheRatio | completionRatio | imageRatio
                 | audioRatio | audioCompletionRatio.
#[global] Instance Field_eq : EqDecision Field.
Proof. solve_decision. Defined.
Definition ModelPricingFormValues : Type := Field -> jsstr.

Record ModelRatioData := Data {
  values : ModelPricingFormValues; billingMode : jsstr; billingExpr : jsstr; requestRuleExpr : jsstr }.

Inductive LaneKey := completion | cache | createCache | image | audioInput | audioOutput.
#[global] Instance LaneKey_eq : EqDecision LaneKey.
Proof. solve_decision. Defined.

Definition EMPTY_LANE_PRICES : LaneKey -> jsstr := fun _ => [].
Definition EMPTY_LANE_ENABLED : LaneKey -> bool := fun _ => false.
Definition ratioFieldByLane (lane : LaneKey) : Field :=
  match lane with
  | completion => completionRatio | cache => cacheRatio | createCache => createCacheRatio
  | image => imageRatio | audioInput => audioRatio | audioOutput => audioCompletionRatio
  end.
Record LaneConfig := Lane { lane_key : LaneKey; titleKey : jsstr; descriptionKey : jsstr; placeholder : jsstr }.
Definition laneConfigs : list LaneConfig := [
  Lane completion "Completion price" "Output token price for generated tokens." "15";
  Lane cache "Cache read price" "Token price for cache reads." "0.3";
  Lane createCache "Cache write price" "Token price for creating cache entries." "3.75";
  Lane image "Image input price" "Token price for image input." "2.5";
  Lane audioInput "Audio input price" "Token price for audio input." "3.81";
  Lane audioOutput "Audio output price" "Token price for audio output." "15.11"].
Definition lane_keys : list LaneKey := map lane_key laneConfigs.

(** The test of a pattern: digits, then a point and digits, all optional. *)
Definition numericDraftRegex (s : jsstr) : bool :=
  match (span is_digit s).2 with
  | [] => true
  | 46%N :: t => forallb is_digit t
  | _ => false
  end.

Definition hasValue (value : option json) : bool :=
  match value with
  | None | Some JNull | Some (JBool false) | Some (JStr []) => false
  | _ => true
  end.
(** Number 0 has a value, so the second test of the code adds nothing. *)
Definition toNumberOrNull (value : option json) : option jsnum :=
  if negb (hasValue value) then None
  else let n := json_to_number value in if is_finite n then Some n else None.
(** Of a text field. *)
Definition text_number (s : jsstr) : option jsnum := toNumberOrNull (Some (JStr s)).

Definition ratioToBasePrice (ratio : jsstr) : jsstr :=
  match text_number ratio with Some x => format_number (num_mul x (num 2)) | None => [] end.
Definition deriveLanePrice (ratio denominator : jsstr) : jsstr :=
  match text_number ratio, text_number denominator with
  | Some r, Some d => format_number (num_mul r d)
  | _, _ => []
  end.

Record LaneState := Lanes { promptPrice : jsstr; prices : LaneKey -> jsstr; enabled : LaneKey -> bool }.
Definition createInitialLaneState (data : option ModelRatioData) : LaneState :=
  match data with
  | None => Lanes [] EMPTY_LANE_PRICES EMPTY_LANE_ENABLED
  | Some d =>
      let v := values d in
      let promptPrice := ratioToBasePrice (v ratio) in
      let audioInputPrice := deriveLanePrice (v audioRatio) promptPrice in
      Lanes promptPrice
        (fun lane => match lane with
                     | completion => deriveLanePrice (v completionRatio) promptPrice
                     | cache => deriveLanePrice (v cacheRatio) promptPrice
                     | createCache => deriveLanePrice (v createCacheRatio) promptPrice
                     | image => deriveLanePrice (v imageRatio) promptPrice
                     | audioInput => audioInputPrice
                     | audioOutput => deriveLanePrice (v audioCompletionRatio) audioInputPrice
                     end)
        (fun lane => truthy (v (ratioFieldByLane lane)))
  end.

Record PreviewRow := Preview { row_key : jsstr; row_label : jsstr; row_value : jsstr; multiline : bool }.
Definition buildPreviewRows (values : ModelPricingFormValues) (mode billingExpr requestRuleExpr promptPrice : jsstr)
  (lanePrices : LaneKey -> jsstr) (laneEnabled : LaneKey -> bool) (t : jsstr -> jsstr) : list PreviewRow :=
  if str_eqb mode "tiered_expr" then
    [Preview "mode" "BillingMode" "tiered_expr" false;
     Preview "expr" (t "Expression") (str_or (BillingExpr.combineBillingExpr billingExpr requestRuleExpr) (t "Empty")) true]
  else if str_eqb mode "per-request" then [Preview "price" "ModelPrice" (str_or (values price) (t "Empty")) false]
  else
    let lane_row key label lane :=
      Preview key (t label) (if laneEnabled lane && truthy (lanePrices lane) then "$" ++ lanePrices lane else t "Empty") false in
    [Preview "inputPrice" (t "Input price") (if truthy promptPrice then "$" ++ promptPrice else t "Empty") false;
     lane_row "completion" "Completion price" completion; lane_row "cache" "Cache read price" cache;
     lane_row "createCache" "Cache write price" createCache; lane_row "image" "Image input price" image;
     lane_row "audio" "Audio input price" audioInput; lane_row "audioCompletion" "Audio output price" audioOutput].
End PricingCore.
Import PricingCore.

(** * Option texts and the models they price *)

Module Snapshots.
Inductive OptionKey := ModelPrice | ModelRatio | CacheRatio | CreateCacheRatio | CompletionRatio | ImageRatio
                     | AudioRatio | AudioCompletionRatio | BillingMode | BillingExpr_.
#[global] Instance OptionKey_eq : EqDecision OptionKey.
Proof. solve_decision. Defined.
(** In the order in which keys are collected and options are written. *)
Definition collect_order : list OptionKey :=
  [ModelPrice; ModelRatio; CacheRatio; CreateCacheRatio; CompletionRatio; ImageRatio; AudioRatio; AudioCompletionRatio;
   BillingMode; BillingExpr_].
Definition ModelPricingSnapshotInput : Type := OptionKey -> jsstr.
(** The fields of a model that are options of their own. *)
Definition option_of_field (f : Field) : option OptionKey :=
  match f with
  | name => None | price => Some ModelPrice | ratio => Some ModelRatio | cacheRatio => Some CacheRatio
  | createCacheRatio => Some CreateCacheRatio | completionRatio => Some CompletionRatio | imageRatio => Some ImageRatio
  | audioRatio => Some AudioRatio | audioCompletionRatio => Some AudioCompletionRatio
  end.

(** JSON.parse of the trimmed text, the fallback when it is blank or malformed. *)
Definition safeJsonParse (value : jsstr) (fallback : json) : json :=
  if negb (truthy value) || str_eqb (trim value) [] then fallback else default fallback (parse (trim value)).
(** The maps the options hold; [None] when one of them is not an object. *)
Definition maps : Type := OptionKey -> obj json.
Definition record_of (text : jsstr) : option (obj json) :=
  match safeJsonParse text (JObj []) with JObj o => Some o | _ => None end.
Definition parse_maps (texts : OptionKey -> jsstr) : option maps :=
  if forallb (fun key => if record_of (texts key) is Some _ then true else false) collect_order
  then Some (fun key => default [] (record_of (texts key))) else None.

Record ModelPricingSnapshot := Snapshot { data : ModelRatioData; hasConflict : bool }.

(** [map[name]?.toString() || ''] *)
Definition entry_text (v : option json) : jsstr :=
  match v with None | Some JNull => [] | Some j => json_to_string j end.
Definition hasPricingValue (value : jsstr) : bool := truthy value.

(** The text of an expression; [None] for a value without string methods. *)
Definition expression_text (v : option json) : option jsstr :=
  match v with
  | None | Some JNull | Some (JBool false) => Some []
  | Some (JStr s) => Some s
  | Some (JNum n) => if num_truthy n then None else Some []
  | Some _ => None
  end.
Definition snapshot_values (m : maps) (model : jsstr) : ModelPricingFormValues :=
  fun f => match option_of_field f with Some key => entry_text (obj_get model (m key)) | None => model end.
(** The values beside a fixed price that conflict with it. *)
Definition conflicting : list Field :=
  [ratio; completionRatio; cacheRatio; createCacheRatio; imageRatio; audioRatio; audioCompletionRatio].
Definition is_tiered (mode : option json) : bool :=
  match mode with Some (JStr s) => str_eqb s "tiered_expr" | _ => false end.
Definition snapshot_of (m : maps) (model : jsstr) : option ModelPricingSnapshot :=
  let v := snapshot_values m model in
  if is_tiered (obj_get model (m BillingMode)) then
    fullExpr ← expression_text (obj_get model (m BillingExpr_));
    match BillingExpr.splitBillingExprAndRequestRules fullExpr with
    | Returns (pureExpr, rules) => Some (Snapshot (Data v "tiered_expr" pureExpr rules) false)
    | Throws => None
    end
  else Some (Snapshot (Data v (if truthy (v price) then "per-request" else "per-token") [] [])
               (truthy (v price) && existsb (fun f => truthy (v f)) conflicting)).
Definition modelNames (m : maps) : list jsstr := nub (concat (map (fun key => map fst (m key)) collect_order)).
(** [None]: a TypeError or SyntaxError, or an option that is not an object. *)
Definition buildModelSnapshots (texts : ModelPricingSnapshotInput) : option (list ModelPricingSnapshot) :=
  m ← parse_maps texts; mapM (M := option) (snapshot_of m) (modelNames m).

Definition getSnapshotSignature (snapshot : option ModelPricingSnapshot) : jsstr :=
  match snapshot with
  | None => []
  | Some s =>
      let d := data s in let v f := JStr (values d f) in
      stringify (JObj [
        ("price" : jsstr, v price); ("ratio" : jsstr, v ratio); ("cacheRatio" : jsstr, v cacheRatio);
        ("createCacheRatio" : jsstr, v createCacheRatio); ("completionRatio" : jsstr, v completionRatio);
        ("imageRatio" : jsstr, v imageRatio); ("audioRatio" : jsstr, v audioRatio);
        ("audioCompletionRatio" : jsstr, v audioCompletionRatio);
        ("billingMode" : jsstr, JStr (str_or (billingMode d) "per-token"));
        ("billingExpr" : jsstr, JStr (billingExpr d)); ("requestRuleExpr" : jsstr, JStr (requestRuleExpr d))])
  end.

Definition isBasePricingUnset (snapshot : option ModelPricingSnapshot) : bool :=
  match snapshot with
  | None => true
  | Some s => let d := data s in
              negb (str_eqb (billingMode d) "tiered_expr") && negb (hasPricingValue (values d price))
              && negb (hasPricingValue (values d ratio))
  end.

(** ** What the table shows of a model *)

Definition toNumberOrNull (value : jsstr) : option jsnum :=
  if hasPricingValue value then let n := string_to_number value in if is_finite n then Some n else None else None.
Definition ratioToPrice (ratio denominator : jsstr) : jsstr :=
  match toNumberOrNull ratio, (if truthy denominator then toNumberOrNull denominator else Some (num 2)) with
  | Some r, Some d => format_number (num_mul r d)
  | _, _ => []
  end.
Definition getModeLabel (mode : jsstr) : jsstr :=
  if str_eqb mode "per-request" then "Per-request" else if str_eqb mode "tiered_expr" then "Expression" else "Per-token".
Inductive variant := warning | info | success.
Definition getModeVariant (mode : jsstr) : variant :=
  if str_eqb mode "per-request" then warning else if str_eqb mode "tiered_expr" then info else success.

(** [(s.match(/tier\(/g) || []).length] *)
Fixpoint count_tiers (s : jsstr) : nat :=
  match s with
  | [] => 0
  | _ :: t => (if starts_with "tier(" s then 1 else 0) + count_tiers t
  end.
Definition middle_dot : jsstr := 32%N :: 183%N :: [32%N].

Section Display.
Context (t : jsstr -> jsstr).
Definition count_text (n : nat) : jsstr := int_to_string (Z.of_nat n).
Definition getExpressionSummary (d : ModelRatioData) : jsstr :=
  let tierCount := count_tiers (billingExpr d) in
  if Nat.ltb 0 tierCount then t "Tiered pricing" ++ middle_dot ++ count_text tierCount ++ " " ++ t "tiers"
  else t "Expression pricing".
Definition getPriceSummary (row : ModelPricingSnapshot) : jsstr :=
  let d := data row in let v := values d in
  if str_eqb (billingMode d) "tiered_expr" then getExpressionSummary d
  else if str_eqb (billingMode d) "per-request" then
    if truthy (v price) then "$" ++ v price ++ " / " ++ t "request" else t "Unset price"
  else
    let inputPrice := ratioToPrice (v ratio) [] in
    if negb (truthy inputPrice) then t "Unset price"
    else
      let extraCount := length (List.filter (fun f => hasPricingValue (v f))
        [completionRatio; cacheRatio; createCacheRatio; imageRatio; audioRatio; audioCompletionRatio]) in
      if Nat.ltb 0 extraCount then t "Input" ++ " $" ++ inputPrice ++ middle_dot ++ count_text extraCount ++ " " ++ t "extras"
      else t "Input" ++ " $" ++ inputPrice.
Definition getPriceDetail (row : ModelPricingSnapshot) : jsstr :=
  let d := data row in let v := values d in
  if str_eqb (billingMode d) "tiered_expr" then
    if truthy (requestRuleExpr d) then t "Includes request rules" else t "Expression based"
  else if str_eqb (billingMode d) "per-request" then t "Fixed request price"
  else
    let inputPrice := ratioToPrice (v ratio) [] in
    if negb (truthy inputPrice) then t "No base input price"
    else
      let detail label f := if truthy (v f) then [t label ++ " $" ++ ratioToPrice (v f) inputPrice] else [] in
      let details := take 2 (detail "Output" completionRatio ++ detail "Cache" cacheRatio ++ detail "Cache write" createCacheRatio) in
      match details with [] => t "Base input price only" | _ => join middle_dot details end.
End Display.
End Snapshots.
Import Snapshots.

(** * The panel *)

Module Panel.
Record panel := PanelState {
  pricingMode : jsstr; promptPrice : jsstr; lanePrices : LaneKey -> jsstr; laneEnabled : LaneKey -> bool;
  panel_expr : jsstr; panel_rules : jsstr; form : ModelPricingFormValues }.

(** The effect that runs when the edited model changes. *)
Definition open_panel (editData : option ModelRatioData) : panel :=
  let lanes := createInitialLaneState editData in
  match editData with
  | Some d =>
      PanelState (if str_eqb (billingMode d) "tiered_expr" then "tiered_expr"
                  else if truthy (values d price) then "per-request" else "per-token")
        (PricingCore.promptPrice lanes) (prices lanes) (enabled lanes) (billingExpr d) (requestRuleExpr d) (values d)
  | None => PanelState "per-token" (PricingCore.promptPrice lanes) (prices lanes) (enabled lanes) [] [] (fun _ => [])
  end.

Definition setFormValue (f : Field) (v : jsstr) (p : panel) : panel :=
  PanelState (pricingMode p) (promptPrice p) (lanePrices p) (laneEnabled p) (panel_expr p) (panel_rules p)
    (upd f v (form p)).
Definition set_lanes (prompt : jsstr) (lp : LaneKey -> jsstr) (le : LaneKey -> bool) (p : panel) : panel :=
  PanelState (pricingMode p) prompt lp le (panel_expr p) (panel_rules p) (form p).

Definition deriveLaneRatio (lane : LaneKey) (price nextPromptPrice : jsstr) (nextLanePrices : LaneKey -> jsstr) : jsstr :=
  match text_number price with
  | None => []
  | Some priceNumber =>
      let over denominator :=
        match text_number denominator with
        | Some d => if num_eqb d (num 0) then [] else format_number (num_div priceNumber d)
        | None => []
        end in
      match lane with audioOutput => over (nextLanePrices audioInput) | _ => over nextPromptPrice end
  end.
Definition base_ratio (nextPromptPrice : jsstr) : jsstr :=
  match text_number nextPromptPrice with Some x => format_number (num_div x (num 2)) | None => [] end.
Definition syncLaneRatios (nextPromptPrice : jsstr) (nextLanePrices : LaneKey -> jsstr) (nextLaneEnabled : LaneKey -> bool)
  (p : panel) : panel :=
  fold_left (fun p lane =>
      setFormValue (ratioFieldByLane lane)
        (if nextLaneEnabled lane then deriveLaneRatio lane (nextLanePrices lane) nextPromptPrice nextLanePrices else []) p)
    lane_keys (setFormValue ratio (base_ratio nextPromptPrice) p).

Definition handlePromptPriceChange (value : jsstr) (p : panel) : panel :=
  if negb (numericDraftRegex value) then p
  else syncLaneRatios value (lanePrices p) (laneEnabled p) (set_lanes value (lanePrices p) (laneEnabled p) p).
Definition handleLanePriceChange (lane : LaneKey) (value : jsstr) (p : panel) : panel :=
  if negb (numericDraftRegex value) then p
  else
    let nextLanePrices := upd lane value (lanePrices p) in
    let q := set_lanes (promptPrice p) nextLanePrices (laneEnabled p) p in
    let q := if laneEnabled p lane
             then setFormValue (ratioFieldByLane lane) (deriveLaneRatio lane value (promptPrice p) nextLanePrices) q else q in
    if bool_decide (lane = audioInput) && laneEnabled p audioOutput
    then setFormValue audioCompletionRatio
           (deriveLaneRatio audioOutput (nextLanePrices audioOutput) (promptPrice p) nextLanePrices) q
    else q.
Definition handleLaneToggle (lane : LaneKey) (checked : bool) (p : panel) : panel :=
  let nextEnabled := upd lane checked (laneEnabled p) in
  if checked then
    setFormValue (ratioFieldByLane lane) (deriveLaneRatio lane (lanePrices p lane) (promptPrice p) (lanePrices p))
      (set_lanes (promptPrice p) (lanePrices p) nextEnabled p)
  else
    let nextPrices := upd lane [] (lanePrices p) in
    let q := setFormValue (ratioFieldByLane lane) [] p in
    if bool_decide (lane = audioInput)
    then set_lanes (promptPrice p) (upd audioOutput [] nextPrices) (upd audioOutput false nextEnabled)
           (setFormValue audioCompletionRatio [] q)
    else set_lanes (promptPrice p) nextPrices nextEnabled q.

Definition set_expr (e : jsstr) (p : panel) : panel :=
  PanelState (pricingMode p) (promptPrice p) (lanePrices p) (laneEnabled p) e (panel_rules p) (form p).
Definition set_rules (r : jsstr) (p : panel) : panel :=
  PanelState (pricingMode p) (promptPrice p) (lanePrices p) (laneEnabled p) (panel_expr p) r (form p).
Definition handleModeChange (nextMode : jsstr) (p : panel) : panel :=
  PanelState nextMode (promptPrice p) (lanePrices p) (laneEnabled p)
    (if str_eqb nextMode "tiered_expr" && negb (truthy (panel_expr p)) then "tier(`base`, p * 0 + c * 0)" else panel_expr p)
    (panel_rules p) (form p).
(** The inputs of the form itself. *)
Definition change_name (value : jsstr) (p : panel) : panel := setFormValue name value p.
Definition change_price (value : jsstr) (p : panel) : panel :=
  if numericDraftRegex value then setFormValue price value p else p.

Definition lacks_input_price (p : panel) : bool :=
  str_eqb (pricingMode p) "per-token" && negb (if text_number (promptPrice p) is Some _ then true else false)
  && existsb (fun lane => laneEnabled p lane && truthy (lanePrices p lane)) lane_keys.
Definition lacks_audio_price (p : panel) : bool :=
  str_eqb (pricingMode p) "per-token" && laneEnabled p audioOutput && negb (truthy (lanePrices p audioInput)).

Definition warnings (editData : option ModelRatioData) (t : jsstr -> jsstr) (p : panel) : list jsstr :=
  let conflict := match editData with
                  | Some d => truthy (values d price) && existsb (fun f => truthy (values d f)) conflicting
                  | None => false
                  end in
  (if conflict then [t "This model has both fixed-price and token-price settings. Saving the current mode will rewrite the conflicting fields."] else [])
  ++ (if lacks_input_price p then [t "Input price is required before saving dependent prices."] else [])
  ++ (if lacks_audio_price p then [t "Audio output price requires an audio input price."] else []).

(** The error a refused draft shows, if any. *)
Definition validatePricingValues (t : jsstr -> jsstr) (p : panel) : option (Field * jsstr) :=
  if lacks_input_price p then Some (ratio, t "Input price is required before saving dependent prices.")
  else if lacks_audio_price p then Some (audioRatio, t "Audio output price requires an audio input price.")
  else None.
(** The schema of the form: a name. *)
Definition trigger (t : jsstr -> jsstr) (p : panel) : option (Field * jsstr) :=
  if truthy (form p name) then None else Some (name, t "Model name is required").
Definition buildSubmitData (p : panel) : ModelRatioData :=
  let tiered := str_eqb (pricingMode p) "tiered_expr" in
  Data (upd name (trim (form p name)) (form p)) (pricingMode p)
    (if tiered then panel_expr p else []) (if tiered then panel_rules p else []).
Definition commitDraft (t : jsstr -> jsstr) (p : panel) : option ModelRatioData :=
  match trigger t p, validatePricingValues t p with
  | None, None => Some (buildSubmitData p)
  | _, _ => None
  end.
End Panel.
Import Panel.

(** * The table and its editor *)

Module PriceTable.
(** The names under which options are changed. *)
Definition option_name (key : OptionKey) : jsstr :=
  match key with
  | ModelPrice => "ModelPrice" | ModelRatio => "ModelRatio" | CacheRatio => "CacheRatio"
  | CreateCacheRatio => "CreateCacheRatio" | CompletionRatio => "CompletionRatio" | ImageRatio => "ImageRatio"
  | AudioRatio => "AudioRatio" | AudioCompletionRatio => "AudioCompletionRatio"
  | BillingMode => "billing_setting.billing_mode" | BillingExpr_ => "billing_setting.billing_expr"
  end.

Definition delete_model (model : jsstr) (m : maps) : maps :=
  fun key => obj_delete model (m key).
Definition setIfPresent (key : OptionKey) (model value : jsstr) (m : maps) : maps :=
  if negb (truthy value) then m
  else let parsed := parse_float value in
       if is_finite parsed then upd key (obj_set model (JNum parsed) (m key)) m else m.
(** The options of ratios with their fields, in the order they are set. *)
Definition ratio_options : list (OptionKey * Field) := [
  (ModelRatio, ratio); (CacheRatio, cacheRatio); (CreateCacheRatio, createCacheRatio);
  (CompletionRatio, completionRatio); (ImageRatio, imageRatio); (AudioRatio, audioRatio);
  (AudioCompletionRatio, audioCompletionRatio)].
Definition set_all (pairs : list (OptionKey * Field)) (v : ModelPricingFormValues) (model : jsstr) (m : maps) : maps :=
  fold_left (fun m kf => setIfPresent kf.1 model (v kf.2) m) pairs m.
Definition price_model (d : ModelRatioData) (m : maps) (model : jsstr) : maps :=
  let m := delete_model model m in
  if str_eqb (billingMode d) "tiered_expr" then
    let combined := BillingExpr.combineBillingExpr (billingExpr d) (requestRuleExpr d) in
    let m := if truthy combined
             then upd BillingExpr_ (obj_set model (JStr combined) (m BillingExpr_))
                    (upd BillingMode (obj_set model (JStr "tiered_expr") (m BillingMode)) m)
             else m in
    set_all ((ModelPrice, price) :: ratio_options) (values d) model m
  else if truthy (values d price) then setIfPresent ModelPrice model (values d price) m
  else set_all ratio_options (values d) model m.

(** The texts that are passed to [onChange], for every option. *)
Definition print_maps (m : maps) : ModelPricingSnapshotInput := fun key => stringify_pretty (JObj (m key)).
Definition persistPricingData (d : ModelRatioData) (targetNames : list jsstr) (drafts : ModelPricingSnapshotInput)
  : option ModelPricingSnapshotInput :=
  m ← parse_maps drafts; Some (print_maps (fold_left (price_model d) targetNames m)).
Definition delete_texts (model : jsstr) (drafts : ModelPricingSnapshotInput) : option ModelPricingSnapshotInput :=
  m ← parse_maps drafts; Some (print_maps (delete_model model m)).

(** ** Rows *)

Record ModelRow := Row {
  displayed : ModelPricingSnapshot; saved : option ModelPricingSnapshot; draft : option ModelPricingSnapshot;
  isDraftChanged : bool; isDraftDeleted : bool; isDraftNew : bool }.
Definition row_name (s : ModelPricingSnapshot) : jsstr := values (data s) name.
Definition by_name (rows : list ModelPricingSnapshot) (n : jsstr) : option ModelPricingSnapshot :=
  mget n (fold_left (fun m row => mset (row_name row) row m) rows []).
Definition unpriced (n : jsstr) : ModelPricingSnapshot :=
  Snapshot (Data (upd name n (fun _ => [])) "per-token" [] []) false.
Definition row_of (savedRows draftRows : list ModelPricingSnapshot) (n : jsstr) : ModelRow :=
  let saved := by_name savedRows n in
  let draft := by_name draftRows n in
  Row (match saved, draft with Some s, _ => s | None, Some s => s | None, None => unpriced n end) saved draft
    (negb (str_eqb (getSnapshotSignature saved) (getSnapshotSignature draft)))
    (match saved, draft with Some _, None => true | _, _ => false end)
    (match saved, draft with None, Some _ => true | _, _ => false end).

Section Table.
(** The order of names in the language of the browser. *)
Context (localeCompare : jsstr -> jsstr -> jsnum).

(** [unset]: the models to offer when only those without a price are shown. *)
Definition models (saved drafts : ModelPricingSnapshotInput) (unset : option (list jsstr)) : option (list ModelRow) :=
  savedRows ← buildModelSnapshots saved;
  draftRows ← buildModelSnapshots drafts;
  let names := match unset with
               | Some candidates => nub candidates
               | None => nub (map row_name savedRows ++ map row_name draftRows)
               end in
  let rows := List.filter (fun row => negb (isDraftDeleted row)) (map (row_of savedRows draftRows) names) in
  let rows := match unset with
              | Some _ => List.filter (fun row => isBasePricingUnset (PriceTable.saved row)) rows
              | None => rows
              end in
  Some (sort (fun a b => localeCompare (row_name (displayed a)) (row_name (displayed b))) rows).
End Table.

Definition modeCounts (rows : list ModelRow) : nat * nat * nat :=
  fold_left (fun '(token, request, tiered) row =>
    let mode := billingMode (data (displayed row)) in
    if str_eqb mode "per-request" then (token, S request, tiered)
    else if str_eqb mode "tiered_expr" then (token, request, S tiered)
    else (S token, request, tiered)) rows (0, 0, 0).

(** ** State *)

Record price_editor := Editor {
  drafts : ModelPricingSnapshotInput; editData : option ModelRatioData; editorOpen : bool; shown : panel;
  errors : list jsstr }.
Definition set_drafts (d : ModelPricingSnapshotInput) (s : price_editor) : price_editor :=
  Editor d (editData s) (editorOpen s) (shown s) (errors s).
Definition error_toast (m : jsstr) (s : price_editor) : price_editor :=
  Editor (drafts s) (editData s) (editorOpen s) (shown s) (errors s ++ [m]).
Definition on_panel (f : panel -> panel) (s : price_editor) : price_editor :=
  Editor (drafts s) (editData s) (editorOpen s) (f (shown s)) (errors s).

(** Another model in the editor: the panel starts again. *)
Definition setEditData (d : ModelRatioData) (s : price_editor) : price_editor :=
  Editor (drafts s) (Some d) (editorOpen s) (open_panel (Some d)) (errors s).
Definition close_editor (s : price_editor) : price_editor :=
  Editor (drafts s) None false (shown s) (errors s).

Definition edited_data (row : ModelRow) : ModelRatioData :=
  let s := match draft row, saved row with Some s, _ => s | None, Some s => s | None, None => displayed row end in
  let d := data s in
  Data (values d)
    (if str_eqb (billingMode d) "tiered_expr" then "tiered_expr"
     else if truthy (values d price) then "per-request" else "per-token")
    (billingExpr d) (requestRuleExpr d).
Definition handleEdit (row : ModelRow) (s : price_editor) : price_editor :=
  let s := setEditData (edited_data row) s in Editor (drafts s) (editData s) true (shown s) (errors s).
(** A panel that already shows a new model is kept as it is. *)
Definition handleAdd (s : price_editor) : price_editor :=
  match editData s, editorOpen s with
  | None, true => s
  | _, _ => Editor (drafts s) None true (open_panel None) (errors s)
  end.
Definition handleGlobalFilterChange (previous next : jsstr) (s : price_editor) : price_editor :=
  if str_eqb next previous then s else close_editor s.
Definition handleDelete (model : jsstr) (s : price_editor) : option price_editor :=
  d ← delete_texts model (drafts s);
  let s := set_drafts d s in
  match editData s with
  | Some e => Some (if str_eqb (values e name) model then close_editor s else s)
  | None => Some s
  end.

Section Commit.
Context (t : jsstr -> jsstr).
(** Whether the draft in the editor could be committed, and the state after it. *)
Definition commitOpenEditor (s : price_editor) : option (bool * price_editor) :=
  if negb (editorOpen s) then Some (true, s)
  else match commitDraft t (shown s) with
       | None => Some (false, s)
       | Some d => texts ← persistPricingData d [values d name] (drafts s); Some (true, setEditData d (set_drafts texts s))
       end.
Definition handleBatchCopy (selected : list jsstr) (s : price_editor) : option price_editor :=
  match editData s with
  | None => Some (error_toast (t "Open a source model first") s)
  | Some e =>
      match (if editorOpen s then commitDraft t (shown s) else Some e) with
      | None => Some s
      | Some sourceData =>
          let s := if editorOpen s then setEditData sourceData s else s in
          match selected with
          | [] => Some (error_toast (t "Select at least one target model") s)
          | _ => texts ← persistPricingData sourceData (nub (values sourceData name :: selected)) (drafts s);
                 Some (set_drafts texts s)
          end
      end
  end.
End Commit.
End PriceTable.
