(* ===== verification/PricingProofs.v ===== *)
(** The price editor ([Pricing]): what saving writes and what it leaves alone.

    - records as functions, entries of the maps;
    - what is written for a model, option by option, and that it reads back;
    - the panel: ratios follow the prices, and what a commit drops;
    - saving an untouched model changes nothing;
    - rows are marked as changed exactly when they are. *)
From Stdlib Require Import Floats.SpecFloat Logic.FunctionalExtensionality.
From S2P Require Import Prelude JsNumber JsCollections Json JsonText BillingExpr Pricing.
Import PricingFormat PricingCore Snapshots Panel PriceTable.

Module PriceEditing.

(** * Records and maps *)

Section Records.
Context {K A : Type} `{EqDecision K}.
Lemma upd_eq (k : K) (v : A) r : upd k v r k = v.
Proof. unfold upd. by rewrite bool_decide_true. Qed.
Lemma upd_ne (k k' : K) (v : A) r : k' <> k -> upd k v r k' = r k'.
Proof. intros H. unfold upd. by rewrite bool_decide_false. Qed.
Lemma upd_lookup (k k' : K) (v : A) r : upd k v r k' = if bool_decide (k' = k) then v else r k'.
Proof. done. Qed.
End Records.

Lemma all_options key : key ∈ collect_order.
Proof. apply has_spec. by destruct key. Qed.

(** An entry of one of the maps. *)
Definition entry (m : maps) (key : OptionKey) (model : jsstr) : option json := obj_get model (m key).
Lemma entry_delete model m key model' :
  entry (delete_model model m) key model' = if str_eqb model' model then None else entry m key model'.
Proof.
  apply obj_get_delete.
Qed.
Lemma entry_set key model v m key' model' :
  entry (upd key (obj_set model v (m key)) m) key' model' =
  if bool_decide (key' = key) && str_eqb model' model then Some v else entry m key' model'.
Proof.
  unfold entry. rewrite upd_lookup. destruct (bool_decide_reflect (key' = key)) as [->|]; [|done]. by rewrite obj_get_set.
Qed.

(** The number a text field is saved as. *)
Definition saved_number (s : jsstr) : option json :=
  if truthy s && is_finite (parse_float s) then Some (JNum (parse_float s)) else None.
Lemma entry_present key model v m key' model' :
  entry (setIfPresent key model v m) key' model' =
  if bool_decide (key' = key) && str_eqb model' model
  then match saved_number v with Some j => Some j | None => entry m key' model' end else entry m key' model'.
Proof.
  unfold setIfPresent, saved_number. destruct (truthy v); cbn [negb andb]; [|by destruct (_ && _)].
  destruct (is_finite (parse_float v)); [apply entry_set|by destruct (_ && _)].
Qed.
(** Several options at once. *)
Fixpoint field_for (key : OptionKey) (pairs : list (OptionKey * Field)) : option Field :=
  match pairs with
  | [] => None
  | kf :: rest => if bool_decide (key = kf.1) then Some kf.2 else field_for key rest
  end.
Lemma field_for_none key pairs : key ∉ pairs.*1 -> field_for key pairs = None.
Proof.
  induction pairs as [|kf pairs IH]; intros H; [done|]. apply not_elem_of_cons in H as [H1 H2]. cbn.
  by rewrite bool_decide_false, IH.
Qed.
Lemma entry_set_all pairs v model m key model' : NoDup pairs.*1 ->
  entry (set_all pairs v model m) key model' =
  match (if str_eqb model' model then f ← field_for key pairs; saved_number (v f) else None) with
  | Some j => Some j
  | None => entry m key model'
  end.
Proof.
  unfold set_all. revert m. induction pairs as [|[k f] pairs IH]; intros m Hn; [by destruct (str_eqb model' model)|].
  apply NoDup_cons in Hn as [Hk Hn]. cbn [fold_left fst snd]. rewrite IH by done. rewrite entry_present.
  destruct (str_eqb model' model); [|by rewrite andb_false_r]. rewrite andb_true_r. cbn [field_for fst snd].
  destruct (bool_decide_reflect (key = k)) as [->|Hne]; [|done]. by rewrite field_for_none.
Qed.

(** ** What a model is saved as *)

(** The entry of a model whose pricing is [d], option by option. *)
Definition priced (d : ModelRatioData) (key : OptionKey) : option json :=
  let tiered := str_eqb (billingMode d) "tiered_expr" in
  let combined := BillingExpr.combineBillingExpr (billingExpr d) (requestRuleExpr d) in
  let v f := saved_number (values d f) in
  let fixed := negb tiered && truthy (values d price) in
  let by_ratio f := if fixed then None else v f in
  match key with
  | ModelPrice => if tiered || fixed then v price else None
  | ModelRatio => by_ratio ratio | CacheRatio => by_ratio cacheRatio | CreateCacheRatio => by_ratio createCacheRatio
  | CompletionRatio => by_ratio completionRatio | ImageRatio => by_ratio imageRatio | AudioRatio => by_ratio audioRatio
  | AudioCompletionRatio => by_ratio audioCompletionRatio
  | BillingMode => if tiered && truthy combined then Some (JStr "tiered_expr") else None
  | BillingExpr_ => if tiered && truthy combined then Some (JStr combined) else None
  end.

Definition field_of_option (key : OptionKey) : option Field :=
  match key with
  | ModelPrice => Some price | ModelRatio => Some ratio | CacheRatio => Some cacheRatio
  | CreateCacheRatio => Some createCacheRatio | CompletionRatio => Some completionRatio | ImageRatio => Some imageRatio
  | AudioRatio => Some audioRatio | AudioCompletionRatio => Some audioCompletionRatio
  | BillingMode | BillingExpr_ => None
  end.
Lemma field_for_all key : field_for key ((ModelPrice, price) :: ratio_options) = field_of_option key.
Proof. destruct key; by vm_compute. Qed.
Lemma field_for_ratios key :
  field_for key ratio_options = match key with ModelPrice => None | _ => field_of_option key end.
Proof. destruct key; by vm_compute. Qed.
Lemma entry_price_model d m model key model' :
  entry (price_model d m model) key model' = if str_eqb model' model then priced d key else entry m key model'.
Proof.
  unfold price_model, priced. destruct (str_eqb (billingMode d) "tiered_expr"); cbn [negb andb orb].
  - rewrite entry_set_all by (apply (bool_decide_unpack _); by vm_compute).
    set (m1 := delete_model model m). set (combined := BillingExpr.combineBillingExpr _ _).
    assert (Hb : forall k, entry (if truthy combined then
        upd BillingExpr_ (obj_set model (JStr combined) (m1 BillingExpr_))
          (upd BillingMode (obj_set model (JStr "tiered_expr") (m1 BillingMode)) m1) else m1) k model' =
      if str_eqb model' model then
        if truthy combined then match k with BillingExpr_ => Some (JStr combined) | BillingMode => Some (JStr "tiered_expr") | _ => None end
        else None
      else entry m k model').
    { intros k. destruct (truthy combined).
      - change (m1 BillingExpr_) with (upd BillingMode (obj_set model (JStr "tiered_expr") (m1 BillingMode)) m1 BillingExpr_).
        rewrite entry_set, entry_set. subst m1. rewrite entry_delete. by destruct k, (str_eqb model' model).
      - subst m1. by rewrite entry_delete. }
    destruct (str_eqb model' model) eqn:E; [|by rewrite Hb].
    rewrite Hb, field_for_all. destruct key; cbn; try done; destruct (saved_number _), (truthy combined); done.
  - destruct (truthy (values d price)) eqn:Ep; cbn [andb].
    + rewrite entry_present, entry_delete. destruct (str_eqb model' model); [|by rewrite andb_false_r].
      rewrite andb_true_r. destruct key; cbn; try done. by destruct (saved_number _).
    + rewrite entry_set_all by (apply (bool_decide_unpack _); by vm_compute). rewrite !entry_delete.
      destruct (str_eqb model' model); [|done].
      rewrite field_for_ratios. destruct key; cbn; try done; by destruct (saved_number _).
Qed.
Lemma entry_targets d targets m key model :
  entry (fold_left (price_model d) targets m) key model = if has model targets then priced d key else entry m key model.
Proof.
  revert m. induction targets as [|t targets IH]; intros m; [done|]. cbn [fold_left]. rewrite IH, entry_price_model.
  assert (E : has model (t :: targets) = str_eqb model t || has model targets).
  { apply Bool.eq_iff_eq_true. by rewrite orb_true_iff, !has_spec, elem_of_cons, str_eqb_true. }
  rewrite E. by destruct (str_eqb model t), (has model targets).
Qed.

(** ** The texts *)

Definition sound_maps (m : maps) : Prop := forall key, sound (m key).
Lemma record_of_print o : sound o -> record_of (stringify_pretty (JObj o)) = Some o.
Proof.
  intros Hs. unfold record_of, safeJsonParse. rewrite trim_pretty_object, parse_pretty by (by apply sound_printable).
  done.
Qed.
Lemma parse_print m : sound_maps m -> parse_maps (print_maps m) = Some m.
Proof.
  intros Hs. unfold parse_maps. assert (E : forall key, record_of (print_maps m key) = Some (m key)).
  { intros key. by apply record_of_print. }
  rewrite (proj2 (forallb_forall _ _)) by (intros key _; by rewrite E).
  f_equal. apply functional_extensionality. intros key. by rewrite E.
Qed.

(** The numbers of a model have texts that denote them. *)
Definition printable_numbers (d : ModelRatioData) : Prop :=
  forall f, f <> name -> match saved_number (values d f) with Some j => printable j | None => True end.
Lemma sound_upd m key o : sound_maps m -> sound o -> sound_maps (upd key o m).
Proof. intros Hm Ho key'. rewrite upd_lookup. by case_bool_decide. Qed.
Lemma sound_present key model v m :
  match saved_number v with Some j => printable j | None => True end -> sound_maps m -> sound_maps (setIfPresent key model v m).
Proof.
  unfold saved_number, setIfPresent. destruct (truthy v); cbn [andb negb]; [|done].
  destruct (is_finite (parse_float v)); [|done]. intros Hv Hm. apply sound_upd; [done|]. by apply sound_set.
Qed.
Lemma sound_set_all pairs d model m : name ∉ pairs.*2 -> printable_numbers d -> sound_maps m ->
  sound_maps (set_all pairs (values d) model m).
Proof.
  intros Hp Hd. unfold set_all. revert m. induction pairs as [|kf pairs IH]; intros m Hm; [done|].
  apply not_elem_of_cons in Hp as [Hne Hp]. apply IH; [done|]. apply sound_present; [|done]. apply Hd. congruence.
Qed.
Lemma sound_price d m model : printable_numbers d -> sound_maps m -> sound_maps (price_model d m model).
Proof.
  intros Hd Hm. unfold price_model.
  assert (H1 : sound_maps (delete_model model m)) by (intros key; by apply sound_delete).
  destruct (str_eqb (billingMode d) "tiered_expr").
  - apply sound_set_all; [apply (bool_decide_unpack _); by vm_compute|done|]. destruct (truthy _); [|done].
    repeat (apply sound_upd; [|apply sound_set; [constructor|apply H1]]). done.
  - destruct (truthy (values d price)); [apply sound_present; [by apply Hd|done]|].
    apply sound_set_all; [apply (bool_decide_unpack _); by vm_compute|done|done].
Qed.
Lemma sound_targets d targets m : printable_numbers d -> sound_maps m -> sound_maps (fold_left (price_model d) targets m).
Proof. intros Hd. revert m. induction targets as [|t l IH]; intros m Hm; [done|]. by apply IH, sound_price. Qed.

(** The snapshots of models depend on their entries only. *)
Lemma snapshot_entries m m' model :
  (forall key, entry m' key model = entry m key model) -> snapshot_of m' model = snapshot_of m model.
Proof.
  intros H. assert (E : snapshot_values m' model = snapshot_values m model).
  { apply functional_extensionality. intros f. unfold snapshot_values. destruct (option_of_field f); [|done].
    unfold entry in H. by rewrite H. }
  unfold snapshot_of. rewrite E. unfold entry in H. by rewrite !H.
Qed.

(** C16: saving writes the pricing of the editor for exactly the chosen models.
    When the option texts parse and the numbers in them and in the editor
    print back, the texts that are written read back, and in each of the ten options each
    chosen model has exactly one entry or none, decided by the fields alone:
    in expression mode the mode and the expression with its rules, unless the
    expression is blank, and whatever numbers are filled in; in the other two
    modes only the fixed price when the price field is filled, whichever of
    the two is shown (fixed_price_sticks), and otherwise the ratios filled in.
    Every other model has the entries and the snapshot it had before. *)
Theorem save_exact d targets drafts m :
  parse_maps drafts = Some m -> sound_maps m -> printable_numbers d ->
  exists texts m', persistPricingData d targets drafts = Some texts /\ parse_maps texts = Some m' /\
    forall model,
      (model ∈ targets -> forall key, obj_get model (m' key) = priced d key) /\
      (model ∉ targets -> snapshot_of m' model = snapshot_of m model /\
                          forall key, obj_get model (m' key) = obj_get model (m key)).
Proof.
  intros Hp Hm Hd. unfold persistPricingData. rewrite Hp. cbn [mbind option_bind].
  eexists. exists (fold_left (price_model d) targets m). split; [done|].
  split; [apply parse_print; by apply sound_targets|]. intros model.
  assert (H : forall key, entry (fold_left (price_model d) targets m) key model =
                          if has model targets then priced d key else entry m key model) by (intros; apply entry_targets).
  split.
  - intros Hin key. specialize (H key). by rewrite (proj2 (has_spec model targets) Hin) in H.
  - intros Hin. rewrite (proj2 (has_spec_false model targets) Hin) in H. split; [by apply snapshot_entries|done].
Qed.

(** * The panel *)

(** What the user can do in the panel. *)
Inductive panel_edit : panel -> panel -> Prop :=
| edit_prompt value p : panel_edit p (handlePromptPriceChange value p)
| edit_lane lane value p : panel_edit p (handleLanePriceChange lane value p)
| edit_toggle lane checked p : panel_edit p (handleLaneToggle lane checked p)
| edit_mode mode p : panel_edit p (handleModeChange mode p)
| edit_expr e p : panel_edit p (set_expr e p)
| edit_rules r p : panel_edit p (set_rules r p)
| edit_name value p : panel_edit p (change_name value p)
| edit_price value p : panel_edit p (change_price value p).

(** Every ratio of the form is the one its price stands for. *)
Record in_step (p : panel) : Prop := InStep {
  base_in_step : form p ratio = base_ratio (promptPrice p);
  lanes_in_step : forall lane, form p (ratioFieldByLane lane) =
    if laneEnabled p lane then deriveLaneRatio lane (lanePrices p lane) (promptPrice p) (lanePrices p) else [] }.

Lemma lane_field_inj a b : ratioFieldByLane a = ratioFieldByLane b -> a = b.
Proof. by destruct a, b. Qed.
Lemma lane_field_ne a f : f = ratio \/ f = name \/ f = price -> ratioFieldByLane a <> f.
Proof. intros [->|[->| ->]]; by destruct a. Qed.
Lemma form_set f v p f' : form (setFormValue f v p) f' = if bool_decide (f' = f) then v else form p f'.
Proof. done. Qed.
(** Only the audio output price depends on another lane. *)
Lemma derive_local lane price prompt lp lp' :
  (lane = audioOutput -> lp audioInput = lp' audioInput) ->
  deriveLaneRatio lane price prompt lp = deriveLaneRatio lane price prompt lp'.
Proof. intros H. unfold deriveLaneRatio. destruct (text_number price), lane; try done. by rewrite H. Qed.

Lemma sync_in_step value le p :
  in_step (syncLaneRatios value (lanePrices p) le (set_lanes value (lanePrices p) le p)).
Proof. split; [done|]. intros []; done. Qed.
Lemma prompt_in_step value p : numericDraftRegex value = true -> in_step (handlePromptPriceChange value p).
Proof. intros H. unfold handlePromptPriceChange. rewrite H. apply sync_in_step. Qed.
Lemma open_in_step : in_step (open_panel None).
Proof. split; [done|]. by intros []. Qed.

Lemma other_field_in_step f v p : f = name \/ f = price -> in_step p -> in_step (setFormValue f v p).
Proof.
  intros Hf [H1 H2]. split.
  - rewrite form_set, bool_decide_false by (by destruct Hf as [-> | ->]). done.
  - intros lane. rewrite form_set, bool_decide_false by (apply lane_field_ne; tauto). apply H2.
Qed.
Lemma lane_field_eq a b : bool_decide (ratioFieldByLane a = ratioFieldByLane b) = bool_decide (a = b).
Proof. apply bool_decide_ext. split; [apply lane_field_inj|by intros ->]. Qed.
Lemma form_lane_price lane value p f : numericDraftRegex value = true ->
  let next := upd lane value (lanePrices p) in
  form (handleLanePriceChange lane value p) f =
  if bool_decide (lane = audioInput) && laneEnabled p audioOutput && bool_decide (f = audioCompletionRatio)
  then deriveLaneRatio audioOutput (next audioOutput) (promptPrice p) next
  else if laneEnabled p lane && bool_decide (f = ratioFieldByLane lane)
  then deriveLaneRatio lane value (promptPrice p) next else form p f.
Proof.
  intros Hv. unfold handleLanePriceChange. rewrite Hv. cbn [negb].
  destruct (bool_decide (lane = audioInput) && laneEnabled p audioOutput), (laneEnabled p lane); done.
Qed.
Lemma lane_price_in_step lane value p : in_step p -> in_step (handleLanePriceChange lane value p).
Proof.
  intros [H1 H2]. destruct (numericDraftRegex value) eqn:Hv; [|by unfold handleLanePriceChange; rewrite Hv].
  assert (Hs : promptPrice (handleLanePriceChange lane value p) = promptPrice p /\
               laneEnabled (handleLanePriceChange lane value p) = laneEnabled p /\
               lanePrices (handleLanePriceChange lane value p) = upd lane value (lanePrices p)).
  { unfold handleLanePriceChange. rewrite Hv. cbn [negb]. by destruct (laneEnabled p lane), (_ && _). }
  destruct Hs as (E1 & E2 & E3). split; rewrite ?E1, ?E2, ?E3; [|intros lane'; rewrite ?E1, ?E2, ?E3]; rewrite form_lane_price by done.
  - rewrite (bool_decide_false (ratio = audioCompletionRatio)) by done.
    rewrite (bool_decide_false (ratio = ratioFieldByLane lane)) by (apply not_eq_sym, lane_field_ne; tauto). by rewrite !andb_false_r.
  - rewrite (lane_field_eq lane' lane). change audioCompletionRatio with (ratioFieldByLane audioOutput).
    rewrite (lane_field_eq lane' audioOutput).
    destruct (decide (lane' = audioOutput)) as [->|Hne].
    + rewrite (bool_decide_true (audioOutput = audioOutput)) by done. rewrite andb_true_r.
      destruct (bool_decide_reflect (lane = audioInput)) as [->|Hl]; cbn [andb].
      * destruct (laneEnabled p audioOutput) eqn:E; [done|].
        rewrite (bool_decide_false (audioOutput = audioInput)) by done. rewrite andb_false_r, H2, E. done.
      * destruct (bool_decide_reflect (audioOutput = lane)) as [<-|Ho]; rewrite ?andb_true_r, ?andb_false_r.
        -- destruct (laneEnabled p audioOutput) eqn:E; [by rewrite upd_eq|]. by rewrite H2, E.
        -- rewrite H2. destruct (laneEnabled p audioOutput); [|done].
           rewrite (upd_ne lane audioOutput) by done. apply derive_local. intros _. by rewrite upd_ne.
    + rewrite (bool_decide_false (lane' = audioOutput)) by done. rewrite andb_false_r.
      destruct (bool_decide_reflect (lane' = lane)) as [->|Hl]; rewrite ?andb_true_r, ?andb_false_r.
      * destruct (laneEnabled p lane) eqn:E; [by rewrite upd_eq|]. by rewrite H2, E.
      * rewrite H2. destruct (laneEnabled p lane'); [|done]. rewrite (upd_ne lane lane') by done. by apply derive_local.
Qed.
Lemma toggle_in_step lane checked p : in_step p -> in_step (handleLaneToggle lane checked p).
Proof.
  intros [H1 H2]. unfold handleLaneToggle. destruct checked; [|destruct (bool_decide_reflect (lane = audioInput)) as [->|Hl]].
  - split; cbn [form promptPrice setFormValue set_lanes laneEnabled lanePrices].
    + rewrite upd_ne; [done|]. apply not_eq_sym, lane_field_ne. tauto.
    + intros lane'. rewrite !upd_lookup, lane_field_eq. destruct (bool_decide_reflect (lane' = lane)) as [->|_]; [done|]. by rewrite H2.
  - split; cbn [form promptPrice setFormValue set_lanes laneEnabled lanePrices]; [by rewrite !upd_ne|].
    intros lane'. destruct lane'; try done;
      rewrite !upd_ne by done; rewrite (H2 _ : form p (ratioFieldByLane _) = _);
      (destruct (laneEnabled p _); [|done]); by apply derive_local.
  - split; cbn [form promptPrice setFormValue set_lanes laneEnabled lanePrices].
    + rewrite upd_ne; [done|]. apply not_eq_sym, lane_field_ne. tauto.
    + intros lane'. rewrite !upd_lookup, lane_field_eq. destruct (bool_decide_reflect (lane' = lane)) as [->|_]; [done|].
      rewrite H2. destruct (laneEnabled p lane'); [|done]. apply derive_local. intros _. by rewrite upd_ne.
Qed.
Lemma edit_in_step p p' : panel_edit p p' -> in_step p -> in_step p'.
Proof.
  intros He Hs. destruct He.
  - unfold handlePromptPriceChange. destruct (numericDraftRegex value) eqn:E; [apply sync_in_step|done].
  - by apply lane_price_in_step.
  - by apply toggle_in_step.
  - by destruct Hs.
  - by destruct Hs.
  - by destruct Hs.
  - apply other_field_in_step; auto.
  - unfold change_price. destruct (numericDraftRegex value); [|done]. apply other_field_in_step; auto.
Qed.

(** States of the panel since a new model was started or, in any state, an
    input price was typed. *)
Inductive since_prices_known : panel -> Prop :=
| since_new : since_prices_known (open_panel None)
| since_typed value p : numericDraftRegex value = true -> since_prices_known (handlePromptPriceChange value p)
| since_edit p p' : since_prices_known p -> panel_edit p p' -> since_prices_known p'.

Lemma since_in_step p : since_prices_known p -> in_step p.
Proof. induction 1; [apply open_in_step|by apply prompt_in_step|by eapply edit_in_step]. Qed.

(** C17: the ratios that are saved follow the prices on the screen: once a new
    model is started or an input price typed, after any further edits the base
    ratio is half the input price, each enabled lane has the ratio of its price
    to the input price (of audio output to audio input), and lanes that are
    switched off have none. *)
Theorem ratios_follow_prices p : since_prices_known p ->
  form p ratio = base_ratio (promptPrice p) /\
  forall lane, form p (ratioFieldByLane lane) =
    if laneEnabled p lane then deriveLaneRatio lane (lanePrices p lane) (promptPrice p) (lanePrices p) else [].
Proof.
  intros Hs. by destruct (since_in_step p Hs).
Qed.
Lemma ratios_follow_prices_witness :
  let p := handleLanePriceChange completion "15" (handleLaneToggle completion true
             (handlePromptPriceChange "3" (open_panel None))) in
  (form p ratio = base_ratio (promptPrice p) /\
   forall lane, form p (ratioFieldByLane lane) =
     if laneEnabled p lane then deriveLaneRatio lane (lanePrices p lane) (promptPrice p) (lanePrices p) else []) /\
  (form p ratio, form p completionRatio) = ("1.5" : jsstr, "5" : jsstr).
Proof.
  split; [|by vm_compute].
  apply (ratios_follow_prices (handleLanePriceChange completion "15" (handleLaneToggle completion true
             (handlePromptPriceChange "3" (open_panel None))))).
  repeat (eapply since_edit; [|constructor]). apply since_new.
Defined.

(** ** Numbers in text fields *)

Lemma span_concat f s a b : span f s = (a, b) -> s = a ++ b.
Proof.
  revert a b. induction s as [|c t IH]; intros a b; cbn; [by intros [= <- <-]|].
  destruct (f c); [|by intros [= <- <-]]. destruct (span f t) as [x y] eqn:E. intros [= <- <-]. cbn. by rewrite (IH x y).
Qed.
Lemma fraction_concat s a b : fraction_part s = (a, b) -> s = a ++ b.
Proof.
  destruct s as [|c t]; [by intros [= <- <-]|]. destruct (decide (c = 46%N)) as [->|Hc].
  - unfold fraction_part. destruct (span is_digit t) as [[|d ds] t'] eqn:E; [by intros [= <- <-]|].
    intros [= <- <-]. apply span_concat in E as ->. done.
  - assert (H : fraction_part (c :: t) = ([], c :: t)) by (simpl; repeat case_match; congruence).
    rewrite H. by intros [= <- <-].
Qed.
Lemma exponent_concat s a b : exponent_text s = (a, b) -> s = a ++ b.
Proof.
  unfold exponent_text. destruct s as [|c t]; [by intros [= <- <-]|].
  destruct (_ || _); [|by intros [= <- <-]].
  assert (H : forall es t1, match t with
      | d :: t' => if N.eqb d 43 || N.eqb d 45 then ([d], t') else ([], t)
      | [] => ([], []) end = (es, t1) -> t = es ++ t1).
  { intros es t1. destruct t as [|d t']; [by intros [= <- <-]|]. by destruct (_ || _); intros [= <- <-]. }
  destruct (match t with [] => ([], []) | d :: t' => if N.eqb d 43 || N.eqb d 45 then ([d], t') else ([], t) end) as [es t1].
  specialize (H es t1 eq_refl). destruct (span is_digit t1) as [[|d ds] t2] eqn:E; [by intros [= <- <-]|].
  intros [= <- <-]. apply span_concat in E as ->. subst t. cbn. by rewrite <- app_assoc.
Qed.
Lemma lexeme_concat s l r : number_lexeme s = Some (l, r) -> s = l ++ r.
Proof.
  rewrite number_lexeme_parts.
  assert (Hsg : exists sg s1, match s with 45%N :: t => ([45%N], t) | _ => ([], s) end = (sg, s1) /\ s = sg ++ s1).
  { destruct s as [|c t]; [by exists [], []|]. destruct (decide (c = 45%N)) as [->|Hc]; [by eexists _, _|].
    exists [], (c :: t). split; [repeat case_match; congruence|done]. }
  destruct Hsg as (sg & s1 & -> & Hs). destruct (span is_digit s1) as [ip s2] eqn:E1.
  destruct (fraction_part s2) as [fp s3] eqn:E2. destruct (exponent_text s3) as [ep s4] eqn:E3.
  destruct (match ip with [] => false | [_] => true | c :: _ => _ end); [|done]. intros [= <- <-].
  apply span_concat in E1. apply fraction_concat in E2. apply exponent_concat in E3. subst.
  by rewrite <- !app_assoc.
Qed.

Lemma number_text_trimmed n : prints_back n -> trim (num_to_string n) = num_to_string n /\ num_to_string n <> [].
Proof.
  intros (_ & Hp & Hs). assert (Hne : num_to_string n <> []) by (intros E; by rewrite E in Hp).
  split; [|done]. apply trim_trimmed. rewrite Forall_forall in Hs. split.
  - destruct (num_to_string n); [done|]. apply Hs. left.
  - destruct (last (num_to_string n)) eqn:E; [|done]. apply Hs. by apply last_Some_elem_of.
Qed.
(** A number that prints back is saved from its text. *)
Lemma saved_text n : prints_back n -> saved_number (num_to_string n) = Some (JNum n).
Proof.
  intros Hb. destruct (number_text_trimmed n Hb) as [Ht Hne]. destruct Hb as (Hf & Hp & _).
  assert (En : to_number (num_to_string n) = n).
  { unfold parse_number in Hp. destruct (number_lexeme (num_to_string n)) as [[l r]|] eqn:E; [|done].
    cbn in Hp. injection Hp as Hn ->. apply lexeme_concat in E. rewrite app_nil_r in E. by rewrite E. }
  assert (Ep : parse_float (num_to_string n) = n).
  { rewrite parse_float_number; [done| |by rewrite Ht]. rewrite En. by destruct n. }
  unfold saved_number. rewrite Ep, Hf. by destruct (num_to_string n).
Qed.

(** * An untouched model *)

(** The entries of a model are numbers, and its expression is one the editor
    would print. *)
Record regular (m : maps) (model : jsstr) : Prop := Regular {
  rg_numbers : forall f key, option_of_field f = Some key ->
    entry m key model = None \/ exists n, entry m key model = Some (JNum n) /\ prints_back n;
  rg_expression : forall full s, is_tiered (entry m BillingMode model) = true ->
    expression_text (entry m BillingExpr_ model) = Some full -> snapshot_of m model = Some s ->
    truthy full = true /\
    BillingExpr.combineBillingExpr (billingExpr (data s)) (requestRuleExpr (data s)) = full }.

Lemma saved_entry m model f key : regular m model -> option_of_field f = Some key ->
  saved_number (snapshot_values m model f) = entry m key model /\
  (truthy (snapshot_values m model f) = false <-> entry m key model = None).
Proof.
  intros Hr Hf. unfold snapshot_values. rewrite Hf.
  destruct (rg_numbers m model Hr f key Hf) as [E|(n & E & Hn)]; unfold entry in *; rewrite E; [done|].
  change (entry_text (Some (JNum n))) with (num_to_string n). split; [by apply saved_text|].
  destruct (number_text_trimmed n Hn) as [_ Hne]. by destruct (num_to_string n).
Qed.

Lemma snapshot_cases m model s : snapshot_of m model = Some s ->
  values (data s) = snapshot_values m model /\
  if is_tiered (entry m BillingMode model) then billingMode (data s) = "tiered_expr"%js /\
    exists full, expression_text (entry m BillingExpr_ model) = Some full
  else billingMode (data s) = (if truthy (snapshot_values m model price) then "per-request" else "per-token")%js /\
       billingExpr (data s) = [] /\ requestRuleExpr (data s) = [] /\
       hasConflict s = truthy (snapshot_values m model price) && existsb (fun f => truthy (snapshot_values m model f)) conflicting.
Proof.
  unfold snapshot_of, entry. destruct (is_tiered _).
  - destruct (expression_text _) as [full|] eqn:E; cbn; [|done]. destruct (BillingExpr.splitBillingExprAndRequestRules full) as [|[a b]]; [done|].
    intros [= <-]. eauto.
  - by intros [= <-].
Qed.

Lemma existsb_none {A} (f : A -> bool) l x : existsb f l = false -> x ∈ l -> f x = false.
Proof.
  intros H Hx. destruct (f x) eqn:E; [|done]. rewrite <- H. symmetry. apply existsb_exists. exists x. by rewrite <- list_elem_of_In.
Qed.

(** Saved again with the data of its snapshot, a model keeps its snapshot. *)
Lemma save_same m model s d :
  regular m model -> snapshot_of m model = Some s -> hasConflict s = false ->
  (forall f, option_of_field f <> None -> values d f = values (data s) f) ->
  billingMode d = billingMode (data s) ->
  (billingMode d = "tiered_expr"%js -> billingExpr d = billingExpr (data s) /\ requestRuleExpr d = requestRuleExpr (data s)) ->
  snapshot_of (price_model d m model) model = snapshot_of m model.
Proof.
  intros Hr Hs Hc Hv Hm He. destruct (snapshot_cases m model s Hs) as [Ev Hcases].
  assert (Hpd : forall key, entry (price_model d m model) key model = priced d key).
  { intros key. by rewrite entry_price_model, str_eqb_refl. }
  assert (Hn : forall f key, option_of_field f = Some key ->
            saved_number (values d f) = entry m key model /\ (truthy (values d f) = false <-> entry m key model = None)).
  { intros f key Hf. rewrite Hv, Ev by (by rewrite Hf). by apply saved_entry. }
  destruct (is_tiered (entry m BillingMode model)) eqn:Et.
  - destruct Hcases as [Hb [full Hfull]]. destruct (He (eq_trans Hm Hb)) as [E1 E2].
    destruct (rg_expression m model Hr full s Et Hfull Hs) as [Htr Hcomb].
    apply snapshot_entries. intros key. rewrite Hpd. unfold priced. rewrite Hm, Hb, E1, E2, Hcomb, Htr, str_eqb_refl. cbn [negb andb orb].
    destruct key; try (match goal with |- saved_number (values d ?f) = _ => apply (proj1 (Hn f _ eq_refl)) end).
    + unfold is_tiered in Et. destruct (entry m BillingMode model) as [[]|]; try done. apply str_eqb_true in Et as ->. done.
    + unfold expression_text in Hfull. destruct (entry m BillingExpr_ model) as [[| [] | n | | |]|]; try done;
        try (by injection Hfull as <-); destruct (num_truthy n); [done|by injection Hfull as <-].
  - destruct Hcases as (Hb & Hx1 & Hx2 & Hconf). rewrite Hconf in Hc.
    assert (Hnt : str_eqb (billingMode d) "tiered_expr" = false).
    { rewrite Hm, Hb. by destruct (truthy (snapshot_values m model price)). }
    assert (Hpr : truthy (values d price) = truthy (snapshot_values m model price)) by (by rewrite Hv, Ev).
    assert (Hnum : forall f key, option_of_field f = Some key -> priced d key = entry m key model).
    { intros f key Hf. destruct (Hn f key Hf) as [H1 H2]. destruct (Hn price ModelPrice eq_refl) as [H3 H4].
      unfold priced. rewrite Hnt. cbn [negb andb orb].
      destruct (truthy (values d price)) eqn:Ep; cbn [andb].
      - assert (Hcf : forall g, g ∈ conflicting -> truthy (snapshot_values m model g) = false).
        { intros g Hg. rewrite <- Hpr in Hc. by apply (existsb_none _ _ _ Hc). }
        assert (Hno : f <> price -> entry m key model = None).
        { intros Hf'. apply H2. rewrite Hv, Ev by (by rewrite Hf). apply Hcf. destruct f; try done; apply has_spec; by vm_compute. }
        clear Hc. destruct f; try done; injection Hf as <-; [exact H3|..]; (rewrite Hno; [done|discriminate]).
      - clear Hc. destruct f; try done; injection Hf as <-; try exact H1. by rewrite (proj1 H4). }
    assert (Evals : snapshot_values (price_model d m model) model = snapshot_values m model).
    { apply functional_extensionality. intros f. unfold snapshot_values. destruct (option_of_field f) as [key|] eqn:Ef; [|done].
      specialize (Hpd key). unfold entry in *. by rewrite Hpd, (Hnum f key Ef). }
    assert (Et' : is_tiered (entry (price_model d m model) BillingMode model) = false) by (rewrite Hpd; unfold priced; by rewrite Hnt).
    unfold snapshot_of. unfold entry in Et, Et'. by rewrite Evals, Et, Et'.
Qed.

Lemma open_commit t e d : commitDraft t (open_panel (Some e)) = Some d ->
  values d name = trim (values e name) /\ (forall f, f <> name -> values d f = values e f) /\
  let tiered := str_eqb (billingMode e) "tiered_expr" in
  billingMode d = (if tiered then "tiered_expr" else if truthy (values e price) then "per-request" else "per-token")%js /\
  billingExpr d = (if tiered then billingExpr e else []) /\ requestRuleExpr d = (if tiered then requestRuleExpr e else []).
Proof.
  unfold commitDraft. destruct (trigger _ _); [done|]. destruct (validatePricingValues _ _); [done|]. intros [= <-].
  unfold buildSubmitData, open_panel. cbn [values form pricingMode panel_expr panel_rules billingMode billingExpr requestRuleExpr].
  split; [apply upd_eq|]. split; [intros f Hf; by rewrite upd_ne|].
  destruct (str_eqb (billingMode e) "tiered_expr"); [done|]. by destruct (truthy (values e price)).
Qed.

(** Opening a model in the editor and committing it untouched changes the
    pricing of no model: the model edited and all others keep their snapshots.
    The model has no conflict between a fixed price and ratios, its entries are
    numbers and its expression, if any, is in the form the editor prints. *)
Theorem untouched_save_stable t s row snap m model :
  parse_maps (drafts s) = Some m -> sound_maps m -> regular m model -> trim model = model ->
  snapshot_of m model = Some snap -> hasConflict snap = false -> draft row = Some snap ->
  exists b s' m', commitOpenEditor t (handleEdit row s) = Some (b, s') /\ parse_maps (drafts s') = Some m' /\
    forall model', snapshot_of m' model' = snapshot_of m model'.
Proof.
  intros Hp Hm Hr Htrim Hs Hc Hrow. destruct (snapshot_cases m model snap Hs) as [Ev Hcases].
  unfold commitOpenEditor, handleEdit. cbn [editorOpen shown setEditData negb drafts].
  destruct (commitDraft t (open_panel (Some (edited_data row)))) as [d|] eqn:Ed; [|by exists false; eexists; exists m].
  apply open_commit in Ed as (Hname & Hvals & Hmode & Hexpr & Hrules).
  assert (He : values (edited_data row) = snapshot_values m model) by (unfold edited_data; by rewrite Hrow).
  assert (Hn : values d name = model) by (rewrite Hname, He; done).
  rewrite He in Hvals, Hmode.
  assert (Hmode' : billingMode d = billingMode (data snap) /\ (billingMode d = "tiered_expr"%js ->
      billingExpr d = billingExpr (data snap) /\ requestRuleExpr d = requestRuleExpr (data snap))).
  { unfold edited_data in Hmode, Hexpr, Hrules. rewrite Hrow in Hmode, Hexpr, Hrules. cbn [billingMode billingExpr requestRuleExpr] in *.
    rewrite Ev in *. destruct (is_tiered (entry m BillingMode model)).
    - destruct Hcases as [Hb _]. rewrite Hb in *. rewrite str_eqb_refl in *. cbn in *. by rewrite Hmode, Hexpr, Hrules.
    - destruct Hcases as (Hb & _). rewrite Hb in *. destruct (truthy (snapshot_values m model price)); cbn in *; by rewrite Hmode. }
  destruct Hmode' as [Hmd Hex].
  assert (Hd : printable_numbers d).
  { intros f Hf. rewrite Hvals by done. destruct (option_of_field f) as [key|] eqn:Ef; [|by destruct f].
    destruct (saved_entry m model f key Hr Ef) as [-> _]. destruct (rg_numbers m model Hr f key Ef) as [->|(n & -> & Hb)]; [done|].
    by constructor. }
  unfold persistPricingData. cbn [drafts]. rewrite Hp. cbn [mbind option_bind fold_left]. rewrite Hn.
  exists true. eexists. exists (price_model d m model). split; [done|]. cbn [drafts setEditData set_drafts].
  split; [by apply parse_print, sound_price|]. intros model'.
  destruct (decide (model' = model)) as [->|Hne].
  - apply (save_same m model snap d); try done. intros f Hf. rewrite Ev. apply Hvals. by intros ->.
  - apply snapshot_entries. intros key. rewrite entry_price_model. by rewrite (proj2 (str_eqb_false model' model)).
Qed.

(** * What a commit loses *)

(** Edits that leave the fixed price field as it is. *)
Inductive edits_but_price (p : panel) : panel -> Prop :=
| edits_none : edits_but_price p p
| edits_step q r : edits_but_price p q -> panel_edit q r -> form r price = form q price -> edits_but_price p r.

(** A fixed price cannot be replaced by ratios in the editor: once a model
    with a fixed price is open, switching to per-token and typing any prices
    has no effect, the committed data is saved as the old fixed price and every
    ratio typed is dropped. *)
Theorem fixed_price_sticks t e p d m model :
  truthy (values e price) = true -> is_finite (parse_float (values e price)) = true ->
  edits_but_price (open_panel (Some e)) p -> pricingMode p <> "tiered_expr"%js -> commitDraft t p = Some d ->
  obj_get model (price_model d m model ModelPrice) = Some (JNum (parse_float (values e price))) /\
  forall key, key <> ModelPrice -> obj_get model (price_model d m model key) = None.
Proof.
  intros Ht Hf Hed Hmode Hd.
  assert (Hp : form p price = values e price) by (clear Hmode Hd; induction Hed as [|q r _ IH _ E]; [done|by rewrite E]).
  assert (Hdv : values d price = values e price /\ billingMode d = pricingMode p).
  { unfold commitDraft in Hd. destruct (trigger _ _); [done|]. destruct (validatePricingValues _ _); [done|].
    injection Hd as <-. cbn [buildSubmitData values billingMode]. by rewrite upd_ne. }
  destruct Hdv as [E1 E2]. apply str_eqb_false in Hmode.
  assert (H : forall key, obj_get model (price_model d m model key) = priced d key).
  { intros key. pose proof (entry_price_model d m model key model) as H. by rewrite str_eqb_refl in H. }
  split; [|intros key Hk]; rewrite H; unfold priced; rewrite E1, E2, Hmode, Ht; cbn [negb andb orb].
  - unfold saved_number. by rewrite Ht, Hf.
  - by destruct key.
Qed.

(** An input price of zero silently drops the dependent prices: the draft is
    accepted, but every lane priced relative to the input is saved without a
    ratio, whatever price was typed for it. *)
Theorem free_input_drops_prices t p z :
  since_prices_known p -> truthy (form p name) = true -> pricingMode p = "per-token"%js ->
  text_number (promptPrice p) = Some z -> num_eqb z (num 0) = true ->
  (laneEnabled p audioOutput = true -> truthy (lanePrices p audioInput) = true) ->
  exists d, commitDraft t p = Some d /\
    forall lane, lane <> audioOutput -> values d (ratioFieldByLane lane) = [].
Proof.
  intros Hs Hn Hmode Hz Hzero Ha.
  apply since_in_step in Hs as Hi.
  unfold commitDraft, trigger, validatePricingValues. rewrite Hn.
  assert (lacks_input_price p = false) as -> by (unfold lacks_input_price; by rewrite Hz, andb_false_r).
  assert (lacks_audio_price p = false) as ->.
  { unfold lacks_audio_price. destruct (laneEnabled p audioOutput); [by rewrite Ha, andb_false_r|by rewrite andb_false_r]. }
  eexists. split; [done|]. intros lane Hl. cbn [buildSubmitData values].
  rewrite upd_ne by (apply lane_field_ne; auto). rewrite (lanes_in_step p Hi).
  destruct (laneEnabled p lane); [|done]. unfold deriveLaneRatio. destruct (text_number (lanePrices p lane)); [|done].
  destruct lane; try done; by rewrite Hz, Hzero.
Qed.

(** * Marks of changed rows *)

Definition same_pricing (a b : ModelPricingSnapshot) : Prop :=
  (forall f, f <> name -> values (data a) f = values (data b) f) /\
  str_or (billingMode (data a)) "per-token" = str_or (billingMode (data b)) "per-token" /\
  billingExpr (data a) = billingExpr (data b) /\ requestRuleExpr (data a) = requestRuleExpr (data b).
Definition signature (s : ModelPricingSnapshot) : json :=
  let d := data s in let v f := JStr (values d f) in
  JObj [("price" : jsstr, v price); ("ratio" : jsstr, v ratio); ("cacheRatio" : jsstr, v cacheRatio);
        ("createCacheRatio" : jsstr, v createCacheRatio); ("completionRatio" : jsstr, v completionRatio);
        ("imageRatio" : jsstr, v imageRatio); ("audioRatio" : jsstr, v audioRatio);
        ("audioCompletionRatio" : jsstr, v audioCompletionRatio);
        ("billingMode" : jsstr, JStr (str_or (billingMode d) "per-token"));
        ("billingExpr" : jsstr, JStr (billingExpr d)); ("requestRuleExpr" : jsstr, JStr (requestRuleExpr d))].
Lemma signature_printable s : printable (signature s).
Proof. constructor; [by repeat constructor|]. by vm_compute. Qed.
Lemma signature_parse s : parse (getSnapshotSignature (Some s)) = Some (signature s).
Proof. apply parse_compact, signature_printable. Qed.
Lemma signature_same a b : getSnapshotSignature (Some a) = getSnapshotSignature (Some b) <-> same_pricing a b.
Proof.
  split.
  - intros E. assert (H : signature a = signature b) by (apply (inj Some); by rewrite <- !signature_parse, E).
    unfold signature in H. injection H as H1 H2 H3 H4 H5 H6 H7 H8 H9 H10 H11.
    split; [intros [] Hf; done|]. done.
  - intros (Hv & Hm & He & Hr). unfold getSnapshotSignature. cbv zeta. rewrite He, Hr, Hm.
    by rewrite (Hv price), (Hv ratio), (Hv cacheRatio), (Hv createCacheRatio), (Hv completionRatio), (Hv imageRatio),
      (Hv audioRatio), (Hv audioCompletionRatio) by done.
Qed.

(** A row is marked as changed exactly when its saved and its drafted
    pricing differ: in presence, in a value, in the billing mode, in the
    expression or in the request rules. *)
Theorem changed_rows_exact savedRows draftRows n :
  let row := row_of savedRows draftRows n in
  isDraftChanged row = false <->
  match saved row, draft row with
  | None, None => True
  | Some a, Some b => same_pricing a b
  | _, _ => False
  end.
Proof.
  cbn zeta. unfold row_of. cbn [isDraftChanged saved draft]. rewrite negb_false_iff, str_eqb_true.
  assert (Hne : forall s, getSnapshotSignature (Some s) <> []) by done.
  destruct (by_name savedRows n) as [a|], (by_name draftRows n) as [b|].
  - apply signature_same.
  - split; [by intros H%Hne|done].
  - split; [intros H; symmetry in H; by apply Hne in H|done].
  - done.
Qed.

(** * Samples *)

Definition sample_drafts : ModelPricingSnapshotInput := fun key =>
  match key with
  | ModelPrice => "{`old`:0.5}"
  | ModelRatio => "{`gpt`:1.5}"
  | CompletionRatio => "{`gpt`:5}"
  | BillingMode => "{`x`:`tiered_expr`}"
  | BillingExpr_ => "{`x`:`p * 2`}"
  | _ => ""
  end.
Definition sample_maps : maps := fun key => default [] (record_of (sample_drafts key)).
Lemma sample_parsed : parse_maps sample_drafts = Some sample_maps.
Proof.
  unfold parse_maps. assert (E : forallb (fun key => if record_of (sample_drafts key) is Some _ then true else false) collect_order = true) by (vm_compute; reflexivity).
  by rewrite E.
Qed.
Ltac prints := split; [vm_compute; reflexivity|split; [vm_compute; reflexivity|apply (bool_decide_unpack _); vm_compute; done]].
Lemma sound_one k v : printable v -> sound [(k, v)].
Proof. intros Hv. apply (sound_set k v []); [done|apply sound_nil]. Qed.
Lemma sample_sound : sound_maps sample_maps.
Proof.
  assert (E : forall key, sample_maps key =
    match key with
    | ModelPrice => [("old"%js, JNum (to_number "0.5"))]
    | ModelRatio => [("gpt"%js, JNum (to_number "1.5"))]
    | CompletionRatio => [("gpt"%js, JNum (to_number "5"))]
    | BillingMode => [("x"%js, JStr "tiered_expr")]
    | BillingExpr_ => [("x"%js, JStr "p * 2")]
    | _ => []
    end) by (intros []; vm_compute; reflexivity).
  intros key. rewrite E. destruct key; try apply sound_nil; apply sound_one; constructor; prints.
Qed.
Lemma sample_gpt_regular : regular sample_maps "gpt".
Proof.
  split.
  - intros f key. destruct f; intros [= <-]; try (left; vm_compute; reflexivity); right.
    + exists (to_number "1.5"). split; [vm_compute; reflexivity|prints].
    + exists (to_number "5"). split; [vm_compute; reflexivity|prints].
  - intros full s H. exfalso. revert H. by vm_compute.
Qed.

Definition sample_data : ModelRatioData :=
  Data (fun f => match f with name => "gpt" | ratio => "2" | cacheRatio => "0.1" | _ => [] end) "per-token" [] [].
Lemma sample_numbers : printable_numbers sample_data.
Proof.
  intros [] Hf; try done; unfold saved_number.
  - assert (E : (truthy (values sample_data ratio) && is_finite (parse_float (values sample_data ratio))) = true) by (vm_compute; reflexivity).
    rewrite E. constructor. prints.
  - assert (E : (truthy (values sample_data cacheRatio) && is_finite (parse_float (values sample_data cacheRatio))) = true) by (vm_compute; reflexivity).
    rewrite E. constructor. prints.
Qed.
Lemma save_exact_witness :
  exists texts m', persistPricingData sample_data ["gpt"] sample_drafts = Some texts /\ parse_maps texts = Some m' /\
    forall model,
      (model ∈ (["gpt"] : list jsstr) -> forall key, obj_get model (m' key) = priced sample_data key) /\
      (model ∉ (["gpt"] : list jsstr) -> snapshot_of m' model = snapshot_of sample_maps model /\
                          forall key, obj_get model (m' key) = obj_get model (sample_maps key)).
Proof. apply (save_exact sample_data ["gpt"] sample_drafts sample_maps); [apply sample_parsed|apply sample_sound|apply sample_numbers]. Defined.

Definition sample_snapshot : ModelPricingSnapshot :=
  Snapshot (Data (snapshot_values sample_maps "gpt") "per-token" [] []) false.
Lemma sample_snapshot_of : snapshot_of sample_maps "gpt" = Some sample_snapshot.
Proof.
  assert (E : snapshot_values sample_maps "gpt" price = []) by (vm_compute; reflexivity).
  assert (Et : is_tiered (obj_get "gpt"%js (sample_maps BillingMode)) = false) by (vm_compute; reflexivity).
  unfold snapshot_of. rewrite Et. cbv zeta. rewrite E. done.
Qed.
Definition sample_row : ModelRow := Row sample_snapshot (Some sample_snapshot) (Some sample_snapshot) false false false.
Definition sample_editor : price_editor := Editor sample_drafts None false (open_panel None) [].
Lemma untouched_save_stable_witness :
  (exists b s' m', commitOpenEditor (fun x => x) (handleEdit sample_row sample_editor) = Some (b, s') /\
    parse_maps (drafts s') = Some m' /\ forall model', snapshot_of m' model' = snapshot_of sample_maps model') /\
  fst <$> commitOpenEditor (fun x => x) (handleEdit sample_row sample_editor) = Some true.
Proof.
  split; [|by vm_compute].
  apply (untouched_save_stable (fun x => x) sample_editor sample_row sample_snapshot sample_maps "gpt");
    [apply sample_parsed|apply sample_sound|apply sample_gpt_regular|vm_compute; reflexivity|apply sample_snapshot_of|done|done].
Defined.

(** A model with a fixed price, switched to per-token and given prices. *)
Definition sample_fixed : ModelRatioData :=
  Data (fun f => match f with name => "old" | price => "0.5" | _ => [] end) "per-request" [] [].
Definition sample_switched : panel :=
  handleLanePriceChange completion "15" (handleLaneToggle completion true
    (handlePromptPriceChange "3" (handleModeChange "per-token" (open_panel (Some sample_fixed))))).
Lemma fixed_price_sticks_witness :
  exists d, commitDraft (fun x => x) sample_switched = Some d /\
    (values d ratio, values d completionRatio) = ("1.5" : jsstr, "5" : jsstr) /\
    obj_get "old"%js (price_model d sample_maps "old" ModelPrice) = Some (JNum (parse_float "0.5")) /\
    forall key, key <> ModelPrice -> obj_get "old"%js (price_model d sample_maps "old" key) = None.
Proof.
  exists (buildSubmitData sample_switched). split; [vm_compute; reflexivity|]. split; [vm_compute; reflexivity|].
  apply (fixed_price_sticks (fun x => x) sample_fixed sample_switched);
    [vm_compute; reflexivity|vm_compute; reflexivity| |discriminate|vm_compute; reflexivity].
  repeat (eapply edits_step; [|constructor|vm_compute; reflexivity]). apply edits_none.
Defined.

Lemma free_input_drops_prices_witness :
  let p := handleLanePriceChange completion "15" (handleLaneToggle completion true
             (handlePromptPriceChange "0" (change_name "m" (open_panel None)))) in
  lanePrices p completion = "15" /\
  exists d, commitDraft (fun x => x) p = Some d /\ forall lane, lane <> audioOutput -> values d (ratioFieldByLane lane) = [].
Proof.
  split; [vm_compute; reflexivity|].
  eapply (free_input_drops_prices (fun x => x)); [|vm_compute; reflexivity..|intros H; by vm_compute in H].
  repeat (eapply since_edit; [|constructor]). apply since_new.
Defined.

(** A price drifts when it is opened again: 7 at an input price of 3. *)
Example price_drifts :
  let p := handleLanePriceChange completion "7" (handleLaneToggle completion true
             (handlePromptPriceChange "3" (change_name "m" (open_panel None)))) in
  (fun d => lanePrices (open_panel (Some d)) completion) <$> commitDraft (fun x => x) p = Some ("6.999999999999" : jsstr).
Proof. by vm_compute. Qed.
(** A blank name passes the schema and is saved as the empty name. *)
Example blank_name_saved :
  (fun d => values d name) <$> commitDraft (fun x => x) (handlePromptPriceChange "3" (change_name " " (open_panel None))) = Some [].
Proof. by vm_compute. Qed.

(** * Deleting *)

Lemma nub_elem (l : list jsstr) x : x ∈ nub l -> x ∈ l.
Proof.
  unfold nub. generalize (@nil jsstr). induction l as [|y l IH]; intros seen H; [done|]. cbn in H.
  destruct (bool_decide _); [right; by eapply IH|]. apply elem_of_cons in H as [->|H]; [left|right; by eapply IH].
Qed.
Definition shows (s : price_editor) (model : jsstr) : bool :=
  match editData s with Some e => str_eqb (values e name) model | None => false end.
(** Deleting a model takes it out of every option, leaves every other model as
    it was, and closes the editor exactly when it shows this model. *)
Lemma delete_exact s m model : parse_maps (drafts s) = Some m -> sound_maps m ->
  exists s' m', handleDelete model s = Some s' /\ parse_maps (drafts s') = Some m' /\ (model ∉ modelNames m') /\
    (forall model', model' <> model -> snapshot_of m' model' = snapshot_of m model') /\
    editorOpen s' = (editorOpen s && negb (shows s model)).
Proof.
  intros Hp Hm. unfold handleDelete, delete_texts. rewrite Hp. cbn [mbind option_bind].
  assert (Hm' : sound_maps (delete_model model m)) by (intros key; by apply sound_delete).
  eexists (match editData s with
           | Some e => if str_eqb (values e name) model then close_editor (set_drafts (print_maps (delete_model model m)) s)
                       else set_drafts (print_maps (delete_model model m)) s
           | None => set_drafts (print_maps (delete_model model m)) s
           end), (delete_model model m).
  unfold shows. cbn [editData set_drafts].
  split; [destruct (editData s) as [e|]; [by destruct (str_eqb (values e name) model)|done]|].
  split; [destruct (editData s) as [e|]; [destruct (str_eqb _ _)|]; by apply parse_print|]. split; [|split].
  - intros Hin%nub_elem. apply elem_of_concat_map in Hin as (key & _ & Hin).
    assert (E : entry (delete_model model m) key model = None) by (by rewrite entry_delete, str_eqb_refl).
    apply obj_get_none in E. by apply E.
  - intros model' Hne. apply snapshot_entries. intros key. by rewrite entry_delete, (proj2 (str_eqb_false model' model)).
  - destruct (editData s) as [e|]; [|by rewrite andb_true_r]. destruct (str_eqb _ _); [by rewrite andb_false_r|by rewrite andb_true_r].
Qed.
End PriceEditing.
