(* ===== verification/GroupPricing.v ===== *)
(** The visual editor of group prices
    (src/web/src/features/system-settings/models/group-ratio-visual-editor.tsx):
    the table of groups (module GroupTable), the ratios of a user group for
    single billing groups (GroupOverrides), the order of automatic assignment
    (AutoGroups) and the sheet with everything known of a group (GroupDetails).

    The option texts hold JSON objects, the automatic groups an array of
    strings.  On other JSON, where the code throws a TypeError (null) or works
    on the indices of an array, the operations here give [None]. *)
From Stdlib Require Import Floats.SpecFloat.
From S2P Require Import Prelude JsNumber JsCollections Json JsonText BillingExpr Pricing.
Import Snapshots.

(** * The table of groups *)

Module GroupTable.
(** The three texts that the table edits together. *)
Record GroupTexts := Texts { GroupRatio : jsstr; UserUsableGroups : jsstr; TopupGroupRatio : jsstr }.
#[global] Instance GroupTexts_eq : EqDecision GroupTexts.
Proof. solve_decision. Defined.

Record GroupPricingRow := Row {
  _id : jsstr; name : jsstr; ratio : jsstr; topupRatio : jsstr; selectable : bool; description : jsstr }.

(** The counter of the module, groupPricingIdCounter, after it was increased. *)
Definition createGroupPricingId (counter : Z) : jsstr := "gpr_" ++ digits counter.

Definition normalizeRatio (value : option json) : jsnum :=
  let parsed := json_to_number value in if is_finite parsed then parsed else num 1.
Definition parseRatioMap (value : jsstr) : option (obj json) := record_of value.
Definition parseUsableMap (value : jsstr) : option (obj json) := record_of value.

(** The three maps of the texts. *)
Record GroupMaps := Maps { ratioMap : obj json; usableMap : obj json; topupMap : obj json }.
Definition parse_texts (texts : GroupTexts) : option GroupMaps :=
  ratios ← parseRatioMap (GroupRatio texts); usable ← parseUsableMap (UserUsableGroups texts);
  topups ← parseRatioMap (TopupGroupRatio texts); Some (Maps ratios usable topups).
(** [new Set([...Object.keys(ratioMap), ...])] *)
Definition group_names (m : GroupMaps) : list jsstr := nub ((ratioMap m).*1 ++ (usableMap m).*1 ++ (topupMap m).*1).

(** [String(map[name] ?? '')] *)
Definition text_at (name : jsstr) (m : obj json) : jsstr :=
  match obj_get name m with None | Some JNull => [] | Some v => json_to_string v end.
(** [Object.hasOwn(m, name)] *)
Definition has_own (name : jsstr) (m : obj json) : bool := if obj_get name m is Some _ then true else false.

Definition row_of (m : GroupMaps) (id name : jsstr) : GroupPricingRow :=
  Row id name (num_to_string (normalizeRatio (obj_get name (ratioMap m))))
    (match obj_get name (topupMap m) with Some v => json_to_string v | None => [] end)
    (has_own name (usableMap m)) (text_at name (usableMap m)).
(** The rows, and the counter after them. *)
Definition buildGroupPricingRows (texts : GroupTexts) (counter : Z) : option (list GroupPricingRow * Z) :=
  m ← parse_texts texts;
  let names := group_names m in
  Some (imap (fun i name => row_of m (createGroupPricingId (counter + 1 + Z.of_nat i)) name) names,
        (counter + Z.of_nat (length names))%Z).

(** One round of the loop of serializeGroupPricingRows. *)
Definition topup_number (row : GroupPricingRow) : option jsnum :=
  let topup := trim (topupRatio row) in
  let n := string_to_number topup in
  if negb (str_eqb topup []) && is_finite n then Some n else None.
Definition serialize_row (m : GroupMaps) (row : GroupPricingRow) : GroupMaps :=
  let key := trim (name row) in
  if negb (truthy key) then m
  else Maps (obj_set key (JNum (normalizeRatio (Some (JStr (ratio row))))) (ratioMap m))
         (if selectable row then obj_set key (JStr (description row)) (usableMap m) else usableMap m)
         (match topup_number row with Some n => obj_set key (JNum n) (topupMap m) | None => topupMap m end).
Definition serialize_maps (rows : list GroupPricingRow) : GroupMaps := fold_left serialize_row rows (Maps [] [] []).
Definition print_maps (m : GroupMaps) : GroupTexts :=
  Texts (stringify_pretty (JObj (ratioMap m))) (stringify_pretty (JObj (usableMap m))) (stringify_pretty (JObj (topupMap m))).
Definition serializeGroupPricingRows (rows : list GroupPricingRow) : GroupTexts := print_maps (serialize_maps rows).

Definition sourceGroupPricingSignature (texts : GroupTexts) : option jsstr :=
  m ← parse_texts texts;
  Some (stringify (JObj [("groupRatio" : jsstr, JObj (ratioMap m)); ("userUsableGroups" : jsstr, JObj (usableMap m));
                         ("topupGroupRatio" : jsstr, JObj (topupMap m))])).
Definition groupPricingSignature (rows : list GroupPricingRow) : option jsstr :=
  sourceGroupPricingSignature (serializeGroupPricingRows rows).

(** The registry: the names of the texts with their ratios. *)
Record RegistryEntry := Entry { entry_name : jsstr; entry_ratio : jsnum }.
Definition registry (texts : GroupTexts) : option (list RegistryEntry) :=
  m ← parse_texts texts; Some (map (fun name => Entry name (normalizeRatio (obj_get name (ratioMap m)))) (group_names m)).
Definition registryNames (r : list RegistryEntry) : list jsstr := map entry_name r.

(** ** The component *)

(** Its rows, the counter of the module and the texts its effect has seen. *)
Record table := Table { rows : list GroupPricingRow; counter : Z; seen : option GroupTexts }.

(** The effect on the three texts, run when one of them changed. *)
Definition texts_effect (texts : GroupTexts) (t : table) : option table :=
  if decide (seen t = Some texts) then Some t
  else incoming ← sourceGroupPricingSignature texts;
       current ← groupPricingSignature (rows t);
       if str_eqb current incoming then Some (Table (rows t) (counter t) (Some texts))
       else r ← buildGroupPricingRows texts (counter t); Some (Table r.1 r.2 (Some texts)).

(** The first rendering with its effect. *)
Definition mount (texts : GroupTexts) (c : Z) : option table :=
  r ← buildGroupPricingRows texts c; texts_effect texts (Table r.1 r.2 None).

(** emitRows: the new rows, and the texts handed to the form. *)
Definition emitRows (nextRows : list GroupPricingRow) (t : table) : table * GroupTexts :=
  (Table nextRows (counter t) (seen t), serializeGroupPricingRows nextRows).

(** The fields of a row that updateRow writes, with their values. *)
Inductive FieldUpdate :=
| SetName (s : jsstr) | SetRatio (s : jsstr) | SetTopupRatio (s : jsstr) | SetSelectable (b : bool) | SetDescription (s : jsstr).
Definition update_field (u : FieldUpdate) (r : GroupPricingRow) : GroupPricingRow :=
  match u with
  | SetName s => Row (_id r) s (ratio r) (topupRatio r) (selectable r) (description r)
  | SetRatio s => Row (_id r) (name r) s (topupRatio r) (selectable r) (description r)
  | SetTopupRatio s => Row (_id r) (name r) (ratio r) s (selectable r) (description r)
  | SetSelectable b => Row (_id r) (name r) (ratio r) (topupRatio r) b (description r)
  | SetDescription s => Row (_id r) (name r) (ratio r) (topupRatio r) (selectable r) s
  end.
Definition updateRow (id : jsstr) (u : FieldUpdate) (t : table) : table * GroupTexts :=
  emitRows (map (fun row => if str_eqb (_id row) id then update_field u row else row) (rows t)) t.

(** The loop of addRow: the first index from [index] on whose name is free. *)
Definition numbered (index : Z) : jsstr := "group_" ++ digits index.
Fixpoint free_index (fuel : nat) (existing : list jsstr) (index : Z) : Z :=
  match fuel with
  | O => index
  | S fuel => if has (numbered index) existing then free_index fuel existing (index + 1) else index
  end.
Definition new_name (rows : list GroupPricingRow) : jsstr :=
  let existing := map name rows in numbered (free_index (S (length existing)) existing 1).
Definition addRow (t : table) : table * GroupTexts :=
  let c := (counter t + 1)%Z in
  emitRows (rows t ++ [Row (createGroupPricingId c) (new_name (rows t)) "1" [] true []]) (Table (rows t) c (seen t)).
Definition removeRow (id : jsstr) (t : table) : table * GroupTexts :=
  emitRows (List.filter (fun row => negb (str_eqb (_id row) id)) (rows t)) t.

(** The names that are given to several rows. *)
Definition count_name (m : jsmap jsstr nat) (row : GroupPricingRow) : jsmap jsstr nat :=
  let key := trim (name row) in if negb (truthy key) then m else mset key (S (default 0 (mget key m))) m.
Definition duplicateNames (rows : list GroupPricingRow) : list jsstr :=
  map fst (List.filter (fun nc => 1 <? snd nc) (fold_left count_name rows [])).

(** What the user can do in the table. *)
Inductive event := Update (id : jsstr) (u : FieldUpdate) | Add | Remove (id : jsstr).
Definition handle (e : event) (t : table) : table * GroupTexts :=
  match e with Update id u => updateRow id u t | Add => addRow t | Remove id => removeRow id t end.
(** An event with the rendering it causes: the form passes the texts back. *)
Definition step (e : event) (t : table) : option (table * GroupTexts) :=
  let '(t1, texts) := handle e t in t2 ← texts_effect texts t1; Some (t2, texts).
End GroupTable.

(** * Ratios of a user group for single billing groups *)

Module GroupOverrides.
Import GroupTable.

Definition parseNestedRatioMap (value : jsstr) : option (obj json) := record_of value.

(** groupGroupRatioList: Object.entries throws on null. *)
Record GroupOverride := Override { targetGroup : jsstr; override_ratio : json }.
Definition overrides_of (v : json) : option (list GroupOverride) :=
  match v with JNull => None | _ => Some (map (fun kv => Override kv.1 kv.2) (own_entries v)) end.
Definition groupGroupRatioList (text : jsstr) : option (list (jsstr * list GroupOverride)) :=
  m ← parseNestedRatioMap text; mapM (fun kv => l ← overrides_of kv.2; Some (kv.1, l)) m.

(** [map[userGroup]], an empty object when it is falsy. *)
Definition inner_map (userGroup : jsstr) (m : obj json) : option (obj json) :=
  if negb (json_truthy (obj_get userGroup m)) then Some [] else obj_get userGroup m ≫= as_object.
Definition emitMap (m : obj json) : jsstr := stringify_pretty (JObj m).

Definition save_user_group (userGroup text : jsstr) : option jsstr :=
  m ← parseNestedRatioMap text;
  Some (emitMap (if negb (json_truthy (obj_get userGroup m)) then obj_set userGroup (JObj []) m else m)).
Definition handleUserGroupDelete (userGroup text : jsstr) : option jsstr :=
  m ← parseNestedRatioMap text; Some (emitMap (obj_delete userGroup m)).
Definition save_override (userGroup targetGroup : jsstr) (ratio : jsnum) (oldTargetGroup : option jsstr) (text : jsstr) : option jsstr :=
  m ← parseNestedRatioMap text;
  inner ← inner_map userGroup m;
  let inner1 := match oldTargetGroup with
                | Some old => if truthy old && negb (str_eqb old targetGroup) then obj_delete old inner else inner
                | None => inner
                end in
  Some (emitMap (obj_set userGroup (JObj (obj_set targetGroup (JNum ratio) inner1)) m)).
Definition handleOverrideDelete (userGroup targetGroup text : jsstr) : option jsstr :=
  m ← parseNestedRatioMap text;
  if negb (json_truthy (obj_get userGroup m)) then Some (emitMap m)
  else inner ← obj_get userGroup m ≫= as_object;
       let inner1 := obj_delete targetGroup inner in
       Some (emitMap (match inner1 with [] => obj_delete userGroup m | _ => obj_set userGroup (JObj inner1) m end)).

(** ** The section and its dialogs *)

Record section := Section_ {
  userGroupDialogOpen : bool; userGroupInput : option jsstr; overrideDialogOpen : bool;
  overrideUserGroup : option jsstr; overrideEditData : option GroupOverride;
  (** the fields of GroupOverrideDialog *)
  dialog_target : option jsstr; dialog_ratio : jsstr }.
Definition initial_section : section := Section_ false None false None None None [].

(** The fields of the dialog after its effect on [open] and [editData]. *)
Definition dialog_fields (open : bool) (editData : option GroupOverride) : option jsstr * jsstr :=
  if negb open then (None, [])
  else match editData with
       | Some o => (Some (targetGroup o), json_to_string (override_ratio o))
       | None => (None, [])
       end.
Definition open_override (userGroup : jsstr) (editData : option GroupOverride) (s : section) : section :=
  let f := dialog_fields true editData in
  Section_ (userGroupDialogOpen s) (userGroupInput s) true (Some userGroup) editData f.1 f.2.
Definition set_override_open (open : bool) (s : section) : section :=
  let f := dialog_fields open (overrideEditData s) in
  if Bool.eqb open (overrideDialogOpen s) then s
  else Section_ (userGroupDialogOpen s) (userGroupInput s) open (overrideUserGroup s) (overrideEditData s) f.1 f.2.
Definition with_fields (target : option jsstr) (ratio : jsstr) (s : section) : section :=
  Section_ (userGroupDialogOpen s) (userGroupInput s) (overrideDialogOpen s) (overrideUserGroup s) (overrideEditData s) target ratio.
Definition with_user_group (open : bool) (input : option jsstr) (s : section) : section :=
  Section_ open input (overrideDialogOpen s) (overrideUserGroup s) (overrideEditData s) (dialog_target s) (dialog_ratio s).

(** The options a select shows: those given, and the value if it is another. *)
Definition select_options (options : list jsstr) (value : option jsstr) : list jsstr :=
  match value with
  | Some v => if truthy v && negb (has v options) then v :: options else options
  | None => options
  end.

(** [if (!s)] of a value that may be null. *)
Definition some_text (s : option jsstr) : option jsstr := v ← s; if truthy v then Some v else None.

(** handleSave of the dialog: what is handed to onSave. *)
Definition dialog_save (s : section) : option (jsstr * jsnum * option jsstr) :=
  target ← some_text (dialog_target s);
  if str_eqb (trim (dialog_ratio s)) [] then None
  else let parsedRatio := parse_float (dialog_ratio s) in
       if is_nan parsedRatio then None else Some (target, parsedRatio, targetGroup <$> overrideEditData s).

Inductive event :=
| OpenUserGroup | PickUserGroup (name : jsstr) | SaveUserGroup | CloseUserGroup | DeleteUserGroup (userGroup : jsstr)
| AddOverride (userGroup : jsstr) | EditOverride (userGroup : jsstr) (o : GroupOverride) | PickTarget (name : jsstr)
| TypeRatio (val : jsstr) | SaveOverride | CloseOverride | DeleteOverride (userGroup targetGroup : jsstr).

(** The section after an event, and the new text when one is emitted. *)
Definition handle (e : event) (s : section) (text : jsstr) : option (section * option jsstr) :=
  match e with
  | OpenUserGroup => Some (with_user_group true None s, None)
  | PickUserGroup name => Some (if truthy name then with_user_group (userGroupDialogOpen s) (Some name) s else s, None)
  | CloseUserGroup => Some (with_user_group false (userGroupInput s) s, None)
  | SaveUserGroup =>
      match some_text (userGroupInput s) with
      | None => Some (s, None)
      | Some u => text' ← save_user_group u text; Some (with_user_group false None s, Some text')
      end
  | DeleteUserGroup u => text' ← handleUserGroupDelete u text; Some (s, Some text')
  | AddOverride u => Some (open_override u None s, None)
  | EditOverride u o => Some (open_override u (Some o) s, None)
  | PickTarget name => Some (if truthy name then with_fields (Some name) (dialog_ratio s) s else s, None)
  | TypeRatio val =>
      Some (if str_eqb val [] || negb (is_nan (parse_float val)) then with_fields (dialog_target s) val s else s, None)
  | CloseOverride => Some (set_override_open false s, None)
  | SaveOverride =>
      match dialog_save s with
      | None => Some (s, None)
      | Some (target, ratio, old) =>
          match some_text (overrideUserGroup s) with
          | None => Some (with_fields None [] s, None)
          | Some u => text' ← save_override u target ratio old text;
                      Some (with_fields None [] (set_override_open false s), Some text')
          end
      end
  | DeleteOverride u t => text' ← handleOverrideDelete u t text; Some (s, Some text')
  end.

(** [baseRatioByName.get(name)]: the last entry of the registry wins. *)
Definition baseRatioByName (r : list RegistryEntry) : jsmap jsstr jsnum :=
  fold_left (fun m e => mset (entry_name e) (entry_ratio e) m) r [].
(** The ratio shown beside an override: that of the table when it differs. *)
Definition instead_of (r : list RegistryEntry) (o : GroupOverride) : option jsnum :=
  match mget (targetGroup o) (baseRatioByName r) with
  | Some base => match override_ratio o with
                 | JNum n => if num_eqb base n then None else Some base
                 | _ => Some base
                 end
  | None => None
  end.
End GroupOverrides.

(** * The order of automatic assignment *)

Module AutoGroups.
Definition strings (l : list json) : option (list jsstr) := mapM (fun v => match v with JStr s => Some s | _ => None end) l.
Definition autoGroupsList (text : jsstr) : option (list jsstr) :=
  match safeJsonParse text (JArr []) with JArr l => strings l | _ => None end.
Definition print_groups (l : list jsstr) : jsstr := stringify_pretty (JArr (map JStr l)).

Definition handleAutoGroupAdd (name : jsstr) (l : list jsstr) : option (list jsstr) :=
  if has name l then None else Some (l ++ [name]).
Definition handleAutoGroupDelete (index : nat) (l : list jsstr) : option (list jsstr) := Some (delete index l).
(** [[list[i], list[j]] = [list[j], list[i]]] of two indices in the list. *)
Definition swap (i j : nat) (l : list jsstr) : list jsstr :=
  match l !! i, l !! j with Some x, Some y => <[j := x]> (<[i := y]> l) | _, _ => l end.
Definition handleAutoGroupMove (index : nat) (up : bool) (l : list jsstr) : option (list jsstr) :=
  if up then match index with O => None | S i => Some (swap index i l) end
  else if S index <? length l then Some (swap index (S index) l) else None.

Inductive event := Add (name : jsstr) | Delete (index : nat) | Move (index : nat) (up : bool).
(** The emitted list, or none. *)
Definition handle (e : event) (l : list jsstr) : option (list jsstr) :=
  match e with
  | Add name => handleAutoGroupAdd name l
  | Delete index => handleAutoGroupDelete index l
  | Move index up => handleAutoGroupMove index up l
  end.
Definition autoGroupCandidates (registryNames l : list jsstr) : list jsstr := List.filter (fun name => negb (has name l)) registryNames.
End AutoGroups.

(** * Everything known of a group *)

Module GroupDetails.
Import GroupTable GroupOverrides.

Definition parseSpecialGroupKey (rawKey : jsstr) : bool * jsstr :=
  match strip_prefix "-:" rawKey with
  | Some r => (false, r)
  | None => match strip_prefix "+:" rawKey with Some r => (true, r) | None => (true, rawKey) end
  end.

Record VisibilityRule := Visibility { rule_group : jsstr; visible : bool; rule_description : jsstr }.
Record Detail := Detail_ {
  detail_ratio : option jsnum; detail_topup : option jsstr; detail_selectable : bool; detail_description : jsstr;
  incomingOverrides : list (jsstr * json); outgoingOverrides : list GroupOverride;
  visibilityRules : list VisibilityRule; autoIndex : option nat }.

(** [overrides[name]] where [overrides] has it as a property of its own. *)
Definition incoming_of (name : jsstr) (kv : jsstr * json) : option (list (jsstr * json)) :=
  match kv.2 with
  | JNull | JStr _ | JArr _ => None
  | v => Some (match obj_get name (entries v) with Some r => [(kv.1, r)] | None => [] end)
  end.
(** The rules of one user group about a group; values that are no objects are
    passed over. *)
Definition visibility_of (name : jsstr) (kv : jsstr * json) : list VisibilityRule :=
  flat_map (fun raw => let '(visible, groupName) := parseSpecialGroupKey raw.1 in
                       if str_eqb groupName name
                       then [Visibility kv.1 visible (match raw.2 with JStr s => s | _ => [] end)] else [])
    (entries kv.2).

(** Of a name that is not empty. *)
Definition detail (name : jsstr) (reg : list RegistryEntry) (topupGroupRatio userUsableGroups groupGroupRatio special : jsstr)
  (autoGroups : list jsstr) : option Detail :=
  topupMap ← parseRatioMap topupGroupRatio;
  usableMap ← parseUsableMap userUsableGroups;
  overrideMap ← parseNestedRatioMap groupGroupRatio;
  specialMap ← record_of special;
  incoming ← mapM (incoming_of name) overrideMap;
  outgoing ← overrides_of (match obj_get name overrideMap with None | Some JNull => JObj [] | Some v => v end);
  Some (Detail_ (entry_ratio <$> find (fun e => str_eqb (entry_name e) name) reg)
          (json_to_string <$> obj_get name topupMap) (has_own name usableMap) (text_at name usableMap)
          (concat incoming) outgoing (flat_map (visibility_of name) specialMap)
          (find_index (fun g => str_eqb g name) autoGroups)).
End GroupDetails.
