(* ===== verification/GroupPricingProofs.v ===== *)
(** Theorems on the editor of group prices [GroupPricing]: what its table
    writes into the option texts, that edits stay, that groups are independent
    of each other, and that texts are opened without loss; the ratios for
    single billing groups as a refinement of nested finite maps; the order of
    automatic assignment. *)
From Stdlib Require Import Floats.SpecFloat.
From S2P Require Import Prelude JsNumber JsCollections Json JsonText BillingExpr Pricing PricingProofs GroupPricing.
Import Snapshots GroupTable.

Module GroupPrices.

(** ** Numbers and texts *)

Lemma number_text_reads n : prints_back n -> string_to_number (num_to_string n) = n.
Proof.
  intros Hb. destruct (PriceEditing.number_text_trimmed n Hb) as [Ht _]. destruct Hb as (_ & Hp & _).
  unfold parse_number in Hp. destruct (number_lexeme (num_to_string n)) as [[l r]|] eqn:E; [|done].
  injection Hp as Hn ->. pose proof (PriceEditing.lexeme_concat _ _ _ E) as El. rewrite app_nil_r in El. subst l.
  cbn [fst] in Hn. unfold string_to_number. rewrite Ht. destruct (number_head _ _ _ E) as (c & s & Es & Hc). rewrite Es in *.
  destruct Hc as [->|Hc].
  - rewrite (proj2 (str_eqb_false _ _)), (proj2 (str_eqb_false (45%N :: s) "+Infinity")) by done. cbn [orb].
    destruct (str_eqb (45%N :: s) "-Infinity") eqn:Ei; [|done]. apply str_eqb_true in Ei. by rewrite Ei in E.
  - assert (Hne : forall d t, c :: s = d :: t -> is_digit d = true) by (by intros d t [= <- _]).
    assert (E' : str_eqb (c :: s) "Infinity" || str_eqb (c :: s) "+Infinity" = false /\ str_eqb (c :: s) "-Infinity" = false).
    { split; [apply orb_false_iff; split|]; apply str_eqb_false; intros X; specialize (Hne _ _ X); done. }
    destruct E' as [E1 E2]. rewrite E1, E2.
    repeat match goal with |- context [match ?x with _ => _ end] => is_var x; destruct x; try exact Hn end;
      exfalso; vm_compute in E; congruence.
Qed.

Lemma float_text_reads n : prints_back n -> parse_float (num_to_string n) = n.
Proof.
  intros Hb. destruct (PriceEditing.number_text_trimmed n Hb) as [Ht Hne]. destruct Hb as (Hf & Hp & _).
  assert (En : to_number (num_to_string n) = n).
  { unfold parse_number in Hp. destruct (number_lexeme (num_to_string n)) as [[l r]|] eqn:E; [|done].
    cbn in Hp. injection Hp as Hn ->. apply PriceEditing.lexeme_concat in E. rewrite app_nil_r in E. by rewrite E. }
  rewrite parse_float_number; [done| |by rewrite Ht]. rewrite En. by destruct n.
Qed.

Lemma record_of_pretty o : sound o -> record_of (stringify_pretty (JObj o)) = Some o.
Proof. apply PriceEditing.record_of_print. Qed.

(** ** The rows and their texts *)

(** The rows with a name, once trimmed. *)
Definition rows_of (k : jsstr) (l : list GroupPricingRow) : list GroupPricingRow :=
  List.filter (fun r => str_eqb (trim (name r)) k) l.

Lemma rows_of_snoc k l r : rows_of k (l ++ [r]) = rows_of k l ++ (if str_eqb (trim (name r)) k then [r] else []).
Proof. unfold rows_of. rewrite bfilter_app. cbn. by destruct (str_eqb _ k). Qed.
Lemma serialize_snoc l r : serialize_maps (l ++ [r]) = serialize_row (serialize_maps l) r.
Proof. unfold serialize_maps. by rewrite fold_left_app. Qed.

(** What the three maps hold of a name. *)
Definition entry_ratio_of (k : jsstr) (l : list GroupPricingRow) : option json :=
  (fun r => JNum (normalizeRatio (Some (JStr (ratio r))))) <$> last (rows_of k l).
Definition entry_usable_of (k : jsstr) (l : list GroupPricingRow) : option json :=
  (fun r => JStr (description r)) <$> last (List.filter selectable (rows_of k l)).
Definition entry_topup_of (k : jsstr) (l : list GroupPricingRow) : option json :=
  JNum <$> last (omap topup_number (rows_of k l)).

Definition holds_entries (k : jsstr) (m : GroupMaps) (l : list GroupPricingRow) : Prop :=
  obj_get k (ratioMap m) = entry_ratio_of k l /\ obj_get k (usableMap m) = entry_usable_of k l /\
  obj_get k (topupMap m) = entry_topup_of k l.

Lemma serialize_row_skip k m r : trim (name r) <> k -> k <> [] ->
  obj_get k (ratioMap (serialize_row m r)) = obj_get k (ratioMap m) /\
  obj_get k (usableMap (serialize_row m r)) = obj_get k (usableMap m) /\
  obj_get k (topupMap (serialize_row m r)) = obj_get k (topupMap m).
Proof.
  intros Hn Hk. unfold serialize_row. destruct (truthy (trim (name r))); [|done]. cbn [negb ratioMap usableMap topupMap].
  split; [by apply obj_get_set_ne|]. split; [destruct (selectable r)|destruct (topup_number r)]; try done; by apply obj_get_set_ne.
Qed.

Lemma serialize_entries k l : k <> [] -> holds_entries k (serialize_maps l) l.
Proof.
  intros Hk. induction l as [|r l (IH1 & IH2 & IH3)] using rev_ind; [done|].
  unfold holds_entries, entry_ratio_of, entry_usable_of, entry_topup_of. rewrite serialize_snoc, rows_of_snoc.
  destruct (str_eqb (trim (name r)) k) eqn:E.
  - apply str_eqb_true in E. rewrite bfilter_app, omap_app, last_snoc. cbn [List.filter omap list_omap fmap option_fmap option_map].
    unfold serialize_row. rewrite E, (proj2 (truthy_true k)) by done. cbn [negb ratioMap usableMap topupMap].
    split; [by rewrite obj_get_set_eq|]. split.
    + destruct (selectable r); [by rewrite obj_get_set_eq, last_snoc|by rewrite app_nil_r].
    + destruct (topup_number r); [by rewrite obj_get_set_eq, last_snoc|by rewrite app_nil_r].
  - apply str_eqb_false in E. rewrite app_nil_r. destruct (serialize_row_skip k (serialize_maps l) r) as (-> & -> & ->); done.
Qed.
Lemma serialize_blank l :
  obj_get [] (ratioMap (serialize_maps l)) = None /\ obj_get [] (usableMap (serialize_maps l)) = None /\
  obj_get [] (topupMap (serialize_maps l)) = None.
Proof.
  induction l as [|r l (IH1 & IH2 & IH3)] using rev_ind; [done|]. rewrite serialize_snoc. unfold serialize_row.
  destruct (truthy (trim (name r))) eqn:E; [|done]. apply truthy_true in E. cbn [negb ratioMap usableMap topupMap].
  split; [by rewrite obj_get_set_ne|]. split; [destruct (selectable r)|destruct (topup_number r)]; try done; by rewrite obj_get_set_ne.
Qed.

(** A row whose numbers print back, as every number of a table in use does. *)
Definition row_prints (r : GroupPricingRow) : Prop :=
  prints_back (normalizeRatio (Some (JStr (ratio r)))) /\ from_option prints_back True (topup_number r).
Definition sound_maps (m : GroupMaps) : Prop := sound (ratioMap m) /\ sound (usableMap m) /\ sound (topupMap m).

Lemma serialize_sound l : Forall row_prints l -> sound_maps (serialize_maps l).
Proof.
  induction l as [|r l IH] using rev_ind; [intros _; repeat split; apply sound_nil|].
  intros [Hl [[Hr Ht] _]%Forall_cons]%Forall_app. rewrite serialize_snoc. destruct (IH Hl) as (S1 & S2 & S3).
  unfold serialize_row. destruct (truthy (trim (name r))); [|done]. cbn [negb]. split; cbn [ratioMap usableMap topupMap].
  - apply sound_set; [by constructor|done].
  - split; [destruct (selectable r); [apply sound_set; [constructor|]|]; done|].
    destruct (topup_number r); [|done]. apply sound_set; [by constructor|done].
Qed.
Lemma parse_printed_texts m : sound_maps m -> parse_texts (print_maps m) = Some m.
Proof.
  intros (S1 & S2 & S3). unfold parse_texts, print_maps, parseRatioMap, parseUsableMap.
  cbn [GroupRatio UserUsableGroups TopupGroupRatio]. rewrite !record_of_pretty by done. by destruct m.
Qed.

(** What the table writes: the texts of the three options, read again, hold
    for each name the ratio of its last row, the description of its last row
    that users may select and the last valid top-up ratio; rows with a blank
    name leave no trace. *)
Theorem table_texts_exact l : Forall row_prints l ->
  exists m, parse_texts (serializeGroupPricingRows l) = Some m /\
  (forall k, k <> [] -> holds_entries k m l) /\
  has_own [] (ratioMap m) = false /\ has_own [] (usableMap m) = false /\ has_own [] (topupMap m) = false.
Proof.
  intros Hl. exists (serialize_maps l). split; [by apply parse_printed_texts, serialize_sound|].
  split; [intros k; apply serialize_entries|]. unfold has_own. by destruct (serialize_blank l) as (-> & -> & ->).
Qed.

(** ** The table in use *)

(** The rows carry distinct identifiers that the counter has handed out. *)
Definition ids_ok (l : list GroupPricingRow) (c : Z) : Prop :=
  NoDup (map _id l) /\ Forall (fun r => exists i, _id r = createGroupPricingId i /\ (1 <= i <= c)%Z) l.

Lemma id_inj i j : (0 <= i)%Z -> (0 <= j)%Z -> createGroupPricingId i = createGroupPricingId j -> i = j.
Proof. intros Hi Hj E. unfold createGroupPricingId in E. apply (app_inv_head ("gpr_" : jsstr)) in E. by apply digits_inj. Qed.

Lemma ids_fresh l c : (0 <= c)%Z -> ids_ok l c -> createGroupPricingId (c + 1) ∉ map _id l.
Proof.
  intros Hc [_ Hl] H. apply elem_of_map in H as (r & Er & Hr). rewrite Forall_forall in Hl.
  destruct (Hl _ Hr) as (i & Ei & Hi). rewrite Ei in Er. apply id_inj in Er; lia.
Qed.
Lemma ids_more l c c' : (c <= c')%Z -> ids_ok l c -> ids_ok l c'.
Proof. intros Hc [Hd Hl]. split; [done|]. eapply Forall_impl; [exact Hl|]. intros r (i & -> & Hi). exists i. split; [done|lia]. Qed.
Lemma ids_snoc l c r : (0 <= c)%Z -> ids_ok l c -> _id r = createGroupPricingId (c + 1) -> ids_ok (l ++ [r]) (c + 1).
Proof.
  intros Hc Hl Hr. pose proof (ids_fresh l c Hc Hl) as Hf. destruct (ids_more l c (c + 1)) as [Hd Hi]; [lia|done|].
  split.
  - rewrite map_app. cbn [map]. apply NoDup_app. split; [done|]. split; [|apply NoDup_singleton].
    intros x Hx [->|[]%not_elem_of_nil]%elem_of_cons. by rewrite Hr in Hx.
  - apply Forall_app. split; [done|]. constructor; [|done]. exists (c + 1)%Z. split; [done|lia].
Qed.
Lemma ids_filter f l c : ids_ok l c -> ids_ok (List.filter f l) c.
Proof.
  intros [Hd Hl]. split.
  - eapply sublist_NoDup; [exact Hd|]. apply sublist_map, sublist_bfilter.
  - eapply sublist_Forall; [apply sublist_bfilter|done].
Qed.
Lemma update_row_id u r : _id (update_field u r) = _id r.
Proof. by destruct u. Qed.
Lemma ids_update f l c : (forall r, _id (f r) = _id r) -> ids_ok l c -> ids_ok (map f l) c.
Proof.
  intros Hf [Hd Hl]. split.
  - rewrite map_map. by rewrite (map_ext _ _ Hf).
  - apply Forall_fmap. eapply Forall_impl; [exact Hl|]. intros r Hr. cbn. by rewrite Hf.
Qed.

Lemma built_ids m names c : (0 <= c)%Z ->
  ids_ok (imap (fun i name => row_of m (createGroupPricingId (c + 1 + Z.of_nat i)) name) names) (c + Z.of_nat (length names)).
Proof.
  intros Hc. induction names as [|n names IH] using rev_ind; [by split; [apply NoDup_nil|]|].
  rewrite imap_app, length_app. cbn [imap length]. rewrite Nat.add_0_r.
  replace (c + Z.of_nat (length names + 1))%Z with (c + Z.of_nat (length names) + 1)%Z by lia.
  apply ids_snoc; [lia|done|]. unfold row_of. cbn [_id]. f_equal. lia.
Qed.
Lemma build_ids texts c r : (0 <= c)%Z -> buildGroupPricingRows texts c = Some r -> ids_ok r.1 r.2 /\ (0 <= r.2)%Z.
Proof.
  unfold buildGroupPricingRows. intros Hc H. destruct (parse_texts texts) as [m|]; [|done].
  injection H as <-. cbn [fst snd]. split; [by apply built_ids|]. lia.
Qed.

(** Numbers that are typed print back. *)
Definition event_prints (e : event) : Prop :=
  match e with
  | Update _ (SetRatio s) => prints_back (normalizeRatio (Some (JStr s)))
  | Update _ (SetTopupRatio s) => from_option prints_back True (topup_number (Row [] [] [] s true []))
  | _ => True
  end.
Definition table_ok (t : table) (texts : GroupTexts) : Prop :=
  ids_ok (rows t) (counter t) /\ (0 <= counter t)%Z /\ seen t = Some texts /\ Forall row_prints (rows t).

Lemma one_prints : prints_back (num 1).
Proof. split; [vm_compute; reflexivity|split; [vm_compute; reflexivity|apply (bool_decide_unpack _); vm_compute; exact I]]. Qed.
Lemma update_prints id u r : event_prints (Update id u) -> row_prints r -> row_prints (update_field u r).
Proof. intros Hu [H1 H2]. by destruct u. Qed.

Lemma table_handle_ok e t texts : event_prints e -> table_ok t texts ->
  let t1 := (handle e t).1 in
  (handle e t).2 = serializeGroupPricingRows (rows t1) /\ ids_ok (rows t1) (counter t1) /\ (0 <= counter t1)%Z /\
  seen t1 = Some texts /\ Forall row_prints (rows t1).
Proof.
  intros He (Hi & Hc & Hs & Hp). destruct e as [id u| |id].
  - split; [done|]. split; [|split; [done|split; [done|]]].
    + apply ids_update; [|done]. intros r. destruct (str_eqb (_id r) id); [apply update_row_id|done].
    + apply Forall_fmap. eapply Forall_impl; [exact Hp|]. intros r Hr. cbn.
      destruct (str_eqb (_id r) id); [by eapply update_prints|done].
  - split; [done|]. cbn [handle addRow emitRows fst rows counter seen].
    split; [by apply ids_snoc|]. split; [lia|]. split; [done|]. apply Forall_app. split; [done|]. constructor; [|done].
    split; [|done]. change (prints_back (num 1)). apply one_prints.
  - split; [done|]. split; [by apply ids_filter|]. split; [done|]. split; [done|]. eapply sublist_Forall; [apply sublist_bfilter|done].
Qed.

Lemma effect_keeps t : Forall row_prints (rows t) ->
  texts_effect (serializeGroupPricingRows (rows t)) t = Some (Table (rows t) (counter t) (Some (serializeGroupPricingRows (rows t)))).
Proof.
  intros Hp. unfold texts_effect. destruct (decide _) as [E|_]; [by rewrite <- E; destruct t|].
  unfold groupPricingSignature. destruct (sourceGroupPricingSignature _) as [s|] eqn:E; cbn.
  - by rewrite str_eqb_refl.
  - unfold sourceGroupPricingSignature, serializeGroupPricingRows in E. by rewrite (parse_printed_texts _ (serialize_sound _ Hp)) in E.
Qed.

(** The tables reached from opening the texts, with the texts of the form. *)
Inductive reached (texts0 : GroupTexts) (c0 : Z) : table -> GroupTexts -> Prop :=
| reached_mount t : mount texts0 c0 = Some t -> Forall row_prints (rows t) -> reached texts0 c0 t texts0
| reached_step t texts e t' texts' :
    reached texts0 c0 t texts -> event_prints e -> step e t = Some (t', texts') -> reached texts0 c0 t' texts'.

Lemma mount_ok texts c t : (0 <= c)%Z -> mount texts c = Some t -> Forall row_prints (rows t) -> table_ok t texts.
Proof.
  unfold mount. intros Hc H Hp. destruct (buildGroupPricingRows texts c) as [r|] eqn:Er; [|done]. cbn in H.
  destruct (build_ids _ _ _ Hc Er) as [Hi Hr]. unfold texts_effect in H. rewrite decide_False in H by done.
  destruct (sourceGroupPricingSignature texts) as [s|]; [|done]. cbn in H. destruct (groupPricingSignature r.1) as [s'|]; [|done].
  cbn in H. destruct (str_eqb s' s).
  - by injection H as <-.
  - destruct (buildGroupPricingRows texts r.2) as [r'|] eqn:Er'; [|done]. injection H as <-.
    destruct (build_ids _ _ _ Hr Er') as [Hi' Hr']. done.
Qed.
Lemma table_step_ok e t texts : event_prints e -> table_ok t texts ->
  exists t', step e t = Some (t', serializeGroupPricingRows (rows t')) /\ rows t' = rows (handle e t).1 /\
  table_ok t' (serializeGroupPricingRows (rows t')).
Proof.
  intros He Ht. destruct (table_handle_ok e t texts He Ht) as (Et & Hi & Hc & _ & Hp). unfold step.
  destruct (handle e t) as [t1 tx]. cbn in *. subst tx. rewrite effect_keeps by done.
  by exists (Table (rows t1) (counter t1) (Some (serializeGroupPricingRows (rows t1)))).
Qed.
Lemma table_reached_ok texts0 c0 t texts : (0 <= c0)%Z -> reached texts0 c0 t texts -> table_ok t texts.
Proof.
  intros Hc Hr. induction Hr as [t Hm Hp|t texts e t' texts' Hr IH He Hs]; [by eapply mount_ok|].
  destruct (table_step_ok e t texts He IH) as (t2 & E & _ & Ho). rewrite E in Hs. by injection Hs as <- <-.
Qed.

(** C22: edits stay: in every table the user can reach, any further edit succeeds,
    leaves exactly the rows it made although the texts it wrote come back to the
    table (blank and repeated names included), and the rows keep distinct
    identifiers. *)
Theorem table_edits_stick texts0 c0 t texts e : (0 <= c0)%Z -> reached texts0 c0 t texts -> event_prints e ->
  exists t' texts', step e t = Some (t', texts') /\ rows t' = rows (handle e t).1 /\
  texts' = serializeGroupPricingRows (rows t') /\ NoDup (map _id (rows t')).
Proof.
  intros Hc Hr He. destruct (table_step_ok e t texts He (table_reached_ok _ _ _ _ Hc Hr)) as (t' & Hs & Hrows & (Hi & _) & _).
  eexists _, _. by split; [exact Hs|split; [done|split; [done|]]].
Qed.

(** ** One group at a time *)

(** The names an event takes from a group or gives to one. *)
Definition touched (e : event) (t : table) : list jsstr :=
  match e with
  | Update id u => flat_map (fun r => if str_eqb (_id r) id then [trim (name r); trim (name (update_field u r))] else []) (rows t)
  | Add => [trim (new_name (rows t))]
  | Remove id => flat_map (fun r => if str_eqb (_id r) id then [trim (name r)] else []) (rows t)
  end.

Lemma rows_of_handle e t k : k ∉ touched e t -> rows_of k (rows (handle e t).1) = rows_of k (rows t).
Proof.
  destruct e as [id u| |id]; cbn [touched handle].
  - cbn. unfold rows_of. induction (rows t) as [|r l IH]; intros H; [done|]. cbn in *. apply not_elem_of_app in H as [H1 H2].
    rewrite (IH H2). destruct (str_eqb (_id r) id); [|done].
    rewrite !not_elem_of_cons in H1. destruct H1 as (Ha & Hb & _).
    by rewrite !(proj2 (str_eqb_false _ k)) by congruence.
  - intros H. cbn [addRow emitRows fst rows]. rewrite rows_of_snoc. cbn [name]. rewrite (proj2 (str_eqb_false _ k)) by set_solver. by rewrite app_nil_r.
  - cbn. unfold rows_of. induction (rows t) as [|r l IH]; intros H; [done|]. cbn in *. apply not_elem_of_app in H as [H1 H2].
    rewrite <- (IH H2). destruct (str_eqb (_id r) id); cbn; [|done]. by rewrite (proj2 (str_eqb_false _ k)) by set_solver.
Qed.
Lemma entries_of_rows k m m' l l' : holds_entries k m l -> holds_entries k m' l' -> rows_of k l = rows_of k l' ->
  obj_get k (ratioMap m) = obj_get k (ratioMap m') /\ obj_get k (usableMap m) = obj_get k (usableMap m') /\
  obj_get k (topupMap m) = obj_get k (topupMap m').
Proof.
  intros (-> & -> & ->) (-> & -> & ->) E. unfold entry_ratio_of, entry_usable_of, entry_topup_of. by rewrite E.
Qed.

(** Groups are independent: an edit changes the entries, in the three options, of
    the names it takes from a group or gives to one, and of no other name. *)
Theorem other_groups_untouched texts0 c0 t texts e t' texts' m m' k :
  (0 <= c0)%Z -> reached texts0 c0 t texts -> event_prints e -> step e t = Some (t', texts') ->
  parse_texts (serializeGroupPricingRows (rows t)) = Some m -> parse_texts texts' = Some m' -> k ∉ touched e t -> k <> [] ->
  obj_get k (ratioMap m) = obj_get k (ratioMap m') /\ obj_get k (usableMap m) = obj_get k (usableMap m') /\
  obj_get k (topupMap m) = obj_get k (topupMap m').
Proof.
  intros Hc Hr He Hs Hm Hm' Ht Hk. pose proof (table_reached_ok _ _ _ _ Hc Hr) as Ho. destruct (table_step_ok e t texts He Ho) as (t2 & E & Er & Ho2).
  rewrite E in Hs. injection Hs as <- <-. destruct Ho as (_ & _ & _ & Hp), Ho2 as (_ & _ & _ & Hp2).
  unfold serializeGroupPricingRows in Hm, Hm'. rewrite parse_printed_texts in Hm, Hm' by (by apply serialize_sound).
  injection Hm as <-. injection Hm' as <-. apply (entries_of_rows k _ _ (rows t) (rows t2)); [by apply serialize_entries..|].
  by rewrite Er, rows_of_handle.
Qed.

(** *** A new group *)

Lemma free_index_spec fuel ex i :
  (i <= free_index fuel ex i)%Z /\ (forall j, (i <= j < free_index fuel ex i)%Z -> numbered j ∈ ex) /\
  (numbered (free_index fuel ex i) ∉ ex \/ free_index fuel ex i = (i + Z.of_nat fuel)%Z).
Proof.
  revert i. induction fuel as [|fuel IH]; intros i; cbn [free_index]; [split; [lia|split; [lia|right; lia]]|].
  destruct (has (numbered i) ex) eqn:E.
  - apply has_spec in E. destruct (IH (i + 1)%Z) as (H1 & H2 & H3). split; [lia|]. split.
    + intros j Hj. destruct (decide (j = i)) as [->|]; [done|]. apply H2. lia.
    + destruct H3 as [H3|H3]; [by left|right; lia].
  - apply has_spec_false in E. split; [lia|]. split; [lia|by left].
Qed.
Lemma numbered_inj i j : (0 <= i)%Z -> (0 <= j)%Z -> numbered i = numbered j -> i = j.
Proof. intros Hi Hj E. unfold numbered in E. apply (app_inv_head ("group_" : jsstr)) in E. by apply digits_inj. Qed.
Lemma all_numbered_NoDup n : NoDup (map (fun k => numbered (1 + Z.of_nat k)) (seq 0 n)).
Proof.
  apply NoDup_fmap_2_strong; [|apply NoDup_seq]. intros a b _ _ E. apply numbered_inj in E; lia.
Qed.
(** The loop ends at the first free index within the fuel it is given. *)
Lemma free_index_free ex : numbered (free_index (S (length ex)) ex 1) ∉ ex.
Proof.
  destruct (free_index_spec (S (length ex)) ex 1) as (_ & H & [H'|E]); [done|]. exfalso. rewrite E in H.
  assert (Hs : map (fun k => numbered (1 + Z.of_nat k)) (seq 0 (S (length ex))) ⊆+ ex).
  { apply NoDup_submseteq; [apply all_numbered_NoDup|]. intros x Hx. apply elem_of_map in Hx as (k & -> & Hk).
    apply elem_of_seq in Hk. apply H. lia. }
  apply submseteq_length in Hs. rewrite length_map, length_seq in Hs. lia.
Qed.
Lemma numbered_trimmed i : (0 <= i)%Z -> trim (numbered i) = numbered i /\ numbered i <> [].
Proof.
  intros Hi. split; [|done]. apply trim_trimmed. split; [done|]. unfold numbered.
  destruct (last (digits i)) as [c|] eqn:E.
  - rewrite last_app, E. pose proof (digits_are_digits i Hi) as Hd. rewrite Forall_forall in Hd.
    apply last_Some_elem_of in E. specialize (Hd _ E). apply not_true_is_false. intros Hs. unfold is_digit, is_space in *.
    rewrite !orb_true_iff, !andb_true_iff, !N.eqb_eq, !N.leb_le in *. lia.
  - apply last_None in E. by destruct (digits_nonempty i).
Qed.

Lemma new_name_free l : exists i, (1 <= i)%Z /\ new_name l = numbered i /\ (numbered i ∉ map name l) /\
  forall j, (1 <= j < i)%Z -> numbered j ∈ map name l.
Proof.
  pose proof (free_index_spec (S (length (map name l))) (map name l) 1) as (H1 & H2 & _).
  eexists. split; [exact H1|]. split; [done|]. split; [apply free_index_free|exact H2].
Qed.

(** A new group: its name is the first numbered name that no row has, and when
    no name has blanks around it, it gets ratio 1 and an empty description, and
    every other group keeps its entries. *)
Theorem added_group_exact texts0 c0 t texts t' texts' m' :
  (0 <= c0)%Z -> reached texts0 c0 t texts -> Forall (fun r => trim (name r) = name r) (rows t) ->
  step Add t = Some (t', texts') -> parse_texts texts' = Some m' ->
  exists i, (1 <= i)%Z /\ (numbered i ∉ map name (rows t)) /\ (forall j, (1 <= j < i)%Z -> numbered j ∈ map name (rows t)) /\
  obj_get (numbered i) (ratioMap m') = Some (JNum (num 1)) /\ obj_get (numbered i) (usableMap m') = Some (JStr []) /\
  obj_get (numbered i) (topupMap m') = None /\ (forall k, k <> [] -> k <> numbered i -> holds_entries k m' (rows t)).
Proof.
  intros Hc Hr Hn Hs Hm. pose proof (table_reached_ok _ _ _ _ Hc Hr) as Ho. destruct (table_step_ok Add t texts I Ho) as (t2 & E & Er & (_ & _ & _ & Hp)).
  rewrite E in Hs. injection Hs as <- <-. unfold serializeGroupPricingRows in Hm. rewrite parse_printed_texts in Hm by (by apply serialize_sound).
  injection Hm as <-. destruct (new_name_free (rows t)) as (i & Hi & En & Hf & Hl). exists i. split; [done|]. split; [done|]. split; [done|].
  destruct (numbered_trimmed i) as [Ht Hne]; [lia|]. cbn [handle addRow emitRows fst rows] in Er.
  assert (E0 : rows_of (numbered i) (rows t) = []).
  { apply bfilter_none. intros r Hrow. apply str_eqb_false. rewrite Forall_forall in Hn. rewrite (Hn _ Hrow). intros Ei. apply Hf.
    rewrite <- Ei. apply elem_of_map. by exists r. }
  assert (E1 : rows_of (numbered i) (rows t2) = [Row (createGroupPricingId (counter t + 1)) (numbered i) "1" [] true []]).
  { rewrite Er, rows_of_snoc, E0, En. cbn [name]. by rewrite Ht, str_eqb_refl. }
  destruct (serialize_entries _ (rows t2) Hne) as (-> & -> & ->). unfold entry_ratio_of, entry_usable_of, entry_topup_of. rewrite E1.
  split; [done|]. split; [done|]. split; [done|]. intros k Hk Hki. destruct (serialize_entries k (rows t2) Hk) as (A1 & A2 & A3).
  assert (E2 : rows_of k (rows t2) = rows_of k (rows t)).
  { rewrite Er, rows_of_snoc, En. cbn [name]. rewrite Ht, (proj2 (str_eqb_false _ _)) by done. by rewrite app_nil_r. }
  unfold holds_entries, entry_ratio_of, entry_usable_of, entry_topup_of in *. by rewrite <- E2.
Qed.

(** ** Opening *)

(** Maps the editor shows as they are: numbers that print back, texts, and names
    without blanks around them. *)
Definition number_entry (v : json) : Prop := match v with JNum n => prints_back n | _ => False end.
Definition text_entry (v : json) : Prop := match v with JStr _ => True | _ => False end.
Definition plain (m : GroupMaps) : Prop :=
  Forall (fun kv => number_entry kv.2) (ratioMap m) /\ Forall (fun kv => text_entry kv.2) (usableMap m) /\
  Forall (fun kv => number_entry kv.2) (topupMap m) /\ Forall (fun k => k <> [] /\ trim k = k) (group_names m).

Lemma rows_of_built m k names ids : NoDup names -> Forall (fun n => trim n = n) names ->
  rows_of k (imap (fun i n => row_of m (ids i) n) names) =
  match find_index (fun n => str_eqb n k) names with Some i => [row_of m (ids i) k] | None => [] end.
Proof.
  revert ids. induction names as [|n names IH]; intros ids Hd Hn; [done|].
  apply NoDup_cons in Hd as [Hx Hd]. apply Forall_cons in Hn as [Hn Hns]. cbn [imap find_index rows_of List.filter].
  unfold rows_of in *. cbn [List.filter row_of name]. rewrite Hn. change (imap _ names) with (imap (fun i n => row_of m ((fun i => ids (S i)) i) n) names).
  rewrite IH by done. destruct (str_eqb n k) eqn:E; [|by destruct (find_index _ names)].
  apply str_eqb_true in E as ->. destruct (find_index _ names) as [j|] eqn:Ej; [|done]. exfalso.
  apply find_index_some in Ej as (x & Hj & Ex & _). apply str_eqb_true in Ex as ->. by apply Hx, (list_elem_of_lookup_2 _ j).
Qed.

Lemma group_names_elem m k : k ∈ group_names m <-> k ∈ (ratioMap m).*1 \/ k ∈ (usableMap m).*1 \/ k ∈ (topupMap m).*1.
Proof. unfold group_names. by rewrite elem_of_nub, !elem_of_app. Qed.
Lemma get_in (P : json -> Prop) k (o : obj json) v : Forall (fun kv => P kv.2) o -> obj_get k o = Some v -> P v.
Proof. intros H E%obj_get_elem. rewrite Forall_forall in H. exact (H _ E). Qed.

Lemma normal_prints m k : plain m -> prints_back (normalizeRatio (obj_get k (ratioMap m))).
Proof.
  intros (Hr & _). destruct (obj_get k (ratioMap m)) as [v|] eqn:E; [|apply one_prints].
  pose proof (get_in _ _ _ _ Hr E) as Hv. destruct v; try done. unfold normalizeRatio. cbn. by rewrite (proj1 Hv).
Qed.
Lemma ratio_rebuilt m id k : plain m ->
  normalizeRatio (Some (JStr (ratio (row_of m id k)))) = normalizeRatio (obj_get k (ratioMap m)).
Proof.
  intros Hm. pose proof (normal_prints m k Hm) as Hp. unfold row_of. cbn [ratio]. unfold normalizeRatio at 1.
  cbn [json_to_number json_to_string]. by rewrite (number_text_reads _ Hp), (proj1 Hp).
Qed.
Lemma topup_rebuilt m id k : plain m -> JNum <$> topup_number (row_of m id k) = obj_get k (topupMap m).
Proof.
  intros (_ & _ & Ht & _). unfold topup_number, row_of. cbn [topupRatio].
  destruct (obj_get k (topupMap m)) as [v|] eqn:E; [|done]. pose proof (get_in _ _ _ _ Ht E) as Hv. destruct v as [| |n| | |]; try done.
  cbn [json_to_string]. destruct (PriceEditing.number_text_trimmed n Hv) as [Et Hne]. rewrite Et, (number_text_reads n Hv), (proj1 Hv).
  by rewrite (proj2 (str_eqb_false _ _)).
Qed.
Lemma usable_rebuilt m id k : plain m ->
  (if selectable (row_of m id k) then Some (JStr (description (row_of m id k))) else None) = obj_get k (usableMap m).
Proof.
  intros (_ & Hu & _). unfold row_of, has_own, text_at. cbn [selectable description].
  destruct (obj_get k (usableMap m)) as [v|] eqn:E; [|done]. pose proof (get_in _ _ _ _ Hu E) as Hv. by destruct v.
Qed.
Lemma row_of_prints m id k : plain m -> row_prints (row_of m id k).
Proof.
  intros Hm. split; [rewrite ratio_rebuilt by done; by apply normal_prints|].
  pose proof (topup_rebuilt m id k Hm) as E. destruct (topup_number _) as [n|]; [|done]. cbn in *. symmetry in E.
  destruct Hm as (_ & _ & Ht & _). exact (get_in _ _ _ _ Ht E).
Qed.

(** Opening loses nothing: the texts written from the rows just opened hold the
    same descriptions and top-up ratios, and the same ratios, where a group
    that had none now has the ratio it is shown with. *)
Theorem groups_reopen texts m c : parse_texts texts = Some m -> plain m ->
  exists r m', buildGroupPricingRows texts c = Some r /\ parse_texts (serializeGroupPricingRows r.1) = Some m' /\
  forall k, obj_get k (ratioMap m') = (if has k (group_names m) then Some (JNum (normalizeRatio (obj_get k (ratioMap m)))) else None) /\
            obj_get k (usableMap m') = obj_get k (usableMap m) /\ obj_get k (topupMap m') = obj_get k (topupMap m).
Proof.
  intros Ht Hm. unfold buildGroupPricingRows. rewrite Ht. cbn [mbind option_bind].
  set (l := imap _ (group_names m)). eexists _, (serialize_maps l). split; [reflexivity|]. cbn [fst].
  assert (Hl : Forall row_prints l).
  { apply Forall_lookup. intros i r Hr. unfold l in Hr. rewrite list_lookup_imap in Hr. apply fmap_Some in Hr as (n & _ & ->).
    by apply row_of_prints. }
  split; [by apply parse_printed_texts, serialize_sound|]. intros k. pose proof Hm as (_ & _ & _ & Hn). rewrite Forall_forall in Hn.
  destruct (decide (k = [])) as [->|Hk].
  { destruct (serialize_blank l) as (-> & -> & ->). assert (Hx : [] ∉ group_names m) by (intros H; by destruct (Hn _ H)).
    rewrite (proj2 (has_spec_false _ _) Hx). rewrite group_names_elem in Hx. rewrite !(proj2 (obj_get_none _ _)) by tauto. done. }
  destruct (serialize_entries k l Hk) as (-> & -> & ->). unfold entry_ratio_of, entry_usable_of, entry_topup_of.
  assert (El : rows_of k l = match find_index (fun n => str_eqb n k) (group_names m) with
                             | Some i => [row_of m (createGroupPricingId (c + 1 + Z.of_nat i)) k] | None => [] end).
  { apply (rows_of_built m k (group_names m) (fun i => createGroupPricingId (c + 1 + Z.of_nat i))); [apply nub_NoDup|].
    apply Forall_forall. intros n H. by destruct (Hn _ H). }
  rewrite El. destruct (find_index _ _) as [i|] eqn:Ei.
  - apply find_index_some in Ei as (x & Hx & ->%str_eqb_true & _). apply list_elem_of_lookup_2 in Hx.
    rewrite (proj2 (has_spec _ _) Hx). split; [|split].
    + cbn [last fmap option_fmap option_map]. by rewrite ratio_rebuilt.
    + rewrite <- (usable_rebuilt m (createGroupPricingId (c + 1 + Z.of_nat i)) k) by done. cbn [List.filter].
      by destruct (selectable _).
    + rewrite <- (topup_rebuilt m (createGroupPricingId (c + 1 + Z.of_nat i)) k) by done. cbn [omap list_omap].
      by destruct (topup_number _).
  - rewrite find_index_none in Ei. assert (Hx : k ∉ group_names m).
    { intros H. specialize (Ei _ H). by rewrite str_eqb_refl in Ei. }
    rewrite (proj2 (has_spec_false _ _) Hx). rewrite group_names_elem in Hx. rewrite !(proj2 (obj_get_none _ _)) by tauto. done.
Qed.

(** ** Repeated names *)

Lemma count_snoc l r : fold_left count_name (l ++ [r]) [] =
  if negb (truthy (trim (name r))) then fold_left count_name l []
  else mset (trim (name r)) (S (default 0 (mget (trim (name r)) (fold_left count_name l [])))) (fold_left count_name l []).
Proof. by rewrite fold_left_app. Qed.
Lemma count_names l k : k <> [] ->
  mget k (fold_left count_name l []) = match length (rows_of k l) with O => None | n => Some n end.
Proof.
  intros Hk. induction l as [|r l IH] using rev_ind; [done|]. rewrite count_snoc, rows_of_snoc.
  destruct (str_eqb (trim (name r)) k) eqn:E.
  - apply str_eqb_true in E. rewrite E, (proj2 (truthy_true k)) by done. cbn [negb]. rewrite mget_mset_eq, IH, length_app.
    cbn [length]. rewrite Nat.add_1_r. by destruct (length (rows_of k l)).
  - apply str_eqb_false in E. rewrite app_nil_r. destruct (truthy _); [|exact IH]. cbn [negb]. by rewrite mget_mset_ne.
Qed.
Lemma count_keys l : NoDup (fold_left count_name l []).*1 /\ [] ∉ (fold_left count_name l []).*1.
Proof.
  induction l as [|r l [IH1 IH2]] using rev_ind; [split; [apply NoDup_nil|apply not_elem_of_nil]; done|]. rewrite count_snoc.
  destruct (truthy (trim (name r))) eqn:E; [|done]. apply truthy_true in E. cbn [negb].
  split; [by apply mset_NoDup|]. rewrite keys_mset. destruct (decide _); [done|]. rewrite elem_of_app, list_elem_of_singleton.
  intros [H|H]; [done|congruence].
Qed.
(** The warning names exactly the names that several rows carry, once each. *)
Theorem duplicates_exact l : NoDup (duplicateNames l) /\
  forall k, k ∈ duplicateNames l <-> k <> [] /\ 2 <= length (rows_of k l).
Proof.
  destruct (count_keys l) as [Hd Hb]. unfold duplicateNames. split.
  - eapply sublist_NoDup; [exact Hd|]. change (map fst) with (fmap (M := list) (A := jsstr * nat) fst).
    apply sublist_map, sublist_bfilter.
  - intros k. rewrite elem_of_map. split.
    + intros ([k' n] & -> & Hx). apply elem_of_bfilter in Hx as [Hx Hn]. cbn [fst snd] in *. apply Nat.ltb_lt in Hn.
      assert (Hk : k' <> []) by (intros ->; apply Hb; by apply (list_elem_of_fmap_2 fst _ _ Hx)).
      split; [done|]. apply mget_NoDup in Hx; [|done]. rewrite count_names in Hx by done.
      destruct (length (rows_of k' l)); [done|]. injection Hx as <-. lia.
    + intros [Hk Hn]. exists (k, length (rows_of k l)). split; [done|]. apply elem_of_bfilter. split; [|apply Nat.ltb_lt; cbn [snd]; lia].
      apply mget_elem. rewrite count_names by done. destruct (length (rows_of k l)); [lia|done].
Qed.

(** ** What the editor does not warn about *)

(** A ratio field that is emptied stands for 0, not for the default ratio 1: the
    group becomes free of charge. *)
Theorem emptied_ratio_is_free id n topup sel desc :
  normalizeRatio (Some (JStr [])) = num 0 /\ normalizeRatio None = num 1 /\
  serialize_maps [Row id n [] topup sel desc] = serialize_maps [Row id n "0" topup sel desc].
Proof.
  split; [done|]. split; [done|]. unfold serialize_maps. cbn [fold_left]. unfold serialize_row. cbn [name ratio selectable description].
  by replace (normalizeRatio (Some (JStr "0"))) with (normalizeRatio (Some (JStr []))) by (vm_compute; reflexivity).
Qed.

Definition half_price_row : GroupPricingRow := Row "gpr_1" " group_1" "0.5" [] false [].
(** The names that a new group avoids are compared as typed, the texts hold them
    trimmed: beside a group typed with a blank in front, the new group takes
    its name and its ratio. *)
Theorem new_group_takes_over :
  obj_get "group_1" (ratioMap (serialize_maps [half_price_row])) = Some (JNum (num_of_decimal false 5 (-1))) /\
  obj_get "group_1" (ratioMap (serialize_maps (rows (addRow (Table [half_price_row] 1 None)).1))) = Some (JNum (num 1)).
Proof. split; vm_compute; reflexivity. Qed.

(** ** A table in use *)

Definition sample_texts : GroupTexts :=
  Texts "{`default`: 1, `vip`: 0.5}" "{`default`: `Standard`, `beta`: `Try it`}" "{`vip`: 1.2}".
Definition sample_maps : GroupMaps := default (Maps [] [] []) (parse_texts sample_texts).
Definition sample_table : table := default (Table [] 0 None) (mount sample_texts 0).
Ltac prints := split; [vm_compute; reflexivity|split; [vm_compute; reflexivity|apply (bool_decide_unpack _); vm_compute; exact I]].

Lemma sample_texts_parsed : parse_texts sample_texts = Some sample_maps.
Proof. vm_compute. reflexivity. Qed.
Lemma sample_plain : plain sample_maps.
Proof.
  assert (E : sample_maps = Maps [("default" : jsstr, JNum (num 1)); ("vip" : jsstr, JNum (num_of_decimal false 5 (-1)))]
                [("default" : jsstr, JStr "Standard"); ("beta" : jsstr, JStr "Try it")]
                [("vip" : jsstr, JNum (num_of_decimal false 12 (-1)))]) by (vm_compute; reflexivity).
  rewrite E. split; [|split; [|split]].
  - constructor; [exact one_prints|constructor; [|constructor]]. cbn [snd number_entry]. prints.
  - repeat constructor.
  - constructor; [|constructor]. cbn [snd number_entry]. prints.
  - apply (bool_decide_unpack _). vm_compute. exact I.
Qed.
Lemma sample_rows : rows sample_table = map (fun p => row_of sample_maps p.1 p.2)
  [("gpr_4" : jsstr, "default" : jsstr); ("gpr_5" : jsstr, "vip" : jsstr); ("gpr_6" : jsstr, "beta" : jsstr)].
Proof. vm_compute. reflexivity. Qed.
Lemma sample_rows_print : Forall row_prints (rows sample_table).
Proof. rewrite sample_rows. apply Forall_fmap, Forall_true. intros x. apply row_of_prints, sample_plain. Qed.
Lemma sample_reached : reached sample_texts 0 sample_table sample_texts.
Proof. apply reached_mount; [vm_compute; reflexivity|exact sample_rows_print]. Qed.

Lemma table_texts_exact_witness :
  exists m, parse_texts (serializeGroupPricingRows (rows sample_table)) = Some m /\
  (forall k, k <> [] -> holds_entries k m (rows sample_table)) /\
  has_own [] (ratioMap m) = false /\ has_own [] (usableMap m) = false /\ has_own [] (topupMap m) = false.
Proof. exact (table_texts_exact (rows sample_table) sample_rows_print). Defined.

Definition renaming : event := Update "gpr_5" (SetName "default").
Lemma table_edits_stick_witness :
  exists t' texts', step renaming sample_table = Some (t', texts') /\ rows t' = rows (handle renaming sample_table).1 /\
  texts' = serializeGroupPricingRows (rows t') /\ NoDup (map _id (rows t')).
Proof. apply (table_edits_stick sample_texts 0 sample_table sample_texts renaming); [lia|exact sample_reached|exact I]. Defined.

Definition after_renaming : table * GroupTexts := default (sample_table, sample_texts) (step renaming sample_table).
Definition maps_of (t : table) : GroupMaps := serialize_maps (rows t).
Lemma other_groups_untouched_witness :
  obj_get "beta" (ratioMap (maps_of sample_table)) = obj_get "beta" (ratioMap (maps_of after_renaming.1)) /\
  obj_get "beta" (usableMap (maps_of sample_table)) = obj_get "beta" (usableMap (maps_of after_renaming.1)) /\
  obj_get "beta" (topupMap (maps_of sample_table)) = obj_get "beta" (topupMap (maps_of after_renaming.1)).
Proof.
  apply (other_groups_untouched sample_texts 0 sample_table sample_texts renaming after_renaming.1 after_renaming.2).
  - lia.
  - exact sample_reached.
  - exact I.
  - vm_compute. reflexivity.
  - vm_compute. reflexivity.
  - vm_compute. reflexivity.
  - apply (bool_decide_unpack _). vm_compute. exact I.
  - discriminate.
Defined.

Lemma groups_reopen_witness :
  exists r m', buildGroupPricingRows sample_texts 0 = Some r /\ parse_texts (serializeGroupPricingRows r.1) = Some m' /\
  forall k, obj_get k (ratioMap m') = (if has k (group_names sample_maps) then Some (JNum (normalizeRatio (obj_get k (ratioMap sample_maps)))) else None) /\
            obj_get k (usableMap m') = obj_get k (usableMap sample_maps) /\ obj_get k (topupMap m') = obj_get k (topupMap sample_maps).
Proof. exact (groups_reopen sample_texts sample_maps 0 sample_texts_parsed sample_plain). Defined.
End GroupPrices.
