(* ===== verification/GroupOverrideProofs.v ===== *)
(** Theorems on the ratios of user groups for single billing groups, the order of
    automatic assignment and the details of a group ([GroupPricing]).  The
    nested JSON objects refine finite maps from user groups to finite maps
    from billing groups to ratios. *)
From Stdlib Require Import Floats.SpecFloat.
From S2P Require Import Prelude JsNumber JsCollections Json JsonText BillingExpr Pricing PricingProofs GroupPricing GroupPricingProofs.
Import Snapshots GroupTable GroupOverrides.

Module GroupRatios.

(** ** Objects as finite maps *)

Section ObjectMap.
Context {A : Type}.
Implicit Types o : obj A.
Definition obj_map (o : obj A) : gmap jsstr A := list_to_map o.

Lemma lookup_obj_map k o : obj_map o !! k = obj_get k o.
Proof.
  unfold obj_map. induction o as [|[k' v] o IH]; [apply lookup_empty|]. cbn [list_to_map obj_get]. cbn.
  destruct (str_eqb k k') eqn:E.
  - apply str_eqb_true in E as ->. by rewrite lookup_insert_eq.
  - apply str_eqb_false in E. by rewrite lookup_insert_ne.
Qed.
Lemma obj_map_set k v o : obj_map (obj_set k v o) = <[k := v]> (obj_map o).
Proof.
  apply map_eq. intros j. rewrite lookup_obj_map. destruct (decide (j = k)) as [->|H].
  - by rewrite obj_get_set_eq, lookup_insert_eq.
  - rewrite obj_get_set_ne, lookup_insert_ne by done. by rewrite lookup_obj_map.
Qed.
Lemma obj_map_delete k o : obj_map (obj_delete k o) = delete k (obj_map o).
Proof.
  apply map_eq. intros j. rewrite lookup_obj_map, obj_get_delete. destruct (str_eqb j k) eqn:E.
  - apply str_eqb_true in E as ->. by rewrite lookup_delete_eq.
  - apply str_eqb_false in E. rewrite lookup_delete_ne by done. by rewrite lookup_obj_map.
Qed.
Lemma obj_map_empty o : obj_map o = ∅ <-> o = [].
Proof.
  split; [|by intros ->]. destruct o as [|[k v] o]; [done|]. intros E. exfalso.
  assert (H : obj_map ((k, v) :: o) !! k = Some v) by (rewrite lookup_obj_map; cbn; by rewrite str_eqb_refl).
  by rewrite E, lookup_empty in H.
Qed.
End ObjectMap.

(** ** The specification *)

Notation Overrides := (gmap jsstr (gmap jsstr json)).
Inductive Edit :=
| AddGroup (userGroup : jsstr) | RemoveGroup (userGroup : jsstr)
| SetRatio (userGroup : jsstr) (old : option jsstr) (billingGroup : jsstr) (r : jsnum)
| RemoveRatio (userGroup billingGroup : jsstr).
(** An override that is edited may move to another billing group. *)
Definition without (old : option jsstr) (billingGroup : jsstr) (m : gmap jsstr json) : gmap jsstr json :=
  match old with Some o => if decide (o <> [] /\ o <> billingGroup) then delete o m else m | None => m end.
Definition apply_edit (x : Edit) (m : Overrides) : Overrides :=
  match x with
  | AddGroup u => partial_alter (fun inner => Some (default ∅ inner)) u m
  | RemoveGroup u => delete u m
  | SetRatio u old b r => <[u := <[b := JNum r]> (without old b (default ∅ (m !! u)))]> m
  | RemoveRatio u b =>
      match m !! u with
      | Some inner => if decide (delete b inner = ∅) then delete u m else <[u := delete b inner]> m
      | None => m
      end
  end.

(** The edit an event stands for, given the dialogs. *)
Definition edit_of (e : event) (s : section) : option Edit :=
  match e with
  | SaveUserGroup => AddGroup <$> some_text (userGroupInput s)
  | DeleteUserGroup u => Some (RemoveGroup u)
  | SaveOverride =>
      '(target, r, old) ← dialog_save s; u ← some_text (overrideUserGroup s); Some (SetRatio u old target r)
  | DeleteOverride u b => Some (RemoveRatio u b)
  | _ => None
  end.

(** ** The texts *)

Definition inner_object (v : json) : Prop := exists o, v = JObj o /\ sound o.
Definition nested (m : obj json) : Prop := canonical m /\ Forall (fun kv => inner_object kv.2) m.
Definition view (m : obj json) : Overrides := (fun v => obj_map (entries v)) <$> obj_map m.
(** A text that holds nested objects, and the maps it stands for. *)
Definition holds (text : jsstr) (m : Overrides) : Prop :=
  exists o, parseNestedRatioMap text = Some o /\ nested o /\ view o = m.

Lemma nested_get m u v : nested m -> obj_get u m = Some v -> exists o, v = JObj o /\ sound o.
Proof. intros [_ H] E%obj_get_elem. rewrite Forall_forall in H. exact (H _ E). Qed.
Lemma nested_set u o m : sound o -> nested m -> nested (obj_set u (JObj o) m).
Proof.
  intros Ho [Hc Hn]. split; [by apply obj_set_canonical|]. apply Forall_forall. intros x [->|Hx]%elem_obj_set; [by exists o|].
  rewrite Forall_forall in Hn. by apply Hn.
Qed.
Lemma nested_delete u m : nested m -> nested (obj_delete u m).
Proof.
  intros [Hc Hn]. split; [by apply obj_delete_canonical|]. apply Forall_forall. intros x Hx%elem_obj_delete.
  rewrite Forall_forall in Hn. by apply Hn.
Qed.
Lemma nested_sound m : nested m -> sound m.
Proof.
  intros [Hc Hn]. split; [done|]. eapply Forall_impl; [exact Hn|]. intros kv (o & -> & Ho). by apply sound_printable.
Qed.
Lemma holds_emit m : nested m -> holds (emitMap m) (view m).
Proof. intros Hm. exists m. split; [|done]. by apply GroupPrices.record_of_pretty, nested_sound. Qed.

Lemma lookup_view u m : view m !! u = (fun v => obj_map (entries v)) <$> obj_get u m.
Proof. unfold view. by rewrite lookup_fmap, lookup_obj_map. Qed.
Lemma view_set u o m : view (obj_set u (JObj o) m) = <[u := obj_map o]> (view m).
Proof. unfold view. by rewrite obj_map_set, fmap_insert. Qed.
Lemma view_delete u m : view (obj_delete u m) = delete u (view m).
Proof. unfold view. by rewrite obj_map_delete, fmap_delete. Qed.

(** ** The operations *)

Lemma add_group_ok u text m : holds text m -> exists text', save_user_group u text = Some text' /\ holds text' (apply_edit (AddGroup u) m).
Proof.
  intros (o & Ho & Hn & <-). unfold save_user_group. rewrite Ho. cbn [mbind option_bind]. eexists. split; [reflexivity|].
  cbn [apply_edit]. destruct (obj_get u o) as [v|] eqn:E.
  - destruct (nested_get _ _ _ Hn E) as (i & -> & _). cbn [json_truthy negb].
    replace (partial_alter _ u (view o)) with (view o); [by apply holds_emit|].
    apply map_eq. intros j. destruct (decide (j = u)) as [->|Hj]; [|by rewrite lookup_partial_alter_ne].
    by rewrite lookup_partial_alter_eq, lookup_view, E.
  - cbn [json_truthy negb]. replace (partial_alter _ u (view o)) with (view (obj_set u (JObj []) o)).
    { apply holds_emit, nested_set; [apply sound_nil|done]. }
    rewrite view_set. apply map_eq. intros j. destruct (decide (j = u)) as [->|Hj].
    + by rewrite lookup_insert_eq, lookup_partial_alter_eq, lookup_view, E.
    + by rewrite lookup_insert_ne, lookup_partial_alter_ne.
Qed.
Lemma remove_group_ok u text m : holds text m ->
  exists text', handleUserGroupDelete u text = Some text' /\ holds text' (apply_edit (RemoveGroup u) m).
Proof.
  intros (o & Ho & Hn & <-). unfold handleUserGroupDelete. rewrite Ho. cbn [mbind option_bind]. eexists. split; [reflexivity|].
  cbn [apply_edit]. rewrite <- view_delete. by apply holds_emit, nested_delete.
Qed.

Lemma inner_map_ok u o : nested o -> exists i, inner_map u o = Some i /\ sound i /\ obj_map i = default ∅ (view o !! u).
Proof.
  intros Hn. unfold inner_map. rewrite lookup_view. destruct (obj_get u o) as [v|] eqn:E.
  - destruct (nested_get _ _ _ Hn E) as (i & -> & Hi). by exists i.
  - exists []. split; [done|]. split; [apply sound_nil|done].
Qed.
Lemma set_ratio_ok u old b r text m : prints_back r -> holds text m ->
  exists text', save_override u b r old text = Some text' /\ holds text' (apply_edit (SetRatio u old b r) m).
Proof.
  intros Hr (o & Ho & Hn & <-). unfold save_override. rewrite Ho. cbn [mbind option_bind].
  destruct (inner_map_ok u o Hn) as (i & -> & Hi & Ei). cbn [mbind option_bind]. set (i1 := match old with Some _ => _ | None => i end).
  assert (H1 : sound i1 /\ obj_map i1 = without old b (obj_map i)).
  { unfold i1, without. destruct old as [x|]; [|done]. destruct (truthy x && negb (str_eqb x b)) eqn:E.
    - apply andb_true_iff in E as [E1%truthy_true E2%negb_true_iff%str_eqb_false]. rewrite decide_True by done.
      split; [by apply sound_delete|apply obj_map_delete].
    - rewrite decide_False; [done|]. intros [E1 E2]. apply truthy_true in E1. apply str_eqb_false in E2. by rewrite E1, E2 in E. }
  destruct H1 as [H1 H2]. eexists. split; [reflexivity|]. cbn [apply_edit].
  rewrite <- Ei, <- H2, <- obj_map_set, <- view_set. apply holds_emit, nested_set; [|done]. apply sound_set; [by constructor|done].
Qed.
Lemma remove_ratio_ok u b text m : holds text m ->
  exists text', handleOverrideDelete u b text = Some text' /\ holds text' (apply_edit (RemoveRatio u b) m).
Proof.
  intros (o & Ho & Hn & <-). unfold handleOverrideDelete. rewrite Ho. cbn [mbind option_bind apply_edit]. rewrite lookup_view.
  destruct (obj_get u o) as [v|] eqn:E.
  - destruct (nested_get _ _ _ Hn E) as (i & -> & Hi). cbn [json_truthy negb mbind option_bind as_object fmap option_fmap option_map entries].
    eexists. split; [reflexivity|]. rewrite <- obj_map_delete. destruct (obj_delete b i) as [|kv l] eqn:Ei.
    + rewrite decide_True by done. rewrite <- view_delete. by apply holds_emit, nested_delete.
    + rewrite decide_False by (by rewrite obj_map_empty). rewrite <- Ei, <- view_set. apply holds_emit, nested_set; [|done].
      by apply sound_delete.
  - cbn [json_truthy negb fmap option_fmap option_map]. eexists. split; [reflexivity|]. by apply holds_emit.
Qed.

(** C23: the section on special ratios refines finite maps: an event emits a text
    exactly when it stands for an edit, and then the new text holds the edited
    maps. *)
Theorem overrides_refined e s text m :
  holds text m -> (forall u old b r, edit_of e s = Some (SetRatio u old b r) -> prints_back r) ->
  exists s' out, handle e s text = Some (s', out) /\
  match edit_of e s, out with
  | Some x, Some text' => holds text' (apply_edit x m)
  | None, None => True
  | _, _ => False
  end.
Proof.
  intros Hm Hr. destruct e as [| | | |u|u|u o|b|val| | |u b]; cbn [handle edit_of] in *; try (by eexists _, _).
  - destruct (some_text (userGroupInput s)) as [u|]; [|by eexists _, _].
    destruct (add_group_ok u text m Hm) as (text' & -> & H). by eexists _, (Some text').
  - destruct (remove_group_ok u text m Hm) as (text' & -> & H). by eexists _, (Some text').
  - destruct (dialog_save s) as [[[b r] old]|]; [|by eexists _, _]. cbn [mbind option_bind] in *.
    destruct (some_text (overrideUserGroup s)) as [u|]; [|by eexists _, _]. cbn [mbind option_bind] in *.
    destruct (set_ratio_ok u old b r text m) as (text' & -> & H); [by eapply Hr|done|]. by eexists _, (Some text').
  - destruct (remove_ratio_ok u b text m Hm) as (text' & -> & H). by eexists _, (Some text').
Qed.

(** Opening the dialog on an override and saving it unchanged changes nothing. *)
Theorem unchanged_override_kept u b n s text m inner :
  holds text m -> m !! u = Some inner -> inner !! b = Some (JNum n) -> prints_back n -> u <> [] -> b <> [] ->
  exists s1 s2 text', handle (EditOverride u (Override b (JNum n))) s text = Some (s1, None) /\
  handle SaveOverride s1 text = Some (s2, Some text') /\ holds text' m /\ overrideDialogOpen s2 = false.
Proof.
  intros Hm Hu Hb Hn Hu0 Hb0. eexists. destruct (PriceEditing.number_text_trimmed n Hn) as [Ht Hne].
  assert (Ep : parse_float (num_to_string n) = n) by (by apply GroupPrices.float_text_reads).
  assert (Ed : forall s, dialog_save (open_override u (Some (Override b (JNum n))) s) = Some (b, n, Some b)).
  { intros s0. unfold dialog_save, open_override, some_text. cbn -[truthy trim num_to_string parse_float].
    rewrite (proj2 (truthy_true b)) by done. cbn -[truthy trim num_to_string parse_float].
    rewrite Ht, (proj2 (str_eqb_false _ _)) by done. rewrite Ep. destruct Hn as [Hf _]. by destruct n. }
  destruct (set_ratio_ok u (Some b) b n text m Hn Hm) as (text' & Es & H).
  eexists _, text'. split; [reflexivity|]. cbn [handle]. rewrite Ed. cbn [overrideUserGroup open_override some_text].
  unfold some_text. cbn [mbind option_bind]. rewrite (proj2 (truthy_true u)) by done. rewrite Es. split; [reflexivity|]. split; [|done].
  replace (apply_edit (SetRatio u (Some b) b n) m) with m in H; [done|]. cbn [apply_edit without].
  rewrite decide_False by naive_solver. rewrite Hu. cbn [default from_option id]. rewrite (insert_id inner), insert_id; done.
Qed.

(** A ratio too large for a number is accepted by the dialog and stored as null. *)
Theorem infinite_ratio_stored_as_null :
  dialog_save (Section_ false None true (Some "vip" : option jsstr) None (Some ("beta" : jsstr)) "1e999") = Some ("beta" : jsstr, infinity, None) /\
  save_override "vip" "beta" infinity None "{}" = Some (emitMap [("vip" : jsstr, JObj [("beta" : jsstr, JNull)])]).
Proof. split; vm_compute; reflexivity. Qed.

(** ** The order of automatic assignment *)

Import AutoGroups.
Lemma strings_map l : strings (map JStr l) = Some l.
Proof. induction l as [|x l IH]; [done|]. unfold strings in *. cbn. by rewrite IH. Qed.
Lemma groups_reread l : autoGroupsList (print_groups l) = Some l.
Proof.
  unfold autoGroupsList, print_groups, safeJsonParse.
  assert (Ht : trim (stringify_pretty (JArr (map JStr l))) = stringify_pretty (JArr (map JStr l))).
  { apply trim_trimmed. unfold stringify_pretty. cbn [render]. split; [done|]. by rewrite !app_assoc, last_snoc. }
  rewrite Ht, parse_pretty; [cbn; apply strings_map|]. constructor. apply Forall_fmap, Forall_true. intros x. constructor.
Qed.
Lemma swap_lookup i j l k x y : l !! i = Some x -> l !! j = Some y ->
  AutoGroups.swap i j l !! k = if decide (k = j) then Some x else if decide (k = i) then Some y else l !! k.
Proof.
  intros Hi Hj. unfold AutoGroups.swap. rewrite Hi, Hj. apply lookup_lt_Some in Hi as Li. apply lookup_lt_Some in Hj as Lj.
  destruct (decide (k = j)) as [->|H1]; [by rewrite list_lookup_insert_eq by (by rewrite length_insert)|].
  rewrite list_lookup_insert_ne by done. destruct (decide (k = i)) as [->|H2]; [by rewrite list_lookup_insert_eq|].
  by rewrite list_lookup_insert_ne.
Qed.

(** The list after an event on a list without repetitions: nothing else moves,
    the texts written are read back, and no group is listed twice. *)
Theorem auto_order_exact e l l' : NoDup l -> match e with Add _ => True | Delete i | Move i _ => i < length l end ->
  AutoGroups.handle e l = Some l' ->
  autoGroupsList (print_groups l') = Some l' /\ NoDup l' /\
  match e with
  | Add name => (name ∉ l) /\ l' = l ++ [name]
  | Delete i => l' = take i l ++ drop (S i) l
  | Move i up => exists j, (if up then i = S j else j = S i) /\ j < length l /\
                 l' !! i = l !! j /\ l' !! j = l !! i /\ forall k, k <> i -> k <> j -> l' !! k = l !! k
  end.
Proof.
  intros Hd Hi H. split; [apply groups_reread|]. destruct e as [name|i|i up]; cbn [AutoGroups.handle] in H.
  - unfold handleAutoGroupAdd in H. destruct (has name l) eqn:E; [done|]. injection H as <-. apply has_spec_false in E.
    split; [|done]. apply NoDup_app. split; [done|]. split; [|apply NoDup_singleton].
    intros x Hx [->|[]%not_elem_of_nil]%elem_of_cons. done.
  - injection H as <-. rewrite delete_take_drop. split; [|done]. rewrite <- delete_take_drop.
    eapply sublist_NoDup; [exact Hd|]. apply sublist_delete.
  - assert (Hj : exists j, (if up then i = S j else j = S i) /\ j < length l /\ l' = AutoGroups.swap i j l).
    { unfold handleAutoGroupMove in H. destruct up.
      - destruct i as [|j]; [done|]. injection H as <-. exists j. split; [done|]. split; [lia|done].
      - destruct (S i <? length l) eqn:E; [|done]. apply Nat.ltb_lt in E. injection H as <-. by exists (S i). }
    destruct Hj as (j & Hij & Hj & ->). apply lookup_lt_is_Some in Hi as [x Hx]. apply lookup_lt_is_Some in Hj as [y Hy].
    split.
    + unfold AutoGroups.swap. rewrite Hx, Hy. by rewrite (Permutation_insert_swap l i j x y Hx Hy).
    + exists j. split; [done|]. split; [by apply lookup_lt_is_Some; eexists|]. rewrite !(swap_lookup _ _ _ _ _ _ Hx Hy).
      assert (i <> j) by (destruct up; lia). rewrite (decide_False (P := i = j)), !decide_True by done.
      split; [done|]. split; [done|]. intros k H1 H2. by rewrite (swap_lookup _ _ _ _ _ _ Hx Hy), !decide_False.
Qed.

(** ** The details of a group *)

Import GroupDetails.
Lemma elem_get {A} k v (o : obj A) : canonical o -> (k, v) ∈ o <-> obj_get k o = Some v.
Proof. intros [Hd _]. split; [by apply obj_get_NoDup|apply obj_get_elem]. Qed.

Lemma incoming_spec name o : nested o -> exists l, mapM (incoming_of name) o = Some l /\
  forall u r, (u, r) ∈ concat l <-> exists i, (u, JObj i) ∈ o /\ obj_get name i = Some r.
Proof.
  intros [_ Hn]. induction Hn as [|[u v] o (i & E & _) Hn (l & El & H)]; [exists []; set_solver|]. cbn in E. subst v.
  change (mapM (incoming_of name) ((u, JObj i) :: o)) with
    (y ← incoming_of name (u, JObj i); k ← mapM (incoming_of name) o; Some (y :: k)). rewrite El.
  cbn [incoming_of snd fst mbind option_bind entries].
  eexists. split; [reflexivity|]. intros u' r. cbn [concat]. rewrite elem_of_app, H. setoid_rewrite elem_of_cons. split.
  - intros [Hx|(i' & Hi & Hr)]; [|by exists i'; auto]. destruct (obj_get name i) as [r'|] eqn:Er; [|by apply elem_of_nil in Hx].
    apply list_elem_of_singleton in Hx as [= -> ->]. exists i. auto.
  - intros (i' & [[= -> ->]|Hi] & Hr); [left; rewrite Hr; by left|right; by exists i'].
Qed.

(** The sheet lists exactly the overrides in force for a group: those of other
    user groups billed as it, and those of its users billed as other groups. *)
Theorem detail_overrides_exact name reg topups usable text special auto m d :
  holds text m -> detail name reg topups usable text special auto = Some d ->
  (forall u r, (u, r) ∈ incomingOverrides d <-> m !! u ≫= (.!! name) = Some r) /\
  (forall b r, Override b r ∈ outgoingOverrides d <-> m !! name ≫= (.!! b) = Some r).
Proof.
  intros (o & Ho & Hn & <-) H. unfold detail in H. destruct (parseRatioMap topups); [|done]. cbn [mbind option_bind] in H.
  destruct (parseUsableMap usable); [|done]. cbn [mbind option_bind] in H. rewrite Ho in H. cbn [mbind option_bind] in H.
  destruct (record_of special); [|done]. cbn [mbind option_bind] in H. destruct (incoming_spec name o Hn) as (inc & El & Hl).
  rewrite El in H. cbn [mbind option_bind] in H. destruct (overrides_of _) as [out|] eqn:Eo; [|done]. injection H as <-.
  cbn [incomingOverrides outgoingOverrides]. split.
  - intros u r. rewrite Hl, lookup_view. split.
    + intros (i & Hi & Hr). apply elem_get in Hi; [|by destruct Hn]. rewrite Hi. cbn [fmap option_fmap option_map mbind option_bind entries]. by rewrite lookup_obj_map.
    + destruct (obj_get u o) as [v|] eqn:Ev; [|done]. destruct (nested_get _ _ _ Hn Ev) as (i & -> & _). cbn [fmap option_fmap option_map mbind option_bind entries].
      rewrite lookup_obj_map. intros Hr. exists i. split; [by apply obj_get_elem|done].
  - intros b r. rewrite lookup_view. destruct (obj_get name o) as [v|] eqn:Ev.
    + destruct (nested_get _ _ _ Hn Ev) as (i & -> & [Hi _]). cbn [overrides_of own_entries entries] in Eo. injection Eo as <-. cbn [fmap option_fmap option_map mbind option_bind entries own_entries]. rewrite lookup_obj_map.
      rewrite <- elem_get by done. rewrite elem_of_map. split; [by intros ([k w] & [= -> ->] & Hx)|intros Hx; by exists (b, r)].
    + cbn in Eo. injection Eo as <-. cbn. split; [by intros Hx%elem_of_nil|done].
Qed.

(** ** A text in use *)

Definition sample_overrides : jsstr := "{`vip`: {`beta`: 0.5, `default`: 1}, `beta`: {}}".
Definition sample_object : obj json := default [] (parseNestedRatioMap sample_overrides).
Lemma obj_of_canonical {A} (l : list (jsstr * A)) : canonical (obj_of l).
Proof.
  unfold obj_of. assert (G : forall o, canonical o -> canonical (fold_left (fun o kv => obj_set kv.1 kv.2 o) l o)).
  { induction l as [|x l IH]; intros o H; [done|]. apply IH. by apply obj_set_canonical. }
  apply G, canonical_nil.
Qed.
Lemma sample_holds : holds sample_overrides (view sample_object).
Proof.
  exists sample_object. split; [vm_compute; reflexivity|]. split; [|done].
  assert (E : sample_object = [("vip" : jsstr, JObj [("beta" : jsstr, JNum (num_of_decimal false 5 (-1))); ("default" : jsstr, JNum (num 1))]);
                               ("beta" : jsstr, JObj [])]) by (vm_compute; reflexivity).
  assert (Hc : forall A (o : obj A), obj_of o = o -> canonical o) by (intros A o <-; apply obj_of_canonical).
  rewrite E. split; [apply Hc; reflexivity|]. constructor; [|constructor; [|constructor]]; cbn [snd].
  - eexists. split; [reflexivity|]. split; [apply Hc; reflexivity|]. constructor; [|constructor; [|constructor]]; cbn [snd]; constructor.
    + GroupPrices.prints.
    + apply GroupPrices.one_prints.
  - exists []. split; [done|apply sound_nil].
Qed.
Definition editing : section := Section_ false None true (Some ("vip" : jsstr)) (Some (Override "beta" (JNum (num 1)))) (Some ("default" : jsstr)) "0.5".
Lemma overrides_refined_witness :
  exists s' out, GroupOverrides.handle SaveOverride editing sample_overrides = Some (s', out) /\
  match edit_of SaveOverride editing, out with
  | Some x, Some text' => holds text' (apply_edit x (view sample_object))
  | None, None => True
  | _, _ => False
  end.
Proof.
  apply (overrides_refined SaveOverride editing sample_overrides (view sample_object)); [exact sample_holds|].
  intros u old b r E.
  assert (E' : edit_of SaveOverride editing = Some (SetRatio "vip" (Some ("beta" : jsstr)) "default" (num_of_decimal false 5 (-1))))
    by (vm_compute; reflexivity).
  rewrite E' in E. injection E as _ _ _ <-. GroupPrices.prints.
Defined.
End GroupRatios.
