(* ===== verification/GroupRules.v ===== *)
(** The editor of special usable groups
    (src/web/src/features/system-settings/models/group-special-usable-editor.tsx):
    module SpecialRules has the rules, their texts and the operations of the
    component; module RuleTexts its theorems.

    The text holds an object; on other JSON the operations give [None], as in
    [GroupPricing]. *)
From S2P Require Import Prelude JsNumber JsCollections Json JsonText.

Module SpecialRules.
Record Rule := Rule_ { _id : jsstr; userGroup : jsstr; visible : bool; targetGroup : jsstr; description : jsstr }.

(** [uid()], with the counter after it was increased. *)
Definition uid (counter : Z) : jsstr := "gsu_" ++ digits counter.

Definition parseRawKey (rawKey : jsstr) : bool * jsstr :=
  match strip_prefix "-:" rawKey with
  | Some r => (false, r)
  | None => match strip_prefix "+:" rawKey with Some r => (true, r) | None => (true, rawKey) end
  end.
Definition toRawKey (visible : bool) (groupName : jsstr) : jsstr := (if visible then "+:" else "-:") ++ groupName.

Definition safeParseJson (str : jsstr) : option (obj json) :=
  if negb (truthy str) || negb (truthy (trim str)) then Some []
  else match parse str with Some v => as_object v | None => Some [] end.

(** What a pair of the inner object says, without its identifier. *)
Definition rule_content (userGroup : jsstr) (kv : jsstr * json) : jsstr * bool * jsstr * jsstr :=
  let '(visible, groupName) := parseRawKey kv.1 in
  (userGroup, visible, groupName, if negb visible then "remove" else match kv.2 with JStr desc => desc | _ => [] end).
(** Values that are no objects are passed over. *)
Definition flat_contents (nested : obj json) : list (jsstr * bool * jsstr * jsstr) :=
  flat_map (fun kv => map (rule_content kv.1) (entries kv.2)) nested.
Definition with_id (id : jsstr) (c : jsstr * bool * jsstr * jsstr) : Rule :=
  let '(u, v, g, d) := c in Rule_ id u v g d.
(** The rules, and the counter after them. *)
Definition flattenRules (nested : obj json) (counter : Z) : list Rule * Z :=
  let contents := flat_contents nested in
  (imap (fun i c => with_id (uid (counter + 1 + Z.of_nat i)) c) contents, (counter + Z.of_nat (length contents))%Z).

(** One round of the loop of serializeRules. *)
Definition serialize_rule (result : obj (obj json)) (r : Rule) : obj (obj json) :=
  if negb (truthy (userGroup r)) || negb (truthy (targetGroup r)) then result
  else obj_set (userGroup r)
         (obj_set (toRawKey (visible r) (targetGroup r)) (JStr (description r)) (default [] (obj_get (userGroup r) result))) result.
Definition nested_json (result : obj (obj json)) : obj json := map (fun kv => (kv.1, JObj kv.2)) result.
Definition serializeRules (rules : list Rule) : jsstr :=
  match fold_left serialize_rule rules [] with
  | [] => "{}"
  | result => stringify_pretty (JObj (nested_json result))
  end.

(** ** The component *)

Record editor := Editor { rules : list Rule; counter : Z }.
Definition open (value : jsstr) (c : Z) : option editor :=
  nested ← safeParseJson value; let r := flattenRules nested c in Some (Editor r.1 r.2).

(** emitChange: the new rules, and the text handed to the form. *)
Definition emitChange (newRules : list Rule) (c : Z) : editor * jsstr := (Editor newRules c, serializeRules newRules).

(** The fields of a rule that updateRule writes. *)
Inductive FieldUpdate := SetVisible (b : bool) | SetTargetGroup (s : jsstr) | SetDescription (s : jsstr).
Definition update_field (u : FieldUpdate) (r : Rule) : Rule :=
  match u with
  | SetVisible false => Rule_ (_id r) (userGroup r) false (targetGroup r) "remove"
  | SetVisible true =>
      Rule_ (_id r) (userGroup r) true (targetGroup r)
        (if negb (visible r) && str_eqb (description r) "remove" then [] else description r)
  | SetTargetGroup s => Rule_ (_id r) (userGroup r) (visible r) s (description r)
  | SetDescription s => Rule_ (_id r) (userGroup r) (visible r) (targetGroup r) s
  end.
Definition updateRule (id : jsstr) (u : FieldUpdate) (e : editor) : editor * jsstr :=
  emitChange (map (fun r => if str_eqb (_id r) id then update_field u r else r) (rules e)) (counter e).
Definition removeRule (id : jsstr) (e : editor) : editor * jsstr :=
  emitChange (List.filter (fun r => negb (str_eqb (_id r) id)) (rules e)) (counter e).
Definition removeGroup (groupName : jsstr) (e : editor) : editor * jsstr :=
  emitChange (List.filter (fun r => negb (str_eqb (userGroup r) groupName)) (rules e)) (counter e).
Definition addRuleToGroup (groupName : jsstr) (e : editor) : editor * jsstr :=
  let c := (counter e + 1)%Z in emitChange (rules e ++ [Rule_ (uid c) groupName true [] []]) c.

(** The rules by user group, in the order of their first rules. *)
Definition group_rule (m : jsmap jsstr (list Rule)) (r : Rule) : jsmap jsstr (list Rule) :=
  if negb (truthy (userGroup r)) then m else mset (userGroup r) (default [] (mget (userGroup r) m) ++ [r]) m.
Definition grouped (rules : list Rule) : list (jsstr * list Rule) := fold_left group_rule rules [].
Definition newGroupCandidates (groupOptions : list jsstr) (rules : list Rule) : list jsstr :=
  List.filter (fun name => negb (has name (map fst (grouped rules)))) groupOptions.

Inductive event := Update (id : jsstr) (u : FieldUpdate) | Remove (id : jsstr) | RemoveGroup (groupName : jsstr) | AddRule (groupName : jsstr).
Definition handle (ev : event) (e : editor) : editor * jsstr :=
  match ev with
  | Update id u => updateRule id u e
  | Remove id => removeRule id e
  | RemoveGroup g => removeGroup g e
  | AddRule g => addRuleToGroup g e
  end.
(** What the interface offers: rules and groups on the screen, group names that
    are not empty, and the description of rules that grant. *)
Definition offered (ev : event) (e : editor) : bool :=
  match ev with
  | Update id u =>
      existsb (fun r => str_eqb (_id r) id && truthy (userGroup r) &&
                        match u with SetVisible _ => true | SetTargetGroup s => truthy s | SetDescription _ => visible r end) (rules e)
  | Remove id => existsb (fun r => str_eqb (_id r) id && truthy (userGroup r)) (rules e)
  | RemoveGroup g => has g (map fst (grouped (rules e)))
  | AddRule g => truthy g
  end.
End SpecialRules.
Import SpecialRules.

Module RuleTexts.

(** ** Keys *)

Lemma raw_key_reads v g : parseRawKey (toRawKey v g) = (v, g).
Proof. by destruct v. Qed.
Lemma raw_key_inj v g v' g' : toRawKey v g = toRawKey v' g' -> v = v' /\ g = g'.
Proof. intros E. apply (f_equal parseRawKey) in E. rewrite !raw_key_reads in E. by injection E as -> ->. Qed.

(** ** The text of the rules *)

Definition content (r : Rule) : jsstr * bool * jsstr * jsstr := (userGroup r, visible r, targetGroup r, description r).
Definition about (u : jsstr) (v : bool) (g : jsstr) (r : Rule) : bool :=
  str_eqb (userGroup r) u && Bool.eqb (visible r) v && str_eqb (targetGroup r) g.
(** The rule that counts among those on a group, for a user group: the last. *)
Definition last_rule (u : jsstr) (v : bool) (g : jsstr) (l : list Rule) : option Rule := last (List.filter (about u v g) l).

Lemma about_true u v g r : about u v g r = true <-> userGroup r = u /\ visible r = v /\ targetGroup r = g.
Proof. unfold about. rewrite !andb_true_iff, !str_eqb_true, eqb_true_iff. tauto. Qed.
Lemma last_rule_snoc u v g l r : last_rule u v g (l ++ [r]) = if about u v g r then Some r else last_rule u v g l.
Proof.
  unfold last_rule. rewrite bfilter_app. cbn. destruct (about u v g r); [by rewrite last_snoc|by rewrite app_nil_r].
Qed.

Definition result_of (l : list Rule) : obj (obj json) := fold_left serialize_rule l [].
Definition inner_get (u k : jsstr) (o : obj (obj json)) : option json := obj_get u o ≫= obj_get k.
Lemma result_snoc l r : result_of (l ++ [r]) = serialize_rule (result_of l) r.
Proof. unfold result_of. by rewrite fold_left_app. Qed.

Lemma inner_get_serialize u v g o r : u <> [] -> g <> [] ->
  inner_get u (toRawKey v g) (serialize_rule o r) =
  if about u v g r then Some (JStr (description r)) else inner_get u (toRawKey v g) o.
Proof.
  intros Hu Hg. unfold serialize_rule, inner_get. destruct (about u v g r) eqn:E.
  - apply about_true in E as (-> & -> & ->). rewrite !(proj2 (truthy_true _)) by done. cbn [negb orb].
    rewrite obj_get_set_eq. cbn [mbind option_bind]. by rewrite obj_get_set_eq.
  - destruct (negb (truthy (userGroup r)) || negb (truthy (targetGroup r))); [done|].
    destruct (decide (userGroup r = u)) as [Eu|Hn]; [|by rewrite obj_get_set_ne]. rewrite Eu, obj_get_set_eq. cbn [mbind option_bind].
    rewrite obj_get_set_ne; [by destruct (obj_get u o)|]. intros [-> ->]%raw_key_inj.
    by rewrite (proj2 (about_true u (visible r) (targetGroup r) r)) in E.
Qed.
Lemma inner_get_result u v g l : u <> [] -> g <> [] ->
  inner_get u (toRawKey v g) (result_of l) = (fun r => JStr (description r)) <$> last_rule u v g l.
Proof.
  intros Hu Hg. induction l as [|r l IH] using rev_ind; [done|]. rewrite result_snoc, last_rule_snoc, inner_get_serialize, IH by done.
  by destruct (about u v g r).
Qed.

(** The shape of the object: user groups with rules, keys of rules, texts. *)
Definition rule_entry (kv : jsstr * json) : Prop := exists v g d, kv = (toRawKey v g, JStr d) /\ g <> [].
Definition rule_group (kv : jsstr * obj json) : Prop := kv.1 <> [] /\ canonical kv.2 /\ Forall rule_entry kv.2.

Lemma result_shape l : canonical (result_of l) /\ Forall rule_group (result_of l).
Proof.
  induction l as [|r l [IH1 IH2]] using rev_ind; [split; [apply canonical_nil|constructor]|]. rewrite result_snoc. unfold serialize_rule.
  destruct (truthy (userGroup r)) eqn:Eu; [|done]. destruct (truthy (targetGroup r)) eqn:Et; [|done]. cbn [negb orb].
  apply truthy_true in Eu, Et. split; [by apply obj_set_canonical|]. apply Forall_forall. rewrite Forall_forall in IH2.
  intros x [->|Hx]%elem_obj_set; [|by apply IH2]. split; [done|]. cbn [snd].
  assert (Hi : canonical (default [] (obj_get (userGroup r) (result_of l))) /\ Forall rule_entry (default [] (obj_get (userGroup r) (result_of l)))).
  { destruct (obj_get _ _) as [i|] eqn:E; [|by split; [apply canonical_nil|]]. apply obj_get_elem in E. by destruct (IH2 _ E) as (_ & H). }
  destruct Hi as [Hc He]. split; [by apply obj_set_canonical|]. apply Forall_forall. rewrite Forall_forall in He.
  intros y [->|Hy]%elem_obj_set; [by eexists _, _, _|by apply He].
Qed.
Lemma result_sound l : sound (nested_json (result_of l)).
Proof.
  destruct (result_shape l) as [Hc Hs]. split; [by apply canonical_map|]. apply Forall_fmap. eapply Forall_impl; [exact Hs|].
  intros [u i] (_ & Hi & He). cbn. apply sound_printable. split; [done|]. eapply Forall_impl; [exact He|].
  intros kv (v & g & d & -> & _). constructor.
Qed.

Lemma serialize_reads l : safeParseJson (serializeRules l) = Some (nested_json (result_of l)).
Proof.
  assert (H : safeParseJson (stringify_pretty (JObj (nested_json (result_of l)))) = Some (nested_json (result_of l))).
  { unfold safeParseJson. rewrite trim_pretty_object, parse_pretty by (by apply sound_printable, result_sound). done. }
  unfold serializeRules. change (fold_left serialize_rule l []) with (result_of l). destruct (result_of l) eqn:E; [|exact H].
  vm_compute. reflexivity.
Qed.

(** The rules an object stands for. *)
Lemma flat_elem l u v g d :
  (u, v, g, d) ∈ flat_contents (nested_json (result_of l)) <->
  u <> [] /\ g <> [] /\ exists r, last_rule u v g l = Some r /\ d = if v then description r else "remove".
Proof.
  destruct (result_shape l) as [Hc Hs]. unfold flat_contents, nested_json. rewrite list_elem_of_In, in_flat_map. split.
  - intros ([u' x] & Hx & Hd). rewrite <- list_elem_of_In, elem_of_map in Hx. rewrite <- list_elem_of_In, elem_of_map in Hd. destruct Hx as ([u2 i] & [= -> ->] & Hx).
    rewrite Forall_forall in Hs. destruct (Hs _ Hx) as (Hu & [Hi _] & He). cbn in *. destruct Hd as (kv & Ed & Hkv).
    rewrite Forall_forall in He. destruct (He _ Hkv) as (v' & g' & d' & -> & Hg). unfold rule_content in Ed. cbn [fst snd] in Ed.
    rewrite raw_key_reads in Ed. injection Ed as -> -> -> ->. split; [done|]. split; [done|].
    pose proof (inner_get_result u2 v' g' l Hu Hg) as E. unfold inner_get in E. destruct Hc as [Hcd _].
    rewrite (obj_get_NoDup u2 i _ Hcd Hx) in E. cbn [mbind option_bind] in E. rewrite (obj_get_NoDup _ _ _ Hi Hkv) in E.
    destruct (last_rule u2 v' g' l) as [r|]; [|done]. injection E as ->. exists r. split; [done|]. by destruct v'.
  - intros (Hu & Hg & r & Hr & ->). pose proof (inner_get_result u v g l Hu Hg) as E. rewrite Hr in E. unfold inner_get in E.
    destruct (obj_get u (result_of l)) as [i|] eqn:Ei; [|done]. cbn in E. exists (u, JObj i). split.
    + rewrite <- list_elem_of_In, elem_of_map. exists (u, i). split; [done|]. by apply obj_get_elem.
    + rewrite <- list_elem_of_In, elem_of_map. exists (toRawKey v g, JStr (description r)). split; [|by apply obj_get_elem].
      unfold rule_content. cbn [fst snd]. rewrite raw_key_reads. by destruct v.
Qed.

Definition key_of (c : jsstr * bool * jsstr * jsstr) : jsstr * bool * jsstr := c.1.
Lemma inner_keys_NoDup u i : NoDup i.*1 -> Forall rule_entry i -> NoDup (map key_of (map (rule_content u) i)).
Proof.
  intros Hd He. induction He as [|kv i (v & g & d & -> & _) He IH]; [apply NoDup_nil; done|].
  apply NoDup_cons in Hd as [Hx Hd]. cbn [map]. apply NoDup_cons. split; [|by apply IH].
  unfold rule_content at 1. cbn [fst snd]. rewrite raw_key_reads. unfold key_of at 1. cbn [fst].
  rewrite map_map. intros H. apply elem_of_map in H as (kv & E & Hkv). rewrite Forall_forall in He.
  destruct (He _ Hkv) as (v' & g' & d' & -> & _). unfold rule_content, key_of in E. cbn [fst snd] in E. rewrite raw_key_reads in E.
  cbn [fst] in E. injection E as <- <-. apply Hx. exact (list_elem_of_fmap_2 fst _ _ Hkv).
Qed.
Lemma flat_keys_NoDup o : NoDup o.*1 -> Forall rule_group o -> NoDup (map key_of (flat_contents (nested_json o))).
Proof.
  intros Hd Hs. induction Hs as [|[u i] o (_ & [Hi _] & He) Hs IH]; [apply NoDup_nil; done|].
  apply NoDup_cons in Hd as [Hx Hd]. unfold flat_contents, nested_json. cbn [map flat_map fst snd entries]. rewrite map_app.
  apply NoDup_app. split; [by apply inner_keys_NoDup|]. split; [|by apply IH].
  intros [[u1 v1] g1] H1 H2. apply elem_of_map in H1 as (c & E1 & Hc). apply elem_of_map in Hc as (kv & -> & Hkv).
  apply elem_of_map in H2 as (c & E2 & Hc). unfold rule_content in E1. cbn in E1. destruct (parseRawKey kv.1) as [v g].
  injection E1 as -> -> ->. apply list_elem_of_In, in_flat_map in Hc as ([u2 x] & Hx2 & Hc).
  rewrite <- list_elem_of_In, elem_of_map in Hx2. rewrite <- list_elem_of_In, elem_of_map in Hc.
  destruct Hx2 as ([u3 i3] & [= -> ->] & H3). destruct Hc as (kv2 & -> & _). unfold rule_content in E2. cbn in E2.
  destruct (parseRawKey kv2.1). injection E2 as -> _ _. apply Hx. exact (list_elem_of_fmap_2 fst _ _ H3).
Qed.

Lemma flatten_content o c : map content (flattenRules o c).1 = flat_contents o.
Proof.
  unfold flattenRules. cbn [fst]. generalize (flat_contents o). intros l. change (map content) with (fmap (M := list) content).
  apply list_eq. intros i. rewrite list_lookup_fmap, list_lookup_imap. destruct (l !! i) as [[[[u v] g] d]|]; done.
Qed.

(** ** The editor in use *)

Inductive reached (value0 : jsstr) (c0 : Z) : editor -> Prop :=
| reached_open e : open value0 c0 = Some e -> reached value0 c0 e
| reached_handle e ev : reached value0 c0 e -> offered ev e = true -> reached value0 c0 (handle ev e).1.

(** Hidden rules carry the word the server reads, and identifiers are distinct. *)
Definition hidden_ok (r : Rule) : Prop := visible r = false -> description r = "remove".
Definition editor_ok (e : editor) : Prop :=
  Forall hidden_ok (rules e) /\ NoDup (map _id (rules e)) /\ (0 <= counter e)%Z /\
  Forall (fun r => exists i, _id r = uid i /\ (1 <= i <= counter e)%Z) (rules e).

Lemma uid_inj i j : (0 <= i)%Z -> (0 <= j)%Z -> uid i = uid j -> i = j.
Proof. intros Hi Hj E. unfold uid in E. apply (app_inv_head ("gsu_" : jsstr)) in E. by apply digits_inj. Qed.
Lemma add_ok u v g d l c : (v = false -> d = "remove") -> editor_ok (Editor l c) ->
  editor_ok (Editor (l ++ [Rule_ (uid (c + 1)) u v g d]) (c + 1)).
Proof.
  intros Hh (H1 & H2 & H3 & H4). cbn in *. split; [|split; [|split]]; cbn [rules counter].
  - apply Forall_app. split; [done|]. by constructor.
  - rewrite map_app. cbn [map]. apply NoDup_app. split; [done|]. split; [|apply NoDup_singleton].
    intros x Hx Hy. apply list_elem_of_singleton in Hy as ->. apply elem_of_map in Hx as (r & E & Hr).
    rewrite Forall_forall in H4. destruct (H4 _ Hr) as (i & Ei & Hi). cbn in E. rewrite Ei in E. apply uid_inj in E; lia.
  - lia.
  - apply Forall_app. split.
    + eapply Forall_impl; [exact H4|]. intros r (i & E & Hi). exists i. split; [done|lia].
    + constructor; [|done]. exists (c + 1)%Z. split; [done|lia].
Qed.

Lemma built_ok (l : list (jsstr * bool * jsstr * jsstr)) c : (0 <= c)%Z -> Forall (fun x => x.1.1.2 = false -> x.2 = "remove") l ->
  editor_ok (Editor (imap (fun i x => with_id (uid (c + 1 + Z.of_nat i)) x) l) (c + Z.of_nat (length l))).
Proof.
  intros Hc. induction l as [|[[[u v] g] d] l IH] using rev_ind; intros H.
  - split; [done|]. split; [apply NoDup_nil; done|]. split; [cbn; lia|done].
  - apply Forall_app in H as [Hl [Hx _]%Forall_cons]. rewrite imap_app, length_app. cbn [imap length with_id]. rewrite Nat.add_0_r.
    replace (c + Z.of_nat (length l + 1))%Z with (c + Z.of_nat (length l) + 1)%Z by lia.
    replace (c + 1 + Z.of_nat (length l))%Z with (c + Z.of_nat (length l) + 1)%Z by lia. by apply add_ok; [|apply IH].
Qed.
Lemma flat_hidden o : Forall (fun x => x.1.1.2 = false -> x.2 = "remove") (flat_contents o).
Proof.
  apply Forall_forall. intros x Hx. apply list_elem_of_In, in_flat_map in Hx as (kv & _ & Hx).
  apply list_elem_of_In, elem_of_map in Hx as (y & -> & _). unfold rule_content. by destruct (parseRawKey y.1) as [[|] g].
Qed.
Lemma rules_open_ok value c e : (0 <= c)%Z -> open value c = Some e -> editor_ok e.
Proof.
  intros Hc H. unfold open in H. destruct (safeParseJson value) as [o|]; [|done]. injection H as <-. apply built_ok; [done|].
  apply flat_hidden.
Qed.

Lemma update_rule_id u r : _id (update_field u r) = _id r.
Proof. by destruct u as [[|]| |]. Qed.
Lemma update_hidden u r : match u with SetDescription _ => visible r = true | _ => True end -> hidden_ok r -> hidden_ok (update_field u r).
Proof. unfold hidden_ok. destruct u as [[|]|s|s]; intros H1 H2; cbn; [done..|congruence]. Qed.
Lemma filter_ok f e : editor_ok e -> editor_ok (Editor (List.filter f (rules e)) (counter e)).
Proof.
  intros (H1 & H2 & H3 & H4). split; [|split; [|split; [done|]]]; cbn [rules].
  - eapply sublist_Forall; [apply sublist_bfilter|done].
  - eapply sublist_NoDup; [exact H2|]. apply sublist_map, sublist_bfilter.
  - eapply sublist_Forall; [apply sublist_bfilter|done].
Qed.
Lemma rules_handle_ok ev e : offered ev e = true -> editor_ok e ->
  editor_ok (handle ev e).1 /\ (handle ev e).2 = serializeRules (rules (handle ev e).1).
Proof.
  intros Ho He. split; [|by destruct ev]. destruct ev as [id u|id|g|g]; [|by apply filter_ok..|].
  - destruct He as (H1 & H2 & H3 & H4). cbn [handle updateRule emitChange fst]. cbn in Ho. apply existsb_exists in Ho as (r0 & Hr0 & Ho).
    rewrite !andb_true_iff, str_eqb_true in Ho. destruct Ho as [[E0 _] Hu]. apply list_elem_of_In in Hr0.
    set (f := fun r => if str_eqb (_id r) id then update_field u r else r).
    assert (Hf : forall r, _id (f r) = _id r) by (intros r; unfold f; destruct (str_eqb _ id); [apply update_rule_id|done]).
    split; [|split; [|split; [done|]]]; cbn [rules counter].
    + apply Forall_fmap, Forall_forall. intros r Hr. rewrite Forall_forall in H1. unfold f. cbn. destruct (str_eqb (_id r) id) eqn:E; [|by apply H1].
      apply update_hidden; [|by apply H1]. destruct u; [done..|]. apply str_eqb_true in E.
      by rewrite (NoDup_map_inj _id (rules e) r r0 H2 Hr Hr0) by congruence.
    + rewrite map_map. by rewrite (map_ext _ _ Hf).
    + apply Forall_fmap. eapply Forall_impl; [exact H4|]. intros r Hr. cbn. by rewrite Hf.
  - cbn [handle addRuleToGroup emitChange fst]. apply add_ok; [done|by destruct e].
Qed.
Lemma rules_reached_ok value0 c0 e : (0 <= c0)%Z -> reached value0 c0 e -> editor_ok e.
Proof.
  intros Hc Hr. induction Hr as [e H|e ev Hr IH Ho]; [by eapply rules_open_ok|by apply rules_handle_ok].
Qed.

(** C24: the text of the rules can be opened again: whatever the user did, opening
    the text the editor wrote shows, once each, the rules that name both
    groups; of several rules that show the same group to the same group of
    users the last one, and of several that hide it the last one, while a
    rule that shows and one that hides it are both kept. *)
Theorem rules_reopen value0 c0 e c : (0 <= c0)%Z -> reached value0 c0 e ->
  exists e', open (serializeRules (rules e)) c = Some e' /\
  NoDup (map (fun r => (userGroup r, visible r, targetGroup r)) (rules e')) /\
  forall u v g d, (u, v, g, d) ∈ map content (rules e') <->
    u <> [] /\ g <> [] /\ exists r, last_rule u v g (rules e) = Some r /\ description r = d.
Proof.
  intros Hc Hr. destruct (rules_reached_ok _ _ _ Hc Hr) as (Hh & _). unfold open. rewrite serialize_reads. cbn [mbind option_bind].
  eexists. split; [reflexivity|]. cbn [rules].
  assert (E : map (fun r => (userGroup r, visible r, targetGroup r)) (flattenRules (nested_json (result_of (rules e))) c).1
              = map key_of (flat_contents (nested_json (result_of (rules e))))) by (by rewrite <- (flatten_content _ c), map_map).
  destruct (result_shape (rules e)) as [[Hd _] Hs]. rewrite E. split; [by apply flat_keys_NoDup|].
  intros u v g d. rewrite flatten_content, flat_elem. split.
  - intros (Hu & Hg & r & Hl & ->). split; [done|]. split; [done|]. exists r. split; [done|]. destruct v; [done|].
    apply last_Some_elem_of, elem_of_bfilter in Hl as [Hin Ha]. apply about_true in Ha as (_ & Hv & _).
    rewrite Forall_forall in Hh. by apply Hh.
  - intros (Hu & Hg & r & Hl & <-). split; [done|]. split; [done|]. exists r. split; [done|]. destruct v; [done|].
    apply last_Some_elem_of, elem_of_bfilter in Hl as [Hin Ha]. apply about_true in Ha as (_ & Hv & _).
    rewrite Forall_forall in Hh. by apply Hh.
Qed.

(** ** The screen *)

Lemma grouped_snoc l r : grouped (l ++ [r]) = group_rule (grouped l) r.
Proof. unfold grouped. by rewrite fold_left_app. Qed.
(** Every user group with rules is shown once, with exactly its rules in order. *)
Theorem grouped_exact l : NoDup (grouped l).*1 /\
  forall u, mget u (grouped l) =
    if truthy u then match List.filter (fun r => str_eqb (userGroup r) u) l with [] => None | items => Some items end else None.
Proof.
  induction l as [|r l [IH1 IH2]] using rev_ind; [split; [apply NoDup_nil; done|by intros u; destruct (truthy u)]|].
  rewrite grouped_snoc. unfold group_rule. destruct (truthy (userGroup r)) eqn:Er; cbn [negb].
  - split; [by apply mset_NoDup|]. intros u. rewrite bfilter_app. cbn [List.filter]. destruct (str_eqb (userGroup r) u) eqn:E.
    + apply str_eqb_true in E. subst u. rewrite Er, mget_mset_eq, IH2, Er.
      by destruct (List.filter _ l).
    + apply str_eqb_false in E. rewrite mget_mset_ne by done. by rewrite IH2, app_nil_r.
  - split; [done|]. intros u. rewrite bfilter_app. cbn [List.filter]. rewrite IH2. destruct (str_eqb (userGroup r) u) eqn:E.
    + apply str_eqb_true in E. subst u. by rewrite Er.
    + by rewrite app_nil_r.
Qed.

(** A user group that was added and has no complete rule yet is not in the text:
    reopening forgets it. *)
Theorem group_without_rule_forgotten e g : g <> [] -> rules e = [] ->
  grouped (rules (handle (AddRule g) e).1) <> [] /\ (handle (AddRule g) e).2 = "{}".
Proof.
  intros Hg He. cbn [handle addRuleToGroup emitChange fst snd rules]. rewrite He. apply truthy_true in Hg. split.
  - unfold grouped. cbn [app fold_left]. unfold group_rule. cbn [userGroup]. by rewrite Hg.
  - unfold serializeRules. cbn [app fold_left]. unfold serialize_rule. cbn [userGroup targetGroup]. by rewrite orb_true_r.
Qed.

Definition sample_text : jsstr := "{`vip`: {`+:beta`: `Early`, `-:default`: `remove`, `plain`: `P`}}".
Definition sample_editor : editor := default (Editor [] 0) (open sample_text 0).
Lemma rules_reopen_witness :
  exists e', open (serializeRules (rules sample_editor)) 7 = Some e' /\
  NoDup (map (fun r => (userGroup r, visible r, targetGroup r)) (rules e')) /\
  forall u v g d, (u, v, g, d) ∈ map content (rules e') <->
    u <> [] /\ g <> [] /\ exists r, last_rule u v g (rules sample_editor) = Some r /\ description r = d.
Proof. apply (rules_reopen sample_text 0 sample_editor 7); [lia|apply reached_open; vm_compute; reflexivity]. Defined.
End RuleTexts.
