(* ===== verification/SettingsSave.v ===== *)
(** Saving price options (src/web/src/features/system-settings/models/utils.ts and
    ratio-settings-card.tsx): module SettingsText has the functions on JSON
    texts, module RatioSaving saveGroupRatios and saveModelRatios as a state
    machine whose steps are the stretches of code between two requests, with
    the theorems in module Saving.

    Both functions have the same shape and differ in their keys, so they are
    one definition over a type of keys, with an instance for each. *)
From Stdlib Require Import Floats.SpecFloat.
From S2P Require Import Prelude JsNumber JsCollections Json JsonText.

Module SettingsText.
Definition formatJsonForTextarea (value : jsstr) : jsstr :=
  if negb (truthy value) || negb (truthy (trim value)) then []
  else match parse value with Some parsed => stringify_pretty parsed | None => value end.
Definition normalizeJsonString (value : jsstr) : jsstr :=
  let trimmed := trim value in
  if negb (truthy trimmed) then []
  else match parse trimmed with Some parsed => stringify parsed | None => trimmed end.

(** The type of the error, if any; positions in engine messages are left out. *)
Inductive JsonValidationError := required | structure | syntax.
Definition validateJsonString (value : jsstr) (allowEmpty : bool) (predicate : json -> bool) : option JsonValidationError :=
  let trimmed := trim value in
  if negb (truthy trimmed) then if allowEmpty then None else Some required
  else match parse trimmed with
       | Some parsed => if predicate parsed then None else Some structure
       | None => Some syntax
       end.
(** The predicate of AutoGroups: an array of strings. *)
Definition string_array (v : json) : bool :=
  match v with JArr l => forallb (fun x => match x with JStr _ => true | _ => false end) l | _ => false end.
End SettingsText.

(** A form value: text, number or switch. *)
Inductive SettingValue := VText (s : jsstr) | VNum (n : jsnum) | VBool (b : bool).
(** [a !== b] *)
Definition differs (a b : SettingValue) : bool :=
  match a, b with
  | VText s, VText s' => negb (str_eqb s s')
  | VNum n, VNum n' => negb (num_eqb n n')
  | VBool x, VBool y => negb (Bool.eqb x y)
  | _, _ => true
  end.

(** The keys of a form, in the order of the object literal that saving builds. *)
Class SettingKeys (Key : Type) := {
  all_keys : list Key;
  is_json : Key -> bool;
  apiKeyMap : Key -> jsstr }.

Module RatioSaving.
Import SettingsText.
Section Saving.
Context {Key : Type} `{SettingKeys Key}.
Definition Values : Type := Key -> SettingValue.

Definition normalize_value (k : Key) (v : SettingValue) : SettingValue :=
  match v with VText s => if is_json k then VText (normalizeJsonString s) else v | _ => v end.
Definition normalized (v : Values) : Values := fun k => normalize_value k (v k).
Definition format_value (k : Key) (v : SettingValue) : SettingValue :=
  match v with VText s => if is_json k then VText (formatJsonForTextarea s) else v | _ => v end.
Definition formatted (v : Values) : Values := fun k => format_value k (v k).

Definition updates (n defaults : Values) : list Key := List.filter (fun k => differs (n k) (defaults k)) all_keys.
Definition request : Type := jsstr * SettingValue.
Definition request_of (n : Values) (k : Key) : request := (apiKeyMap k, n k).

(** [groupNormalizedDefaults.current], and the loop at its await: the values it
    saves and the keys whose answer is not in, the current one first. *)
Record saver := Saver { defaults : Values; saving : option (Values * list Key) }.

(** saveGroupRatios up to its first await.  With nothing to save, saveModelRatios
    returns before the assignment, when both sides hold the same texts. *)
Definition start (values : Values) (s : saver) : saver * list request :=
  match saving s with
  | Some _ => (s, [])
  | None =>
      let n := normalized values in
      match updates n (defaults s) with
      | [] => (Saver n None, [])
      | k :: ks => (Saver (defaults s) (Some (n, k :: ks)), [request_of n k])
      end
  end.

(** How a request ends: the server accepts or refuses it, or it throws. *)
Inductive Answer := Accepted | Refused | Failed.
(** The loop from an answer to the next await: mutateAsync resolves to the
    server's answer, and only a request that throws ends the loop. *)
Definition answer (a : Answer) (s : saver) : saver * list request :=
  match saving s with
  | None | Some (_, []) => (s, [])
  | Some (n, _ :: ks) =>
      match a with
      | Failed => (Saver (defaults s) None, [])
      | Accepted | Refused =>
          match ks with
          | [] => (Saver n None, [])
          | k :: _ => (Saver (defaults s) (Some (n, ks)), [request_of n k])
          end
      end
  end.

(** The effect on new defaults: the form is reset to them. *)
Definition reload (d : Values) (s : saver) : saver * Values := (Saver (normalized d) (saving s), formatted d).

(** What can happen: the button, the answer awaited, new defaults. *)
Inductive event := Save (values : Values) | Answered (a : Answer) | Reloaded (d : Values).
Definition handle (e : event) (s : saver) : saver * list request :=
  match e with
  | Save values => start values s
  | Answered a => answer a s
  | Reloaded d => ((reload d s).1, [])
  end.
(** A run with the requests it sends. *)
Fixpoint run (es : list event) (s : saver) : saver * list request :=
  match es with
  | [] => (s, [])
  | e :: es => let '(s1, out) := handle e s in let '(s2, outs) := run es s1 in (s2, out ++ outs)
  end.
End Saving.
End RatioSaving.

(** The two forms. *)
Module RatioForms.
Inductive GroupKey :=
| GroupRatio | TopupGroupRatio | UserUsableGroups | GroupGroupRatio | AutoGroups | MaxTokenAutoGroups | DefaultUseAutoGroup
| GroupSpecialUsableGroup.
#[global] Instance GroupKey_eq : EqDecision GroupKey.
Proof. solve_decision. Defined.
Definition group_is_json (k : GroupKey) : bool := match k with MaxTokenAutoGroups | DefaultUseAutoGroup => false | _ => true end.
Definition group_api_key (k : GroupKey) : jsstr :=
  match k with
  | GroupRatio => "GroupRatio" | TopupGroupRatio => "TopupGroupRatio" | UserUsableGroups => "UserUsableGroups"
  | GroupGroupRatio => "GroupGroupRatio" | AutoGroups => "AutoGroups" | MaxTokenAutoGroups => "MaxTokenAutoGroups"
  | DefaultUseAutoGroup => "DefaultUseAutoGroup"
  | GroupSpecialUsableGroup => "group_ratio_setting.group_special_usable_group"
  end.
Definition group_keys : list GroupKey :=
  [GroupRatio; TopupGroupRatio; UserUsableGroups; GroupGroupRatio; AutoGroups; MaxTokenAutoGroups; DefaultUseAutoGroup;
   GroupSpecialUsableGroup].
#[global] Instance GroupKeys : SettingKeys GroupKey := {
  all_keys := group_keys; is_json := group_is_json; apiKeyMap := group_api_key }.

Inductive ModelKey :=
| ModelPrice | ModelRatio | CacheRatio | CreateCacheRatio | CompletionRatio | ImageRatio | AudioRatio | AudioCompletionRatio
| ExposeRatioEnabled | BillingMode | BillingExpr.
Definition model_is_json (k : ModelKey) : bool := match k with ExposeRatioEnabled => false | _ => true end.
Definition model_api_key (k : ModelKey) : jsstr :=
  match k with
  | ModelPrice => "ModelPrice" | ModelRatio => "ModelRatio" | CacheRatio => "CacheRatio" | CreateCacheRatio => "CreateCacheRatio"
  | CompletionRatio => "CompletionRatio" | ImageRatio => "ImageRatio" | AudioRatio => "AudioRatio"
  | AudioCompletionRatio => "AudioCompletionRatio" | ExposeRatioEnabled => "ExposeRatioEnabled"
  | BillingMode => "billing_setting.billing_mode" | BillingExpr => "billing_setting.billing_expr"
  end.
Definition model_keys : list ModelKey :=
  [ModelPrice; ModelRatio; CacheRatio; CreateCacheRatio; CompletionRatio; ImageRatio; AudioRatio; AudioCompletionRatio;
   ExposeRatioEnabled; BillingMode; BillingExpr].
#[global] Instance ModelKeys : SettingKeys ModelKey := {
  all_keys := model_keys; is_json := model_is_json; apiKeyMap := model_api_key }.
End RatioForms.

Module Saving.
Import SettingsText RatioSaving.

(** ** Texts *)

(** The text an editor wrote is sent in compact form, and shown again as it was. *)
Lemma normalize_pretty v : printable v -> truthy (trim (stringify_pretty v)) = true -> trim (stringify_pretty v) = stringify_pretty v ->
  normalizeJsonString (stringify_pretty v) = stringify v.
Proof. intros Hv Hb Ht. unfold normalizeJsonString. rewrite Hb. cbn [negb]. by rewrite Ht, (parse_pretty v Hv). Qed.
Lemma compact_object o : sound o -> normalizeJsonString (stringify_pretty (JObj o)) = stringify (JObj o).
Proof. intros Ho. apply normalize_pretty; [by apply sound_printable|by rewrite trim_pretty_object|apply trim_pretty_object]. Qed.
Lemma format_compact v : printable v -> truthy (stringify v) = true -> formatJsonForTextarea (stringify v) = stringify_pretty v.
Proof.
  intros Hv Hb. unfold formatJsonForTextarea. rewrite (trim_stringify v Hv), Hb. cbn [negb orb]. by rewrite (parse_compact v Hv).
Qed.
Lemma object_survives o : sound o ->
  formatJsonForTextarea (normalizeJsonString (stringify_pretty (JObj o))) = stringify_pretty (JObj o).
Proof. intros Ho. rewrite compact_object by done. apply format_compact; [by apply sound_printable|done]. Qed.

(** ** The loop *)

Section Loop.
Context {Key : Type} `{SettingKeys Key}.
Implicit Types (s : saver (Key := Key)) (n v : Values (Key := Key)).

Definition not_failed (e : event (Key := Key)) : Prop := e <> Answered Failed.
Definition answers (es : list (event (Key := Key))) : nat := length (List.filter (fun e => match e with Answered _ => true | _ => false end) es).

Lemma run_app es es' s : run (es ++ es') s = let r := run es s in let r' := run es' r.1 in (r'.1, r.2 ++ r'.2).
Proof.
  revert s. induction es as [|e es IH]; intros s; [cbn; by destruct (run es' s)|]. cbn [app run].
  destruct (handle e s) as [s1 out]. rewrite IH. destruct (run es s1) as [s2 outs]. cbn. by rewrite app_assoc.
Qed.

Lemma progress n ks es s : saving s = Some (n, ks) -> Forall not_failed es -> answers es < length ks ->
  saving (run es s).1 = Some (n, drop (answers es) ks) /\ (run es s).2 = map (request_of n) (take (answers es) (tail ks)).
Proof.
  revert s ks. induction es as [|e es IH]; intros s ks Hs Hf Ha; [by rewrite drop_0|].
  apply Forall_cons in Hf as [He Hf]. cbn [run]. unfold answers in *. cbn [List.filter] in *. destruct e as [v|a|d].
  - cbn [handle]. unfold start. rewrite Hs. specialize (IH s ks Hs Hf Ha). destruct (run es s) as [s2 outs]. exact IH.
  - cbn [length] in *. destruct ks as [|k [|k' ks]]; [cbn in Ha; lia|cbn in Ha; lia|]. cbn [handle]. unfold answer. rewrite Hs.
    destruct a; [| |by destruct He]; cbn [length] in *;
      specialize (IH (Saver (defaults s) (Some (n, k' :: ks))) (k' :: ks) eq_refl Hf ltac:(cbn [length]; lia));
      destruct (run es _) as [s2 outs]; cbn [fst snd tail take drop map app] in *; destruct IH as [-> ->]; done.
  - cbn [handle]. specialize (IH (reload d s).1 ks Hs Hf Ha). destruct (run es (reload d s).1) as [s2 outs]. exact IH.
Qed.

Lemma start_some v s : saving s = None -> updates (normalized v) (defaults s) <> [] ->
  saving (start v s).1 = Some (normalized v, updates (normalized v) (defaults s)) /\
  (start v s).2 = map (request_of (normalized v)) (take 1 (updates (normalized v) (defaults s))).
Proof. intros Hs Hu. unfold start. rewrite Hs. cbn zeta. by destruct (updates _ _). Qed.

Lemma run_cons e es s : run (e :: es) s = ((run es (handle e s).1).1, (handle e s).2 ++ (run es (handle e s).1).2).
Proof. cbn [run]. destruct (handle e s) as [s1 out]. cbn [fst snd]. by destruct (run es s1). Qed.
Lemma all_answered n ks s a : a <> Failed -> saving s = Some (n, ks) -> ks <> [] ->
  run (replicate (length ks) (Answered a)) s = (Saver n None, map (request_of n) (tail ks)).
Proof.
  intros Ha. revert s. induction ks as [|k [|k' ks] IH]; intros s Hs Hk; [done|cbn; unfold answer; rewrite Hs; by destruct a|].
  change (replicate (length (k :: k' :: ks)) ?e) with (e :: replicate (length (k' :: ks)) e). rewrite run_cons.
  cbn [handle]. unfold answer. rewrite Hs. destruct a; [| |done]; cbn [fst snd]; by rewrite IH.
Qed.
Lemma all_accepted v s a : a <> Failed -> saving s = None -> let n := normalized v in let us := updates n (defaults s) in
  run (Save v :: replicate (length us) (Answered a)) s = (Saver n None, map (request_of n) us).
Proof.
  intros Ha Hs n us. rewrite run_cons. cbn [handle]. unfold start. rewrite Hs. cbn zeta. fold n. fold us.
  destruct us as [|k ks]; [done|]. cbn [fst snd]. by rewrite (all_answered n (k :: ks) _ a).
Qed.

(** A value the server refused counts as saved: saving again sends nothing. *)
Theorem refused_not_retried v s : saving s = None -> (forall k, differs (normalized v k) (normalized v k) = false) ->
  let us := updates (normalized v) (defaults s) in
  run (Save v :: replicate (length us) (Answered Refused) ++ [Save v]) s = (Saver (normalized v) None, map (request_of (normalized v)) us).
Proof.
  intros Hs Hd us. pose proof (all_accepted v s Refused ltac:(done) Hs) as E. cbn zeta in E. fold us in E.
  change (Save v :: ?l ++ [Save v]) with ((Save v :: l) ++ [Save v]). rewrite run_app. cbn zeta. rewrite E. cbn [fst snd run handle]. unfold start. cbn [saving defaults].
  assert (E0 : updates (normalized v) (normalized v) = []) by (apply bfilter_none; intros k _; apply Hd). rewrite E0. cbn. by rewrite app_nil_r.
Qed.

(** C25: saving sends exactly the values that changed, each once and in order,
    whatever the user clicks and whatever is reloaded meanwhile, and ends with the
    saved values as the new defaults; when a request throws, exactly the requests
    up to it were sent and the defaults are not moved. *)
Theorem requests_exact v s es a : saving s = None -> Forall not_failed es ->
  let n := normalized v in let us := updates n (defaults s) in
  answers es < length us ->
  let r := run (Save v :: es ++ [Answered a]) s in
  match a with
  | Failed => saving r.1 = None /\ r.2 = map (request_of n) (take (S (answers es)) us) /\ defaults r.1 = defaults (run (Save v :: es) s).1
  | _ => r.2 = map (request_of n) (take (S (S (answers es))) us) /\
         (S (answers es) = length us -> r.1 = Saver n None)
  end.
Proof.
  intros Hs Hf n us Ha r. assert (Hu : us <> []) by (intros E; rewrite E in Ha; cbn in Ha; lia).
  destruct (start_some v s Hs Hu) as [H1 H2]. fold n in H1, H2. fold us in H1, H2. unfold r.
  change (Save v :: es ++ [Answered a]) with ((Save v :: es) ++ [Answered a]). rewrite run_app. cbn zeta.
  cbn [run handle]. destruct (start v s) as [s1 out]. cbn [fst snd] in *.
  destruct (progress n us es s1 H1 Hf Ha) as [P1 P2]. destruct (run es s1) as [s2 outs]. cbn [fst snd] in *. subst out outs.
  unfold answer. rewrite P1. assert (Hd : exists k ks, drop (answers es) us = k :: ks /\ length ks = length us - S (answers es)).
  { destruct (drop (answers es) us) as [|k ks] eqn:E; [apply (f_equal length) in E; rewrite length_drop in E; cbn in E; lia|].
    exists k, ks. split; [done|]. apply (f_equal length) in E. rewrite length_drop in E. cbn in E. lia. }
  destruct Hd as (k & ks & Ed & Hk). rewrite Ed. destruct us as [|u us']; [done|].
  assert (Ep : map (request_of n) (take 1 (u :: us')) ++ map (request_of n) (take (answers es) (tail (u :: us'))) =
               map (request_of n) (take (S (answers es)) (u :: us'))) by done.
  assert (Et : take (S (S (answers es))) (u :: us') = take (S (answers es)) (u :: us') ++ take 1 ks).
  { replace ks with (drop (S (answers es)) (u :: us')); [|by rewrite <- Nat.add_1_r, <- drop_drop, Ed].
    by rewrite take_take_drop, Nat.add_1_r. }
  destruct a; cbn [fst snd].
  1, 2: rewrite Et, map_app, <- Ep; destruct ks as [|k' ks]; (split; [by rewrite <- !app_assoc|]); intros E; [done|cbn in *; lia].
  split; [done|]. by rewrite app_nil_r, Ep.
Qed.
End Loop.

(** ** A save in progress *)

Import RatioForms.
Definition empty_values : Values (Key := GroupKey) := fun k =>
  match k with MaxTokenAutoGroups => VNum (num 5) | DefaultUseAutoGroup => VBool false | AutoGroups => VText "[]" | _ => VText "{}" end.
Definition typed_values : Values (Key := GroupKey) := fun k =>
  match k with GroupRatio => VText "{ `vip`: 0.5 }" | TopupGroupRatio => VText "{ `vip`: 2 }" | UserUsableGroups => VText " {} "
  | _ => empty_values k end.
Definition idle : saver (Key := GroupKey) := Saver empty_values None.
Lemma requests_exact_witness :
  let r := run [Save typed_values; Answered Refused; Answered Accepted] idle in
  r.2 = map (request_of (normalized typed_values)) (take 3 (updates (normalized typed_values) empty_values)) /\
  (2 = length (updates (normalized typed_values) empty_values) -> r.1 = Saver (normalized typed_values) None).
Proof.
  apply (requests_exact typed_values idle [Answered Refused] Accepted).
  - reflexivity.
  - constructor; [discriminate|constructor].
  - vm_compute. constructor.
Defined.
End Saving.
