(* ===== verification/GroupForm.v ===== *)
(** The form of group prices
    (src/web/src/features/system-settings/models/group-ratio-form.tsx with the
    schema and the effects of ratio-settings-card.tsx): the visual editors of
    [GroupPricing] and [GroupRules] and the text fields edit one set of values,
    which [SettingsSave] saves.  Module GroupScreen has the state machine,
    module GroupSaving the theorems on its parts together.

    A step is an event with the rendering and the effects it causes; [None]
    means that a component throws, or meets JSON that the models of the parts
    do not follow.  The test for a positive integer of the validation library
    is a parameter. *)
From Stdlib Require Import Floats.SpecFloat.
From S2P Require Import Prelude JsNumber JsCollections Json JsonText Pricing GroupPricing GroupPricingProofs GroupRules SettingsSave.

Module GroupScreen.
Import SettingsText RatioSaving RatioForms.
Definition FormValues : Type := Values (Key := GroupKey).
Definition text_of (v : FormValues) (k : GroupKey) : jsstr := match v k with VText s => s | _ => [] end.
(** form.setValue *)
Definition setValue (k : GroupKey) (x : SettingValue) (v : FormValues) : FormValues := fun k' => if decide (k' = k) then x else v k'.
Definition table_texts (v : FormValues) : GroupTable.GroupTexts :=
  GroupTable.Texts (text_of v GroupRatio) (text_of v UserUsableGroups) (text_of v TopupGroupRatio).
(** The three calls of onChange in emitRows. *)
Definition set_table_texts (t : GroupTable.GroupTexts) (v : FormValues) : FormValues :=
  setValue TopupGroupRatio (VText (GroupTable.TopupGroupRatio t))
    (setValue UserUsableGroups (VText (GroupTable.UserUsableGroups t))
       (setValue GroupRatio (VText (GroupTable.GroupRatio t)) v)).
(** The names offered by the selects of the special rules. *)
Definition groupNames (v : FormValues) : option (list jsstr) := GroupTable.group_names <$> GroupTable.parse_texts (table_texts v).

(** The visual editors with their own state. *)
Record editors := Editors { table : GroupTable.table; overrides : GroupOverrides.section; rules : SpecialRules.editor }.
(** [visual] is absent in the JSON mode; the counters of the modules outlive the
    editors. *)
Record screen := Screen {
  vals : FormValues; visual : option editors; row_counter : Z; rule_counter : Z; form_saver : saver (Key := GroupKey) }.

Section Screen.
Context (positive_integer : jsnum -> bool).

(** The schema of createGroupSchema. *)
Definition field_valid (k : GroupKey) (x : SettingValue) : bool :=
  match k, x with
  | AutoGroups, VText s => if validateJsonString s true string_array is Some _ then false else true
  | MaxTokenAutoGroups, VNum n => positive_integer n
  | DefaultUseAutoGroup, VBool _ => true
  | (MaxTokenAutoGroups | DefaultUseAutoGroup), _ => false
  | _, VText s => if validateJsonString s true (fun _ => true) is Some _ then false else true
  | _, _ => false
  end.
Definition groupSchema (v : FormValues) : bool := forallb (fun k => field_valid k (v k)) group_keys.

(** The visual editors on the first rendering. *)
Definition mount_editors (v : FormValues) (rowc rulec : Z) : option editors :=
  t ← GroupTable.mount (table_texts v) rowc;
  r ← SpecialRules.open (text_of v GroupSpecialUsableGroup) rulec;
  Some (Editors t GroupOverrides.initial_section r).
Definition with_editors (v : FormValues) (e : editors) (s : screen) : screen :=
  Screen v (Some e) (GroupTable.counter (table e)) (SpecialRules.counter (rules e)) (form_saver s).
Definition open_screen (d : FormValues) (rowc rulec : Z) : option screen :=
  let s := Screen (formatted d) None rowc rulec (Saver (normalized d) None) in
  e ← mount_editors (vals s) rowc rulec; Some (with_editors (vals s) e s).
(** New values reach the editors: only the table of groups follows them. *)
Definition set_values (v : FormValues) (s : screen) : option screen :=
  match visual s with
  | None => Some (Screen v None (row_counter s) (rule_counter s) (form_saver s))
  | Some e => t ← GroupTable.texts_effect (table_texts v) (table e);
              Some (with_editors v (Editors t (overrides e) (rules e)) s)
  end.
Definition toggleEditMode (s : screen) : option screen :=
  match visual s with
  | Some _ => Some (Screen (vals s) None (row_counter s) (rule_counter s) (form_saver s))
  | None => e ← mount_editors (vals s) (row_counter s) (rule_counter s); Some (with_editors (vals s) e s)
  end.
Definition with_saver (v : saver (Key := GroupKey)) (s : screen) : screen :=
  Screen (vals s) (visual s) (row_counter s) (rule_counter s) v.

Inductive event :=
| EditTable (e : GroupTable.event) | EditOverrides (e : GroupOverrides.event) | EditAuto (e : AutoGroups.event)
| EditRules (e : SpecialRules.event) | TypeMaximum (valueAsNumber : jsnum) | SetDefault (b : bool) | Toggle
| TypeText (k : GroupKey) (value : jsstr) | SaveClicked | Answered (a : Answer) | Reloaded (d : FormValues).

Definition edit_table (ev : GroupTable.event) (e : editors) (s : screen) : option screen :=
  let '(t, texts) := GroupTable.handle ev (table e) in
  set_values (set_table_texts texts (vals s)) (with_editors (vals s) (Editors t (overrides e) (rules e)) s).
Definition edit_overrides (ev : GroupOverrides.event) (e : editors) (s : screen) : option screen :=
  r ← GroupOverrides.handle ev (overrides e) (text_of (vals s) GroupGroupRatio);
  let v := match r.2 with Some text => setValue GroupGroupRatio (VText text) (vals s) | None => vals s end in
  Some (with_editors v (Editors (table e) r.1 (rules e)) s).
Definition edit_auto (ev : AutoGroups.event) (e : editors) (s : screen) : option screen :=
  l ← AutoGroups.autoGroupsList (text_of (vals s) AutoGroups);
  Some (with_editors (match AutoGroups.handle ev l with
                      | Some l' => setValue AutoGroups (VText (AutoGroups.print_groups l')) (vals s)
                      | None => vals s
                      end) e s).
Definition edit_rules (ev : SpecialRules.event) (e : editors) (s : screen) : option screen :=
  let '(r, text) := SpecialRules.handle ev (rules e) in
  Some (with_editors (setValue GroupSpecialUsableGroup (VText text) (vals s)) (Editors (table e) (overrides e) r) s).

(** Events of the visual editors do nothing in the JSON mode, and typing nothing
    beside it. *)
Definition on_editors (f : editors -> screen -> option screen) (s : screen) : option (screen * list request) :=
  match visual s with Some e => s' ← f e s; Some (s', []) | None => Some (s, []) end.
Definition step (ev : event) (s : screen) : option (screen * list request) :=
  match ev with
  | EditTable e => on_editors (edit_table e) s
  | EditOverrides e => on_editors (edit_overrides e) s
  | EditAuto e => on_editors (edit_auto e) s
  | EditRules e => on_editors (edit_rules e) s
  | TypeMaximum n =>
      if is_finite n then s' ← set_values (setValue MaxTokenAutoGroups (VNum n) (vals s)) s; Some (s', []) else Some (s, [])
  | SetDefault b => s' ← set_values (setValue DefaultUseAutoGroup (VBool b) (vals s)) s; Some (s', [])
  | Toggle => s' ← toggleEditMode s; Some (s', [])
  | TypeText k value =>
      match visual s with
      | None => if group_is_json k then s' ← set_values (setValue k (VText value) (vals s)) s; Some (s', []) else Some (s, [])
      | Some _ => Some (s, [])
      end
  | SaveClicked =>
      if groupSchema (vals s) then let r := start (vals s) (form_saver s) in Some (with_saver r.1 s, r.2) else Some (s, [])
  | Answered a => let r := answer a (form_saver s) in Some (with_saver r.1 s, r.2)
  | Reloaded d => let r := reload d (form_saver s) in s' ← set_values r.2 (with_saver r.1 s); Some (s', [])
  end.
Fixpoint run (es : list event) (s : screen) : option (screen * list request) :=
  match es with
  | [] => Some (s, [])
  | e :: es => r ← step e s; q ← run es r.1; Some (q.1, r.2 ++ q.2)
  end.
End Screen.
End GroupScreen.

Module GroupSaving.
Import SettingsText RatioSaving RatioForms GroupScreen.
Import GroupPrices.

(** ** The screen in use *)

Section Use.
Context (positive_integer : jsnum -> bool).

(** The numbers of the table print back. *)
Definition prints (s : screen) : Prop := match visual s with Some e => Forall row_prints (GroupTable.rows (table e)) | None => True end.
Inductive reached (d : FormValues) (rowc rulec : Z) : screen -> Prop :=
| reached_open s : open_screen d rowc rulec = Some s -> prints s -> reached d rowc rulec s
| reached_step s ev s' out : reached d rowc rulec s -> step positive_integer ev s = Some (s', out) -> prints s' -> reached d rowc rulec s'.

(** The table follows the values; its counter and that of the module agree. *)
Definition screen_ok (s : screen) : Prop :=
  (0 <= row_counter s)%Z /\
  match visual s with
  | Some e => ids_ok (GroupTable.rows (table e)) (GroupTable.counter (table e)) /\
              row_counter s = GroupTable.counter (table e) /\ GroupTable.seen (table e) = Some (table_texts (vals s))
  | None => True
  end.

Lemma effect_ok texts t t' : (0 <= GroupTable.counter t)%Z -> ids_ok (GroupTable.rows t) (GroupTable.counter t) ->
  GroupTable.texts_effect texts t = Some t' ->
  (0 <= GroupTable.counter t')%Z /\ ids_ok (GroupTable.rows t') (GroupTable.counter t') /\ GroupTable.seen t' = Some texts.
Proof.
  intros Hc Hi H. unfold GroupTable.texts_effect in H. destruct (decide _) as [E|_]; [by injection H as <-|].
  destruct (GroupTable.sourceGroupPricingSignature texts) as [x|]; [|done]. cbn [mbind option_bind] in H.
  destruct (GroupTable.groupPricingSignature _) as [y|]; [|done]. cbn [mbind option_bind] in H. destruct (str_eqb y x).
  - by injection H as <-.
  - destruct (GroupTable.buildGroupPricingRows texts _) as [r|] eqn:E; [|done]. injection H as <-. cbn.
    by destruct (build_ids _ _ _ Hc E).
Qed.
Lemma mount_table_ok texts c t : (0 <= c)%Z -> GroupTable.mount texts c = Some t ->
  (0 <= GroupTable.counter t)%Z /\ ids_ok (GroupTable.rows t) (GroupTable.counter t) /\ GroupTable.seen t = Some texts.
Proof.
  unfold GroupTable.mount. intros Hc H. destruct (GroupTable.buildGroupPricingRows texts c) as [r|] eqn:E; [|done].
  destruct (build_ids _ _ _ Hc E) as [Hi Hr]. by apply (effect_ok texts (GroupTable.Table r.1 r.2 None)).
Qed.
Lemma set_values_ok v s s' : screen_ok s -> set_values v s = Some s' -> screen_ok s' /\ vals s' = v /\ form_saver s' = form_saver s.
Proof.
  intros [Hc Hs] H. unfold set_values in H. destruct (visual s) as [e|] eqn:Ev; [|by injection H as <-].
  destruct Hs as (Hi & Ec & _). destruct (GroupTable.texts_effect _ _) as [t|] eqn:Et; [|done]. injection H as <-.
  apply effect_ok in Et as (H1 & H2 & H3); [|lia|done]. by split.
Qed.
Lemma handle_ids ev t : (0 <= GroupTable.counter t)%Z -> ids_ok (GroupTable.rows t) (GroupTable.counter t) ->
  let t1 := (GroupTable.handle ev t).1 in
  (0 <= GroupTable.counter t1)%Z /\ ids_ok (GroupTable.rows t1) (GroupTable.counter t1).
Proof.
  intros Hc Hi. destruct ev as [id u| |id]; cbn.
  - split; [done|]. apply ids_update; [|done]. intros r. destruct (str_eqb (GroupTable._id r) id); [apply update_row_id|done].
  - split; [lia|]. by apply ids_snoc.
  - split; [done|]. by apply ids_filter.
Qed.
Lemma table_texts_other k x v : group_is_json k && negb (has k [GroupRatio; UserUsableGroups; TopupGroupRatio]) = true \/ group_is_json k = false ->
  table_texts (setValue k x v) = table_texts v.
Proof. by destruct k; intros [H|H]. Qed.
Lemma table_texts_set t v : table_texts (set_table_texts t v) = t.
Proof. by destruct t. Qed.

Lemma screen_step_ok ev s s' out : screen_ok s -> step positive_integer ev s = Some (s', out) -> screen_ok s'.
Proof.
  intros Hs H. destruct ev as [e|e|e|e|n|b| |k x| |a|d]; cbn [step] in H.
  1, 2, 3, 4: unfold on_editors in H; destruct (visual s) as [ed|] eqn:Ev; [|by injection H as <- _].
  - unfold edit_table in H. pose proof Hs as [Hc Ht]. rewrite Ev in Ht. destruct Ht as (Hi & Ec & Hseen).
    destruct (handle_ids e (table ed)) as [H1 H2]; [lia|done|]. destruct (GroupTable.handle e (table ed)) as [t texts]. cbn [fst] in *.
    unfold set_values in H. cbn [with_editors visual table overrides rules] in H. rewrite table_texts_set in H.
    destruct (GroupTable.texts_effect texts t) as [t'|] eqn:Et; [|done]. injection H as <- _.
    apply effect_ok in Et as (E1 & E2 & E3); [|done..]. split; [done|]. cbn. by rewrite table_texts_set.
  - unfold edit_overrides in H. destruct (GroupOverrides.handle _ _ _) as [[sec o]|]; [|done]. injection H as <- _.
    destruct Hs as [Hc Ht]. rewrite Ev in Ht. destruct Ht as (Hi & Ec & Hseen). rewrite Ec in Hc. split; [done|]. cbn.
    split; [done|]. split; [done|]. destruct o; [|done]. by rewrite table_texts_other by (by left).
  - unfold edit_auto in H. destruct (AutoGroups.autoGroupsList _) as [l|]; [|done]. injection H as <- _.
    destruct Hs as [Hc Ht]. rewrite Ev in Ht. destruct Ht as (Hi & Ec & Hseen). rewrite Ec in Hc. split; [done|]. cbn.
    split; [done|]. split; [done|]. destruct (AutoGroups.handle e l); [|done]. by rewrite table_texts_other by (by left).
  - unfold edit_rules in H. destruct (SpecialRules.handle e (rules ed)) as [r text]. injection H as <- _.
    destruct Hs as [Hc Ht]. rewrite Ev in Ht. destruct Ht as (Hi & Ec & Hseen). rewrite Ec in Hc. split; [done|]. cbn.
    split; [done|]. split; [done|]. by rewrite table_texts_other by (by left).
  - destruct (is_finite n); [|by injection H as <- _]. destruct (set_values _ s) as [s1|] eqn:E; [|done]. injection H as <- _.
    by apply set_values_ok in E as (H1 & _).
  - destruct (set_values _ s) as [s1|] eqn:E; [|done]. injection H as <- _. by apply set_values_ok in E as (H1 & _).
  - unfold toggleEditMode in H. destruct Hs as [Hc Ht]. destruct (visual s) as [ed|] eqn:Ev; [by injection H as <- _|].
    destruct (mount_editors (vals s) (row_counter s) (rule_counter s)) as [ed|] eqn:Em; [|done]. injection H as <- _.
    unfold mount_editors in Em. destruct (GroupTable.mount _ _) as [t|] eqn:Et; [|done]. cbn [mbind option_bind] in Em.
    destruct (SpecialRules.open _ _) as [r|]; [|done]. injection Em as <-. by apply mount_table_ok in Et as (H1 & H2 & H3).
  - destruct (visual s) as [ed|] eqn:Ev; [by injection H as <- _|]. destruct (group_is_json k); [|by injection H as <- _].
    destruct (set_values _ s) as [s1|] eqn:E; [|done]. injection H as <- _. by apply set_values_ok in E as (H1 & _).
  - destruct (groupSchema _ _); by injection H as <- _.
  - by injection H as <- _.
  - destruct (set_values _ _) as [s1|] eqn:E; [|done]. injection H as <- _. by apply set_values_ok in E as (H1 & _).
Qed.

Lemma screen_open_ok d rowc rulec s : (0 <= rowc)%Z -> open_screen d rowc rulec = Some s -> screen_ok s.
Proof.
  intros Hc H. unfold open_screen in H. destruct (mount_editors _ _ _) as [e|] eqn:Em; [|done]. injection H as <-.
  unfold mount_editors in Em. destruct (GroupTable.mount _ _) as [t|] eqn:Et; [|done]. cbn [mbind option_bind] in Em.
  destruct (SpecialRules.open _ _) as [r|]; [|done]. injection Em as <-. by apply mount_table_ok in Et as (H1 & H2 & H3).
Qed.
Lemma screen_reached_ok d rowc rulec s : (0 <= rowc)%Z -> reached d rowc rulec s -> screen_ok s /\ prints s.
Proof.
  intros Hc Hr. induction Hr as [s H Hp|s ev s' out Hr [IH _] Hs Hp]; (split; [|done]); [by eapply screen_open_ok|by eapply screen_step_ok].
Qed.

(** An edit of the table: the rows it made are the rows on the screen, and the
    texts of the form are theirs. *)
Lemma edited_table s e ev : screen_ok s -> prints s -> visual s = Some e -> event_prints ev ->
  exists s' t', step positive_integer (EditTable ev) s = Some (s', []) /\ visual s' = Some (Editors t' (overrides e) (rules e)) /\
  GroupTable.rows t' = GroupTable.rows (GroupTable.handle ev (table e)).1 /\ Forall row_prints (GroupTable.rows t') /\
  table_texts (vals s') = GroupTable.serializeGroupPricingRows (GroupTable.rows t') /\ form_saver s' = form_saver s.
Proof.
  intros [Hc Hs] Hp Hv He. unfold prints in Hp. rewrite Hv in Hs, Hp. destruct Hs as (Hi & Ec & Hseen).
  destruct (table_handle_ok ev (table e) (table_texts (vals s)) He) as (Et & _ & _ & _ & Hrows); [split; [done|split; [lia|done]]|].
  cbn [step]. unfold on_editors. rewrite Hv. unfold edit_table. destruct (GroupTable.handle ev (table e)) as [t1 tx]. cbn [fst snd] in *. subst tx.
  unfold set_values. cbn [with_editors visual table overrides rules]. rewrite table_texts_set, (effect_keeps t1 Hrows).
  cbn [mbind option_bind]. eexists _, _. split; [reflexivity|]. split; [reflexivity|]. split; [done|]. split; [done|]. split; [|done].
  cbn [with_editors vals]. by rewrite table_texts_set.
Qed.

(** ** What the server holds *)

(** The values of a server that carries out the requests. *)
Definition served (reqs : list request) (server : FormValues) : FormValues :=
  fun k => fold_left (fun v r => if str_eqb r.1 (group_api_key k) then r.2 else v) reqs (server k).

Lemma api_key_inj k k' : group_api_key k = group_api_key k' -> k = k'.
Proof. by destruct k, k'. Qed.
Lemma served_snoc l r server k : served (l ++ [r]) server k = if str_eqb r.1 (group_api_key k) then r.2 else served l server k.
Proof. unfold served. by rewrite fold_left_app. Qed.
Lemma served_updates (n server : FormValues) ks k :
  served (map (request_of n) ks) server k = if decide (k ∈ ks) then n k else server k.
Proof.
  induction ks as [|k' ks IH] using rev_ind; [done|]. rewrite map_app. change (map (request_of n) [k']) with [(group_api_key k', n k')].
  rewrite served_snoc, IH. cbn [fst snd].
  destruct (str_eqb (group_api_key k') (group_api_key k)) eqn:E.
  - apply str_eqb_true, api_key_inj in E as ->. rewrite decide_True; [done|]. apply elem_of_app. right. by left.
  - assert (Hk : k' <> k) by (intros ->; by rewrite str_eqb_refl in E). destruct (decide (k ∈ ks)) as [H|H].
    + rewrite decide_True; [done|]. apply elem_of_app. by left.
    + rewrite decide_False; [done|]. rewrite elem_of_app, list_elem_of_singleton. naive_solver.
Qed.
Lemma all_keys_in k : k ∈ group_keys.
Proof. destruct k; apply (bool_decide_unpack _); vm_compute; exact I. Qed.
(** Once every request is carried out, the server holds each text of the form. *)
Lemma served_text (v server : FormValues) (defaults : FormValues) k s :
  (forall k, normalize_value k (server k) = defaults k) -> normalized v k = VText s -> normalize_value k (VText s) = VText s ->
  normalized (served (map (request_of (normalized v)) (updates (normalized v) defaults)) server) k = VText s.
Proof.
  intros Hd Hn Hs. unfold normalized at 1. rewrite served_updates. destruct (decide _) as [_|H]; [by rewrite Hn|].
  rewrite Hd. unfold updates in H. rewrite elem_of_bfilter in H. destruct (differs (normalized v k) (defaults k)) eqn:E.
  - exfalso. apply H. split; [apply all_keys_in|done].
  - rewrite Hn in E. destruct (defaults k); try done. cbn in E. apply negb_false_iff, str_eqb_true in E. by rewrite E.
Qed.
Lemma record_of_compact o : sound o -> Snapshots.record_of (stringify (JObj o)) = Some o.
Proof.
  intros Ho. unfold Snapshots.record_of, Snapshots.safeJsonParse.
  rewrite (trim_stringify _ (sound_printable _ Ho)), (parse_compact _ (sound_printable _ Ho)). done.
Qed.
Lemma normalize_compact o : sound o -> normalizeJsonString (stringify (JObj o)) = stringify (JObj o).
Proof.
  intros Ho. unfold normalizeJsonString. by rewrite (trim_stringify _ (sound_printable _ Ho)), (parse_compact _ (sound_printable _ Ho)).
Qed.

Lemma run_saving ans s : run positive_integer (map Answered ans) s =
  let r := RatioSaving.run (map RatioSaving.Answered ans) (form_saver s) in Some (with_saver r.1 s, r.2).
Proof.
  revert s. induction ans as [|a ans IH]; intros s; [by destruct s|]. cbn [map run step mbind option_bind fst snd].
  rewrite IH. cbn [with_saver form_saver]. rewrite Saving.run_cons. by destruct s.
Qed.

Lemma text_of_some v k s : text_of v k = s -> s <> [] -> v k = VText s.
Proof. unfold text_of. by destruct (v k); intros <-. Qed.
(** A text of the form that an editor printed, once saved. *)
Lemma served_object (v server defaults : FormValues) k o : sound o -> group_is_json k = true ->
  (forall k, normalize_value k (server k) = defaults k) -> text_of v k = stringify_pretty (JObj o) ->
  text_of (normalized (served (map (request_of (normalized v)) (updates (normalized v) defaults)) server)) k = stringify (JObj o).
Proof.
  intros Ho Hk Hd Hv. apply text_of_some in Hv; [|done].
  assert (Hn : normalized v k = VText (stringify (JObj o))).
  { unfold normalized, normalize_value. rewrite Hv. cbn [is_json GroupKeys]. by rewrite Hk, (Saving.compact_object o Ho). }
  unfold text_of at 1. rewrite (served_text v server defaults k (stringify (JObj o)) Hd Hn); [done|].
  unfold normalize_value. cbn [is_json GroupKeys]. by rewrite Hk, (normalize_compact o Ho).
Qed.
Lemma served_table (v server defaults : FormValues) l : Forall row_prints l ->
  (forall k, normalize_value k (server k) = defaults k) -> table_texts v = GroupTable.serializeGroupPricingRows l ->
  GroupTable.parse_texts (table_texts (normalized (served (map (request_of (normalized v)) (updates (normalized v) defaults)) server)))
  = Some (GroupTable.serialize_maps l).
Proof.
  intros Hl Hd Hv. destruct (serialize_sound l Hl) as (S1 & S2 & S3). unfold GroupTable.serializeGroupPricingRows, GroupTable.print_maps, table_texts in Hv.
  injection Hv as V1 V2 V3. unfold table_texts. rewrite (served_object v server defaults GroupRatio _ S1 eq_refl Hd V1),
    (served_object v server defaults UserUsableGroups _ S2 eq_refl Hd V2), (served_object v server defaults TopupGroupRatio _ S3 eq_refl Hd V3).
  unfold GroupTable.parse_texts, GroupTable.parseRatioMap, GroupTable.parseUsableMap.
  cbn [GroupTable.GroupRatio GroupTable.UserUsableGroups GroupTable.TopupGroupRatio]. rewrite !record_of_compact by done.
  by destruct (GroupTable.serialize_maps l).
Qed.

(** C21: an edit reaches the server: on every screen the user can reach, while
    no save is running and the server still holds what the form takes for
    saved, editing the table of groups and saving, with every request
    accepted, leaves the server with exactly the ratios, descriptions and
    top-up ratios of the rows that the edit made, whatever the other fields
    held. Numbers typed are to print back. After a refused save the form and
    the server disagree, and this fails (refused_not_retried). *)
Theorem table_saved d rowc rulec s e ev s1 server :
  (0 <= rowc)%Z -> reached d rowc rulec s -> visual s = Some e -> event_prints ev -> saving (form_saver s) = None ->
  (forall k, normalize_value k (server k) = defaults (form_saver s) k) ->
  step positive_integer (EditTable ev) s = Some (s1, []) -> groupSchema positive_integer (vals s1) = true ->
  exists s2 reqs m,
  run positive_integer (SaveClicked ::
    map Answered (replicate (length (updates (normalized (vals s1)) (defaults (form_saver s)))) Accepted)) s1 = Some (s2, reqs) /\
  saving (form_saver s2) = None /\
  GroupTable.parse_texts (table_texts (normalized (served reqs server))) = Some m /\
  forall k, k <> [] -> holds_entries k m (GroupTable.rows (GroupTable.handle ev (table e)).1).
Proof.
  intros Hc Hr Hv He Hi Hd H1 Hg. destruct (screen_reached_ok _ _ _ _ Hc Hr) as [Hok Hp].
  destruct (edited_table s e ev Hok Hp Hv He) as (s' & t' & E & _ & Erows & Hrows & Et & Es). rewrite E in H1. injection H1 as ->.
  cbn [run step]. rewrite Hg. cbn [mbind option_bind fst snd]. rewrite run_saving. cbn [mbind option_bind fst snd with_saver form_saver].
  change (map RatioSaving.Answered) with (fmap (M := list) (RatioSaving.Answered (Key := GroupKey))). rewrite fmap_replicate, Es. pose proof (Saving.all_accepted (vals s1) (form_saver s) Accepted ltac:(done) Hi) as Ha. cbn zeta in Ha.
  rewrite Saving.run_cons in Ha. cbn [handle] in Ha. injection Ha as Ha1 Ha2. rewrite Ha2.
  eexists _, _, (GroupTable.serialize_maps (GroupTable.rows t')). split; [reflexivity|]. cbn [form_saver]. split; [by rewrite Ha1|].
  split; [by apply served_table|]. intros k Hk. rewrite <- Erows. by apply serialize_entries.
Qed.

(** ** New defaults *)

(** Defaults that hold what was saved leave the screen as it is: the table keeps
    its rows, blank and repeated names included. *)
Theorem reload_keeps_rows s e d : screen_ok s -> visual s = Some e -> prints s ->
  table_texts (vals s) = GroupTable.serializeGroupPricingRows (GroupTable.rows (table e)) ->
  (forall k, k ∈ [GroupRatio; UserUsableGroups; TopupGroupRatio] -> d k = normalized (vals s) k) ->
  exists s', step positive_integer (Reloaded d) s = Some (s', []) /\ visual s' = Some e /\ table_texts (vals s') = table_texts (vals s).
Proof.
  intros [_ Hs] Hv Hp Ht Hd. unfold prints in Hp. rewrite Hv in Hs, Hp. destruct Hs as (_ & _ & Hseen).
  destruct (serialize_sound _ Hp) as (S1 & S2 & S3).
  assert (Hk : forall k o, sound o -> group_is_json k = true -> d k = normalized (vals s) k ->
    text_of (vals s) k = stringify_pretty (JObj o) -> text_of (formatted d) k = stringify_pretty (JObj o)).
  { intros k o Ho Hj Ek Ev. apply text_of_some in Ev; [|done]. unfold text_of, formatted, format_value. rewrite Ek.
    unfold normalized, normalize_value. rewrite Ev. cbn [is_json GroupKeys]. rewrite Hj. by apply Saving.object_survives. }
  assert (Et : table_texts (formatted d) = table_texts (vals s)).
  { rewrite Ht. pose proof Ht as Hv'. unfold GroupTable.serializeGroupPricingRows, GroupTable.print_maps, table_texts in Hv'.
    injection Hv' as V1 V2 V3. unfold table_texts.
    rewrite (Hk GroupRatio _ S1), (Hk UserUsableGroups _ S2), (Hk TopupGroupRatio _ S3); try done; apply Hd; set_solver. }
  cbn [step]. unfold set_values. cbn [with_saver visual]. rewrite Hv. cbn [reload snd]. rewrite Et.
  unfold GroupTable.texts_effect. rewrite decide_True by done. cbn [mbind option_bind]. eexists. split; [reflexivity|].
  split; [by destruct e|done].
Qed.

(** The editor of special rules does not follow new defaults: the next edit
    writes the rules it was opened with over them. *)
Theorem stale_rules_overwrite s e d s1 ev s2 : visual s = Some e ->
  step positive_integer (Reloaded d) s = Some (s1, []) -> step positive_integer (EditRules ev) s1 = Some (s2, []) ->
  text_of (vals s2) GroupSpecialUsableGroup = (SpecialRules.handle ev (rules e)).2.
Proof.
  intros Hv H1 H2. cbn [step] in H1. unfold set_values in H1. cbn [with_saver visual] in H1. rewrite Hv in H1.
  destruct (GroupTable.texts_effect _ _) as [t|]; [|done]. injection H1 as <-. cbn [step] in H2. unfold on_editors in H2.
  cbn [with_editors visual] in H2. unfold edit_rules in H2. cbn [rules] in H2. destruct (SpecialRules.handle ev (rules e)) as [r text].
  by injection H2 as <-.
Qed.

(** The schema accepts a text that the visual editor cannot show. *)
Theorem null_text_accepted : field_valid positive_integer GroupRatio (VText "null") = true /\
  forall usable topups, GroupTable.parse_texts (GroupTable.Texts "null" usable topups) = None.
Proof.
  assert (E : GroupTable.parseRatioMap "null" = None) by (vm_compute; reflexivity).
  split; [vm_compute; reflexivity|]. intros usable topups. unfold GroupTable.parse_texts. cbn [GroupTable.GroupRatio]. by rewrite E.
Qed.
End Use.

(** ** A screen in use *)

Definition sample_values : FormValues := fun k =>
  match k with
  | GroupRatio => VText "{`default`: 1, `vip`: 0.5}"
  | UserUsableGroups => VText "{`default`: `Standard`, `beta`: `Try it`}"
  | TopupGroupRatio => VText "{`vip`: 1.2}"
  | GroupGroupRatio => VText "{}" | AutoGroups => VText "[`default`]" | GroupSpecialUsableGroup => VText "{}"
  | MaxTokenAutoGroups => VNum (num 5) | DefaultUseAutoGroup => VBool false
  end.
Definition positive (n : jsnum) : bool := is_integer n && num_ltb (num 0) n.
Definition no_editors : editors := Editors (GroupTable.Table [] 0 None) GroupOverrides.initial_section (SpecialRules.Editor [] 0).
Definition sample_editors : editors := default no_editors (mount_editors (formatted sample_values) 0 0).
Definition sample_screen : screen :=
  with_editors (formatted sample_values) sample_editors (Screen (formatted sample_values) None 0 0 (Saver (normalized sample_values) None)).
Lemma sample_opened : open_screen sample_values 0 0 = Some sample_screen.
Proof.
  unfold open_screen. cbn [vals]. assert (E : mount_editors (formatted sample_values) 0 0 = Some sample_editors) by (vm_compute; reflexivity).
  by rewrite E.
Qed.
Lemma sample_prints : prints sample_screen.
Proof.
  assert (E : GroupTable.rows (table sample_editors) = map (fun p => GroupTable.row_of sample_maps p.1 p.2)
    [("gpr_4" : jsstr, "default" : jsstr); ("gpr_5" : jsstr, "vip" : jsstr); ("gpr_6" : jsstr, "beta" : jsstr)]) by (vm_compute; reflexivity).
  unfold prints. cbn [sample_screen with_editors visual]. rewrite E. apply Forall_fmap, Forall_true. intros x. apply row_of_prints, sample_plain.
Qed.
Definition sample_edit : GroupTable.table * GroupTable.GroupTexts := GroupTable.handle renaming (table sample_editors).
Definition edited_editors : editors :=
  Editors (default (table no_editors) (GroupTable.texts_effect sample_edit.2 sample_edit.1)) (overrides sample_editors) (rules sample_editors).
Definition edited_screen : screen :=
  with_editors (set_table_texts sample_edit.2 (formatted sample_values)) edited_editors sample_screen.
Lemma sample_step : step positive (EditTable renaming) sample_screen = Some (edited_screen, []).
Proof.
  cbn [step]. unfold on_editors. cbn [visual sample_screen with_editors]. unfold edit_table. fold sample_edit.
  rewrite (surjective_pairing sample_edit). unfold set_values. cbn [with_editors visual table overrides rules]. rewrite table_texts_set.
  assert (E : GroupTable.texts_effect sample_edit.2 sample_edit.1 = Some (table edited_editors)) by (vm_compute; reflexivity).
  by rewrite E.
Qed.

Lemma table_saved_witness :
  exists s2 reqs m,
  run positive (SaveClicked ::
    map Answered (replicate (length (updates (normalized (vals edited_screen)) (defaults (form_saver sample_screen)))) Accepted)) edited_screen
  = Some (s2, reqs) /\ saving (form_saver s2) = None /\
  GroupTable.parse_texts (table_texts (normalized (served reqs sample_values))) = Some m /\
  forall k, k <> [] -> holds_entries k m (GroupTable.rows (GroupTable.handle renaming (table sample_editors)).1).
Proof.
  apply (table_saved positive sample_values 0 0 sample_screen sample_editors renaming edited_screen sample_values).
  - lia.
  - exact (reached_open positive _ _ _ _ sample_opened sample_prints).
  - reflexivity.
  - exact I.
  - reflexivity.
  - intros k. destruct k; reflexivity.
  - exact sample_step.
  - vm_compute. reflexivity.
Defined.
End GroupSaving.
