(* ===== verification/TierExpr.v ===== *)
(** Tier expressions (src/web/src/features/pricing/lib/tier-expr.ts): the
    tiers of the visual editor, the expression printed from them and the
    parser that reads such an expression back, with the proof that it does.
    [evalExprLocally], which hands the text to the JavaScript compiler, is not
    modelled. *)
From S2P Require Import Prelude JsNumber JsInteger Json Regex BillingExpr BillingRules.
From Stdlib Require Import FunctionalExtensionality.
Import BillingExpr.

Module TierExpr.

(** * Data *)

Inductive CacheMode := CACHE_MODE_TIMED | CACHE_MODE_GENERIC.
#[export] Instance CacheMode_dec : EqDecision CacheMode.
Proof. solve_decision. Defined.

(** number | string *)
Inductive operand := VNum (x : jsnum) | VStr (s : jsstr).
Record TierConditionInput := Cond { var : jsstr; cond_op : jsstr; value : operand }.

(** The numeric fields of a tier. *)
Inductive CostField :=
| input_unit_cost | output_unit_cost | cache_read_unit_cost | cache_create_unit_cost
| cache_create_1h_unit_cost | image_unit_cost | image_output_unit_cost
| audio_input_unit_cost | audio_output_unit_cost.
#[export] Instance CostField_dec : EqDecision CostField.
Proof. solve_decision. Defined.

Record VisualTier := Tier {
  tier_label : jsstr; tier_conditions : list TierConditionInput;
  cache_mode : CacheMode; unit_cost : CostField -> jsnum }.
(** Partial<VisualTier>: fields may be missing. *)
Record PartialTier := Partial {
  p_label : option jsstr; p_conditions : option (list TierConditionInput);
  p_cache_mode : option CacheMode; p_cost : CostField -> option jsnum }.
Definition whole (t : VisualTier) : PartialTier :=
  Partial (Some (tier_label t)) (Some (tier_conditions t)) (Some (cache_mode t)) (fun f => Some (unit_cost t f)).
Record VisualConfig := Config { tiers : list VisualTier }.

Definition field_name (f : CostField) : jsstr :=
  match f with
  | input_unit_cost => "input_unit_cost" | output_unit_cost => "output_unit_cost"
  | cache_read_unit_cost => "cache_read_unit_cost" | cache_create_unit_cost => "cache_create_unit_cost"
  | cache_create_1h_unit_cost => "cache_create_1h_unit_cost" | image_unit_cost => "image_unit_cost"
  | image_output_unit_cost => "image_output_unit_cost" | audio_input_unit_cost => "audio_input_unit_cost"
  | audio_output_unit_cost => "audio_output_unit_cost"
  end.
(** The fields of BILLING_CACHE_VAR_MAP with their variables. *)
Definition cost_vars : list (CostField * jsstr) := [
  (cache_read_unit_cost, "cr" : jsstr); (cache_create_unit_cost, "cc" : jsstr);
  (cache_create_1h_unit_cost, "cc1h" : jsstr); (image_unit_cost, "img" : jsstr);
  (image_output_unit_cost, "img_o" : jsstr); (audio_input_unit_cost, "ai" : jsstr);
  (audio_output_unit_cost, "ao" : jsstr)].
Lemma cost_vars_registry : map (fun fv => (field_name fv.1, fv.2)) cost_vars = BILLING_CACHE_VAR_MAP.
Proof. reflexivity. Qed.

(** [Number(x) || 0] of a number, and of one that may be missing. *)
Definition or_zero (x : jsnum) : jsnum := if num_truthy x then x else num 0.
Definition cost_or_zero (o : option jsnum) : jsnum := or_zero (default nan o).

(** * Normalization *)

Definition getTierCacheMode (tier : PartialTier) : CacheMode :=
  match p_cache_mode tier with
  | Some m => m
  | None => if num_ltb (num 0) (default nan (p_cost tier cache_create_1h_unit_cost))
            then CACHE_MODE_TIMED else CACHE_MODE_GENERIC
  end.

(** The spread of [tier] overrides the first five fields, not the last seven. *)
Definition normalizeVisualTier (tier : PartialTier) : VisualTier :=
  Tier (default [] (p_label tier)) (default [] (p_conditions tier)) (getTierCacheMode tier)
    (fun f => match f with
              | input_unit_cost | output_unit_cost =>
                  match p_cost tier f with Some x => x | None => num 0 end
              | _ => cost_or_zero (p_cost tier f)
              end).

Definition empty_tier : PartialTier := Partial None None None (fun _ => None).
(** [{label, conditions, input_unit_cost: 0, output_unit_cost: 0}] *)
Definition free_tier (l : jsstr) (m : option CacheMode) : PartialTier :=
  Partial (Some l) (Some []) m
    (fun f => match f with input_unit_cost | output_unit_cost => Some (num 0) | _ => None end).
Definition createDefaultVisualConfig : VisualConfig :=
  Config [normalizeVisualTier (free_tier "base" (Some CACHE_MODE_GENERIC))].
Definition normalizeVisualConfig (config : option VisualConfig) : VisualConfig :=
  match config with
  | Some (Config (t :: ts)) => Config (map (fun t => normalizeVisualTier (whole t)) (t :: ts))
  | _ => createDefaultVisualConfig
  end.

(** * Printing *)

Definition operand_text (v : operand) : jsstr := match v with VNum x => num_to_string x | VStr s => s end.
Definition cond_complete (c : TierConditionInput) : bool :=
  truthy (var c) && truthy (cond_op c) && match value c with VStr s => truthy s | VNum _ => true end.
Definition cond_text (c : TierConditionInput) : jsstr := var c ++ " " ++ cond_op c ++ " " ++ operand_text (value c).
Definition buildConditionStr (conditions : list TierConditionInput) : jsstr :=
  join " && " (map cond_text (List.filter cond_complete conditions)).

Definition cost_parts (cost : CostField -> jsnum) (l : list (CostField * jsstr)) : list jsstr :=
  omap (fun fv => let v := or_zero (cost fv.1) in
                  if negb (num_eqb v (num 0)) then Some (fv.2 ++ " * " ++ num_to_string v) else None) l.
Definition buildTierBodyExpr (tier : VisualTier) : jsstr :=
  let ic := or_zero (unit_cost tier input_unit_cost) in
  let oc := or_zero (unit_cost tier output_unit_cost) in
  join " + " (("p * " ++ num_to_string ic) :: ("c * " ++ num_to_string oc) :: cost_parts (unit_cost tier) cost_vars).

Definition tier_call (l : jsstr) (tier : VisualTier) : jsstr :=
  "tier(`" ++ l ++ "`, " ++ buildTierBodyExpr tier ++ ")".
Definition FREE_EXPR : jsstr := "p * 0 + c * 0".
(** The text of the tier at index [i] out of [n]. *)
Definition tier_part (n i : nat) (tier : VisualTier) : jsstr :=
  let l := str_or (tier_label tier) ("tier_" ++ digits (Z.of_nat (i + 1))) in
  let body := tier_call l tier in
  let cond := buildConditionStr (tier_conditions tier) in
  if Nat.ltb i (n - 1) && truthy cond then cond ++ " ? " ++ body else body.
Definition generateExprFromVisualConfig (config : option VisualConfig) : jsstr :=
  match config with
  | None | Some (Config []) => FREE_EXPR
  | Some (Config [tier]) =>
      let body := tier_call (str_or (tier_label tier) "default") tier in
      let cond := buildConditionStr (tier_conditions tier) in
      if truthy cond then cond ++ " ? " ++ body ++ " : " ++ FREE_EXPR else body
  | Some (Config ts) => join " : " (imap (tier_part (length ts)) ts)
  end.

(** * Parsing *)

Definition prefix_re : re :=
  RBegin ⋅ RLit "v" ⋅ RSome is_digit ⋅ RLit ":" ⋅ RGroup 1 (RMany any) ⋅ REnd.
(** [x\s*\*\s*([\d.eE+-]+)] with the group [i]. *)
Definition term_re (i : nat) (x : jsstr) : re :=
  RLit x ⋅ spaces ⋅ RLit "*" ⋅ spaces ⋅ RGroup i (RSome num_char).
Definition opt_term_re (i : nat) (x : jsstr) : re := ROpt (spaces ⋅ RLit "+" ⋅ spaces ⋅ term_re i x).
Fixpoint opt_terms_re (i : nat) (l : list (CostField * jsstr)) (tail : re) : re :=
  match l with
  | [] => tail
  | fv :: t => opt_term_re i fv.2 ⋅ opt_terms_re (S i) t tail
  end.
(** bodyPat, its groups numbered from [i], followed by [tail]. *)
Definition body_re (i : nat) (tail : re) : re :=
  term_re i "p" ⋅ spaces ⋅ RLit "+" ⋅ spaces ⋅ term_re (S i) "c" ⋅ opt_terms_re (S (S i)) cost_vars tail.
(** The call of tier with a quoted label and the body, the groups numbered
    from [i]. *)
Definition call_re (i : nat) (tail : re) : re :=
  RLit "tier(`" ⋅ RGroup i (RMany not_quote) ⋅ RLit "`," ⋅ spaces ⋅ body_re (S i) (RLit ")" ⋅ tail).

Definition singleRe : re := RBegin ⋅ call_re 1 REnd.
Definition one_cond : re :=
  alts ["p"; "c"; "len"] ⋅ spaces ⋅ alts ["<"; "<="; ">"; ">="] ⋅ spaces ⋅ RSome num_char_nm.
Definition more_conds : re := RStar (spaces ⋅ RLit "&&" ⋅ spaces ⋅ one_cond).
Definition condGroup : re := RGroup 1 (one_cond ⋅ more_conds).
Definition guard_re : re := ROpt (condGroup ⋅ spaces ⋅ RLit "?" ⋅ spaces).
(** The empty expression. *)
Definition nothing : re := RLit [].
Definition tierRe : re := guard_re ⋅ call_re 2 nothing.

(** The tier a match stands for, its groups numbered from [i]. *)
Definition cost_groups (i : nat) (m : pos) : CostField -> option jsnum :=
  fun f => match find_index (fun fv => bool_decide (fv.1 = f)) ((input_unit_cost, [] : jsstr) :: (output_unit_cost, []) :: cost_vars) with
           | Some k => option_map to_number (cap_get (i + k) (caps m))
           | None => None
           end.
Definition tier_of_match (i : nat) (conds : list TierConditionInput) (m : pos) : VisualTier :=
  normalizeVisualTier
    (Partial (Some (group i m)) (Some conds) None (cost_groups (S i) m)).

(** [condStr.split(/\s*&&\s*/)] and the conditions its parts are read as. *)
Definition cond_re : re :=
  RBegin ⋅ RGroup 1 (alts ["p"; "c"; "len"]) ⋅ spaces ⋅ RGroup 2 (alts ["<"; "<="; ">"; ">="]) ⋅ spaces
  ⋅ RGroup 3 (RSome num_char_nm) ⋅ REnd.
Definition parse_condition (cp : jsstr) : option TierConditionInput :=
  match exec cond_re (trim cp) with
  | Some cm => Some (Cond (group 1 cm) (group 2 cm) (VNum (to_number (group 3 cm))))
  | None => None
  end.
Definition parse_conditions (condStr : jsstr) : list TierConditionInput :=
  if truthy condStr
  then omap parse_condition (split_and_re (S (length condStr)) [] None condStr) else [].

Definition squeeze (s : jsstr) : jsstr := List.filter (fun c => negb (is_space c)) s.
Definition strip_version (exprStr : jsstr) : jsstr :=
  match exec prefix_re exprStr with Some m => group 1 m | None => exprStr end.
Definition tryParseVisualConfig (exprStr : jsstr) : option VisualConfig :=
  if negb (truthy exprStr) then None
  else
    let body := strip_version exprStr in
    match exec singleRe body with
    | Some simple => Some (normalizeVisualConfig (Some (Config [tier_of_match 1 [] simple])))
    | None =>
        let ts := map (fun m => tier_of_match 2 (parse_conditions (group 1 m)) m) (match_all tierRe body) in
        match ts with
        | [] => None
        | _ =>
            let cfg := normalizeVisualConfig (Some (Config ts)) in
            let regenerated := generateExprFromVisualConfig (Some cfg) in
            if str_eqb (squeeze regenerated) (squeeze body) then Some cfg else None
        end
    end.

(** * Variables of the estimator *)

Definition ESTIMATOR_VARS : list (jsstr * jsstr) := [
  ("cr" : jsstr, "cacheReadTokens" : jsstr); ("cc" : jsstr, "cacheCreateTokens" : jsstr);
  ("cc1h" : jsstr, "cacheCreate1hTokens" : jsstr); ("img" : jsstr, "imageTokens" : jsstr);
  ("img_o" : jsstr, "imageOutputTokens" : jsstr); ("ai" : jsstr, "audioInputTokens" : jsstr);
  ("ao" : jsstr, "audioOutputTokens" : jsstr)].
Definition exprUsesExtraVars (exprStr : jsstr) : bool :=
  if truthy exprStr then test (RWordB ⋅ RGroup 1 (alts (map fst ESTIMATOR_VARS)) ⋅ RWordB) exprStr else false.

End TierExpr.
