(* ===== verification/TierExprProofs.v ===== *)
(** The parser of tier expressions reads back what the visual editor prints. *)
From S2P Require Import Prelude JsNumber JsInteger Json Regex BillingExpr BillingRules TierExpr.
From Stdlib Require Import FunctionalExtensionality.
Import BillingExpr BillingRules TierExpr.

Module Tiers.

(** * Accepting known text

    [m] succeeds with [v] on the text wherever its continuation does on the
    text that follows, whatever unit came before. *)
Section Accept.
Context {A : Type}.
Implicit Types (K : pos -> option A) (v : A).

Definition accepts K (s : jsstr) (cs : list (nat * jsstr)) v : Prop := forall b, K (Pos b s cs) = Some v.
Definition refuses K (s : jsstr) (cs : list (nat * jsstr)) : Prop := forall b, K (Pos b s cs) = None.

Lemma run_seq a r K x : run (a ⋅ r) K x = run a (run r K) x.
Proof. done. Qed.
Lemma acc_seq a r K s cs v : accepts (run a (run r K)) s cs v -> accepts (run (a ⋅ r) K) s cs v.
Proof. done. Qed.
Lemma ref_seq a r K s cs : refuses (run a (run r K)) s cs -> refuses (run (a ⋅ r) K) s cs.
Proof. done. Qed.
Lemma acc_lit l t K cs v : accepts K t cs v -> accepts (run (RLit l) K) (l ++ t) cs v.
Proof. intros H b. by rewrite run_lit. Qed.
Lemma acc_class p w t K cs v :
  w <> [] -> covers p w -> stops p t -> accepts K t cs v -> accepts (run (RSome p) K) (w ++ t) cs v.
Proof. intros Hn Hw Ht H b. by apply run_some_accept. Qed.
Lemma acc_group i p w t K cs v :
  w <> [] -> covers p w -> stops p t -> accepts K t ((i, w) :: cs) v ->
  accepts (run (RGroup i (RSome p)) K) (w ++ t) cs v.
Proof. intros Hn Hw Ht H b. by apply run_group_some_accept. Qed.
Lemma acc_group_many i p w t K cs v :
  covers p w -> stops p t -> accepts K t ((i, w) :: cs) v ->
  accepts (run (RGroup i (RMany p)) K) (w ++ t) cs v.
Proof. intros Hw Ht H b. cbn [run before rest caps]. apply many_accept; [done..|]. cbn [before rest caps]. by rewrite take_app_sub. Qed.
Lemma acc_no_space t K cs v : stops is_space t -> accepts K t cs v -> accepts (run spaces K) t cs v.
Proof. intros Ht H b. by apply (many_accept is_space K b [] t); [constructor| |]. Qed.
Lemma acc_space t K cs v : stops is_space t -> accepts K t cs v -> accepts (run spaces K) (" " ++ t) cs v.
Proof. intros Ht H b. by apply (many_accept is_space K b " " t); [repeat constructor| |]. Qed.
Lemma acc_opt a t K cs v : accepts (run a K) t cs v -> accepts (run (ROpt a) K) t cs v.
Proof. intros H b. cbn [run]. by rewrite H. Qed.
Lemma acc_opt_skip a t K cs v : refuses (run a K) t cs -> accepts K t cs v -> accepts (run (ROpt a) K) t cs v.
Proof. intros Hn H b. cbn [run]. rewrite Hn. apply H. Qed.
Lemma acc_left a c t K cs v : accepts (run a K) t cs v -> accepts (run (a ∣ c) K) t cs v.
Proof. intros H b. cbn [run]. by rewrite H. Qed.
Lemma acc_right a c t K cs v :
  refuses (run a K) t cs -> accepts (run c K) t cs v -> accepts (run (a ∣ c) K) t cs v.
Proof. intros Hn H b. cbn [run]. rewrite Hn. apply H. Qed.
(** A group records what its expression consumed; the continuation of the
    expression is that of the group with other captures. *)
Lemma acc_capture i a w t K cs v :
  (forall K', (forall b s cs', exists cs'', K' (Pos b s cs') = K (Pos b s cs'')) ->
     accepts K' t cs v -> accepts (run a K') (w ++ t) cs v) ->
  accepts K t ((i, w) :: cs) v -> accepts (run (RGroup i a) K) (w ++ t) cs v.
Proof.
  intros Ha H b. cbn [run before rest caps]. apply Ha; [by eexists|].
  intros b'. cbn [before rest caps]. by rewrite take_app_sub.
Qed.
Lemma acc_group_last i p w t K cs v :
  w <> [] -> covers p w -> stops p t -> K (Pos (last w) t ((i, w) :: cs)) = Some v ->
  accepts (run (RGroup i (RSome p)) K) (w ++ t) cs v.
Proof.
  intros Hn Hw Ht H b. apply run_group_some_accept; [done..|].
  replace (last_or b w) with (last w); [done|]. unfold last_or. destruct (last w) eqn:E; [done|]. by apply last_None in E.
Qed.
End Accept.

(** * Numbers that survive printing *)

Definition reads_back (x : jsnum) : Prop :=
  covers num_char (num_to_string x) /\ to_number (num_to_string x) = x.
Lemma reads_back_nonempty x : reads_back x -> num_to_string x <> [].
Proof. intros [_ H] E. rewrite E in H. cbn in H. by subst x. Qed.
Lemma reads_back_zero : reads_back (num 0).
Proof. by split; [repeat constructor|]. Qed.
Lemma or_zero_idemp x : or_zero (or_zero x) = or_zero x.
Proof. unfold or_zero. destruct (num_truthy x) eqn:E; [by rewrite E|done]. Qed.
Lemma or_zero_zero x : num_eqb (or_zero x) (num 0) = true -> or_zero x = num 0.
Proof.
  unfold or_zero. destruct x as [s|s| |s m e]; simpl; try done; destruct s; try done.
Qed.

(** * The body of a tier *)

Definition cost_text (cost : CostField -> jsnum) (f : CostField) : jsstr := num_to_string (or_zero (cost f)).
Definition used (cost : CostField -> jsnum) (f : CostField) : bool := negb (num_eqb (or_zero (cost f)) (num 0)).
Definition terms_text (cost : CostField -> jsnum) (l : list (CostField * jsstr)) : jsstr :=
  concat (map (fun part => " + " ++ part) (cost_parts cost l)).
(** The captures after the optional terms. *)
Fixpoint term_caps (i : nat) (cost : CostField -> jsnum) (l : list (CostField * jsstr)) (cs : list (nat * jsstr)) :
  list (nat * jsstr) :=
  match l with
  | [] => cs
  | fv :: t => term_caps (S i) cost t (if used cost fv.1 then (i, cost_text cost fv.1) :: cs else cs)
  end.

Lemma cost_parts_cons cost fv l :
  cost_parts cost (fv :: l) =
  if used cost fv.1 then (fv.2 ++ " * " ++ cost_text cost fv.1) :: cost_parts cost l else cost_parts cost l.
Proof. unfold cost_parts, used, cost_text. simpl. by destruct (num_eqb _ _). Qed.
Lemma terms_text_cons cost fv l :
  terms_text cost (fv :: l) =
  if used cost fv.1 then " + " ++ fv.2 ++ " * " ++ cost_text cost fv.1 ++ terms_text cost l else terms_text cost l.
Proof.
  unfold terms_text. rewrite cost_parts_cons. case_match; [|done]. cbn [map concat]. by rewrite <-!app_assoc.
Qed.

Lemma join_concat sep x l : join sep (x :: l) = x ++ concat (map (fun y => sep ++ y) l).
Proof.
  revert x. induction l as [|y l IH]; intros x; [by rewrite app_nil_r|].
  rewrite join_cons by done. rewrite IH. cbn [map concat]. by rewrite <-!app_assoc.
Qed.
Lemma body_text tier :
  buildTierBodyExpr tier = "p * " ++ cost_text (unit_cost tier) input_unit_cost ++ " + c * "
    ++ cost_text (unit_cost tier) output_unit_cost ++ terms_text (unit_cost tier) cost_vars.
Proof. unfold buildTierBodyExpr. rewrite join_concat. cbn [map concat]. by rewrite <-!app_assoc. Qed.

(** The variable [x] is not read where [w] is printed. *)
Definition apart (x w : jsstr) : Prop :=
  stops is_space w /\
  forall A r (K : pos -> option A) u cs, refuses (run (RLit x ⋅ spaces ⋅ RLit "*" ⋅ r) K) (w ++ " * " ++ u) cs.
Definition all_apart (l : list (CostField * jsstr)) : Prop :=
  ForallOrdPairs (fun a b : CostField * jsstr => apart a.2 b.2) l.
Lemma cost_vars_apart : all_apart cost_vars.
Proof.
  unfold all_apart, cost_vars.
  repeat first [apply FOP_cons | apply Forall_cons_2 | apply Forall_nil_2 | apply FOP_nil];
    (split; [reflexivity|intros A r K u cs b; reflexivity]).
Qed.
Lemma cost_vars_solid : Forall (fun fv : CostField * jsstr => exists c w, fv.2 = c :: w /\ is_space c = false) cost_vars.
Proof. repeat constructor; eexists _, _; split; reflexivity. Qed.

Lemma num_char_head n t : n <> [] -> covers num_char n -> stops is_space (n ++ t).
Proof.
  intros Hn Hc. destruct Hc as [|c n Hc _]; [done|]. simpl.
  unfold num_char, is_digit in Hc. unfold is_space.
  repeat (apply orb_true_iff in Hc as [Hc|Hc]); try (apply N.eqb_eq in Hc as ->; reflexivity).
  apply andb_true_iff in Hc as [H1%N.leb_le H2%N.leb_le].
  assert (c = 48 \/ c = 49 \/ c = 50 \/ c = 51 \/ c = 52 \/ c = 53 \/ c = 54 \/ c = 55 \/ c = 56 \/ c = 57)%N by lia.
  by repeat destruct H as [->|H]; subst.
Qed.

Section Body.
Context {A : Type}.
Implicit Types (K : pos -> option A).

Lemma acc_term i x n t K cs v :
  n <> [] -> covers num_char n -> stops num_char t ->
  accepts K t ((i, n) :: cs) v -> accepts (run (term_re i x) K) (x ++ " * " ++ n ++ t) cs v.
Proof.
  intros Hn Hc Ht H. unfold term_re. apply acc_seq, acc_lit, acc_seq.
  apply (acc_space ("*" ++ " " ++ n ++ t)); [done|].
  apply acc_seq, acc_lit, acc_seq, acc_space; [by apply num_char_head|]. by apply acc_group.
Qed.
(** A term that is printed. *)
Lemma acc_opt_term i x n t K cs v :
  stops is_space x -> x <> [] -> n <> [] -> covers num_char n -> stops num_char t ->
  accepts K t ((i, n) :: cs) v -> accepts (run (opt_term_re i x) K) (" + " ++ x ++ " * " ++ n ++ t) cs v.
Proof.
  intros Hx Hxn Hn Hc Ht H. apply acc_opt, acc_seq.
  apply (acc_space ("+" ++ " " ++ x ++ " * " ++ n ++ t)); [done|].
  apply acc_seq, acc_lit, acc_seq, acc_space; [by destruct x|]. by apply acc_term.
Qed.
(** A term that is not: the text goes on with another variable or ends. *)
Lemma ref_space K t cs :
  stops is_space t -> refuses K t cs -> refuses K (" " ++ t) cs -> refuses (run spaces K) (" " ++ t) cs.
Proof.
  intros Ht H1 H2 b.
  change (first_some (many is_space K (Some 32%N) t cs) (fun _ => K (Pos b (" " ++ t) cs)) = None).
  destruct t as [|c t]; cbn [many]; [|cbn in Ht; rewrite Ht]; rewrite H1; apply H2.
Qed.
Lemma ref_no_space K t cs : stops is_space t -> refuses K t cs -> refuses (run spaces K) t cs.
Proof. intros Ht H b. unfold spaces. destruct t as [|c t]; cbn [run rest before caps many]; [apply H|]. cbn in Ht. rewrite Ht. apply H. Qed.
Lemma ref_lit_space l t K cs : starts_with " " l = false -> l <> [] -> refuses (run (RLit l) K) (" " ++ t) cs.
Proof. intros H Hn b. destruct l as [|c l]; [done|]. cbn in *. unfold starts_with in H. cbn in H. destruct (N.eqb_spec c 32); [by subst|done]. Qed.
Lemma ref_term i x w u K cs :
  apart x w -> stops is_space x -> x <> [] -> w <> [] ->
  refuses (run (spaces ⋅ RLit "+" ⋅ spaces ⋅ term_re i x) K) (" + " ++ w ++ " * " ++ u) cs.
Proof.
  intros [Hw Ha] Hx Hxn Hn. apply ref_seq.
  apply (ref_space _ ("+" ++ " " ++ w ++ " * " ++ u)); [done| |by apply ref_lit_space].
  intros b. rewrite run_seq, run_lit. apply ref_space; [by destruct w| |].
  - apply Ha.
  - apply ref_seq, ref_lit_space; [|done]. destruct x as [|c x]; [done|]. unfold starts_with. cbn [strip_prefix].
    destruct (N.eqb_spec 32 c); [subst; by vm_compute in Hx|done].
Qed.
Lemma terms_stop cost l t : stops num_char (terms_text cost l ++ ")" ++ t).
Proof. induction l as [|fv l IH]; [done|]. rewrite terms_text_cons. by destruct (used cost fv.1). Qed.
Lemma ref_terms i x cost l t K cs :
  Forall (fun fw : CostField * jsstr => apart x fw.2) l -> stops is_space x -> x <> [] ->
  Forall (fun fv : CostField * jsstr => stops is_space fv.2 /\ fv.2 <> []) l ->
  refuses (run (spaces ⋅ RLit "+" ⋅ spaces ⋅ term_re i x) K) (terms_text cost l ++ ")" ++ t) cs.
Proof.
  intros Ha Hs Hn. induction Ha as [|fw l Hw Ha IH]; intros Hne; [intros b; reflexivity|].
  rewrite terms_text_cons. inversion Hne as [|? ? [? ?] ?]; subst.
  destruct (used cost fw.1); [|by apply IH]. rewrite <-!app_assoc. by apply ref_term.
Qed.
(** The optional terms read exactly the terms that are printed. *)
Lemma acc_terms i cost l tail t K cs v :
  all_apart l -> Forall (fun fv : CostField * jsstr => stops is_space fv.2 /\ fv.2 <> []) l ->
  Forall (fun fv : CostField * jsstr => reads_back (or_zero (cost fv.1))) l ->
  accepts (run tail K) (")" ++ t) (term_caps i cost l cs) v ->
  accepts (run (opt_terms_re i l tail) K) (terms_text cost l ++ ")" ++ t) cs v.
Proof.
  intros Hap Hne Hr. revert i cs. induction Hap as [|fv l Hfv Hap IH]; intros i cs H; [exact H|].
  inversion Hne as [|? ? [Hs Hn] Hne']; inversion Hr as [|? ? Hr1 Hr']; subst.
  cbn [opt_terms_re]. rewrite terms_text_cons. cbn [term_caps] in H.
  apply acc_seq. destruct (used cost fv.1).
  - rewrite <-!app_assoc. apply acc_opt_term; [done|done|by apply reads_back_nonempty|apply Hr1|apply terms_stop|by apply IH].
  - apply acc_opt_skip; [|by apply IH].
    by apply ref_terms.
Qed.

(** What the groups of a call capture, from the group [i]. *)
Definition call_caps (i : nat) (l : jsstr) (tier : VisualTier) (cs : list (nat * jsstr)) : list (nat * jsstr) :=
  let cost := unit_cost tier in
  term_caps (i + 3) cost cost_vars
    ((i + 2, cost_text cost output_unit_cost) :: (i + 1, cost_text cost input_unit_cost) :: (i, l) :: cs).
Definition costs_ok (tier : VisualTier) : Prop :=
  forall f, reads_back (or_zero (unit_cost tier f)).

Lemma acc_call i l tier tail t K cs v :
  covers not_quote l -> costs_ok tier ->
  accepts (run (RLit ")" ⋅ tail) K) (")" ++ t) (call_caps i l tier cs) v ->
  accepts (run (call_re i tail) K) (tier_call l tier ++ t) cs v.
Proof.
  intros Hl Hc H. unfold call_re, body_re, tier_call. rewrite body_text.
  set (cost := unit_cost tier) in *.
  assert (E : ("tier(`" ++ l ++ "`, " ++ ("p * " ++ cost_text cost input_unit_cost ++ " + c * " ++ cost_text cost output_unit_cost
      ++ terms_text cost cost_vars) ++ ")") ++ t
    = "tier(`" ++ l ++ "`," ++ " " ++ "p" ++ " * " ++ cost_text cost input_unit_cost ++ " " ++ "+" ++ " " ++
      "c" ++ " * " ++ cost_text cost output_unit_cost ++ terms_text cost cost_vars ++ ")" ++ t).
  { rewrite <-!app_assoc. done. }
  rewrite E. clear E. apply acc_seq, acc_lit, acc_seq, acc_group_many; [done|done|].
  apply acc_seq, acc_lit, acc_seq, acc_space; [done|].
  apply acc_seq, acc_term; [apply reads_back_nonempty, Hc|apply Hc|done|].
  apply acc_seq, acc_space; [done|]. apply acc_seq, acc_lit, acc_seq, acc_space; [done|].
  apply acc_seq, acc_term; [apply reads_back_nonempty, Hc|apply Hc|apply terms_stop|].
  apply acc_terms; [apply cost_vars_apart|repeat (constructor; [by split|]); constructor| |].
  - apply Forall_forall. intros fv _. apply Hc.
  - unfold call_caps in H. by rewrite !(Nat.add_comm i) in H.
Qed.
End Body.

(** * Conditions *)

Definition cond_vars : list jsstr := ["p"; "c"; "len"].
Definition cond_ops : list jsstr := ["<"; "<="; ">"; ">="].
(** A condition whose number the parser reads back. *)
Definition cond_ok (c : TierConditionInput) : Prop :=
  var c ∈ cond_vars /\ cond_op c ∈ cond_ops /\
  match value c with
  | VNum x => covers num_char_nm (num_to_string x) /\ to_number (num_to_string x) = x
  | VStr _ => False
  end.

Lemma num_char_nm_num c : num_char_nm c = true -> num_char c = true.
Proof. unfold num_char_nm, num_char. rewrite !orb_true_iff. tauto. Qed.
Lemma cond_number c : cond_ok c ->
  exists x, value c = VNum x /\ reads_back x /\ covers num_char_nm (num_to_string x) /\ num_to_string x <> [].
Proof.
  intros (_ & _ & H). destruct (value c) as [x|]; [|done]. destruct H as [Hc Hx].
  assert (reads_back x) by (split; [eapply Forall_impl; [done|]; apply num_char_nm_num|done]).
  exists x. split_and!; [done|done|done|by apply reads_back_nonempty].
Qed.
Ltac cases_in H :=
  repeat match type of H with
  | _ ∈ _ :: _ => apply elem_of_cons in H as [H|H]
  | _ ∈ [] => by apply elem_of_nil in H
  end.

Section Conditions.
Context {A : Type}.
Implicit Types (K : pos -> option A).

Lemma acc_var c t K cs v : c ∈ cond_vars -> accepts K t cs v -> accepts (run (alts cond_vars) K) (c ++ t) cs v.
Proof.
  intros Hc H b. rewrite run_alts; [apply H|done| |].
  - by apply (bool_decide_eq_true_1 (NoDup cond_vars)).
  - unfold cond_vars in *. cases_in Hc; subst; repeat constructor; (by left) || (by right).
Qed.
(** An operator followed by a space and a number. *)
Lemma acc_op o t K cs v : o ∈ cond_ops ->
  refuses K ("=" ++ t) cs -> accepts K t cs v -> accepts (run (alts cond_ops) K) (o ++ t) cs v.
Proof.
  intros Ho Hn H. assert (Hlt : refuses (run (RLit "<") K) ("<=" ++ t) cs) by (intros b; apply Hn).
  assert (Hgt : refuses (run (RLit ">") K) (">=" ++ t) cs) by (intros b; apply Hn).
  unfold cond_ops in Ho. cases_in Ho; subst; unfold cond_ops; cbn [alts].
  - by apply acc_left, acc_lit.
  - apply acc_right; [done|]. by apply acc_left, acc_lit.
  - apply acc_right; [by intros b|]. apply acc_right; [by intros b|]. by apply acc_left, acc_lit.
  - apply acc_right; [by intros b|]. apply acc_right; [by intros b|]. apply acc_right; [done|]. by apply acc_lit.
Qed.
Lemma op_head o t : o ∈ cond_ops -> stops is_space (o ++ t).
Proof. unfold cond_ops. intros Ho. cases_in Ho; by subst. Qed.
Lemma acc_cond c t K cs v :
  cond_ok c -> stops num_char_nm t -> accepts K t cs v -> accepts (run one_cond K) (cond_text c ++ t) cs v.
Proof.
  intros Hc Ht H. destruct (cond_number c Hc) as (x & Ex & Hx & Hn & Hne). destruct Hc as (Hv & Ho & _).
  unfold cond_text, one_cond. rewrite Ex. cbn [operand_text]. rewrite <-!app_assoc.
  apply acc_seq, acc_var; [done|]. apply acc_seq, acc_space; [by apply op_head|].
  apply acc_seq, acc_op; [done|intros b; reflexivity|]. apply acc_seq, acc_space.
  - apply num_char_head; [done|apply Hx].
  - by apply acc_class.
Qed.

Definition more_text (l : list TierConditionInput) : jsstr := concat (map (fun c => " && " ++ cond_text c) l).
Lemma more_stop l t : stops num_char_nm t -> stops num_char_nm (more_text l ++ t).
Proof. by destruct l. Qed.
Lemma var_head c t : cond_ok c -> stops is_space (cond_text c ++ t).
Proof. intros (Hv & _). unfold cond_text. unfold cond_vars in Hv. cases_in Hv; by rewrite Hv. Qed.
Lemma acc_more l t K cs v :
  Forall cond_ok l -> stops num_char_nm t ->
  (forall K', refuses (run (spaces ⋅ RLit "&&" ⋅ spaces ⋅ one_cond) K') t cs) ->
  accepts K t cs v -> accepts (run more_conds K) (more_text l ++ t) cs v.
Proof.
  intros Hl Ht Hend H b. unfold more_conds. cbn [run].
  change (rest (Pos b (more_text l ++ t) cs)) with (more_text l ++ t).
  assert (G : forall n b, length (more_text l ++ t) <= n ->
    star (run (spaces ⋅ RLit "&&" ⋅ spaces ⋅ one_cond)) n K (Pos b (more_text l ++ t) cs) = Some v).
  2:{ by apply G. }
  clear b. induction Hl as [|c l Hc Hl IH]; intros n b Hn.
  - destruct n as [|n]; cbn [star]; [apply H|]. rewrite (Hend _ b). apply H.
  - unfold more_text in *. cbn [map concat] in *. rewrite <-!app_assoc in *.
    destruct n as [|n]; [exfalso; simpl in Hn; lia|]. cbn [star].
    set (K' := fun y => _). set (s := " && " ++ _).
    assert (E : accepts (run (spaces ⋅ RLit "&&" ⋅ spaces ⋅ one_cond) K') s cs v).
    2:{ pose proof (E b) as Eb. by rewrite Eb. }
    change s with (" " ++ "&&" ++ " " ++ cond_text c ++ more_text l ++ t). 
    apply acc_seq, acc_space; [done|]. apply acc_seq, acc_lit, acc_seq, acc_space; [by apply var_head|].
    apply acc_cond; [done|by apply more_stop|]. intros b'. unfold K'. cbn [rest].
    assert (Hlen : length (more_text l ++ t) < length s) by (unfold s, more_text; rewrite !length_app; simpl; lia).
    replace (Nat.ltb _ _) with true by (symmetry; apply Nat.ltb_lt; exact Hlen).
    apply IH. change (length s <= S n) in Hn. change (length (more_text l ++ t) <= n). lia.
Qed.

(** The guard in front of a tier. *)
Definition conds_text (l : list TierConditionInput) : jsstr := join " && " (map cond_text l).
Lemma conds_text_cons c l : conds_text (c :: l) = cond_text c ++ more_text l.
Proof. unfold conds_text, more_text. cbn [map]. by rewrite join_concat, map_map. Qed.
Lemma complete_ok l : Forall cond_ok l -> buildConditionStr l = conds_text l.
Proof.
  intros Hl. unfold buildConditionStr. rewrite bfilter_id; [done|]. intros c Hc.
  rewrite Forall_forall in Hl. destruct (Hl c Hc) as (Hv & Ho & Hx). unfold cond_complete.
  rewrite !andb_true_iff, !truthy_true. destruct (value c); [|done].
  unfold cond_vars, cond_ops in *. split_and!; [cases_in Hv; by rewrite Hv|cases_in Ho; by rewrite Ho|done].
Qed.
Lemma acc_guard l t K cs v :
  l <> [] -> Forall cond_ok l -> stops is_space t ->
  accepts K t ((1, conds_text l) :: cs) v -> accepts (run guard_re K) (conds_text l ++ " ? " ++ t) cs v.
Proof.
  intros Hl Hok Ht H. destruct Hok as [|c l Hc Hok]; [done|]. apply acc_opt, acc_seq.
  apply acc_capture.
  - intros K' _ HK. rewrite conds_text_cons, <-app_assoc. apply acc_seq, acc_cond; [done|by apply more_stop|].
    apply acc_more; [done|done| |done]. intros K2 b. reflexivity.
  - apply acc_seq. apply (acc_space ("?" ++ " " ++ t)); [done|]. apply acc_seq, acc_lit, acc_space; [done|]. done.
Qed.
Lemma acc_no_guard t K cs v : accepts K ("tier(" ++ t) cs v -> accepts (run guard_re K) ("tier(" ++ t) cs v.
Proof. intros H. apply acc_opt_skip; [intros b; reflexivity|done]. Qed.
End Conditions.

(** ** Splitting the guard *)

Definition and_sep_re : re := spaces ⋅ RLit "&&" ⋅ spaces.
Definition splits (cur s : jsstr) (out : list jsstr) : Prop :=
  forall f b, length s < f -> split_and_re f cur b s = out.
Definition word (w : jsstr) : Prop := Forall (fun c => is_space c = false /\ c <> 38%N) w.

Lemma splits_step c s cur out :
  (forall b, match_at and_sep_re b (c :: s) = None) -> splits (c :: cur) s out -> splits cur (c :: s) out.
Proof.
  intros Hc H f b Hf. destruct f as [|f]; [simpl in Hf; lia|]. cbn [split_and_re].
  rewrite (Hc b : match_at (spaces ⋅ RLit "&&" ⋅ spaces) b (c :: s) = None). apply H. simpl in Hf. lia.
Qed.
Lemma splits_word w s cur out : word w -> splits (reverse w ++ cur) s out -> splits cur (w ++ s) out.
Proof.
  intros Hw. revert cur. induction Hw as [|c w [Hc Hn] Hw IH]; intros cur H; [done|].
  cbn [app]. apply splits_step.
  - intros b. unfold match_at, and_sep_re, spaces. cbn [run before rest caps many]. rewrite Hc.
    cbn [rest strip_prefix]. destruct (N.eqb_spec 38 c); [congruence|done].
  - apply IH. by rewrite reverse_cons, <-app_assoc in H.
Qed.
Lemma splits_space d s cur out :
  is_space d = false -> d <> 38%N -> splits (32%N :: cur) (d :: s) out -> splits cur (" " ++ d :: s) out.
Proof.
  intros Hd Hn. apply splits_step. intros b. unfold match_at, and_sep_re, spaces.
  cbn [run before rest caps many]. change (is_space 32) with true. cbv iota. rewrite Hd.
  cbn [rest strip_prefix]. destruct (N.eqb_spec 38 d); [congruence|done].
Qed.
Lemma splits_and s cur out : stops is_space s -> splits [] s out -> splits cur (" && " ++ s) (reverse cur :: out).
Proof.
  intros Hs H f b Hf. destruct f as [|f]; [lia|]. cbn [split_and_re].
  assert (E : match_at (spaces ⋅ RLit "&&" ⋅ spaces) b (" && " ++ s) = Some (Pos (Some 32%N) s [])).
  { unfold match_at, spaces. destruct s as [|c s]; [reflexivity|]. cbn in Hs.
    cbn [run before rest caps many app strip_prefix N.eqb Pos.eqb].
    change (is_space 32) with true. change (is_space 38) with false. cbv iota.
    cbn [first_some run before rest caps many strip_prefix N.eqb Pos.eqb advance]. rewrite Hs. reflexivity. }
  rewrite E. cbn [before rest]. f_equal. apply H. simpl in Hf. lia.
Qed.
Lemma splits_end cur : splits cur [] [reverse cur].
Proof. intros [|f] b Hf; [simpl in Hf; lia|done]. Qed.

Lemma word_num n : covers num_char n -> word n.
Proof. intros H. eapply Forall_impl; [exact H|]. intros c Hc. split; [by apply num_char_spec|]. intros ->. discriminate. Qed.
Lemma splits_cond c s cur out :
  cond_ok c -> splits (reverse (cond_text c) ++ cur) s out -> splits cur (cond_text c ++ s) out.
Proof.
  intros Hc H. destruct (cond_number c Hc) as (x & Ex & [Hx _] & _ & Hn). destruct Hc as (Hv & Ho & _).
  unfold cond_text in *. rewrite Ex in *. cbn [operand_text] in *. rewrite !reverse_app, <-!app_assoc in H.
  rewrite <-!app_assoc. apply splits_word.
  { unfold cond_vars in Hv. cases_in Hv; rewrite Hv; by repeat constructor. }
  assert (Hw : word (cond_op c) /\ exists d o, cond_op c = d :: o /\ is_space d = false /\ d <> 38%N).
  { unfold cond_ops in Ho. cases_in Ho; rewrite Ho; (split; [by repeat constructor|by eexists _, _]). }
  destruct Hw as (Hw & d & o & E & Hd & Hd'). rewrite E at 1. cbn [app]. apply splits_space; [done..|].
  rewrite (app_comm_cons o), <-E. apply splits_word; [done|].
  pose proof (word_num _ Hx) as Hnw. destruct (num_to_string x) as [|e n] eqn:En; [done|].
  inversion Hnw as [|? ? [He He'] _]; subst. cbn [app]. apply splits_space; [done..|].
  rewrite (app_comm_cons n). by apply splits_word.
Qed.
Lemma splits_conds c l : cond_ok c -> Forall cond_ok l ->
  splits [] (conds_text (c :: l)) (map cond_text (c :: l)).
Proof.
  intros Hc Hl. rewrite conds_text_cons. apply splits_cond; [done|]. rewrite app_nil_r.
  revert c Hc. induction Hl as [|d l Hd Hl IH]; intros c Hc.
  - cbn [map more_text concat]. rewrite <-(reverse_involutive (cond_text c)) at 2. apply splits_end.
  - unfold more_text. cbn [map concat]. rewrite <-!app_assoc.
    rewrite <-(reverse_involutive (cond_text c)) at 2. apply splits_and; [by apply var_head|].
    apply splits_cond; [done|]. rewrite app_nil_r. by apply IH.
Qed.

(** A printed condition is read back. *)
Lemma cond_text_trimmed c : cond_ok c -> trimmed (cond_text c).
Proof.
  intros Hc. destruct (cond_number c Hc) as (x & Ex & [Hx _] & _ & Hn). destruct Hc as (Hv & Ho & _).
  unfold cond_text. rewrite Ex. cbn [operand_text].
  assert (Ht : trimmed (num_to_string x)).
  { split.
    - destruct Hx as [|c' n Hc' _]; [done|]. by apply num_char_spec.
    - destruct (last (num_to_string x)) as [d|] eqn:E; [|done]. apply last_Some in E as [l' E]. rewrite E in Hx.
      apply Forall_app in Hx as [_ Hx]. inversion Hx; subst. by apply num_char_spec. }
  rewrite !app_assoc. apply trimmed_app; [|done|done].
  unfold cond_vars in Hv. cases_in Hv; rewrite Hv; done.
Qed.
Lemma parse_cond_text c : cond_ok c -> parse_condition (cond_text c) = Some c.
Proof.
  intros Hc. unfold parse_condition. rewrite trim_trimmed by by apply cond_text_trimmed.
  destruct (cond_number c Hc) as (x & Ex & [Hx Hr] & Hxn & Hn). pose proof Hc as (Hv & Ho & _).
  unfold cond_text. rewrite Ex. cbn [operand_text]. set (n := num_to_string x) in *.
  assert (E : exec cond_re (var c ++ " " ++ cond_op c ++ " " ++ n) =
    Some (Pos (last n) [] [(3, n); (2, cond_op c); (1, var c)])).
  2:{ rewrite E. change (Some (Cond (var c) (cond_op c) (VNum (to_number n))) = Some c). rewrite Hr, <-Ex. by destruct c. }
  unfold cond_re. rewrite exec_begin.
  assert (G : accepts (run (RGroup 1 (alts ["p"; "c"; "len"]) ⋅ spaces ⋅ RGroup 2 (alts ["<"; "<="; ">"; ">="]) ⋅ spaces
    ⋅ RGroup 3 (RSome num_char_nm) ⋅ REnd) Some) (var c ++ " " ++ cond_op c ++ " " ++ n) []
    (Pos (last n) [] [(3, n); (2, cond_op c); (1, var c)])); [|apply (G None)].
  apply acc_seq, acc_capture; [intros K' _; by apply acc_var|].
  apply acc_seq, acc_space; [by apply op_head|]. apply acc_seq, acc_capture.
  { intros K' HK. apply acc_op; [done|]. intros b. destruct (HK b ("=" ++ " " ++ n) [(1, var c)]) as [cs' E].
    rewrite E. reflexivity. }
  apply acc_seq, acc_space; [rewrite <-(app_nil_r n); by apply num_char_head|].
  apply acc_seq. rewrite <-(app_nil_r n) at 1. by apply acc_group_last.
Qed.
Lemma parse_conds_text l : Forall cond_ok l -> parse_conditions (conds_text l) = l.
Proof.
  intros Hl. destruct Hl as [|c l Hc Hl]; [done|]. unfold parse_conditions.
  rewrite (proj2 (truthy_true _)).
  2:{ rewrite conds_text_cons. intros [E _]%app_eq_nil. pose proof (var_head c [] Hc) as _.
      unfold cond_text in E. destruct Hc as (Hv & _). unfold cond_vars in Hv. cases_in Hv; by rewrite Hv in E. }
  rewrite (splits_conds c l Hc Hl) by lia.
  assert (Hcl : Forall cond_ok (c :: l)) by by constructor. clear Hc Hl.
  induction Hcl as [|d k Hd Hk IH]; [done|]. cbn [map omap list_omap]. rewrite (parse_cond_text d Hd). f_equal. exact IH.
Qed.

(** * Reading a tier *)

Lemma cap_term_caps k i cost l cs :
  cap_get (i + k) (term_caps i cost l cs) =
  match l !! k with
  | Some fv => if used cost fv.1 then Some (cost_text cost fv.1) else cap_get (i + k) cs
  | None => cap_get (i + k) cs
  end.
Proof.
  revert k i cs. induction l as [|fv l IH]; intros k i cs; [done|]. cbn [term_caps]. destruct k as [|k].
  - rewrite Nat.add_0_r. cbn [lookup list_lookup].
    assert (L : forall j l' cs', i < j -> cap_get i (term_caps j cost l' cs') = cap_get i cs').
    { clear. intros j l'. revert j. induction l' as [|fw l' IH]; intros j cs' Hj; [done|]. cbn [term_caps].
      rewrite IH by lia. case_match; [|done]. cbn [cap_get]. by rewrite (proj2 (Nat.eqb_neq i j)) by lia. }
    rewrite L by lia. case_match; [|done]. cbn [cap_get]. by rewrite Nat.eqb_refl.
  - replace (i + S k) with (S i + k) by lia. rewrite IH. cbn [lookup list_lookup].
    assert (E : forall o, cap_get (S i + k) (if used cost fv.1 then (i, o) :: cs else cs) = cap_get (S i + k) cs).
    { intros o. case_match; [|done]. cbn [cap_get]. by rewrite (proj2 (Nat.eqb_neq (S i + k) i)) by lia. }
    by rewrite E.
Qed.
Lemma cap_lower j i cost l cs : j < i -> cap_get j (term_caps i cost l cs) = cap_get j cs.
Proof.
  revert i cs. induction l as [|fw l IH]; intros i cs Hj; [done|]. cbn [term_caps].
  rewrite IH by lia. case_match; [|done]. cbn [cap_get]. by rewrite (proj2 (Nat.eqb_neq j i)) by lia.
Qed.

(** A tier as it comes back: costs that are no numbers are zero, and the cache
    mode is the one its prices show. *)
Definition reload (conds : list TierConditionInput) (t : VisualTier) : VisualTier :=
  Tier (tier_label t) conds
    (if num_ltb (num 0) (or_zero (unit_cost t cache_create_1h_unit_cost)) then CACHE_MODE_TIMED else CACHE_MODE_GENERIC)
    (fun f => or_zero (unit_cost t f)).

Definition field_index (f : CostField) : nat :=
  match f with
  | input_unit_cost => 0 | output_unit_cost => 1 | cache_read_unit_cost => 2 | cache_create_unit_cost => 3
  | cache_create_1h_unit_cost => 4 | image_unit_cost => 5 | image_output_unit_cost => 6
  | audio_input_unit_cost => 7 | audio_output_unit_cost => 8
  end.
Lemma cost_groups_index i m f : cost_groups i m f = option_map to_number (cap_get (i + field_index f) (caps m)).
Proof. by destruct f. Qed.
(** The price groups of a printed call. *)
Lemma call_costs i l tier cs b r f :
  costs_ok tier -> (forall k, cap_get (i + k) cs = None) ->
  cost_groups (S i) (Pos b r (call_caps i l tier cs)) f =
  match f with
  | input_unit_cost | output_unit_cost => Some (or_zero (unit_cost tier f))
  | _ => if used (unit_cost tier) f then Some (or_zero (unit_cost tier f)) else None
  end.
Proof.
  intros Hc Hcs. rewrite cost_groups_index. cbn [caps]. unfold call_caps.
  assert (Hn : forall f, to_number (cost_text (unit_cost tier) f) = or_zero (unit_cost tier f)) by (intros g; apply Hc).
  set (cost := unit_cost tier) in *. set (cs' := _ :: _ :: _ :: cs).
  assert (Hhi : forall k, cap_get (i + 3 + k) cs' = None).
  { intros k. unfold cs'. cbn [cap_get]. rewrite <-Nat.add_assoc, Hcs.
    by rewrite (proj2 (Nat.eqb_neq (i + (3 + k)) (i + 2))) by lia;
       rewrite (proj2 (Nat.eqb_neq (i + (3 + k)) (i + 1))) by lia;
       rewrite (proj2 (Nat.eqb_neq (i + (3 + k)) i)) by lia. }
  assert (Hhigh : forall k fv, cost_vars !! k = Some fv ->
    option_map to_number (cap_get (S i + S (S k)) (term_caps (i + 3) cost cost_vars cs')) =
    if used cost fv.1 then Some (or_zero (cost fv.1)) else None).
  { intros k fv Hk. replace (S i + S (S k)) with (i + 3 + k) by lia. rewrite cap_term_caps, Hk.
    case_match; cbn [option_map]; [by rewrite Hn|by rewrite Hhi]. }
  destruct f; cbn [field_index]; try (by erewrite Hhigh by done).
  - replace (S i + 0) with (i + 1) by lia. rewrite cap_lower by lia. unfold cs'. cbn [cap_get].
    rewrite (proj2 (Nat.eqb_neq (i + 1) (i + 2))) by lia. rewrite Nat.eqb_refl. cbn [option_map]. by rewrite Hn.
  - replace (S i + 1) with (i + 2) by lia. rewrite cap_lower by lia. unfold cs'. cbn [cap_get].
    rewrite Nat.eqb_refl. cbn [option_map]. by rewrite Hn.
Qed.
Lemma unused_zero cost f : used cost f = false -> or_zero (cost f) = num 0.
Proof. unfold used. intros H%negb_false_iff. by apply or_zero_zero. Qed.
Lemma used_cost cost f :
  cost_or_zero (if used cost f then Some (or_zero (cost f)) else None) = or_zero (cost f).
Proof.
  unfold cost_or_zero. destruct (used cost f) eqn:E; cbn [default]; [apply or_zero_idemp|].
  rewrite (unused_zero _ _ E). done.
Qed.
Lemma read_call i l tier conds cs b r :
  tier_label tier = l -> costs_ok tier -> (forall k, cap_get (i + k) cs = None) ->
  tier_of_match i conds (Pos b r (call_caps i l tier cs)) = reload conds tier.
Proof.
  intros <- Hc Hcs. unfold tier_of_match, normalizeVisualTier, reload. cbn [p_label p_conditions p_cost default].
  f_equal.
  - unfold group, call_caps. cbn [caps]. rewrite cap_lower by lia. cbn [cap_get].
    rewrite (proj2 (Nat.eqb_neq i (i + 2))) by lia. rewrite (proj2 (Nat.eqb_neq i (i + 1))) by lia. by rewrite Nat.eqb_refl.
  - unfold getTierCacheMode. cbn [p_cache_mode p_cost]. rewrite call_costs by done.
    destruct (used (unit_cost tier) cache_create_1h_unit_cost) eqn:E; cbn [default]; [done|].
    by rewrite (unused_zero _ _ E).
  - apply functional_extensionality. intros f. rewrite call_costs by done.
    destruct f; try done; apply used_cost.
Qed.

(** Reloading is final. *)
Lemma normalize_reload conds t : normalizeVisualTier (whole (reload conds t)) = reload conds t.
Proof.
  assert (E : forall f, unit_cost (normalizeVisualTier (whole (reload conds t))) f = unit_cost (reload conds t) f).
  { intros f. destruct f; try done; apply or_zero_idemp. }
  apply functional_extensionality in E. destruct (reload conds t) eqn:Er. unfold normalizeVisualTier, whole in *.
  cbn in *. by rewrite E.
Qed.
Lemma body_reload conds t : buildTierBodyExpr (reload conds t) = buildTierBodyExpr t.
Proof.
  unfold buildTierBodyExpr, cost_parts. cbn [unit_cost reload]. rewrite !or_zero_idemp.
  do 3 f_equal. apply list_omap_ext. apply Forall2_same_length_lookup_2; [done|].
  intros j x y Hx Hy. rewrite Hx in Hy. injection Hy as <-. by rewrite or_zero_idemp.
Qed.

(** * Reading a list of tiers *)

(** A tier whose printed form can be read. *)
Record tier_ok (t : VisualTier) : Prop := {
  label_ok : tier_label t <> []; label_quotes : covers not_quote (tier_label t);
  prices_ok : costs_ok t; conds_ok : Forall cond_ok (tier_conditions t) }.
(** Two tiers or more: all but the last have conditions. *)
Fixpoint guarded (ts : list VisualTier) : Prop :=
  match ts with
  | t :: (_ :: _) as rest => tier_conditions t <> [] /\ guarded rest
  | _ => True
  end.
Definition config_ok (cfg : VisualConfig) : Prop :=
  tiers cfg <> [] /\ Forall tier_ok (tiers cfg) /\ guarded (tiers cfg).

Definition named_call (t : VisualTier) : jsstr := tier_call (tier_label t) t.
Definition guarded_call (t : VisualTier) : jsstr := conds_text (tier_conditions t) ++ " ? " ++ named_call t.
Fixpoint tiers_text (ts : list VisualTier) : jsstr :=
  match ts with
  | [] => []
  | [t] => named_call t
  | t :: rest => guarded_call t ++ " : " ++ tiers_text rest
  end.
Lemma tiers_text_cons t u ts : tiers_text (t :: u :: ts) = guarded_call t ++ " : " ++ tiers_text (u :: ts).
Proof. done. Qed.

Lemma str_or_named l d : l <> [] -> str_or l d = l.
Proof. intros H. unfold str_or. by rewrite (proj2 (truthy_true l) H). Qed.
Lemma conds_text_truthy l : Forall cond_ok l -> truthy (conds_text l) = negb (Nat.eqb (length l) 0).
Proof.
  intros Hl. destruct Hl as [|c l (Hv & _) _]; [done|]. rewrite conds_text_cons. unfold cond_text.
  unfold cond_vars in Hv. cases_in Hv; by rewrite Hv.
Qed.
(** The parts from the index [i] on. *)
Lemma parts_text ts n i : ts <> [] -> Forall tier_ok ts -> guarded ts -> n = i + length ts ->
  join " : " (imap (fun k => tier_part n (i + k)) ts) = tiers_text ts.
Proof.
  revert i. induction ts as [|t ts IH]; intros i Hne Hok Hg Hn; [done|]. inversion Hok as [|? ? [Hl Hq Hc Ho] Hok']; subst.
  assert (Hpart : tier_part (i + length (t :: ts)) (i + 0) t =
    if Nat.ltb (i + 0) (i + length (t :: ts) - 1) && truthy (conds_text (tier_conditions t))
    then guarded_call t else named_call t).
  { unfold tier_part. rewrite str_or_named, complete_ok by done. done. }
  destruct ts as [|u ts].
  - cbn [imap]. rewrite Hpart. replace (Nat.ltb _ _) with false by (symmetry; apply Nat.ltb_ge; simpl; lia). done.
  - destruct Hg as [Hcn Hg]. rewrite imap_cons, join_cons by done. rewrite Hpart.
    replace (Nat.ltb _ _) with true by (symmetry; apply Nat.ltb_lt; simpl; lia).
    rewrite conds_text_truthy by done. destruct (tier_conditions t) as [|c cs] eqn:E; [done|]. cbn [length Nat.eqb negb andb].
    rewrite tiers_text_cons. do 2 f_equal. rewrite <-(IH (S i)); [|done|done|done|simpl; lia].
    f_equal. apply imap_ext. intros k x _. unfold compose. cbn [length]. f_equal; lia.
Qed.
Lemma generate_text t u ts : Forall tier_ok (t :: u :: ts) -> guarded (t :: u :: ts) ->
  generateExprFromVisualConfig (Some (Config (t :: u :: ts))) = tiers_text (t :: u :: ts).
Proof. intros Hok Hg. apply (parts_text (t :: u :: ts) (length (t :: u :: ts)) 0); done. Qed.

(** ** One match *)

Definition matched_call (t : VisualTier) (cs : list (nat * jsstr)) (r : jsstr) : pos :=
  Pos (Some rparen) r (call_caps 2 (tier_label t) t cs).
Lemma match_named t r b : tier_ok t -> match_at tierRe b (named_call t ++ r) = Some (matched_call t [] r).
Proof.
  intros []. assert (G : accepts (run tierRe Some) (named_call t ++ r) [] (matched_call t [] r)); [|apply (G b)].
  apply acc_seq. apply (acc_opt_skip _ ("tier(" ++ _)); [intros b'; reflexivity|].
  apply acc_call; [done|done|]. intros b'. reflexivity.
Qed.
Lemma match_guarded t r b : tier_ok t -> tier_conditions t <> [] ->
  match_at tierRe b (guarded_call t ++ r) = Some (matched_call t [(1, conds_text (tier_conditions t))] r).
Proof.
  intros [] Hn. set (v := matched_call _ _ _).
  assert (G : accepts (run tierRe Some) (guarded_call t ++ r) [] v); [|apply (G b)].
  unfold guarded_call. rewrite <-!app_assoc. apply acc_seq, acc_guard; [done..|].
  apply acc_call; [done|done|]. intros b'. reflexivity.
Qed.
Lemma search_here r b s x : match_at r b s = Some x -> search r b s = Some x.
Proof. destruct s as [|c s]; intros H; cbn [search]; by rewrite H. Qed.
Lemma search_next s b : search tierRe b (" : " ++ s) = search tierRe (Some 32%N) s.
Proof.
  assert (E : forall b c t, c = 32%N \/ c = 58%N -> search tierRe b (c :: t) = search tierRe (Some c) t).
  { intros b' c t [-> | ->]; reflexivity. }
  cbn [app]. by rewrite !E by (by left || by right).
Qed.

(** ** All matches *)

Definition tier_read (m : pos) : VisualTier := tier_of_match 2 (parse_conditions (group 1 m)) m.
Lemma group_guard t cs r : group 1 (matched_call t cs r) = default [] (cap_get 1 cs).
Proof. unfold group, matched_call, call_caps. cbn [caps]. by rewrite cap_lower by lia. Qed.
Lemma read_match t cs r : tier_ok t -> (forall k, cap_get (2 + k) cs = None) ->
  tier_read (matched_call t cs r) = reload (parse_conditions (default [] (cap_get 1 cs))) t.
Proof. intros [] Hcs. unfold tier_read. rewrite group_guard. by apply read_call. Qed.
Lemma read_named t r : tier_ok t -> tier_read (matched_call t [] r) = reload [] t.
Proof. intros Ht. by rewrite read_match. Qed.
Lemma read_guarded t r : tier_ok t ->
  tier_read (matched_call t [(1, conds_text (tier_conditions t))] r) = reload (tier_conditions t) t.
Proof. intros Ht. rewrite read_match by done. f_equal. apply parse_conds_text, Ht. Qed.

Fixpoint reload_all (ts : list VisualTier) : list VisualTier :=
  match ts with
  | [] => []
  | [t] => [reload [] t]
  | t :: rest => reload (tier_conditions t) t :: reload_all rest
  end.
Lemma exec_tiers ts f b : ts <> [] -> Forall tier_ok ts -> guarded ts -> length (tiers_text ts) < f ->
  map tier_read (exec_all f tierRe b (tiers_text ts)) = reload_all ts.
Proof.
  intros Hne Hok. revert f b. induction Hok as [|t ts Ht Hok IH]; intros f b Hg Hf; [done|].
  destruct f as [|f]; [lia|]. destruct ts as [|u ts].
  - cbn [exec_all tiers_text]. rewrite (search_here _ _ _ (matched_call t [] [])).
    2:{ pose proof (match_named t [] b Ht) as E. by rewrite app_nil_r in E. }
    cbn [map matched_call rest]. rewrite read_named by done. by destruct f.
  - destruct Hg as [Hc Hg]. rewrite tiers_text_cons in *. cbn [exec_all].
    rewrite (search_here _ _ _ _ (match_guarded t _ b Ht Hc)). cbn [map matched_call rest before].
    rewrite read_guarded by done. change (reload_all (t :: u :: ts)) with (reload (tier_conditions t) t :: reload_all (u :: ts)).
    f_equal. rewrite !length_app in Hf. destruct f as [|f]; [simpl in Hf; lia|].
    transitivity (map tier_read (exec_all (S f) tierRe (Some 32%N) (tiers_text (u :: ts)))).
    + cbn [exec_all]. by rewrite search_next.
    + apply IH; [done|done|simpl in *; lia].
Qed.

(** ** What is printed has no version and begins with a condition or a call *)

Lemma no_version s : match s with c :: _ => c <> 118%N | [] => True end -> strip_version s = s.
Proof.
  intros H. unfold strip_version, prefix_re. rewrite exec_begin. destruct s as [|c s]; [done|].
  cbn [run rest strip_prefix]. destruct (N.eqb_spec 118 c); [by subst|done].
Qed.
Lemma guarded_not_single t r : tier_ok t -> tier_conditions t <> [] -> exec singleRe (guarded_call t ++ r) = None.
Proof.
  intros [_ _ _ Ho] Hn. unfold guarded_call, singleRe. rewrite exec_begin. destruct Ho as [|c l (Hv & _) _]; [done|].
  rewrite conds_text_cons. unfold cond_text. unfold cond_vars in Hv. cases_in Hv; by rewrite Hv.
Qed.
Lemma guarded_head t r : tier_ok t -> tier_conditions t <> [] ->
  match guarded_call t ++ r with c :: _ => c <> 118%N | [] => False end.
Proof.
  intros [_ _ _ Ho] Hn. unfold guarded_call. destruct Ho as [|c l (Hv & _) _]; [done|].
  rewrite conds_text_cons. unfold cond_text. unfold cond_vars in Hv. cases_in Hv; by rewrite Hv.
Qed.
Lemma match_single t : tier_ok t ->
  exec singleRe (named_call t) = Some (Pos (Some rparen) [] (call_caps 1 (tier_label t) t [])).
Proof.
  intros []. unfold singleRe. rewrite exec_begin. set (v := Pos (Some rparen) _ _).
  assert (G : accepts (run (call_re 1 REnd) Some) (named_call t ++ []) [] v).
  { apply acc_call; [done|done|]. intros b'. reflexivity. }
  rewrite <-(app_nil_r (named_call t)). apply (G None).
Qed.

(** * The round trip *)

(** The configuration that comes back: conditions of the last of several
    tiers are not part of the expression. *)
Definition reloaded (cfg : VisualConfig) : VisualConfig :=
  match tiers cfg with
  | [t] => Config [reload (tier_conditions t) t]
  | ts => Config (reload_all ts)
  end.
Lemma normalize_reload_all ts : ts <> [] -> normalizeVisualConfig (Some (Config (reload_all ts))) = Config (reload_all ts).
Proof.
  intros Hne.
  assert (E : forall ts, map (fun t => normalizeVisualTier (whole t)) (reload_all ts) = reload_all ts).
  { clear. induction ts as [|t [|u ts] IH]; [done|cbn; by rewrite normalize_reload|].
    change (reload_all (t :: u :: ts)) with (reload (tier_conditions t) t :: reload_all (u :: ts)).
    cbn [map]. by rewrite normalize_reload, IH. }
  specialize (E ts). destruct (reload_all ts) as [|r rs] eqn:Er; [by destruct ts as [|t [|u ts]]|].
  unfold normalizeVisualConfig. by rewrite E.
Qed.
Lemma reload_ok conds t : tier_ok t -> Forall cond_ok conds -> tier_ok (reload conds t).
Proof.
  intros [] Ho. split; [done|done| |done]. intros f. cbn [unit_cost reload]. rewrite or_zero_idemp. apply prices_ok0.
Qed.
Lemma call_reload l conds t : tier_call l (reload conds t) = tier_call l t.
Proof. unfold tier_call. by rewrite body_reload. Qed.
Lemma named_reload conds t : named_call (reload conds t) = named_call t.
Proof. apply call_reload. Qed.
Lemma reload_all_text ts : ts <> [] -> Forall tier_ok ts -> guarded ts ->
  Forall tier_ok (reload_all ts) /\ guarded (reload_all ts) /\ tiers_text (reload_all ts) = tiers_text ts.
Proof.
  intros Hne Hok. induction Hok as [|t ts Ht Hok IH]; intros Hg; [done|]. destruct ts as [|u ts].
  - split_and!; [constructor; [by apply reload_ok|constructor]|done|]. apply named_reload.
  - destruct Hg as [Hc Hg]. destruct (IH ltac:(done) Hg) as (H1 & H2 & H3).
    change (reload_all (t :: u :: ts)) with (reload (tier_conditions t) t :: reload_all (u :: ts)).
    split_and!; [constructor; [apply reload_ok; [done|apply Ht]|done]|by destruct ts|].
    destruct (reload_all (u :: ts)) as [|r rs] eqn:E; [by destruct ts|].
    rewrite !tiers_text_cons, H3. f_equal. unfold guarded_call. by rewrite named_reload.
Qed.

(** The parser on the three shapes. *)
Lemma parse_many s ts :
  truthy s = true -> strip_version s = s -> exec singleRe s = None ->
  map tier_read (match_all tierRe s) = ts -> ts <> [] ->
  normalizeVisualConfig (Some (Config ts)) = Config ts ->
  generateExprFromVisualConfig (Some (Config ts)) = s -> tryParseVisualConfig s = Some (Config ts).
Proof.
  intros Hs Hv H1 Hm Hne Hn Hg. unfold tryParseVisualConfig. rewrite Hs, Hv, H1. cbn [negb].
  change (fun m => tier_of_match 2 (parse_conditions (group 1 m)) m) with tier_read. rewrite Hm, Hn, Hg, str_eqb_refl.
  by destruct ts.
Qed.
Lemma generate_single t : tier_ok t ->
  generateExprFromVisualConfig (Some (Config [t])) =
  match tier_conditions t with [] => named_call t | _ => guarded_call t ++ " : " ++ FREE_EXPR end.
Proof.
  intros [Hl _ _ Ho]. unfold generateExprFromVisualConfig, guarded_call, named_call.
  rewrite str_or_named, complete_ok, conds_text_truthy by done.
  destruct (tier_conditions t); [done|]. cbn [length Nat.eqb negb]. by rewrite <-!app_assoc.
Qed.
Lemma guarded_truthy t r : tier_ok t -> tier_conditions t <> [] -> truthy (guarded_call t ++ r) = true.
Proof. intros Ht Hc. pose proof (guarded_head t r Ht Hc) as H. by destruct (guarded_call t ++ r). Qed.
Lemma guarded_version t r : tier_ok t -> tier_conditions t <> [] -> strip_version (guarded_call t ++ r) = guarded_call t ++ r.
Proof. intros Ht Hc. apply no_version. pose proof (guarded_head t r Ht Hc) as H. by destruct (guarded_call t ++ r). Qed.

Lemma parse_generate cfg : config_ok cfg ->
  tryParseVisualConfig (generateExprFromVisualConfig (Some cfg)) = Some (reloaded cfg).
Proof.
  destruct cfg as [[|t [|u ts]]]; intros (Hne & Hok & Hg); cbn [tiers] in *; [done| |].
  - apply Forall_cons in Hok as [Ht _]. rewrite generate_single by done. cbn [reloaded tiers].
    assert (Hr : tier_ok (reload (tier_conditions t) t)) by (apply reload_ok; [done|apply Ht]).
    destruct (tier_conditions t) as [|c cs] eqn:Ec.
    + unfold tryParseVisualConfig. rewrite no_version by done. rewrite match_single by done. cbn [negb truthy].
      rewrite read_call; [|done|apply Ht|by intros k]. cbn [normalizeVisualConfig map]. by rewrite normalize_reload.
    + assert (Hc : tier_conditions t <> []) by (by rewrite Ec).
      apply parse_many; [by apply guarded_truthy|by apply guarded_version|by apply guarded_not_single| |done| |].
      * unfold match_all. cbn [exec_all]. rewrite (search_here _ _ _ _ (match_guarded t _ None Ht Hc)).
        cbn [map matched_call rest before]. rewrite read_guarded, Ec by done.
        set (n := length _). destruct n as [|n]; [done|]. by vm_compute.
      * cbn [normalizeVisualConfig map]. by rewrite normalize_reload.
      * rewrite generate_single by done. cbn [tier_conditions reload]. unfold guarded_call. rewrite named_reload.
        cbn [tier_conditions reload]. by rewrite Ec.
  - rewrite generate_text by done. cbn [reloaded tiers]. destruct (reload_all_text (t :: u :: ts) ltac:(done) Hok Hg) as (H1 & H2 & H3).
    pose proof (normalize_reload_all (t :: u :: ts) ltac:(done)) as Hn.
    pose proof (exec_tiers (t :: u :: ts) _ None ltac:(done) Hok Hg (Nat.lt_succ_diag_r _)) as Hm.
    apply Forall_cons in Hok as [Ht _]. destruct Hg as [Hc _].
    apply parse_many; [by apply guarded_truthy|by apply guarded_version|by apply guarded_not_single|exact Hm|by destruct ts|exact Hn|].
    rewrite <-H3. destruct (reload_all (t :: u :: ts)) as [|r [|r' rs]] eqn:E; [by destruct ts|by destruct ts|].
    by apply generate_text.
Qed.

Lemma generate_reloaded cfg : config_ok cfg ->
  generateExprFromVisualConfig (Some (reloaded cfg)) = generateExprFromVisualConfig (Some cfg).
Proof.
  destruct cfg as [[|t [|u ts]]]; intros (Hne & Hok & Hg); cbn [tiers] in *; [done| |].
  - apply Forall_cons in Hok as [Ht _]. unfold reloaded. cbn [tiers]. 
    rewrite !generate_single by (done || by apply reload_ok; [|apply Ht]). cbn [tier_conditions reload].
    unfold guarded_call. rewrite named_reload. done.
  - destruct (reload_all_text (t :: u :: ts) ltac:(done) Hok Hg) as (H1 & H2 & H3).
    rewrite (generate_text t u ts), <-H3 by done. unfold reloaded. cbn [tiers].
    destruct (reload_all (t :: u :: ts)) as [|r [|r' rs]] eqn:E; [by destruct ts|by destruct ts|].
    by apply generate_text.
Qed.
(** ** Deciding whether a configuration can be read back *)

Definition all_fields : list CostField :=
  [input_unit_cost; output_unit_cost; cache_read_unit_cost; cache_create_unit_cost; cache_create_1h_unit_cost;
   image_unit_cost; image_output_unit_cost; audio_input_unit_cost; audio_output_unit_cost].
#[export] Instance jsnum_dec : EqDecision jsnum.
Proof. solve_decision. Defined.
#[export] Instance covers_dec p s : Decision (covers p s).
Proof. unfold covers. apply _. Defined.
#[export] Instance reads_back_dec x : Decision (reads_back x).
Proof. unfold reads_back. apply _. Defined.
#[export] Instance costs_ok_dec t : Decision (costs_ok t).
Proof.
  destruct (decide (Forall (fun f => reads_back (or_zero (unit_cost t f))) all_fields)) as [H|H].
  - left. intros f. rewrite Forall_forall in H. apply H. destruct f; unfold all_fields; set_solver.
  - right. intros Hc. apply H. apply Forall_forall. intros f _. apply Hc.
Defined.
#[export] Instance tier_cond_ok_dec c : Decision (cond_ok c).
Proof. unfold cond_ok. destruct (value c); apply _. Defined.
#[export] Instance tier_ok_dec t : Decision (tier_ok t).
Proof.
  destruct (decide (tier_label t <> [] /\ covers not_quote (tier_label t) /\ costs_ok t /\
                    Forall cond_ok (tier_conditions t))) as [H|H].
  - left. destruct H as (? & ? & ? & ?). by constructor.
  - right. intros []. by apply H.
Defined.
#[export] Instance guarded_dec ts : Decision (guarded ts).
Proof.
  induction ts as [|t ts IH]; [by left|]. destruct ts as [|u ts]; [by left|]. cbn [guarded].
  destruct (tier_conditions t) as [|c cs]; [right; by intros [? _]|].
  destruct IH as [H|H]; [by left|right; by intros [_ ?]].
Defined.
#[export] Instance config_ok_dec cfg : Decision (config_ok cfg).
Proof. unfold config_ok. destruct (tiers cfg); [by right; intros [? _]|]. apply _. Defined.

(** * Theorems *)

(** C18: what the visual editor prints it reads back, for configurations of at
    least one tier whose labels are not empty and free of quotes, whose
    conditions use the variables and comparisons offered, whose prices
    and condition values have a text that is their number again, and with
    conditions on all but the last of several tiers: parsing the printed
    expression gives the same labels, conditions and prices in the same order
    (without the conditions of the last of several tiers, which are not
    printed, and with the cache mode the prices show), and printing that
    gives the same expression. Outside of these conditions text is lost:
    quoted_label_unread, unguarded_tier_printed, last_conditions_unprinted. *)
Theorem tiers_roundtrip cfg : config_ok cfg ->
  tryParseVisualConfig (generateExprFromVisualConfig (Some cfg)) = Some (reloaded cfg) /\
  generateExprFromVisualConfig (Some (reloaded cfg)) = generateExprFromVisualConfig (Some cfg).
Proof. intros H. split; [by apply parse_generate|by apply generate_reloaded]. Qed.

Definition sample_price (s : jsstr) : jsnum := to_number s.
Definition sample_config : VisualConfig :=
  Config [Tier "short, cached" [Cond "len" "<=" (VNum (num 32000)); Cond "c" ">=" (VNum (sample_price "1e+21"))]
            CACHE_MODE_TIMED
            (fun f => match f with input_unit_cost => sample_price "0.8" | output_unit_cost => sample_price "2.5e-7"
                      | cache_create_1h_unit_cost => num 6 | image_output_unit_cost => num (-3) | audio_input_unit_cost => nan
                      | _ => num 0 end);
          Tier "mid" [Cond "p" ">" (VNum (num 200))] CACHE_MODE_GENERIC (fun _ => num 1);
          Tier "rest : tier(" [Cond "len" "<" (VNum (num 5))] CACHE_MODE_TIMED (fun _ => nan)].
Lemma tiers_roundtrip_witness :
  generateExprFromVisualConfig (Some sample_config) =
    "len <= 32000 && c >= 1e+21 ? tier(`short, cached`, p * 0.8 + c * 2.5e-7 + cc1h * 6 + img_o * -3) : p > 200 ? tier(`mid`, p * 1 + c * 1 + cr * 1 + cc * 1 + cc1h * 1 + img * 1 + img_o * 1 + ai * 1 + ao * 1) : tier(`rest : tier(`, p * 0 + c * 0)" /\
  tryParseVisualConfig (generateExprFromVisualConfig (Some sample_config)) = Some (reloaded sample_config).
Proof.
  split; [vm_compute; reflexivity|]. apply tiers_roundtrip.
  apply (proj1 (bool_decide_eq_true (config_ok sample_config))). vm_compute. reflexivity.
Defined.

(** Whatever is read from several tiers prints as the text that was read, up
    to white space and the version in front. *)
Theorem parsed_text_kept s cfg :
  tryParseVisualConfig s = Some cfg -> exec singleRe (strip_version s) = None ->
  tiers cfg <> [] /\ squeeze (generateExprFromVisualConfig (Some cfg)) = squeeze (strip_version s).
Proof.
  unfold tryParseVisualConfig. destruct (truthy s); [|done]. cbn [negb]. intros H E. rewrite E in H.
  destruct (map _ _) as [|t ts]; [done|]. case_match eqn:Hs; [|done]. injection H as <-.
  split; [done|by apply str_eqb_true].
Qed.
(** The conditions of the last of several tiers are not part of the
    expression. *)
Theorem last_conditions_unprinted t ts l conds m cost conds' :
  generateExprFromVisualConfig (Some (Config (t :: ts ++ [Tier l conds m cost]))) =
  generateExprFromVisualConfig (Some (Config (t :: ts ++ [Tier l conds' m cost]))).
Proof.
  assert (E : forall cs, generateExprFromVisualConfig (Some (Config (t :: ts ++ [Tier l cs m cost]))) =
    join " : " (imap (tier_part (S (length ts + 1))) (t :: ts) ++ [tier_part (S (length ts + 1)) (S (length ts)) (Tier l cs m cost)])).
  { intros cs. transitivity (join " : " (imap (tier_part (length (t :: ts ++ [Tier l cs m cost]))) (t :: ts ++ [Tier l cs m cost]))).
    - by destruct ts.
    - rewrite app_comm_cons, imap_app. cbn [length imap]. rewrite length_app. cbn [length].
      unfold compose. by rewrite Nat.add_0_r. }
  rewrite !E. do 3 f_equal. unfold tier_part. replace (Nat.ltb _ _) with false; [done|].
  symmetry. apply Nat.ltb_ge. lia.
Qed.
(** A quote in a label is not escaped, a price that is no number is read as a
    free one, and a tier without conditions before another one is printed as
    text that is no expression, which the parser accepts. *)
Lemma quoted_label_unread :
  let cfg := Config [Tier "a`b" [] CACHE_MODE_GENERIC (fun _ => num 1)] in
  tryParseVisualConfig (generateExprFromVisualConfig (Some cfg)) = None.
Proof. vm_compute. reflexivity. Qed.
Lemma malformed_price_free :
  generateExprFromVisualConfig (tryParseVisualConfig "tier(`base`, p * 1.2.3 + c * 2)") = "tier(`base`, p * 0 + c * 2)".
Proof. vm_compute. reflexivity. Qed.
Lemma unguarded_tier_printed :
  let cfg := Config [normalizeVisualTier (free_tier "a" None); normalizeVisualTier (free_tier "b" None)] in
  generateExprFromVisualConfig (Some cfg) = "tier(`a`, p * 0 + c * 0) : tier(`b`, p * 0 + c * 0)" /\
  option_map (fun c => generateExprFromVisualConfig (Some c)) (tryParseVisualConfig (generateExprFromVisualConfig (Some cfg)))
  = Some (generateExprFromVisualConfig (Some cfg)).
Proof. split; vm_compute; reflexivity. Qed.
Lemma version_dropped :
  option_map (fun c => generateExprFromVisualConfig (Some c)) (tryParseVisualConfig "v2:tier(`base`, p * 1 + c * 2)")
  = Some ("tier(`base`, p * 1 + c * 2)" : jsstr).
Proof. vm_compute. reflexivity. Qed.

End Tiers.
