(* ===== verification/TieredEditor.v ===== *)
(** The editor of tiered prices
    (src/web/src/features/system-settings/models/tiered-pricing-editor.tsx):
    numeric inputs, the handlers of the tier cards and of the request rules,
    the presets, and the editor itself as a state machine that commits, runs
    its effects and commits again until nothing changes. *)
From S2P Require Import Prelude JsNumber JsInteger Json Regex BillingExpr TierExpr Pricing.
Import BillingExpr TierExpr.

Definition exn_bind {A B} (m : exn A) (f : A -> exn B) : exn B :=
  match m with Throws => Throws | Returns x => f x end.
Declare Scope exn_scope.
Delimit Scope exn_scope with exn.
Notation "'let!' x ':=' m 'in' k" := (exn_bind m (fun x => k)) (at level 10, x name, k at level 200) : exn_scope.
Open Scope exn_scope.

(** * Numeric inputs *)

Module DraftInput.
Definition formatNumberDraft (v : operand) : jsstr :=
  match v with
  | VStr s => s
  | VNum x => if is_finite x then num_to_string x else "0"
  end.
Definition parseNumberDraft (v : jsstr) : jsnum :=
  if truthy (trim v) then let next := string_to_number v in if is_finite next then next else num 0 else num 0.
Definition isZeroDraft (v : jsstr) : bool := truthy (trim v) && num_eqb (parseNumberDraft v) (num 0).
Definition unitCostToPrice (uc : jsnum) : jsnum := or_zero uc.
Definition priceToUnitCost (price : jsnum) : jsnum := or_zero price.

(** A token count beside its input; [toLocaleString] is a parameter. *)
Definition formatTokenHint (toLocaleString : jsnum -> jsstr) (n : option operand) : jsstr :=
  let v := match n with Some (VNum x) => x | Some (VStr s) => string_to_number s | None => nan end in
  match n with
  | None | Some (VStr []) => []
  | Some _ =>
      if is_nan v then []
      else if num_eqb v (num 0) then "= 0"
      else if num_leb (num 1000000) v then "= " ++ toLocaleString (num_div v (num 1000000)) ++ "M tokens"
      else if num_leb (num 1000) v then "= " ++ toLocaleString (num_div v (num 1000)) ++ "K tokens"
      else "= " ++ toLocaleString v ++ " tokens"
  end.

(** DraftNumberInput: the text shown and whether the input has the focus.
    The events give the number passed to [onValueChange], if any. *)
Record draft_input := Draft { draft : jsstr; focused : bool }.
Definition mount (v : operand) : draft_input := Draft (formatNumberDraft v) false.
(** The effect on [focused] and [value]. *)
Definition value_effect (v : operand) (d : draft_input) : draft_input :=
  if focused d then d else Draft (formatNumberDraft v) false.
Definition handleChange (text : jsstr) (d : draft_input) : draft_input * jsnum :=
  (Draft text (focused d), parseNumberDraft text).
Definition handleFocus (d : draft_input) : draft_input := Draft (draft d) true.
Definition handleBlur (d : draft_input) : draft_input * jsnum :=
  let normalized := parseNumberDraft (draft d) in (Draft (num_to_string normalized) false, normalized).
End DraftInput.
Import DraftInput.

(** * Tiers *)

Module VisualEditor.
Definition CONDITION_INPUT_OPTIONS : list (jsstr * jsstr) := [
  ("len" : jsstr, "Full input length" : jsstr); ("p" : jsstr, "Billable input tokens" : jsstr);
  ("c" : jsstr, "Billable output tokens" : jsstr)].
Definition OPS : list jsstr := ["<"; "<="; ">"; ">="].
Definition CACHE_PRICE_VARS : list BillingVar :=
  List.filter (fun v => bool_decide (var_group v = Some ("cache" : jsstr))) BILLING_EXTRA_VARS.
Definition MEDIA_PRICE_VARS : list BillingVar :=
  List.filter (fun v => bool_decide (var_group v = Some ("media" : jsstr))) BILLING_EXTRA_VARS.

(** The inputs of a condition row. *)
Definition set_var (v : jsstr) (c : TierConditionInput) : TierConditionInput := Cond v (cond_op c) (value c).
Definition set_op (o : jsstr) (c : TierConditionInput) : TierConditionInput := Cond (var c) o (value c).
Definition set_value (x : jsnum) (c : TierConditionInput) : TierConditionInput := Cond (var c) (cond_op c) (VNum x).

(** The handlers of a tier card; an index comes from the rows shown. *)
Definition with_conditions (l : list TierConditionInput) (t : VisualTier) : VisualTier :=
  Tier (tier_label t) l (cache_mode t) (unit_cost t).
Definition set_label (l : jsstr) (t : VisualTier) : VisualTier :=
  Tier l (tier_conditions t) (cache_mode t) (unit_cost t).
Definition handleConditionChange (i : nat) (next : TierConditionInput) (t : VisualTier) : VisualTier :=
  with_conditions (<[i := next]> (tier_conditions t)) t.
Definition handleConditionRemove (i : nat) (t : VisualTier) : VisualTier :=
  with_conditions (delete i (tier_conditions t)) t.
Definition handlePriceChange (f : CostField) (v : jsnum) (t : VisualTier) : VisualTier :=
  Tier (tier_label t) (tier_conditions t) (cache_mode t) (upd f v (unit_cost t)).
(** The price typed into the field of a tier. *)
Definition price_typed (f : CostField) (next : jsnum) : VisualTier -> VisualTier :=
  handlePriceChange f (priceToUnitCost next).
Definition handleCacheModeChange (mode : CacheMode) (t : VisualTier) : VisualTier :=
  Tier (tier_label t) (tier_conditions t) mode
    (upd cache_create_1h_unit_cost
       (match mode with CACHE_MODE_TIMED => unit_cost t cache_create_1h_unit_cost | CACHE_MODE_GENERIC => num 0 end)
       (unit_cost t)).
Definition media_fields : list CostField :=
  [image_unit_cost; image_output_unit_cost; audio_input_unit_cost; audio_output_unit_cost].
Lemma media_fields_registry : map (fun f => Some (field_name f)) media_fields = map tierField MEDIA_PRICE_VARS.
Proof. reflexivity. Qed.
Definition hasMediaPricing (t : VisualTier) : bool :=
  existsb (fun f => num_ltb (num 0) (unitCostToPrice (unit_cost t f))) media_fields.
(** Whether the media prices are unfolded: at first, after the effect on
    [hasMediaPricing], and after a click. *)
Definition initial_media_open (t : VisualTier) : bool := hasMediaPricing t.
Definition media_effect (t : VisualTier) (mediaOpen : bool) : bool := if hasMediaPricing t then true else mediaOpen.
Definition toggle_media (mediaOpen : bool) : bool := negb mediaOpen.
(** The cache prices a card shows. *)
Definition shown_cache_vars (t : VisualTier) : list BillingVar :=
  List.filter (fun v => negb (str_eqb (key v) "cc1h" && negb (bool_decide (getTierCacheMode (whole t) = CACHE_MODE_TIMED))))
    CACHE_PRICE_VARS.

(** The handlers of the list of tiers. *)
Definition default_condition (v : jsstr) : TierConditionInput := Cond v "<" (VNum (num 200000)).
Definition handleTierChange (index : nat) (next : VisualTier) (visualConfig : option VisualConfig) : VisualConfig :=
  Config (<[index := normalizeVisualTier (whole next)]> (tiers (normalizeVisualConfig visualConfig))).
Definition bound_last (ts : list VisualTier) : list VisualTier :=
  match last ts with
  | Some t =>
      match tier_conditions t with
      | [] => <[length ts - 1 := normalizeVisualTier (whole (with_conditions [default_condition "len"] t))]> ts
      | _ => ts
      end
  | None => ts
  end.
Definition handleAddTier (visualConfig : option VisualConfig) : VisualConfig :=
  let ts := bound_last (tiers (normalizeVisualConfig visualConfig)) in
  Config (ts ++ [normalizeVisualTier (free_tier ("tier_" ++ digits (Z.of_nat (length ts + 1))) None)]).
Definition handleRemoveTier (index : nat) (visualConfig : option VisualConfig) : VisualConfig :=
  let config := normalizeVisualConfig visualConfig in
  match delete index (tiers config) with [] => config | ts => Config ts end.
(** [None]: nothing changes. *)
Definition handleAddCondition (index : nat) (visualConfig : option VisualConfig) : option VisualConfig :=
  let config := normalizeVisualConfig visualConfig in
  match tiers config !! index with
  | Some tier =>
      if Nat.leb 2 (length (tier_conditions tier)) then None
      else
        let nextVar : jsstr := if has ("len" : jsstr) (map var (tier_conditions tier)) then "c" else "len" in
        Some (Config (imap (fun i current =>
                if Nat.eqb i index then with_conditions (tier_conditions tier ++ [default_condition nextVar]) current
                else current) (tiers config)))
  | None => None
  end.
End VisualEditor.
Import VisualEditor.

(** * Request rules *)

Module RuleEditor.
Definition with_rule_conditions (l : list RequestCondition) (g : RequestRuleGroup) : RequestRuleGroup :=
  {| rule_conditions := l; multiplier := multiplier g; conditionText := conditionText g; matched := matched g |}.
Definition handleSourceChange (source : jsstr) (c : RequestCondition) : RequestCondition :=
  if str_eqb source "time" then createEmptyTimeCondition
  else if str_eqb source "header" || str_eqb source "param" then ParamHeaderCondition (source_of source) [] MATCH_EQ []
  else c.
Definition handleModeChange (mode : jsstr) (c : RequestCondition) : RequestCondition :=
  match c with
  | ParamHeaderCondition s p _ v => ParamHeaderCondition s p mode v
  | TimeCondition f tz _ v a b => TimeCondition f tz mode v a b
  end.
(** The inputs of a time condition; numbers are stored as texts. *)
Definition set_time_func (fn : jsstr) (c : RequestCondition) : RequestCondition :=
  match c with TimeCondition _ tz m v a b => TimeCondition fn tz m v a b | _ => c end.
Definition set_timezone (tz : jsstr) (c : RequestCondition) : RequestCondition :=
  match c with TimeCondition f _ m v a b => TimeCondition f tz m v a b | _ => c end.
Definition set_range_start (x : jsnum) (c : RequestCondition) : RequestCondition :=
  match c with TimeCondition f tz m v _ b => TimeCondition f tz m v (num_to_string x) b | _ => c end.
Definition set_range_end (x : jsnum) (c : RequestCondition) : RequestCondition :=
  match c with TimeCondition f tz m v a _ => TimeCondition f tz m v a (num_to_string x) | _ => c end.
Definition set_time_value (x : jsnum) (c : RequestCondition) : RequestCondition :=
  match c with TimeCondition f tz m _ a b => TimeCondition f tz m (num_to_string x) a b | _ => c end.
(** The inputs of a condition on a parameter or header. *)
Definition set_path (p : jsstr) (c : RequestCondition) : RequestCondition :=
  match c with ParamHeaderCondition s _ m v => ParamHeaderCondition s p m v | _ => c end.
Definition set_text (v : jsstr) (c : RequestCondition) : RequestCondition :=
  match c with ParamHeaderCondition s p m _ => ParamHeaderCondition s p m v | _ => c end.

Definition handleConditionChange (i : nat) (next : RequestCondition) (g : RequestRuleGroup) : RequestRuleGroup :=
  with_rule_conditions (<[i := next]> (rule_conditions g)) g.
Definition handleAddCondition (timeMode : bool) (g : RequestRuleGroup) : RequestRuleGroup :=
  with_rule_conditions (rule_conditions g ++ [if timeMode then createEmptyTimeCondition else createEmptyCondition]) g.
Definition remove_condition (i : nat) (g : RequestRuleGroup) : RequestRuleGroup :=
  with_rule_conditions (delete i (rule_conditions g)) g.
Definition set_multiplier (x : jsnum) (g : RequestRuleGroup) : RequestRuleGroup :=
  {| rule_conditions := rule_conditions g; multiplier := num_to_string x; conditionText := conditionText g;
     matched := matched g |}.
Definition change_group (i : nat) (next : RequestRuleGroup) (gs : list RequestRuleGroup) : list RequestRuleGroup :=
  <[i := next]> gs.
Definition remove_group (i : nat) (gs : list RequestRuleGroup) : list RequestRuleGroup := delete i gs.
Definition add_group (gs : list RequestRuleGroup) : list RequestRuleGroup := gs ++ [createEmptyRuleGroup].
End RuleEditor.
Import RuleEditor.

(** * Presets *)

Module Presets.
Record preset := Preset { preset_key : jsstr; preset_label : jsstr; expr : jsstr; requestRules : list RequestRuleGroup }.
Definition preset_rule (conds : list RequestCondition) (m : jsstr) : RequestRuleGroup :=
  {| rule_conditions := conds; multiplier := m; conditionText := None; matched := None |}.
Definition PRESET_GROUPS : list (jsstr * list preset) := [
  ("Fixed price" : jsstr, [
  Preset "flat" "Flat"
    "tier(`base`, p * 2 + c * 4)"
    [];
  Preset "claude-opus" "Claude Opus 4.6"
    "tier(`base`, p * 5 + c * 25 + cr * 0.5 + cc * 6.25 + cc1h * 10)"
    [];
  Preset "gpt-5.4" "GPT-5.4"
    "len <= 272000 ? tier(`standard`, p * 2.5 + c * 15 + cr * 0.25) : tier(`long_context`, p * 5 + c * 22.5 + cr * 0.5)"
    []]);
  ("Tiered" : jsstr, [
  Preset "claude-sonnet" "Claude Sonnet 4.5"
    "len <= 200000 ? tier(`standard`, p * 3 + c * 15 + cr * 0.3 + cc * 3.75 + cc1h * 6) : tier(`long_context`, p * 6 + c * 22.5 + cr * 0.6 + cc * 7.5 + cc1h * 12)"
    [];
  Preset "qwen3-max" "Qwen3 Max"
    "len <= 32000 ? tier(`short`, p * 1.2 + c * 6 + cr * 0.24 + cc * 1.5) : len <= 128000 ? tier(`mid`, p * 2.4 + c * 12 + cr * 0.48 + cc * 3) : tier(`long`, p * 3 + c * 15 + cr * 0.6 + cc * 3.75)"
    [];
  Preset "glm-4.5-air" "GLM-4.5 Air"
    "len < 32000 && c < 200 ? tier(`short_output`, p * 0.8 + c * 2 + cr * 0.16) : len < 32000 && c >= 200 ? tier(`long_output`, p * 0.8 + c * 6 + cr * 0.16) : tier(`mid_context`, p * 1.2 + c * 8 + cr * 0.24)"
    [];
  Preset "doubao-seed-1.8" "Doubao Seed 1.8"
    "len <= 32000 && c <= 200 ? tier(`discount`, p * 0.8 + c * 2 + cr * 0.16 + cc * 0.17) : len <= 32000 ? tier(`short`, p * 0.8 + c * 8 + cr * 0.16 + cc * 0.17) : len <= 128000 ? tier(`mid`, p * 1.2 + c * 16 + cr * 0.16 + cc * 0.17) : tier(`long`, p * 2.4 + c * 24 + cr * 0.16 + cc * 0.17)"
    []]);
  ("Multimodal" : jsstr, [
  Preset "gpt-image-1-mini" "GPT Image 1 Mini"
    "tier(`base`, p * 2 + c * 8 + img * 2.5)"
    [];
  Preset "gemini-2.5-flash" "Gemini 2.5 Flash"
    "tier(`base`, p * 0.3 + c * 2.5 + cr * 0.03 + ai * 1.0)"
    [];
  Preset "gemini-3-pro-image" "Gemini 3 Pro Image"
    "tier(`base`, p * 2 + c * 12 + img_o * 120)"
    [];
  Preset "qwen3-omni-flash" "Qwen3 Omni Flash"
    "tier(`base`, p * 0.43 + c * 3.06 + img * 0.78 + ai * 3.81 + ao * 15.11)"
    []]);
  ("Request rule" : jsstr, [
  Preset "claude-opus-fast" "Claude Opus 4.6 Fast"
    "tier(`base`, p * 5 + c * 25 + cr * 0.5 + cc * 6.25 + cc1h * 10)"
    [preset_rule [ParamHeaderCondition header "anthropic-beta" MATCH_CONTAINS "fast-mode-2026-02-01"] "6"];
  Preset "gpt-5.4-tiers" "GPT-5.4 Priority/Flex"
    "len <= 272000 ? tier(`standard`, p * 2.5 + c * 15 + cr * 0.25) : tier(`long_context`, p * 5 + c * 22.5 + cr * 0.5)"
    [preset_rule [ParamHeaderCondition param "service_tier" MATCH_EQ "priority"] "2";
     preset_rule [ParamHeaderCondition param "service_tier" MATCH_EQ "flex"] "0.5"]]);
  ("Time-based" : jsstr, [
  Preset "night-discount" "Night discount (50%)"
    "tier(`base`, p * 3 + c * 15)"
    [preset_rule [TimeCondition "hour" "Asia/Shanghai" MATCH_RANGE "" "21" "6"] "0.5"];
  Preset "weekend-discount" "Weekend discount (80%)"
    "tier(`base`, p * 3 + c * 15)"
    [preset_rule [TimeCondition "weekday" "Asia/Shanghai" MATCH_EQ "0" "" ""] "0.8";
     preset_rule [TimeCondition "weekday" "Asia/Shanghai" MATCH_EQ "6" "" ""] "0.8"]])].
Definition all_presets : list preset := concat (map snd PRESET_GROUPS).
(** The groups the section shows. *)
Definition visible (expanded : bool) : list (jsstr * list preset) :=
  if expanded then PRESET_GROUPS else take 2 PRESET_GROUPS.
Definition toggle_expanded (expanded : bool) : bool := negb expanded.
End Presets.
Import Presets.

(** * The estimator's inputs *)

Module Estimator.
Record estimator := Counts { promptTokens : jsnum; completionTokens : jsnum; extras : jsstr -> jsnum }.
Definition initial_counts : estimator := Counts (num 0) (num 0) (fun _ => num 0).
(** [s.replace('Price', 'Tokens')]: the first occurrence. *)
Definition state_key (fieldName : jsstr) : jsstr :=
  match index_of "Price" fieldName with
  | Some i => take i fieldName ++ "Tokens" ++ drop (i + 5) fieldName
  | None => fieldName
  end.
(** The fields shown, each with the key of its count. *)
Definition extra_fields (effectiveExpr : jsstr) : list (jsstr * jsstr) :=
  if exprUsesExtraVars effectiveExpr
  then omap (fun v => option_map (fun f => (key v, state_key f)) (field v)) BILLING_EXTRA_VARS else [].
Definition setPromptTokens (v : jsnum) (e : estimator) : estimator := Counts v (completionTokens e) (extras e).
Definition setCompletionTokens (v : jsnum) (e : estimator) : estimator := Counts (promptTokens e) v (extras e).
Definition setExtra (stateKey : jsstr) (v : jsnum) (e : estimator) : estimator :=
  Counts (promptTokens e) (completionTokens e) (upd stateKey v (extras e)).
End Estimator.

(** * The editor *)

Module Editor.
Inductive EditorMode := visual | raw.
#[export] Instance EditorMode_dec : EqDecision EditorMode.
Proof. solve_decision. Defined.

(** The state of the component with the two texts of the pricing panel it is
    given and calls back to change ([setBillingExpr], [setRequestRuleExpr]). *)
Record editor := EditorState {
  editorMode : EditorMode; visualConfig : option VisualConfig; rawExpr : jsstr;
  requestRuleGroups : list RequestRuleGroup; initRef : bool;
  currentExpr : jsstr; currentRequestRuleExpr : jsstr }.

(** [tryParseRequestRuleExpr(text) || []] *)
Definition groups_of (text : jsstr) : exn (list RequestRuleGroup) :=
  let! parsed := tryParseRequestRuleExpr text in Returns (default [] parsed).
Definition combined_or (base rules : jsstr) : jsstr := str_or (combineBillingExpr base rules) base.

(** The first rendering. *)
Definition initial (billingExpr requestRuleExpr : jsstr) : exn editor :=
  let! gs := groups_of requestRuleExpr in
  Returns (EditorState visual (tryParseVisualConfig billingExpr) (combineBillingExpr billingExpr requestRuleExpr)
             gs false billingExpr requestRuleExpr).

(** canUseVisualRules and effectiveExpr, computed by every rendering. *)
Definition canUseVisualRules (s : editor) : exn bool :=
  if truthy (currentRequestRuleExpr s)
  then let! parsed := tryParseRequestRuleExpr (currentRequestRuleExpr s) in
       Returns (match parsed with Some _ => true | None => false end)
  else Returns true.
Definition effectiveExpr (s : editor) : exn jsstr :=
  match editorMode s with
  | visual => Returns (generateExprFromVisualConfig (visualConfig s))
  | raw => let! parts := splitBillingExprAndRequestRules (rawExpr s) in Returns parts.1
  end.
Definition render (s : editor) : exn jsstr :=
  let! _ := canUseVisualRules s in effectiveExpr s.

(** The first effect, when the texts of the panel have changed. *)
Definition init_effect (s : editor) : exn editor :=
  if initRef s then Returns s
  else
    let config := tryParseVisualConfig (currentExpr s) in
    let! gs := groups_of (currentRequestRuleExpr s) in
    Returns (EditorState
      (match config with
       | Some _ => visual
       | None => if truthy (currentExpr s) then raw else editorMode s
       end)
      (match config with
       | Some _ => config
       | None => if truthy (currentExpr s) then None else Some createDefaultVisualConfig
       end)
      (combineBillingExpr (currentExpr s) (currentRequestRuleExpr s)) gs true
      (currentExpr s) (currentRequestRuleExpr s)).
Definition with_ref (r : bool) (s : editor) : editor :=
  EditorState (editorMode s) (visualConfig s) (rawExpr s) (requestRuleGroups s) r (currentExpr s) (currentRequestRuleExpr s).
Definition with_texts (e r : jsstr) (s : editor) : editor :=
  EditorState (editorMode s) (visualConfig s) (rawExpr s) (requestRuleGroups s) (initRef s) e r.

(** One commit: the rendering of [s], then its effects in their order, all of
    which see the values of that rendering; the updates take effect together.
    [texts] and [renamed] say whether the texts of the panel and the name of
    the model differ from the last commit (both at the first one).  The last
    two effects run when a value they read has changed; running them again
    otherwise changes nothing, since they made the texts equal.  The result
    says whether anything was set, so that another commit follows. *)
Definition shown_rules (s : editor) : jsstr :=
  match editorMode s with
  | visual => buildRequestRuleExpr (requestRuleGroups s)
  | raw => currentRequestRuleExpr s
  end.
Definition commit (texts renamed : bool) (s : editor) : exn (bool * editor) :=
  let! effective := render s in
  let! s1 := if texts then init_effect s else Returns s in
  let s2 := if renamed then with_ref false s1 else s1 in
  let rules := shown_rules s in
  let set := (texts && negb (initRef s)) || negb (str_eqb effective (currentExpr s))
             || negb (str_eqb rules (currentRequestRuleExpr s)) in
  Returns (set, with_texts effective rules s2).
Definition texts_differ (s s' : editor) : bool :=
  negb (str_eqb (currentExpr s) (currentExpr s') && str_eqb (currentRequestRuleExpr s) (currentRequestRuleExpr s')).
Fixpoint settle (fuel : nat) (texts renamed : bool) (s : editor) : exn editor :=
  match fuel with
  | O => Returns s
  | S f =>
      let! r := commit texts renamed s in
      if r.1 then settle f (texts_differ s r.2) false r.2 else Returns r.2
  end.
(** Five commits are always enough. *)
Definition COMMITS : nat := 5.

(** Opening the editor, an event with the state its handler leaves, and a
    change of the model's name. *)
Definition open_editor (billingExpr requestRuleExpr : jsstr) : exn editor :=
  let! s := initial billingExpr requestRuleExpr in settle COMMITS true true s.
Definition act (handler : editor -> exn editor) (s : editor) : exn editor :=
  let! s' := handler s in settle COMMITS (texts_differ s s') false s'.
Definition rename (s : editor) : exn editor := settle COMMITS false true s.

(** ** Handlers *)

Definition handleVisualChange (next : VisualConfig) (s : editor) : exn editor :=
  Returns (EditorState (editorMode s) (Some next) (rawExpr s) (requestRuleGroups s) (initRef s)
             (currentExpr s) (currentRequestRuleExpr s)).
(** Should the splitting throw, so does the next rendering of the raw text. *)
Definition handleRawChange (v : jsstr) (s : editor) : exn editor :=
  let! parts := splitBillingExprAndRequestRules v in
  Returns (EditorState (editorMode s) (visualConfig s) v (requestRuleGroups s) (initRef s) (currentExpr s) parts.2).
Definition handleModeChange (next : EditorMode) (s : editor) : exn editor :=
  match next with
  | visual =>
      let! parts := splitBillingExprAndRequestRules (rawExpr s) in
      let! gs := groups_of parts.2 in
      Returns (EditorState visual
        (Some (match tryParseVisualConfig parts.1 with Some c => c | None => createDefaultVisualConfig end))
        (rawExpr s) gs (initRef s) (currentExpr s) parts.2)
  | raw =>
      let e := generateExprFromVisualConfig (visualConfig s) in
      Returns (EditorState raw (visualConfig s) (combined_or e (buildRequestRuleExpr (requestRuleGroups s)))
        (requestRuleGroups s) (initRef s) (currentExpr s) (currentRequestRuleExpr s))
  end.
Definition applyPreset (p : preset) (s : editor) : exn editor :=
  let ruleExpr := buildRequestRuleExpr (requestRules p) in
  let parsed := tryParseVisualConfig (expr p) in
  Returns (EditorState (match parsed with Some _ => visual | None => raw end) parsed
    (combined_or (expr p) ruleExpr) (requestRules p) (initRef s) (currentExpr s) ruleExpr).
Definition handleRuleGroupsChange (next : list RequestRuleGroup) (s : editor) : exn editor :=
  Returns (EditorState (editorMode s) (visualConfig s) (rawExpr s) next (initRef s)
             (currentExpr s) (currentRequestRuleExpr s)).

(** The panel with the texts the editor leaves in it. *)
Definition update_panel (s : editor) (p : Panel.panel) : Panel.panel :=
  Panel.set_rules (currentRequestRuleExpr s) (Panel.set_expr (currentExpr s) p).
End Editor.
