(* ===== verification/TieredEditorProofs.v ===== *)
(** The editor of tiered prices: it comes to rest, it passes on what is
    edited, and which expressions and presets do not survive its effects. *)
From S2P Require Import Prelude JsNumber JsInteger Json Regex BillingExpr BillingRules.
From S2P Require Import TierExpr TierExprProofs Pricing TieredEditor.
Import BillingExpr BillingRules TierExpr Tiers VisualEditor Presets Editor.

Module TieredPricing.

(** * Commits *)

Lemma str_eqb_sym a b : str_eqb a b = str_eqb b a.
Proof. unfold str_eqb. apply bool_decide_ext. done. Qed.

(** At rest the panel has the texts the editor shows. *)
Definition at_rest (s : editor) : Prop :=
  render s = Returns (currentExpr s) /\ shown_rules s = currentRequestRuleExpr s.

Lemma commit_returns (t r : bool) s e s1 :
  render s = Returns e -> (if t then init_effect s else Returns s) = Returns s1 ->
  commit t r s = Returns ((t && negb (initRef s)) || negb (str_eqb e (currentExpr s))
    || negb (str_eqb (shown_rules s) (currentRequestRuleExpr s)),
    with_texts e (shown_rules s) (if r then with_ref false s1 else s1)).
Proof. intros H1 H2. unfold commit. rewrite H1. cbn [exn_bind]. rewrite H2. done. Qed.
Lemma commit_inv (t r : bool) s out : commit t r s = Returns out ->
  exists e s1, render s = Returns e /\ (if t then init_effect s else Returns s) = Returns s1.
Proof.
  unfold commit. destruct (render s) as [|e]; [done|]. cbn [exn_bind].
  destruct (if t then _ else _) as [|s1]; [done|]. by exists e, s1.
Qed.
Lemma effective_texts s e r b : effectiveExpr (with_texts e r (with_ref b s)) = effectiveExpr s.
Proof. done. Qed.
Lemma render_effective s e : render s = Returns e -> effectiveExpr s = Returns e.
Proof. unfold render. by destruct (canUseVisualRules s). Qed.

Lemma commit_rest t r s s' : commit t r s = Returns (false, s') -> at_rest s'.
Proof.
  intros H. destruct (commit_inv _ _ _ _ H) as (e & s1 & H1 & H2). rewrite (commit_returns _ _ _ _ _ H1 H2) in H.
  injection H as Hs <-. apply orb_false_iff in Hs as [[Hi He]%orb_false_iff Hr].
  apply negb_false_iff, str_eqb_true in He, Hr.
  assert (s1 = s) as ->.
  { destruct t; [|by injection H2]. cbn [andb] in Hi. apply negb_false_iff in Hi. unfold init_effect in H2.
    rewrite Hi in H2. by injection H2. }
  rewrite He, Hr in *. by destruct s, r.
Qed.

(** The editor ends in the same way after [n] commits and after more. *)
Definition ends (n : nat) (t r : bool) (s : editor) : Prop :=
  exists out, (forall m, settle (n + m) t r s = out) /\ (forall s', out = Returns s' -> at_rest s').

Lemma ends_step n t r s :
  (forall s', commit t r s = Returns (true, s') -> ends n (texts_differ s s') false s') -> ends (S n) t r s.
Proof.
  intros H. unfold ends. cbn [Nat.add settle]. destruct (commit t r s) as [|[b s']] eqn:E; cbn [exn_bind fst snd].
  - by exists Throws.
  - destruct b.
    + destruct (H s' eq_refl) as (out & Hm & Ho). exists out. done.
    + exists (Returns s'). split; [done|]. intros s2 [= <-]. by eapply commit_rest.
Qed.
Lemma ends_more n n' t r s : ends n t r s -> n <= n' -> ends n' t r s.
Proof.
  intros (out & Hm & Ho) Hn. exists out. split; [|done]. intros m.
  replace (n' + m) with (n + (n' - n + m)) by lia. apply Hm.
Qed.

(** Once the first effect has run, a commit leaves nothing to do. *)
Lemma ends_initialized t s : initRef s = true -> ends 2 t false s.
Proof.
  intros Hi. apply ends_step. intros s' H. apply ends_step. intros s2 H2. exfalso.
  destruct (commit_inv _ _ _ _ H) as (e & s1 & H1 & Hs1).
  assert (s1 = s) as ->.
  { destruct t; [|by injection Hs1]. unfold init_effect in Hs1. rewrite Hi in Hs1. by injection Hs1. }
  rewrite (commit_returns _ _ _ _ _ H1 Hs1) in H. injection H as _ <-.
  set (s' := with_texts e (shown_rules s) s) in *.
  destruct (commit_inv _ _ _ _ H2) as (e' & s1 & H1' & Hs1').
  rewrite (commit_returns _ _ _ _ _ H1' Hs1') in H2. injection H2 as Hset _.
  assert (e' = e) as ->.
  { apply render_effective in H1, H1'. change (effectiveExpr s') with (effectiveExpr s) in H1'. congruence. }
  change (currentExpr s') with e in Hset. change (currentRequestRuleExpr s') with (shown_rules s) in Hset.
  change (initRef s') with (initRef s) in Hset.
  assert (Hr : shown_rules s' = shown_rules s) by (unfold s', shown_rules; cbn; by destruct (editorMode s)).
  rewrite Hi, Hr, !str_eqb_refl, andb_false_r in Hset. done.
Qed.
Lemma init_effect_ref s s1 : init_effect s = Returns s1 -> initRef s1 = true.
Proof.
  unfold init_effect. destruct (initRef s) eqn:E; [by intros [= <-]|].
  destruct (groups_of _); [done|]. cbn [exn_bind]. by intros [= <-].
Qed.
Lemma ends_uninitialized t s : initRef s = false -> ends 4 t false s.
Proof.
  intros Hi.
  assert (H3 : forall s, initRef s = false -> ends 3 true false s).
  { clear. intros s Hi. apply ends_step. intros s' H. apply ends_initialized.
    destruct (commit_inv _ _ _ _ H) as (e & s1 & H1 & Hs1). rewrite (commit_returns true false _ _ _ H1 Hs1) in H.
    injection H as _ <-. cbn. by eapply init_effect_ref. }
  destruct t; [eapply ends_more; [by apply H3|lia]|].
  apply ends_step. intros s' H. destruct (commit_inv _ _ _ _ H) as (e & s1 & H1 & Hs1).
  injection Hs1 as <-. rewrite (commit_returns _ _ _ _ s H1) in H by done. injection H as Hset <-.
  replace (texts_differ s _) with true; [by apply H3|]. unfold texts_differ. cbn.
  rewrite (str_eqb_sym (currentExpr s)), (str_eqb_sym (currentRequestRuleExpr s)), negb_andb. done.
Qed.
Lemma ends_always t r s : ends COMMITS t r s.
Proof.
  assert (H : forall t s, ends 4 t false s).
  { intros t' s'. destruct (initRef s') eqn:E; [|by apply ends_uninitialized].
    eapply ends_more; [by apply ends_initialized|lia]. }
  destruct r; [apply ends_step; intros; apply H|eapply ends_more; [apply H|unfold COMMITS; lia]].
Qed.

(** C19: the effects of the editor never chase each other: whatever state they
    start in, after at most five commits nothing is set any more, so that more
    commits change nothing, and then (unless parsing a text threw) the panel
    has exactly the expression and the rules that the editor shows. *)
Theorem editor_settles t r s :
  (forall m, settle (COMMITS + m) t r s = settle COMMITS t r s) /\
  (forall s', settle COMMITS t r s = Returns s' -> at_rest s').
Proof.
  destruct (ends_always t r s) as (out & Hm & Ho). pose proof (Hm 0) as H0. rewrite Nat.add_0_r in H0.
  rewrite H0. done.
Qed.

(** * Running to rest *)

(** A visual state whose rules can be read. *)
Lemma render_visual s gs : editorMode s = visual -> Forall group_ok gs ->
  currentRequestRuleExpr s = buildRequestRuleExpr gs ->
  render s = Returns (generateExprFromVisualConfig (visualConfig s)).
Proof.
  intros Hm Hgs Hr. unfold render, canUseVisualRules, effectiveExpr. rewrite Hr, Hm, parse_built by done.
  by destruct (truthy _).
Qed.
Lemma render_raw s e r gs : editorMode s = raw -> Forall group_ok gs ->
  currentRequestRuleExpr s = buildRequestRuleExpr gs ->
  splitBillingExprAndRequestRules (rawExpr s) = Returns (e, r) -> render s = Returns e.
Proof.
  intros Hm Hgs Hr Hs. unfold render, canUseVisualRules, effectiveExpr. rewrite Hr, Hm, parse_built, Hs by done.
  by destruct (truthy _).
Qed.
Lemma groups_of_built gs : Forall group_ok gs -> groups_of (buildRequestRuleExpr gs) = Returns gs.
Proof. intros H. unfold groups_of. by rewrite parse_built. Qed.

(** A state in which nothing is set stays. *)
Lemma settle_rest n t r s :
  at_rest s -> t = false \/ initRef s = true -> settle (S n) t r s = Returns (if r then with_ref false s else s).
Proof.
  intros [H1 H2] Ht. cbn [settle]. rewrite (commit_returns t r s _ s H1).
  - rewrite H2, !str_eqb_refl. cbn [exn_bind fst snd].
    replace (t && negb (initRef s)) with false by (destruct Ht as [-> | ->]; [done|by rewrite andb_false_r]).
    cbn [negb orb]. by destruct s, r.
  - destruct Ht as [-> | Hi]; [done|]. unfold init_effect. rewrite Hi. by destruct t.
Qed.
(** After the first effect has run, a state is at rest once its texts are
    passed on. *)
Lemma settle_initialized n t s e :
  initRef s = true -> render s = Returns e -> at_rest (with_texts e (shown_rules s) s) ->
  settle (2 + n) t false s = Returns (with_texts e (shown_rules s) s).
Proof.
  intros Hi He Hr. change (2 + n) with (S (S n)). cbn [settle]. rewrite (commit_returns t false s e s He).
  2:{ unfold init_effect. rewrite Hi. by destruct t. }
  cbn [exn_bind fst snd]. destruct (_ || _); [|done].
  apply (settle_rest n _ false (with_texts e (shown_rules s) s)); [done|by right].
Qed.
Lemma settle_commit n t r s s' :
  commit t r s = Returns (true, s') -> settle (S n) t r s = settle n (texts_differ s s') false s'.
Proof. intros H. cbn [settle]. by rewrite H. Qed.

Lemma settle_done n t r s s' : commit t r s = Returns (false, s') -> settle (S n) t r s = Returns s'.
Proof. intros H. cbn [settle]. by rewrite H. Qed.

(** The first effect on readable texts. *)
Lemma init_effect_readable s cfg gs :
  initRef s = false -> tryParseVisualConfig (currentExpr s) = Some cfg -> Forall group_ok gs ->
  currentRequestRuleExpr s = buildRequestRuleExpr gs ->
  init_effect s = Returns (EditorState visual (Some cfg) (combineBillingExpr (currentExpr s) (currentRequestRuleExpr s))
                             gs true (currentExpr s) (currentRequestRuleExpr s)).
Proof. intros Hi Hp Hg Hr. unfold init_effect. rewrite Hi, Hp, Hr, groups_of_built by done. done. Qed.
Lemma init_effect_complex s gs :
  initRef s = false -> currentExpr s <> [] -> tryParseVisualConfig (currentExpr s) = None -> Forall group_ok gs ->
  currentRequestRuleExpr s = buildRequestRuleExpr gs ->
  init_effect s = Returns (EditorState raw None (combineBillingExpr (currentExpr s) (currentRequestRuleExpr s))
                             gs true (currentExpr s) (currentRequestRuleExpr s)).
Proof.
  intros Hi He Hp Hg Hr. unfold init_effect. rewrite Hi, Hp, Hr, groups_of_built by done.
  by rewrite (proj2 (truthy_true _) He).
Qed.

(** * Reopening *)

Definition opened (cfg : VisualConfig) (gs : list RequestRuleGroup) : editor :=
  let e := generateExprFromVisualConfig (Some cfg) in
  let r := buildRequestRuleExpr gs in
  EditorState visual (Some (reloaded cfg)) (combineBillingExpr e r) gs false e r.
Lemma opened_rest cfg gs : config_ok cfg -> Forall group_ok gs -> at_rest (opened cfg gs).
Proof.
  intros Hc Hg. split; [|done]. rewrite (render_visual _ gs) by done. f_equal. by apply generate_reloaded.
Qed.
Lemma open_own cfg gs : config_ok cfg -> Forall group_ok gs ->
  open_editor (generateExprFromVisualConfig (Some cfg)) (buildRequestRuleExpr gs) = Returns (opened cfg gs).
Proof.
  intros Hc Hg. pose proof (opened_rest cfg gs Hc Hg) as Hrest. unfold open_editor, initial.
  rewrite groups_of_built, parse_generate by done. cbn [exn_bind]. change (EditorState _ _ _ _ _ _ _) with (opened cfg gs).
  set (s := opened cfg gs) in *. unfold COMMITS.
  assert (E : commit true true s = Returns (true, s)).
  { rewrite (commit_returns true true s _ (with_ref true s) (proj1 Hrest)).
    - rewrite (proj2 Hrest), !str_eqb_refl. done.
    - apply (init_effect_readable s (reloaded cfg) gs); [done|by apply parse_generate|done|done]. }
  rewrite (settle_commit _ _ _ _ _ E). unfold texts_differ. rewrite !str_eqb_refl. cbn [andb negb].
  by rewrite (settle_rest _ false false s Hrest) by by left.
Qed.

(** Opening the editor on an expression and rules it printed itself
    changes neither: it comes to rest in the visual mode with the same tiers,
    rules and texts. *)
Theorem reopening_stable cfg gs : config_ok cfg -> Forall group_ok gs ->
  exists s, open_editor (generateExprFromVisualConfig (Some cfg)) (buildRequestRuleExpr gs) = Returns s /\
    editorMode s = visual /\ visualConfig s = Some (reloaded cfg) /\ requestRuleGroups s = gs /\
    currentExpr s = generateExprFromVisualConfig (Some cfg) /\ currentRequestRuleExpr s = buildRequestRuleExpr gs.
Proof. intros Hc Hg. exists (opened cfg gs). split; [by apply open_own|done]. Qed.

(** * Edits of the visual editor *)

(** C20: an edit of the tiers reaches the panel: from a state at rest in the
    visual mode whose request rules can be printed and read back, after the
    tiers are replaced by tiers that can be printed and read back, the editor
    comes to rest with exactly the new expression in the panel and the rules
    as they were. It shows the tiers that were edited, or those that the
    printed text reads back as (as on the first change since the editor was
    opened), which have no conditions on the last of several tiers. *)
Theorem visual_edits_passed_on s next :
  at_rest s -> editorMode s = visual -> Forall group_ok (requestRuleGroups s) -> config_ok next ->
  exists s', act (handleVisualChange next) s = Returns s' /\ at_rest s' /\ editorMode s' = visual /\
    currentExpr s' = generateExprFromVisualConfig (Some next) /\
    currentRequestRuleExpr s' = currentRequestRuleExpr s /\ requestRuleGroups s' = requestRuleGroups s /\
    (visualConfig s' = Some next \/ visualConfig s' = Some (reloaded next)).
Proof.
  intros [Hr Hs] Hm Hg Hok. unfold shown_rules in Hs. rewrite Hm in Hs.
  set (e := generateExprFromVisualConfig (Some next)).
  set (s0 := EditorState (editorMode s) (Some next) (rawExpr s) (requestRuleGroups s) (initRef s)
               (currentExpr s) (currentRequestRuleExpr s)).
  assert (Hact : act (handleVisualChange next) s = settle COMMITS false false s0).
  { unfold act, handleVisualChange. cbn [exn_bind]. unfold texts_differ. by rewrite !str_eqb_refl. }
  rewrite Hact. set (s1 := with_texts e (currentRequestRuleExpr s) s0).
  assert (Hrend : forall x, editorMode x = visual -> currentRequestRuleExpr x = currentRequestRuleExpr s ->
            render x = Returns (generateExprFromVisualConfig (visualConfig x))).
  { intros x Hx Hrx. apply (render_visual x (requestRuleGroups s)); [done|done|congruence]. }
  assert (Hshow : forall x, editorMode x = visual -> requestRuleGroups x = requestRuleGroups s ->
            shown_rules x = currentRequestRuleExpr s).
  { intros x Hx Hgx. unfold shown_rules. by rewrite Hx, Hgx. }
  assert (Hrest1 : at_rest s1) by (split; [by rewrite Hrend|by apply Hshow]).
  assert (E1 : commit false false s0 = Returns (negb (str_eqb e (currentExpr s)), s1)).
  { rewrite (commit_returns false false s0 e s0); [|by apply Hrend|done].
    rewrite (Hshow s0) by done. change (currentRequestRuleExpr s0) with (currentRequestRuleExpr s).
    rewrite str_eqb_refl. cbn [negb andb orb]. by rewrite orb_false_r. }
  unfold COMMITS. destruct (str_eqb e (currentExpr s)) eqn:Ee; cbn [negb] in E1.
  { rewrite (settle_done _ _ _ _ _ E1). exists s1. split_and!; [done|done|done|done|done|done|by left]. }
  assert (Hd : texts_differ s0 s1 = true).
  { unfold texts_differ. rewrite (str_eqb_sym (currentExpr s0)).
    change (currentExpr s1) with e. change (currentExpr s0) with (currentExpr s). by rewrite Ee. }
  rewrite (settle_commit _ _ _ _ _ E1), Hd. destruct (initRef s) eqn:Hi.
  - rewrite (settle_rest 3 true false s1 Hrest1) by by right.
    exists s1. split_and!; [done|done|done|done|done|done|by left].
  - set (s2 := EditorState visual (Some (reloaded next)) (combineBillingExpr e (currentRequestRuleExpr s))
                 (requestRuleGroups s) true e (currentRequestRuleExpr s)).
    assert (Hrest2 : at_rest s2).
    { split; [|by apply Hshow]. rewrite Hrend by done. f_equal. by apply generate_reloaded. }
    assert (E2 : commit true false s1 = Returns (true, s2)).
    { rewrite (commit_returns true false s1 e s2 (proj1 Hrest1)).
      - rewrite (proj2 Hrest1). done.
      - apply (init_effect_readable s1 (reloaded next) (requestRuleGroups s));
          [done|by apply parse_generate|done|by symmetry]. }
    rewrite (settle_commit _ _ _ _ _ E2). rewrite (settle_rest 2 _ false s2 Hrest2) by by right.
    exists s2. split_and!; [done|done|done|done|done|done|by right].
Qed.

(** * Presets *)

Definition preset_ok (p : preset) : Prop :=
  tryParseVisualConfig (expr p) <> None /\ Forall group_ok (requestRules p).
Lemma presets_ok p : p ∈ all_presets -> preset_ok p.
Proof.
  revert p. rewrite <-Forall_forall. unfold preset_ok.
  assert (E : forallb (fun p => match tryParseVisualConfig (expr p) with Some _ => true | None => false end
                                && bool_decide (Forall group_ok (requestRules p))) all_presets = true) by by vm_compute.
  rewrite forallb_forall in E. apply Forall_forall. intros p Hp%list_elem_of_In%E.
  apply andb_true_iff in Hp as [H1 H2%bool_decide_eq_true]. split; [by destruct (tryParseVisualConfig _)|done].
Qed.
Definition preset_text (p : preset) : jsstr := generateExprFromVisualConfig (tryParseVisualConfig (expr p)).
(** All presets but one are applied with their own text. *)
Lemma preset_texts :
  map (fun p => (preset_key p, preset_text p)) (List.filter (fun p => negb (str_eqb (preset_text p) (expr p))) all_presets)
  = [("gemini-2.5-flash" : jsstr, "tier(`base`, p * 0.3 + c * 2.5 + cr * 0.03 + ai * 1)" : jsstr)].
Proof. by vm_compute. Qed.

Definition preset_state (p : preset) (s : editor) : editor :=
  EditorState visual (tryParseVisualConfig (expr p)) (combined_or (expr p) (buildRequestRuleExpr (requestRules p)))
    (requestRules p) (initRef s) (currentExpr s) (buildRequestRuleExpr (requestRules p)).
Lemma act_preset p s : preset_ok p ->
  act (applyPreset p) s = settle COMMITS (texts_differ s (preset_state p s)) false (preset_state p s).
Proof. intros [H _]. unfold act, applyPreset, preset_state. by destruct (tryParseVisualConfig (expr p)). Qed.
Lemma render_preset p s : preset_ok p -> render (preset_state p s) = Returns (preset_text p).
Proof. intros [_ H]. by apply (render_visual (preset_state p s) (requestRules p)). Qed.

(** A preset applied after the first change of the texts is passed on. *)
Theorem presets_apply p s : p ∈ all_presets -> initRef s = true ->
  exists s', act (applyPreset p) s = Returns s' /\ at_rest s' /\ editorMode s' = visual /\
    currentExpr s' = preset_text p /\ requestRuleGroups s' = requestRules p /\
    currentRequestRuleExpr s' = buildRequestRuleExpr (requestRules p).
Proof.
  intros Hp%presets_ok Hi. rewrite act_preset by done.
  set (s1 := with_texts (preset_text p) (buildRequestRuleExpr (requestRules p)) (preset_state p s)).
  assert (Hrest : at_rest s1) by (split; [by apply (render_visual s1 (requestRules p)); [|apply Hp|]|done]).
  exists s1. split; [|done]. by apply (settle_initialized 3 _ (preset_state p s) (preset_text p)); [|apply render_preset|].
Qed.

(** A preset that is the first change after the editor was opened and that
    brings other request rules loses its prices: the first effect, armed again
    by the effect on the model's name, reads the old expression back, so the
    panel is left with the old expression and the rules of the preset. *)
Theorem first_preset_lost cfg gs p :
  config_ok cfg -> Forall group_ok gs -> p ∈ all_presets ->
  buildRequestRuleExpr (requestRules p) <> buildRequestRuleExpr gs ->
  exists s s',
    open_editor (generateExprFromVisualConfig (Some cfg)) (buildRequestRuleExpr gs) = Returns s /\
    act (applyPreset p) s = Returns s' /\
    currentExpr s' = generateExprFromVisualConfig (Some cfg) /\ visualConfig s' = Some (reloaded cfg) /\
    currentRequestRuleExpr s' = buildRequestRuleExpr (requestRules p).
Proof.
  intros Hc Hg Hp%presets_ok Hne. set (s := opened cfg gs). set (s0 := preset_state p s).
  set (e := generateExprFromVisualConfig (Some cfg)). set (r := buildRequestRuleExpr (requestRules p)) in *.
  set (s1 := EditorState visual (Some (reloaded cfg)) (combineBillingExpr e r) (requestRules p) true e r).
  assert (Hrest : at_rest s1).
  { split; [|done]. rewrite (render_visual s1 (requestRules p)); [|done|apply Hp|done]. f_equal. by apply generate_reloaded. }
  exists s, s1. split; [by apply open_own|]. split; [|done].
  rewrite act_preset by done. change (preset_state p s) with s0.
  assert (Hd : texts_differ s s0 = true).
  { unfold texts_differ. apply negb_true_iff, andb_false_iff. right. apply str_eqb_false. by symmetry. }
  assert (E1 : commit true false s0 = Returns (true, with_texts (preset_text p) r s1)).
  { rewrite (commit_returns true false s0 _ s1 (render_preset p s Hp)); [done|].
    apply (init_effect_readable s0 (reloaded cfg) (requestRules p)); [done|by apply parse_generate|apply Hp|done]. }
  rewrite Hd. unfold COMMITS. rewrite (settle_commit _ _ _ _ _ E1).
  apply (settle_initialized 2 _ (with_texts (preset_text p) r s1) e); [done| |done].
  rewrite <-(proj1 Hrest : render s1 = Returns e). rewrite !(render_visual _ (requestRules p)) by (done || apply Hp). done.
Qed.

(** * Expressions the visual editor cannot show *)

Lemma bal_dec s : forallb (fun c => negb (paren c)) s = true -> bal s.
Proof. intros H. apply bal_plain. apply Forall_forall. intros c Hc%list_elem_of_In. rewrite forallb_forall in H. by apply negb_true_iff, H. Qed.
Lemma free_base_ok : base_ok FREE_EXPR.
Proof. split; [done|by split|by apply bal_dec|by vm_compute|by vm_compute]. Qed.
Lemma free_split gs : Forall group_ok gs ->
  splitBillingExprAndRequestRules (combineBillingExpr FREE_EXPR (buildRequestRuleExpr gs))
  = Returns (FREE_EXPR, buildRequestRuleExpr gs).
Proof. intros Hg. destruct gs as [|g gs]; [by vm_compute|]. apply split_combined; [apply free_base_ok|done|done]. Qed.

(** An expression the visual editor cannot show does not survive opening
    the editor: the first commit still shows no tiers and passes the free
    expression to the panel, the second reads that one back, and the editor
    comes to rest in the expression mode with it.  Committing the panel then
    saves the model as free of charge. *)
Theorem complex_expression_lost e gs p :
  e <> [] -> e <> FREE_EXPR -> tryParseVisualConfig e = None -> Forall group_ok gs ->
  splitBillingExprAndRequestRules (combineBillingExpr e (buildRequestRuleExpr gs)) = Returns (e, buildRequestRuleExpr gs) ->
  exists s, open_editor e (buildRequestRuleExpr gs) = Returns s /\ editorMode s = raw /\
    rawExpr s = combineBillingExpr FREE_EXPR (buildRequestRuleExpr gs) /\
    currentExpr s = FREE_EXPR /\ currentRequestRuleExpr s = buildRequestRuleExpr gs /\
    (Panel.pricingMode p = "tiered_expr" ->
     PricingCore.billingExpr (Panel.buildSubmitData (update_panel s p)) = FREE_EXPR).
Proof.
  intros Hne Hf Hp Hg Hs. set (r := buildRequestRuleExpr gs) in *.
  set (s0 := EditorState visual None (combineBillingExpr e r) gs false e r).
  set (raw_state x i y := EditorState raw None (combineBillingExpr x r) gs i y r).
  assert (Hrender : forall x i y, splitBillingExprAndRequestRules (combineBillingExpr x r) = Returns (x, r) ->
            render (raw_state x i y) = Returns x).
  { intros x i y Hx. by apply (render_raw _ x r gs). }
  assert (Hf1 : str_eqb FREE_EXPR e = false) by (apply str_eqb_false; congruence).
  assert (Hf2 : str_eqb e FREE_EXPR = false) by (by apply str_eqb_false).
  assert (E1 : commit true true s0 = Returns (true, raw_state e false FREE_EXPR)).
  { rewrite (commit_returns true true s0 FREE_EXPR (raw_state e true e)); [done|by apply (render_visual s0 gs)|].
    by apply (init_effect_complex s0 gs). }
  assert (E2 : commit true false (raw_state e false FREE_EXPR) = Returns (true, raw_state FREE_EXPR true e)).
  { rewrite (commit_returns true false _ e (raw_state FREE_EXPR true FREE_EXPR)); [done|by apply Hrender|].
    by apply (init_effect_complex (raw_state e false FREE_EXPR) gs). }
  assert (Hrest : at_rest (raw_state FREE_EXPR true FREE_EXPR)).
  { split; [|done]. apply Hrender, free_split, Hg. }
  exists (raw_state FREE_EXPR true FREE_EXPR).
  split.
  - unfold open_editor, initial. rewrite Hp, (groups_of_built gs Hg : groups_of r = _). cbn [exn_bind].
    change (EditorState _ _ _ _ _ _ _) with s0. unfold COMMITS. rewrite (settle_commit _ _ _ _ _ E1).
    replace (texts_differ s0 _) with true by (unfold texts_differ; cbn; by rewrite Hf2).
    rewrite (settle_commit _ _ _ _ _ E2).
    apply (settle_initialized 1 _ (raw_state FREE_EXPR true e) FREE_EXPR); [done|apply Hrender, free_split, Hg|done].
  - split_and!; [done..|]. intros Hm. unfold Panel.buildSubmitData, update_panel.
    cbn [Panel.pricingMode Panel.set_rules Panel.set_expr PricingCore.billingExpr]. by rewrite Hm.
Qed.

(** Rules that cannot be read are erased as soon as the editor opens, although
    its alert says to edit them in the expression mode. *)
Theorem unreadable_rules_erased cfg rules :
  config_ok cfg -> tryParseRequestRuleExpr rules = Returns None ->
  exists s, open_editor (generateExprFromVisualConfig (Some cfg)) rules = Returns s /\
    currentExpr s = generateExprFromVisualConfig (Some cfg) /\ currentRequestRuleExpr s = [].
Proof.
  intros Hc Hn. set (e := generateExprFromVisualConfig (Some cfg)).
  assert (Hgr : groups_of rules = Returns []) by (unfold groups_of; by rewrite Hn).
  assert (Hne : str_eqb rules [] = false) by (apply str_eqb_false; by intros ->).
  set (s0 := EditorState visual (Some (reloaded cfg)) (combineBillingExpr e rules) [] false e rules).
  set (s1 := with_texts e [] s0). set (s2 := EditorState visual (Some (reloaded cfg)) (combineBillingExpr e []) [] true e []).
  assert (Hre : generateExprFromVisualConfig (Some (reloaded cfg)) = e) by by apply generate_reloaded.
  assert (Hpe : tryParseVisualConfig e = Some (reloaded cfg)) by by apply parse_generate.
  assert (H0 : render s0 = Returns e).
  { unfold render, canUseVisualRules, effectiveExpr. cbn [currentRequestRuleExpr editorMode visualConfig s0].
    rewrite Hn, Hre. by destruct (truthy rules). }
  assert (E1 : commit true true s0 = Returns (true, s1)).
  { rewrite (commit_returns true true s0 e (with_ref true s0) H0); [done|].
    unfold init_effect. cbn [initRef currentExpr currentRequestRuleExpr s0]. by rewrite Hpe, Hgr. }
  assert (H1 : render s1 = Returns e) by (rewrite (render_visual s1 []) by done; by f_equal).
  assert (E2 : commit true false s1 = Returns (true, s2)).
  { rewrite (commit_returns true false s1 e s2 H1); [done|]. by apply (init_effect_readable s1 (reloaded cfg) []). }
  assert (Hrest : at_rest s2) by (split; [rewrite (render_visual s2 []) by done; by f_equal|done]).
  exists s2. split; [|done]. unfold open_editor, initial. rewrite Hgr, Hpe. cbn [exn_bind].
  change (EditorState _ _ _ _ _ _ _) with s0. unfold COMMITS. rewrite (settle_commit _ _ _ _ _ E1).
  replace (texts_differ s0 s1) with true by (unfold texts_differ; cbn; by rewrite Hne, andb_false_r).
  rewrite (settle_commit _ _ _ _ _ E2). by rewrite (settle_rest 2 _ false s2 Hrest) by by right.
Qed.
(** The first change of the raw text goes back to the visual mode as soon as
    the text can be shown there. *)
Lemma first_raw_edit_leaves :
  option_map editorMode
    (match (let! s := open_editor "tier(`a`, p * 2 + c * 4)" [] in
            let! s := act (handleModeChange raw) s in act (handleRawChange "tier(`a`, p * 2 + c * 40)") s) with
     | Returns s => Some s | Throws => None end) = Some visual.
Proof. by vm_compute. Qed.

(** * The handlers of the tiers *)

Lemma normalize_tier_ok t : tier_ok t -> tier_ok (normalizeVisualTier (whole t)).
Proof.
  intros [Hl Hq Hp Hc]. split; [done|done| |done]. intros f.
  replace (or_zero (unit_cost _ f)) with (or_zero (unit_cost t f)); [apply Hp|].
  destruct f; try done; symmetry; apply or_zero_idemp.
Qed.
Lemma guarded_snoc l t : guarded (l ++ [t]) <-> Forall (fun u => tier_conditions u <> []) l.
Proof.
  induction l as [|u l IH]; [done|]. rewrite Forall_cons, <-IH. cbn [app guarded].
  by destruct (l ++ [t]) eqn:E; [by destruct l|].
Qed.
Lemma normalize_config_ok cfg : config_ok cfg -> config_ok (normalizeVisualConfig (Some cfg)).
Proof.
  destruct cfg as [[|t ts]]; intros (Hne & Hok & Hg); [done|]. cbn [tiers] in *. split_and!; [done| |].
  - cbn [normalizeVisualConfig tiers]. apply Forall_map. eapply Forall_impl; [exact Hok|]. apply normalize_tier_ok.
  - cbn [normalizeVisualConfig tiers]. clear Hok Hne. revert t Hg. induction ts as [|u ts IH]; intros t Hg; [done|].
    destruct Hg as [Hc Hg]. split; [exact Hc|]. by apply IH.
Qed.
Lemma default_condition_ok : cond_ok (default_condition "len").
Proof. by apply (bool_decide_eq_true_1 (cond_ok (default_condition "len"))). Qed.
(** Adding a tier to a configuration that can be printed gives one: the tier
    that was last gets a condition, and the new one is the fallback. *)
Theorem add_tier_ok cfg : config_ok cfg -> config_ok (handleAddTier (Some cfg)).
Proof.
  intros H%normalize_config_ok. unfold handleAddTier. destruct H as (Hne & Hok & Hg).
  set (ts := tiers (normalizeVisualConfig (Some cfg))) in *. clearbody ts.
  set (fresh := normalizeVisualTier _).
  assert (Hb : Forall tier_ok (bound_last ts) /\ Forall (fun u => tier_conditions u <> []) (bound_last ts)).
  { unfold bound_last. destruct (last ts) as [t|] eqn:E; [|by apply last_None in E].
    apply last_Some in E as [l ->]. apply guarded_snoc in Hg. apply Forall_app in Hok as [Hl Ht].
    apply Forall_cons in Ht as [Ht _]. destruct (tier_conditions t) as [|c cs] eqn:Ec.
    - rewrite length_app. cbn [length]. replace (length l + 1 - 1) with (length l + 0) by lia.
      rewrite insert_app_r. cbn [insert list_insert]. rewrite !Forall_app, !Forall_singleton.
      split; (split; [done|]); [|done].
      apply normalize_tier_ok. destruct Ht. split; [done|done|done|].
      constructor; [apply default_condition_ok|constructor].
    - rewrite !Forall_app, !Forall_singleton, Ec. done. }
  split; [|split].
  - cbn [tiers]. by destruct (bound_last ts).
  - cbn [tiers]. apply Forall_app. split; [apply Hb|]. apply Forall_singleton. unfold fresh. split; [done| | |constructor].
    + cbn [tier_label normalizeVisualTier free_tier p_label default]. apply Forall_app.
      split; [by apply covers_forallb|]. eapply Forall_impl; [apply digits_are_digits; lia|].
      intros c Hc. unfold not_quote, not_unit. apply negb_true_iff, N.eqb_neq. intros ->. done.
    + intros f. destruct f; apply reads_back_zero.
  - cbn [tiers]. apply guarded_snoc, Hb.
Qed.
(** Leaving a numeric input shows the number it passed on. *)
Lemma parse_draft_finite v : is_finite (DraftInput.parseNumberDraft v) = true.
Proof. unfold DraftInput.parseNumberDraft. destruct (truthy _); [|done]. by destruct (is_finite (string_to_number v)) eqn:E. Qed.
Lemma blur_shows_value d :
  let '(d', x) := DraftInput.handleBlur d in DraftInput.value_effect (VNum x) d' = d'.
Proof.
  unfold DraftInput.handleBlur, DraftInput.value_effect. cbn [DraftInput.focused DraftInput.formatNumberDraft].
  by rewrite parse_draft_finite.
Qed.

(** * Witnesses *)

Definition demo_config : VisualConfig :=
  Config [Tier "base" [Cond "len" "<" (VNum (num 1000))] CACHE_MODE_GENERIC
            (fun f => match f with input_unit_cost => num 2 | output_unit_cost => num 4 | _ => num 0 end);
          Tier "rest" [] CACHE_MODE_GENERIC (fun _ => num 1)].
Lemma demo_config_ok : config_ok demo_config.
Proof. apply (proj1 (bool_decide_eq_true (config_ok demo_config))). vm_compute. reflexivity. Qed.

Lemma editor_settles_witness :
  open_editor "max(1, 2)" [] = settle (COMMITS + 3) true true (EditorState visual None "max(1, 2)" [] false "max(1, 2)" []) /\
  at_rest (EditorState raw None FREE_EXPR [] true FREE_EXPR []).
Proof.
  split.
  - rewrite (proj1 (editor_settles true true _)). reflexivity.
  - apply (proj2 (editor_settles true true (EditorState visual None "max(1, 2)" [] false "max(1, 2)" []))). vm_compute. reflexivity.
Defined.
Lemma reopening_stable_witness :
  exists s, open_editor (generateExprFromVisualConfig (Some demo_config)) (buildRequestRuleExpr demo_groups) = Returns s /\
    visualConfig s = Some (reloaded demo_config).
Proof.
  destruct (reopening_stable demo_config demo_groups demo_config_ok demo_groups_ok) as (s & H & _ & Hv & _).
  exists s. split; [exact H|exact Hv].
Defined.
Lemma visual_edits_passed_on_witness :
  exists s', act (handleVisualChange sample_config) (opened demo_config demo_groups) = Returns s' /\
    currentExpr s' = generateExprFromVisualConfig (Some sample_config).
Proof.
  destruct (visual_edits_passed_on (opened demo_config demo_groups) sample_config) as (s' & H & _ & _ & He & _).
  - apply opened_rest; [apply demo_config_ok|apply demo_groups_ok].
  - reflexivity.
  - apply demo_groups_ok.
  - apply (proj1 (bool_decide_eq_true (config_ok sample_config))). vm_compute. reflexivity.
  - exists s'. split; [exact H|exact He].
Defined.
Lemma first_preset_lost_witness :
  exists p s s', preset_label p = "Claude Opus 4.6 Fast" /\
    open_editor (generateExprFromVisualConfig (Some demo_config)) [] = Returns s /\
    act (applyPreset p) s = Returns s' /\ currentExpr s' = generateExprFromVisualConfig (Some demo_config).
Proof.
  set (p := Preset "claude-opus-fast" "Claude Opus 4.6 Fast"
    "tier(`base`, p * 5 + c * 25 + cr * 0.5 + cc * 6.25 + cc1h * 10)"
    [preset_rule [ParamHeaderCondition header "anthropic-beta" MATCH_CONTAINS "fast-mode-2026-02-01"] "6"]).
  destruct (first_preset_lost demo_config [] p) as (s & s' & H1 & H2 & H3 & _).
  - apply demo_config_ok.
  - constructor.
  - do 11 right. left.
  - discriminate.
  - exists p, s, s'. split; [reflexivity|]. split; [exact H1|]. split; [exact H2|exact H3].
Defined.
Lemma complex_expression_lost_witness :
  exists s, open_editor "max(tier(`base`, p * 2 + c * 8), 5)" (buildRequestRuleExpr demo_groups) = Returns s /\
    currentExpr s = FREE_EXPR.
Proof.
  destruct (complex_expression_lost "max(tier(`base`, p * 2 + c * 8), 5)" demo_groups (Panel.open_panel None))
    as (s & H & _ & _ & He & _).
  - discriminate.
  - discriminate.
  - vm_compute. reflexivity.
  - apply demo_groups_ok.
  - vm_compute. reflexivity.
  - exists s. split; [exact H|exact He].
Defined.
End TieredPricing.
