(* ===== verification/ParamOverride.v ===== *)
(** The editor of parameter overrides of a channel
    (src/web/src/features/channels/components/dialogs/param-override-editor-dialog.tsx):
    operations and conditions, their JSON form, validation, the drafts of the
    two structured values, and the handlers of the dialog as functions on its
    state.

    Identifiers of rows are [po_<time>_<number>] with a counter of the module:
    code that makes them runs in a small monad that threads the counter and
    can fail with a TypeError (the property of a null).  [Date.now()] at the
    n-th identifier is a parameter, as is the translation function. *)
From Stdlib Require Import Floats.SpecFloat.
From S2P Require Import Prelude JsNumber Json JsonText.

Module ParamOverride.

(** * Data *)

Record ParamOverrideCondition := Condition {
  c_id : jsstr; c_path : jsstr; c_mode : jsstr; c_value_text : jsstr;
  c_invert : bool; c_pass_missing_key : bool }.

Record ParamOverrideOperation := Operation {
  o_id : jsstr; description : jsstr; path : jsstr; mode : jsstr; from : jsstr; to : jsstr;
  value_text : jsstr; keep_origin : bool; logic : jsstr; conditions : list ParamOverrideCondition }.

Record mode_meta := Meta {
  m_path : bool; m_pathOptional : bool; m_value : bool; m_from : bool; m_to : bool;
  m_keepOrigin : bool; m_pathAlias : bool }.

(** * Constants *)

Definition OPERATION_MODE_OPTIONS : list (jsstr * jsstr) := [
  ("Set Field", "set"); ("Delete Field", "delete"); ("Append to End", "append");
  ("Prepend to Start", "prepend"); ("Copy Field", "copy"); ("Move Field", "move");
  ("String Replace", "replace"); ("Regex Replace", "regex_replace"); ("Trim Prefix", "trim_prefix");
  ("Trim Suffix", "trim_suffix"); ("Ensure Prefix", "ensure_prefix"); ("Ensure Suffix", "ensure_suffix");
  ("Trim Space", "trim_space"); ("To Lowercase", "to_lower"); ("To Uppercase", "to_upper");
  ("Return Custom Error", "return_error"); ("Prune Object Items", "prune_objects");
  ("Pass Through Headers", "pass_headers"); ("Sync Fields", "sync_fields");
  ("Set Request Header", "set_header"); ("Delete Request Header", "delete_header");
  ("Copy Request Header", "copy_header"); ("Move Request Header", "move_header")].
Definition OPERATION_MODE_VALUES : list jsstr := map snd OPERATION_MODE_OPTIONS.
Definition OPERATION_MODE_LABEL_MAP : obj jsstr :=
  fold_left (fun acc item => obj_set item.2 item.1 acc) OPERATION_MODE_OPTIONS [].

Definition CONDITION_MODE_OPTIONS : list (jsstr * jsstr) := [
  ("Exact Match", "full"); ("Prefix", "prefix"); ("Suffix", "suffix"); ("Contains", "contains");
  ("Greater Than", "gt"); ("Greater Than or Equal", "gte"); ("Less Than", "lt");
  ("Less Than or Equal", "lte")].
Definition CONDITION_MODE_VALUES : list jsstr := map snd CONDITION_MODE_OPTIONS.

Definition no_meta : mode_meta := Meta false false false false false false false.
Definition MODE_META : obj mode_meta :=
  let path_only := Meta true false false false false false false in
  let path_value := Meta true false true false false false false in
  let path_value_keep := Meta true false true false false true false in
  let from_to := Meta false false false true true false false in
  let path_from := Meta true false false true false false false in
  let alias := Meta false false false true true true true in
  [("delete", path_only); ("set", path_value_keep); ("append", path_value_keep);
   ("prepend", path_value_keep); ("copy", from_to); ("move", from_to); ("replace", path_from);
   ("regex_replace", path_from); ("trim_prefix", path_value); ("trim_suffix", path_value);
   ("ensure_prefix", path_value); ("ensure_suffix", path_value); ("trim_space", path_only);
   ("to_lower", path_only); ("to_upper", path_only);
   ("return_error", Meta false false true false false false false);
   ("prune_objects", Meta false true true false false false false);
   ("pass_headers", Meta false false true false false true false); ("sync_fields", from_to);
   ("set_header", path_value_keep); ("delete_header", path_only);
   ("copy_header", alias); ("move_header", alias)].

Definition VALUE_REQUIRED_MODES : list jsstr := [
  "trim_prefix"; "trim_suffix"; "ensure_prefix"; "ensure_suffix"; "set_header"; "return_error";
  "prune_objects"; "pass_headers"].
Definition FROM_REQUIRED_MODES : list jsstr := [
  "copy"; "move"; "replace"; "regex_replace"; "copy_header"; "move_header"; "sync_fields"].
Definition TO_REQUIRED_MODES : list jsstr := [
  "copy"; "move"; "copy_header"; "move_header"; "sync_fields"].

(** [MODE_META[mode] || MODE_META.set] *)
Definition meta_of (m : jsstr) : mode_meta :=
  match obj_get m MODE_META with Some meta => meta | None => default no_meta (obj_get "set" MODE_META) end.

(** ** Templates *)

Definition jstr (s : jsstr) : json := JStr s.
Definition jcondition (p m v : jsstr) : json :=
  JObj [("path", JStr p); ("mode", JStr m); ("value", JStr v)].
Definition joperations (l : list json) : json := JObj [("operations", JArr l)].

Definition LEGACY_TEMPLATE : json := JObj [("temperature", JNum (num 0)); ("max_tokens", JNum (num 1000))].
Definition OPERATION_TEMPLATE : json := joperations [
  JObj [("description", jstr "Set default temperature for openai/* models."); ("path", jstr "temperature");
        ("mode", jstr "set"); ("value", JNum (to_number "0.7"));
        ("conditions", JArr [jcondition "model" "prefix" "openai/"]); ("logic", jstr "AND")]].
Definition HEADER_PASSTHROUGH_TEMPLATE : json := joperations [
  JObj [("description", jstr "Pass through X-Request-Id header to upstream."); ("mode", jstr "pass_headers");
        ("value", JArr [jstr "X-Request-Id"]); ("keep_origin", JBool true)]].
Definition GEMINI_IMAGE_4K_TEMPLATE : json := joperations [
  JObj [("description", jstr "Set imageSize to 4K when model contains gemini/image and ends with 4k.");
        ("mode", jstr "set"); ("path", jstr "generationConfig.imageConfig.imageSize"); ("value", jstr "4K");
        ("conditions", JArr [jcondition "original_model" "contains" "gemini";
                             jcondition "original_model" "contains" "image";
                             jcondition "original_model" "suffix" "4k"]); ("logic", jstr "AND")]].
Definition CODEX_CLI_HEADER_PASSTHROUGH_HEADERS : list jsstr := [
  "Originator"; "Session_id"; "Thread_id"; "Session-Id"; "Thread-Id"; "X-Client-Request-Id"; "User-Agent";
  "X-Codex-Beta-Features"; "X-Codex-Turn-State"; "X-Codex-Turn-Metadata"; "X-Codex-Window-Id";
  "X-Codex-Parent-Thread-Id"; "X-OpenAI-Subagent"; "X-OpenAI-Memgen-Request";
  "X-ResponsesAPI-Include-Timing-Metrics"; "X-OpenAI-Internal-Codex-Responses-Lite"].
Definition CLAUDE_CLI_HEADER_PASSTHROUGH_HEADERS : list jsstr := [
  "X-Stainless-Arch"; "X-Stainless-Lang"; "X-Stainless-Os"; "X-Stainless-Package-Version";
  "X-Stainless-Retry-Count"; "X-Stainless-Runtime"; "X-Stainless-Runtime-Version"; "X-Stainless-Timeout";
  "User-Agent"; "X-App"; "Anthropic-Beta"; "Anthropic-Dangerous-Direct-Browser-Access"; "Anthropic-Version"].
Definition buildPassHeadersTemplate (headers : list jsstr) : json := joperations [
  JObj [("mode", jstr "pass_headers"); ("value", JArr (map JStr headers)); ("keep_origin", JBool true)]].
Definition CODEX_CLI_HEADER_PASSTHROUGH_TEMPLATE : json := joperations [
  JObj [("mode", jstr "pass_headers"); ("value", JArr (map JStr CODEX_CLI_HEADER_PASSTHROUGH_HEADERS));
        ("keep_origin", JBool true)]].
Definition CLAUDE_CLI_HEADER_PASSTHROUGH_TEMPLATE : json :=
  buildPassHeadersTemplate CLAUDE_CLI_HEADER_PASSTHROUGH_HEADERS.
Definition AWS_BEDROCK_ANTHROPIC_COMPAT_TEMPLATE : json := joperations [
  JObj [("description", jstr "Normalize anthropic-beta header tokens for Bedrock compatibility.");
        ("mode", jstr "set_header"); ("path", jstr "anthropic-beta");
        ("value", JObj [
           ("advanced-tool-use-2025-11-20", jstr "tool-search-tool-2025-10-19"); ("bash_20241022", JNull);
           ("bash_20250124", JNull); ("code-execution-2025-08-25", JNull);
           ("compact-2026-01-12", jstr "compact-2026-01-12");
           ("computer-use-2025-01-24", jstr "computer-use-2025-01-24");
           ("computer-use-2025-11-24", jstr "computer-use-2025-11-24");
           ("context-1m-2025-08-07", jstr "context-1m-2025-08-07");
           ("context-management-2025-06-27", jstr "context-management-2025-06-27");
           ("effort-2025-11-24", JNull); ("fast-mode-2026-02-01", JNull); ("files-api-2025-04-14", JNull);
           ("fine-grained-tool-streaming-2025-05-14", JNull);
           ("interleaved-thinking-2025-05-14", jstr "interleaved-thinking-2025-05-14");
           ("mcp-client-2025-11-20", JNull); ("mcp-client-2025-04-04", JNull);
           ("mcp-servers-2025-12-04", JNull); ("output-128k-2025-02-19", JNull);
           ("structured-output-2024-03-01", JNull); ("prompt-caching-scope-2026-01-05", JNull);
           ("skills-2025-10-02", JNull); ("structured-outputs-2025-11-13", JNull);
           ("text_editor_20241022", JNull); ("text_editor_20250124", JNull);
           ("token-efficient-tools-2025-02-19", JNull);
           ("tool-search-tool-2025-10-19", jstr "tool-search-tool-2025-10-19");
           ("web-fetch-2025-09-10", JNull); ("web-search-2025-03-05", JNull); ("oauth-2025-04-20", JNull)])];
  JObj [("description", jstr "Remove all tools[*].custom.input_examples before upstream relay.");
        ("mode", jstr "delete"); ("path", jstr "tools.*.custom.input_examples")]].

Inductive preset_kind := p_operations | p_legacy.
Record TemplatePresetConfig := Preset { preset_label : jsstr; preset_kind_ : preset_kind; payload : json }.
Definition operations_default : TemplatePresetConfig := Preset "New Format Template" p_operations OPERATION_TEMPLATE.
Definition TEMPLATE_PRESET_CONFIG : obj TemplatePresetConfig := [
  ("operations_default", operations_default);
  ("legacy_default", Preset "Legacy Format Template" p_legacy LEGACY_TEMPLATE);
  ("pass_headers_auth", Preset "Header Passthrough (X-Request-Id)" p_operations HEADER_PASSTHROUGH_TEMPLATE);
  ("gemini_image_4k", Preset "Gemini Image 4K" p_operations GEMINI_IMAGE_4K_TEMPLATE);
  ("claude_cli_headers_passthrough",
     Preset "Claude CLI Header Passthrough" p_operations CLAUDE_CLI_HEADER_PASSTHROUGH_TEMPLATE);
  ("codex_cli_headers_passthrough",
     Preset "Codex CLI Header Passthrough" p_operations CODEX_CLI_HEADER_PASSTHROUGH_TEMPLATE);
  ("aws_bedrock_anthropic_beta_override",
     Preset "AWS Bedrock Claude Compat" p_operations AWS_BEDROCK_ANTHROPIC_COMPAT_TEMPLATE)].


(** * Values *)

(** [a || b] on values that may be undefined. *)
Definition jor (a : option json) (b : option json) : option json := if json_truthy a then a else b.
Definition is_string (v : option json) : option jsstr := match v with Some (JStr s) => Some s | _ => None end.
Definition is_true (v : option json) : bool := match v with Some (JBool b) => b | _ => false end.
Definition is_false (v : option json) : bool := match v with Some (JBool b) => negb b | _ => false end.
(** [String(v)] for a value that is defined. *)
Definition text_of (v : option json) : jsstr := match v with Some j => json_to_string j | None => "undefined" end.
(** [String(v ?? '')] *)
Definition text_or_empty (v : option json) : jsstr :=
  match v with None | Some JNull => [] | Some j => json_to_string j end.

Definition upper_ascii (c : N) : N := (if (97 <=? c) && (c <=? 122) then c - 32 else c)%N.
(** [s.toUpperCase()], compared with an ASCII word. *)
Definition upper (s : jsstr) : jsstr := map upper_ascii s.

Definition toValueText (value : option json) : jsstr :=
  match value with
  | None => []
  | Some (JStr s) => s
  | Some v => stringify v
  end.

Definition parseLooseValue (valueText : jsstr) : json :=
  let raw := trim valueText in
  match raw with
  | [] => JStr []
  | _ => match parse raw with Some v => v | None => JStr raw end
  end.

Definition verifyJSON (text : jsstr) : bool := match parse text with Some _ => true | None => false end.

(** * Identifiers *)

(** Code that makes identifiers: it threads the counter and may throw. *)
Definition gen (A : Type) : Type := Z -> option (A * Z).
#[export] Instance gen_ret : MRet gen := fun A x n => Some (x, n).
#[export] Instance gen_bind : MBind gen := fun A B f m n => match m n with Some (x, n') => f x n' | None => None end.
(** The property of a null: a TypeError. *)
Definition throw {A} : gen A := fun _ => None.

Section Editor.
Context (clock : Z -> Z).

Definition local_id (n : Z) : jsstr := "po_" ++ int_to_string (clock n) ++ "_" ++ int_to_string n.
Definition nextLocalId : gen jsstr := fun n => Some (local_id n, n + 1)%Z.

(** [typeof v === 'string' ? v : ''] *)
Definition string_or_empty (v : option json) : jsstr := default [] (is_string v).
(** [set.has(v) ? v : d] *)
Definition mode_in (modes : list jsstr) (v : option json) (d : jsstr) : jsstr :=
  match is_string v with Some s => if has s modes then s else d | None => d end.

(** [map(normalizeCondition)] calls it on every element; a null has no
    properties. *)
Definition normalizeCondition (condition : json) : gen ParamOverrideCondition :=
  id ← nextLocalId;
  match condition with
  | JNull => throw
  | _ =>
      let p k := prop k (Some condition) in
      mret (Condition id (string_or_empty (p "path")) (mode_in CONDITION_MODE_VALUES (p "mode") "full")
              (toValueText (p "value")) (is_true (p "invert")) (is_true (p "pass_missing_key")))
  end.
Definition createDefaultCondition : gen ParamOverrideCondition := normalizeCondition (JObj []).

Definition normalizeOperation (operation : json) : gen ParamOverrideOperation :=
  id ← nextLocalId;
  match operation with
  | JNull => throw
  | _ =>
      let p k := prop k (Some operation) in
      conds ← match p "conditions" with Some (JArr l) => mapM normalizeCondition l | _ => mret [] end;
      mret (Operation id (string_or_empty (p "description")) (string_or_empty (p "path"))
              (mode_in OPERATION_MODE_VALUES (p "mode") "set") (string_or_empty (p "from"))
              (string_or_empty (p "to")) (toValueText (p "value")) (is_true (p "keep_origin"))
              (if str_eqb (upper (text_of (jor (p "logic") (Some (JStr "OR"))))) "AND" then "AND" else "OR")
              conds)
  end.
Definition createDefaultOperation : gen ParamOverrideOperation :=
  normalizeOperation (JObj [("mode", JStr "set")]).

Definition reorderOperations (ops : list ParamOverrideOperation) (sourceId targetId : jsstr) (after : bool)
  : list ParamOverrideOperation :=
  if negb (truthy sourceId) || negb (truthy targetId) || str_eqb sourceId targetId then ops
  else
    match find_index (fun o => str_eqb (o_id o) sourceId) ops with
    | None => ops
    | Some srcIdx =>
        match ops !! srcIdx with
        | None => ops
        | Some moved =>
            let next := delete srcIdx ops in
            match find_index (fun o => str_eqb (o_id o) targetId) next with
            | None => ops
            | Some insertIdx =>
                let insertIdx := if after then S insertIdx else insertIdx in
                take insertIdx next ++ [moved] ++ drop insertIdx next
            end
        end
    end.

Definition isOperationBlank (o : ParamOverrideOperation) : bool :=
  let hasCondition :=
    existsb (fun c => truthy (trim (c_path c)) || truthy (trim (c_value_text c))
                      || negb (str_eqb (c_mode c) "full") || c_invert c || c_pass_missing_key c)
      (conditions o) in
  str_eqb (mode o) "set" && negb (truthy (trim (path o))) && negb (truthy (trim (from o)))
  && negb (truthy (trim (to o))) && negb (truthy (trim (value_text o))) && negb (keep_origin o)
  && negb hasCondition.

Definition getOperationSummary (o : ParamOverrideOperation) (index : nat) : jsstr :=
  let m := str_or (mode o) "set" in
  let modeLabel := str_or (default [] (obj_get m OPERATION_MODE_LABEL_MAP)) m in
  let from := trim (from o) in
  let to := trim (to o) in
  let path := trim (path o) in
  let dot := [46; 32]%N ++ modeLabel ++ [32; 183; 32]%N in
  if str_eqb m "sync_fields"
  then int_to_string (Z.of_nat index + 1) ++ dot ++ str_or from (str_or to "-")
  else int_to_string (Z.of_nat index + 1) ++ dot ++ str_or path (str_or from (str_or to "-")).

(** ** Targets of sync_fields *)

Definition parseSyncTargetSpec (spec : jsstr) : jsstr * jsstr :=
  let raw := trim spec in
  match raw with
  | [] => ("json", [])
  | _ =>
      match index_of ":" raw with
      | None => ("json", raw)
      | Some idx =>
          let prefix := lower (trim (take idx raw)) in
          let key := trim (drop (S idx) raw) in
          if str_eqb prefix "header" then ("header", key) else ("json", key)
      end
  end.

Definition buildSyncTargetSpec (type key : jsstr) : jsstr :=
  let normalizedType : jsstr := if str_eqb type "header" then "header" else "json" in
  let normalizedKey := trim key in
  if truthy normalizedKey then normalizedType ++ ":" ++ normalizedKey else [].

(** ** The value of return_error *)

Record ReturnErrorDraft := ErrorDraft {
  re_message : jsstr; re_statusCode : jsnum; re_code : jsstr; re_type : jsstr;
  re_skipRetry : bool; re_simpleMode : bool }.

Definition valid_status (n : jsnum) : bool := is_integer n && num_leb (num 100) n && num_leb n (num 599).

Definition parseReturnErrorDraft (valueText : jsstr) : ReturnErrorDraft :=
  let raw := trim valueText in
  match raw with
  | [] => ErrorDraft [] (num 400) [] [] true true
  | _ =>
      match parse raw with
      | Some (JObj o) =>
          let p k := prop k (Some (JObj o)) in
          let statusRaw := match p "status_code" with Some v => Some v | None => p "status" end in
          let statusValue := json_to_number statusRaw in
          ErrorDraft (trim (text_of (jor (p "message") (jor (p "msg") (Some (JStr [])))))) 
            (if valid_status statusValue then statusValue else num 400)
            (trim (text_of (jor (p "code") (Some (JStr [])))))
            (trim (text_of (jor (p "type") (Some (JStr [])))))
            (negb (is_false (p "skip_retry"))) false
      | _ => ErrorDraft raw (num 400) [] [] true true
      end
  end.

Definition buildReturnErrorValueText (d : ReturnErrorDraft) : jsstr :=
  let message := trim (re_message d) in
  if re_simpleMode d then message
  else
    let payload := obj_set "status_code"
                     (JNum (if valid_status (re_statusCode d) then re_statusCode d else num 400))
                     (obj_set "message" (JStr message) []) in
    let code := trim (re_code d) in
    let type := trim (re_type d) in
    let payload := if truthy code then obj_set "code" (JStr code) payload else payload in
    let payload := if truthy type then obj_set "type" (JStr type) payload else payload in
    let payload := if re_skipRetry d then payload else obj_set "skip_retry" (JBool false) payload in
    stringify (JObj payload).

(** ** The value of prune_objects *)

Record PruneRule := Rule {
  r_id : jsstr; r_path : jsstr; r_mode : jsstr; r_value_text : jsstr; r_invert : bool; r_pass_missing_key : bool }.
Record PruneObjectsDraft := PruneDraft {
  pd_simpleMode : bool; pd_typeText : jsstr; pd_logic : jsstr; pd_recursive : bool; pd_rules : list PruneRule }.

(** Called on objects and arrays only. *)
Definition normalizePruneRule (rule : json) : gen PruneRule :=
  id ← nextLocalId;
  let p k := prop k (Some rule) in
  mret (Rule id (string_or_empty (p "path")) (mode_in CONDITION_MODE_VALUES (p "mode") "full")
          (toValueText (p "value")) (is_true (p "invert")) (is_true (p "pass_missing_key"))).

(** [Object.entries(o)] as rules. *)
Definition rules_of_entries (o : obj json) : gen (list PruneRule) :=
  mapM (fun '(k, v) => normalizePruneRule (JObj [("path", JStr k); ("mode", JStr "full"); ("value", v)])) o.

Definition is_object (v : json) : bool := match v with JArr _ | JObj _ => true | _ => false end.

Definition parsePruneObjectsDraft (valueText : jsstr) : gen PruneObjectsDraft :=
  let raw := trim valueText in
  match raw with
  | [] => mret (PruneDraft true [] "AND" true [])
  | _ =>
      match parse raw with
      | None => mret (PruneDraft true raw "AND" true [])
      | Some (JStr s) => mret (PruneDraft true (trim s) "AND" true [])
      | Some (JObj o) =>
          let p k := prop k (Some (JObj o)) in
          whereRules ← match p "where" with Some (JObj w) => rules_of_entries w | _ => mret [] end;
          conditionRules ← match p "conditions" with
                           | Some (JArr l) => mapM normalizePruneRule (List.filter is_object l)
                           | Some (JObj c) => rules_of_entries c
                           | _ => mret []
                           end;
          let typeText := match p "type" with None => [] | Some v => trim (json_to_string v) end in
          let logic := if str_eqb (upper (text_of (jor (p "logic") (Some (JStr "AND"))))) "OR" then "OR" else "AND" in
          let recursive := negb (is_false (p "recursive")) in
          let hasAdvancedFields :=
            match p "logic", p "recursive", p "where", p "conditions" with
            | None, None, None, None => false
            | _, _, _, _ => true
            end in
          mret (PruneDraft (negb hasAdvancedFields) typeText logic recursive (whereRules ++ conditionRules))
      | Some v => mret (PruneDraft true (trim (text_or_empty (Some v))) "AND" true [])
      end
  end.

Definition prune_condition (r : PruneRule) : json :=
  let c := obj_set "mode" (JStr (if has (r_mode r) CONDITION_MODE_VALUES then r_mode r else "full"))
             (obj_set "path" (JStr (trim (r_path r))) []) in
  let valueRaw := trim (r_value_text r) in
  let c := if truthy valueRaw then obj_set "value" (parseLooseValue valueRaw) c else c in
  let c := if r_invert r then obj_set "invert" (JBool true) c else c in
  let c := if r_pass_missing_key r then obj_set "pass_missing_key" (JBool true) c else c in
  JObj c.

Definition buildPruneObjectsValueText (d : PruneObjectsDraft) : jsstr :=
  let typeText := trim (pd_typeText d) in
  if pd_simpleMode d then typeText
  else
    let payload : obj json := if truthy typeText then obj_set "type" (JStr typeText) [] else [] in
    let payload := if str_eqb (upper (str_or (pd_logic d) "AND")) "OR"
                   then obj_set "logic" (JStr "OR") payload else payload in
    let payload := if pd_recursive d then payload else obj_set "recursive" (JBool false) payload in
    let conditions := map prune_condition (List.filter (fun r => truthy (trim (r_path r))) (pd_rules d)) in
    match conditions with
    | [] => if truthy typeText then stringify (JObj payload) else stringify (JObj [("logic", JStr "AND")])
    | _ => stringify (JObj (obj_set "conditions" (JArr conditions) payload))
    end.

(** ** The value of pass_headers *)

Definition parsePassHeaderNames (rawValue : json) : list jsstr :=
  let names l := filter_truthy (map (fun i => trim (text_or_empty (Some i))) l) in
  match rawValue with
  | JArr l => names l
  | JObj o =>
      match obj_get "headers" o with
      | Some (JArr l) => names l
      | _ => match obj_get "header" o with
             | Some h => filter_truthy [trim (text_or_empty (Some h))]
             | None => []
             end
      end
  | JStr s => filter_truthy (map trim (split_char 44 s))
  | _ => []
  end.

(** * Validation and the saved form *)

Definition buildConditionPayload (c : ParamOverrideCondition) : option json :=
  let path := trim (c_path c) in
  if truthy path then
    let p := obj_set "value" (parseLooseValue (c_value_text c))
               (obj_set "mode" (JStr (str_or (c_mode c) "full")) (obj_set "path" (JStr path) [])) in
    let p := if c_invert c then obj_set "invert" (JBool true) p else p in
    let p := if c_pass_missing_key c then obj_set "pass_missing_key" (JBool true) p else p in
    Some (JObj p)
  else None.

(** The message for an operation, before the line number is put in. *)
Definition validate_operation (o : ParamOverrideOperation) : option jsstr :=
  let m := str_or (mode o) "set" in
  let meta := meta_of m in
  let pathValue := trim (path o) in
  let fromValue := trim (from o) in
  let toValue := trim (to o) in
  let raw := trim (value_text o) in
  if m_path meta && negb (truthy pathValue) then Some ("Rule {{line}} is missing target path" : jsstr)
  else if has m FROM_REQUIRED_MODES && negb (truthy fromValue) && negb (m_pathAlias meta && truthy pathValue)
  then Some ("Rule {{line}} is missing source field" : jsstr)
  else if has m TO_REQUIRED_MODES && negb (truthy toValue) && negb (m_pathAlias meta && truthy pathValue)
  then Some ("Rule {{line}} is missing target field" : jsstr)
  else if has m VALUE_REQUIRED_MODES && negb (truthy raw) then Some ("Rule {{line}} is missing value" : jsstr)
  else if str_eqb m "return_error" then
    match parse raw with
    | Some (JObj e) =>
        if truthy (trim (text_of (jor (obj_get "message" e) (Some (JStr []))))) then None
        else Some ("Rule {{line}} return_error requires a message field" : jsstr)
    | _ => None
    end
  else if str_eqb m "pass_headers" then
    match parsePassHeaderNames (parseLooseValue raw) with
    | [] => Some ("Rule {{line}} pass_headers format is invalid" : jsstr)
    | _ => None
    end
  else None.

(** The translation function: the key and the line to put in. *)
Context (t : jsstr -> option nat -> jsstr).

Fixpoint validate_from (i : nat) (ops : list ParamOverrideOperation) : jsstr :=
  match ops with
  | [] => []
  | o :: rest =>
      match validate_operation o with
      | Some key => t key (Some (i + 1))
      | None => validate_from (S i) rest
      end
  end.
Definition validateOperations (ops : list ParamOverrideOperation) : jsstr := validate_from 0 ops.

Definition set_if (b : bool) (k : jsstr) (v : json) (p : obj json) : obj json := if b then obj_set k v p else p.

(** The payload as far as the fields of the mode go. *)
Definition operation_fields (o : ParamOverrideOperation) : obj json :=
  let m := str_or (mode o) "set" in
  let meta := meta_of m in
  let descriptionValue := trim (description o) in
  let pathValue := trim (path o) in
  let fromValue := trim (from o) in
  let toValue := trim (to o) in
  let p := obj_set "mode" (JStr m) [] in
  let p := set_if (truthy descriptionValue) "description" (JStr descriptionValue) p in
  let p := set_if (m_path meta) "path" (JStr pathValue) p in
  let p := set_if (m_pathOptional meta && truthy pathValue) "path" (JStr pathValue) p in
  let p := set_if (m_value meta) "value" (parseLooseValue (value_text o)) p in
  let p := set_if (m_keepOrigin meta && keep_origin o) "keep_origin" (JBool true) p in
  let p := set_if (m_from meta) "from" (JStr fromValue) p in
  let p := set_if (negb (m_to meta) && truthy toValue) "to" (JStr toValue) p in
  set_if (m_to meta) "to" (JStr toValue) p.

(** [if (!payload[k] && pathValue) payload[k] = pathValue] *)
Definition alias_field (k pathValue : jsstr) (p : obj json) : obj json :=
  set_if (negb (json_truthy (obj_get k p)) && truthy pathValue) k (JStr pathValue) p.

Definition operation_payload (o : ParamOverrideOperation) : json :=
  let meta := meta_of (str_or (mode o) "set") in
  let pathValue := trim (path o) in
  let p := operation_fields o in
  let p := if m_pathAlias meta then alias_field "to" pathValue (alias_field "from" pathValue p) else p in
  let conds := omap buildConditionPayload (conditions o) in
  match conds with
  | [] => JObj p
  | _ => JObj (obj_set "logic" (JStr (if str_eqb (logic o) "AND" then "AND" else "OR"))
                 (obj_set "conditions" (JArr conds) p))
  end.

(** The text, or the message of the error thrown. *)
Definition buildOperationsJson (source : list ParamOverrideOperation) (validate : bool) : jsstr + jsstr :=
  let filteredOps := List.filter (fun o => negb (isOperationBlank o)) source in
  match filteredOps with
  | [] => inr []
  | _ =>
      let message := if validate then validateOperations filteredOps else [] in
      if truthy message then inl message
      else inr (stringify_pretty (JObj [("operations", JArr (map operation_payload filteredOps))]))
  end.

(** * The state of the dialog *)

Inductive edit_mode := e_visual | e_json.
Inductive visual_mode := v_operations | v_legacy.
#[global] Instance edit_mode_eq : EqDecision edit_mode.
Proof. solve_decision. Defined.
#[global] Instance visual_mode_eq : EqDecision visual_mode.
Proof. solve_decision. Defined.

Record EditorState := Editor {
  editMode : edit_mode; visualMode : visual_mode; legacyValue : jsstr;
  operations : list ParamOverrideOperation; jsonText : jsstr; jsonError : jsstr }.

(** [parsed.operations] when the value is an object and that is an array. *)
Definition operations_array (v : json) : option (list json) :=
  match prop "operations" (Some v) with Some (JArr l) => Some l | _ => None end.

(** The operations of a JSON text, a default one when there are none. *)
Definition load_operations (l : list json) : gen (list ParamOverrideOperation) :=
  match l with
  | [] => o ← createDefaultOperation; mret [o]
  | _ => mapM normalizeOperation l
  end.

Definition parseInitialState (text : jsstr) : gen EditorState :=
  let trimmed := trim text in
  match trimmed with
  | [] => o ← createDefaultOperation; mret (Editor e_visual v_operations [] [o] [] [])
  | _ =>
      match parse trimmed with
      | None => o ← createDefaultOperation; mret (Editor e_json v_operations [] [o] text "Invalid JSON format")
      | Some v =>
          let pretty := stringify_pretty v in
          match operations_array v with
          | Some l => ops ← load_operations l; mret (Editor e_visual v_operations [] ops pretty [])
          | None =>
              o ← createDefaultOperation;
              match v with
              | JObj _ => mret (Editor e_visual v_legacy pretty [o] pretty [])
              | _ => mret (Editor e_json v_operations [] [o] pretty [])
              end
          end
      end
  end.


(** ** The dialog *)

(** The state of the component, with what it has shown and saved. *)
Record dialog := Dialog {
  editor : EditorState; operationSearch : jsstr; selectedOperationId : jsstr;
  expandedConditions : obj bool; draggedOperationId : jsstr; dragOverOperationId : jsstr;
  dragAfter : bool; templatePresetKey : jsstr;
  toasts : list jsstr; saved : list jsstr; is_open : bool }.

Definition set_editor (e : EditorState) (d : dialog) : dialog :=
  Dialog e (operationSearch d) (selectedOperationId d) (expandedConditions d) (draggedOperationId d)
    (dragOverOperationId d) (dragAfter d) (templatePresetKey d) (toasts d) (saved d) (is_open d).
Definition select (i : jsstr) (d : dialog) : dialog :=
  Dialog (editor d) (operationSearch d) i (expandedConditions d) (draggedOperationId d)
    (dragOverOperationId d) (dragAfter d) (templatePresetKey d) (toasts d) (saved d) (is_open d).
Definition expand (m : obj bool) (d : dialog) : dialog :=
  Dialog (editor d) (operationSearch d) (selectedOperationId d) m (draggedOperationId d)
    (dragOverOperationId d) (dragAfter d) (templatePresetKey d) (toasts d) (saved d) (is_open d).
Definition set_drag (dragged over : jsstr) (after : bool) (d : dialog) : dialog :=
  Dialog (editor d) (operationSearch d) (selectedOperationId d) (expandedConditions d) dragged over after
    (templatePresetKey d) (toasts d) (saved d) (is_open d).
Definition set_preset (k : jsstr) (d : dialog) : dialog :=
  Dialog (editor d) (operationSearch d) (selectedOperationId d) (expandedConditions d) (draggedOperationId d)
    (dragOverOperationId d) (dragAfter d) k (toasts d) (saved d) (is_open d).
Definition toast (m : jsstr) (d : dialog) : dialog :=
  Dialog (editor d) (operationSearch d) (selectedOperationId d) (expandedConditions d) (draggedOperationId d)
    (dragOverOperationId d) (dragAfter d) (templatePresetKey d) (toasts d ++ [m]) (saved d) (is_open d).
Definition save_and_close (v : jsstr) (d : dialog) : dialog :=
  Dialog (editor d) (operationSearch d) (selectedOperationId d) (expandedConditions d) (draggedOperationId d)
    (dragOverOperationId d) (dragAfter d) (templatePresetKey d) (toasts d) (saved d ++ [v]) false.

Definition with_operations (ops : list ParamOverrideOperation) (e : EditorState) : EditorState :=
  Editor (editMode e) (visualMode e) (legacyValue e) ops (jsonText e) (jsonError e).
(** [setOperations(f)] *)
Definition setOperations (f : list ParamOverrideOperation -> list ParamOverrideOperation) (d : dialog) : dialog :=
  set_editor (with_operations (f (operations (editor d))) (editor d)) d.

Definition first_id (ops : list ParamOverrideOperation) : jsstr :=
  match ops with o :: _ => o_id o | [] => [] end.

(** The effect that runs when the dialog opens. *)
Definition open_dialog (value : jsstr) (d : dialog) : gen dialog :=
  state ← parseInitialState value;
  mret (Dialog state [] (first_id (operations state)) [] [] [] false
          (match visualMode state with v_legacy => "legacy_default" | v_operations => "operations_default" end)
          (toasts d) (saved d) true).

(** The effect that keeps the selection valid. *)
Definition keep_selection (d : dialog) : dialog :=
  match operations (editor d) with
  | [] => select [] d
  | o :: _ =>
      if existsb (fun o => str_eqb (o_id o) (selectedOperationId d)) (operations (editor d)) then d
      else select (o_id o) d
  end.

Definition filteredOperations (d : dialog) : list ParamOverrideOperation :=
  let keyword := lower (trim (operationSearch d)) in
  if truthy keyword then
    List.filter (fun o => includes keyword (lower (join " " (filter_truthy
                   [description o; mode o; path o; from o; to o; value_text o])))) (operations (editor d))
  else operations (editor d).

Definition update_at (i : jsstr) (f : ParamOverrideOperation -> ParamOverrideOperation)
  (ops : list ParamOverrideOperation) : list ParamOverrideOperation :=
  map (fun o => if str_eqb (o_id o) i then f o else o) ops.
Definition updateOperation (i : jsstr) (patch : ParamOverrideOperation -> ParamOverrideOperation)
  (d : dialog) : dialog := setOperations (update_at i patch) d.

Definition addOperation (d : dialog) : gen dialog :=
  created ← createDefaultOperation;
  mret (select (o_id created) (setOperations (fun prev => prev ++ [created]) d)).

(** The object the clone is normalised from. *)
Definition clone_source (o : ParamOverrideOperation) : json :=
  JObj [("description", JStr (description o)); ("path", JStr (path o)); ("mode", JStr (mode o));
        ("value", parseLooseValue (value_text o)); ("keep_origin", JBool (keep_origin o));
        ("from", JStr (from o)); ("to", JStr (to o)); ("logic", JStr (logic o));
        ("conditions", JArr (map (fun c => JObj [("path", JStr (c_path c)); ("mode", JStr (c_mode c));
           ("value", parseLooseValue (c_value_text c)); ("invert", JBool (c_invert c));
           ("pass_missing_key", JBool (c_pass_missing_key c))]) (conditions o)))].

(** [eager]: React runs the updater at once when nothing is queued; only then
    is the new identifier known when the selection is set. *)
Definition duplicateOperation (eager : bool) (i : jsstr) (d : dialog) : gen dialog :=
  let prev := operations (editor d) in
  match find_index (fun o => str_eqb (o_id o) i) prev with
  | None => mret d
  | Some idx =>
      match prev !! idx with
      | None => mret d
      | Some source =>
          cloned ← normalizeOperation (clone_source source);
          let d := setOperations (fun _ => take (S idx) prev ++ [cloned] ++ drop (S idx) prev) d in
          mret (if eager then select (o_id cloned) d else d)
      end
  end.

Definition removeOperation (i : jsstr) (d : dialog) : gen dialog :=
  let prev := operations (editor d) in
  if length prev <=? 1
  then o ← createDefaultOperation; mret (setOperations (fun _ => [o]) d)
  else mret (setOperations (List.filter (fun o => negb (str_eqb (o_id o) i))) d).

Definition with_conditions (f : list ParamOverrideCondition -> list ParamOverrideCondition)
  (o : ParamOverrideOperation) : ParamOverrideOperation :=
  Operation (o_id o) (description o) (path o) (mode o) (from o) (to o) (value_text o) (keep_origin o)
    (logic o) (f (conditions o)).
Definition with_value (v : jsstr) (o : ParamOverrideOperation) : ParamOverrideOperation :=
  Operation (o_id o) (description o) (path o) (mode o) (from o) (to o) v (keep_origin o)
    (logic o) (conditions o).

Definition addCondition (i : jsstr) (d : dialog) : gen dialog :=
  created ← createDefaultCondition;
  mret (expand (obj_set (c_id created) true (expandedConditions d))
          (setOperations (update_at i (with_conditions (fun cs => cs ++ [created]))) d)).
Definition updateCondition (i ci : jsstr) (patch : ParamOverrideCondition -> ParamOverrideCondition)
  (d : dialog) : dialog :=
  setOperations (update_at i (with_conditions (map (fun c => if str_eqb (c_id c) ci then patch c else c)))) d.
Definition removeCondition (i ci : jsstr) (d : dialog) : dialog :=
  setOperations (update_at i (with_conditions (List.filter (fun c => negb (str_eqb (c_id c) ci))))) d.

Definition updateReturnErrorDraft (i : jsstr) (patch : ReturnErrorDraft -> ReturnErrorDraft) (d : dialog) : dialog :=
  setOperations (update_at i (fun o =>
    with_value (buildReturnErrorValueText (patch (parseReturnErrorDraft (value_text o)))) o)) d.

(** The updater parses the draft again, with new identifiers for its rules. *)
Definition updatePruneObjectsDraft (i : jsstr) (updater : PruneObjectsDraft -> gen PruneObjectsDraft)
  (d : dialog) : gen dialog :=
  ops ← mapM (fun o => if str_eqb (o_id o) i then
                         draft ← parsePruneObjectsDraft (value_text o);
                         next ← updater draft;
                         mret (with_value (buildPruneObjectsValueText next) o)
                       else mret o) (operations (editor d));
  mret (setOperations (fun _ => ops) d).
Definition with_rules (f : list PruneRule -> list PruneRule) (p : PruneObjectsDraft) : PruneObjectsDraft :=
  PruneDraft (pd_simpleMode p) (pd_typeText p) (pd_logic p) (pd_recursive p) (f (pd_rules p)).
Definition addPruneRule (i : jsstr) : dialog -> gen dialog :=
  updatePruneObjectsDraft i (fun p =>
    r ← normalizePruneRule (JObj []);
    mret (PruneDraft false (pd_typeText p) (pd_logic p) (pd_recursive p) (pd_rules p ++ [r]))).
Definition updatePruneRule (i ri : jsstr) (patch : PruneRule -> PruneRule) : dialog -> gen dialog :=
  updatePruneObjectsDraft i (fun p => mret (with_rules (map (fun r => if str_eqb (r_id r) ri then patch r else r)) p)).
Definition removePruneRule (i ri : jsstr) : dialog -> gen dialog :=
  updatePruneObjectsDraft i (fun p => mret (with_rules (List.filter (fun r => negb (str_eqb (r_id r) ri))) p)).

(** ** Drag and drop *)

Definition resetDragState : dialog -> dialog := set_drag [] [] false.
Definition handleDragStart (i : jsstr) (d : dialog) : dialog :=
  select i (set_drag i (dragOverOperationId d) (dragAfter d) d).
(** [after]: the pointer is in the lower half of the row. *)
Definition handleDragOver (i : jsstr) (after : bool) (d : dialog) : dialog :=
  if negb (truthy (draggedOperationId d)) || str_eqb (draggedOperationId d) i then d
  else set_drag (draggedOperationId d) i after d.
(** [transfer]: the text the drag event carries. *)
Definition handleDrop (i transfer : jsstr) (d : dialog) : dialog :=
  let sourceId := str_or (draggedOperationId d) transfer in
  let after := if str_eqb (dragOverOperationId d) i then dragAfter d else false in
  resetDragState
    (if truthy sourceId && truthy i && negb (str_eqb sourceId i)
     then select sourceId (setOperations (fun prev => reorderOperations prev sourceId i after) d)
     else d).

(** ** Modes, templates and saving *)

Definition buildVisualJson (e : EditorState) : jsstr + jsstr :=
  match visualMode e with
  | v_legacy =>
      let trimmed := trim (legacyValue e) in
      match trimmed with
      | [] => inr []
      | _ => match parse trimmed with
             | None => inl (t "Parameter override must be valid JSON format" None)
             | Some (JObj o) => inr (stringify_pretty (JObj o))
             | Some _ => inl (t "Legacy format must be a JSON object" None)
             end
      end
  | v_operations => buildOperationsJson (operations e) true
  end.

Definition switchToJsonMode (d : dialog) : dialog :=
  let e := editor d in
  let to_json text error := Editor e_json (visualMode e) (legacyValue e) (operations e) text error in
  match editMode e with
  | e_json => d
  | e_visual =>
      match buildVisualJson e with
      | inr text => set_editor (to_json text []) d
      | inl message =>
          let text := match visualMode e with
                      | v_legacy => legacyValue e
                      | v_operations => match buildOperationsJson (operations e) false with inr s => s | inl s => s end
                      end in
          set_editor (to_json text (str_or message (t "Parameter configuration error" None))) (toast message d)
      end
  end.

Definition switchToVisualMode (d : dialog) : gen dialog :=
  let e := editor d in
  match editMode e with
  | e_visual => mret d
  | e_json =>
      let trimmed := trim (jsonText e) in
      match trimmed with
      | [] =>
          o ← createDefaultOperation;
          mret (select (o_id o) (set_editor (Editor e_visual v_operations [] [o] (jsonText e) []) d))
      | _ =>
          match parse trimmed with
          | None => mret (toast (t "Parameter override must be valid JSON format" None) d)
          | Some v =>
              match operations_array v with
              | Some l =>
                  ops ← load_operations l;
                  mret (set_preset "operations_default"
                          (select (first_id ops) (set_editor (Editor e_visual v_operations [] ops (jsonText e) []) d)))
              | None =>
                  match v with
                  | JObj _ =>
                      o ← createDefaultOperation;
                      mret (set_preset "legacy_default" (select (o_id o)
                              (set_editor (Editor e_visual v_legacy (stringify_pretty v) [o] (jsonText e) []) d)))
                  | _ => mret (toast (t "Parameter override must be a valid JSON object" None) d)
                  end
              end
          end
      end
  end.

(** [{ ...a, ...b }] *)
Definition spread (a : obj json) (b : json) : obj json :=
  fold_left (fun acc '(k, v) => obj_set k v acc) (own_entries b) a.

Definition fillTemplate (append : bool) (d : dialog) : gen dialog :=
  let e := editor d in
  let preset := default operations_default (obj_get (templatePresetKey d) TEMPLATE_PRESET_CONFIG) in
  match preset_kind_ preset with
  | p_legacy =>
      let finish v :=
        let text := stringify_pretty v in
        o ← createDefaultOperation;
        mret (set_editor (Editor e_visual v_legacy text [o] text []) d) in
      if append && bool_decide (visualMode e = v_legacy) then
        let trimmed := trim (legacyValue e) in
        match trimmed with
        | [] => finish (JObj (spread (entries (payload preset)) (JObj [])))
        | _ => match parse trimmed with
               | None => mret (toast (t "Current legacy JSON is invalid, cannot append" None) d)
               | Some v => finish (JObj (spread (entries (payload preset)) v))
               end
        end
      else finish (payload preset)
  | p_operations =>
      let operationsPayload := default [] (operations_array (payload preset)) in
      if append then
        appended ← mapM normalizeOperation operationsPayload;
        let existing := match visualMode e with
                        | v_operations => List.filter (fun o => negb (isOperationBlank o)) (operations e)
                        | v_legacy => []
                        end in
        let nextOps := existing ++ appended in
        mret (select (str_or (first_id nextOps) (first_id appended))
                (set_editor (Editor e_visual v_operations [] (match nextOps with [] => appended | _ => nextOps end) [] []) d))
      else
        finalOps ← load_operations operationsPayload;
        mret (select (first_id finalOps)
                (set_editor (Editor e_visual v_operations (legacyValue e) finalOps
                   (stringify_pretty (JObj [("operations", JArr operationsPayload)])) []) d))
  end.

Definition resetEditorState (d : dialog) : gen dialog :=
  o ← createDefaultOperation;
  mret (set_preset "operations_default" (select (o_id o) (set_editor (Editor e_visual v_operations [] [o] [] []) d))).

Definition handleJsonChange (nextValue : jsstr) (d : dialog) : dialog :=
  let e := editor d in
  let trimmed := trim nextValue in
  let error := match trimmed with [] => [] | _ => if verifyJSON trimmed then [] else t "JSON format error" None end in
  set_editor (Editor (editMode e) (visualMode e) (legacyValue e) (operations e) nextValue error) d.

Definition visualValidationError (d : dialog) : jsstr :=
  match editMode (editor d) with
  | e_json => []
  | e_visual => match buildVisualJson (editor d) with
                | inr _ => []
                | inl message => str_or message (t "Parameter configuration error" None)
                end
  end.

Definition handleSave (d : dialog) : dialog :=
  let e := editor d in
  let result :=
    match editMode e with
    | e_json =>
        let trimmed := trim (jsonText e) in
        match trimmed with
        | [] => inr []
        | _ => match parse trimmed with
               | None => inl (t "Parameter override must be valid JSON format" None)
               | Some v => inr (stringify_pretty v)
               end
        end
    | e_visual => buildVisualJson e
    end in
  match result with
  | inr text => save_and_close text d
  | inl message => toast message d
  end.

Definition selected (d : dialog) : option ParamOverrideOperation :=
  find (fun o => str_eqb (o_id o) (selectedOperationId d)) (operations (editor d)).
Definition setAllConditions (b : bool) (d : dialog) : dialog :=
  match selected d with
  | None => d
  | Some o => expand (fold_left (fun m c => obj_set (c_id c) b m) (conditions o) (expandedConditions d)) d
  end.
Definition expandAllConditions : dialog -> dialog := setAllConditions true.
Definition collapseAllConditions : dialog -> dialog := setAllConditions false.

End Editor.
End ParamOverride.
