(* ===== verification/ParamOverrideProofs.v ===== *)
(** The editor of parameter overrides ([ParamOverride]): what is saved, that it
    reopens as it was, and what the handlers of the dialog keep true.

    - the reading of values: [parseLooseValue] undoes [toValueText] and the
      saved form of an operation is read back as its [saved_form];
    - validation finds the first incomplete operation, and what is saved is
      complete;
    - moving an operation puts it next to its target and nothing else changes;
    - over all handlers, operations keep distinct identifiers and known modes,
      and one of them is selected;
    - the identifiers of prune rules, which are made again on every reading. *)
From Stdlib Require Import Floats.SpecFloat.
From S2P Require Import Prelude JsNumber JsCollections Json JsonText ParamOverride.
Import ParamOverride.

Module OverrideEditor.

(** * Identifiers *)

Section Identifiers.
Context (clock : Z -> Z).

Lemma digits_no_underscore n : (0 <= n)%Z -> 95%N ∉ digits n.
Proof. intros Hn Hin. pose proof (digits_are_digits n Hn) as H. rewrite Forall_forall in H. by apply H in Hin. Qed.

(** What follows the last separator determines the number. *)
Lemma app_sep_inj c (a b u v : jsstr) : c ∉ u -> c ∉ v -> a ++ c :: u = b ++ c :: v -> u = v.
Proof.
  revert b. induction a as [|x a IH]; intros [|y b] Hu Hv E; simplify_eq/=; eauto.
  - exfalso. apply Hu, elem_of_app. right. left.
  - exfalso. apply Hv, elem_of_app. right. left.
Qed.
Lemma int_to_string_digits n : (0 <= n)%Z -> int_to_string n = digits n.
Proof. intros Hn. unfold int_to_string. by rewrite (proj2 (Z.ltb_ge n 0) Hn). Qed.

Lemma local_id_inj n m : (0 <= n)%Z -> (0 <= m)%Z -> local_id clock n = local_id clock m -> n = m.
Proof.
  intros Hn Hm E. unfold local_id in E. rewrite !(int_to_string_digits n), !(int_to_string_digits m) in E by done.
  apply digits_inj; [done|done|].
  apply (app_sep_inj 95%N ("po_" ++ int_to_string (clock n)) ("po_" ++ int_to_string (clock m)));
    [by apply digits_no_underscore..|]. by rewrite <- !app_assoc.
Qed.
Lemma local_id_truthy n : truthy (local_id clock n) = true.
Proof. done. Qed.

(** An identifier the counter has passed. *)
Definition issued (n : Z) (i : jsstr) : Prop := exists k, (0 <= k < n)%Z /\ i = local_id clock k.
Lemma issued_mono n m i : (n <= m)%Z -> issued n i -> issued m i.
Proof. intros H (k & Hk & ->). exists k. split; [lia|done]. Qed.
Lemma issued_fresh n i : (0 <= n)%Z -> issued n i -> i <> local_id clock n.
Proof. intros Hn (k & Hk & ->) E. apply local_id_inj in E; lia. Qed.
Lemma issued_next n : (0 <= n)%Z -> issued (n + 1) (local_id clock n).
Proof. intros Hn. exists n. split; [lia|done]. Qed.
End Identifiers.


(** * Reading operations *)

(** What a JSON value says of a condition or an operation, without identifiers. *)
Definition condition_of (j : json) : ParamOverrideCondition :=
  let p k := prop k (Some j) in
  Condition [] (string_or_empty (p "path")) (mode_in CONDITION_MODE_VALUES (p "mode") "full")
    (toValueText (p "value")) (is_true (p "invert")) (is_true (p "pass_missing_key")).
Definition operation_of (j : json) : ParamOverrideOperation :=
  let p k := prop k (Some j) in
  Operation [] (string_or_empty (p "description")) (string_or_empty (p "path"))
    (mode_in OPERATION_MODE_VALUES (p "mode") "set") (string_or_empty (p "from"))
    (string_or_empty (p "to")) (toValueText (p "value")) (is_true (p "keep_origin"))
    (if str_eqb (upper (text_of (jor (p "logic") (Some (JStr "OR"))))) "AND" then "AND" else "OR")
    (match p "conditions" with Some (JArr l) => map condition_of l | _ => [] end).

(** The values that can be read: neither they nor their conditions are null. *)
Definition not_null (j : json) : bool := match j with JNull => false | _ => true end.
Definition readable (j : json) : bool :=
  not_null j && match prop "conditions" (Some j) with Some (JArr l) => forallb not_null l | _ => true end.

(** The same up to identifiers. *)
Definition erase_condition (c : ParamOverrideCondition) : ParamOverrideCondition :=
  Condition [] (c_path c) (c_mode c) (c_value_text c) (c_invert c) (c_pass_missing_key c).
Definition erase (o : ParamOverrideOperation) : ParamOverrideOperation :=
  Operation [] (description o) (path o) (mode o) (from o) (to o) (value_text o) (keep_origin o) (logic o)
    (map erase_condition (conditions o)).
Definition op_ids (o : ParamOverrideOperation) : list jsstr := o_id o :: map c_id (conditions o).

Section Reading.
Context (clock : Z -> Z).

Lemma run_bind {A B} (m : gen A) (f : A -> gen B) n x n' : m n = Some (x, n') -> (m ≫= f) n = f x n'.
Proof. intros E. unfold mbind, gen_bind. by rewrite E. Qed.

(** [m] makes a value with new and distinct identifiers. *)
Definition makes {A} (ids : A -> list jsstr) (m : gen A) (P : A -> Prop) : Prop :=
  forall n, (0 <= n)%Z -> exists x n',
    m n = Some (x, n') /\ (n <= n')%Z /\ P x /\ NoDup (ids x) /\
    forall i, i ∈ ids x -> exists k, (n <= k < n')%Z /\ i = local_id clock k.

Lemma makes_condition j : not_null j = true ->
  makes (fun c => [c_id c]) (normalizeCondition clock j) (fun c => erase_condition c = condition_of j).
Proof.
  intros Hj n Hn. unfold normalizeCondition. cbn.
  destruct j; [done|..]; (eexists _, _; split; [done|]; split; [lia|]; split; [done|]; split; [by apply NoDup_singleton|];
    intros i ->%list_elem_of_singleton; exists n; split; [lia|done]).
Qed.

Lemma makes_mapM {A B} (f : A -> gen B) (ids : B -> list jsstr) (P : A -> B -> Prop) l :
  (forall a, a ∈ l -> makes ids (f a) (P a)) ->
  makes (fun l => concat (map ids l)) (mapM f l) (fun xs => Forall2 P l xs).
Proof.
  induction l as [|a l IH]; intros H n Hn.
  - exists [], n. split; [done|]. split; [lia|]. split; [done|]. split; [constructor|].
    intros i Hi. cbn in Hi. by apply elem_of_nil in Hi.
  - destruct (H a ltac:(left) n Hn) as (x & n1 & E1 & L1 & P1 & D1 & I1).
    destruct (IH ltac:(intros b Hb; apply H; by right) n1 ltac:(lia)) as (xs & n2 & E2 & L2 & P2 & D2 & I2).
    exists (x :: xs), n2. split; [|split; [lia|split; [by constructor|split]]].
    + change (mapM f (a :: l)) with (y ← f a; k ← mapM f l; mret (y :: k)).
      by rewrite (run_bind _ _ _ _ _ E1), (run_bind _ _ _ _ _ E2).
    + cbn. apply NoDup_app. split; [done|]. split; [|done]. intros i Hi Hj.
      apply I1 in Hi as (k & Hk & ->). apply I2 in Hj as (k' & Hk' & E).
      apply local_id_inj in E; lia.
    + cbn. intros i [Hi|Hi]%elem_of_app; [apply I1 in Hi as (k & Hk & ->)|apply I2 in Hi as (k & Hk & ->)];
        exists k; (split; [lia|done]).
Qed.

Lemma concat_singletons {A B} (f : A -> B) l : concat (map (fun x => [f x]) l) = map f l.
Proof. induction l as [|x l IH]; cbn; [done|by rewrite IH]. Qed.
Lemma Forall2_map_eq {A B C} (f : A -> C) (g : B -> C) l k :
  Forall2 (fun a b => g b = f a) l k -> map g k = map f l.
Proof. induction 1; cbn; congruence. Qed.

Lemma makes_operation j : readable j = true ->
  makes op_ids (normalizeOperation clock j) (fun o => erase o = operation_of j).
Proof.
  intros [Hj Hc]%andb_true_iff n Hn. set (p k := prop k (Some j)).
  assert (Hm : makes (fun l => map c_id l)
    (match p "conditions" with Some (JArr l) => mapM (normalizeCondition clock) l | _ => mret [] end)
    (fun cs => map erase_condition cs = match p "conditions" with Some (JArr l) => map condition_of l | _ => [] end)).
  { intros m Hm. unfold p. destruct (prop "conditions" (Some j)) as [[]|];
      try (exists [], m; split; [done|]; split; [lia|]; split; [done|]; split; [constructor|];
           intros i Hi; by apply elem_of_nil in Hi).
    destruct (makes_mapM (normalizeCondition clock) (fun c => [c_id c]) (fun j c => erase_condition c = condition_of j) l) with (n := m)
      as (x & n' & E & L & HF & D & I); [|done|].
    - intros a Ha. apply makes_condition. rewrite forallb_forall in Hc. by apply Hc, list_elem_of_In.
    - rewrite concat_singletons in *. exists x, n'. repeat split; try done. by apply Forall2_map_eq. }
  destruct (Hm (n + 1)%Z ltac:(lia)) as (cs & n' & E & L & HF & D & I).
  eexists _, n'. split; [|split; [lia|]].
  { unfold normalizeOperation. rewrite (run_bind _ _ n (local_id clock n) (n + 1)%Z eq_refl).
    unfold p in E. destruct j; [done|..]; by rewrite (run_bind _ _ _ _ _ E). }
  split; [|split].
  - unfold erase, operation_of. cbn. f_equal. exact HF.
  - unfold op_ids. cbn. constructor; [|done]. intros Hi%I. destruct Hi as (k & Hk & E').
    apply local_id_inj in E'; lia.
  - unfold op_ids. cbn. intros i [->|Hi]%elem_of_cons.
    + exists n. split; [lia|done].
    + apply I in Hi as (k & Hk & ->). exists k. split; [lia|done].
Qed.
End Reading.

(** * Opening *)

Section Opening.
Context (clock : Z -> Z).

Lemma run_throw {A B} (m : gen A) (f : A -> gen B) n : m n = None -> (m ≫= f) n = None.
Proof. intros E. unfold mbind, gen_bind. by rewrite E. Qed.
Lemma mapM_throws {A B} (f : A -> gen B) l a : a ∈ l -> (forall n, f a n = None) -> forall n, mapM f l n = None.
Proof.
  intros Ha Hf. induction l as [|b l IH]; [by apply elem_of_nil in Ha|]. intros n.
  change (mapM f (b :: l)) with (y ← f b; k ← mapM f l; mret (y :: k)).
  destruct (f b n) as [[y n']|] eqn:E; [|by apply run_throw]. rewrite (run_bind _ _ _ _ _ E).
  apply elem_of_cons in Ha as [->|Ha]; [congruence|]. by apply run_throw, IH.
Qed.
(** Some element fails a test that not all pass. *)
Lemma forallb_false {A} (f : A -> bool) l : forallb f l = false -> exists x, x ∈ l /\ f x = false.
Proof.
  induction l as [|x l IH]; cbn; [done|]. destruct (f x) eqn:E; intros H.
  - destruct (IH H) as (y & Hy & Ey). exists y. split; [by right|done].
  - exists x. split; [left|done].
Qed.
Lemma not_readable_throws j : readable j = false -> forall n, normalizeOperation clock j n = None.
Proof.
  intros Hj n. unfold normalizeOperation. rewrite (run_bind _ _ n (local_id clock n) (n + 1)%Z eq_refl).
  unfold readable in Hj. destruct j; try done; cbn [not_null andb] in Hj;
    (destruct (prop "conditions" _) as [[]|]; try done; apply run_throw;
     apply forallb_false in Hj as ([] & Hx & Hn); try done; by apply mapM_throws with (a := JNull)).
Qed.

Lemma makes_load l : forallb readable l = true ->
  makes clock (fun l => concat (map op_ids l)) (load_operations clock l)
    (fun ops => ops <> [] /\ map erase ops = map operation_of (match l with [] => [JObj [("mode", JStr "set")]] | _ => l end)).
Proof.
  intros Hl n Hn.
  destruct (makes_mapM clock (normalizeOperation clock) op_ids (fun j o => erase o = operation_of j)
    (match l with [] => [JObj [("mode", JStr "set")]] | _ => l end)) with (n := n) as (x & n' & E & L & HF & D & I); [|done|].
  { intros a Ha. apply makes_operation. destruct l as [|y l].
    - by apply list_elem_of_singleton in Ha as ->.
    - rewrite forallb_forall in Hl. by apply Hl, list_elem_of_In. }
  exists x, n'. split; [|split; [done|split; [split; [|by apply Forall2_map_eq]|done]]].
  - destruct l as [|y l]; [|done].
    change (mapM (normalizeOperation clock) [?x]) with (y ← normalizeOperation clock x; mret [y]) in E.
    exact E.
  - intros ->. apply Forall2_nil_inv_r in HF. by destruct l.
Qed.
Lemma load_throws l : forallb readable l = false -> forall n, load_operations clock l n = None.
Proof.
  intros Hl n. destruct l as [|y l]; [done|]. unfold load_operations.
  apply forallb_false in Hl as (j & Hj & Hr).
  apply mapM_throws with (a := j); [done|]. by apply not_readable_throws.
Qed.

(** What opening a text finds: nothing, operations, an object of the old form,
    another JSON value, or no JSON. *)
Definition opened (text : jsstr) (e : EditorState) : Prop :=
  operations e <> [] /\
  match parse (trim text) with
  | None => if truthy (trim text) then editMode e = e_json /\ jsonText e = text /\ truthy (jsonError e) = true
            else editMode e = e_visual /\ jsonText e = []
  | Some v => jsonText e = stringify_pretty v /\ jsonError e = [] /\
      match operations_array v with
      | Some l => editMode e = e_visual /\ visualMode e = v_operations /\ legacyValue e = [] /\
          map erase (operations e) = map operation_of (match l with [] => [JObj [("mode", JStr "set")]] | _ => l end)
      | None => match v with
                | JObj _ => editMode e = e_visual /\ visualMode e = v_legacy /\ legacyValue e = stringify_pretty v
                | _ => editMode e = e_json
                end
      end
  end.
Definition state_ids (e : EditorState) : list jsstr := concat (map op_ids (operations e)).

Lemma makes_default : makes clock op_ids (createDefaultOperation clock)
  (fun o => erase o = operation_of (JObj [("mode", JStr "set")])).
Proof. by apply makes_operation. Qed.

(** One made operation, put into a state. *)
Lemma makes_with_default (f : ParamOverrideOperation -> EditorState) (P : EditorState -> Prop) :
  (forall o, operations (f o) = [o]) -> (forall o, P (f o)) ->
  makes clock state_ids (o ← createDefaultOperation clock; mret (f o)) P.
Proof.
  intros Hf HP n Hn. destruct (makes_default n Hn) as (o & n' & E & L & _ & D & I).
  exists (f o), n'. rewrite (run_bind _ _ _ _ _ E). unfold state_ids. rewrite Hf. cbn [map concat]. rewrite app_nil_r.
  repeat split; try done.
Qed.

Definition loads (text : jsstr) : bool :=
  match parse (trim text) with
  | Some v => match operations_array v with Some l => forallb readable l | None => true end
  | None => true
  end.

Lemma makes_initial text : loads text = true ->
  makes clock state_ids (parseInitialState clock text) (opened text).
Proof.
  intros Hl. unfold parseInitialState. destruct (trim text) as [|c u] eqn:Et.
  { apply makes_with_default; [done|]. intros o. split; [done|]. by rewrite Et. }
  unfold loads in Hl. rewrite Et in Hl. unfold opened. rewrite Et.
  destruct (parse (c :: u)) as [v|]; [|by apply makes_with_default].
  destruct (operations_array v) as [l|].
  - intros n Hn. destruct (makes_load l Hl n Hn) as (ops & n' & E & L & (Hne & HE) & D & I).
    eexists _, n'. rewrite (run_bind _ _ _ _ _ E). split; [done|]. by repeat split.
  - destruct v; by apply makes_with_default.
Qed.
Lemma initial_throws text n : loads text = false -> parseInitialState clock text n = None.
Proof.
  unfold loads, parseInitialState. destruct (trim text) as [|c u]; [done|].
  destruct (parse (c :: u)) as [v|]; [|done]. destruct (operations_array v) as [l|]; [|done].
  intros Hl. apply run_throw. by apply load_throws.
Qed.
End Opening.

(** * Values *)

(** A text that is not a quoted JSON string, with a value that has a text. *)
Definition settled (text : jsstr) : Prop :=
  printable (parseLooseValue text) /\ forall s, parse (trim text) <> Some (JStr s).

(** The text shown for the value a text denotes. *)
Definition shown (text : jsstr) : jsstr := toValueText (Some (parseLooseValue text)).

Lemma parse_trim_empty : parse [] = None.
Proof. done. Qed.
Lemma toValueText_json v : (forall s, v <> JStr s) -> toValueText (Some v) = stringify v.
Proof. intros H. destruct v; try done. by destruct (H s). Qed.

(** The shown text is trimmed and reads as the same JSON. *)
Lemma shown_parse text : settled text -> trim (shown text) = shown text /\ parse (shown text) = parse (trim text).
Proof.
  intros [Hp Hs]. unfold shown, parseLooseValue in *. destruct (trim text) as [|c u] eqn:Et; [done|].
  destruct (parse (c :: u)) as [v|] eqn:Ev.
  - assert (Hv : forall s, v <> JStr s) by (intros s ->; by apply (Hs s)).
    rewrite toValueText_json by done. by rewrite trim_stringify, parse_compact.
  - change (toValueText (Some (JStr ?x))) with x. rewrite Ev. split; [|done]. rewrite <- Et. apply trim_idemp.
Qed.
Lemma shown_empty text : settled text -> shown text = [] <-> trim text = [].
Proof.
  intros Hs. destruct (shown_parse text Hs) as [_ E]. unfold shown, parseLooseValue in *.
  destruct (trim text) as [|c u]; [done|]. split; [|done]. intros E0. rewrite E0 in E.
  change (parse []) with (@None json) in E. rewrite <- E in E0. done.
Qed.
Lemma shown_value text : settled text -> parseLooseValue (shown text) = parseLooseValue text.
Proof.
  intros Hs. destruct (shown_parse text Hs) as [Et Ep]. destruct (shown_empty text Hs) as [H1 H2].
  unfold parseLooseValue at 1. rewrite Et. destruct (shown text) as [|c u] eqn:E.
  - unfold parseLooseValue. by rewrite H1.
  - rewrite Ep. unfold shown, parseLooseValue in *. destruct (trim text) as [|c' u']; [done|].
    destruct (parse (c' :: u')) as [v|]; [done|]. by cbn in E; simplify_eq.
Qed.

(** * Payloads *)

Lemma obj_get_set_if {A} k k' (b : bool) (v : A) p :
  obj_get k (if b then obj_set k' v p else p) = if b && str_eqb k k' then Some v else obj_get k p.
Proof.
  destruct b; [|done]. cbn. destruct (str_eqb k k') eqn:E.
  - apply str_eqb_true in E as ->. apply obj_get_set_eq.
  - apply obj_get_set_ne. apply str_eqb_false in E. congruence.
Qed.

(** Comparisons of literal keys, and reading a property of a built object. *)
Ltac key_eq :=
  repeat match goal with
  | |- context [str_eqb ?a ?b] =>
      let r := eval vm_compute in (str_eqb a b) in
      match r with true => change (str_eqb a b) with true | false => change (str_eqb a b) with false end
  end; cbn match.
Ltac read_props :=
  rewrite ?obj_get_set_if, ?obj_get_set; key_eq; rewrite ?andb_false_r, ?andb_true_r; cbn match;
  repeat change (obj_get ?k []) with (@None json).

(** The condition and the operation that a saved payload describes. *)
Definition saved_condition (c : ParamOverrideCondition) : ParamOverrideCondition :=
  Condition [] (trim (c_path c)) (c_mode c) (shown (c_value_text c)) (c_invert c) (c_pass_missing_key c).
Definition kept_conditions (o : ParamOverrideOperation) : list ParamOverrideCondition :=
  List.filter (fun c => truthy (trim (c_path c))) (conditions o).
Definition saved_form (o : ParamOverrideOperation) : ParamOverrideOperation :=
  let meta := meta_of (mode o) in
  let alias (s : jsstr) : jsstr := if m_pathAlias meta then str_or s (trim (path o)) else s in
  Operation [] (trim (description o))
    (if m_path meta || m_pathOptional meta then trim (path o) else []) (mode o)
    (alias (if m_from meta then trim (from o) else [])) (alias (trim (to o)))
    (if m_value meta then shown (value_text o) else [])
    (m_keepOrigin meta && keep_origin o)
    (match kept_conditions o with [] => "OR" | _ => if str_eqb (logic o) "AND" then "AND" else "OR" end)
    (map saved_condition (kept_conditions o)).

(** Operations the editor can hold: modes from its lists. *)
Definition known_condition (c : ParamOverrideCondition) : Prop := c_mode c ∈ CONDITION_MODE_VALUES.
Definition known (o : ParamOverrideOperation) : Prop :=
  mode o ∈ OPERATION_MODE_VALUES /\ Forall known_condition (conditions o).

Lemma mode_or_known modes m d : m ∈ modes -> mode_in modes (Some (JStr m)) d = m.
Proof. intros H. unfold mode_in. cbn. by rewrite (proj2 (has_spec m modes) H). Qed.
Lemma known_mode_truthy m : m ∈ OPERATION_MODE_VALUES -> truthy m = true.
Proof.
  intros H. apply truthy_true. intros ->. revert H. apply has_spec_false. vm_compute. done.
Qed.
Lemma known_condition_truthy m : m ∈ CONDITION_MODE_VALUES -> truthy m = true.
Proof.
  intros H. apply truthy_true. intros ->. revert H. apply has_spec_false. vm_compute. done.
Qed.

Lemma condition_payload_some c : truthy (trim (c_path c)) = true -> exists p, buildConditionPayload c = Some p.
Proof. intros H. unfold buildConditionPayload. rewrite H. eauto. Qed.
Lemma condition_payload_none c : truthy (trim (c_path c)) = false -> buildConditionPayload c = None.
Proof. intros H. unfold buildConditionPayload. by rewrite H. Qed.

Lemma condition_of_payload c p :
  known_condition c -> buildConditionPayload c = Some p -> condition_of p = saved_condition c /\ not_null p = true.
Proof.
  intros Hk. unfold buildConditionPayload. destruct (truthy (trim (c_path c))); [|done]. intros [= <-].
  split; [|done]. unfold condition_of, saved_condition, prop.
  assert (E : str_or (c_mode c) "full" = c_mode c) by (unfold str_or; by rewrite known_condition_truthy).
  rewrite E. read_props. rewrite mode_or_known by done. by destruct (c_invert c), (c_pass_missing_key c).
Qed.

(** The payloads of the conditions that are kept. *)
Lemma condition_payloads l :
  Forall known_condition l ->
  let ps := omap buildConditionPayload l in
  let kept := List.filter (fun c => truthy (trim (c_path c))) l in
  map condition_of ps = map saved_condition kept /\ forallb not_null ps = true /\ length ps = length kept.
Proof.
  induction 1 as [|c l Hc _ IH]; [done|]. cbn. destruct (truthy (trim (c_path c))) eqn:E.
  - destruct (condition_payload_some c E) as [p Hp]. rewrite Hp. cbn.
    destruct (condition_of_payload c p Hc Hp) as [-> ->]. destruct IH as (-> & -> & ->). done.
  - by rewrite (condition_payload_none c E).
Qed.

(** What the payload has under each key, before conditions are added. *)
Definition aliased (o : ParamOverrideOperation) : obj json :=
  let p := operation_fields o in
  if m_pathAlias (meta_of (str_or (mode o) "set"))
  then alias_field "to" (trim (path o)) (alias_field "from" (trim (path o)) p) else p.

Lemma get_set_if k b k' v p : obj_get k (set_if b k' v p) = if b && str_eqb k k' then Some v else obj_get k p.
Proof. apply obj_get_set_if. Qed.
Lemma get_alias k k' s p : str_eqb k k' = false -> obj_get k (alias_field k' s p) = obj_get k p.
Proof. intros E. unfold alias_field. rewrite get_set_if, E. by rewrite andb_false_r. Qed.
Lemma get_aliased k o : str_eqb k "from" = false -> str_eqb k "to" = false ->
  obj_get k (aliased o) = obj_get k (operation_fields o).
Proof. intros E1 E2. unfold aliased. destruct (m_pathAlias _); [|done]. by rewrite !get_alias. Qed.
Lemma get_alias_same k s p u :
  string_or_empty (obj_get k p) = u -> (forall j, obj_get k p = Some j -> exists w, j = JStr w) ->
  string_or_empty (obj_get k (alias_field k s p)) = str_or u s.
Proof.
  intros <- H. unfold alias_field. rewrite get_set_if, str_eqb_refl, andb_true_r.
  destruct (obj_get k p) as [j|].
  - destruct (H j eq_refl) as [w ->]. by destruct w, s.
  - by destruct s.
Qed.

Section Fields.
Context (o : ParamOverrideOperation).
Local Abbreviation meta := (meta_of (str_or (mode o) "set")).
Local Abbreviation get := (fun k => obj_get k (operation_fields o)).

Ltac read_field := cbv beta; unfold operation_fields; rewrite !get_set_if, ?obj_get_set; key_eq;
  rewrite ?andb_false_r, ?andb_true_r; cbn match; try done.

Lemma field_mode : get "mode" = Some (JStr (str_or (mode o) "set")).
Proof. read_field. Qed.
Lemma field_description :
  get "description" = if truthy (trim (description o)) then Some (JStr (trim (description o))) else None.
Proof. read_field. Qed.
Lemma field_path :
  get "path" = if m_path meta || m_pathOptional meta && truthy (trim (path o)) then Some (JStr (trim (path o))) else None.
Proof. read_field. by destruct (m_path meta), (m_pathOptional meta), (truthy (trim (path o))). Qed.
Lemma field_value : get "value" = if m_value meta then Some (parseLooseValue (value_text o)) else None.
Proof. read_field. Qed.
Lemma field_keep : get "keep_origin" = if m_keepOrigin meta && keep_origin o then Some (JBool true) else None.
Proof. read_field. Qed.
Lemma field_from : get "from" = if m_from meta then Some (JStr (trim (from o))) else None.
Proof. read_field. Qed.
Lemma field_to : get "to" = if m_to meta || truthy (trim (to o)) then Some (JStr (trim (to o))) else None.
Proof. read_field. by destruct (m_to meta), (truthy (trim (to o))). Qed.
Lemma field_none k : k ∈ (["logic"; "conditions"] : list jsstr) -> get k = None.
Proof.
  intros H. repeat (apply elem_of_cons in H as [->|H]; [read_field|]). by apply elem_of_nil in H.
Qed.
End Fields.

Lemma aliased_from o : mode o = str_or (mode o) "set" ->
  string_or_empty (obj_get "from" (aliased o)) = from (saved_form o).
Proof.
  intros E. unfold aliased, saved_form. cbn [from]. rewrite <- E. destruct (m_pathAlias _); [|].
  - rewrite get_alias by done. apply get_alias_same; rewrite field_from, <- E; destruct (m_from _); try done.
    intros j [= <-]. eauto.
  - rewrite field_from, <- E. by destruct (m_from _).
Qed.
Lemma aliased_to o : mode o = str_or (mode o) "set" ->
  string_or_empty (obj_get "to" (aliased o)) = to (saved_form o).
Proof.
  intros E. unfold aliased, saved_form. cbn [to]. rewrite <- E.
  assert (Ht : string_or_empty (obj_get "to" (operation_fields o)) = trim (to o)).
  { rewrite field_to, <- E. destruct (m_to _); [done|]. by destruct (trim (to o)). }
  destruct (m_pathAlias _); [|done].
  apply get_alias_same; rewrite get_alias by done; [done|].
  rewrite field_to. intros j. destruct (m_to _ || _); [|done]. intros [= <-]. eauto.
Qed.

Lemma operation_of_payload o : known o ->
  operation_of (operation_payload o) = saved_form o /\ readable (operation_payload o) = true.
Proof.
  intros [Hm Hc].
  assert (E : mode o = str_or (mode o) "set") by (unfold str_or; by rewrite known_mode_truthy).
  unfold operation_payload. fold (aliased o). destruct (condition_payloads _ Hc) as (Hps & Hnn & Hlen).
  fold (kept_conditions o) in *.
  set (cs := omap buildConditionPayload (conditions o)) in *.
  assert (Hg : forall k, str_eqb k "logic" = false -> str_eqb k "conditions" = false ->
    obj_get k (obj_set "logic" (JStr (if str_eqb (logic o) "AND" then "AND" else "OR"))
                 (obj_set "conditions" (JArr cs) (aliased o))) = obj_get k (aliased o)).
  { intros k H1 H2. by rewrite !obj_get_set, H1, H2. }
  assert (Hsame : forall p, (forall k, str_eqb k "logic" = false -> str_eqb k "conditions" = false ->
      obj_get k p = obj_get k (aliased o)) ->
    logic (operation_of (JObj p)) = logic (saved_form o) ->
    conditions (operation_of (JObj p)) = conditions (saved_form o) ->
    operation_of (JObj p) = saved_form o).
  { intros p Hp Hlo Hco. unfold operation_of in *. cbn [logic conditions] in Hlo, Hco. rewrite Hlo, Hco.
    unfold prop. rewrite !Hp by done. rewrite aliased_from, aliased_to by done.
    rewrite !get_aliased by done. rewrite field_mode, field_description, field_path, field_value, field_keep, <- E.
    rewrite mode_or_known by done. unfold saved_form. cbn [from to logic conditions]. f_equal.
    - by destruct (trim (description o)).
    - destruct (m_path _), (m_pathOptional _); try done. by destruct (trim (path o)).
    - by destruct (m_value _).
    - by destruct (_ && _). }
  destruct cs as [|p0 ps].
  - destruct (kept_conditions o) as [|c0 cs'] eqn:Ek; [|done]. split.
    + apply Hsame; [done|..]; unfold operation_of, saved_form, prop; cbn [logic conditions];
        rewrite get_aliased, field_none, Ek; try done; set_solver.
    + unfold readable, prop. rewrite get_aliased, field_none; try done. set_solver.
  - destruct (kept_conditions o) as [|c0 cs'] eqn:Ek; [done|]. split.
    + apply Hsame; [done|..]; unfold operation_of, saved_form, prop; cbn [logic conditions]; rewrite Ek.
      * rewrite obj_get_set. by destruct (str_eqb (logic o) "AND").
      * rewrite !obj_get_set. exact Hps.
    + unfold readable, prop. rewrite !obj_get_set. exact Hnn.
Qed.

(** * Saving again *)

Definition settled_condition (c : ParamOverrideCondition) : Prop :=
  truthy (trim (c_path c)) = true -> settled (c_value_text c).
Definition settled_operation (o : ParamOverrideOperation) : Prop :=
  (m_value (meta_of (mode o)) = true -> settled (value_text o)) /\ Forall settled_condition (conditions o).

Lemma set_if_ext b b' k v v' p p' :
  b = b' -> p = p' -> (b = true -> v = v') -> set_if b k v p = set_if b' k v' p'.
Proof. intros <- <- H. destruct b; [by rewrite H|done]. Qed.

Lemma payload_saved_condition c : known_condition c -> settled_condition c ->
  truthy (trim (c_path c)) = true -> buildConditionPayload (saved_condition c) = buildConditionPayload c.
Proof.
  intros Hk Hs Ht. unfold buildConditionPayload, saved_condition. cbn [c_path c_mode c_value_text c_invert c_pass_missing_key].
  rewrite trim_idemp, shown_value by auto. done.
Qed.
Lemma payload_saved_conditions l : Forall known_condition l -> Forall settled_condition l ->
  omap buildConditionPayload (map saved_condition (List.filter (fun c => truthy (trim (c_path c))) l)) =
  omap buildConditionPayload l.
Proof.
  induction l as [|c l IH]; intros Hk Hs; [done|].
  apply Forall_cons in Hk as [Hk Hkl]. apply Forall_cons in Hs as [Hs Hsl]. cbn.
  destruct (truthy (trim (c_path c))) eqn:E.
  - cbn. rewrite payload_saved_condition by done. by rewrite IH.
  - rewrite condition_payload_none by done. by apply IH.
Qed.

(** The modes that take the path for both ends. *)
Lemma alias_meta m : m_pathAlias (meta_of m) = true -> meta_of m = Meta false false false true true true true.
Proof.
  unfold meta_of. destruct (obj_get m MODE_META) as [meta|] eqn:E; [|done]. intros Ha.
  apply obj_get_elem in E.
  assert (H : Forall (fun km => m_pathAlias km.2 = true -> km.2 = Meta false false false true true true true) MODE_META).
  { repeat (constructor; [by vm_compute|]). constructor. }
  rewrite Forall_forall in H. exact (H _ E Ha).
Qed.

Lemma aliased_saved o : mode o = str_or (mode o) "set" -> settled_operation o -> aliased (saved_form o) = aliased o.
Proof.
  intros E [Hv _]. unfold aliased. change (mode (saved_form o)) with (mode o). rewrite <- E.
  destruct (m_pathAlias (meta_of (mode o))) eqn:Ea.
  - pose proof (alias_meta _ Ea) as Em. unfold operation_fields.
    change (mode (saved_form o)) with (mode o). rewrite <- E, Em. unfold saved_form. rewrite Em.
    cbn [m_path m_pathOptional m_value m_from m_to m_keepOrigin m_pathAlias description path from to keep_origin andb orb negb].
    rewrite !trim_idemp, trim_nil.
    assert (Ht : forall a b, trim (str_or (trim a) (trim b)) = str_or (trim a) (trim b)).
    { intros a b. unfold str_or. destruct (truthy (trim a)); apply trim_idemp. }
    rewrite !Ht.
    generalize (trim (path o)) (trim (from o)) (trim (to o)) (trim (description o)). intros sp sf st sd.
    destruct (keep_origin o); destruct sd, sp, sf, st; vm_compute; reflexivity.
  - unfold operation_fields. change (mode (saved_form o)) with (mode o). rewrite <- E. unfold saved_form. rewrite Ea.
    cbn [description path from to keep_origin value_text].
    repeat first [done | apply set_if_ext; rewrite ?trim_idemp].
    + by destruct (m_keepOrigin _).
    + destruct (m_path _), (m_pathOptional _); cbn [andb orb]; by rewrite ?trim_idemp.
    + intros ->. cbn [orb]. by rewrite trim_idemp.
    + intros H%andb_true_iff. destruct H as [-> _]. rewrite orb_true_r. by rewrite trim_idemp.
    + intros Hm. rewrite Hm. by apply shown_value, Hv.
    + intros ->. by rewrite trim_idemp.
Qed.

Lemma payload_saved o : known o -> settled_operation o -> operation_payload (saved_form o) = operation_payload o.
Proof.
  intros [Hm Hc] Hs.
  assert (E : mode o = str_or (mode o) "set") by (unfold str_or; by rewrite known_mode_truthy).
  unfold operation_payload. fold (aliased o). fold (aliased (saved_form o)). rewrite aliased_saved by done.
  change (conditions (saved_form o)) with (map saved_condition (kept_conditions o)). unfold kept_conditions.
  rewrite payload_saved_conditions by (try done; apply Hs).
  destruct (condition_payloads _ Hc) as (_ & _ & Hlen). unfold saved_form, kept_conditions. cbn [logic].
  destruct (omap buildConditionPayload (conditions o)); [done|].
  destruct (List.filter _ (conditions o)); [done|]. by destruct (str_eqb (logic o) "AND").
Qed.

(** * Validation *)

(** What the mode of an operation requires is there. *)
Definition given (o : ParamOverrideOperation) (s : jsstr) : Prop :=
  trim s <> [] \/ m_pathAlias (meta_of (mode o)) = true /\ trim (path o) <> [].
Definition given_message (e : obj json) : jsstr := trim (text_of (jor (obj_get "message" e) (Some (JStr [])))).
Record complete (o : ParamOverrideOperation) : Prop := Complete {
  has_path : m_path (meta_of (mode o)) = true -> trim (path o) <> [];
  has_from : mode o ∈ FROM_REQUIRED_MODES -> given o (from o);
  has_to : mode o ∈ TO_REQUIRED_MODES -> given o (to o);
  has_value : mode o ∈ VALUE_REQUIRED_MODES -> trim (value_text o) <> [];
  has_message : mode o = "return_error" ->
    forall e, parse (trim (value_text o)) = Some (JObj e) -> given_message e <> [];
  has_headers : mode o = "pass_headers" -> parsePassHeaderNames (parseLooseValue (value_text o)) <> [] }.

Lemma parseLooseValue_trim s : parseLooseValue (trim s) = parseLooseValue s.
Proof. unfold parseLooseValue. by rewrite trim_idemp. Qed.

Lemma missing_end o modes s :
  has (mode o) modes && negb (truthy (trim s)) && negb (m_pathAlias (meta_of (mode o)) && truthy (trim (path o))) = false
  <-> (mode o ∈ modes -> given o s).
Proof.
  unfold given. rewrite <- has_spec, <- !truthy_true.
  destruct (has (mode o) modes), (truthy (trim s)), (m_pathAlias _), (truthy (trim (path o))); cbn; split; try tauto;
    intros H; try done; exfalso; destruct (H eq_refl) as [|[]]; done.
Qed.
Lemma missing_value o : has (mode o) VALUE_REQUIRED_MODES && negb (truthy (trim (value_text o))) = false
  <-> (mode o ∈ VALUE_REQUIRED_MODES -> trim (value_text o) <> []).
Proof.
  rewrite <- has_spec, <- truthy_true. destruct (has _ _), (truthy _); cbn; split; try tauto; intros H; try done.
  by specialize (H eq_refl).
Qed.
Lemma missing_path o : m_path (meta_of (mode o)) && negb (truthy (trim (path o))) = false
  <-> (m_path (meta_of (mode o)) = true -> trim (path o) <> []).
Proof.
  rewrite <- truthy_true. destruct (m_path _), (truthy _); cbn; split; try tauto; intros H; try done.
  by specialize (H eq_refl).
Qed.

Lemma validate_complete o : mode o <> [] -> validate_operation o = None <-> complete o.
Proof.
  intros Hm. unfold validate_operation.
  assert (E : str_or (mode o) "set" = mode o) by (unfold str_or; by rewrite (proj2 (truthy_true _) Hm)).
  rewrite E, parseLooseValue_trim.
  destruct (m_path _ && _) eqn:E1; [split; [done|]; intros [H _ _ _ _ _]; by rewrite (proj2 (missing_path o) H) in E1|].
  destruct (has _ FROM_REQUIRED_MODES && _ && _) eqn:E2;
    [split; [done|]; intros [_ H _ _ _ _]; by rewrite (proj2 (missing_end o _ _) H) in E2|].
  destruct (has _ TO_REQUIRED_MODES && _ && _) eqn:E3;
    [split; [done|]; intros [_ _ H _ _ _]; by rewrite (proj2 (missing_end o _ _) H) in E3|].
  destruct (has _ VALUE_REQUIRED_MODES && _) eqn:E4;
    [split; [done|]; intros [_ _ _ H _ _]; by rewrite (proj2 (missing_value o) H) in E4|].
  rewrite missing_path in E1. rewrite missing_end in E2, E3. rewrite missing_value in E4.
  destruct (str_eqb (mode o) "return_error") eqn:Er.
  - apply str_eqb_true in Er. fold (given_message).
    split; [intros H; split; try done|intros [_ _ _ _ H _]].
    + intros _ e He. rewrite He in H. fold (given_message e) in H. apply truthy_true. by destruct (truthy (given_message e)).
    + by rewrite Er.
    + specialize (H Er). destruct (parse _) as [[]|]; try done. specialize (H _ eq_refl).
      fold (given_message o0). by rewrite (proj2 (truthy_true _) H).
  - apply str_eqb_false in Er. destruct (str_eqb (mode o) "pass_headers") eqn:Ep.
    + apply str_eqb_true in Ep. split; [intros H; split; try done|intros [_ _ _ _ _ H]].
      * intros _ Hn. by rewrite Hn in H.
      * specialize (H Ep). by destruct (parsePassHeaderNames _).
    + apply str_eqb_false in Ep. split; [|done]. intros _. by split.
Qed.

(** The lists of required fields agree with the fields of the modes. *)
Lemma required_fields m :
  (m ∈ FROM_REQUIRED_MODES -> m_from (meta_of m) = true) /\
  (m ∈ VALUE_REQUIRED_MODES -> m_value (meta_of m) = true).
Proof.
  split; intros H; unfold FROM_REQUIRED_MODES, VALUE_REQUIRED_MODES in H;
    repeat (apply elem_of_cons in H as [->|H]; [by vm_compute|]); by apply elem_of_nil in H.
Qed.
Lemma meta_return_error : m_value (meta_of "return_error") = true.
Proof. by vm_compute. Qed.
Lemma meta_pass_headers : m_value (meta_of "pass_headers") = true.
Proof. by vm_compute. Qed.

Lemma given_saved o s (f : ParamOverrideOperation -> jsstr) :
  (trim s <> [] -> f (saved_form o) = trim s) ->
  (trim s = [] -> m_pathAlias (meta_of (mode o)) = true -> f (saved_form o) = trim (path o)) ->
  given o s -> given (saved_form o) (f (saved_form o)).
Proof.
  intros H1 H2 Hg. left. destruct (decide (trim s = [])) as [E|E].
  - destruct Hg as [|[Ha Hp]]; [done|]. by rewrite H2, trim_idemp.
  - by rewrite H1, trim_idemp.
Qed.

Lemma complete_saved o : settled_operation o -> complete o -> complete (saved_form o).
Proof.
  intros [Hs _] [H1 H2 H3 H4 H5 H6].
  split; change (mode (saved_form o)) with (mode o).
  - intros Hm. unfold saved_form. cbn [path]. rewrite Hm. cbn [orb]. rewrite trim_idemp. auto.
  - intros Hm. pose proof (proj1 (required_fields _) Hm) as Ef.
    apply (given_saved o (from o) from); [..|auto]; unfold saved_form; cbn [from]; rewrite Ef; unfold str_or.
    + intros Hn. rewrite (proj2 (truthy_true _) Hn). by destruct (m_pathAlias _).
    + by intros -> ->.
  - intros Hm. apply (given_saved o (to o) to); [..|auto]; unfold saved_form; cbn [to]; unfold str_or.
    + intros Hn. rewrite (proj2 (truthy_true _) Hn). by destruct (m_pathAlias _).
    + by intros -> ->.
  - intros Hm. pose proof (proj2 (required_fields _) Hm) as Ev. unfold saved_form. cbn [value_text]. rewrite Ev.
    destruct (shown_parse _ (Hs Ev)) as [-> _]. rewrite shown_empty by auto. auto.
  - intros Hm. assert (Ev : m_value (meta_of (mode o)) = true) by (rewrite Hm; apply meta_return_error).
    unfold saved_form. cbn [value_text]. rewrite Ev. destruct (shown_parse _ (Hs Ev)) as [-> ->]. auto.
  - intros Hm. assert (Ev : m_value (meta_of (mode o)) = true) by (rewrite Hm; apply meta_pass_headers).
    unfold saved_form. cbn [value_text]. rewrite Ev, shown_value by auto. auto.
Qed.

(** A complete operation is not blank, and its saved form is not either. *)
Lemma complete_not_blank o : complete o -> isOperationBlank o = false.
Proof.
  intros Hc. unfold isOperationBlank. destruct (str_eqb (mode o) "set") eqn:E; [|done].
  apply str_eqb_true in E. destruct Hc as [H1 _ _ _ _ _]. rewrite E in H1.
  rewrite (proj2 (truthy_true (trim (path o)))); [done|]. apply H1. by vm_compute.
Qed.

(** Identifiers do not matter for what is saved. *)
Lemma payload_erase o : operation_payload (erase o) = operation_payload o.
Proof.
  unfold operation_payload, erase. cbn [conditions logic path mode].
  assert (E : omap buildConditionPayload (map erase_condition (conditions o)) = omap buildConditionPayload (conditions o)).
  { induction (conditions o) as [|c l IH]; [done|]. cbn. by rewrite IH. }
  by rewrite E.
Qed.
Lemma complete_erase o : complete (erase o) <-> complete o.
Proof. split; intros [H1 H2 H3 H4 H5 H6]; by split. Qed.

(** ** The first operation that is not valid *)

Section Validation.
Context (t : jsstr -> option nat -> jsstr).

Lemma validate_from_spec i ops :
  validate_from t i ops = [] /\ Forall (fun o => validate_operation o = None) ops \/
  exists a o b key, ops = a ++ o :: b /\ Forall (fun o => validate_operation o = None) a /\
    validate_operation o = Some key /\ validate_from t i ops = t key (Some (i + length a + 1)).
Proof.
  revert i. induction ops as [|o ops IH]; intros i; [by left|]. cbn. destruct (validate_operation o) as [key|] eqn:E.
  - right. exists [], o, ops, key. repeat split; try done. do 2 f_equal. cbn. lia.
  - destruct (IH (S i)) as [[-> H]|(a & o' & b & key & -> & H & Ho & ->)]; [left; auto|].
    right. exists (o :: a), o', b, key. repeat split; auto. do 2 f_equal. cbn. lia.
Qed.
End Validation.

(** ** Printable payloads *)

(** Values that have a text: their numbers denote themselves once printed. *)
Definition valued_condition (c : ParamOverrideCondition) : Prop :=
  truthy (trim (c_path c)) = true -> printable (parseLooseValue (c_value_text c)).
Definition valued_operation (o : ParamOverrideOperation) : Prop :=
  (m_value (meta_of (mode o)) = true -> printable (parseLooseValue (value_text o))) /\ Forall valued_condition (conditions o).
Lemma settled_valued o : settled_operation o -> valued_operation o.
Proof.
  intros [Hv Hc]. split; [intros Hm; by apply Hv|]. eapply Forall_impl; [exact Hc|]. intros c H Ht. by apply H.
Qed.

Lemma sound_set_if (b : bool) k v o : (b = true -> printable v) -> sound o -> sound (set_if b k v o).
Proof. intros Hv Ho. destruct b; [by apply sound_set; auto|done]. Qed.
#[local] Hint Resolve sound_nil sound_set sound_set_if sound_printable : core.
#[local] Hint Constructors printable : core.

Lemma condition_payload_printable c p : valued_condition c -> buildConditionPayload c = Some p -> printable p.
Proof.
  intros Hs. unfold buildConditionPayload. destruct (truthy (trim (c_path c))) eqn:E; [|done]. intros [= <-].
  apply sound_printable. pose proof (Hs E) as Hp. repeat case_match; auto 10.
Qed.
Lemma payload_printable o : valued_operation o -> printable (operation_payload o).
Proof.
  intros [Hv Hc]. unfold operation_payload.
  assert (Hf : sound (if m_pathAlias (meta_of (str_or (mode o) "set"))
            then alias_field "to" (trim (path o)) (alias_field "from" (trim (path o)) (operation_fields o))
            else operation_fields o)).
  { assert (sound (operation_fields o)).
    { unfold operation_fields. repeat (apply sound_set_if; [auto|]); auto.
      intros Hm. apply Hv. unfold str_or in Hm. destruct (truthy (mode o)) eqn:E; [done|].
      by apply truthy_false in E as ->. }
    destruct (m_pathAlias _); [|done]. unfold alias_field. auto. }
  assert (Hl : Forall printable (omap buildConditionPayload (conditions o))).
  { apply Forall_forall. intros p (c & Hin & Hp)%list_elem_of_omap. rewrite Forall_forall in Hc.
    by eapply condition_payload_printable; [apply Hc|]. }
  destruct (omap buildConditionPayload (conditions o)); auto 10.
Qed.

(** * Save and reopen *)

Lemma pretty_object_trimmed o : trimmed (stringify_pretty (JObj o)).
Proof. split; [done|]. unfold stringify_pretty. cbn [render]. rewrite !app_assoc, last_snoc. done. Qed.
Lemma stringify_pretty_nonempty o : stringify_pretty (JObj o) <> [].
Proof. done. Qed.

Definition not_blank (ops : list ParamOverrideOperation) : list ParamOverrideOperation :=
  List.filter (fun o => negb (isOperationBlank o)) ops.
Definition saved_json (ops : list ParamOverrideOperation) : json :=
  JObj [("operations", JArr (map operation_payload (not_blank ops)))].

Lemma known_mode_nonempty o : known o -> mode o <> [].
Proof. intros [H _]. apply truthy_true. by apply known_mode_truthy. Qed.
Lemma not_blank_complete ops : Forall complete ops -> not_blank ops = ops.
Proof.
  intros H. apply bfilter_id. intros o Ho. rewrite Forall_forall in H. by rewrite complete_not_blank by auto.
Qed.
Lemma not_blank_incl ops o : o ∈ not_blank ops -> o ∈ ops.
Proof. by intros [H _]%elem_of_bfilter. Qed.
Lemma saved_json_printable ops : Forall valued_operation (not_blank ops) -> printable (saved_json ops).
Proof.
  intros H. constructor; [|done]. constructor; [|constructor]. cbn. constructor.
  apply Forall_forall. intros p (o & -> & Ho)%elem_of_map. rewrite Forall_forall in H. by apply payload_printable, H.
Qed.

Section Saving.
Context (clock : Z -> Z) (t : jsstr -> option nat -> jsstr) (t_speaks : forall key line, t key line <> []).

(** Operations are saved exactly when every one that is not blank is complete;
    otherwise the message names the first that is not. *)
Lemma build_spec ops : Forall known ops ->
  not_blank ops <> [] /\ Forall complete (not_blank ops) /\
    buildOperationsJson t ops true = inr (stringify_pretty (saved_json ops)) \/
  not_blank ops = [] /\ buildOperationsJson t ops true = inr [] \/
  exists a o b key, not_blank ops = a ++ o :: b /\ Forall complete a /\ ~ complete o /\
    validate_operation o = Some key /\ buildOperationsJson t ops true = inl (t key (Some (length a + 1))).
Proof.
  intros Hk. assert (Hkn : forall o, o ∈ not_blank ops -> validate_operation o = None <-> complete o).
  { intros o Ho%not_blank_incl. rewrite Forall_forall in Hk. by apply validate_complete, known_mode_nonempty, Hk. }
  unfold buildOperationsJson, saved_json, validateOperations. fold (not_blank ops).
  destruct (validate_from_spec t 0 (not_blank ops)) as [[-> H]|(a & o & b & key & E & Ha & Ho & ->)].
  - destruct (not_blank ops) as [|o l]; [by right; left|]. left. split; [done|]. split; [|done].
    apply Forall_forall. intros x Hx. rewrite Forall_forall in H. by apply Hkn; [|apply H].
  - right. right. exists a, o, b, key. rewrite E in *. split; [done|]. split; [|split; [|split; [done|]]].
    + apply Forall_forall. intros x Hx. rewrite Forall_forall in Ha. apply Hkn; [apply elem_of_app; by left|auto].
    + rewrite <- Hkn, Ho; [done|]. apply elem_of_app. right. left.
    + rewrite (proj2 (truthy_true _) (t_speaks _ _)). by destruct a.
Qed.

Lemma built_text ops text : Forall known ops -> buildOperationsJson t ops true = inr text -> text <> [] ->
  not_blank ops <> [] /\ Forall complete (not_blank ops) /\ text = stringify_pretty (saved_json ops).
Proof.
  intros Hk E Hne. destruct (build_spec ops Hk) as [(H0 & H1 & H2)|[[_ H2]|(a & o & b & key & _ & _ & _ & _ & H2)]];
    rewrite H2 in E; simplify_eq; done.
Qed.

Lemma cons_parts {A} (x y : A) l k : x :: l = y :: k -> x = y /\ l = k.
Proof. by intros [= -> ->]. Qed.
Lemma erase_map_payloads ops ops' :
  map erase ops' = map saved_form ops -> Forall known ops -> Forall settled_operation ops ->
  map operation_payload ops' = map operation_payload ops.
Proof.
  revert ops'. induction ops as [|o ops IH]; intros [|o' ops'] E Hk Hs; try done.
  apply Forall_cons in Hk as [Hk Hkl]. apply Forall_cons in Hs as [Hs Hsl]. apply cons_parts in E as [E1 E2]. cbn [map].
  rewrite <- (payload_erase o'), E1, payload_saved by done. f_equal. by apply IH.
Qed.
Lemma erase_map_complete ops ops' :
  map erase ops' = map saved_form ops -> Forall settled_operation ops -> Forall complete ops -> Forall complete ops'.
Proof.
  revert ops'. induction ops as [|o ops IH]; intros [|o' ops'] E Hs Hc; try done.
  apply Forall_cons in Hs as [Hs Hsl]. apply Forall_cons in Hc as [Hc Hcl]. apply cons_parts in E as [E1 E2].
  constructor; [|by apply IH]. apply complete_erase. rewrite E1. by apply complete_saved.
Qed.
Lemma erase_map_known ops ops' : map erase ops' = map saved_form ops -> Forall known ops -> Forall known ops'.
Proof.
  revert ops'. induction ops as [|o ops IH]; intros [|o' ops'] E Hk; try done.
  apply Forall_cons in Hk as [[Hm Hc] Hkl]. apply cons_parts in E as [E1 E2]. constructor; [|by apply IH].
  split.
  - change (mode o') with (mode (erase o')). by rewrite E1.
  - assert (Ec : map erase_condition (conditions o') = map saved_condition (kept_conditions o))
      by (change (map erase_condition (conditions o')) with (conditions (erase o')); by rewrite E1).
    apply Forall_forall. intros c Hc'. assert (erase_condition c ∈ map erase_condition (conditions o')) as Hin
      by (apply elem_of_map; eauto).
    rewrite Ec in Hin. apply elem_of_map in Hin as (c0 & E0 & [Hin _]%elem_of_bfilter).
    rewrite Forall_forall in Hc. unfold known_condition. change (c_mode c) with (c_mode (erase_condition c)).
    rewrite E0. exact (Hc c0 Hin).
Qed.
End Saving.

(** * What is saved reopens *)

(** C10: what the dialog saves it reopens: for operations whose modes are in the
    lists of the editor (as they always are, [editor_invariant]) and whose numbers
    denote themselves once printed, and messages that are not empty, reading the saved text back gives, in the visual editor,
    exactly the saved form of each operation that is not blank (trimmed fields,
    those of its mode only, conditions with a path), with distinct identifiers.
    When moreover no value is a quoted string (which loses its quotes,
    [quoted_value_changes]), saving again without a change gives the same text. *)
Theorem override_reopens (clock : Z -> Z) (t : jsstr -> option nat -> jsstr) ops text n :
  (0 <= n)%Z -> (forall key line, t key line <> []) ->
  Forall known ops -> Forall valued_operation (not_blank ops) ->
  buildOperationsJson t ops true = inr text -> text <> [] ->
  exists e n', parseInitialState clock text n = Some (e, n') /\
    editMode e = e_visual /\ visualMode e = v_operations /\ jsonText e = text /\ jsonError e = [] /\
    map erase (operations e) = map saved_form (not_blank ops) /\
    NoDup (state_ids e) /\
    (Forall settled_operation (not_blank ops) -> buildOperationsJson t (operations e) true = inr text).
Proof.
  intros Hn Ht Hk Hval E Hne. destruct (built_text t Ht ops text Hk E Hne) as (H0 & Hc & ->).
  assert (Hkn : Forall known (not_blank ops)).
  { apply Forall_forall. intros o Ho%not_blank_incl. rewrite Forall_forall in Hk. auto. }
  assert (Hp : parse (trim (stringify_pretty (saved_json ops))) = Some (saved_json ops)).
  { rewrite trim_trimmed by apply pretty_object_trimmed. by apply parse_pretty, saved_json_printable. }
  assert (Hops : map operation_of (map operation_payload (not_blank ops)) = map saved_form (not_blank ops) /\
                 forallb readable (map operation_payload (not_blank ops)) = true).
  { clear -Hkn. induction Hkn as [|o l Ho _ [IH1 IH2]]; [done|].
    destruct (operation_of_payload o Ho) as [E1 E2]. split; cbn [map forallb]; [by rewrite E1, IH1|by rewrite E2, IH2]. }
  destruct Hops as [Hops Hr].
  assert (Hl : operations_array (saved_json ops) = Some (map operation_payload (not_blank ops))) by done.
  destruct (makes_initial clock (stringify_pretty (saved_json ops))) with (n := n) as (e & n' & Ee & _ & [_ Ho] & Hd & _);
    [by unfold loads; rewrite Hp, Hl|done|].
  rewrite Hp, Hl in Ho. destruct Ho as (Hj & Hje & Hem & Hvm & _ & Hmap).
  assert (Hmap' : map erase (operations e) = map saved_form (not_blank ops)).
  { rewrite Hmap. destruct (not_blank ops) as [|o l]; [done|]. exact Hops. }
  exists e, n'. do 7 (split; [done|]). intros Hs.
  pose proof (erase_map_complete _ _ Hmap' Hs Hc) as Hc'. pose proof (erase_map_known _ _ Hmap' Hkn) as Hk'.
  pose proof (erase_map_payloads _ _ Hmap' Hkn Hs) as Hpay.
  destruct (build_spec t Ht (operations e) Hk') as [(_ & _ & ->)|[[Hb _]|(a & o & b & key & Hb & _ & Hnc & _)]].
  - unfold saved_json. by rewrite (not_blank_complete _ Hc'), Hpay.
  - rewrite (not_blank_complete _ Hc') in Hb. rewrite Hb in Hmap'. by destruct (not_blank ops).
  - rewrite (not_blank_complete _ Hc') in Hb. rewrite Hb in Hc'. rewrite Forall_forall in Hc'.
    destruct Hnc. apply Hc'. apply elem_of_app. right. left.
Qed.

(** A sample: a value with a condition, and a header copied to itself. *)
Definition sample_operations : list ParamOverrideOperation := [
  Operation "a" " keep cool " "temperature" "set" [] [] " 0.7 " false "AND"
    [Condition "b" "model" "prefix" "openai/" false true; Condition "c" "  " "full" "x" false false];
  Operation "d" [] [] "set" [] [] [] false "OR" [];
  Operation "e" [] "X-Trace" "copy_header" [] [] [] true "OR" []].
Definition sample_t (key : jsstr) (line : option nat) : jsstr := 42%N :: key.
Definition sample_text : jsstr :=
  match buildOperationsJson sample_t sample_operations true with inr s => s | inl s => s end.

Lemma sample_known : Forall known sample_operations.
Proof. repeat constructor; apply has_spec; by vm_compute. Qed.
Lemma sample_settled : Forall settled_operation (not_blank sample_operations).
Proof.
  assert (E : not_blank sample_operations =
    match sample_operations with [a; _; c] => [a; c] | _ => [] end) by by vm_compute.
  rewrite E.
  assert (H7 : settled " 0.7 ").
  { split; [|intros s; by vm_compute].
    assert (Ev : parseLooseValue " 0.7 " = JNum (to_number "0.7")) by (vm_compute; reflexivity). rewrite Ev.
    assert (Et : num_to_string (to_number "0.7") = "0.7") by (vm_compute; reflexivity).
    constructor. split; [vm_compute; reflexivity|]. rewrite Et. split; [vm_compute; reflexivity|by repeat constructor]. }
  assert (Hs : forall s u, parseLooseValue s = JStr u -> parse (trim s) = None -> settled s).
  { intros s u Hu Hn. split; [rewrite Hu; constructor|by rewrite Hn]. }
  apply Forall_cons_2; [|apply Forall_cons_2; [|apply Forall_nil_2]]; (split; cbn [value_text conditions mode]).
  - intros _. exact H7.
  - apply Forall_cons_2; [|apply Forall_cons_2; [|apply Forall_nil_2]]; intros H.
    + eapply Hs; vm_compute; reflexivity.
    + by vm_compute in H.
  - intros H. by vm_compute in H.
  - apply Forall_nil_2.
Qed.
Lemma override_reopens_witness :
  exists e n', parseInitialState (fun _ => 1700000000000%Z) sample_text 3%Z = Some (e, n') /\
    editMode e = e_visual /\ visualMode e = v_operations /\ jsonText e = sample_text /\ jsonError e = [] /\
    map erase (operations e) = map saved_form (not_blank sample_operations) /\
    NoDup (state_ids e) /\
    buildOperationsJson sample_t (operations e) true = inr sample_text.
Proof.
  destruct (override_reopens (fun _ => 1700000000000%Z) sample_t sample_operations sample_text 3%Z)
    as (e & n' & H1 & H2 & H3 & H4 & H5 & H6 & H7 & H8).
  - lia.
  - done.
  - apply sample_known.
  - eapply Forall_impl; [apply sample_settled|]. apply settled_valued.
  - by vm_compute.
  - by vm_compute.
  - exists e, n'. do 7 (split; [assumption|]). apply H8, sample_settled.
Defined.

(** * What is saved is complete *)

(** A saved rule, as the server reads it: it has the fields of its mode. *)
Definition has_text (k : jsstr) (p : json) : Prop := exists s, prop k (Some p) = Some (JStr s) /\ s <> [].
Definition rule_complete (p : json) : Prop :=
  exists m, prop "mode" (Some p) = Some (JStr m) /\ m ∈ OPERATION_MODE_VALUES /\
    (m_path (meta_of m) = true -> has_text "path" p) /\
    (m ∈ FROM_REQUIRED_MODES -> has_text "from" p) /\
    (m ∈ TO_REQUIRED_MODES -> has_text "to" p) /\
    (m ∈ VALUE_REQUIRED_MODES -> exists v, prop "value" (Some p) = Some v).

(** Keys other than the conditions are read from the fields. *)
Lemma payload_prop o k : str_eqb k "logic" = false -> str_eqb k "conditions" = false ->
  prop k (Some (operation_payload o)) = obj_get k (aliased o).
Proof.
  intros H1 H2. unfold operation_payload. fold (aliased o).
  destruct (omap _ _); [done|]. unfold prop. by rewrite !obj_get_set, H1, H2.
Qed.
Lemma string_or_empty_text v s : string_or_empty v = s -> s <> [] -> v = Some (JStr s).
Proof. destruct v as [[]|]; cbn; try done; by intros <-. Qed.
Lemma given_alias o s : given o s ->
  (if m_pathAlias (meta_of (mode o)) then str_or (trim s) (trim (path o)) else trim s) <> [].
Proof.
  unfold given, str_or. intros [H|[-> H]].
  - rewrite (proj2 (truthy_true _) H). by destruct (m_pathAlias _).
  - by destruct (truthy (trim s)) eqn:E; [apply truthy_true|].
Qed.
Lemma complete_rule o : known o -> complete o -> rule_complete (operation_payload o).
Proof.
  intros [Hm Hc] [H1 H2 H3 H4 _ _].
  assert (E : mode o = str_or (mode o) "set") by (unfold str_or; by rewrite known_mode_truthy).
  exists (mode o). unfold has_text. rewrite !payload_prop by done.
  rewrite (get_aliased "mode"), (get_aliased "path"), (get_aliased "value") by done. rewrite field_mode, field_path, field_value, <- E.
  split; [done|]. split; [done|]. split; [|split; [|split]].
  - intros Hp. rewrite Hp. cbn [orb]. eauto.
  - intros Hf. exists (from (saved_form o)). assert (from (saved_form o) <> []) as Hn.
    { unfold saved_form. cbn [from]. rewrite (proj1 (required_fields _) Hf). by apply given_alias, H2. }
    split; [|done]. by apply string_or_empty_text; [apply aliased_from|].
  - intros Ht. exists (to (saved_form o)). assert (to (saved_form o) <> []) as Hn by by apply (given_alias o), H3.
    split; [|done]. by apply string_or_empty_text; [apply aliased_to|].
  - intros Hv. rewrite (proj2 (required_fields _) Hv). eauto.
Qed.

(** C12: what saving does in each mode of the dialog, for rules whose modes are in its
    lists and messages that are not empty.  In the visual editor of
    rules, either every rule that is not blank is complete, and then the dialog
    closes with a text (empty when there are no rules) whose rules all have
    what their modes require; or nothing is saved, the dialog stays as it is
    and the message names the first incomplete rule by its position.  The old
    format and the text mode save the JSON that was typed, printed anew, without
    looking at its rules: blank text saves the empty text, and text that is no
    JSON, or no object in the old format, saves nothing and says so. *)
Theorem save_complete_or_says (t : jsstr -> option nat -> jsstr) (d : dialog) :
  (forall key line, t key line <> []) -> Forall known (operations (editor d)) ->
  let not_json := toast (t "Parameter override must be valid JSON format" None) d in
  match editMode (editor d), visualMode (editor d) with
  | e_visual, v_operations =>
      let rules := not_blank (operations (editor d)) in
      Forall complete rules /\ Forall rule_complete (map operation_payload rules) /\
        handleSave t d = save_and_close (match rules with [] => [] | _ => stringify_pretty (saved_json (operations (editor d))) end) d \/
      exists a o b key, rules = a ++ o :: b /\ Forall complete a /\ ~ complete o /\ validate_operation o = Some key /\
        handleSave t d = toast (t key (Some (length a + 1))) d
  | e_visual, v_legacy =>
      handleSave t d =
        if negb (truthy (trim (legacyValue (editor d)))) then save_and_close [] d
        else match parse (trim (legacyValue (editor d))) with
             | Some (JObj o) => save_and_close (stringify_pretty (JObj o)) d
             | Some _ => toast (t "Legacy format must be a JSON object" None) d
             | None => not_json
             end
  | e_json, _ =>
      handleSave t d =
        if negb (truthy (trim (jsonText (editor d)))) then save_and_close [] d
        else match parse (trim (jsonText (editor d))) with
             | Some v => save_and_close (stringify_pretty v) d
             | None => not_json
             end
  end.
Proof.
  intros Ht Hk. cbv zeta. unfold handleSave, buildVisualJson.
  destruct (editMode (editor d)); [destruct (visualMode (editor d))|].
  - set (rules := not_blank (operations (editor d))).
    assert (Hkr : forall o, o ∈ rules -> known o).
    { intros o Ho%not_blank_incl. rewrite Forall_forall in Hk. auto. }
    destruct (build_spec t Ht _ Hk) as [(H0 & H1 & ->)|[[H0 ->]|(a & o & b & key & H0 & H1 & H2 & H3 & ->)]].
    + left. split; [done|]. split; [|fold rules in H0; by destruct rules].
      apply Forall_forall. intros p (o & -> & Ho)%elem_of_map. rewrite Forall_forall in H1. apply complete_rule; auto.
    + left. unfold rules. rewrite H0. done.
    + right. by exists a, o, b, key.
  - destruct (trim (legacyValue (editor d))); [done|]. cbn [truthy negb]. by destruct (parse _) as [[]|].
  - destruct (trim (jsonText (editor d))); [done|]. cbn [truthy negb]. by destruct (parse _).
Qed.
Definition sample_dialog (ops : list ParamOverrideOperation) : dialog :=
  Dialog (Editor e_visual v_operations [] ops [] []) [] (first_id ops) [] [] [] false "operations_default" [] [] true.
Lemma save_complete_or_says_witness :
  let d := sample_dialog (sample_operations ++ [Operation "f" [] "X-A" "set_header" [] [] " " false "OR" []]) in
  let rules := not_blank (operations (editor d)) in
  (Forall complete rules /\ Forall rule_complete (map operation_payload rules) /\
    handleSave sample_t d = save_and_close (match rules with [] => [] | _ => stringify_pretty (saved_json (operations (editor d))) end) d \/
  exists a o b key, rules = a ++ o :: b /\ Forall complete a /\ ~ complete o /\ validate_operation o = Some key /\
    handleSave sample_t d = toast (sample_t key (Some (length a + 1))) d).
Proof.
  intros d. apply (save_complete_or_says sample_t d); [done|].
  apply Forall_app. split; [apply sample_known|]. repeat constructor; apply has_spec; by vm_compute.
Defined.

(** * Texts that cannot be opened *)

(** The dialog opens on every text except those where the operations array,
    or the conditions array of one of its entries, contains null: there a
    TypeError leaves the component, whatever was issued before. *)
Theorem open_throws_exactly (clock : Z -> Z) (text : jsstr) (d : dialog) n :
  (0 <= n)%Z ->
  open_dialog clock text d n = None <->
  exists v l j, parse (trim text) = Some v /\ operations_array v = Some l /\ j ∈ l /\
    (j = JNull \/ exists cs, prop "conditions" (Some j) = Some (JArr cs) /\ JNull ∈ cs).
Proof.
  intros Hn. unfold open_dialog. destruct (loads text) eqn:El.
  - destruct (makes_initial clock text El n Hn) as (e & n' & E & _). rewrite (run_bind _ _ _ _ _ E).
    split; [done|]. intros (v & l & j & Hp & Ha & Hj & Hb). exfalso. unfold loads in El. rewrite Hp, Ha in El.
    rewrite forallb_forall in El. apply list_elem_of_In, El in Hj. unfold readable in Hj.
    destruct Hb as [->|(cs & Hcs & Hnull)]; [done|]. rewrite Hcs in Hj. apply andb_true_iff in Hj as [_ Hj].
    rewrite forallb_forall in Hj. by apply list_elem_of_In, Hj in Hnull.
  - rewrite (run_throw _ _ _ (initial_throws clock text n El)). split; [|done]. intros _.
    unfold loads in El. destruct (parse (trim text)) as [v|]; [|done].
    destruct (operations_array v) as [l|] eqn:Ha; [|done]. apply forallb_false in El as (j & Hj & Hr).
    exists v, l, j. split; [done|]. split; [done|]. split; [done|]. unfold readable in Hr.
    destruct j; try done; [by left|..]; right; cbn [not_null andb] in Hr;
      (destruct (prop "conditions" _) as [[]|]; try done; apply forallb_false in Hr as ([] & Hx & Hb); try done; eauto).
Qed.
Lemma open_throws_exactly_witness :
  open_dialog (fun _ => 0%Z) "{`operations`:[null]}" (sample_dialog []) 0%Z = None.
Proof.
  apply (open_throws_exactly (fun _ => 0%Z) "{`operations`:[null]}" (sample_dialog []) 0%Z); [lia|].
  eexists _, _, JNull. split; [by vm_compute|]. split; [by vm_compute|]. split; [left|by left].
Defined.

(** * Moving operations *)

Lemma find_index_id ops i k :
  find_index (fun o => str_eqb (o_id o) i) ops = Some k ->
  exists a o b, ops = a ++ o :: b /\ length a = k /\ o_id o = i.
Proof.
  intros (x & Hx & Hf & _)%find_index_some. apply str_eqb_true in Hf.
  exists (take k ops), x, (drop (S k) ops). split; [by rewrite take_drop_middle|].
  split; [|done]. rewrite length_take. apply lookup_lt_Some in Hx. lia.
Qed.
Lemma find_index_id_none ops i : find_index (fun o => str_eqb (o_id o) i) ops = None -> i ∉ map o_id ops.
Proof.
  intros H Hi. apply elem_of_map in Hi as (o & -> & Ho). rewrite find_index_none in H.
  specialize (H o Ho). by rewrite str_eqb_refl in H.
Qed.

Lemma filter_out_id a m b : NoDup (map o_id (a ++ m :: b)) ->
  List.filter (fun o => negb (str_eqb (o_id o) (o_id m))) (a ++ m :: b) = a ++ b.
Proof.
  rewrite map_app. cbn [map]. intros (Ha & Hab & Hb)%NoDup_app. apply NoDup_cons in Hb as [Hm Hb].
  rewrite bfilter_app. cbn [List.filter]. rewrite str_eqb_refl. cbn [negb].
  f_equal; apply bfilter_id; intros o Ho; apply negb_true_iff, str_eqb_false; intros E.
  - apply (Hab (o_id o)); [apply elem_of_map; eauto|]. rewrite E. left.
  - apply Hm. rewrite <- E. apply elem_of_map; eauto.
Qed.
(** Two elements with one identifier are one element. *)
Lemma same_id ops x y : NoDup (map o_id ops) -> x ∈ ops -> y ∈ ops -> o_id x = o_id y -> x = y.
Proof. intros Hn Hx Hy E. by apply (NoDup_map_inj o_id ops). Qed.

(** Dropping one operation on another moves exactly that one: it ends
    directly before or behind its target and all others keep their order;
    nothing changes when one of the two is not in the list or they are the
    same. *)
Theorem reorder_moves ops s target after :
  NoDup (map o_id ops) ->
  (forall moved dest, moved ∈ ops -> dest ∈ ops -> o_id moved = s -> o_id dest = target ->
     s <> [] -> target <> [] -> s <> target ->
     exists a b, List.filter (fun o => negb (str_eqb (o_id o) s)) ops = a ++ dest :: b /\
       reorderOperations ops s target after = a ++ (if after then [dest; moved] else [moved; dest]) ++ b) /\
  (s ∉ map o_id ops \/ target ∉ map o_id ops \/ s = target -> reorderOperations ops s target after = ops).
Proof.
  intros Hn. unfold reorderOperations. split.
  - intros moved dest Hm Hd <- <- Hs Ht Hne.
    rewrite (proj2 (truthy_true _) Hs), (proj2 (truthy_true _) Ht), (proj2 (str_eqb_false _ _) Hne). cbn [negb orb].
    destruct (find_index _ ops) as [k|] eqn:E1;
      [|exfalso; apply (find_index_id_none _ _ E1), elem_of_map; eauto].
    destruct (find_index_id _ _ _ E1) as (a & m & b & -> & <- & Em).
    assert (m = moved) as -> by (apply (same_id (a ++ m :: b)); [done|set_solver|done|done]).
    rewrite list_lookup_middle by done. rewrite delete_middle, filter_out_id by done.
    assert (Hd' : dest ∈ a ++ b).
    { apply elem_of_app in Hd as [Hd|[->|Hd]%elem_of_cons]; [set_solver|done|set_solver]. }
    destruct (find_index _ (a ++ b)) as [k|] eqn:E2;
      [|exfalso; apply (find_index_id_none _ _ E2), elem_of_map; eauto].
    destruct (find_index_id _ _ _ E2) as (a' & x & b' & E & <- & Ex).
    assert (x = dest) as ->.
    { apply (same_id (a ++ moved :: b)); [done| |done|done].
      assert (x ∈ a ++ b) as Hx by (rewrite E; set_solver). set_solver. }
    exists a', b'. split; [done|]. rewrite E. destruct after.
    + assert (Ec : a' ++ dest :: b' = (a' ++ [dest]) ++ b') by (by rewrite <- app_assoc). rewrite Ec.
      assert (El : S (length a') = length (a' ++ [dest])) by (rewrite length_app; cbn; lia).
      rewrite El, take_app_length, drop_app_length. by rewrite <- !app_assoc.
    + rewrite take_app_length, drop_app_length. done.
  - intros H. destruct (negb (truthy s) || negb (truthy target) || str_eqb s target) eqn:Eg; [done|].
    destruct (find_index _ ops) as [k|] eqn:E1; [|done].
    destruct (find_index_id _ _ _ E1) as (a & m & b & -> & <- & Em).
    rewrite list_lookup_middle by done. rewrite delete_middle.
    destruct (find_index _ (a ++ b)) as [k|] eqn:E2; [|done]. exfalso.
    destruct (find_index_id _ _ _ E2) as (a' & x & b' & E & _ & Ex).
    destruct H as [H|[H|H]].
    + apply H. rewrite <- Em. apply elem_of_map. exists m. split; [done|set_solver].
    + apply H. rewrite <- Ex. apply elem_of_map. exists x. split; [done|].
      assert (x ∈ a ++ b) as Hx by (rewrite E; set_solver). set_solver.
    + subst. rewrite str_eqb_refl, orb_true_r in Eg. done.
Qed.
Lemma reorder_moves_witness :
  reorderOperations sample_operations "e" "a" true = match sample_operations with [x; y; z] => [x; z; y] | _ => [] end /\
  exists a b, List.filter (fun o => negb (str_eqb (o_id o) "e")) sample_operations
              = a ++ nth 0 sample_operations (Operation [] [] [] [] [] [] [] false [] []) :: b.
Proof.
  split; [by vm_compute|].
  assert (Hn : NoDup (map o_id sample_operations)) by (apply (bool_decide_unpack _); by vm_compute).
  destruct (proj1 (reorder_moves sample_operations "e" "a" true Hn)
    (nth 2 sample_operations (Operation [] [] [] [] [] [] [] false [] []))
    (nth 0 sample_operations (Operation [] [] [] [] [] [] [] false [] []))) as (a & b & H & _).
  - right. right. left.
  - left.
  - done.
  - done.
  - done.
  - done.
  - done.
  - by exists a, b.
Defined.

(** * What every handler keeps true *)

Section Invariant.
Context (clock : Z -> Z) (t : jsstr -> option nat -> jsstr).

Definition all_ids (ops : list ParamOverrideOperation) : list jsstr := concat (map op_ids ops).

(** At least one operation, identifiers distinct and already issued (those of
    conditions included), modes known. *)
Record ops_ok (n : Z) (ops : list ParamOverrideOperation) : Prop := OpsOk {
  ok_some : ops <> [];
  ok_distinct : NoDup (all_ids ops);
  ok_issued : forall i, i ∈ all_ids ops -> issued clock n i;
  ok_known : Forall known ops }.

#[global] Instance ops_ok_perm n : Proper ((≡ₚ) ==> iff) (ops_ok n).
Proof.
  assert (H : forall a b, a ≡ₚ b -> ops_ok n a -> ops_ok n b).
  { intros a b Hp [H1 H2 H3 H4].
    assert (Hi : all_ids a ≡ₚ all_ids b).
    { unfold all_ids. clear -Hp. induction Hp; cbn [map concat]; [done|by rewrite IHHp| |by etrans].
      by rewrite !app_assoc, (Permutation_app_comm (op_ids y)). }
    split.
    - intros ->. apply H1. by apply Permutation_nil_r.
    - by rewrite <- Hi.
    - intros i. rewrite <- Hi. auto.
    - by rewrite <- Hp. }
  intros a b Hp. split; apply H; [done|by symmetry].
Qed.
Lemma ops_ok_mono n m ops : (n <= m)%Z -> ops_ok n ops -> ops_ok m ops.
Proof. intros Hl [H1 H2 H3 H4]. split; try done. intros i Hi. by eapply issued_mono; [|apply H3]. Qed.
(** Fewer or the same identifiers, in the same order. *)
Lemma ops_ok_sub n ops ops' :
  ops' <> [] -> all_ids ops' `sublist_of` all_ids ops -> Forall known ops' -> ops_ok n ops -> ops_ok n ops'.
Proof.
  intros Hne Hs Hk [H1 H2 H3 H4]. split; try done.
  - by eapply sublist_NoDup.
  - intros i Hi. apply H3. by eapply elem_of_submseteq; [|apply sublist_submseteq].
Qed.
Lemma ids_in_all ops o : o ∈ ops -> o_id o ∈ all_ids ops.
Proof. intros H. unfold all_ids. induction H; cbn; set_solver. Qed.
Lemma ops_ok_ids n ops : ops_ok n ops -> NoDup (map o_id ops).
Proof.
  intros [_ Hd _ _]. eapply sublist_NoDup; [exact Hd|]. unfold all_ids. clear.
  induction ops as [|o ops IH]; cbn; [done|]. apply sublist_skip. by apply sublist_inserts_l.
Qed.

Lemma known_operation_of o j : erase o = operation_of j -> known o.
Proof.
  assert (Hmode : forall modes v d, d ∈ modes -> mode_in modes v d ∈ modes).
  { intros modes v d Hd. unfold mode_in. destruct (is_string v); [|done]. destruct (has _ _) eqn:E; [|done].
    by apply has_spec. }
  intros E. split.
  - change (mode o) with (mode (erase o)). rewrite E. apply Hmode. apply has_spec. by vm_compute.
  - apply Forall_forall. intros c Hc.
    assert (Hin : erase_condition c ∈ conditions (erase o)) by (apply elem_of_map; eauto).
    rewrite E in Hin. unfold operation_of in Hin. cbn [conditions] in Hin.
    assert (exists j', erase_condition c = condition_of j') as [j' Ej].
    { destruct (prop "conditions" (Some j)) as [[]|]; try (by apply elem_of_nil in Hin).
      apply elem_of_map in Hin as (x & Hx & _). eauto. }
    unfold known_condition. change (c_mode c) with (c_mode (erase_condition c)). rewrite Ej.
    apply Hmode. apply has_spec. by vm_compute.
Qed.

(** Operations that were just made. *)
Definition made (n n' : Z) (ops : list ParamOverrideOperation) : Prop :=
  (0 <= n <= n')%Z /\ NoDup (all_ids ops) /\ Forall known ops /\
  forall i, i ∈ all_ids ops -> exists k, (n <= k < n')%Z /\ i = local_id clock k.
Lemma made_ok n n' ops : ops <> [] -> made n n' ops -> ops_ok n' ops.
Proof.
  intros Hne (Hl & Hd & Hk & Hi). split; try done. intros i Hin. destruct (Hi i Hin) as (k & Hk' & ->).
  exists k. split; [lia|done].
Qed.
Lemma ok_made_app n n' ops new : ops_ok n ops -> made n n' new -> ops_ok n' (ops ++ new).
Proof.
  intros [H1 H2 H3 H4] (Hl & Hd & Hk & Hi). unfold all_ids in *.
  split; [by destruct ops|..]; unfold all_ids; rewrite ?map_app, ?concat_app.
  - apply NoDup_app. split; [done|]. split; [|done]. intros i Ha Hb. apply H3 in Ha as (k & Hk1 & ->).
    apply Hi in Hb as (k' & Hk2 & E). apply local_id_inj in E; lia.
  - intros i [Ha|Hb]%elem_of_app; [apply issued_mono with n; [lia|auto]|].
    apply Hi in Hb as (k & Hk' & ->). exists k. split; [lia|done].
  - by apply Forall_app.
Qed.
Lemma made_one n (m : gen ParamOverrideOperation) P o n' :
  (0 <= n)%Z -> makes clock op_ids m P -> (forall x, P x -> known x) -> m n = Some (o, n') -> made n n' [o].
Proof.
  intros Hn Hm HP E. destruct (Hm n Hn) as (x & n1 & E1 & L & HPx & D & I). rewrite E in E1. injection E1 as <- <-.
  unfold made, all_ids. cbn [map concat]. rewrite app_nil_r. repeat split; auto.
Qed.
Lemma made_many n (m : gen (list ParamOverrideOperation)) (P : list ParamOverrideOperation -> Prop) ops n' :
  (0 <= n)%Z -> makes clock (fun l => concat (map op_ids l)) m P -> (forall x, P x -> Forall known x) ->
  m n = Some (ops, n') -> made n n' ops /\ P ops.
Proof.
  intros Hn Hm HP E. destruct (Hm n Hn) as (x & n1 & E1 & L & HPx & D & I). rewrite E in E1. injection E1 as <- <-.
  split; [|done]. unfold made, all_ids. repeat split; auto.
Qed.
Lemma erased_known ops l : map erase ops = map operation_of l -> Forall known ops.
Proof.
  intros E. apply Forall_forall. intros o Ho. assert (Hin : erase o ∈ map erase ops) by (apply elem_of_map; eauto).
  rewrite E in Hin. apply elem_of_map in Hin as (j & Ej & _). by apply known_operation_of in Ej.
Qed.
End Invariant.

Section Handlers.
Context (clock : Z -> Z) (t : jsstr -> option nat -> jsstr).
Local Abbreviation ops_ok := (ops_ok clock).
Local Abbreviation made := (made clock).

Lemma ops_ok_map n (g : ParamOverrideOperation -> ParamOverrideOperation) ops :
  (forall o, op_ids (g o) `sublist_of` op_ids o) -> (forall o, known o -> known (g o)) ->
  ops_ok n ops -> ops_ok n (map g ops).
Proof.
  intros Hi Hk Hok. apply ops_ok_sub with ops; [destruct Hok as [H _ _ _]; by destruct ops| | |done].
  - unfold all_ids. clear -Hi. induction ops as [|o ops IH]; cbn [map concat]; [done|]. by apply sublist_app.
  - destruct Hok as [_ _ _ H]. apply Forall_forall. intros x (o & -> & Ho)%elem_of_map.
    rewrite Forall_forall in H. auto.
Qed.
Lemma ops_ok_update n i f ops :
  (forall o, op_ids (f o) `sublist_of` op_ids o) -> (forall o, known o -> known (f o)) ->
  ops_ok n ops -> ops_ok n (update_at i f ops).
Proof. intros Hi Hk. apply ops_ok_map; intros o; destruct (str_eqb _ _); auto. Qed.

(** With distinct identifiers an update reaches one operation at most. *)
Lemma update_at_split i f ops : NoDup (map o_id ops) ->
  update_at i f ops = ops /\ i ∉ map o_id ops \/
  exists a o b, ops = a ++ o :: b /\ o_id o = i /\ update_at i f ops = a ++ f o :: b.
Proof.
  unfold update_at. induction ops as [|o ops IH]; intros Hn; [by left; split; [|apply not_elem_of_nil]|].
  cbn [map] in *. apply NoDup_cons in Hn as [Ho Hn]. destruct (str_eqb (o_id o) i) eqn:E.
  - apply str_eqb_true in E. right. exists [], o, ops. split; [done|]. split; [done|]. cbn. f_equal.
    apply map_id_on. intros x Hx. destruct (str_eqb (o_id x) i) eqn:Ex; [|done]. apply str_eqb_true in Ex.
    exfalso. apply Ho. rewrite E, <- Ex. apply elem_of_map; eauto.
  - apply str_eqb_false in E. destruct (IH Hn) as [[-> Hi]|(a & x & b & -> & Hx & ->)].
    + left. split; [done|]. apply not_elem_of_cons. split; [congruence|done].
    + right. by exists (o :: a), x, b.
Qed.

Lemma ops_ok_add_condition n n' i c ops :
  (0 <= n)%Z -> (n < n')%Z -> known_condition c -> c_id c = local_id clock n ->
  ops_ok n ops -> ops_ok n' (update_at i (with_conditions (fun cs => cs ++ [c])) ops).
Proof.
  intros Hn Hl Hc Hid Hok. pose proof (ops_ok_ids _ _ _ Hok) as Hnd.
  destruct (update_at_split i (with_conditions (fun cs => cs ++ [c])) ops Hnd)
    as [[-> _]|(a & o & b & -> & _ & ->)]; [by apply ops_ok_mono with n; [lia|]|].
  set (o' := with_conditions (fun cs => cs ++ [c]) o).
  assert (Hp : all_ids (a ++ o' :: b) ≡ₚ local_id clock n :: all_ids (a ++ o :: b)).
  { unfold all_ids. rewrite !map_app, !concat_app. cbn [map concat].
    assert (E : op_ids o' = op_ids o ++ [local_id clock n]).
    { unfold op_ids, o', with_conditions. cbn [o_id conditions]. rewrite map_app. cbn [map]. by rewrite Hid. }
    rewrite E. rewrite <- (app_assoc (op_ids o)). cbn [app].
    rewrite <- (Permutation_middle (op_ids o)), <- Permutation_middle. done. }
  destruct Hok as [_ Hd Hi Hk]. split.
  - by destruct a.
  - rewrite Hp. apply NoDup_cons. split; [|done]. intros Hin%Hi. by apply issued_fresh in Hin.
  - intros x. rewrite Hp. intros [->|Hx]%elem_of_cons.
    + exists n. split; [lia|done].
    + by apply issued_mono with n; [lia|auto].
  - apply Forall_app in Hk as [Ha Hb]. apply Forall_cons in Hb as [[Hm Hcs] Hb].
    apply Forall_app. split; [done|]. constructor; [|done]. split; [done|]. cbn. apply Forall_app. auto.
Qed.

(** Code that only advances the counter. *)
Definition forward {A} (m : gen A) : Prop := forall n x n', m n = Some (x, n') -> (n <= n')%Z.
Lemma forward_ret {A} (x : A) : forward (mret x).
Proof. intros n y n' [= _ <-]. lia. Qed.
Lemma forward_bind {A B} (m : gen A) (f : A -> gen B) :
  forward m -> (forall x, forward (f x)) -> forward (m ≫= f).
Proof.
  intros Hm Hf n y n' E. unfold mbind, gen_bind in E. destruct (m n) as [[x n1]|] eqn:E1; [|done].
  apply Hm in E1. apply Hf in E. lia.
Qed.
Lemma forward_mapM {A B} (f : A -> gen B) l : (forall x, forward (f x)) -> forward (mapM f l).
Proof.
  intros Hf. induction l as [|x l IH]; [apply forward_ret|].
  change (mapM f (x :: l)) with (y ← f x; k ← mapM f l; mret (y :: k)).
  apply forward_bind; [done|]. intros y. apply forward_bind; [done|]. intros k. apply forward_ret.
Qed.
Lemma forward_next : forward (nextLocalId clock).
Proof. intros n x n' [= _ <-]. lia. Qed.
Lemma forward_rule j : forward (normalizePruneRule clock j).
Proof. apply forward_bind; [apply forward_next|]. intros x. apply forward_ret. Qed.
Lemma forward_rules o : forward (rules_of_entries clock o).
Proof. apply forward_mapM. intros [k v]. apply forward_rule. Qed.
#[local] Hint Resolve forward_ret forward_rules forward_rule : core.
Lemma forward_draft text : forward (parsePruneObjectsDraft clock text).
Proof.
  unfold parsePruneObjectsDraft. destruct (trim text); [auto|]. destruct (parse _) as [[]|]; auto.
  apply forward_bind; [destruct (prop "where" _) as [[]|]; auto|]. intros rs.
  apply forward_bind; [|auto].
  destruct (prop "conditions" _) as [[]|]; auto. apply forward_mapM. auto.
Qed.

(** A change of values, one operation after the other. *)
Lemma mapM_values (g : ParamOverrideOperation -> gen ParamOverrideOperation) ops n ops' n' :
  (forall o, forward (g o)) ->
  (forall o m o' m', g o m = Some (o', m') -> op_ids o' = op_ids o /\ (known o -> known o')) ->
  mapM g ops n = Some (ops', n') ->
  all_ids ops' = all_ids ops /\ (Forall known ops -> Forall known ops') /\ (n <= n')%Z /\ (ops' = [] -> ops = []).
Proof.
  intros Hf Hg E. pose proof (forward_mapM g ops Hf _ _ _ E) as Hl.
  assert (all_ids ops' = all_ids ops /\ (Forall known ops -> Forall known ops') /\ (ops' = [] -> ops = [])); [|naive_solver].
  clear Hl. revert n ops' E. induction ops as [|o ops IH]; intros n ops' E.
  - by injection E as <- <-.
  - change (mapM g (o :: ops)) with (y ← g o; k ← mapM g ops; mret (y :: k)) in E.
    destruct (g o n) as [[y n1]|] eqn:E1; [|by rewrite run_throw in E]. rewrite (run_bind _ _ _ _ _ E1) in E.
    destruct (mapM g ops n1) as [[k n2]|] eqn:E2; [|by rewrite run_throw in E]. rewrite (run_bind _ _ _ _ _ E2) in E.
    injection E as <- <-. destruct (Hg _ _ _ _ E1) as [H1 H2]. destruct (IH _ _ E2) as (H3 & H4 & _).
    unfold all_ids in *. cbn [map concat]. rewrite H1, H3. split; [done|]. split; [|done].
    intros [Hk Hks]%Forall_cons. constructor; auto.
Qed.
Lemma prune_update_ok n n' i (updater : PruneObjectsDraft -> gen PruneObjectsDraft) d d' :
  (forall p, forward (updater p)) -> updatePruneObjectsDraft clock i updater d n = Some (d', n') ->
  ops_ok n (operations (editor d)) -> (n <= n')%Z /\ ops_ok n' (operations (editor d')).
Proof.
  intros Hu E Hok. unfold updatePruneObjectsDraft in E.
  match type of E with (mapM ?g _ ≫= _) n = _ => set (gg := g) in E end.
  destruct (mapM gg (operations (editor d)) n) as [[ops n1]|] eqn:E1; [|by rewrite run_throw in E].
  rewrite (run_bind _ _ _ _ _ E1) in E. injection E as <- <-. cbn.
  assert (H := mapM_values gg (operations (editor d)) n ops n1).
  destruct H as (H1 & H2 & H3 & H4); [| |done|].
  - intros o. unfold gg. destruct (str_eqb _ _); [|auto]. apply forward_bind; [apply forward_draft|].
    intros p. apply forward_bind; [done|auto].
  - intros o m o' m'. unfold gg. destruct (str_eqb _ _); [|by intros [= <- <-]].
    intros E. destruct (parsePruneObjectsDraft clock (value_text o) m) as [[p m1]|] eqn:Ep; [|by rewrite run_throw in E].
    rewrite (run_bind _ _ _ _ _ Ep) in E.
    destruct (updater p m1) as [[q m2]|] eqn:Eq; [|by rewrite run_throw in E].
    rewrite (run_bind _ _ _ _ _ Eq) in E. by injection E as <- <-.
  - split; [done|]. apply ops_ok_mono with n; [done|]. destruct Hok as [K1 K2 K3 K4].
    split; [auto|by rewrite H1|by rewrite H1|auto].
Qed.
End Handlers.

(** ** The handlers as steps *)

(** What the fields of the form change: never the identifier or the conditions,
    and modes come from the list. *)
Definition patches (f : ParamOverrideOperation -> ParamOverrideOperation) : Prop :=
  forall o, o_id (f o) = o_id o /\ conditions (f o) = conditions o /\
    (mode o ∈ OPERATION_MODE_VALUES -> mode (f o) ∈ OPERATION_MODE_VALUES).
Definition patches_condition (f : ParamOverrideCondition -> ParamOverrideCondition) : Prop :=
  forall c, c_id (f c) = c_id c /\ (known_condition c -> known_condition (f c)).

Section Steps.
Context (clock : Z -> Z) (t : jsstr -> option nat -> jsstr).

Inductive step : dialog * Z -> dialog * Z -> Prop :=
| step_open text d n d' n' : open_dialog clock text d n = Some (d', n') -> step (d, n) (d', n')
| step_render d n n' : (n <= n')%Z -> step (d, n) (keep_selection d, n')
| step_search s d n : step (d, n) (Dialog (editor d) s (selectedOperationId d) (expandedConditions d) (draggedOperationId d)
    (dragOverOperationId d) (dragAfter d) (templatePresetKey d) (toasts d) (saved d) (is_open d), n)
| step_preset k d n : step (d, n) (set_preset k d, n)
| step_select i d n : step (d, n) (select i d, n)
| step_legacy s d n : step (d, n) (set_editor (Editor (editMode (editor d)) (visualMode (editor d)) s
    (operations (editor d)) (jsonText (editor d)) (jsonError (editor d))) d, n)
| step_update i f d n : patches f -> step (d, n) (updateOperation i f d, n)
| step_add d n d' n' : addOperation clock d n = Some (d', n') -> step (d, n) (d', n')
| step_duplicate eager i d n d' n' : duplicateOperation clock eager i d n = Some (d', n') -> step (d, n) (d', n')
| step_remove i d n d' n' : removeOperation clock i d n = Some (d', n') -> step (d, n) (d', n')
| step_add_condition i d n d' n' : addCondition clock i d n = Some (d', n') -> step (d, n) (d', n')
| step_update_condition i ci f d n : patches_condition f -> step (d, n) (updateCondition i ci f d, n)
| step_remove_condition i ci d n : step (d, n) (removeCondition i ci d, n)
| step_return_error i f d n : step (d, n) (updateReturnErrorDraft i f d, n)
| step_prune i f d n d' n' : updatePruneObjectsDraft clock i (fun p => mret (f p)) d n = Some (d', n') -> step (d, n) (d', n')
| step_add_rule i d n d' n' : addPruneRule clock i d n = Some (d', n') -> step (d, n) (d', n')
| step_update_rule i ri f d n d' n' : updatePruneRule clock i ri f d n = Some (d', n') -> step (d, n) (d', n')
| step_remove_rule i ri d n d' n' : removePruneRule clock i ri d n = Some (d', n') -> step (d, n) (d', n')
| step_drag_start i d n : step (d, n) (handleDragStart i d, n)
| step_drag_over i after d n : step (d, n) (handleDragOver i after d, n)
| step_drop i transfer d n : step (d, n) (handleDrop i transfer d, n)
| step_drag_end d n : step (d, n) (resetDragState d, n)
| step_to_json d n : step (d, n) (switchToJsonMode t d, n)
| step_to_visual d n d' n' : switchToVisualMode clock t d n = Some (d', n') -> step (d, n) (d', n')
| step_fill append d n d' n' : fillTemplate clock t append d n = Some (d', n') -> step (d, n) (d', n')
| step_reset d n d' n' : resetEditorState clock d n = Some (d', n') -> step (d, n) (d', n')
| step_json s d n : step (d, n) (handleJsonChange t s d, n)
| step_save d n : step (d, n) (handleSave t d, n)
| step_expand d n : step (d, n) (expandAllConditions d, n)
| step_collapse d n : step (d, n) (collapseAllConditions d, n).

(** The dialogs that can be reached from opening one. *)
Inductive reachable : dialog * Z -> Prop :=
| reach_open text d n d' n' : (0 <= n)%Z -> open_dialog clock text d n = Some (d', n') -> reachable (d', n')
| reach_step s s' : reachable s -> step s s' -> reachable s'.

Local Abbreviation ops_ok := (ops_ok clock).
Local Abbreviation made := (made clock).
Definition good (s : dialog * Z) : Prop := (0 <= s.2)%Z /\ ops_ok s.2 (operations (editor s.1)).

Lemma default_made n o n' : (0 <= n)%Z -> createDefaultOperation clock n = Some (o, n') -> made n n' [o].
Proof. intros Hn. apply (made_one clock n _ _ o n' Hn (makes_default clock)). intros x. apply known_operation_of. Qed.
Lemma load_made n l ops n' : (0 <= n)%Z -> load_operations clock l n = Some (ops, n') -> made n n' ops /\ ops <> [].
Proof.
  intros Hn E. destruct (forallb readable l) eqn:Er; [|by rewrite load_throws in E].
  destruct (made_many clock n _ _ ops n' Hn (makes_load clock l Er)) as [Hm [Hne _]]; [|done|done].
  intros x [_ Hx]. by eapply erased_known.
Qed.
Lemma normalize_made n l ops n' : (0 <= n)%Z ->
  mapM (normalizeOperation clock) l n = Some (ops, n') -> made n n' ops /\ (ops = [] -> l = []).
Proof.
  intros Hn E. destruct (forallb readable l) eqn:Er.
  - assert (Hm : makes clock (fun l => concat (map op_ids l)) (mapM (normalizeOperation clock) l)
       (fun ops => Forall2 (fun j o => erase o = operation_of j) l ops)).
    { apply makes_mapM. intros j Hj. apply makes_operation. rewrite forallb_forall in Er. by apply Er, list_elem_of_In. }
    destruct (made_many clock n _ _ ops n' Hn Hm) as [H1 H2]; [|done|].
    + intros x Hx%Forall2_map_eq. by eapply erased_known.
    + split; [done|]. intros ->. by apply Forall2_nil_inv_r in H2.
  - apply forallb_false in Er as (j & Hj & Hr).
    rewrite (mapM_throws _ _ j Hj (not_readable_throws clock j Hr)) in E. done.
Qed.
Lemma reorder_perm ops s i after : reorderOperations ops s i after ≡ₚ ops.
Proof.
  unfold reorderOperations. destruct (_ || _ || _); [done|]. destruct (find_index _ ops) as [k|]; [|done].
  destruct (ops !! k) as [m|] eqn:E; [|done]. destruct (find_index _ (delete k ops)) as [j|]; [|done].
  set (j' := if after then S j else j). rewrite (Permutation_app_comm [m]), app_assoc, take_drop.
  rewrite Permutation_app_comm. cbn. symmetry. by apply delete_Permutation.
Qed.
Lemma presets_nonempty key :
  let preset := default operations_default (obj_get key TEMPLATE_PRESET_CONFIG) in
  preset_kind_ preset = p_operations -> default [] (operations_array (payload preset)) <> [].
Proof.
  assert (H : Forall (fun kp => preset_kind_ kp.2 = p_operations ->
     default [] (operations_array (payload kp.2)) <> []) TEMPLATE_PRESET_CONFIG).
  { repeat (constructor; [vm_compute; intros H1 H2; discriminate|]). constructor. }
  intros preset. unfold preset. clear preset. destruct (obj_get key TEMPLATE_PRESET_CONFIG) as [p|] eqn:E; [|vm_compute; intros H1 H2; discriminate].
  apply obj_get_elem in E. rewrite Forall_forall in H. exact (H _ E).
Qed.
Lemma blank_filter_ok n ops : not_blank ops <> [] -> ops_ok n ops -> ops_ok n (not_blank ops).
Proof.
  intros Hne Hok. apply ops_ok_sub with ops; [done| | |done].
  - clear. unfold all_ids, not_blank. induction ops as [|o ops IH]; [done|]. cbn [List.filter map concat].
    destruct (negb _); cbn [map concat]; [by apply sublist_app|by apply sublist_inserts_l].
  - destruct Hok as [_ _ _ H]. apply Forall_forall. intros o Ho%not_blank_incl. rewrite Forall_forall in H. auto.
Qed.
Lemma remove_ok n i ops : 1 < length ops -> ops_ok n ops ->
  ops_ok n (List.filter (fun o => negb (str_eqb (o_id o) i)) ops).
Proof.
  intros Hl Hok. apply ops_ok_sub with ops; [| | |done].
  - intros E. pose proof (ops_ok_ids _ _ _ Hok) as Hn.
    assert (Hall : forall o, o ∈ ops -> o_id o = i).
    { intros o Ho. destruct (str_eqb (o_id o) i) eqn:Ei; [by apply str_eqb_true|]. exfalso.
      assert (o ∈ List.filter (fun o => negb (str_eqb (o_id o) i)) ops) as Hin
        by (apply elem_of_bfilter; by rewrite Ei). rewrite E in Hin. by apply elem_of_nil in Hin. }
    destruct ops as [|x [|y ops]]; cbn in Hl; [lia|lia|]. cbn [map] in Hn. apply NoDup_cons in Hn as [Hx _].
    apply Hx. rewrite (Hall x), (Hall y) by set_solver. left.
  - clear. unfold all_ids. induction ops as [|o ops IH]; [done|]. cbn [List.filter map concat].
    destruct (negb _); cbn [map concat]; [by apply sublist_app|by apply sublist_inserts_l].
  - destruct Hok as [_ _ _ H]. apply Forall_forall. intros o [Ho _]%elem_of_bfilter. rewrite Forall_forall in H. auto.
Qed.
End Steps.

(** Runs the first action of a computation that succeeded. *)
Ltac run E x n' H :=
  match type of E with (?m ≫= _) ?n = Some _ =>
    destruct (m n) as [[x n']|] eqn:H; [rewrite (run_bind _ _ _ _ _ H) in E|by rewrite run_throw in E]
  end.

Section Preservation.
Context (clock : Z -> Z) (t : jsstr -> option nat -> jsstr).
Local Abbreviation ops_ok := (ops_ok clock).
Local Abbreviation ok := (fun (n : Z) (d : dialog) => (0 <= n)%Z /\ ops_ok n (operations (editor d))).

Lemma made_le n n' ops : made clock n n' ops -> (0 <= n')%Z.
Proof. intros [Hl _]. lia. Qed.

Lemma open_ok text d n d' n' : (0 <= n)%Z -> open_dialog clock text d n = Some (d', n') -> ok n' d'.
Proof.
  intros Hn E. unfold open_dialog in E. run E e n1 E1. injection E as <- <-. cbn [editor].
  destruct (loads text) eqn:El; [|by rewrite initial_throws in E1].
  destruct (makes_initial clock text El n Hn) as (e' & n2 & E2 & Hl & [Hne Ho] & Hd & Hi). rewrite E1 in E2.
  injection E2 as <- <-. split; [lia|]. apply made_ok with n; [done|]. repeat split; [lia|lia|done| |done].
  (* Every way of opening reads its operations from JSON values. *)
  unfold parseInitialState in E1.
  assert (Hdef : forall f : ParamOverrideOperation -> EditorState, (forall o, operations (f o) = [o]) ->
            (o ← createDefaultOperation clock; mret (f o)) n = Some (e, n1) -> Forall known (operations e)).
  { intros f Hf E. run E o n2 E2. injection E as <- <-. rewrite Hf.
    by destruct (default_made clock n _ _ Hn E2) as (_ & _ & Hk & _). }
  destruct (trim text) as [|c u]; [by eapply (Hdef (fun o => Editor _ _ _ [o] _ _))|].
  destruct (parse (c :: u)) as [v|]; [|by eapply (Hdef (fun o => Editor _ _ _ [o] _ _))].
  destruct (operations_array v) as [l|].
  - run E1 ops n2 E2. injection E1 as <- <-. by destruct (load_made clock n _ _ _ Hn E2) as [(_ & _ & Hk & _) _].
  - destruct v; by eapply (Hdef (fun o => Editor _ _ _ [o] _ _)).
Qed.

Lemma duplicate_ok eager i d n d' n' : ok n d -> duplicateOperation clock eager i d n = Some (d', n') -> ok n' d'.
Proof.
  intros [Hn Hok] E. unfold duplicateOperation in E.
  destruct (find_index _ _) as [k|]; [|by injection E as <- <-].
  destruct (operations (editor d) !! k) as [src|] eqn:Es; [|by injection E as <- <-].
  run E c n1 E1. injection E as <- <-.
  assert (Hm : made clock n n1 [c]).
  { apply (made_one clock n (normalizeOperation clock (clone_source src))
      (fun o => erase o = operation_of (clone_source src)));
      [done| |intros x; apply known_operation_of|exact E1]. apply makes_operation.
    unfold readable, clone_source. cbn [not_null andb]. unfold prop. cbn -[parseLooseValue].
    apply forallb_forall. intros x Hx%list_elem_of_In. by apply elem_of_map in Hx as (y & -> & _). }
  split; [by eapply made_le|].
  assert (Hl : ops_ok n1 (take (S k) (operations (editor d)) ++ [c] ++ drop (S k) (operations (editor d)))).
  { rewrite (Permutation_app_comm [c]), app_assoc, take_drop. by eapply ok_made_app. }
  by destruct eager.
Qed.
Lemma remove_operation_ok i d n d' n' : ok n d -> removeOperation clock i d n = Some (d', n') -> ok n' d'.
Proof.
  intros [Hn Hok] E. unfold removeOperation in E. destruct (length _ <=? 1) eqn:El.
  - run E o n1 E1. injection E as <- <-. pose proof (default_made clock n _ _ Hn E1) as Hm.
    split; [by eapply made_le|]. by eapply made_ok.
  - injection E as <- <-. split; [done|]. apply Nat.leb_gt in El. by apply remove_ok.
Qed.
Lemma add_condition_ok i d n d' n' : ok n d -> addCondition clock i d n = Some (d', n') -> ok n' d'.
Proof.
  intros [Hn Hok] E. unfold addCondition in E. run E c n1 E1. injection E as <- <-.
  assert (n1 = n + 1 /\ c_id c = local_id clock n /\ known_condition c)%Z as (-> & Hid & Hc).
  { injection E1 as <- <-. split; [done|]. split; [done|]. apply has_spec. by vm_compute. }
  split; [lia|]. cbn [editor setOperations set_editor with_operations operations expand].
  apply ops_ok_add_condition with n; try done. lia.
Qed.
Lemma to_visual_ok d n d' n' : ok n d -> switchToVisualMode clock t d n = Some (d', n') -> ok n' d'.
Proof.
  intros [Hn Hok] E. unfold switchToVisualMode in E.
  destruct (editMode _); [by injection E as <- <-|].
  destruct (trim _) as [|c u].
  { run E o n1 E1. injection E as <- <-. pose proof (default_made clock n _ _ Hn E1) as Hm.
    split; [by eapply made_le|]. by eapply made_ok. }
  destruct (parse _) as [v|]; [|by injection E as <- <-].
  destruct (operations_array v) as [l|].
  { run E ops n1 E1. injection E as <- <-. destruct (load_made clock n _ _ _ Hn E1) as [Hm Hne].
    split; [by eapply made_le|]. by eapply made_ok. }
  destruct v; try by injection E as <- <-.
  run E o' n1 E1. injection E as <- <-. pose proof (default_made clock n _ _ Hn E1) as Hm.
  split; [by eapply made_le|]. by eapply made_ok.
Qed.
Lemma fill_ok append d n d' n' : ok n d -> fillTemplate clock t append d n = Some (d', n') -> ok n' d'.
Proof.
  intros [Hn Hok] E. unfold fillTemplate in E. pose proof (presets_nonempty (templatePresetKey d)) as Hp. cbn zeta in Hp.
  set (preset := default operations_default (obj_get (templatePresetKey d) TEMPLATE_PRESET_CONFIG)) in *.
  assert (Hdef : forall f : ParamOverrideOperation -> dialog, (forall o, operations (editor (f o)) = [o]) ->
            (o ← createDefaultOperation clock; mret (f o)) n = Some (d', n') -> ok n' d').
  { intros f Hf E'. run E' o n1 E1. injection E' as <- <-. rewrite Hf. pose proof (default_made clock n _ _ Hn E1) as Hm.
    split; [by eapply made_le|]. by eapply made_ok. }
  destruct (preset_kind_ preset) eqn:Ek.
  - set (l := default [] (operations_array (payload preset))) in *. specialize (Hp eq_refl). destruct append.
    + run E new n1 E1. injection E as <- <-. destruct (normalize_made clock n _ _ _ Hn E1) as [Hm Hne].
      split; [by eapply made_le|]. cbn [editor select set_editor operations].
      set (ex := match visualMode (editor d) with v_operations => _ | v_legacy => [] end).
      assert (Hex : ex = [] \/ ops_ok n ex).
      { unfold ex. destruct (visualMode (editor d)); [|by left]. fold (not_blank (operations (editor d))).
        destruct (decide (not_blank (operations (editor d)) = [])) as [->|Hne']; [by left|right]. by apply blank_filter_ok. }
      assert (Hnn : new <> []) by (intros Hn'; by apply Hp, Hne).
      assert (Hall : ops_ok n1 (ex ++ new)).
      { destruct Hex as [->|Hex]; [by eapply made_ok|by eapply ok_made_app]. }
      destruct (ex ++ new) eqn:Ea; [|done]. by eapply made_ok.
    + run E ops n1 E1. injection E as <- <-. destruct (load_made clock n _ _ _ Hn E1) as [Hm Hne].
      split; [by eapply made_le|]. by eapply made_ok.
  - destruct (append && _); [|by eapply Hdef; [|exact E]].
    destruct (trim _) as [|c u]; [by eapply Hdef; [|exact E]|].
    destruct (parse _) as [v|]; [by eapply Hdef; [|exact E]|by injection E as <- <-].
Qed.
End Preservation.

Section Reachability.
Context (clock : Z -> Z) (t : jsstr -> option nat -> jsstr).
Local Abbreviation ops_ok := (ops_ok clock).

Lemma same_operations_ok n d d' :
  operations (editor d') = operations (editor d) -> ops_ok n (operations (editor d)) -> ops_ok n (operations (editor d')).
Proof. by intros ->. Qed.
Lemma json_mode_operations d : operations (editor (switchToJsonMode t d)) = operations (editor d).
Proof. unfold switchToJsonMode. destruct (editMode _); [|done]. by destruct (buildVisualJson _ _). Qed.
Lemma save_operations d : operations (editor (handleSave t d)) = operations (editor d).
Proof.
  unfold handleSave. destruct (match editMode (editor d) with e_visual => _ | e_json => _ end); done.
Qed.
Lemma drop_ok n i transfer d : ops_ok n (operations (editor d)) -> ops_ok n (operations (editor (handleDrop i transfer d))).
Proof. unfold handleDrop. destruct (_ && _ && _); [|done]. cbn. by rewrite reorder_perm. Qed.

Lemma step_good s s' : step clock t s s' -> good clock s -> good clock s'.
Proof.
  intros Hs [Hn Hok]. destruct Hs; cbn [fst snd] in *; unfold good; cbn [fst snd];
    try (split; [done|exact Hok]).
  - by eapply open_ok.
  - split; [lia|]. apply ops_ok_mono with n; [done|]. apply same_operations_ok with d; [|done].
    unfold keep_selection. destruct (operations (editor d)) eqn:E; [done|]. by destruct (existsb _ _).
  - split; [done|]. apply ops_ok_update; [..|done]; intros o.
    + destruct (H o) as (H1 & H2 & _). unfold op_ids. by rewrite H1, H2.
    + destruct (H o) as (_ & H2 & H3). intros [Hm Hc]. split; [auto|by rewrite H2].
  - unfold addOperation in H. run H o n1 E1. injection H as <- <-. pose proof (default_made clock n _ _ Hn E1) as Hm.
    split; [by eapply made_le|]. by eapply ok_made_app.
  - by eapply duplicate_ok.
  - by eapply remove_operation_ok.
  - by eapply add_condition_ok.
  - split; [done|]. apply ops_ok_update; [..|done]; intros o.
    + unfold op_ids, with_conditions. cbn [o_id conditions].
      rewrite map_map. apply sublist_skip. assert (E : map (fun x => c_id (if str_eqb (c_id x) ci then f x else x)) (conditions o) = map c_id (conditions o)).
      { apply map_ext. intros c. destruct (str_eqb _ _); [apply H|done]. }
      by rewrite E.
    + intros [Hm Hc]. split; [done|]. cbn [with_conditions conditions]. apply Forall_forall. intros c (c' & -> & Hc')%elem_of_map.
      rewrite Forall_forall in Hc. destruct (str_eqb _ _); [apply H|]; by apply Hc.
  - split; [done|]. apply ops_ok_update; [..|done]; intros o.
    + unfold op_ids, with_conditions. cbn [o_id conditions]. apply sublist_skip. apply sublist_map, sublist_bfilter.
    + intros [Hm Hc]. split; [done|]. cbn [with_conditions conditions]. apply Forall_forall. intros c [Hin _]%elem_of_bfilter.
      rewrite Forall_forall in Hc. by apply Hc.
  - split; [done|]. by apply ops_ok_update.
  - destruct (prune_update_ok clock n n' i (fun p => mret (f p)) d d') as [H1 H2]; [|done..|split; [lia|done]].
    intros p. apply forward_ret.
  - refine (match prune_update_ok clock n n' i _ d d' _ H Hok with conj H1 H2 => conj _ H2 end); [|lia].
    intros p. apply forward_bind; [apply forward_rule|]. intros r. apply forward_ret.
  - refine (match prune_update_ok clock n n' i _ d d' _ H Hok with conj H1 H2 => conj _ H2 end); [|lia].
    intros p. apply forward_ret.
  - refine (match prune_update_ok clock n n' i _ d d' _ H Hok with conj H1 H2 => conj _ H2 end); [|lia].
    intros p. apply forward_ret.
  - split; [done|]. apply same_operations_ok with d; [|done]. unfold handleDragOver. by destruct (_ || _).
  - split; [done|]. by apply drop_ok.
  - split; [done|]. by rewrite json_mode_operations.
  - by eapply to_visual_ok.
  - by eapply fill_ok.
  - unfold resetEditorState in H. run H o n1 E1. injection H as <- <-. pose proof (default_made clock n _ _ Hn E1) as Hm.
    split; [by eapply made_le|]. by eapply made_ok.
  - split; [done|]. by rewrite save_operations.
  - split; [done|]. unfold expandAllConditions, setAllConditions. by destruct (selected d).
  - split; [done|]. unfold collapseAllConditions, setAllConditions. by destruct (selected d).
Qed.
Lemma reachable_good s : reachable clock t s -> good clock s.
Proof.
  induction 1 as [text d n d' n' Hn E|s s' _ IH Hs]; [by eapply open_ok|]. by eapply step_good.
Qed.
Lemma selection_kept d : operations (editor d) <> [] ->
  exists o, o ∈ operations (editor (keep_selection d)) /\ o_id o = selectedOperationId (keep_selection d).
Proof.
  intros Hne. unfold keep_selection. destruct (operations (editor d)) as [|o l] eqn:E; [done|].
  destruct (existsb _ _) eqn:Ex.
  - apply existsb_exists in Ex as (x & Hx & Hid). apply str_eqb_true in Hid. exists x. rewrite E.
    split; [by apply list_elem_of_In|done].
  - exists o. cbn. rewrite E. split; [left|done].
Qed.
End Reachability.

(** C11: in every state that the handlers of the dialog can reach, in any order
    and with any input, there is an operation; operations and conditions all
    have different identifiers and the next one made differs from them; modes
    come from the lists, so that saving decides by [save_complete_or_says]; and
    once rendered, one of the operations is the selected one. *)
Theorem editor_invariant (clock : Z -> Z) (t : jsstr -> option nat -> jsstr) d n :
  reachable clock t (d, n) ->
  operations (editor d) <> [] /\ NoDup (all_ids (operations (editor d))) /\
  (local_id clock n ∉ all_ids (operations (editor d))) /\ Forall known (operations (editor d)) /\
  exists o, o ∈ operations (editor (keep_selection d)) /\ o_id o = selectedOperationId (keep_selection d).
Proof.
  intros [Hn [H1 H2 H3 H4]]%reachable_good. cbn [fst snd] in *. repeat split; try done.
  - intros Hi%H3. by apply issued_fresh in Hi.
  - by apply selection_kept.
Qed.
Lemma editor_invariant_witness :
  exists d n, reachable (fun _ => 5%Z) sample_t (d, n) /\
  (operations (editor d) <> [] /\ NoDup (all_ids (operations (editor d))) /\
   (local_id (fun _ => 5%Z) n ∉ all_ids (operations (editor d))) /\ Forall known (operations (editor d)) /\
   exists o, o ∈ operations (editor (keep_selection d)) /\ o_id o = selectedOperationId (keep_selection d)).
Proof.
  destruct (open_dialog (fun _ => 5%Z) [] (sample_dialog []) 0%Z) as [[d0 n0]|] eqn:E0; [|by vm_compute in E0].
  destruct (addOperation (fun _ => 5%Z) d0 n0) as [[d1 n1]|] eqn:E1;
    [|by unfold addOperation in E1; cbn in E1].
  exists d1, n1.
  assert (Hr : reachable (fun _ => 5%Z) sample_t (d1, n1)).
  { eapply reach_step; [by eapply reach_open; [|exact E0]|]. by apply step_add. }
  split; [exact Hr|]. exact (editor_invariant (fun _ => 5%Z) sample_t d1 n1 Hr).
Defined.

(** * The rules of prune_objects *)

Section PruneRules.
Context (clock : Z -> Z).

(** Every rule of what is read has an identifier made by the reading. *)
Definition new_rules (rules : list PruneRule) (n n' : Z) : Prop :=
  forall r, r ∈ rules -> exists k, (n <= k < n')%Z /\ r_id r = local_id clock k.
Lemma new_rules_mono rules n n' m m' : (m <= n)%Z -> (n' <= m')%Z -> new_rules rules n n' -> new_rules rules m m'.
Proof. intros H1 H2 H r Hr. destruct (H r Hr) as (k & Hk & E). exists k. split; [lia|done]. Qed.
Lemma mapM_new_rules {A} (f : A -> gen PruneRule) l n rules n' :
  (forall a m r m', f a m = Some (r, m') -> m' = (m + 1)%Z /\ r_id r = local_id clock m) ->
  mapM f l n = Some (rules, n') -> (n <= n')%Z /\ new_rules rules n n'.
Proof.
  intros Hf. revert n rules. induction l as [|a l IH]; intros n rules E.
  - injection E as <- <-. split; [lia|]. intros r Hr. by apply elem_of_nil in Hr.
  - change (mapM f (a :: l)) with (y ← f a; k ← mapM f l; mret (y :: k)) in E.
    run E r n1 E1. run E rs n2 E2. injection E as <- <-. destruct (Hf _ _ _ _ E1) as [-> Hid].
    destruct (IH _ _ E2) as [Hl Hrs]. split; [lia|]. intros x [->|Hx]%elem_of_cons.
    + exists n. split; [lia|done].
    + apply new_rules_mono with (m := n) (m' := n2) in Hrs; [by apply Hrs|lia|lia].
Qed.
Lemma rule_new j m r m' : normalizePruneRule clock j m = Some (r, m') -> m' = (m + 1)%Z /\ r_id r = local_id clock m.
Proof. by intros [= <- <-]. Qed.

Lemma draft_new_rules text n p n' :
  parsePruneObjectsDraft clock text n = Some (p, n') -> new_rules (pd_rules p) n n'.
Proof.
  assert (Hnil : forall m m', new_rules [] m m') by (intros m m' r Hr; by apply elem_of_nil in Hr).
  assert (Hent : forall o m rules m', rules_of_entries clock o m = Some (rules, m') -> (m <= m')%Z /\ new_rules rules m m').
  { intros o m rules m'. apply mapM_new_rules. intros [k v]. apply rule_new. }
  unfold parsePruneObjectsDraft. destruct (trim text) as [|c u]; [by intros [= <- <-]|].
  destruct (parse (c :: u)) as [v|]; [|by intros [= <- <-]].
  destruct v as [| | | | |o]; try by intros [= <- <-].
  intros E. run E ws n1 E1. run E cs n2 E2. injection E as <- <-. cbn [pd_rules].
  assert ((n <= n1)%Z /\ new_rules ws n n1) as [L1 H1].
  { destruct (prop "where" _) as [[]|]; try (injection E1 as <- <-; split; [lia|done]). by eapply Hent. }
  assert ((n1 <= n2)%Z /\ new_rules cs n1 n2) as [L2 H2].
  { destruct (prop "conditions" _) as [[]|]; try (injection E2 as <- <-; split; [lia|done]).
    - eapply mapM_new_rules; [|exact E2]. intros a. apply rule_new.
    - by eapply Hent. }
  intros r [Hr|Hr]%elem_of_app; [apply H1 in Hr as (k & Hk & E)|apply H2 in Hr as (k & Hk & E)]; exists k; (split; [lia|done]).
Qed.

Lemma run_same {A B} (m m' : gen A) (f g : A -> gen B) n :
  m n = m' n -> (forall x n', m n = Some (x, n') -> f x n' = g x n') -> (m ≫= f) n = (m' ≫= g) n.
Proof. intros E H. unfold mbind, gen_bind. rewrite <- E. destruct (m n) as [[x n']|]; [by apply H|done]. Qed.
Lemma mapM_same_from {A B} (f g : A -> gen B) l n :
  (forall a, forward (f a)) -> (forall a m, (n <= m)%Z -> f a m = g a m) -> mapM f l n = mapM g l n.
Proof.
  intros Hf. revert n. induction l as [|a l IH]; intros n H; [done|].
  change (mapM ?h (a :: l)) with (y ← h a; k ← mapM h l; mret (y :: k)).
  apply run_same; [apply H; lia|]. intros y n1 E. pose proof (Hf a _ _ _ E) as Hl.
  apply run_same; [apply IH; intros b m Hm; apply H; lia|done].
Qed.

(** An updater that leaves newly made rules alone does nothing. *)
Lemma update_draft_same i (f : PruneObjectsDraft -> PruneObjectsDraft) d n :
  (forall p m m', (n <= m)%Z -> new_rules (pd_rules p) m m' -> f p = p) ->
  updatePruneObjectsDraft clock i (fun p => mret (f p)) d n = updatePruneObjectsDraft clock i mret d n.
Proof.
  intros Hf. unfold updatePruneObjectsDraft.
  apply run_same; [|done]. apply mapM_same_from.
  - intros o. destruct (str_eqb _ _); [|apply forward_ret]. apply forward_bind; [apply forward_draft|].
    intros p. apply forward_ret.
  - intros o m Hm. destruct (str_eqb _ _); [|done]. apply run_same; [done|]. intros p m' Ep.
    apply draft_new_rules in Ep. apply run_same; [|done]. by rewrite (Hf p m m' Hm Ep).
Qed.
Lemma new_rule_differs p n m m' ri : (n <= m)%Z -> (exists k, (0 <= k < n)%Z /\ ri = local_id clock k) ->
  new_rules (pd_rules p) m m' -> forall r, r ∈ pd_rules p -> str_eqb (r_id r) ri = false.
Proof.
  intros Hm (k & Hk & ->) Hr r Hin. apply str_eqb_false. intros E. destruct (Hr r Hin) as (k' & Hk' & E').
  rewrite E' in E. apply local_id_inj in E; lia.
Qed.
End PruneRules.

(** Editing or removing a prune rule in the dialog has no effect on any
    rule.  The identifier comes from the draft that was rendered, so the
    counter has passed it; the handler reads the draft again, with new
    identifiers, and finds no rule to change: whatever the edit, the outcome is
    that of reading and writing the draft unchanged. *)
Theorem prune_edits_lost (clock : Z -> Z) i ri (patch : PruneRule -> PruneRule) d n k :
  (0 <= k < n)%Z -> ri = local_id clock k ->
  updatePruneRule clock i ri patch d n = updatePruneObjectsDraft clock i mret d n /\
  removePruneRule clock i ri d n = updatePruneObjectsDraft clock i mret d n.
Proof.
  intros Hk Hri. split; apply update_draft_same; intros p m m' Hm Hnew;
    assert (Hne := new_rule_differs clock p n m m' ri Hm (ex_intro _ k (conj Hk Hri)) Hnew);
    destruct p as [s ty lo re rules]; unfold with_rules; cbn [pd_rules pd_simpleMode pd_typeText pd_logic pd_recursive] in *; f_equal.
  - apply map_id_on. intros r Hr. by rewrite Hne.
  - apply bfilter_id. intros r Hr. by rewrite Hne.
Qed.

(** A dialog with one prune operation of two rules, whose draft was rendered
    at counter 0: the first rule is shown under the identifier number 0. *)
Definition prune_dialog : dialog :=
  sample_dialog [Operation "op" [] [] "prune_objects" [] []
    "{`conditions`:[{`path`:`type`,`mode`:`full`,`value`:`x`},{`path`:`role`,`mode`:`prefix`,`value`:`y`}]}"
    false "OR" []].
Lemma prune_edits_lost_witness :
  option_map (fun r => map value_text (operations (editor r.1)))
    (removePruneRule (fun _ => 7%Z) "op" (local_id (fun _ => 7%Z) 0) prune_dialog 2%Z)
  = Some (map value_text (operations (editor prune_dialog))).
Proof.
  rewrite (proj2 (prune_edits_lost (fun _ => 7%Z) "op" (local_id (fun _ => 7%Z) 0) (fun r => r) prune_dialog 2%Z 0%Z
    ltac:(lia) eq_refl)).
  vm_compute. reflexivity.
Defined.

(** * The draft of return_error *)

#[local] Instance spec_float_eq : EqDecision spec_float.
Proof. solve_decision. Defined.
Definition status_prints (k : Z) : bool :=
  let n := num k in
  valid_status n && is_finite n &&
  match parse_number (num_to_string n) with Some (JNum m, []) => bool_decide (m = n) | _ => false end &&
  forallb (fun c => negb (is_space c)) (num_to_string n).
Lemma statuses_print : forallb status_prints (seqZ 100 500) = true.
Proof. vm_compute. reflexivity. Qed.
Lemma status_ok k : (100 <= k <= 599)%Z -> valid_status (num k) = true /\ printable (JNum (num k)).
Proof.
  intros Hk. pose proof statuses_print as H. rewrite forallb_forall in H.
  assert (Hin : In k (seqZ 100 500)) by (apply list_elem_of_In, elem_of_seqZ; lia).
  apply H in Hin. unfold status_prints in Hin. apply andb_true_iff in Hin as [Hin Hs].
  apply andb_true_iff in Hin as [Hin Hp]. apply andb_true_iff in Hin as [Hv Hf].
  split; [done|]. constructor. split; [done|]. split.
  - destruct (parse_number _) as [[[] []]|]; try done. by apply bool_decide_eq_true in Hp as ->.
  - apply Forall_forall. intros c Hc. rewrite forallb_forall in Hs. by apply negb_true_iff, Hs, list_elem_of_In.
Qed.

(** What the form of a return_error rule shows is what was last put into
    it: with trimmed texts and a status of the range 100 to 599, the value
    written for the full form reads back as the same fields, every optional
    field included; in the simple form a plain message reads back as that
    message. *)
Theorem return_error_roundtrip message k code type skip :
  trimmed message -> trimmed code -> trimmed type -> (100 <= k <= 599)%Z ->
  parseReturnErrorDraft (buildReturnErrorValueText (ErrorDraft message (num k) code type skip false)) =
    ErrorDraft message (num k) code type skip false /\
  ((forall o, parse message <> Some (JObj o)) ->
   parseReturnErrorDraft (buildReturnErrorValueText (ErrorDraft message (num k) code type skip true)) =
     ErrorDraft message (num 400) [] [] true true).
Proof.
  intros Hm Hc Ht Hk. apply status_ok in Hk as [Hv Hp]. apply trim_trimmed in Hm, Hc, Ht. split.
  - unfold buildReturnErrorValueText. cbn [re_message re_statusCode re_code re_type re_skipRetry re_simpleMode].
    rewrite Hm, Hc, Ht, Hv. set (payload := if skip then _ else _).
    assert (Hs : sound payload).
    { assert (sound (obj_set "status_code" (JNum (num k)) (obj_set "message" (JStr message) []))).
      { apply sound_set; [done|]. apply sound_set; [constructor|apply sound_nil]. }
      unfold payload. assert (forall s, printable (JStr s)) by constructor. assert (forall b, printable (JBool b)) by constructor.
      destruct skip, (truthy code), (truthy type); repeat (apply sound_set; [done|]); done. }
    apply sound_printable in Hs. unfold parseReturnErrorDraft. rewrite trim_stringify, parse_compact by done.
    destruct (stringify (JObj payload)) eqn:E; [done|].
    assert (Htext : forall s, trim s = s -> trim (text_of (jor (Some (JStr s)) (Some (JStr [])))) = s) by (by intros []).
    unfold payload, prop. clear E Hs payload.
    destruct skip; (destruct (truthy code) eqn:Ec; [|apply truthy_false in Ec; subst code]);
      (destruct (truthy type) eqn:Et; [|apply truthy_false in Et; subst type]);
      read_props; cbn [json_to_number]; rewrite Hv; f_equal; rewrite ?Htext by done; try done; by destruct message.
  - intros Ho. unfold buildReturnErrorValueText. cbn [re_message re_simpleMode]. rewrite Hm.
    unfold parseReturnErrorDraft. rewrite Hm. destruct message as [|c u]; [done|].
    destruct (parse (c :: u)) as [[]|]; try done. by destruct (Ho o).
Qed.
Lemma return_error_roundtrip_witness :
  parseReturnErrorDraft (buildReturnErrorValueText (ErrorDraft "no access" (num 403) "denied" [] false false)) =
    ErrorDraft "no access" (num 403) "denied" [] false false.
Proof. apply (return_error_roundtrip "no access" 403%Z "denied" [] false); [by split..|lia]. Defined.

(** A value that is a quoted number is saved as a string, shown without its
    quotes, and becomes a number with the next saving. *)
Lemma quoted_value_changes :
  parseLooseValue "`5`" = JStr "5" /\ shown "`5`" = "5" /\ parseLooseValue (shown "`5`") = JNum (num 5).
Proof. by vm_compute. Qed.

(** * Templates *)

(** JSON values up to the order of keys. *)
Fixpoint before (a b : jsstr) : bool :=
  match a, b with
  | [], _ => true
  | _, [] => false
  | x :: a, y :: b => if (x <? y)%N then true else if (y <? x)%N then false else before a b
  end.
Fixpoint by_key (k : jsstr) (v : json) (o : obj json) : obj json :=
  match o with
  | [] => [(k, v)]
  | (k', v') :: t => if before k k' then (k, v) :: o else (k', v') :: by_key k v t
  end.
Fixpoint canon (v : json) : json :=
  match v with
  | JArr l => JArr (map canon l)
  | JObj o => JObj (fold_right (fun kv acc => by_key kv.1 kv.2 acc) [] (map (fun kv => (kv.1, canon kv.2)) o))
  | _ => v
  end.

(** What the editor makes of a template, up to identifiers. *)
Definition template_rules (p : TemplatePresetConfig) : list ParamOverrideOperation :=
  map operation_of (default [] (operations_array (payload p))).
Definition template_text (p : TemplatePresetConfig) : jsstr :=
  match preset_kind_ p with
  | p_operations => stringify_pretty (saved_json (template_rules p))
  | p_legacy => stringify_pretty (payload p)
  end.
Definition template_fine (p : TemplatePresetConfig) : Prop :=
  match preset_kind_ p with
  | p_operations =>
      default [] (operations_array (payload p)) <> [] /\
      forallb readable (default [] (operations_array (payload p))) = true /\
      map validate_operation (template_rules p) = map (fun _ => None) (template_rules p) /\
      forallb (fun o => negb (isOperationBlank o)) (template_rules p) = true
  | p_legacy => match payload p with JObj o => trim (template_text p) = template_text p /\
                   parse (template_text p) = Some (JObj o) | _ => False end
  end /\
  option_map canon (parse (template_text p)) = Some (canon (payload p)).
Lemma templates_fine : Forall (fun kp => template_fine kp.2) TEMPLATE_PRESET_CONFIG.
Proof.
  repeat (constructor; [unfold template_fine; cbn [snd preset_kind_]; split; [|by vm_compute]; first
    [split; [vm_compute; discriminate|split; [by vm_compute|split; by vm_compute]] | by vm_compute]|]). constructor.
Qed.

Section Templates.
Context (clock : Z -> Z) (t : jsstr -> option nat -> jsstr).

Lemma validate_erase o : validate_operation (erase o) = validate_operation o.
Proof. done. Qed.
Lemma blank_erase o : isOperationBlank (erase o) = isOperationBlank o.
Proof.
  unfold isOperationBlank, erase. cbn. do 2 f_equal. induction (conditions o) as [|c l IH]; [done|]. cbn. by rewrite IH.
Qed.
Lemma map_through {A B} (f : ParamOverrideOperation -> A) (g : ParamOverrideOperation -> B) ops rules :
  map erase ops = rules -> (forall o, f (erase o) = f o) -> map f ops = map f rules.
Proof. intros <- H. rewrite map_map. apply map_ext. intros o. by rewrite H. Qed.

(** Filling in an operations template and saving it gives its own text. *)
Lemma template_saved rules ops :
  map erase ops = rules -> rules <> [] ->
  map validate_operation rules = map (fun _ => None) rules ->
  forallb (fun o => negb (isOperationBlank o)) rules = true ->
  buildOperationsJson t ops true = inr (stringify_pretty (saved_json rules)).
Proof.
  intros He Hne Hv Hb.
  assert (Hnb : forall l, forallb (fun o => negb (isOperationBlank o)) l = true -> not_blank l = l).
  { intros l Hl. apply bfilter_id. intros o Ho. rewrite forallb_forall in Hl. by apply Hl, list_elem_of_In. }
  assert (Hbo : forallb (fun o => negb (isOperationBlank o)) ops = true).
  { subst rules. clear -Hb. induction ops as [|o ops IH]; [done|]. cbn [map forallb] in *. rewrite blank_erase in Hb.
    apply andb_true_iff in Hb as [-> Hb]. by apply IH. }
  assert (Hvo : validateOperations t ops = []).
  { unfold validateOperations. subst rules. generalize 0 as i. clear -Hv.
    induction ops as [|o ops IH]; intros i; [done|]. cbn [map validate_from] in *.
    rewrite validate_erase in Hv. destruct (validate_operation o); [by simplify_eq|]. apply IH. congruence. }
  unfold buildOperationsJson, saved_json. fold (not_blank ops). rewrite (Hnb _ Hb), (Hnb _ Hbo), Hvo.
  assert (Hp : map operation_payload ops = map operation_payload rules).
  { subst rules. rewrite map_map. apply map_ext. intros o. by rewrite payload_erase. }
  rewrite Hp. destruct ops; [by subst|done].
Qed.
End Templates.

(** Every template of the menu can be filled in and saved as it is: the
    dialog closes with a text whose JSON is the template itself, up to the order
    of keys, whatever was in the editor before. *)
Theorem templates_saved_as_given (clock : Z -> Z) (t : jsstr -> option nat -> jsstr) key preset d n :
  (0 <= n)%Z -> obj_get key TEMPLATE_PRESET_CONFIG = Some preset ->
  exists d' n' text v,
    fillTemplate clock t false (set_preset key d) n = Some (d', n') /\
    handleSave t d' = save_and_close text d' /\
    parse text = Some v /\ canon v = canon (payload preset).
Proof.
  intros Hn Hkey. assert (Hf : template_fine preset).
  { pose proof templates_fine as H. rewrite Forall_forall in H. exact (H _ (obj_get_elem _ _ _ Hkey)). }
  destruct Hf as [Hk Hc]. destruct (parse (template_text preset)) as [v|] eqn:Ev; [|done]. injection Hc as Hc.
  unfold fillTemplate. cbn [templatePresetKey set_preset]. rewrite Hkey. change (default operations_default (Some preset)) with preset.
  unfold template_text in Ev. cbv zeta. destruct (preset_kind_ preset) eqn:Ek.
  - destruct Hk as (Hne & Hr & Hv & Hb). unfold template_rules in *.
    set (l := default [] (operations_array (payload preset))) in *.
    destruct (makes_load clock l Hr n Hn) as (ops & n' & E & _ & [_ He] & _). rewrite (run_bind _ _ _ _ _ E).
    eexists _, n', _, v. split; [done|]. split; [|split; [exact Ev|done]].
    unfold handleSave, buildVisualJson. cbn [editor select set_editor editMode visualMode operations].
    rewrite (template_saved t (map operation_of l) ops); try done; [|by destruct l].
    rewrite He. by destruct l.
  - destruct (payload preset) as [| | | | |o] eqn:Ep; try done. destruct Hk as [Ht Hp]. cbn [andb].
    destruct (makes_default clock n Hn) as (op & n' & E & _). rewrite (run_bind _ _ _ _ _ E).
    eexists _, n', _, v. split; [done|]. split; [|split; [exact Ev|done]].
    unfold handleSave, buildVisualJson. cbn [editor set_editor editMode visualMode legacyValue].
    unfold template_text in Ht. rewrite Ek, Ep in Ht. rewrite Ht. injection Hp as ->.
    destruct (stringify_pretty (JObj o)) eqn:E'; [done|]. by rewrite Ev, E'.
Qed.
Lemma templates_saved_as_given_witness :
  exists d' n' text v,
    fillTemplate (fun _ => 1%Z) sample_t false (set_preset "gemini_image_4k" (sample_dialog sample_operations)) 9%Z = Some (d', n') /\
    handleSave sample_t d' = save_and_close text d' /\
    parse text = Some v /\
    canon v = canon (payload (Preset "Gemini Image 4K" p_operations GEMINI_IMAGE_4K_TEMPLATE)).
Proof.
  apply (templates_saved_as_given (fun _ => 1%Z) sample_t "gemini_image_4k"
    (Preset "Gemini Image 4K" p_operations GEMINI_IMAGE_4K_TEMPLATE)); [lia|].
  by vm_compute.
Defined.
End OverrideEditor.
