(* ===== verification/NavModules.v ===== *)
(** The navigation modules: which pages the header and the sidebar show and which
    routes may be opened.

    Module HeaderNav is lib/nav-modules.ts with the guards of routes/pricing and
    routes/rankings and the links of hooks/use-top-nav-links.ts; module
    NavSettings is features/business-settings/site/sections/config.ts with the
    forms header-navigation-section.tsx and sidebar-modules-section.tsx beside
    it; module Sidebar is hooks/use-sidebar-config.ts.  The theorems are in
    [NavModulesProofs].

    Flags are compared after toLowerCase with the words true and false; no
    character outside ASCII has a lower case among their letters, so the lower
    case of ASCII decides the comparison. *)
From Stdlib Require Import Floats.SpecFloat.
From S2P Require Import Prelude JsNumber JsCollections Json JsonText ManagementAccess.

(** [o[k] = v]; the key __proto__ is no own property. *)
Abbreviation assign := ManagementAccess.assign.

(** The sections of the two settings, shared by the modules below. *)
Record ModuleAccess := Access { enabled : bool; requireAuth : bool }.
Inductive NavValue := Flag (b : bool) | Page (a : ModuleAccess).

(** * The header *)

Module HeaderNav.
Inductive HeaderNavModule := rankings | pricing.
Definition module_key (m : HeaderNavModule) : jsstr := match m with rankings => "rankings" | pricing => "pricing" end.
Abbreviation HeaderNavModules := (obj NavValue) (only parsing).
Definition open_page : ModuleAccess := Access true false.
Definition DEFAULT_HEADER_NAV_MODULES : HeaderNavModules :=
  [("home" : jsstr, Flag true); ("console" : jsstr, Flag true); ("pricing" : jsstr, Page open_page);
   ("rankings" : jsstr, Page open_page); ("docs" : jsstr, Flag true); ("about" : jsstr, Flag true)].
Definition page_at (k : jsstr) (m : HeaderNavModules) : ModuleAccess :=
  match obj_get k m with Some (Page a) => a | _ => open_page end.

Definition parse_word (s : jsstr) (fallback : bool) : bool :=
  let normalized := lower (trim s) in
  if str_eqb normalized "true" || str_eqb normalized "1" then true
  else if str_eqb normalized "false" || str_eqb normalized "0" then false
  else fallback.
Definition parseHeaderNavBoolean (raw : option json) (fallback : bool) : bool :=
  match raw with
  | Some (JBool b) => b
  | Some (JNum n) => if num_eqb n (num 1) then true else if num_eqb n (num 0) then false else fallback
  | Some (JStr s) => parse_word s fallback
  | _ => fallback
  end.
Definition parseAccess (raw : json) (fallback : ModuleAccess) : ModuleAccess :=
  match raw with
  | JBool _ | JNum _ | JStr _ => Access (parseHeaderNavBoolean (Some raw) (enabled fallback)) (requireAuth fallback)
  | JObj _ | JArr _ =>
      Access (parseHeaderNavBoolean (prop "enabled" (Some raw)) (enabled fallback))
        (parseHeaderNavBoolean (prop "requireAuth" (Some raw)) (requireAuth fallback))
  | JNull => fallback
  end.
(** Absent when there is nothing to read; a text may hold any JSON. *)
Definition parseHeaderNavRecord (raw : option json) : option json :=
  match raw with
  | Some v =>
      if negb (json_truthy raw) || str_eqb (trim (json_to_string v)) [] then None
      else match v with JObj _ | JArr _ => Some v | _ => parse (json_to_string v) end
  | None => None
  end.
Definition parse_entry (result : HeaderNavModules) (kv : jsstr * json) : HeaderNavModules :=
  let '(key, value) := kv in
  if str_eqb key "pricing" || str_eqb key "rankings" then obj_set key (Page (parseAccess value (page_at key result))) result
  else match obj_get key result, value with
       | Some (Flag fallback), _ => assign key (Flag (parseHeaderNavBoolean (Some value) fallback)) result
       | _, (JBool _ | JNum _ | JStr _) => assign key (Flag (parseHeaderNavBoolean (Some value) true)) result
       | _, _ => result
       end.
Definition parseHeaderNavModules (raw : option json) : HeaderNavModules :=
  match parseHeaderNavRecord raw with
  | Some parsed =>
      if json_truthy (Some parsed) then fold_left parse_entry (own_entries parsed) DEFAULT_HEADER_NAV_MODULES
      else DEFAULT_HEADER_NAV_MODULES
  | None => DEFAULT_HEADER_NAV_MODULES
  end.
(** [status?.HeaderNavModules] *)
Definition parseHeaderNavModulesFromStatus (status : option json) : HeaderNavModules :=
  parseHeaderNavModules (prop "HeaderNavModules" status).

(** The item status of localStorage. *)
Abbreviation storage := (option jsstr) (only parsing).
(** null and what the text says are both absent or a value. *)
Definition non_null (v : json) : option json := match v with JNull => None | _ => Some v end.
Definition getCachedStatus (store : storage) : option json :=
  raw ← store; if truthy raw then parse raw ≫= non_null else None.
Definition cacheStatus (status : option json) (store : storage) : storage :=
  match status with Some v => if json_truthy status then Some (stringify v) else store | None => store end.
Definition getModuleAccessFromStatus (status : option json) (m : HeaderNavModule) : ModuleAccess :=
  page_at (module_key m) (parseHeaderNavModulesFromStatus status).
Definition getModuleAccess (m : HeaderNavModule) (store : storage) : ModuleAccess := getModuleAccessFromStatus (getCachedStatus store) m.

(** The request for the status answers or throws. *)
Inductive StatusAnswer := Answered (status : option json) | Threw.
Definition getFreshModuleAccess (m : HeaderNavModule) (a : StatusAnswer) (store : storage) : ModuleAccess * storage :=
  match a with
  | Answered status => (getModuleAccessFromStatus status m, cacheStatus status store)
  | Threw => (Access false true, store)
  end.

(** [x === false] *)
Definition is_false (v : option json) : bool := match v with Some (JBool false) => true | _ => false end.
Definition isSidebarModuleEnabled (section module : jsstr) (store : storage) : bool :=
  match getCachedStatus store with
  | None => true
  | Some status =>
      if negb (json_truthy (Some status)) then true
      else match prop "SidebarModulesAdmin" (Some status) with
           | None => true
           | Some raw =>
               if negb (json_truthy (Some raw)) || str_eqb (trim (json_to_string raw)) [] then true
               else match parse (json_to_string raw) with
                    | None => true
                    | Some parsed =>
                        let sectionConfig := prop section (Some parsed) in
                        if negb (json_truthy sectionConfig) then true
                        else negb (is_false (prop "enabled" sectionConfig) || is_false (prop module sectionConfig))
                    end
           end
  end.

(** ** Guards and links *)

Inductive Decision := Admit | ToHome | ToSignIn.
(** beforeLoad of /pricing, /pricing/$modelId and /rankings. *)
Definition guard (access : ModuleAccess) (isAuthed : bool) : Decision :=
  if negb (enabled access) then ToHome else if requireAuth access && negb isAuthed then ToSignIn else Admit.

Record TopNavLink := Link { href : jsstr; requiresAuth : bool; external : bool }.
Definition not_false (v : option NavValue) : bool := match v with Some (Flag false) => false | _ => true end.
(** The docs link is a string or missing. *)
Definition useTopNavLinks (status : option json) (docs_link : jsstr) (isAuthed : bool) : list TopNavLink :=
  let modules := parseHeaderNavModulesFromStatus status in
  let page k target :=
    match obj_get k modules with
    | Some (Page a) => if enabled a then [Link target (requireAuth a && negb isAuthed) false] else []
    | _ => []
    end in
  (if not_false (obj_get "home" modules) then [Link "/" false false] else [])
  ++ (if not_false (obj_get "console" modules) then [Link "/dashboard" false false] else [])
  ++ page "pricing" "/pricing" ++ page "rankings" "/rankings"
  ++ (if not_false (obj_get "docs" modules)
      then [if truthy docs_link then Link docs_link false true else Link "/docs" false false] else [])
  ++ (if not_false (obj_get "about" modules) && negb (is_false (prop "about_enabled" status)) then [Link "/about" false false] else []).
End HeaderNav.

(** * The settings *)

Module NavSettings.
Import HeaderNav.
(** [HEADER_NAV_DEFAULT] has the same content as the default of the header. *)
Definition HEADER_NAV_DEFAULT : obj NavValue :=
  [("home" : jsstr, Flag true); ("console" : jsstr, Flag true); ("pricing" : jsstr, Page open_page);
   ("rankings" : jsstr, Page open_page); ("docs" : jsstr, Flag true); ("about" : jsstr, Flag true)].
Definition section_of (modules : list jsstr) : obj bool := map (fun k => (k, true)) (("enabled" : jsstr) :: modules).
Abbreviation SidebarModulesAdminConfig := (obj (obj bool)) (only parsing).
Definition SIDEBAR_MODULES_DEFAULT : SidebarModulesAdminConfig :=
  [("playground" : jsstr, section_of ["playground" : jsstr]);
   ("console" : jsstr, section_of ["detail" : jsstr; "token" : jsstr; "log" : jsstr; "midjourney" : jsstr; "task" : jsstr]);
   ("personal" : jsstr, section_of ["topup" : jsstr; "plans" : jsstr; "customers" : jsstr; "billing" : jsstr; "personal" : jsstr]);
   ("business" : jsstr, section_of ["channels" : jsstr; "models" : jsstr; "users" : jsstr; "billing" : jsstr; "site" : jsstr;
                                   "content" : jsstr; "policies" : jsstr]);
   ("system" : jsstr, section_of ["runtime" : jsstr; "auth" : jsstr; "security" : jsstr; "routing" : jsstr])].

Definition toBoolean (value : option json) (fallback : bool) : bool :=
  match value with
  | Some (JBool b) => b
  | Some (JNum n) => num_eqb n (num 1)
  | Some (JStr s) => parse_word s fallback
  | _ => fallback
  end.
Definition parseAccessModule (raw : json) (fallback : ModuleAccess) : ModuleAccess :=
  match raw with
  | JBool _ | JNum _ | JStr _ => Access (toBoolean (Some raw) (enabled fallback)) (requireAuth fallback)
  | JObj _ | JArr _ =>
      Access (toBoolean (prop "enabled" (Some raw)) (enabled fallback)) (toBoolean (prop "requireAuth" (Some raw)) (requireAuth fallback))
  | JNull => fallback
  end.
Definition settings_entry (result : obj NavValue) (kv : jsstr * json) : obj NavValue :=
  let '(key, raw) := kv in
  if str_eqb key "pricing" || str_eqb key "rankings" then obj_set key (Page (parseAccessModule raw (page_at key HEADER_NAV_DEFAULT))) result
  else match raw with
       | JBool b => assign key (Flag b) result
       | JStr _ | JNum _ =>
           assign key (Flag (toBoolean (Some raw)
             (match obj_get key HEADER_NAV_DEFAULT with Some (Flag b) => b | Some (Page _) => true | None => false end))) result
       | _ => result
       end.
(** Object.entries(null) throws, which is caught. *)
Definition parseHeaderNavModules (value : jsstr) : obj NavValue :=
  if negb (truthy value) then HEADER_NAV_DEFAULT
  else match parse value with
       | Some JNull | None => HEADER_NAV_DEFAULT
       | Some parsed => fold_left settings_entry (own_entries parsed) HEADER_NAV_DEFAULT
       end.
Definition nav_json (v : NavValue) : json :=
  match v with
  | Flag b => JBool b
  | Page a => JObj [("enabled" : jsstr, JBool (enabled a)); ("requireAuth" : jsstr, JBool (requireAuth a))]
  end.
Definition serializeHeaderNavModules (config : obj NavValue) : jsstr := stringify (JObj (map (fun kv => (kv.1, nav_json kv.2)) config)).

(** ** The sidebar *)

Definition section_entry (defaultSection : obj bool) (sectionConfig : obj bool) (kv : jsstr * json) : obj bool :=
  if str_eqb kv.1 "enabled" then sectionConfig
  else match obj_get kv.1 defaultSection with
       | Some fallback => obj_set kv.1 (toBoolean (Some kv.2) fallback) sectionConfig
       | None => sectionConfig
       end.
Definition read_section (defaultSection : obj bool) (raw : json) : obj bool :=
  fold_left (section_entry defaultSection) (entries raw)
    [("enabled" : jsstr, toBoolean (prop "enabled" (Some raw)) (default true (obj_get "enabled" defaultSection)))].
Definition sidebar_entry (result : SidebarModulesAdminConfig) (kv : jsstr * json) : SidebarModulesAdminConfig :=
  match kv.2, obj_get kv.1 SIDEBAR_MODULES_DEFAULT with
  | (JObj _ | JArr _), Some defaultSection => obj_set kv.1 (read_section defaultSection kv.2) result
  | _, _ => result
  end.
Definition add_module (section : obj bool) (kv : jsstr * bool) : obj bool :=
  if obj_get kv.1 section is Some _ then section else obj_set kv.1 kv.2 section.
Definition add_section (result : SidebarModulesAdminConfig) (kv : jsstr * obj bool) : SidebarModulesAdminConfig :=
  match obj_get kv.1 result with
  | None => obj_set kv.1 kv.2 result
  | Some section => obj_set kv.1 (fold_left add_module kv.2 section) result
  end.
Definition parseSidebarModulesAdmin (value : jsstr) : SidebarModulesAdminConfig :=
  if negb (truthy value) || str_eqb (trim value) [] then SIDEBAR_MODULES_DEFAULT
  else match parse value with
       | Some JNull | None => SIDEBAR_MODULES_DEFAULT
       | Some parsed => fold_left add_section SIDEBAR_MODULES_DEFAULT (fold_left sidebar_entry (own_entries parsed) [])
       end.
Definition section_json (s : obj bool) : json := JObj (map (fun kv => (kv.1, JBool kv.2)) s).
Definition serializeSidebarModulesAdmin (config : SidebarModulesAdminConfig) : jsstr :=
  stringify (JObj (map (fun kv => (kv.1, section_json kv.2)) config)).

(** A switch of the form: sectionKey.moduleKey. *)
Definition switch (section module : jsstr) (b : bool) (config : SidebarModulesAdminConfig) : SidebarModulesAdminConfig :=
  match obj_get section config with Some s => obj_set section (obj_set module b s) config | None => config end.

(** The form is changed by its switches and by resetting it. *)
Inductive SidebarEdit := Switch (section module : jsstr) (b : bool) | ResetToDefault.
Definition sidebar_edit (config : SidebarModulesAdminConfig) (e : SidebarEdit) : SidebarModulesAdminConfig :=
  match e with Switch section module b => switch section module b config | ResetToDefault => SIDEBAR_MODULES_DEFAULT end.
(** The form opened on the stored text, and the value submitting it sends. *)
Definition sidebar_form (stored : jsstr) (edits : list SidebarEdit) : SidebarModulesAdminConfig :=
  fold_left sidebar_edit edits (parseSidebarModulesAdmin stored).
Definition sidebar_onSubmit (stored : jsstr) (values : SidebarModulesAdminConfig) : option jsstr :=
  let initialSerialized := serializeSidebarModulesAdmin (parseSidebarModulesAdmin stored) in
  let serialized := serializeSidebarModulesAdmin values in
  if str_eqb serialized initialSerialized then None else Some serialized.

(** ** The form of the header *)

Record HeaderNavFormValues := FormValues {
  home : bool; console : bool; pricing_page : ModuleAccess; rankings_page : ModuleAccess; docs : bool; about : bool }.
Definition flag_at (k : jsstr) (config : obj NavValue) : bool :=
  match obj_get k config with Some (Flag b) => b | Some (Page _) => true | None => true end.
Definition toFormValues (config : obj NavValue) : HeaderNavFormValues :=
  FormValues (flag_at "home" config) (flag_at "console" config) (page_at "pricing" config) (page_at "rankings" config)
    (flag_at "docs" config) (flag_at "about" config).
(** The payload of onSubmit. *)
Definition payload (config : obj NavValue) (v : HeaderNavFormValues) : obj NavValue :=
  obj_set "rankings" (Page (rankings_page v))
    (obj_set "pricing" (Page (pricing_page v))
       (obj_set "about" (Flag (about v))
          (obj_set "docs" (Flag (docs v)) (obj_set "console" (Flag (console v)) (obj_set "home" (Flag (home v)) config))))).
Definition header_onSubmit (stored : jsstr) (values : HeaderNavFormValues) : option jsstr :=
  let config := parseHeaderNavModules stored in
  let serialized := serializeHeaderNavModules (payload config values) in
  if str_eqb serialized (serializeHeaderNavModules config) then None else Some serialized.
End NavSettings.

(** * The sidebar *)

Module Sidebar.
Definition DEFAULT_SIDEBAR_MODULES : obj (obj bool) :=
  [("playground" : jsstr, [("enabled" : jsstr, true); ("playground" : jsstr, true)]);
   ("console" : jsstr, [("enabled" : jsstr, true); ("detail" : jsstr, true); ("token" : jsstr, true); ("log" : jsstr, true);
                        ("midjourney" : jsstr, true); ("task" : jsstr, true)]);
   ("personal" : jsstr, [("enabled" : jsstr, true); ("topup" : jsstr, true); ("plans" : jsstr, true); ("customers" : jsstr, true);
                         ("billing" : jsstr, true); ("personal" : jsstr, true)]);
   ("business" : jsstr, [("enabled" : jsstr, true); ("channels" : jsstr, true); ("models" : jsstr, true); ("users" : jsstr, true);
                         ("billing" : jsstr, true); ("site" : jsstr, true); ("content" : jsstr, true); ("policies" : jsstr, true)]);
   ("system" : jsstr, [("enabled" : jsstr, true); ("runtime" : jsstr, true); ("auth" : jsstr, true); ("security" : jsstr, true);
                       ("routing" : jsstr, true)])].

(** What is read from a text is any JSON, so sections are JSON values. *)
Abbreviation SidebarConfig := (obj json) (only parsing).
Definition flags_json (s : obj bool) : obj json := map (fun kv => (kv.1, JBool kv.2)) s.
Definition default_config : SidebarConfig := map (fun kv => (kv.1, JObj (flags_json kv.2))) DEFAULT_SIDEBAR_MODULES.

(** [{ ...a, ...b }] *)
Definition spread_over (a b : obj json) : obj json := fold_left (fun o kv => obj_set kv.1 kv.2 o) b a.
Definition fill_module (section : obj json) (kv : jsstr * json) : obj json :=
  match obj_get kv.1 section with Some _ => section | None => obj_set kv.1 kv.2 section end.
Definition merge_section (merged : SidebarConfig) (kv : jsstr * obj bool) : SidebarConfig :=
  let '(sectionKey, defaultSection) := kv in
  match obj_get sectionKey merged with
  | Some existingSection =>
      if json_truthy (Some existingSection)
      then obj_set sectionKey
             (JObj (fold_left fill_module (flags_json defaultSection) (spread_over (flags_json defaultSection) (own_entries existingSection))))
             merged
      else obj_set sectionKey (JObj (flags_json defaultSection)) merged
  | None => obj_set sectionKey (JObj (flags_json defaultSection)) merged
  end.
Definition mergeWithDefaultSidebarModules (config : json) : SidebarConfig :=
  fold_left merge_section DEFAULT_SIDEBAR_MODULES (own_entries config).

Definition parseSidebarConfig (value : option jsstr) : SidebarConfig :=
  match value with
  | Some v =>
      if negb (truthy v) || str_eqb (trim v) [] then default_config
      else match parse v with Some parsed => mergeWithDefaultSidebarModules parsed | None => default_config end
  | None => default_config
  end.
Definition parseUserSidebarConfig (value : option jsstr) : option json :=
  match value with
  | Some v =>
      if negb (truthy v) || str_eqb (trim v) [] then None
      else match parse v with Some ((JObj _ | JArr _) as parsed) => Some parsed | _ => None end
  | None => None
  end.

Abbreviation mapping := (jsstr * jsstr)%type (only parsing).
Definition URL_TO_CONFIG_MAP : list (jsstr * mapping) :=
  [("/playground" : jsstr, ("playground" : jsstr, "playground" : jsstr));
   ("/dashboard" : jsstr, ("console" : jsstr, "detail" : jsstr));
   ("/dashboard/overview" : jsstr, ("console" : jsstr, "detail" : jsstr));
   ("/dashboard/models" : jsstr, ("console" : jsstr, "detail" : jsstr));
   ("/dashboard/users" : jsstr, ("console" : jsstr, "detail" : jsstr));
   ("/keys" : jsstr, ("console" : jsstr, "token" : jsstr));
   ("/usage-logs" : jsstr, ("console" : jsstr, "log" : jsstr));
   ("/usage-logs/common" : jsstr, ("console" : jsstr, "log" : jsstr));
   ("/usage-logs/drawing" : jsstr, ("console" : jsstr, "midjourney" : jsstr));
   ("/usage-logs/task" : jsstr, ("console" : jsstr, "task" : jsstr));
   ("/wallet" : jsstr, ("personal" : jsstr, "topup" : jsstr));
   ("/plans" : jsstr, ("personal" : jsstr, "plans" : jsstr));
   ("/customers" : jsstr, ("personal" : jsstr, "customers" : jsstr));
   ("/billing" : jsstr, ("personal" : jsstr, "billing" : jsstr));
   ("/profile" : jsstr, ("personal" : jsstr, "personal" : jsstr));
   ("/business-settings" : jsstr, ("business" : jsstr, "billing" : jsstr));
   ("/business-settings/billing" : jsstr, ("business" : jsstr, "billing" : jsstr));
   ("/business-settings/site" : jsstr, ("business" : jsstr, "site" : jsstr));
   ("/business-settings/content" : jsstr, ("business" : jsstr, "content" : jsstr));
   ("/business-settings/policies" : jsstr, ("business" : jsstr, "policies" : jsstr));
   ("/users" : jsstr, ("business" : jsstr, "users" : jsstr));
   ("/redemption-codes" : jsstr, ("business" : jsstr, "users" : jsstr));
   ("/subscriptions" : jsstr, ("business" : jsstr, "users" : jsstr));
   ("/discounts" : jsstr, ("business" : jsstr, "billing" : jsstr));
   ("/channels" : jsstr, ("business" : jsstr, "channels" : jsstr));
   ("/models" : jsstr, ("business" : jsstr, "models" : jsstr));
   ("/models/metadata" : jsstr, ("business" : jsstr, "models" : jsstr));
   ("/models/deployments" : jsstr, ("business" : jsstr, "models" : jsstr));
   ("/system-info" : jsstr, ("system" : jsstr, "runtime" : jsstr));
   ("/system-settings" : jsstr, ("system" : jsstr, "runtime" : jsstr));
   ("/system-settings/auth" : jsstr, ("system" : jsstr, "auth" : jsstr));
   ("/system-settings/models" : jsstr, ("system" : jsstr, "routing" : jsstr));
   ("/system-settings/security" : jsstr, ("system" : jsstr, "security" : jsstr));
   ("/system-settings/operations" : jsstr, ("system" : jsstr, "runtime" : jsstr))].

(** The prefix ends where a path segment ends. *)
Definition at_or_under (prefix url : jsstr) : bool := str_eqb url prefix || starts_with (prefix ++ "/") url.
Definition mapping_step (url : jsstr) (best : option mapping * Z) (entry : jsstr * mapping) : option mapping * Z :=
  let '(matched, matchedLength) := best in
  if (Z.of_nat (length entry.1) <=? matchedLength)%Z then best
  else if at_or_under entry.1 url then (Some entry.2, Z.of_nat (length entry.1)) else best.
Definition findConfigMapping (url : jsstr) : option mapping := (fold_left (mapping_step url) URL_TO_CONFIG_MAP (None, (-1)%Z)).1.

(** [x === true] *)
Definition is_true (v : option json) : bool := match v with Some (JBool true) => true | _ => false end.
(** The two layers on one module of a section. *)
Definition admin_allows (adminConfig : SidebarConfig) (section module : jsstr) : bool :=
  let adminSection := obj_get section adminConfig in
  json_truthy adminSection && json_truthy (prop "enabled" adminSection) && is_true (prop module adminSection).
Definition user_allows (userConfig : option json) (section module : jsstr) : bool :=
  match userConfig with
  | None => true
  | Some _ =>
      let userSection := prop section userConfig in
      if negb (json_truthy userSection) then true
      else if HeaderNav.is_false (prop "enabled" userSection) then false
      else negb (HeaderNav.is_false (prop module userSection))
  end.
Definition isModuleEnabled (url : jsstr) (adminConfig : SidebarConfig) (userConfig : option json) : bool :=
  match findConfigMapping url with
  | None => false
  | Some (section, module) => admin_allows adminConfig section module && user_allows userConfig section module
  end.

(** ** Items *)

Record BaseNavItem := Base {
  title : jsstr; activeUrls : list jsstr; configUrls : option (list jsstr); requiredRole : option jsnum }.
Record NavSubItem := SubItem { sub_base : BaseNavItem; sub_url : jsstr }.
Inductive NavItem :=
| NavLink (b : BaseNavItem) (url : jsstr)
| NavCollapsible (b : BaseNavItem) (items : list NavSubItem)
| NavChatPresets (b : BaseNavItem).
Record NavGroup := Group { id : jsstr; items : list NavItem }.

Definition isNavItemVisible (item : NavItem) (adminConfig : SidebarConfig) (userConfig : option json) : bool :=
  match item with
  | NavChatPresets _ => admin_allows adminConfig "chat" "chat" && user_allows userConfig "chat" "chat"
  | NavLink b url =>
      if truthy url then existsb (fun u => isModuleEnabled u adminConfig userConfig) (default [url] (configUrls b)) else true
  | NavCollapsible _ its => existsb (fun s => isModuleEnabled (sub_url s) adminConfig userConfig) its
  end.
Definition narrow_item (adminConfig : SidebarConfig) (userConfig : option json) (item : NavItem) : NavItem :=
  match item with
  | NavCollapsible b its => NavCollapsible b (List.filter (fun s => isModuleEnabled (sub_url s) adminConfig userConfig) its)
  | _ => item
  end.
Definition filterNavItems (its : list NavItem) (adminConfig : SidebarConfig) (userConfig : option json) : list NavItem :=
  List.filter (fun item => isNavItemVisible item adminConfig userConfig) (map (narrow_item adminConfig userConfig) its).

(** What the hook reads of the signed-in user: permissions.sidebar_settings and
    sidebar_modules. *)
Record SidebarUser := User { sidebar_settings : option bool; sidebar_modules : option jsstr }.
Definition user_config (user : option SidebarUser) : option json :=
  if bool_decide ((user ≫= sidebar_settings) = Some false) then None else parseUserSidebarConfig (user ≫= sidebar_modules).
Definition useSidebarConfig (navGroups : list NavGroup) (SidebarModulesAdmin : option jsstr) (user : option SidebarUser) : list NavGroup :=
  let adminConfig := parseSidebarConfig SidebarModulesAdmin in
  List.filter (fun g => negb (Nat.eqb (length (items g)) 0))
    (map (fun g => Group (id g) (filterNavItems (items g) adminConfig (user_config user))) navGroups).
Definition useIsSidebarModuleVisible (url : jsstr) (SidebarModulesAdmin : option jsstr) (user : option SidebarUser) : bool :=
  isModuleEnabled url (parseSidebarConfig SidebarModulesAdmin) (user_config user).
End Sidebar.
