(* ===== verification/NavModulesProofs.v ===== *)
(** The theorems on the navigation modules: module SidebarGates shows that the
    sidebar enforces exactly what the settings form and the editor of
    management access store, module HeaderGates the same of the header and the
    guards of its pages. *)
From Stdlib Require Import Floats.SpecFloat.
From S2P Require Import Prelude JsNumber JsCollections Json JsonText Permissions ManagementAccess NavModules.

(** * Loops that build an object key by key *)

(** A step that touches only its own key acts on each key at most once. *)
Lemma fold_local {A B} (step : obj A -> jsstr * B -> obj A) (f : jsstr -> B -> option A -> option A) :
  (forall r k v k', obj_get k' (step r (k, v)) = if str_eqb k' k then f k v (obj_get k r) else obj_get k' r) ->
  forall l r k, NoDup l.*1 ->
  obj_get k (fold_left step l r) = match obj_get k l with Some v => f k v (obj_get k r) | None => obj_get k r end.
Proof.
  intros Hs. induction l as [|[x v] l IH]; intros r k Hd; [done|]. csimpl in *. apply NoDup_cons in Hd as [Hx Hd].
  cbn [fold_left obj_get]. rewrite IH, Hs by done. destruct (str_eqb k x) eqn:E; [|done].
  apply str_eqb_true in E as ->. by rewrite (proj2 (obj_get_none x l) Hx).
Qed.

Lemma get_map {A B} (g : A -> B) k (o : obj A) : obj_get k (map (fun kv => (kv.1, g kv.2)) o) = g <$> obj_get k o.
Proof. induction o as [|[x v] o IH]; [done|]. cbn. by destruct (str_eqb k x). Qed.
Lemma map_keys {A B} (g : A -> B) (o : obj A) : (map (fun kv => (kv.1, g kv.2)) o).*1 = o.*1.
Proof. induction o as [|e o IH]; [done|]. csimpl. by f_equal. Qed.
Lemma get_assign {A} k k' (v : A) o :
  obj_get k (assign k' v o) = if str_eqb k k' then (if str_eqb k' "__proto__" then obj_get k o else Some v) else obj_get k o.
Proof.
  unfold ManagementAccess.assign. destruct (str_eqb k' "__proto__") eqn:E; [by destruct (str_eqb k k')|].
  apply obj_get_set.
Qed.

(** * The sidebar *)

Module SidebarGates.
Import NavSettings Sidebar.

(** ** Merging with the default *)

Lemma get_spread_over k (a b : obj json) : NoDup b.*1 ->
  obj_get k (spread_over a b) = match obj_get k b with Some v => Some v | None => obj_get k a end.
Proof. intros H. unfold spread_over. rewrite (fold_local _ (fun _ v _ => Some v)); [done| |done]. intros. apply obj_get_set. Qed.
Lemma get_fill k (l a : obj json) : NoDup l.*1 ->
  obj_get k (fold_left fill_module l a) = match obj_get k a with Some v => Some v | None => obj_get k l end.
Proof.
  intros H. rewrite (fold_local _ (fun _ v o => match o with Some w => Some w | None => Some v end)); [|clear|done].
  - destruct (obj_get k a), (obj_get k l); done.
  - intros r x v k'. unfold fill_module. cbn [fst snd]. destruct (obj_get x r) eqn:E; [|apply obj_get_set].
    destruct (str_eqb k' x) eqn:Ek; [|done]. by apply str_eqb_true in Ek as ->.
Qed.

(** The section a merged configuration has at a key of the default. *)
Definition merged_section (defaultSection : obj bool) (existing : option json) : json :=
  match existing with
  | Some e => if json_truthy existing
              then JObj (fold_left fill_module (flags_json defaultSection) (spread_over (flags_json defaultSection) (own_entries e)))
              else JObj (flags_json defaultSection)
  | None => JObj (flags_json defaultSection)
  end.
Lemma merge_section_step r k d k' :
  obj_get k' (merge_section r (k, d)) = if str_eqb k' k then Some (merged_section d (obj_get k r)) else obj_get k' r.
Proof.
  cbn [merge_section]. unfold merged_section.
  destruct (obj_get k r) as [e|]; [destruct (json_truthy (Some e))|]; apply obj_get_set.
Qed.
Lemma defaults_distinct : NoDup DEFAULT_SIDEBAR_MODULES.*1 /\ Forall (fun e => NoDup e.2.*1) DEFAULT_SIDEBAR_MODULES.
Proof. apply (bool_decide_unpack _). vm_compute. exact I. Qed.
Lemma get_merged k config :
  obj_get k (mergeWithDefaultSidebarModules config) =
  match obj_get k DEFAULT_SIDEBAR_MODULES with
  | Some d => Some (merged_section d (obj_get k (own_entries config)))
  | None => obj_get k (own_entries config)
  end.
Proof.
  unfold mergeWithDefaultSidebarModules. rewrite (fold_local _ (fun _ d o => Some (merged_section d o))); [done|exact merge_section_step|].
  apply defaults_distinct.
Qed.
(** The flags of a merged section: those stored, then the default ones. *)
Lemma merged_flag d s m : NoDup d.*1 -> NoDup s.*1 ->
  prop m (Some (merged_section d (Some (section_json s)))) =
  match obj_get m s with Some b => Some (JBool b) | None => JBool <$> obj_get m d end.
Proof.
  intros Hd Hs. cbn [merged_section section_json json_truthy own_entries entries prop].
  rewrite get_fill, get_spread_over by (unfold flags_json; by rewrite map_keys). unfold flags_json. rewrite !get_map.
  by destruct (obj_get m s), (obj_get m d).
Qed.

(** ** The form *)

(** In property order with every section and switch of the default. *)
Definition form_ok (config : SidebarModulesAdminConfig) : Prop :=
  canonical config /\ Forall (fun e => canonical e.2) config /\
  forall sk d, obj_get sk DEFAULT_SIDEBAR_MODULES = Some d ->
    exists s, obj_get sk config = Some s /\ forall m, is_Some (obj_get m d) -> is_Some (obj_get m s).
(** What the form shows of a module: the switch of its section and its own. *)
Definition switched_on (config : SidebarModulesAdminConfig) (section module : jsstr) : bool :=
  match obj_get section config with
  | Some s => bool_decide (obj_get "enabled" s = Some true) && bool_decide (obj_get module s = Some true)
  | None => false
  end.

Lemma defaults_agree : SIDEBAR_MODULES_DEFAULT = DEFAULT_SIDEBAR_MODULES.
Proof. reflexivity. Qed.
Lemma plain_canonical {A} (o : obj A) : bool_decide (NoDup o.*1 /\ Forall (fun k => index_key k = None) o.*1) = true -> canonical o.
Proof.
  intros [Hd Hf]%bool_decide_eq_true. split; [done|]. clear Hd. induction o as [|e o IH]; [constructor|].
  csimpl in Hf. apply Forall_cons in Hf as [He Hf]. constructor; [by apply IH|].
  rewrite Forall_fmap in Hf. eapply Forall_impl; [exact Hf|]. intros x Hx. unfold compose in Hx. unfold key_before. by rewrite Hx.
Qed.
Lemma default_form_ok : form_ok SIDEBAR_MODULES_DEFAULT.
Proof.
  split_and!; [by apply plain_canonical|by repeat (constructor; [by apply plain_canonical|])|].
  intros sk d H. exists d. by rewrite defaults_agree.
Qed.

Lemma set_sections_canonical k s (config : SidebarModulesAdminConfig) :
  canonical s -> canonical config /\ Forall (fun e => canonical e.2) config ->
  canonical (obj_set k s config) /\ Forall (fun e => canonical e.2) (obj_set k s config).
Proof.
  intros Hs [Hc Hf]. split; [by apply obj_set_canonical|]. apply Forall_forall. intros x [->|Hx]%elem_obj_set; [done|].
  rewrite Forall_forall in Hf. by apply Hf.
Qed.
Lemma get_section_canonical k s (config : SidebarModulesAdminConfig) :
  Forall (fun e => canonical e.2) config -> obj_get k config = Some s -> canonical s.
Proof. intros Hf H%obj_get_elem. rewrite Forall_forall in Hf. exact (Hf _ H). Qed.
Lemma fold_keeps {A B} (P : A -> Prop) (step : A -> B -> A) : (forall a b, P a -> P (step a b)) -> forall l a, P a -> P (fold_left step l a).
Proof. intros H. induction l as [|b l IH]; intros a Ha; [done|]. apply IH, H, Ha. Qed.

Lemma read_section_canonical d v : canonical (read_section d v).
Proof.
  unfold read_section. apply fold_keeps; [|by apply plain_canonical].
  intros s [k x] Hs. unfold section_entry. cbn [fst snd]. destruct (str_eqb k "enabled"); [done|].
  destruct (obj_get k d); [by apply obj_set_canonical|done].
Qed.
Lemma entries_canonical l r :
  canonical r /\ Forall (fun e => canonical e.2) r ->
  canonical (fold_left sidebar_entry l r) /\ Forall (fun e => canonical e.2) (fold_left sidebar_entry l r).
Proof.
  apply (fold_keeps (fun r => canonical r /\ Forall (fun e => canonical e.2) r)). intros c [k v] Hc. unfold sidebar_entry. cbn [fst snd].
  destruct v, (obj_get k SIDEBAR_MODULES_DEFAULT); try done; (apply set_sections_canonical; [apply read_section_canonical|done]).
Qed.
Lemma get_add_module k (l a : obj bool) : NoDup l.*1 ->
  obj_get k (fold_left add_module l a) = match obj_get k a with Some v => Some v | None => obj_get k l end.
Proof.
  intros H. rewrite (fold_local _ (fun _ v o => match o with Some w => Some w | None => Some v end)); [|clear|done].
  - destruct (obj_get k a), (obj_get k l); done.
  - intros r x v k'. unfold add_module. cbn [fst snd]. destruct (obj_get x r) eqn:E; [|apply obj_get_set].
    destruct (str_eqb k' x) eqn:Ek; [|done]. by apply str_eqb_true in Ek as ->.
Qed.
Lemma add_section_step r k d k' :
  obj_get k' (add_section r (k, d)) =
  if str_eqb k' k then Some (match obj_get k r with Some s => fold_left add_module d s | None => d end) else obj_get k' r.
Proof. unfold add_section. cbn [fst snd]. destruct (obj_get k r); apply obj_get_set. Qed.
Lemma completed_ok r :
  canonical r /\ Forall (fun e => canonical e.2) r -> form_ok (fold_left add_section SIDEBAR_MODULES_DEFAULT r).
Proof.
  intros Hr. rewrite defaults_agree.
  assert (Hc : canonical (fold_left add_section DEFAULT_SIDEBAR_MODULES r) /\
               Forall (fun e => canonical e.2) (fold_left add_section DEFAULT_SIDEBAR_MODULES r)).
  { assert (Hd : Forall (fun e => canonical e.2) DEFAULT_SIDEBAR_MODULES) by apply default_form_ok.
    revert r Hr. induction Hd as [|[k d] l Hd Hl IH]; intros r Hr; [done|]. apply IH. unfold add_section. cbn [fst snd] in *.
    destruct (obj_get k r) as [s|] eqn:E; [|by apply set_sections_canonical]. apply set_sections_canonical; [|done].
    apply fold_keeps; [|by eapply get_section_canonical; [apply Hr|]]. intros a [x b] Ha. unfold add_module. cbn [fst snd].
    destruct (obj_get x a); [done|by apply obj_set_canonical]. }
  split; [apply Hc|]. split; [apply Hc|]. intros sk d Hd.
  rewrite (fold_local _ (fun _ d o => Some (match o with Some s => fold_left add_module d s | None => d end)))
    by (apply add_section_step || apply defaults_distinct).
  rewrite Hd. eexists. split; [done|]. intros m Hm. destruct (obj_get sk r) as [s0|]; [|done].
  assert (Hn : NoDup d.*1).
  { destruct defaults_distinct as [_ Hf]. apply obj_get_elem in Hd. rewrite Forall_forall in Hf. exact (Hf _ Hd). }
  rewrite get_add_module by done. by destruct (obj_get m s0).
Qed.
Lemma parsed_form_ok stored : form_ok (parseSidebarModulesAdmin stored).
Proof.
  unfold parseSidebarModulesAdmin. destruct (negb (truthy stored) || str_eqb (trim stored) []); [apply default_form_ok|].
  assert (H : forall v, form_ok (fold_left add_section SIDEBAR_MODULES_DEFAULT (fold_left sidebar_entry (own_entries v) []))).
  { intros v. apply completed_ok, entries_canonical. split; [apply canonical_nil|constructor]. }
  destruct (parse stored) as [[]|]; first [apply default_form_ok|apply H].
Qed.
Lemma edit_form_ok config e : form_ok config -> form_ok (sidebar_edit config e).
Proof.
  intros (Hc & Hf & Hd). destruct e as [sk m b|]; [|apply default_form_ok]. cbn [sidebar_edit]. unfold switch.
  destruct (obj_get sk config) as [s|] eqn:E; [|done].
  destruct (set_sections_canonical sk (obj_set m b s) config) as [Hc' Hf'];
    [by apply obj_set_canonical; eapply get_section_canonical|done|].
  split; [done|]. split; [done|]. intros k d Hk. destruct (Hd k d Hk) as (s0 & Hs0 & Hm0). rewrite obj_get_set.
  destruct (str_eqb k sk) eqn:Ek; [|by exists s0]. apply str_eqb_true in Ek as ->. simplify_eq. eexists. split; [done|].
  intros x Hx. rewrite obj_get_set. destruct (str_eqb x m); [done|by apply Hm0].
Qed.
Lemma sidebar_form_ok stored edits : form_ok (sidebar_form stored edits).
Proof. unfold sidebar_form. apply fold_keeps; [apply edit_form_ok|apply parsed_form_ok]. Qed.

(** ** What the texts say *)

Lemma object_text_read o : storable (JObj o) ->
  parse (stringify (JObj o)) = Some (JObj o) /\
  negb (truthy (stringify (JObj o))) || str_eqb (trim (stringify (JObj o))) [] = false.
Proof.
  intros H. split; [by apply parse_stringify|].
  assert (Ht : trim (stringify (JObj o)) <> []) by (apply (trim_nonempty _ 123%N); [left|done]).
  by rewrite (proj2 (str_eqb_false _ _) Ht).
Qed.
Lemma section_storable s : canonical s -> storable (section_json s).
Proof.
  intros Hs. constructor; [|by apply canonical_ok, canonical_map].
  apply Forall_forall. intros x (e & -> & _)%elem_of_map. constructor.
Qed.
Definition form_json (config : SidebarModulesAdminConfig) : json := JObj (map (fun kv => (kv.1, section_json kv.2)) config).
Lemma form_storable config : form_ok config -> storable (form_json config).
Proof.
  intros (Hc & Hf & _). constructor; [|by apply canonical_ok, canonical_map].
  apply Forall_forall. intros x (e & -> & He)%elem_of_map. rewrite Forall_forall in Hf. apply section_storable, Hf, He.
Qed.

(** A module the settings know. *)
Definition known (section module : jsstr) : Prop :=
  exists d, obj_get section DEFAULT_SIDEBAR_MODULES = Some d /\ is_Some (obj_get module d) /\ is_Some (obj_get "enabled" d).
Definition known_b (e : mapping) : bool :=
  match obj_get e.1 DEFAULT_SIDEBAR_MODULES with
  | Some d => bool_decide (is_Some (obj_get e.2 d)) && bool_decide (is_Some (obj_get "enabled" d))
  | None => false
  end.
Lemma table_known e : e ∈ URL_TO_CONFIG_MAP -> known e.2.1 e.2.2.
Proof.
  assert (H : Forall (fun e => known_b e.2 = true) URL_TO_CONFIG_MAP) by (apply (bool_decide_unpack _); vm_compute; exact I).
  intros He. eapply Forall_forall in H; [|exact He]. revert H. unfold known_b, known. destruct (obj_get e.2.1 DEFAULT_SIDEBAR_MODULES) as [d|]. 2:{ done. }
  intros [H1%bool_decide_eq_true H2%bool_decide_eq_true]%andb_prop. by exists d.
Qed.

(** What the sidebar reads from the text of a form is what the form shows. *)
Lemma form_enforced config section module :
  form_ok config -> known section module ->
  admin_allows (parseSidebarConfig (Some (serializeSidebarModulesAdmin config))) section module = switched_on config section module.
Proof.
  intros Hok (d & Hd & Hm & He). destruct (object_text_read _ (form_storable _ Hok)) as [Hp Ht].
  unfold parseSidebarConfig, serializeSidebarModulesAdmin. rewrite Ht, Hp. unfold admin_allows. rewrite get_merged, Hd.
  cbn [own_entries entries]. rewrite get_map. destruct Hok as (Hc & Hf & Hcomplete).
  destruct (Hcomplete _ _ Hd) as (s & Hs & Hall). unfold switched_on. rewrite Hs. cbn [fmap option_fmap option_map].
  assert (Hdd : NoDup d.*1).
  { destruct defaults_distinct as [_ Hdf]. apply obj_get_elem in Hd. rewrite Forall_forall in Hdf. exact (Hdf _ Hd). }
  assert (Hn : NoDup s.*1) by (exact (proj1 (get_section_canonical section s config Hf Hs))).
  rewrite !merged_flag by done.
  destruct (Hall _ Hm) as [bm ->], (Hall _ He) as [be ->]. by destruct be, bm.
Qed.

(** What the editor of management access says of a module. *)
Definition granted (c : obj (obj bool)) (section module : jsstr) : bool :=
  match obj_get section c with
  | Some s => ManagementAccess.not_false (Some s) "enabled" && ManagementAccess.not_false (Some s) module
  | None => true
  end.
Lemma user_text_enforced c section module :
  ManagementAccess.config_ok c ->
  user_allows (parseUserSidebarConfig (Some (ManagementAccess.serializeSidebarModules c))) section module = granted c section module.
Proof.
  intros Hok. destruct (object_text_read _ (ManagementAccess.config_storable c Hok)) as [Hp Ht].
  unfold parseUserSidebarConfig, ManagementAccess.serializeSidebarModules, ManagementAccess.config_json in *. rewrite Ht, Hp.
  unfold user_allows, granted. cbn [prop]. rewrite get_map. destruct (obj_get section c) as [s|]; [|done].
  cbn [fmap option_fmap option_map json_truthy negb ManagementAccess.section_json prop]. rewrite !get_map.
  unfold ManagementAccess.not_false. cbn [mbind option_bind].
  destruct (obj_get "enabled" s) as [[]|], (obj_get module s) as [[]|]; reflexivity.
Qed.

(** ** The longest prefix *)

(** The prefix is the path or one of the path's ancestors. *)
Definition under (p url : jsstr) : Prop := url = p \/ exists r, url = p ++ "/" ++ r.
Definition maps_to (url : jsstr) (m : mapping) : Prop :=
  exists p, (p, m) ∈ URL_TO_CONFIG_MAP /\ under p url /\
            forall p' m', (p', m') ∈ URL_TO_CONFIG_MAP -> under p' url -> length p' <= length p.

Lemma at_or_under_spec p url : at_or_under p url = true <-> under p url.
Proof. unfold at_or_under, under. rewrite orb_true_iff, str_eqb_true, starts_with_spec. by setoid_rewrite <- (assoc_L app). Qed.
Lemma at_or_under_prefix p url : at_or_under p url = true -> exists r, url = p ++ r.
Proof.
  rewrite at_or_under_spec. intros [->|[r ->]]; [exists []; by rewrite app_nil_r|by eexists].
Qed.
(** The entry kept while the table is walked. *)
Lemma walk_longest url l :
  match fold_left (mapping_step url) l (None, (-1)%Z) with
  | (None, n) => n = (-1)%Z /\ Forall (fun e => at_or_under e.1 url = false) l
  | (Some m, n) => exists p, (p, m) ∈ l /\ at_or_under p url = true /\ n = Z.of_nat (length p) /\
                             Forall (fun e => at_or_under e.1 url = true -> length e.1 <= length p) l
  end.
Proof.
  induction l as [|[q mq] l IH] using rev_ind; [done|]. rewrite fold_left_app.
  destruct (fold_left (mapping_step url) l (None, (-1)%Z)) as [[m|] n]; cbn [fold_left mapping_step fst snd].
  - destruct IH as (p & Hp & Hu & -> & Hf).
    destruct (Z.of_nat (length q) <=? Z.of_nat (length p))%Z eqn:El; [|apply Z.leb_gt in El; destruct (at_or_under q url) eqn:Eq].
    + apply Z.leb_le in El. exists p. rewrite elem_of_app, Forall_app. repeat split; [by left|done..|].
      constructor; [|done]. cbn. lia.
    + exists q. rewrite elem_of_app, Forall_app. repeat split; [right; by left|done| |by constructor].
      eapply Forall_impl; [exact Hf|]. cbn. intros e He H. specialize (He H). lia.
    + exists p. rewrite elem_of_app, Forall_app. repeat split; [by left|done..|]. constructor; [|done]. cbn. congruence.
  - destruct IH as [-> Hf]. replace (Z.of_nat (length q) <=? -1)%Z with false by (symmetry; apply Z.leb_gt; lia).
    destruct (at_or_under q url) eqn:Eq.
    + exists q. rewrite elem_of_app, Forall_app. repeat split; [right; by left|done| |by constructor].
      eapply Forall_impl; [exact Hf|]. cbn. congruence.
    + split; [done|]. rewrite Forall_app. split; [done|by constructor].
Qed.
Lemma table_distinct : NoDup URL_TO_CONFIG_MAP.*1.
Proof. apply (bool_decide_unpack _). vm_compute. exact I. Qed.
Lemma same_length_prefix p p' url : at_or_under p url = true -> at_or_under p' url = true -> length p = length p' -> p = p'.
Proof. intros [r ->]%at_or_under_prefix [r' H]%at_or_under_prefix Hl. by apply app_inj_1 in H as [? _]. Qed.
Lemma findConfigMapping_longest url m : findConfigMapping url = Some m <-> maps_to url m.
Proof.
  unfold findConfigMapping. pose proof (walk_longest url URL_TO_CONFIG_MAP) as H.
  destruct (fold_left (mapping_step url) URL_TO_CONFIG_MAP (None, (-1)%Z)) as [[m0|] n]; cbn [fst].
  - destruct H as (p & Hp & Hu & -> & Hf). rewrite Forall_forall in Hf. split.
    + intros [= <-]. exists p. split; [done|]. split; [by apply at_or_under_spec|]. intros p' m' Hp' Hu'%at_or_under_spec.
      exact (Hf (p', m') Hp' Hu').
    + intros (q & Hq & Hqu%at_or_under_spec & Hmax). pose proof (Hf (q, m) Hq Hqu) as H1. cbn in H1.
      apply at_or_under_spec in Hu as Hu'. pose proof (Hmax p m0 Hp Hu') as H2.
      assert (p = q) as -> by (apply (same_length_prefix p q url); [done..|lia]).
      rewrite <- (obj_get_NoDup q m0 URL_TO_CONFIG_MAP table_distinct Hp). by rewrite (obj_get_NoDup q m URL_TO_CONFIG_MAP table_distinct Hq).
  - destruct H as [-> Hf]. rewrite Forall_forall in Hf. split; [done|]. intros (p & Hp & Hu & _).
    apply at_or_under_spec in Hu. pose proof (Hf (p, m) Hp) as H. cbn in H. congruence.
Qed.

(** ** Both layers together *)

(** Edits in the editor of management access: sections with the switches set. *)
Definition granted_edits (raw : option jsstr) (patches : list (jsstr * obj bool)) : obj (obj bool) :=
  fold_left (fun c p => ManagementAccess.updateSectionConfig (Some c) p.1 p.2) patches (ManagementAccess.parseSidebarModules raw).
Lemma granted_edits_ok raw patches :
  Forall (fun p => p.1 <> "__proto__") patches -> ManagementAccess.config_ok (granted_edits raw patches).
Proof.
  intros Hp. unfold granted_edits. generalize (ManagementAccess.parseSidebarModules_ok raw). generalize (ManagementAccess.parseSidebarModules raw).
  induction Hp as [|[k patch] l Hk Hl IH]; intros c Hc; [done|]. apply IH. cbn [fst snd] in *.
  unfold ManagementAccess.updateSectionConfig. cbn [nullish]. rewrite <- ManagementAccess.assign_ne by done.
  apply ManagementAccess.assign_config_ok; [|done].
  apply (fold_keeps ManagementAccess.section_ok); [intros; by apply ManagementAccess.assign_section_ok|].
  change (nullish (Some c) []) with c. destruct (obj_get k c) as [s|] eqn:E; [|apply ManagementAccess.section_start_ok].
  destruct Hc as [_ Hf]. apply obj_get_elem in E. rewrite Forall_forall in Hf. by apply Hf in E as [_ ?].
Qed.

(** C36: c: The sidebar enforces exactly what the two forms show when they are saved: a
    page is visible exactly when the longest table entry it lies under names a
    module whose switches are on in the settings form and that the editor of
    management access left to the user, or the user has no sidebar to
    configure; pages outside the table are never visible. *)
Theorem sidebar_enforces_settings stored edits raw patches allowed url :
  Forall (fun p => p.1 <> "__proto__") patches ->
  let form := sidebar_form stored edits in
  let access := granted_edits raw patches in
  useIsSidebarModuleVisible url (Some (serializeSidebarModulesAdmin form))
    (Some (User allowed (Some (ManagementAccess.serializeSidebarModules access)))) = true <->
  exists section module, maps_to url (section, module) /\ switched_on form section module = true /\
                         (allowed = Some false \/ granted access section module = true).
Proof.
  intros Hp form access. unfold useIsSidebarModuleVisible, isModuleEnabled. split.
  - destruct (findConfigMapping url) as [[section module]|] eqn:E; [|done]. apply findConfigMapping_longest in E as E'.
    destruct E' as (p & Hin & _). intros [Ha Hu]%andb_prop. exists section, module. split; [by apply findConfigMapping_longest|].
    rewrite form_enforced in Ha by (apply sidebar_form_ok || exact (table_known _ Hin)). split; [done|].
    unfold user_config in Hu. cbn [mbind option_bind sidebar_settings sidebar_modules] in Hu. case_bool_decide; [by left|right].
    by rewrite user_text_enforced in Hu by by apply granted_edits_ok.
  - intros (section & module & Hm & Hs & Hu). pose proof Hm as (p & Hin & _).
    apply findConfigMapping_longest in Hm as ->. rewrite form_enforced by (apply sidebar_form_ok || exact (table_known _ Hin)).
    rewrite Hs. unfold user_config. cbn [andb mbind option_bind sidebar_settings sidebar_modules]. case_bool_decide as H; [done|].
    destruct Hu as [Hu|Hu]; [done|]. by rewrite user_text_enforced by by apply granted_edits_ok.
Qed.
Lemma sidebar_enforces_settings_witness :
  let form := sidebar_form [] [Switch "console" "log" false] in
  let access := granted_edits None [("business" : jsstr, [("users" : jsstr, false)])] in
  useIsSidebarModuleVisible "/channels/7" (Some (serializeSidebarModulesAdmin form))
    (Some (User None (Some (ManagementAccess.serializeSidebarModules access)))) = true.
Proof.
  apply (sidebar_enforces_settings [] [Switch "console" "log" false] None [("business" : jsstr, [("users" : jsstr, false)])] None "/channels/7").
  - by repeat constructor.
  - exists "business", "channels". split; [|split; [vm_compute; reflexivity|right; vm_compute; reflexivity]].
    apply findConfigMapping_longest. vm_compute. reflexivity.
Defined.

(** ** Whole groups *)

(** The links of a group with the addresses whose modules gate them; a link
    without address is always shown. *)
Definition item_leaves (i : NavItem) : list (jsstr * option (list jsstr)) :=
  match i with
  | NavLink b url => [(url, if truthy url then Some (default [url] (configUrls b)) else None)]
  | NavCollapsible _ its => map (fun s => (sub_url s, Some [sub_url s])) its
  | NavChatPresets _ => []
  end.
Definition group_leaves (g : NavGroup) : list (jsstr * option (list jsstr)) := concat (map item_leaves (items g)).
Definition leaves (gs : list NavGroup) : list (jsstr * option (list jsstr)) := concat (map group_leaves gs).
Definition leaf_visible (admin : option jsstr) (user : option SidebarUser) (l : jsstr * option (list jsstr)) : bool :=
  match l.2 with Some gates => existsb (fun u => useIsSidebarModuleVisible u admin user) gates | None => true end.
(** No menu and no group is left without an entry. *)
Definition no_hole (gs : list NavGroup) : Prop :=
  Forall (fun g => items g <> [] /\ Forall (fun i => match i with NavCollapsible _ [] => False | _ => True end) (items g)) gs.

Lemma filter_concat {A} (f : A -> bool) (l : list (list A)) : List.filter f (concat l) = concat (map (List.filter f) l).
Proof. induction l as [|x l IH]; [done|]. cbn. by rewrite List.filter_app, IH. Qed.
Lemma concat_nonempty {A B} (f : A -> list B) (p : A -> bool) l :
  (forall x, p x = false -> f x = []) -> concat (map f (List.filter p l)) = concat (map f l).
Proof. intros H. induction l as [|x l IH]; [done|]. cbn. destruct (p x) eqn:E; cbn; [by rewrite IH|by rewrite (H x E)]. Qed.
Lemma menu_narrowed (p : jsstr -> bool) its :
  List.filter (fun l => match l.2 with Some gates => existsb p gates | None => true end) (map (fun s => (sub_url s, Some [sub_url s])) its)
  = map (fun s => (sub_url s, Some [sub_url s])) (List.filter (fun s => p (sub_url s)) its).
Proof.
  induction its as [|s its IH]; [done|]. cbn [map List.filter]. rewrite IH. cbn [snd existsb]. rewrite orb_false_r. by destruct (p (sub_url s)).
Qed.
Lemma menu_shown {A} (p : A -> bool) {B} (g : A -> B) its :
  (if existsb p (List.filter p its) then map g (List.filter p its) else []) = map g (List.filter p its).
Proof.
  destruct (existsb p (List.filter p its)) eqn:E; [done|]. destruct (List.filter p its) as [|s l] eqn:Ef; [done|].
  assert (Hs : In s (List.filter p its)) by (rewrite Ef; by left). apply filter_In in Hs as [_ Hs].
  cbn [existsb] in E. by rewrite Hs in E.
Qed.
Lemma item_narrowed admin user i :
  List.filter (leaf_visible admin user) (item_leaves i) =
  if isNavItemVisible (narrow_item (parseSidebarConfig admin) (user_config user) i) (parseSidebarConfig admin) (user_config user)
  then item_leaves (narrow_item (parseSidebarConfig admin) (user_config user) i) else [].
Proof.
  unfold leaf_visible, useIsSidebarModuleVisible. generalize (parseSidebarConfig admin) (user_config user). intros c u.
  destruct i as [b url|b its|b]; cbn [narrow_item isNavItemVisible item_leaves].
  - cbn [List.filter snd]. destruct (truthy url); [|done]. cbn [snd]. by destruct (existsb _ _).
  - rewrite (menu_narrowed (fun x => isModuleEnabled x c u)). symmetry. apply menu_shown.
  - cbn [List.filter]. by destruct (_ && _).
Qed.

(** The hook shows exactly the links that are visible on their own, in their
    order, and leaves no empty menu or group. *)
Theorem sidebar_shows_exactly gs admin user :
  leaves (useSidebarConfig gs admin user) = List.filter (leaf_visible admin user) (leaves gs) /\
  no_hole (useSidebarConfig gs admin user).
Proof.
  unfold useSidebarConfig, leaves. cbv zeta. set (c := parseSidebarConfig admin). set (u := user_config user). split.
  - rewrite concat_nonempty, filter_concat, !map_map.
    + f_equal. apply map_ext. intros g. unfold group_leaves. cbn [items]. rewrite filter_concat, map_map. unfold filterNavItems.
      induction (items g) as [|i l IH]; [done|]. cbn [map List.filter concat]. rewrite item_narrowed. fold c u.
      destruct (isNavItemVisible (narrow_item c u i) c u); cbn [map concat]; by rewrite IH.
    + intros [i [|x l]]; [done|]. done.
  - unfold no_hole. apply Forall_forall. intros g [Hg Hn]%list_elem_of_In%filter_In.
    apply in_map_iff in Hg as (g0 & <- & _). cbn [items] in *. split; [by destruct (filterNavItems _ _ _)|].
    apply Forall_forall. intros i [Hi Hv]%list_elem_of_In%filter_In.
    apply in_map_iff in Hi as (i0 & <- & _). destruct (narrow_item c u i0) as [|b [|]|]; try done.
Qed.

(** ** Where form and sidebar disagree *)

(** A flag stored as a number is on in the form and off in the sidebar, which
    asks for the value true; as the form shows the module on already,
    submitting it sends nothing. *)
Theorem numeric_flag_hidden :
  let stored := "{`console`:{`enabled`:true,`log`:1}}" : jsstr in
  switched_on (sidebar_form stored []) "console" "log" = true /\
  sidebar_onSubmit stored (sidebar_form stored []) = None /\
  useIsSidebarModuleVisible "/usage-logs" (Some stored) None = false /\
  useIsSidebarModuleVisible "/usage-logs" (Some (serializeSidebarModulesAdmin (sidebar_form stored []))) None = true.
Proof. vm_compute. repeat split. Qed.

(** The form never writes a section outside the default. *)
Definition within (config : SidebarModulesAdminConfig) : Prop :=
  forall k, obj_get k DEFAULT_SIDEBAR_MODULES = None -> obj_get k config = None.
Lemma set_within k s config : is_Some (obj_get k DEFAULT_SIDEBAR_MODULES) -> within config -> within (obj_set k s config).
Proof.
  intros [d Hd] H x Hx. rewrite obj_get_set. destruct (str_eqb x k) eqn:E; [|by apply H].
  apply str_eqb_true in E as ->. congruence.
Qed.
Lemma parsed_within stored : within (parseSidebarModulesAdmin stored).
Proof.
  unfold parseSidebarModulesAdmin. rewrite defaults_agree.
  assert (H : forall v, within (fold_left add_section DEFAULT_SIDEBAR_MODULES (fold_left sidebar_entry (own_entries v) []))).
  { intros v k Hk. rewrite (fold_local _ (fun _ d o => Some (match o with Some s => fold_left add_module d s | None => d end)))
      by (apply add_section_step || apply defaults_distinct).
    rewrite Hk. revert k Hk. change (within (fold_left sidebar_entry (own_entries v) [])). apply fold_keeps; [|done].
    intros c [k x] Hc. unfold sidebar_entry. cbn [fst snd]. rewrite defaults_agree.
    destruct x, (obj_get k DEFAULT_SIDEBAR_MODULES) eqn:E; try done; by apply set_within. }
  destruct (negb (truthy stored) || str_eqb (trim stored) []); [by intros k|]. destruct (parse stored) as [[]|]; try apply H; by intros k.
Qed.
Lemma form_within stored edits : within (sidebar_form stored edits).
Proof.
  unfold sidebar_form. apply fold_keeps; [|apply parsed_within]. intros c [sk m b|] Hc; [|by intros k]. cbn [sidebar_edit]. unfold switch.
  destruct (obj_get sk c) as [s|] eqn:E; [|done]. apply set_within; [|done].
  destruct (obj_get sk DEFAULT_SIDEBAR_MODULES) eqn:Ed; [done|]. by rewrite (Hc sk Ed) in E.
Qed.
(** The route guard of the playground asks for the section chat, which the form
    never writes: whatever is switched off, the guard admits. *)
Theorem playground_guard_inert stored edits status store :
  HeaderNav.getCachedStatus store = Some status ->
  prop "SidebarModulesAdmin" (Some status) = Some (JStr (serializeSidebarModulesAdmin (sidebar_form stored edits))) ->
  HeaderNav.isSidebarModuleEnabled "chat" "playground" store = true.
Proof.
  intros Hc Hs. unfold HeaderNav.isSidebarModuleEnabled. rewrite Hc, Hs. destruct (negb (json_truthy (Some status))); [done|].
  cbn [json_to_string]. destruct (object_text_read _ (form_storable _ (sidebar_form_ok stored edits))) as [Hp _].
  unfold serializeSidebarModulesAdmin. rewrite Hp. destruct (_ || _); [done|]. cbn [prop]. rewrite get_map.
  by rewrite (form_within stored edits "chat" eq_refl).
Qed.
Lemma playground_guard_inert_witness :
  let form := sidebar_form [] [Switch "playground" "playground" false] in
  HeaderNav.isSidebarModuleEnabled "chat" "playground"
    (Some (stringify (JObj [("SidebarModulesAdmin" : jsstr, JStr (serializeSidebarModulesAdmin form))]))) = true /\
  useIsSidebarModuleVisible "/playground" (Some (serializeSidebarModulesAdmin form)) None = false.
Proof.
  split; [|vm_compute; reflexivity].
  eapply (playground_guard_inert [] [Switch "playground" "playground" false]); vm_compute; reflexivity.
Defined.
End SidebarGates.

(** * The header *)

Module HeaderGates.
Import HeaderNav NavSettings.

(** ** Reading the modules *)

Definition is_page (k : jsstr) : bool := str_eqb k "pricing" || str_eqb k "rankings".
(** What an entry makes of the value at its key. *)
Definition entry_value (k : jsstr) (v : json) (o : option NavValue) : option NavValue :=
  if is_page k then Some (Page (parseAccess v (match o with Some (Page a) => a | _ => open_page end)))
  else if str_eqb k "__proto__" then o
  else match o, v with
       | Some (Flag fallback), _ => Some (Flag (parseHeaderNavBoolean (Some v) fallback))
       | _, (JBool _ | JNum _ | JStr _) => Some (Flag (parseHeaderNavBoolean (Some v) true))
       | _, _ => o
       end.
Lemma parse_entry_step r k v k' :
  obj_get k' (parse_entry r (k, v)) = if str_eqb k' k then entry_value k v (obj_get k r) else obj_get k' r.
Proof.
  unfold parse_entry, entry_value, page_at. fold (is_page k). destruct (is_page k); [apply obj_get_set|].
  assert (Hsame : (if str_eqb k' k then obj_get k r else obj_get k' r) = obj_get k' r).
  { destruct (str_eqb k' k) eqn:E; [|done]. by apply str_eqb_true in E as ->. }
  destruct (str_eqb k "__proto__") eqn:Ep.
  - rewrite Hsame. destruct (obj_get k r) as [[]|], v; rewrite ?get_assign, ?Ep; by destruct (str_eqb k' k).
  - destruct (obj_get k r) as [[]|] eqn:E, v; rewrite ?get_assign, ?Ep, ?Hsame; try done.
Qed.
Lemma get_parsed k o : NoDup o.*1 ->
  obj_get k (fold_left parse_entry o DEFAULT_HEADER_NAV_MODULES) =
  match obj_get k o with
  | Some v => entry_value k v (obj_get k DEFAULT_HEADER_NAV_MODULES)
  | None => obj_get k DEFAULT_HEADER_NAV_MODULES
  end.
Proof. intros H. by rewrite (fold_local _ entry_value) by (apply parse_entry_step || done). Qed.

(** The pages are always pages. *)
Definition has_page (k : jsstr) (m : HeaderNavModules) : Prop := exists a, obj_get k m = Some (Page a).
Lemma parsed_has_page k raw : is_page k = true -> has_page k (HeaderNav.parseHeaderNavModules raw).
Proof.
  intros Hk. assert (H0 : has_page k DEFAULT_HEADER_NAV_MODULES).
  { apply orb_true_iff in Hk as [->%str_eqb_true| ->%str_eqb_true]; by eexists. }
  unfold HeaderNav.parseHeaderNavModules. destruct (parseHeaderNavRecord raw) as [p|]; [|done]. destruct (json_truthy (Some p)); [|done].
  apply SidebarGates.fold_keeps; [|done]. intros m [x v] [a Ha]. unfold has_page. rewrite parse_entry_step.
  destruct (str_eqb k x) eqn:E; [|by exists a]. apply str_eqb_true in E as <-. unfold entry_value. rewrite Hk. by eexists.
Qed.

(** ** Links and guards *)

Definition path_of (m : HeaderNavModule) : jsstr := match m with HeaderNav.pricing => "/pricing" | HeaderNav.rankings => "/rankings" end.
Definition links_to (path : jsstr) (l : list TopNavLink) : list TopNavLink :=
  List.filter (fun x => str_eqb (href x) path && negb (external x)) l.
Lemma filter_if {A} (p : A -> bool) (b : bool) x : List.filter p (if b then [x] else []) = if b && p x then [x] else [].
Proof. destruct b; [|done]. cbn. by destruct (p x). Qed.

(** In the header the link to a page is there exactly when the guard of the page
    does not send the visitor home, and it announces the sign-in exactly when
    the guard asks for it, for whatever the server stores. *)
Theorem links_match_guards status docs_link isAuthed m :
  links_to (path_of m) (useTopNavLinks status docs_link isAuthed) =
  match guard (getModuleAccessFromStatus status m) isAuthed with
  | ToHome => []
  | ToSignIn => [Link (path_of m) true false]
  | Admit => [Link (path_of m) false false]
  end.
Proof.
  unfold useTopNavLinks, getModuleAccessFromStatus, parseHeaderNavModulesFromStatus, page_at. cbv zeta.
  destruct (parsed_has_page "pricing" (prop "HeaderNavModules" status) eq_refl) as [a Ha].
  destruct (parsed_has_page "rankings" (prop "HeaderNavModules" status) eq_refl) as [b Hb].
  assert (Hk : obj_get (module_key m) (HeaderNav.parseHeaderNavModules (prop "HeaderNavModules" status)) =
               Some (Page (match m with HeaderNav.pricing => a | HeaderNav.rankings => b end))) by (by destruct m).
  rewrite Hk, Ha, Hb. unfold links_to. rewrite !List.filter_app, !filter_if.
  set (docs := if truthy docs_link then Link docs_link false true else Link "/docs" false false).
  assert (Hd : str_eqb (href docs) (path_of m) && negb (external docs) = false).
  { unfold docs. destruct (truthy docs_link); cbn [href external negb]; [apply andb_false_r|by destruct m]. }
  rewrite Hd, andb_false_r. unfold guard.
  destruct m; cbn [href external path_of negb];
    repeat match goal with |- context [str_eqb ?x ?y] => let v := eval vm_compute in (str_eqb x y) in replace (str_eqb x y) with v by (vm_compute; reflexivity) end;
    cbn [andb]; rewrite ?andb_false_r, ?andb_true_r; cbn [app];
    [destruct (enabled b), (requireAuth b && negb isAuthed)|destruct (enabled a), (requireAuth a && negb isAuthed)]; done.
Qed.

(** When the request for the status fails the guards close their pages and the
    stored status is kept. *)
Theorem failed_status_closes m store isAuthed :
  let '(access, store') := getFreshModuleAccess m Threw store in guard access isAuthed = ToHome /\ store' = store.
Proof. done. Qed.

(** A number other than 0 and 1 is off for the form of the header and on, like an
    absent value, for the header itself. *)
Theorem other_numbers_disagree :
  let stored := "{`home`:2}" : jsstr in
  home (toFormValues (NavSettings.parseHeaderNavModules stored)) = false /\
  obj_get "home" (HeaderNav.parseHeaderNavModules (Some (JStr stored))) = Some (Flag true) /\
  header_onSubmit stored (toFormValues (NavSettings.parseHeaderNavModules stored)) = None.
Proof. vm_compute. repeat split. Qed.

(** ** What the form saves *)

Lemma nav_assign_canonical {A} k (v : A) o : canonical o -> canonical (assign k v o).
Proof. unfold ManagementAccess.assign. destruct (str_eqb k "__proto__"); [done|apply obj_set_canonical]. Qed.
Lemma settings_canonical stored : canonical (NavSettings.parseHeaderNavModules stored).
Proof.
  assert (H0 : canonical HEADER_NAV_DEFAULT) by by apply SidebarGates.plain_canonical.
  unfold NavSettings.parseHeaderNavModules. destruct (negb (truthy stored)); [done|].
  assert (H : forall l, canonical (fold_left settings_entry l HEADER_NAV_DEFAULT)).
  { intros l. apply SidebarGates.fold_keeps; [|done]. intros c [k v] Hc. unfold settings_entry.
    destruct (_ || _); [by apply obj_set_canonical|]. destruct v; try done; by apply nav_assign_canonical. }
  destruct (parse stored) as [[]|]; done || apply H.
Qed.
Lemma payload_canonical config v : canonical config -> canonical (payload config v).
Proof. intros H. unfold payload. by repeat apply obj_set_canonical. Qed.
Lemma nav_storable config : canonical config -> storable (JObj (map (fun kv => (kv.1, nav_json kv.2)) config)).
Proof.
  intros H. constructor; [|by apply canonical_ok, canonical_map]. apply Forall_forall. intros x (e & -> & _)%elem_of_map.
  cbn [snd]. destruct (e.2) as [b|a]; cbn [nav_json]; [constructor|]. constructor; [by repeat constructor|reflexivity].
Qed.
Lemma payload_get k config v :
  obj_get k (payload config v) =
  if str_eqb k "rankings" then Some (Page (rankings_page v)) else if str_eqb k "pricing" then Some (Page (pricing_page v))
  else if str_eqb k "about" then Some (Flag (about v)) else if str_eqb k "docs" then Some (Flag (docs v))
  else if str_eqb k "console" then Some (Flag (console v)) else if str_eqb k "home" then Some (Flag (home v))
  else obj_get k config.
Proof. unfold payload. by rewrite !obj_get_set. Qed.

(** The reader of the header on the text the form writes. *)
Lemma saved_text_read stored v k :
  obj_get k (HeaderNav.parseHeaderNavModules
    (Some (JStr (serializeHeaderNavModules (payload (NavSettings.parseHeaderNavModules stored) v))))) =
  match obj_get k (payload (NavSettings.parseHeaderNavModules stored) v) with
  | Some x => entry_value k (nav_json x) (obj_get k DEFAULT_HEADER_NAV_MODULES)
  | None => obj_get k DEFAULT_HEADER_NAV_MODULES
  end.
Proof.
  pose proof (payload_canonical _ v (settings_canonical stored)) as Hc. set (config := payload _ v) in *.
  destruct (SidebarGates.object_text_read _ (nav_storable _ Hc)) as [Hp Ht]. apply orb_false_iff in Ht as [Ht1 Ht2].
  unfold HeaderNav.parseHeaderNavModules, parseHeaderNavRecord, serializeHeaderNavModules.
  cbn [json_truthy json_to_string]. rewrite Ht1, Ht2. cbn [orb]. rewrite Hp. cbn [json_truthy own_entries entries].
  rewrite get_parsed by (rewrite map_keys; apply Hc). rewrite get_map. by destruct (obj_get k config).
Qed.

(** C37: once the server hands out what the form of the header saved, both the
    links and the guards follow its switches: each plain link is there exactly
    when its switch is on, the link to the about page only while the server
    does not also report that page as disabled, the links to the two pages
    when the page is enabled; and a page is open, asks to sign in or is closed
    as its two switches say. *)
Theorem header_enforces_settings stored v status docs_link isAuthed :
  prop "HeaderNavModules" status = Some (JStr (serializeHeaderNavModules (payload (NavSettings.parseHeaderNavModules stored) v))) ->
  (forall m, getModuleAccessFromStatus status m = match m with HeaderNav.pricing => pricing_page v | HeaderNav.rankings => rankings_page v end) /\
  map href (useTopNavLinks status docs_link isAuthed) =
    (if home v then ["/" : jsstr] else []) ++ (if console v then ["/dashboard" : jsstr] else [])
    ++ (if enabled (pricing_page v) then ["/pricing" : jsstr] else []) ++ (if enabled (rankings_page v) then ["/rankings" : jsstr] else [])
    ++ (if docs v then [if truthy docs_link then docs_link else "/docs"] else [])
    ++ (if about v && negb (is_false (prop "about_enabled" status)) then ["/about" : jsstr] else []).
Proof.
  intros Hs. set (mods := parseHeaderNavModulesFromStatus status).
  assert (Hget : forall k, obj_get k mods = match obj_get k (payload (NavSettings.parseHeaderNavModules stored) v) with
    | Some x => entry_value k (nav_json x) (obj_get k DEFAULT_HEADER_NAV_MODULES) | None => obj_get k DEFAULT_HEADER_NAV_MODULES end).
  { intros k. unfold mods, parseHeaderNavModulesFromStatus. rewrite Hs. apply saved_text_read. }
  assert (Hflag : forall k b, obj_get k (payload (NavSettings.parseHeaderNavModules stored) v) = Some (Flag b) ->
            obj_get k DEFAULT_HEADER_NAV_MODULES = Some (Flag true) -> is_page k || str_eqb k "__proto__" = false -> obj_get k mods = Some (Flag b)).
  { intros k b H1 H2 [H3 H4]%orb_false_iff. rewrite Hget, H1, H2. unfold entry_value. rewrite H3, H4. by destruct b. }
  assert (Hpage : forall k a, obj_get k (payload (NavSettings.parseHeaderNavModules stored) v) = Some (Page a) ->
            is_page k = true -> obj_get k mods = Some (Page a)).
  { intros k [b r] H1 H2. rewrite Hget, H1. unfold entry_value. rewrite H2. cbn [nav_json parseAccess]. by destruct b, r. }
  pose proof (Hpage "pricing" (pricing_page v) ltac:(by rewrite payload_get) eq_refl) as Hp.
  pose proof (Hpage "rankings" (rankings_page v) ltac:(by rewrite payload_get) eq_refl) as Hr.
  split.
  - intros m. unfold getModuleAccessFromStatus, page_at. fold mods. destruct m; cbn [module_key]; by rewrite ?Hp, ?Hr.
  - unfold useTopNavLinks. cbv zeta. fold mods. rewrite Hp, Hr.
    rewrite (Hflag "home" (home v)), (Hflag "console" (console v)), (Hflag "docs" (docs v)), (Hflag "about" (about v))
      by (done || by rewrite payload_get).
    rewrite !map_app. cbn [not_false].
    destruct (home v), (console v), (enabled (pricing_page v)), (enabled (rankings_page v)), (docs v), (about v), (truthy docs_link),
      (negb (is_false (prop "about_enabled" status))); reflexivity.
Qed.
Definition sample_form : HeaderNavFormValues := FormValues true false (Access true true) (Access false false) true true.
Definition sample_status (about_enabled : bool) : option json :=
  Some (JObj [("HeaderNavModules" : jsstr, JStr (serializeHeaderNavModules (payload (NavSettings.parseHeaderNavModules []) sample_form)));
              ("about_enabled" : jsstr, JBool about_enabled)]).
Lemma header_enforces_settings_witness :
  ((forall m, getModuleAccessFromStatus (sample_status true) m =
              match m with HeaderNav.pricing => Access true true | HeaderNav.rankings => Access false false end) /\
   map href (useTopNavLinks (sample_status true) [] false) = ["/" : jsstr; "/pricing"; "/docs"; "/about"]) /\
  map href (useTopNavLinks (sample_status false) [] false) = ["/" : jsstr; "/pricing"; "/docs"].
Proof.
  split; [exact (header_enforces_settings [] sample_form (sample_status true) [] false eq_refl)|].
  exact (proj2 (header_enforces_settings [] sample_form (sample_status false) [] false eq_refl)).
Defined.
End HeaderGates.
