(* ===== verification/SidebarView.v ===== *)
(** The sidebar of the location and role of the user: module SectionRegistry is
    features/system-settings/utils/section-registry.ts with the section lists
    of the settings pages; module SidebarViews is
    components/layout/lib/sidebar-view-registry.ts with the two views of
    components/layout/config, the root navigation of hooks/use-sidebar-data.ts
    and hooks/use-sidebar-view.ts; module ActiveItems is
    components/layout/lib/url-utils.ts.  Titles are the keys given to the
    translation; icons are left out.  The theorems are in [SidebarViewProofs]. *)
From S2P Require Import Prelude JsNumber JsCollections Json Regex Permissions NavModules.
Import Sidebar.

Module SectionRegistry.
Inductive UrlStyle := by_query | by_path.
Section Registry.
(** What a section builds, given its settings. *)
Context {Page : Type}.
Record SectionDefinition := Section_ { section_id : jsstr; titleKey : jsstr; build : Page }.
Record SectionRegistryConfig := Registry {
  sections : list SectionDefinition; defaultSection : jsstr; basePath : jsstr; urlStyle : UrlStyle }.
Definition sectionIds (c : SectionRegistryConfig) : list jsstr := map section_id (sections c).
Definition section_url (c : SectionRegistryConfig) (s : SectionDefinition) : jsstr :=
  match urlStyle c with by_path => basePath c ++ "/" ++ section_id s | by_query => basePath c ++ "?section=" ++ section_id s end.
Definition getSectionNavItems (c : SectionRegistryConfig) : list NavSubItem :=
  map (fun s => SubItem (Base (titleKey s) [] None None) (section_url c s)) (sections c).
(** Undefined for a registry without sections. *)
Definition getSectionMeta (c : SectionRegistryConfig) (sectionId : jsstr) : option SectionDefinition :=
  match find (fun s => str_eqb (section_id s) sectionId) (sections c) with Some s => Some s | None => head (sections c) end.
Definition getSectionContent (c : SectionRegistryConfig) (sectionId : jsstr) : option Page := build <$> getSectionMeta c sectionId.
End Registry.

(** The settings pages: the sections without their contents. *)
Definition page_sections (l : list (jsstr * jsstr)) : list (@SectionDefinition unit) := map (fun e => Section_ e.1 e.2 tt) l.
Definition billingRegistry : SectionRegistryConfig :=
  Registry (page_sections [("quota" : jsstr, "Quota Settings" : jsstr); ("currency" : jsstr, "Currency & Display" : jsstr);
                           ("model-pricing" : jsstr, "Model Pricing" : jsstr); ("group-pricing" : jsstr, "Group Pricing" : jsstr);
                           ("payment" : jsstr, "Payment Gateway" : jsstr); ("discount" : jsstr, "Discount Policy" : jsstr)])
    "quota" "/business-settings/billing" by_path.
Definition contentRegistry : SectionRegistryConfig :=
  Registry (page_sections [("dashboard" : jsstr, "Data Dashboard" : jsstr); ("announcements" : jsstr, "Business Announcements" : jsstr);
                           ("api-info" : jsstr, "API Address Settings" : jsstr); ("faq" : jsstr, "FAQ" : jsstr);
                           ("drawing" : jsstr, "Image Feature Settings" : jsstr)])
    "dashboard" "/business-settings/content" by_path.
Definition policiesRegistry : SectionRegistryConfig :=
  Registry (page_sections [("registration" : jsstr, "Registration & Access" : jsstr); ("rate-limit" : jsstr, "Rate Limiting" : jsstr);
                           ("token-limits" : jsstr, "Token Limits" : jsstr)])
    "registration" "/business-settings/policies" by_path.
Definition siteRegistry : SectionRegistryConfig :=
  Registry (page_sections [("system-info" : jsstr, "Site Information" : jsstr); ("header-navigation" : jsstr, "Header navigation" : jsstr);
                           ("sidebar-modules" : jsstr, "Sidebar modules" : jsstr)])
    "system-info" "/business-settings/site" by_path.
Definition authRegistry : SectionRegistryConfig :=
  Registry (page_sections [("oauth" : jsstr, "OAuth Integrations" : jsstr); ("passkey" : jsstr, "Passkey Authentication" : jsstr);
                           ("bot-protection" : jsstr, "Bot Protection" : jsstr)])
    "oauth" "/system-settings/auth" by_path.
Definition modelsRegistry : SectionRegistryConfig :=
  Registry (page_sections [("global" : jsstr, "Model Configuration" : jsstr); ("routing-reliability" : jsstr, "Routing Reliability" : jsstr);
                           ("channel-affinity" : jsstr, "Channel Affinity" : jsstr)])
    "global" "/system-settings/models" by_path.
Definition operationsRegistry : SectionRegistryConfig :=
  Registry (page_sections [("performance" : jsstr, "Performance" : jsstr); ("alerts" : jsstr, "Monitoring & Alerts" : jsstr);
                           ("logs" : jsstr, "Log Maintenance" : jsstr); ("email" : jsstr, "SMTP Email" : jsstr);
                           ("worker" : jsstr, "Worker Proxy" : jsstr); ("behavior" : jsstr, "System Behavior" : jsstr);
                           ("notice" : jsstr, "System Notice" : jsstr); ("update-checker" : jsstr, "Version & Updates" : jsstr)])
    "performance" "/system-settings/operations" by_path.
Definition securityRegistry : SectionRegistryConfig :=
  Registry (page_sections [("sensitive-words" : jsstr, "Sensitive Words" : jsstr); ("ssrf" : jsstr, "SSRF Protection" : jsstr)])
    "sensitive-words" "/system-settings/security" by_path.
End SectionRegistry.

Module SidebarViews.
Import SectionRegistry.
Definition item (t url : jsstr) : NavSubItem := SubItem (Base t [] None None) url.
Definition link (t url : jsstr) : NavItem := NavLink (Base t [] None None) url.
Definition menu (t : jsstr) (its : list NavSubItem) : NavItem := NavCollapsible (Base t [] None None) its.

Record SidebarView := View {
  view_id : jsstr; pathPattern : re; view_role : option jsnum; parent : jsstr; getNavGroups : list NavGroup }.

Definition getBusinessSettingsNavGroups : list NavGroup :=
  [Group "business-administration"
     [menu "Upstream Providers"
        [item "Channels" "/channels";
         SubItem (Base "Available Models Maintenance" ["/models/deployments" : jsstr]
                    (Some ["/models/metadata" : jsstr; "/models/deployments" : jsstr]) None) "/models/metadata"];
      menu "User Management" [item "Users" "/users"; item "Redemption Codes" "/redemption-codes"; item "Subscriptions" "/subscriptions"];
      menu "Billing & Pricing" (getSectionNavItems billingRegistry ++ [item "Discount Plans" "/discounts"]);
      menu "Site & Appearance" (getSectionNavItems siteRegistry);
      menu "Console Content" (getSectionNavItems contentRegistry);
      menu "Access & Limits" (getSectionNavItems policiesRegistry)]].
Definition business_paths : list jsstr :=
  ["business-settings" : jsstr; "users" : jsstr; "redemption-codes" : jsstr; "subscriptions" : jsstr; "discounts" : jsstr;
   "channels" : jsstr; "models" : jsstr].
(** [^\/(p1|...|pn)(\/|$)] *)
Definition workspace_pattern (paths : list jsstr) : re :=
  (RBegin ⋅ RLit "/" ⋅ RGroup 1 (alts paths) ⋅ RGroup 2 (RLit "/" ∣ REnd))%re.
Definition BUSINESS_SETTINGS_VIEW : SidebarView :=
  View "business-settings" (workspace_pattern business_paths) (Some Roles.ADMIN) "/dashboard/overview" getBusinessSettingsNavGroups.

Definition getSystemSettingsNavGroups : list NavGroup :=
  [Group "system-administration"
     [menu "Runtime & Access" (item "Runtime Status" "/system-info" :: getSectionNavItems operationsRegistry);
      menu "Authentication & Security" (getSectionNavItems authRegistry ++ getSectionNavItems securityRegistry);
      menu "Models & Routing" (getSectionNavItems modelsRegistry)]].
Definition system_paths : list jsstr := ["system-settings" : jsstr; "system-info" : jsstr].
Definition SYSTEM_SETTINGS_VIEW : SidebarView :=
  View "system-settings" (workspace_pattern system_paths) (Some Roles.SUPER_ADMIN) "/dashboard/overview" getSystemSettingsNavGroups.

Definition SIDEBAR_VIEWS : list SidebarView := [BUSINESS_SETTINGS_VIEW; SYSTEM_SETTINGS_VIEW].

(** [userRole < view.requiredRole] refuses *)
Definition resolveSidebarView (pathname : jsstr) (role : option jsnum) : option SidebarView :=
  match find (fun candidate => test (pathPattern candidate) pathname) SIDEBAR_VIEWS with
  | None => None
  | Some view =>
      match view_role view with
      | Some required => if num_ltb (default Roles.GUEST role) required then None else Some view
      | None => Some view
      end
  end.
Definition getNavGroupsForPath (pathname : jsstr) (role : option jsnum) : option (list NavGroup) :=
  getNavGroups <$> resolveSidebarView pathname role.

(** ** The root navigation *)

Definition dealerItems (isDealer : bool) : list NavItem :=
  if isDealer then [link "My Customers" "/customers"; link "Dealer Billing" "/billing"] else [].
Definition useSidebarData (isDealer : bool) : list NavGroup :=
  [Group "general"
     [link "Overview" "/dashboard/overview"; link "Dashboard" "/dashboard/models"; link "API Keys" "/keys";
      NavLink (Base "Usage Logs" ["/usage-logs/common" : jsstr; "/usage-logs/drawing" : jsstr; "/usage-logs/task" : jsstr] None None)
        "/usage-logs/common";
      link "Test Model" "/playground"];
   Group "personal" ([link "Wallet" "/wallet"; link "Plan" "/plans"] ++ dealerItems isDealer ++ [link "Profile" "/profile"]);
   Group "administration"
     [NavLink (Base "Business Management" [] (Some ["/business-settings" : jsstr]) (Some Roles.ADMIN)) "/channels";
      NavLink (Base "System Management" [] (Some ["/system-settings" : jsstr]) (Some Roles.SUPER_ADMIN)) "/system-info"]].

Definition item_base (i : NavItem) : BaseNavItem :=
  match i with NavLink b _ | NavCollapsible b _ | NavChatPresets b => b end.
Definition role_allows (role : jsnum) (i : NavItem) : bool :=
  match requiredRole (item_base i) with Some required => num_leb required role | None => true end.
Definition filter_role (role : jsnum) (groups : list NavGroup) : list NavGroup :=
  List.filter (fun g => negb (Nat.eqb (length (items g)) 0))
    (map (fun g => Group (id g) (List.filter (role_allows role) (items g))) groups).

Definition ROOT_VIEW_KEY : jsstr := "__root".
Record ResolvedSidebarView := Resolved { key : jsstr; view : option SidebarView; navGroups : list NavGroup }.
Definition useSidebarView (pathname : jsstr) (userRole : option jsnum) (isDealer : bool)
    (SidebarModulesAdmin : option jsstr) (user : option SidebarUser) : ResolvedSidebarView :=
  match resolveSidebarView pathname userRole with
  | Some v => Resolved (view_id v) (Some v) (useSidebarConfig (getNavGroups v) SidebarModulesAdmin user)
  | None =>
      Resolved ROOT_VIEW_KEY None
        (filter_role (default Roles.GUEST userRole) (useSidebarConfig (useSidebarData isDealer) SidebarModulesAdmin user))
  end.

(** beforeLoad of /business-settings, and of /system-settings. *)
Definition business_guard (role : option jsnum) : bool := negb (num_ltb (default (num 0) role) Roles.ADMIN).
Definition system_guard (role : option jsnum) : bool := match role with Some r => num_eqb r Roles.SUPER_ADMIN | None => false end.
End SidebarViews.

Module ActiveItems.
(** [s.split(c)[0]] and [s.split(c)[1]] *)
Fixpoint split_first (c : N) (s : jsstr) : jsstr :=
  match s with [] => [] | x :: t => if N.eqb x c then [] else x :: split_first c t end.
Fixpoint split_second (c : N) (s : jsstr) : option jsstr :=
  match s with [] => None | x :: t => if N.eqb x c then Some (split_first c t) else split_second c t end.
Definition qmark : N := 63.
Definition slash : N := 47.

(** [replace(/\/+$/, '')] *)
Fixpoint drop_slashes (s : jsstr) : jsstr :=
  match s with [] => [] | x :: t => match drop_slashes t with [] => if N.eqb x slash then [] else [x] | r => x :: r end end.
Definition normalizeHref (href : jsstr) : jsstr :=
  let withoutQuery := split_first qmark href in
  if 1 <? length withoutQuery then drop_slashes withoutQuery else withoutQuery.

(** A link with a text for its URL is active; [url] may be empty. *)
Definition url_active (href url : jsstr) : bool :=
  truthy url &&
  (str_eqb href url ||
   (str_eqb (split_first qmark url) (split_first qmark href) && (negb (includes "?" url) || str_eqb href url))).
Definition checkIsActive (href : jsstr) (it : NavItem) (mainNav : bool) : bool :=
  let hrefWithoutQuery := split_first qmark href in
  if existsb (fun u => str_eqb u hrefWithoutQuery) (activeUrls (SidebarViews.item_base it)) then true
  else match it with
       | NavCollapsible _ its => existsb (fun s => url_active href (sub_url s)) its
       | NavChatPresets _ => false
       | NavLink _ url =>
           if negb (truthy url) then false
           else if url_active href url then true
           else if mainNav && truthy (default [] (split_second slash href)) then
             bool_decide (split_second slash href = split_second slash url)
           else false
       end.
(** [checkIsActive(href, subItem)] of an entry of a menu. *)
Definition sub_active (href : jsstr) (s : NavSubItem) : bool := checkIsActive href (NavLink (sub_base s) (sub_url s)) false.
End ActiveItems.
