(* ===== verification/SidebarViewProofs.v ===== *)
(** The theorems on the sidebar of a location and role (SidebarView.v). *)
From S2P Require Import Prelude JsNumber JsCollections Json Regex Permissions ManagementAccess NavModules NavModulesProofs SidebarView.
Import Sidebar SidebarGates.

Module SidebarViewing.
Import SectionRegistry SidebarViews ActiveItems.

(** ** The paths of a workspace *)

Definition segment_end (s : jsstr) : bool := match s with [] => true | c :: _ => N.eqb c 47 end.
Lemma under_cut p s : at_or_under p s = match strip_prefix p s with Some r => segment_end r | None => false end.
Proof.
  unfold at_or_under. destruct (strip_prefix p s) as [r|] eqn:E.
  - apply strip_prefix_spec in E as ->. destruct r as [|c r].
    + rewrite app_nil_r, str_eqb_refl. done.
    + cbn [segment_end]. destruct (N.eqb c 47) eqn:Ec.
      * apply N.eqb_eq in Ec as ->. apply orb_true_iff. right. apply starts_with_spec. exists r. by rewrite <- app_assoc.
      * apply orb_false_iff. split.
        -- apply str_eqb_false. intros H. rewrite <- (app_nil_r p) in H at 2. by apply app_inv_head in H.
        -- apply not_true_iff_false. intros [t H]%starts_with_spec. rewrite <- app_assoc in H. apply app_inv_head in H.
           injection H as -> _. by rewrite N.eqb_refl in Ec.
  - apply orb_false_iff. split.
    + apply str_eqb_false. intros ->. pose proof (strip_prefix_app p []) as H. rewrite app_nil_r in H. congruence.
    + apply not_true_iff_false. intros [t ->]%starts_with_spec. rewrite <- app_assoc, strip_prefix_app in E. done.
Qed.
Definition found {A} (o : option A) : bool := match o with Some _ => true | None => false end.
Lemma run_alternatives {A} (k : pos -> option A) (f : jsstr -> bool) l x :
  (forall y, found (k y) = f (rest y)) ->
  found (run (alts l) k x) = existsb (fun p => match strip_prefix p (rest x) with Some r => f r | None => false end) l.
Proof.
  intros Hk. assert (Hlit : forall p, found (run (RLit p) k x) = match strip_prefix p (rest x) with Some r => f r | None => false end).
  { intros p. cbn [run]. destruct (strip_prefix p (rest x)); [apply Hk|done]. }
  induction l as [|p l IH]; [cbn; by destruct (rest x)|]. cbn [existsb]. rewrite <- Hlit. destruct l as [|q l].
  - cbn [existsb]. rewrite orb_false_r. done.
  - change (run (alts (p :: q :: l)) k x) with (first_some (run (RLit p) k x) (fun _ => run (alts (q :: l)) k x)).
    rewrite <- IH. unfold first_some. by destruct (run (RLit p) k x).
Qed.
Lemma strip_slash p s : strip_prefix ("/" ++ p) s = match strip_prefix "/" s with Some r => strip_prefix p r | None => None end.
Proof. destruct s as [|c s]; [done|]. cbn [app strip_prefix]. by destruct (N.eqb 47 c). Qed.
(** The pattern of a workspace matches a path exactly when the path is one of
    the workspace's or lies under one. *)
Theorem workspace_pattern_exact paths s :
  test (workspace_pattern paths) s = existsb (fun p => at_or_under ("/" ++ p) s) paths.
Proof.
  unfold test, workspace_pattern. rewrite exec_begin. change (match ?o with Some _ => true | None => false end) with (found o).
  cbn [run before rest]. destruct (strip_prefix "/" s) as [r|] eqn:E.
  - etransitivity; [apply (run_alternatives _ segment_end)|].
    + intros y. cbn [run rest before caps]. unfold first_some. destruct (rest y) as [|c t]; [done|]. cbn [strip_prefix segment_end].
      rewrite N.eqb_sym. by destruct (N.eqb c 47).
    + induction paths as [|p l IH]; [done|]. cbn [existsb]. rewrite <- IH. by rewrite under_cut, strip_slash, E.
  - symmetry. apply not_true_iff_false. intros (p & _ & H)%existsb_exists. by rewrite under_cut, strip_slash, E in H.
Qed.

(** ** Who sees which workspace *)

Definition in_workspace (paths : list jsstr) (path : jsstr) : bool := existsb (fun p => at_or_under ("/" ++ p) path) paths.
Definition reaches (role : option jsnum) (required : jsnum) : bool := negb (num_ltb (default Roles.GUEST role) required).
(** The business workspace on its paths for administrators, the system workspace
    on its own for super administrators, and no other view. *)
Theorem views_exact path role :
  resolveSidebarView path role =
  if in_workspace business_paths path then if reaches role Roles.ADMIN then Some BUSINESS_SETTINGS_VIEW else None
  else if in_workspace system_paths path then if reaches role Roles.SUPER_ADMIN then Some SYSTEM_SETTINGS_VIEW else None
  else None.
Proof.
  unfold resolveSidebarView, SIDEBAR_VIEWS, BUSINESS_SETTINGS_VIEW, SYSTEM_SETTINGS_VIEW, reaches. cbn [find pathPattern].
  rewrite !workspace_pattern_exact. fold (in_workspace business_paths path) (in_workspace system_paths path).
  destruct (in_workspace business_paths path); cbn [view_role]; [by destruct (num_ltb _ _)|].
  destruct (in_workspace system_paths path); cbn [view_role]; [by destruct (num_ltb _ _)|done].
Qed.

(** The role a section of the modules belongs to. *)
Definition workspace_role (section : jsstr) : option jsnum :=
  if str_eqb section "business" then Some Roles.ADMIN else if str_eqb section "system" then Some Roles.SUPER_ADMIN else None.
Definition gate_role (u : jsstr) : option (option jsnum) := (fun m => workspace_role m.1) <$> findConfigMapping u.

Lemma num_leb_reaches a b : num_leb a b = true -> num_ltb b a = false.
Proof.
  unfold num_leb, num_ltb, SpecFloat.SFleb, SpecFloat.SFltb, SpecFloat.SFcompare.
  destruct a as [[]|[]| |[] ma ea], b as [[]|[]| |[] mb eb]; try done.
  all: rewrite (Z.compare_antisym ea eb); destruct (ea ?= eb)%Z; cbn; try done.
  all: change (Pos.compare_cont Eq) with Pos.compare; rewrite (Pos.compare_antisym ma mb); by destruct (Pos.compare ma mb).
Qed.

(** Every link of the root navigation asks for the role its modules belong to,
    and the entries of a view belong to the role of the view. *)
Definition item_roles_agree (i : NavItem) : Prop :=
  Forall (fun l => Forall (fun u => gate_role u = Some (requiredRole (item_base i))) (default [] l.2)) (item_leaves i).
#[local] Instance num_dec : EqDecision SpecFloat.spec_float.
Proof. solve_decision. Defined.
Lemma root_roles_agree isDealer : Forall (fun g => Forall item_roles_agree (items g)) (useSidebarData isDealer).
Proof. destruct isDealer; unfold item_roles_agree; apply (bool_decide_unpack _); vm_compute; exact I. Qed.
Definition view_roles_agree (v : SidebarView) : Prop :=
  Forall (fun l => Forall (fun u => gate_role u = Some (view_role v)) (default [] l.2)) (leaves (getNavGroups v)).
Lemma views_roles_agree : view_roles_agree BUSINESS_SETTINGS_VIEW /\ view_roles_agree SYSTEM_SETTINGS_VIEW.
Proof. split; unfold view_roles_agree; apply (bool_decide_unpack _); vm_compute; exact I. Qed.

Lemma elem_leaves l gs : l ∈ leaves gs <-> exists g i, g ∈ gs /\ i ∈ items g /\ l ∈ item_leaves i.
Proof.
  unfold leaves, group_leaves. setoid_rewrite list_elem_of_In. rewrite in_concat. split.
  - intros (x & Hx & Hl). apply in_map_iff in Hx as (g & <- & Hg). apply in_concat in Hl as (y & Hy & Hl).
    apply in_map_iff in Hy as (i & <- & Hi). by exists g, i.
  - intros (g & i & Hg & Hi & Hl). eexists. split; [apply in_map; exact Hg|]. apply in_concat. exists (item_leaves i). split; [by apply in_map|done].
Qed.
Lemma narrow_keeps c u i : item_base (narrow_item c u i) = item_base i /\ item_leaves (narrow_item c u i) ⊆ item_leaves i.
Proof.
  destruct i as [b url|b its|b]; cbn [narrow_item item_base item_leaves]; [done| |done]. split; [done|].
  intros x. rewrite !list_elem_of_In. intros (s & <- & [Hs _]%filter_In)%in_map_iff. by apply (in_map (fun s => (sub_url s, Some [sub_url s]))).
Qed.
Lemma config_items gs admin user g i :
  g ∈ useSidebarConfig gs admin user -> i ∈ items g ->
  exists g0 i0, g0 ∈ gs /\ i0 ∈ items g0 /\ item_base i = item_base i0 /\ item_leaves i ⊆ item_leaves i0.
Proof.
  unfold useSidebarConfig. cbv zeta. intros [Hg _]%list_elem_of_In%filter_In. apply in_map_iff in Hg as (g0 & <- & Hg).
  cbn [items]. intros [Hi _]%list_elem_of_In%filter_In. apply in_map_iff in Hi as (i0 & <- & Hi).
  exists g0, i0. split_and!; [by apply list_elem_of_In..| |]; apply narrow_keeps.
Qed.
Lemma role_items r gs g i : g ∈ filter_role r gs -> i ∈ items g -> role_allows r i = true /\ exists g0, g0 ∈ gs /\ i ∈ items g0.
Proof.
  unfold filter_role. intros [Hg _]%list_elem_of_In%filter_In. apply in_map_iff in Hg as (g0 & <- & Hg).
  cbn [items]. intros [Hi Hr]%list_elem_of_In%filter_In. split; [done|]. exists g0. by rewrite !list_elem_of_In.
Qed.
Lemma view_of_role path role v :
  resolveSidebarView path role = Some v ->
  view_roles_agree v /\ exists required, view_role v = Some required /\ reaches role required = true.
Proof.
  rewrite views_exact. destruct (in_workspace business_paths path), (in_workspace system_paths path); try done;
    (destruct (reaches role _) eqn:E; [|done]); intros [= <-]; (split; [apply views_roles_agree|by eexists]).
Qed.

(** C38: whatever the settings hold, every entry the sidebar shows that modules gate,
    in any group and workspace, has one among them that is visible to the user; and
    if a gate of it lies in the business or the system section, the role of the
    user reaches that workspace. *)
Theorem workspaces_by_role path role isDealer admin user url gates :
  (url, Some gates) ∈ leaves (navGroups (useSidebarView path role isDealer admin user)) ->
  existsb (fun u => useIsSidebarModuleVisible u admin user) gates = true /\
  forall u section module required, u ∈ gates -> maps_to u (section, module) -> workspace_role section = Some required ->
    reaches role required = true.
Proof.
  unfold useSidebarView. intros Hl.
  assert (Hgate : forall u section module required o, maps_to u (section, module) -> workspace_role section = Some required ->
            gate_role u = Some o -> o = Some required).
  { intros u section module required o Hm%findConfigMapping_longest Hr. unfold gate_role. rewrite Hm. cbn. congruence. }
  assert (Hvisible : forall gs, (url, Some gates) ∈ leaves (useSidebarConfig gs admin user) ->
            existsb (fun u => useIsSidebarModuleVisible u admin user) gates = true /\ (url, Some gates) ∈ leaves gs).
  { intros gs. rewrite (proj1 (sidebar_shows_exactly gs admin user)). intros [H1 H2]%list_elem_of_In%filter_In. split; [done|by apply list_elem_of_In]. }
  destruct (resolveSidebarView path role) as [v|] eqn:E; cbn [navGroups] in Hl.
  - apply view_of_role in E as (Ha & r & Hv & Hreach). apply Hvisible in Hl as [Hvis Hl]. split; [done|].
    intros u section module required Hu Hm Hr.
    unfold view_roles_agree in Ha. rewrite Forall_forall in Ha. specialize (Ha _ Hl). rewrite Forall_forall in Ha.
    apply Ha in Hu. rewrite Hv in Hu. apply (Hgate _ _ _ _ _ Hm Hr) in Hu. congruence.
  - apply elem_leaves in Hl as (g & i & Hg & Hi & Hl). destruct (role_items _ _ _ _ Hg Hi) as (Hrole & g1 & Hg1 & Hi1).
    split; [apply (Hvisible (useSidebarData isDealer)), elem_leaves; by exists g1, i|]. intros u section module required Hu Hm Hr.
    apply (config_items _ _ _ _ i) in Hg1 as (g0 & i0 & Hg0 & Hi0 & Hb & Hsub); [|done].
    pose proof (root_roles_agree isDealer) as Ha. rewrite Forall_forall in Ha. specialize (Ha _ Hg0). rewrite Forall_forall in Ha.
    specialize (Ha _ Hi0). unfold item_roles_agree in Ha. rewrite Forall_forall in Ha. specialize (Ha _ (Hsub _ Hl)).
    rewrite Forall_forall in Ha. apply Ha, (Hgate _ _ _ _ _ Hm Hr) in Hu. unfold role_allows in Hrole. rewrite Hb, Hu in Hrole.
    unfold reaches. by rewrite (num_leb_reaches _ _ Hrole).
Qed.
Lemma workspaces_by_role_witness :
  let gates := ["/business-settings" : jsstr] in
  (("/channels" : jsstr), Some gates) ∈ leaves (navGroups (useSidebarView "/dashboard/overview" (Some Roles.ADMIN) false None None)) /\
  existsb (fun u => useIsSidebarModuleVisible u None None) gates = true /\
  forall u section module required, u ∈ gates -> maps_to u (section, module) -> workspace_role section = Some required ->
    reaches (Some Roles.ADMIN) required = true.
Proof.
  intros gates.
  assert (Hl : (("/channels" : jsstr), Some gates) ∈ leaves (navGroups (useSidebarView "/dashboard/overview" (Some Roles.ADMIN) false None None)))
    by (apply (bool_decide_unpack _); vm_compute; exact I).
  split; [exact Hl|].
  exact (workspaces_by_role "/dashboard/overview" (Some Roles.ADMIN) false None None "/channels" gates Hl).
Defined.

(** ** Every entry has its switch *)

Definition all_groups : list NavGroup := useSidebarData true ++ getBusinessSettingsNavGroups ++ getSystemSettingsNavGroups.
Definition one_module (l : jsstr * option (list jsstr)) : Prop :=
  match l.2 with
  | Some (u :: us) => exists m, findConfigMapping u = Some m /\ Forall (fun u' => findConfigMapping u' = Some m) us
  | _ => False
  end.
Lemma entries_one_module : Forall one_module (leaves all_groups).
Proof.
  assert (H : Forall (fun l => match l.2 with
    | Some (u :: us) => bool_decide (is_Some (findConfigMapping u) /\ Forall (fun u' => findConfigMapping u' = findConfigMapping u) us)
    | _ => false end = true) (leaves all_groups)).
  { apply (bool_decide_unpack _). vm_compute. exact I. }
  eapply Forall_impl; [exact H|]. intros [url [[|u us]|]]; cbn [snd]; [done| |done]. intros [[m Hm] Hus]%bool_decide_eq_true.
  exists m. split; [done|]. by rewrite Hm in Hus.
Qed.
(** Each entry of the navigation belongs to one module of the settings form, and
    switching that module off, or its section, hides the entry from everyone. *)
Theorem every_entry_switchable l :
  l ∈ leaves all_groups ->
  exists section module, known section module /\
    forall stored edits user, switched_on (NavSettings.sidebar_form stored edits) section module = false ->
      leaf_visible (Some (NavSettings.serializeSidebarModulesAdmin (NavSettings.sidebar_form stored edits))) user l = false.
Proof.
  intros Hl. pose proof entries_one_module as Ha. rewrite Forall_forall in Ha. specialize (Ha l Hl).
  destruct l as [url [[|u us]|]]; cbn [one_module snd] in Ha; [done| |done]. destruct Ha as ([section module] & Hm & Hus).
  assert (Hk : known section module).
  { apply findConfigMapping_longest in Hm as (p & Hp & _). exact (table_known _ Hp). }
  exists section, module. split; [done|]. intros stored edits user Hoff. unfold leaf_visible. cbn [snd].
  assert (Hone : forall x, findConfigMapping x = Some (section, module) ->
            useIsSidebarModuleVisible x (Some (NavSettings.serializeSidebarModulesAdmin (NavSettings.sidebar_form stored edits))) user = false).
  { intros x Hx. unfold useIsSidebarModuleVisible, isModuleEnabled. rewrite Hx, form_enforced by (apply sidebar_form_ok || done). by rewrite Hoff. }
  cbn [existsb]. rewrite (Hone u Hm). cbn [orb]. clear Hl.
  induction Hus as [|x us Hx Hus IH]; [done|]. cbn [existsb]. by rewrite (Hone x Hx).
Qed.

(** The entry of the business workspace is gated by its billing module alone: an
    administrator left with every other module finds no way into the workspace
    in the root navigation, although its pages are shown once inside. *)
Theorem billing_gates_workspace :
  let access := granted_edits None [("business" : jsstr, [("billing" : jsstr, false)])] in
  let user := Some (User None (Some (ManagementAccess.serializeSidebarModules access))) in
  let shown path := map fst (leaves (navGroups (useSidebarView path (Some Roles.ADMIN) false None user))) in
  granted access "business" "channels" = true /\ useIsSidebarModuleVisible "/channels" None user = true /\
  existsb (str_eqb "/channels") (shown "/dashboard/overview") = false /\ existsb (str_eqb "/channels") (shown "/channels") = true.
Proof. vm_compute. repeat split. Qed.

(** ** The highlighted entry *)

Definition entries_of (gs : list NavGroup) : list NavSubItem :=
  concat (map (fun g => concat (map (fun i => match i with
    NavLink b url => [SubItem b url] | NavCollapsible _ its => its | NavChatPresets _ => [] end) (items g))) gs).
Definition targets (s : NavSubItem) : list jsstr := sub_url s :: activeUrls (sub_base s).
(** An address without query. *)
Definition plain_url (u : jsstr) : Prop := split_first qmark u = u.
Lemma active_target href s : plain_url (sub_url s) -> sub_active href s = true -> split_first qmark href ∈ targets s.
Proof.
  intros Hp. unfold sub_active, checkIsActive, targets. cbn [SidebarViews.item_base].
  destruct (existsb _ _) eqn:E.
  - intros _. apply existsb_exists in E as (u & Hu & ->%str_eqb_true). right. by apply list_elem_of_In.
  - destruct (negb (truthy (sub_url s))); [done|]. destruct (url_active href (sub_url s)) eqn:Ea; [|done]. intros _.
    unfold url_active in Ea. apply andb_prop in Ea as [_ [H%str_eqb_true|[H%str_eqb_true _]%andb_prop]%orb_true_iff].
    + rewrite H, Hp. left.
    + rewrite <- H, Hp. left.
Qed.
Lemma one_of_disjoint {A} (f : A -> list jsstr) (p : A -> bool) x l :
  NoDup (concat (map f l)) -> (forall a, p a = true -> x ∈ f a) -> length (List.filter p l) <= 1.
Proof.
  intros Hd Hp. induction l as [|a l IH]; [cbn; lia|]. cbn [map concat] in Hd. apply NoDup_app in Hd as (_ & Hdis & Hd). cbn [List.filter].
  destruct (p a) eqn:E; [|by apply IH]. cbn [length]. destruct (List.filter p l) as [|b r] eqn:Ef; [cbn; lia|].
  exfalso. assert (Hb : In b (List.filter p l)) by (rewrite Ef; by left). apply filter_In in Hb as [Hb Hpb].
  apply (Hdis x (Hp a E)). apply list_elem_of_In, in_concat. exists (f b). split; [by apply in_map|by apply list_elem_of_In, Hp].
Qed.
Lemma view_targets v : v ∈ SIDEBAR_VIEWS ->
  NoDup (concat (map targets (entries_of (getNavGroups v)))) /\ Forall (fun s => plain_url (sub_url s)) (entries_of (getNavGroups v)).
Proof.
  intros [->|[->|[]%elem_of_nil]%elem_of_cons]%elem_of_cons; unfold plain_url; apply (bool_decide_unpack _); vm_compute; exact I.
Qed.
(** In each workspace at most one entry is highlighted, at whatever address. *)
Theorem one_entry_active v href :
  v ∈ SIDEBAR_VIEWS -> length (List.filter (sub_active href) (entries_of (getNavGroups v))) <= 1.
Proof.
  intros Hv. destruct (view_targets v Hv) as [Hd Hp].
  rewrite (List.filter_ext_in (sub_active href) (fun s => sub_active href s && bool_decide (plain_url (sub_url s)))).
  - apply (one_of_disjoint targets _ (split_first qmark href)); [done|]. intros s [Ha Hs%bool_decide_eq_true]%andb_prop. by apply active_target.
  - intros s Hs. rewrite bool_decide_eq_true_2; [by rewrite andb_true_r|]. rewrite Forall_forall in Hp. by apply Hp, list_elem_of_In.
Qed.

(** ** Settings pages *)

(** With distinct identifiers every section is found under its own, its address
    is its own, and an unknown identifier shows the first section. *)
Theorem registry_pages {Page} (c : @SectionRegistryConfig Page) :
  NoDup (sectionIds c) ->
  (forall s, s ∈ sections c -> getSectionMeta c (section_id s) = Some s /\ getSectionContent c (section_id s) = Some (build s)) /\
  (forall x, x ∉ sectionIds c -> getSectionMeta c x = head (sections c)) /\
  NoDup (map sub_url (getSectionNavItems c)).
Proof.
  intros Hd. split_and!.
  - intros s Hs. assert (H : find (fun x => str_eqb (section_id x) (section_id s)) (sections c) = Some s).
    { unfold sectionIds in Hd. induction (sections c) as [|x l IH]; [by apply elem_of_nil in Hs|]. cbn [map find] in *.
      apply NoDup_cons in Hd as [Hx Hd]. apply elem_of_cons in Hs as [->|Hs]; [by rewrite str_eqb_refl|].
      destruct (str_eqb (section_id x) (section_id s)) eqn:E; [|by apply IH]. apply str_eqb_true in E. exfalso. apply Hx. rewrite E.
      apply list_elem_of_In. by apply in_map, list_elem_of_In. }
    unfold getSectionContent, getSectionMeta. by rewrite H.
  - intros x Hx. unfold getSectionMeta. destruct (find _ (sections c)) as [s|] eqn:E; [|done].
    apply find_some in E as [Hs E%str_eqb_true]. exfalso. apply Hx. rewrite <- E. apply list_elem_of_In. by apply in_map.
  - assert (H : map sub_url (getSectionNavItems c) =
      map (fun i => match urlStyle c with by_path => basePath c ++ "/" ++ i | by_query => basePath c ++ "?section=" ++ i end) (sectionIds c)).
    { unfold getSectionNavItems, sectionIds. rewrite !map_map. by apply map_ext. }
    rewrite H. apply NoDup_fmap_2_strong; [|done]. intros a b _ _ Hab. destruct (urlStyle c); apply app_inv_head in Hab; by apply app_inv_head in Hab.
Qed.
(** The registries of the settings pages have distinct sections, among them the
    one shown first. *)
Lemma registries_distinct :
  Forall (fun c => NoDup (sectionIds c) /\ defaultSection c ∈ sectionIds c)
    [billingRegistry; contentRegistry; policiesRegistry; siteRegistry; authRegistry; modelsRegistry; operationsRegistry; securityRegistry].
Proof. apply (bool_decide_unpack _). vm_compute. exact I. Qed.
Lemma registry_pages_witness : getSectionMeta billingRegistry "currency" = Some (Section_ "currency" "Currency & Display" tt).
Proof.
  refine (proj1 (proj1 (registry_pages billingRegistry _) (Section_ "currency" "Currency & Display" tt) _)).
  - apply (bool_decide_unpack _). vm_compute. exact I.
  - right. left.
Defined.

(** ** Addresses *)

Lemma split_first_none c s : c ∉ s -> split_first c s = s.
Proof.
  induction s as [|x s IH]; [done|]. intros H. apply not_elem_of_cons in H as [H1 H2]. cbn. rewrite IH by done.
  by rewrite (proj2 (N.eqb_neq x c)) by congruence.
Qed.
Lemma split_first_clean c s : c ∉ split_first c s.
Proof.
  induction s as [|x s IH]; [apply not_elem_of_nil|]. cbn. destruct (N.eqb x c) eqn:E; [apply not_elem_of_nil|].
  apply not_elem_of_cons. split; [|done]. by apply N.eqb_neq in E.
Qed.
Lemma drop_slashes_sub s : drop_slashes s ⊆ s.
Proof.
  induction s as [|x s IH]; [done|]. cbn [drop_slashes]. destruct (drop_slashes s) as [|y r] eqn:E.
  - destruct (N.eqb x slash); [apply list_subseteq_nil|]. intros z ->%list_elem_of_singleton. left.
  - intros z [->|Hz]%elem_of_cons; [left|]. right. by apply IH.
Qed.
Lemma drop_slashes_idem s : drop_slashes (drop_slashes s) = drop_slashes s.
Proof.
  induction s as [|x s IH]; [done|]. cbn [drop_slashes]. destruct (drop_slashes s) as [|y r] eqn:E.
  - destruct (N.eqb x slash) eqn:Ex; [done|]. cbn. by rewrite Ex.
  - change (drop_slashes (x :: y :: r)) with (match drop_slashes (y :: r) with [] => if N.eqb x slash then [] else [x] | r' => x :: r' end).
    by rewrite IH.
Qed.
(** Normalising an address twice changes nothing more. *)
Theorem normalizeHref_stable href : normalizeHref (normalizeHref href) = normalizeHref href.
Proof.
  unfold normalizeHref. pose proof (split_first_clean qmark href) as Hc. set (s := split_first qmark href) in *.
  destruct (1 <? length s) eqn:E.
  - rewrite (split_first_none qmark (drop_slashes s)) by (intros H%drop_slashes_sub; done).
    destruct (1 <? length (drop_slashes s)); [apply drop_slashes_idem|done].
  - rewrite (split_first_none qmark s Hc). by rewrite E.
Qed.
End SidebarViewing.
