(* ===== verification/LegacyRoutes.v ===== *)
(** Addresses of the former interface: module LegacyRoutes is
    src/web/src/lib/legacy-route.ts, module SettingsRoutes the guards of the
    settings pages (routes/_authenticated/business-settings and
    system-settings), module LegacyMoves the theorems on both.  The URL class
    of the browser is a parameter: what it reads and how it prints parameters.
    Paths of routes are taken without a trailing slash. *)
From S2P Require Import Prelude JsNumber JsCollections Json NavModules NavModulesProofs SidebarView SidebarViewProofs.

Module LegacyRoutes.
Record URL := Url { pathname : jsstr; searchParams : list (jsstr * jsstr); hash : jsstr }.
(** [new_URL s] is [new URL(s, legacyOrigin)], absent when it throws;
    [search_text] prints parameters, with the question mark if there are any. *)
Class UrlInterface := { new_URL : jsstr -> option URL; search_text : list (jsstr * jsstr) -> jsstr }.

Definition legacyConsoleRoutes : list (jsstr * jsstr) :=
  [("/console" : jsstr, "/dashboard" : jsstr); ("/console/models" : jsstr, "/models" : jsstr);
   ("/console/deployment" : jsstr, "/models/deployments" : jsstr); ("/console/subscription" : jsstr, "/subscriptions" : jsstr);
   ("/console/channel" : jsstr, "/channels" : jsstr); ("/console/token" : jsstr, "/keys" : jsstr);
   ("/console/playground" : jsstr, "/playground" : jsstr); ("/console/redemption" : jsstr, "/redemption-codes" : jsstr);
   ("/console/user" : jsstr, "/users" : jsstr); ("/console/personal" : jsstr, "/profile" : jsstr);
   ("/console/log" : jsstr, "/usage-logs" : jsstr); ("/console/midjourney" : jsstr, "/usage-logs/drawing" : jsstr);
   ("/console/task" : jsstr, "/usage-logs/task" : jsstr)].
Definition legacySettingsTabs : list (jsstr * jsstr) :=
  [("operation" : jsstr, "/system-settings/operations/behavior" : jsstr); ("dashboard" : jsstr, "/system-settings/content/dashboard" : jsstr);
   ("chats" : jsstr, "/system-settings/content/chat" : jsstr); ("drawing" : jsstr, "/system-settings/content/drawing" : jsstr);
   ("payment" : jsstr, "/system-settings/billing/payment" : jsstr); ("ratio" : jsstr, "/system-settings/billing/model-pricing" : jsstr);
   ("ratelimit" : jsstr, "/system-settings/security/rate-limit" : jsstr); ("models" : jsstr, "/system-settings/models/global" : jsstr);
   ("performance" : jsstr, "/system-settings/operations/performance" : jsstr); ("system" : jsstr, "/system-settings/site/system-info" : jsstr);
   ("other" : jsstr, "/system-settings/site/system-info" : jsstr)].

Definition normalizeLegacyPath (pathname : jsstr) : jsstr := if str_eqb pathname "/" then pathname else ActiveItems.drop_slashes pathname.
(** The path an old address moves to; [None] when it is no old address. *)
Definition legacy_target (pathname : jsstr) (params : list (jsstr * jsstr)) : option jsstr :=
  if str_eqb pathname "/login" then Some ("/sign-in" : jsstr)
  else if str_eqb pathname "/forbidden" then Some ("/403" : jsstr)
  else if str_eqb pathname "/console/topup" then Some ("/wallet" : jsstr)
  else if str_eqb pathname "/console/setting" then
    Some (nullish (obj_get (nullish (obj_get "tab" params) []) legacySettingsTabs) "/system-settings")
  else if str_eqb pathname "/console/chat" then Some ("/dashboard" : jsstr)
  else match strip_prefix "/console/chat/" pathname with
       | Some chatID => Some (if truthy chatID then "/chat/" ++ chatID else "/dashboard")
       | None =>
           match obj_get pathname legacyConsoleRoutes with
           | Some target => Some target
           | None => if starts_with "/console/" pathname then Some ("/dashboard" : jsstr) else None
           end
       end.

Section Resolution.
Context `{UrlInterface}.
(** [None] when the constructor throws. *)
Definition buildTargetHref (targetPath : jsstr) (source : URL) : option jsstr :=
  target ← new_URL targetPath;
  Some (pathname target ++ search_text (searchParams target ++ searchParams source) ++ hash source).
Inductive Resolution := Stays | Moves (href : jsstr) | Throws.
Definition resolveLegacyRoute (rawHref : jsstr) : Resolution :=
  match new_URL rawHref with
  | None => Stays
  | Some source =>
      match legacy_target (normalizeLegacyPath (pathname source)) (searchParams source) with
      | None => Stays
      | Some targetPath => match buildTargetHref targetPath source with Some href => Moves href | None => Throws end
      end
  end.
End Resolution.
End LegacyRoutes.

Module SettingsRoutes.
Import SectionRegistry.
Inductive Arrival := Shows (page section : jsstr) | Redirected (to : jsstr) | NotFound.
Definition default_path (c : @SectionRegistryConfig unit) : jsstr := basePath c ++ "/" ++ defaultSection c.
(** beforeLoad of the routes with a section parameter; that of the operations
    pages knows a former section besides. *)
Definition section_route (c : @SectionRegistryConfig unit) (section : jsstr) : Arrival :=
  if existsb (str_eqb section) (sectionIds c) then Shows (basePath c) section else Redirected (default_path c).
Definition operations_route (section : jsstr) : Arrival :=
  if str_eqb section "monitoring" then Redirected "/system-settings/models/routing-reliability" else section_route operationsRegistry section.
Definition registries : list (@SectionRegistryConfig unit) :=
  [billingRegistry; contentRegistry; policiesRegistry; siteRegistry; authRegistry; modelsRegistry; operationsRegistry; securityRegistry].
Definition page_route (path : jsstr) (c : @SectionRegistryConfig unit) : option Arrival :=
  if str_eqb path (basePath c) then Some (Redirected (default_path c))
  else match strip_prefix (basePath c ++ "/") path with
       | Some section =>
           if truthy section && negb (includes "/" section)
           then Some (if str_eqb (basePath c) "/system-settings/operations" then operations_route section else section_route c section)
           else None
       | None => None
       end.
Fixpoint first_route (path : jsstr) (l : list (@SectionRegistryConfig unit)) : Arrival :=
  match l with [] => NotFound | c :: t => match page_route path c with Some a => a | None => first_route path t end end.
(** The paths under /business-settings and /system-settings. *)
Definition settings_route (path : jsstr) : Arrival :=
  if str_eqb path "/business-settings" then Redirected (default_path billingRegistry)
  else if str_eqb path "/system-settings" then Redirected "/system-info"
  else first_route path registries.
End SettingsRoutes.

Module LegacyMoves.
Import LegacyRoutes SettingsRoutes SectionRegistry ActiveItems.

(** ** What the URL class promises *)

(** The paths addresses move to: those of the tables and of one chat. *)
Definition table_targets : list jsstr :=
  ["/sign-in" : jsstr; "/403" : jsstr; "/wallet" : jsstr; "/system-settings" : jsstr; "/dashboard" : jsstr]
  ++ map snd legacySettingsTabs ++ map snd legacyConsoleRoutes.
Definition target_of (u : URL) (p : jsstr) : Prop :=
  p ∈ table_targets \/ exists chatID, normalizeLegacyPath (pathname u) = "/console/chat/" ++ chatID /\ p = "/chat/" ++ chatID.
Class UrlLaws `{UrlInterface} := {
  (** a path without parameters is read as that path *)
  read_path s u p : new_URL s = Some u -> target_of u p -> new_URL p = Some (Url p [] []);
  (** an address printed from parts is read as these parts *)
  read_parts s u p : new_URL s = Some u -> target_of u p ->
    new_URL (p ++ search_text (searchParams u) ++ hash u) = Some (Url p (searchParams u) (hash u)) }.

Lemma tab_target tab : nullish (obj_get tab legacySettingsTabs) "/system-settings" ∈ table_targets.
Proof.
  unfold nullish. destruct (obj_get tab legacySettingsTabs) as [t|] eqn:E; [|apply (bool_decide_unpack _); vm_compute; exact I].
  apply obj_get_elem in E. unfold table_targets. rewrite !elem_of_app. right. left. apply list_elem_of_In.
  apply (in_map snd _ (tab, t)). by apply list_elem_of_In.
Qed.
Lemma legacy_target_of s params p : legacy_target s params = Some p ->
  p ∈ table_targets \/ exists chatID, s = "/console/chat/" ++ chatID /\ p = "/chat/" ++ chatID.
Proof.
  assert (Hin : forall x, bool_decide (x ∈ table_targets) = true -> x ∈ table_targets) by (intros x; by rewrite bool_decide_eq_true).
  unfold legacy_target. repeat match goal with |- context [if str_eqb s ?c then _ else _] => destruct (str_eqb s c) end;
    try (intros [= <-]; left; by apply Hin).
  - intros [= <-]. left. apply tab_target.
  - destruct (strip_prefix "/console/chat/" s) as [chatID|] eqn:E.
    + apply strip_prefix_spec in E as ->. destruct (truthy chatID); intros [= <-]; [right; by exists chatID|left; by apply Hin].
    + destruct (obj_get s legacyConsoleRoutes) as [t|] eqn:Et.
      * intros [= <-]. apply obj_get_elem in Et. left. unfold table_targets. rewrite !elem_of_app. right. right. apply list_elem_of_In.
        apply (in_map snd _ (s, t)). by apply list_elem_of_In.
      * destruct (starts_with "/console/" s); [|done]. intros [= <-]. left. by apply Hin.
Qed.
Lemma targets_stay : Forall (fun p => legacy_target (normalizeLegacyPath p) [] = None /\ str_eqb (normalizeLegacyPath p) "/console/setting" = false) table_targets.
Proof. apply (bool_decide_unpack _). vm_compute. exact I. Qed.
Lemma drop_slashes_after a x b : N.eqb x slash = false -> drop_slashes (a ++ x :: b) = a ++ x :: drop_slashes b.
Proof.
  intros Hx. induction a as [|y a IH]; cbn [app drop_slashes].
  - rewrite Hx. by destruct (drop_slashes b).
  - rewrite IH. by destruct a.
Qed.
Lemma target_stays u p params : target_of u p -> legacy_target (normalizeLegacyPath p) params = None.
Proof.
  intros [Hp|(chatID & _ & ->)].
  - pose proof targets_stay as Ha. rewrite Forall_forall in Ha. destruct (Ha p Hp) as [H1 H2]. revert H1. unfold legacy_target. by rewrite H2.
  - assert (Hn : normalizeLegacyPath ("/chat/" ++ chatID) = "/chat" ++ drop_slashes (slash :: chatID)).
    { unfold normalizeLegacyPath. replace (str_eqb ("/chat/" ++ chatID) "/") with false by reflexivity.
      exact (drop_slashes_after "/cha" 116%N (slash :: chatID) eq_refl). }
    rewrite Hn. reflexivity.
Qed.

Section Moves.
Context `{UrlLaws}.
(** Every address is moved at most once, never fails, and keeps its parameters and
    fragment; only the paths under /console, /login and /forbidden move. *)
Theorem legacy_moves_once raw :
  match resolveLegacyRoute raw with
  | Stays => True
  | Throws => False
  | Moves href =>
      exists u p, new_URL raw = Some u /\ legacy_target (normalizeLegacyPath (pathname u)) (searchParams u) = Some p /\
        href = p ++ search_text (searchParams u) ++ hash u /\ resolveLegacyRoute href = Stays
  end.
Proof.
  unfold resolveLegacyRoute at 1. destruct (new_URL raw) as [u|] eqn:Eu; [|done].
  destruct (legacy_target (normalizeLegacyPath (pathname u)) (searchParams u)) as [p|] eqn:Ep; [|done].
  assert (Ht : target_of u p) by exact (legacy_target_of _ _ _ Ep).
  unfold buildTargetHref. rewrite (read_path raw u p Eu Ht). cbn [mbind option_bind pathname searchParams app].
  exists u, p. split_and!; [done..|]. unfold resolveLegacyRoute. rewrite (read_parts raw u p Eu Ht). cbn [pathname searchParams].
  by rewrite (target_stays u p _ Ht).
Qed.
End Moves.

(** No address of the present navigation is an old one. *)
Theorem current_pages_stay : Forall (fun l => legacy_target (normalizeLegacyPath l.1) [] = None) (SidebarGates.leaves SidebarViewing.all_groups).
Proof. apply (bool_decide_unpack _). vm_compute. exact I. Qed.

(** ** Where the settings tabs arrive *)

(** Every section of a registry is shown at its address, and any other section
    leads to one that is shown. *)
Theorem section_routes_arrive c section :
  c ∈ registries ->
  (section ∈ sectionIds c -> section_route c section = Shows (basePath c) section) /\
  (section ∉ sectionIds c -> section_route c section = Redirected (default_path c)) /\
  settings_route (default_path c) = Shows (basePath c) (defaultSection c).
Proof.
  intros Hc. unfold section_route. split_and!.
  - intros Hs. rewrite (proj2 (existsb_exists _ _)); [done|]. exists section. split; [by apply list_elem_of_In|apply str_eqb_refl].
  - intros Hs. destruct (existsb (str_eqb section) (sectionIds c)) eqn:E; [|done]. exfalso.
    apply existsb_exists in E as (x & Hx & ->%str_eqb_true). by apply Hs, list_elem_of_In.
  - revert Hc. repeat (intros [->|Hc]%elem_of_cons; [vm_compute; reflexivity|revert Hc]). by intros ?%elem_of_nil.
Qed.
(** Of the tabs of the former settings page only four still lead to a settings
    page, one of them to another section than its own; the other seven lead to
    paths that have no page since the content, billing and site settings moved
    to the business workspace. *)
Theorem settings_tabs_arrive :
  map (fun e => (e.1, settings_route e.2)) legacySettingsTabs =
  [("operation" : jsstr, Shows "/system-settings/operations" "behavior"); ("dashboard" : jsstr, NotFound); ("chats" : jsstr, NotFound);
   ("drawing" : jsstr, NotFound); ("payment" : jsstr, NotFound); ("ratio" : jsstr, NotFound);
   ("ratelimit" : jsstr, Redirected "/system-settings/security/sensitive-words"); ("models" : jsstr, Shows "/system-settings/models" "global");
   ("performance" : jsstr, Shows "/system-settings/operations" "performance"); ("system" : jsstr, NotFound); ("other" : jsstr, NotFound)].
Proof. vm_compute. reflexivity. Qed.

(** ** A URL class that keeps the laws *)

(** Paths and fragments, without parameters. *)
Definition fragment_mark : N := 35.
#[local] Instance path_urls : UrlInterface := {
  new_URL s := if starts_with "/" s then Some (Url (split_first fragment_mark s) [] (drop (length (split_first fragment_mark s)) s)) else None;
  search_text _ := [] }.
Lemma split_first_app c p h : c ∉ p -> match h with [] => True | x :: _ => x = c end -> split_first c (p ++ h) = p.
Proof.
  induction p as [|x p IH]; intros Hp Hh.
  - destruct h as [|y h]; [done|]. cbn. by rewrite Hh, N.eqb_refl.
  - apply not_elem_of_cons in Hp as [H1 H2]. cbn. rewrite (proj2 (N.eqb_neq x c)) by congruence. by rewrite IH.
Qed.
Lemma split_rest c s : match drop (length (split_first c s)) s with [] => True | x :: _ => x = c end.
Proof. induction s as [|x s IH]; [done|]. cbn. destruct (N.eqb_spec x c); [done|exact IH]. Qed.
#[local] Instance path_urls_laws : UrlLaws.
Proof.
  assert (Hp : forall s u p, new_URL s = Some u -> target_of u p ->
            (starts_with "/" p = true /\ fragment_mark ∉ p) /\ searchParams u = [] /\ match hash u with [] => True | x :: _ => x = fragment_mark end).
  { intros s u p. cbn [new_URL path_urls]. destruct (starts_with "/" s); [|done]. intros [= <-]. cbn [searchParams hash].
    intros Ht. split; [|split; [done|apply split_rest]]. destruct Ht as [Ht|(chatID & Hid & ->)].
    - assert (Ha : Forall (fun p => starts_with "/" p = true /\ fragment_mark ∉ p) table_targets) by (apply (bool_decide_unpack _); vm_compute; exact I).
      rewrite Forall_forall in Ha. exact (Ha p Ht).
    - split; [done|]. assert (Hn : fragment_mark ∉ "/console/chat/" ++ chatID).
      { rewrite <- Hid. cbn [pathname]. unfold normalizeLegacyPath. pose proof (SidebarViewing.split_first_clean fragment_mark s) as Hc.
        destruct (str_eqb _ "/"); [done|]. by intros H%SidebarViewing.drop_slashes_sub. }
      rewrite elem_of_app in Hn |- *. intros [H|H]; [|by apply Hn; right]. revert H. apply (bool_decide_unpack _). vm_compute. exact I. }
  split.
  - intros s u p Hu Ht. destruct (Hp s u p Hu Ht) as [[Hs Hf] _]. cbn [new_URL path_urls]. rewrite Hs, SidebarViewing.split_first_none by done.
    by rewrite drop_all.
  - intros s u p Hu Ht. destruct (Hp s u p Hu Ht) as ([Hs Hf] & -> & Hh). cbn [new_URL search_text path_urls app].
    apply starts_with_spec in Hs as [t ->]. rewrite <- app_assoc, starts_with_app, app_assoc.
    rewrite split_first_app by done. by rewrite drop_app_length.
Qed.
Lemma legacy_moves_once_witness :
  resolveLegacyRoute "/console/chat/7/#top" = Moves "/chat/7#top" /\ resolveLegacyRoute "/chat/7#top" = Stays.
Proof.
  pose proof (legacy_moves_once "/console/chat/7/#top") as H. revert H. vm_compute (resolveLegacyRoute "/console/chat/7/#top").
  intros (u & p & _ & _ & _ & H). split; [done|exact H].
Defined.
End LegacyMoves.
