(* ===== verification/ChannelForm.v ===== *)
(** The form of a channel: module CostRatio is the checks of
    src/web/src/features/channels/lib/channel-cost.ts, module ChannelForm is
    lib/channel-form.ts with the request that hooks/use-channel-mutate-form.ts
    sends.  The theorems are in [ChannelFormProofs].

    Text fields and switches of the form always hold a value, as both objects of
    start values give one; numbers may be missing.  Values that opening copies
    from the stored JSON without checking their type stay JSON values here. *)
From Stdlib Require Import Floats.SpecFloat.
From S2P Require Import Prelude JsNumber JsCollections Json JsonText AdvancedCustom AdvancedCustomText Permissions.

Module CostRatio.
Definition MAX_COST_RATIO : jsnum := num 100.
Definition COST_STALE_DAYS : jsnum := num 30.
Definition cost_text (costRatio : option jsstr) : jsstr := trim (nullish costRatio []).
Definition isCostRatioConfigured (costRatio : option jsstr) : bool :=
  let raw := cost_text costRatio in
  if negb (truthy raw) then false
  else is_finite (string_to_number raw) && num_ltb (num 0) (string_to_number raw).
Definition isCostRatioInputAllowed (costRatio : option jsstr) : bool :=
  let raw := cost_text costRatio in
  if negb (truthy raw) then true else isCostRatioConfigured (Some raw).
Definition isCostRatioWithinMax (costRatio : option jsstr) : bool :=
  if negb (isCostRatioConfigured costRatio) then true else num_leb (string_to_number (cost_text costRatio)) MAX_COST_RATIO.
(** [now] is [Date.now()]. *)
Definition isCostRatioStale (now : jsnum) (costUpdatedAt : option jsnum) (days : jsnum) : bool :=
  match costUpdatedAt with
  | None => true
  | Some t =>
      if negb (num_truthy t) || num_leb t (num 0) then true
      else num_ltb (num_mul (num_mul (num_mul days (num 24)) (num 60)) (num 60)) (num_sub (num_div now (num 1000)) t)
  end.
Definition formatCostRatio (costRatio : option jsstr) : jsstr :=
  if negb (isCostRatioConfigured costRatio) then [] else num_to_string (string_to_number (cost_text costRatio)).
End CostRatio.

Module ChannelForm.
Import CostRatio AdvancedCustom AdvancedCustomText.

(** ** Channels and form values *)

(** The fields of a stored channel that the form reads; type and status are
    small integers. *)
Record Channel := Channel_ {
  id : Z; c_name : jsstr; c_type : Z; c_base_url : option jsstr; c_openai_organization : option jsstr; c_models : jsstr;
  c_group : jsstr; c_model_mapping : option jsstr; c_priority : option jsnum; c_weight : option jsnum; c_cost_ratio : option jsstr;
  c_test_model : option jsstr; c_auto_ban : option jsnum; c_status : Z; c_status_code_mapping : option jsstr; c_tag : option jsstr;
  c_remark : jsstr; c_setting : option jsstr; c_param_override : option jsstr; c_header_override : option jsstr; c_settings : jsstr;
  c_other : jsstr; multi_key_mode_info : jsstr }.

Inductive MultiKeyMode := single | batch | multi_to_single.
Inductive KeyMode := append | replace.

(** The values stored in the JSON of setting. *)
Record ExtraSettings := Extra {
  force_format : json; thinking_to_content : json; proxy : json; http_protocol : jsstr; http2_connection_shards : option json;
  pass_through_body_enabled : json; system_prompt : json; system_prompt_override : json }.
(** The values stored in the JSON of settings. *)
Record TypeSettings := Typed {
  vertex_key_type : json; azure_responses_version : json; is_enterprise_account : bool; aws_key_type : json;
  allow_service_tier : bool; disable_store : bool; allow_safety_identifier : bool; allow_include_obfuscation : bool;
  allow_inference_geo : bool; allow_speed : bool; claude_beta_query : bool; disable_task_polling_sleep : bool;
  upstream_model_update_check_enabled : bool; upstream_model_update_auto_sync_enabled : bool;
  upstream_model_update_ignored_models : jsstr; advanced_custom : jsstr }.
Record ChannelFormValues := Values {
  name : jsstr; type : Z; base_url : jsstr; key : jsstr; openai_organization : jsstr; form_models : jsstr; group : list jsstr;
  model_mapping : jsstr; priority : option jsnum; weight : option jsnum; cost_ratio : jsstr; test_model : jsstr;
  auto_ban : option jsnum; status : Z; status_code_mapping : jsstr; tag : jsstr; remark : jsstr; setting : jsstr;
  param_override : jsstr; header_override : jsstr; settings : jsstr; other : jsstr; multi_key_mode : MultiKeyMode;
  multi_key_type : jsstr; batch_add_set_key_prefix_2_name : bool; key_mode : option KeyMode;
  extra : ExtraSettings; typed : TypeSettings }.

Definition HTTP_PROTOCOL_AUTO : jsstr := "auto".
Definition HTTP_PROTOCOL_HTTP1 : jsstr := "http1".
Definition MAX_HTTP2_CONNECTION_SHARDS : jsnum := num 8.
Definition CHANNEL_TYPE_NEW_API : Z := 60.
Definition CHANNEL_TYPE_ADVANCED_CUSTOM : Z := 58.
Definition FIELD_PASSTHROUGH_TYPES : list Z := [1; 14; 57; 58; 59; CHANNEL_TYPE_NEW_API]%Z.
Definition OPENAI_FIELD_PASSTHROUGH_TYPES : list Z := [1; 57; 58; 59; CHANNEL_TYPE_NEW_API]%Z.
Definition CLAUDE_FIELD_PASSTHROUGH_TYPES : list Z := [14; 58; 59; CHANNEL_TYPE_NEW_API]%Z.
Definition MODEL_FETCHABLE_TYPES : list Z :=
  [1; 4; 14; 17; 20; 23; 24; 25; 26; 27; 31; 34; 35; 40; 42; 43; 47; 48; 57; 58; 59; 60]%Z.

(** [v || d] *)
Definition json_or (v : option json) (d : json) : json :=
  match v with Some j => if json_truthy v then j else d | None => d end.
Definition off : json := JBool false.

(** [String(value || '')]; toLowerCase against a word of ASCII letters. *)
Definition normalizeHttpProtocol (value : option json) : jsstr :=
  if str_eqb (lower (trim (json_to_string (json_or value (JStr []))))) HTTP_PROTOCOL_HTTP1 then HTTP_PROTOCOL_HTTP1 else HTTP_PROTOCOL_AUTO.
(** The comparisons convert other values to numbers; such a value is passed on. *)
Definition normalizeHttp2ConnectionShards (value : option json) : json :=
  let one := JNum (num 1) in
  match value with
  | None | Some JNull => one
  | Some v =>
      let n := json_to_number value in
      let is_number := match v with JNum _ => true | _ => false end in
      if is_number && (is_nan n || num_eqb n (num 0)) then one
      else if num_ltb n (num 1) then one
      else if num_ltb MAX_HTTP2_CONNECTION_SHARDS n then JNum MAX_HTTP2_CONNECTION_SHARDS
      else v
  end.

(** [groups.split(',').map(trim).filter(length > 0)] *)
Definition split_names (s : jsstr) : list jsstr := if truthy s then filter_truthy (map trim (split_char 44 s)) else [].
Definition parseModels : jsstr -> list jsstr := split_names.
Definition parseGroups : jsstr -> list jsstr := split_names.
Definition formatModels (l : list jsstr) : jsstr := join "," l.
Definition formatGroups (l : list jsstr) : jsstr := join "," l.

Definition default_extra : ExtraSettings :=
  Extra off off (JStr []) HTTP_PROTOCOL_AUTO (Some (JNum (num 1))) off (JStr []) off.
Definition default_typed : TypeSettings :=
  Typed (JStr "json") (JStr []) false (JStr "ak_sk") false false false false false false false false false false [] [].
Definition CHANNEL_FORM_DEFAULT_VALUES : ChannelFormValues :=
  Values [] 1 [] [] [] [] ["default" : jsstr] [] (Some (num 0)) (Some (num 0)) [] [] (Some (num 1)) 1 [] [] [] [] [] [] "{}" []
    single "random" false (Some append) default_extra default_typed.

(** ** Opening *)

Definition read_extra (v : json) : ExtraSettings :=
  let get k := prop k (Some v) in
  let protocol := normalizeHttpProtocol (get "http_protocol") in
  let shards := normalizeHttp2ConnectionShards (get "http2_connection_shards") in
  Extra (json_or (get "force_format") off) (json_or (get "thinking_to_content") off) (json_or (get "proxy") (JStr [])) protocol
    (Some (if str_eqb protocol HTTP_PROTOCOL_HTTP1 then JNum (num 1) else shards))
    (json_or (get "pass_through_body_enabled") off) (json_or (get "system_prompt") (JStr [])) (json_or (get "system_prompt_override") off).
(** Reading a property of null throws, which is caught. *)
Definition extraSettings (setting : option jsstr) : ExtraSettings :=
  match setting with
  | Some s => if truthy s then match parse s with Some JNull | None => default_extra | Some v => read_extra v end else default_extra
  | None => default_extra
  end.

(** [x === true] *)
Definition is_true (v : option json) : bool := match v with Some (JBool true) => true | _ => false end.
(** A configuration whose fields may have any type, as normalising passes it on. *)
Definition raw_auth_json (a : raw_auth) : json :=
  JObj ((match raw_type a with Some v => [("type" : jsstr, v)] | None => [] end)
        ++ [("name" : jsstr, raw_name a); ("value" : jsstr, raw_value a)]).
Definition raw_route_json (r : raw_route) : json :=
  JObj ([("incoming_path" : jsstr, raw_incoming_path r); ("upstream_path" : jsstr, JStr (raw_upstream_path r)); ("converter" : jsstr, raw_converter r)]
        ++ (match raw_models r with [] => [] | ms => [("models" : jsstr, JArr (map JStr ms))] end)
        ++ (match raw_route_auth r with Some a => [("auth" : jsstr, raw_auth_json a)] | None => [] end)).
Definition raw_config_json (l : list raw_route) : json := JObj [("advanced_routes" : jsstr, JArr (map raw_route_json l))].
(** The text of a stored configuration; empty when normalising it throws. *)
Definition advanced_text (v : option json) : jsstr :=
  if json_truthy v then
    match v with
    | Some (JObj o) => match normalize_raw_config o with Some l => stringify_pretty (raw_config_json l) | None => [] end
    | _ => stringify_pretty (raw_config_json [])
    end
  else [].
Definition read_typed (v : json) : TypeSettings :=
  let get k := prop k (Some v) in
  Typed (json_or (get "vertex_key_type") (JStr "json")) (json_or (get "azure_responses_version") (JStr []))
    (is_true (get "openrouter_enterprise")) (json_or (get "aws_key_type") (JStr "ak_sk"))
    (is_true (get "allow_service_tier")) (is_true (get "disable_store")) (is_true (get "allow_safety_identifier"))
    (is_true (get "allow_include_obfuscation")) (is_true (get "allow_inference_geo")) (is_true (get "allow_speed"))
    (is_true (get "claude_beta_query")) (is_true (get "disable_task_polling_sleep"))
    (is_true (get "upstream_model_update_check_enabled")) (is_true (get "upstream_model_update_auto_sync_enabled"))
    (match get "upstream_model_update_ignored_models" with Some (JArr l) => json_to_string (JArr l) | _ => [] end)
    (advanced_text (get "advanced_custom")).
Definition typedSettings (settings : jsstr) : TypeSettings :=
  if truthy settings then match parse settings with Some JNull | None => default_typed | Some v => read_typed v end else default_typed.

Definition text_or (v : option jsstr) (d : jsstr) : jsstr := str_or (nullish v []) d.
(** [v || 0] *)
Definition num_or_zero (v : option jsnum) : jsnum := match v with Some n => if num_truthy n then n else num 0 | None => num 0 end.
Definition transformChannelToFormDefaults (c : Channel) : ChannelFormValues :=
  Values (c_name c) (c_type c) (text_or (c_base_url c) []) [] (text_or (c_openai_organization c) []) (c_models c)
    (parseGroups (str_or (c_group c) "default")) (text_or (c_model_mapping c) []) (Some (num_or_zero (c_priority c)))
    (Some (num_or_zero (c_weight c))) (text_or (c_cost_ratio c) []) (text_or (c_test_model c) [])
    (Some (nullish (c_auto_ban c) (num 1))) (c_status c) (text_or (c_status_code_mapping c) []) (text_or (c_tag c) []) (c_remark c)
    (text_or (c_setting c) []) (text_or (c_param_override c) []) (text_or (c_header_override c) []) (str_or (c_settings c) "{}") (c_other c)
    single (str_or (multi_key_mode_info c) "random") false (Some append) (extraSettings (c_setting c)) (typedSettings (c_settings c)).

(** ** Saving *)

(** [None] when trimming a proxy that is no string throws. *)
Definition setting_object (e : ExtraSettings) : option (obj json) :=
  proxy ← match proxy e with JStr s => Some (trim s) | JNull => Some [] | _ => None end;
  let base : obj json :=
    [("force_format" : jsstr, json_or (Some (force_format e)) off); ("thinking_to_content" : jsstr, json_or (Some (thinking_to_content e)) off);
     ("proxy" : jsstr, JStr proxy); ("pass_through_body_enabled" : jsstr, json_or (Some (pass_through_body_enabled e)) off);
     ("system_prompt" : jsstr, json_or (Some (system_prompt e)) (JStr []));
     ("system_prompt_override" : jsstr, json_or (Some (system_prompt_override e)) off)] in
  let protocol := normalizeHttpProtocol (Some (JStr (http_protocol e))) in
  let shards := if str_eqb protocol HTTP_PROTOCOL_HTTP1 then JNum (num 1) else normalizeHttp2ConnectionShards (http2_connection_shards e) in
  Some (if str_eqb protocol HTTP_PROTOCOL_HTTP1 then obj_set "http_protocol" (JStr HTTP_PROTOCOL_HTTP1) base
        else if num_ltb (num 1) (json_to_number (Some shards)) then obj_set "http2_connection_shards" shards base else base).
Definition buildSettingJSON (f : ChannelFormValues) : option jsstr := (fun o => stringify (JObj o)) <$> setting_object (extra f).

(** A property that is set under a condition and removed otherwise. *)
Definition put (c : bool) (k : jsstr) (v : json) (o : obj json) : obj json := if c then obj_set k v o else obj_delete k o.
Definition upstream_settings (t : TypeSettings) (o : obj json) : obj json :=
  let check := upstream_model_update_check_enabled t in
  let o := obj_set "upstream_model_update_check_enabled" (JBool check) o in
  let o := obj_set "upstream_model_update_auto_sync_enabled" (JBool (check && upstream_model_update_auto_sync_enabled t)) o in
  let o := obj_set "upstream_model_update_ignored_models"
             (JArr (map JStr (nub (split_names (upstream_model_update_ignored_models t))))) o in
  let o := match obj_get "upstream_model_update_last_detected_models" o with
           | Some (JArr _) => if check then o else obj_set "upstream_model_update_last_detected_models" (JArr []) o
           | _ => obj_set "upstream_model_update_last_detected_models" (JArr []) o
           end in
  match obj_get "upstream_model_update_last_check_time" o with
  | Some (JNum _) => o
  | _ => obj_set "upstream_model_update_last_check_time" (JNum (num 0)) o
  end.
Definition advanced_settings (ty : Z) (t : TypeSettings) (o : obj json) : obj json :=
  if (ty =? CHANNEL_TYPE_ADVANCED_CUSTOM)%Z then
    match parseAdvancedCustomConfig (Some (advanced_custom t)) with
    | NoConfig => o
    | Config c => obj_set "advanced_custom" (config_json c) o
    | IllTyped l => obj_set "advanced_custom" (raw_config_json l) o
    end
  else obj_delete "advanced_custom" o.
Definition settings_object (ty : Z) (t : TypeSettings) (o : obj json) : obj json :=
  let openai := has ty OPENAI_FIELD_PASSTHROUGH_TYPES in
  let claude := has ty CLAUDE_FIELD_PASSTHROUGH_TYPES in
  let o := put (ty =? 41)%Z "vertex_key_type" (json_or (Some (vertex_key_type t)) (JStr "json")) o in
  let o := put ((ty =? 3)%Z && json_truthy (Some (azure_responses_version t))) "azure_responses_version" (azure_responses_version t) o in
  let o := put (ty =? 20)%Z "openrouter_enterprise" (JBool (is_enterprise_account t)) o in
  let o := put (ty =? 33)%Z "aws_key_type" (json_or (Some (aws_key_type t)) (JStr "ak_sk")) o in
  let o := put (has ty FIELD_PASSTHROUGH_TYPES) "allow_service_tier" (JBool (allow_service_tier t)) o in
  let o := put openai "disable_store" (JBool (disable_store t)) o in
  let o := put openai "allow_safety_identifier" (JBool (allow_safety_identifier t)) o in
  let o := put openai "allow_include_obfuscation" (JBool (allow_include_obfuscation t)) o in
  let o := put (openai || claude) "allow_inference_geo" (JBool (allow_inference_geo t)) o in
  let o := put claude "allow_speed" (JBool (allow_speed t)) o in
  let o := put (ty =? 14)%Z "claude_beta_query" (JBool (claude_beta_query t)) o in
  let o := obj_set "disable_task_polling_sleep" (JBool (disable_task_polling_sleep t)) o in
  let o := if has ty MODEL_FETCHABLE_TYPES then upstream_settings t o else o in
  advanced_settings ty t o.
(** The stored settings the form starts from: an empty object for texts that do
    not parse.  [None] when they are no object, where the operator in and
    assignments throw; JSON.stringify leaves named properties of arrays out. *)
Definition buildSettingsJSON (f : ChannelFormValues) : option jsstr :=
  let stored := if truthy (settings f) && negb (str_eqb (settings f) "{}") then nullish (parse (settings f)) (JObj []) else JObj [] in
  match stored with
  | JObj o => Some (stringify (JObj (settings_object (type f) (typed f) o)))
  | JArr l => Some (stringify (JArr l))
  | _ => None
  end.

(** [String(value || '').trim().replace(/\/+$/, '')] *)
Fixpoint drop_trailing (c : N) (s : jsstr) : jsstr :=
  match s with [] => [] | x :: t => match drop_trailing c t with [] => if N.eqb x c then [] else [x] | r => x :: r end end.
Definition normalizeBaseUrl (value : jsstr) : jsstr := drop_trailing 47 (trim value).
(** [v || null] *)
Definition text_or_null (s : jsstr) : json := if truthy s then JStr s else JNull.
Definition num_or_null (v : option jsnum) : json := match v with Some n => if num_truthy n then JNum n else JNull | None => JNull end.
(** The loop that turns empty texts into null. *)
Definition clean (o : obj json) : obj json := map (fun kv => (kv.1, match kv.2 with JStr [] => JNull | v => v end)) o.

Record CreatePayload := Create {
  mode : MultiKeyMode; payload_multi_key_mode : option jsstr; payload_batch_prefix : option bool; channel : obj json }.
Definition transformFormDataToCreatePayload (f : ChannelFormValues) : option CreatePayload :=
  setting ← buildSettingJSON f; settings ← buildSettingsJSON f;
  Some (Create (multi_key_mode f)
    (match multi_key_mode f with multi_to_single => Some (multi_key_type f) | _ => None end)
    (match multi_key_mode f with batch => Some (batch_add_set_key_prefix_2_name f) | _ => None end)
    (clean [("name" : jsstr, JStr (name f)); ("type" : jsstr, JNum (num (type f))); ("base_url" : jsstr, text_or_null (normalizeBaseUrl (base_url f)));
      ("key" : jsstr, JStr (key f)); ("openai_organization" : jsstr, text_or_null (openai_organization f)); ("models" : jsstr, JStr (form_models f));
      ("group" : jsstr, JStr (formatGroups (group f))); ("model_mapping" : jsstr, text_or_null (model_mapping f));
      ("priority" : jsstr, num_or_null (priority f)); ("weight" : jsstr, num_or_null (weight f)); ("cost_ratio" : jsstr, text_or_null (trim (cost_ratio f)));
      ("test_model" : jsstr, text_or_null (test_model f)); ("auto_ban" : jsstr, JNum (nullish (auto_ban f) (num 1))); ("status" : jsstr, JNum (num (status f)));
      ("status_code_mapping" : jsstr, text_or_null (status_code_mapping f)); ("tag" : jsstr, text_or_null (tag f)); ("remark" : jsstr, JStr (remark f));
      ("setting" : jsstr, JStr setting); ("param_override" : jsstr, text_or_null (param_override f)); ("header_override" : jsstr, text_or_null (header_override f));
      ("settings" : jsstr, JStr settings); ("other" : jsstr, JStr (other f))])).

(** The last assignments, which send empty texts for fields to be cleared. *)
Definition explicit_texts (f : ChannelFormValues) : obj json :=
  [("base_url" : jsstr, JStr (normalizeBaseUrl (base_url f))); ("openai_organization" : jsstr, JStr (openai_organization f));
   ("test_model" : jsstr, JStr (test_model f)); ("tag" : jsstr, JStr (tag f)); ("remark" : jsstr, JStr (remark f)); ("model_mapping" : jsstr, JStr (model_mapping f));
   ("status_code_mapping" : jsstr, JStr (status_code_mapping f)); ("param_override" : jsstr, JStr (param_override f));
   ("header_override" : jsstr, JStr (header_override f))].
Definition transformFormDataToUpdatePayload (f : ChannelFormValues) (channelId : Z) : option (obj json) :=
  setting ← buildSettingJSON f; settings ← buildSettingsJSON f;
  let payload : obj json :=
    [("id" : jsstr, JNum (num channelId)); ("name" : jsstr, JStr (name f)); ("type" : jsstr, JNum (num (type f)));
     ("base_url" : jsstr, text_or_null (normalizeBaseUrl (base_url f))); ("openai_organization" : jsstr, text_or_null (openai_organization f));
     ("models" : jsstr, JStr (form_models f)); ("group" : jsstr, JStr (formatGroups (group f))); ("model_mapping" : jsstr, text_or_null (model_mapping f));
     ("priority" : jsstr, JNum (nullish (priority f) (num 0))); ("weight" : jsstr, JNum (nullish (weight f) (num 0)));
     ("cost_ratio" : jsstr, JStr (trim (cost_ratio f))); ("test_model" : jsstr, text_or_null (test_model f));
     ("auto_ban" : jsstr, JNum (nullish (auto_ban f) (num 1))); ("status_code_mapping" : jsstr, text_or_null (status_code_mapping f));
     ("tag" : jsstr, text_or_null (tag f)); ("remark" : jsstr, JStr (remark f)); ("setting" : jsstr, JStr setting);
     ("param_override" : jsstr, text_or_null (param_override f)); ("header_override" : jsstr, text_or_null (header_override f));
     ("settings" : jsstr, JStr settings); ("other" : jsstr, JStr (other f))] in
  let payload := if truthy (key f) && truthy (trim (key f)) then obj_set "key" (JStr (key f)) payload else payload in
  Some (fold_left (fun o kv => obj_set kv.1 kv.2 o) (explicit_texts f) (clean payload)).

(** ** The request *)

Definition SENSITIVE_UPDATE_FIELDS : list jsstr :=
  ["type" : jsstr; "key" : jsstr; "base_url" : jsstr; "openai_organization" : jsstr; "param_override" : jsstr; "header_override" : jsstr;
   "setting" : jsstr; "settings" : jsstr; "other" : jsstr].
Definition key_mode_json (m : KeyMode) : json := JStr (match m with append => "append" | replace => "replace" end).
(** The body of the update that the form sends for an existing channel. *)
Definition update_request (canEditSensitive isMultiKeyChannel : bool) (f : ChannelFormValues) (channelId : Z) : option (obj json) :=
  payload ← transformFormDataToUpdatePayload f channelId;
  let payload := if truthy (trim (key f)) then payload else obj_delete "key" payload in
  let payload := if canEditSensitive then payload else fold_left (fun o k => obj_delete k o) SENSITIVE_UPDATE_FIELDS payload in
  Some (match key_mode f with
        | Some m => if canEditSensitive && isMultiKeyChannel && truthy (trim (key f)) then obj_set "key_mode" (key_mode_json m) payload else payload
        | None => payload
        end).

(** ** Checks *)

(** What is read of a parsed proxy address. *)
Record ProxyURL := ProxyUrl { proxy_protocol : jsstr; hostname : jsstr; port : jsstr }.
Definition SUPPORTED_PROXY_PROTOCOLS : list jsstr := ["http:" : jsstr; "https:" : jsstr; "socks5:" : jsstr; "socks5h:" : jsstr].
(** [s.slice(s.search(/[/?#]/))], absent when nothing matches. *)
Fixpoint suffix_of (s : jsstr) : option jsstr :=
  match s with [] => None | c :: t => if N.eqb c 47 || N.eqb c 63 || N.eqb c 35 then Some s else suffix_of t end.
Definition isOptionalProxyURL (new_ProxyURL : jsstr -> option ProxyURL) (value : jsstr) : bool :=
  let trimmedValue := trim value in
  if negb (truthy trimmedValue) then true
  else match index_of "://" trimmedValue with
       | None | Some O => false
       | Some i =>
           let bad_suffix := match suffix_of (drop (i + 3) trimmedValue) with Some s => negb (str_eqb s "/") | None => false end in
           if bad_suffix then false
           else match new_ProxyURL trimmedValue with
                | Some u => has (proxy_protocol u) SUPPORTED_PROXY_PROTOCOLS && truthy (hostname u) && negb (str_eqb (port u) "0")
                | None => false
                end
       end.

(** Undefined for blank texts; the outer option is the error of JSON.parse. *)
Definition parseOptionalJson (value : jsstr) : option (option json) :=
  if negb (truthy (trim value)) then Some None else Some <$> parse value.
Definition isJsonObjectValue (v : json) : bool := match v with JObj _ => true | _ => false end.
Definition optional_json (f : json -> bool) (value : jsstr) : bool :=
  match parseOptionalJson value with None => false | Some None => true | Some (Some parsed) => f parsed end.
Definition isOptionalJsonObject : jsstr -> bool := optional_json isJsonObjectValue.
Definition is_text (v : json) : bool := match v with JStr _ => true | _ => false end.
Definition isOptionalModelMapping : jsstr -> bool :=
  optional_json (fun parsed => match parsed with JObj o => forallb (fun kv => is_text kv.2) o | _ => false end).
Definition is_status_code (n : jsnum) : bool := is_integer n && num_leb (num 100) n && num_leb n (num 599).
Definition isOptionalStatusCodeMapping : jsstr -> bool :=
  optional_json (fun parsed => match parsed with
    | JObj o => forallb (fun kv => is_status_code (string_to_number kv.1) && is_status_code (json_to_number (Some kv.2))) o
    | _ => false end).
Definition filled_text (v : option json) : bool := match v with Some (JStr s) => truthy (trim s) | _ => false end.
Definition isCodexCredential : jsstr -> bool :=
  optional_json (fun parsed => isJsonObjectValue parsed && filled_text (prop "access_token" (Some parsed)) && filled_text (prop "account_id" (Some parsed))).
Definition isVertexJsonKey : jsstr -> bool :=
  optional_json (fun parsed => match parsed with JArr l => forallb isJsonObjectValue l | _ => isJsonObjectValue parsed end).

Section Schema.
Context (new_URL : jsstr -> option URL) (new_ProxyURL : jsstr -> option ProxyURL).

(** superRefine: the fields with their messages; [None] when the configuration
    has fields of other types than declared, where the checks throw. *)
Definition issue (c : bool) (path message : jsstr) : list (jsstr * jsstr) := if c then [(path, message)] else [].
Definition advanced_issues (f : ChannelFormValues) : option (list (jsstr * jsstr)) :=
  if negb (type f =? CHANNEL_TYPE_ADVANCED_CUSTOM)%Z then Some []
  else
    config ← match parseAdvancedCustomConfig (Some (advanced_custom (typed f))) with NoConfig => Some None | Config c => Some (Some c) | IllTyped _ => None end;
    Some ((match validateAdvancedCustomConfig new_URL config with Some e => [("advanced_custom" : jsstr, err_message e)] | None => [] end)
      ++ issue (advancedCustomConfigUsesRelativeUpstreamPath config && negb (truthy (trim (base_url f)))) "base_url"
           "Base URL is required when an advanced route uses an upstream path"
      ++ issue (upstream_model_update_check_enabled (typed f) && negb (hasValidAdvancedCustomModelListRoute new_URL config))
           "upstream_model_update_check_enabled" "OpenAI Models route is required to enable upstream model checks").
Definition is_batch (m : MultiKeyMode) : bool := match m with single => false | _ => true end.
Definition is_word (v : json) (w : jsstr) : bool := match v with JStr s => str_eqb s w | _ => false end.
Definition superRefine (f : ChannelFormValues) : option (list (jsstr * jsstr)) :=
  advanced ← advanced_issues f;
  let shards := match http2_connection_shards (extra f) with Some (JNum n) => n | _ => num 1 end in
  let protocol := normalizeHttpProtocol (Some (JStr (http_protocol (extra f)))) in
  Some (issue (has (type f) [3; 8; 36; 45; CHANNEL_TYPE_NEW_API]%Z && negb (truthy (trim (base_url f)))) "base_url"
          "Base URL is required for this channel type"
    ++ advanced
    ++ issue (has (type f) [3; 18; 21; 39; 41; 49]%Z && negb (truthy (trim (other f)))) "other"
         "This channel type requires additional configuration"
    ++ issue ((type f =? 57)%Z && is_batch (multi_key_mode f)) "multi_key_mode" "Codex channels do not support batch creation"
    ++ issue ((type f =? 57)%Z && truthy (trim (key f)) && negb (isCodexCredential (key f))) "key"
         "Codex credential must be a JSON object with access_token and account_id"
    ++ issue ((type f =? 41)%Z && is_word (vertex_key_type (typed f)) "json" && truthy (trim (key f)) && negb (isVertexJsonKey (key f))) "key"
         "Vertex AI service account key must be valid JSON"
    ++ issue ((type f =? 41)%Z && is_word (vertex_key_type (typed f)) "api_key" && is_batch (multi_key_mode f)) "multi_key_mode"
         "Vertex AI API Key mode does not support batch creation"
    ++ issue (num_ltb shards (num 1) || num_ltb MAX_HTTP2_CONNECTION_SHARDS shards) "http2_connection_shards"
         "HTTP/2 connection shards must be between 1 and 8"
    ++ issue (str_eqb protocol HTTP_PROTOCOL_HTTP1 && num_ltb (num 1) shards) "http2_connection_shards"
         "HTTP/2 connection shards must be 1 when HTTP/1.1 is selected").

(** The types and bounds of the fields. *)
Definition is_bool (v : json) : bool := match v with JBool _ => true | _ => false end.
Definition optional_number (v : option jsnum) : bool := match v with Some n => is_finite n | None => true end.
Definition extra_typed (e : ExtraSettings) : bool :=
  is_bool (force_format e) && is_bool (thinking_to_content e)
  && match proxy e with JStr s => isOptionalProxyURL new_ProxyURL s | _ => false end
  && has (http_protocol e) [HTTP_PROTOCOL_AUTO; HTTP_PROTOCOL_HTTP1]
  && match http2_connection_shards e with Some (JNum n) => is_integer n | Some _ => false | None => true end
  && is_bool (pass_through_body_enabled e) && is_text (system_prompt e) && is_bool (system_prompt_override e).
Definition typed_typed (t : TypeSettings) : bool :=
  (is_word (vertex_key_type t) "json" || is_word (vertex_key_type t) "api_key")
  && (is_word (aws_key_type t) "ak_sk" || is_word (aws_key_type t) "api_key") && is_text (azure_responses_version t).
Definition fields_valid (f : ChannelFormValues) : bool :=
  truthy (name f) && (0 <=? type f)%Z && truthy (form_models f) && (0 <? length (group f)) && isOptionalModelMapping (model_mapping f)
  && optional_number (priority f) && optional_number (weight f) && isCostRatioInputAllowed (Some (cost_ratio f))
  && isCostRatioWithinMax (Some (cost_ratio f)) && optional_number (auto_ban f) && isOptionalStatusCodeMapping (status_code_mapping f)
  && (length (remark f) <=? 255) && isOptionalJsonObject (setting f) && isOptionalJsonObject (param_override f)
  && isOptionalJsonObject (header_override f) && isOptionalJsonObject (settings f)
  && (str_eqb (multi_key_type f) "random" || str_eqb (multi_key_type f) "polling") && extra_typed (extra f) && typed_typed (typed f).
(** The schema accepts the values: submitting sends them. *)
Definition channelFormSchema (f : ChannelFormValues) : bool :=
  fields_valid f && match superRefine f with Some [] => true | _ => false end.
End Schema.
End ChannelForm.
