(* ===== verification/ChannelFormProofs.v ===== *)
(** The theorems on the form of a channel (ChannelForm.v). *)
From Stdlib Require Import Floats.SpecFloat.
From S2P Require Import Prelude JsNumber JsCollections Json JsonText AdvancedCustom AdvancedCustomText AdvancedCustomTextProofs ChannelForm.
Import AdvancedCustom AdvancedCustomText.

Module ChannelSaving.
Import ChannelForm.

(** ** Objects *)

Lemma get_put k (c : bool) k' v o : obj_get k (put c k' v o) = if str_eqb k k' then (if c then Some v else None) else obj_get k o.
Proof. unfold put. destruct c; [by rewrite obj_get_set|by rewrite obj_get_delete]. Qed.
Lemma delete_absent k (o : obj json) : obj_get k o = None -> obj_delete k o = o.
Proof.
  induction o as [|[x v] o IH]; [done|]. cbn [obj_get]. destruct (str_eqb k x) eqn:E; [done|]. intros H. unfold obj_delete. cbn.
  replace (str_eqb x k) with false; [|symmetry; apply str_eqb_false; apply str_eqb_false in E; congruence]. cbn. f_equal. by apply IH.
Qed.
(** Assigning what is there changes nothing. *)
Lemma put_same (c : bool) k v o : obj_get k o = (if c then Some v else None) -> put c k v o = o.
Proof. unfold put. destruct c; intros H; [by apply obj_set_same|by apply delete_absent]. Qed.
Lemma put_sound c k v o : printable v -> sound o -> sound (put c k v o).
Proof. unfold put. destruct c; [apply sound_set|intros _; apply sound_delete]. Qed.

(** ** The settings of the type *)

Definition ignored_models (t : TypeSettings) : json := JArr (map JStr (nub (split_names (upstream_model_update_ignored_models t)))).
(** The properties the form owns and their values, none for those that are
    removed; every other property is left alone. *)
Definition upstream_owned (t : TypeSettings) (o : obj json) : list (jsstr * option json) :=
  let check := upstream_model_update_check_enabled t in
  [("upstream_model_update_last_check_time" : jsstr,
      Some (match obj_get "upstream_model_update_last_check_time" o with Some (JNum n) => JNum n | _ => JNum (num 0) end));
   ("upstream_model_update_last_detected_models" : jsstr,
      Some (match obj_get "upstream_model_update_last_detected_models" o with Some (JArr l) => if check then JArr l else JArr [] | _ => JArr [] end));
   ("upstream_model_update_ignored_models" : jsstr, Some (ignored_models t));
   ("upstream_model_update_auto_sync_enabled" : jsstr, Some (JBool (check && upstream_model_update_auto_sync_enabled t)));
   ("upstream_model_update_check_enabled" : jsstr, Some (JBool check))].
Definition advanced_owned (ty : Z) (t : TypeSettings) : list (jsstr * option json) :=
  if (ty =? CHANNEL_TYPE_ADVANCED_CUSTOM)%Z then
    match parseAdvancedCustomConfig (Some (advanced_custom t)) with
    | NoConfig => []
    | Config c => [("advanced_custom" : jsstr, Some (config_json c))]
    | IllTyped l => [("advanced_custom" : jsstr, Some (raw_config_json l))]
    end
  else [("advanced_custom" : jsstr, None)].
Definition when (c : bool) (v : json) : option json := if c then Some v else None.
Definition type_owned (ty : Z) (t : TypeSettings) : list (jsstr * option json) :=
  let openai := has ty OPENAI_FIELD_PASSTHROUGH_TYPES in
  let claude := has ty CLAUDE_FIELD_PASSTHROUGH_TYPES in
  [("disable_task_polling_sleep" : jsstr, Some (JBool (disable_task_polling_sleep t)));
   ("claude_beta_query" : jsstr, when (ty =? 14)%Z (JBool (claude_beta_query t)));
   ("allow_speed" : jsstr, when claude (JBool (allow_speed t)));
   ("allow_inference_geo" : jsstr, when (openai || claude) (JBool (allow_inference_geo t)));
   ("allow_include_obfuscation" : jsstr, when openai (JBool (allow_include_obfuscation t)));
   ("allow_safety_identifier" : jsstr, when openai (JBool (allow_safety_identifier t)));
   ("disable_store" : jsstr, when openai (JBool (disable_store t)));
   ("allow_service_tier" : jsstr, when (has ty FIELD_PASSTHROUGH_TYPES) (JBool (allow_service_tier t)));
   ("aws_key_type" : jsstr, when (ty =? 33)%Z (json_or (Some (aws_key_type t)) (JStr "ak_sk")));
   ("openrouter_enterprise" : jsstr, when (ty =? 20)%Z (JBool (is_enterprise_account t)));
   ("azure_responses_version" : jsstr, when ((ty =? 3)%Z && json_truthy (Some (azure_responses_version t))) (azure_responses_version t));
   ("vertex_key_type" : jsstr, when (ty =? 41)%Z (json_or (Some (vertex_key_type t)) (JStr "json")))].
Definition owned (ty : Z) (t : TypeSettings) (o : obj json) : list (jsstr * option json) :=
  advanced_owned ty t ++ (if has ty MODEL_FETCHABLE_TYPES then upstream_owned t o else []) ++ type_owned ty t.

Lemma get_app {A} k (a b : list (jsstr * A)) : obj_get k (a ++ b) = match obj_get k a with Some v => Some v | None => obj_get k b end.
Proof. induction a as [|[x v] a IH]; [done|]. cbn. by destruct (str_eqb k x). Qed.
Lemma get_upstream k t o :
  obj_get k (upstream_settings t o) = match obj_get k (upstream_owned t o) with Some r => r | None => obj_get k o end.
Proof.
  unfold upstream_settings, upstream_owned. cbv zeta. set (check := upstream_model_update_check_enabled t).
  set (o1 := obj_set "upstream_model_update_check_enabled" _ o). set (o2 := obj_set "upstream_model_update_auto_sync_enabled" _ o1).
  set (o3 := obj_set "upstream_model_update_ignored_models" _ o2).
  assert (Hd : obj_get "upstream_model_update_last_detected_models" o3 = obj_get "upstream_model_update_last_detected_models" o).
  { unfold o3, o2, o1. by rewrite !obj_get_set. }
  set (o4 := match obj_get "upstream_model_update_last_detected_models" o3 with Some (JArr _) => _ | _ => _ end).
  assert (H4 : forall x, obj_get x o4 = if str_eqb x "upstream_model_update_last_detected_models"
    then Some (match obj_get "upstream_model_update_last_detected_models" o with Some (JArr l) => if check then JArr l else JArr [] | _ => JArr [] end)
    else obj_get x o3).
  { intros x. unfold o4. rewrite Hd. destruct (obj_get "upstream_model_update_last_detected_models" o) as [[]|] eqn:E; try apply obj_get_set.
    destruct check; [|apply obj_get_set]. destruct (str_eqb x _) eqn:Ex; [|done]. apply str_eqb_true in Ex as ->. by rewrite Hd. }
  assert (Ht : obj_get "upstream_model_update_last_check_time" o4 = obj_get "upstream_model_update_last_check_time" o).
  { rewrite H4. unfold o3, o2, o1. by rewrite !obj_get_set. }
  rewrite Ht. cbn [obj_get].
  assert (H5 : forall n, obj_get "upstream_model_update_last_check_time" o = Some (JNum n) ->
    obj_get k o4 = if str_eqb k "upstream_model_update_last_check_time" then Some (JNum n) else obj_get k o4).
  { intros n E. destruct (str_eqb k _) eqn:Ek; [|done]. apply str_eqb_true in Ek as ->. by rewrite Ht, E. }
  assert (Hrest : obj_get k o4 = if str_eqb k "upstream_model_update_last_detected_models"
    then Some (match obj_get "upstream_model_update_last_detected_models" o with Some (JArr l) => if check then JArr l else JArr [] | _ => JArr [] end)
    else if str_eqb k "upstream_model_update_ignored_models" then Some (ignored_models t)
    else if str_eqb k "upstream_model_update_auto_sync_enabled" then Some (JBool (check && upstream_model_update_auto_sync_enabled t))
    else if str_eqb k "upstream_model_update_check_enabled" then Some (JBool check) else obj_get k o).
  { rewrite H4. unfold o3, o2, o1. by rewrite !obj_get_set. }
  destruct (obj_get "upstream_model_update_last_check_time" o) as [[]|] eqn:E; rewrite ?obj_get_set;
    try rewrite (H5 _ eq_refl); rewrite Hrest; repeat case_match; done.
Qed.

Lemma get_type k ty t o :
  let openai := has ty OPENAI_FIELD_PASSTHROUGH_TYPES in
  let claude := has ty CLAUDE_FIELD_PASSTHROUGH_TYPES in
  obj_get k
    (obj_set "disable_task_polling_sleep" (JBool (disable_task_polling_sleep t))
    (put (ty =? 14)%Z "claude_beta_query" (JBool (claude_beta_query t)) (put claude "allow_speed" (JBool (allow_speed t))
    (put (openai || claude) "allow_inference_geo" (JBool (allow_inference_geo t))
    (put openai "allow_include_obfuscation" (JBool (allow_include_obfuscation t))
    (put openai "allow_safety_identifier" (JBool (allow_safety_identifier t))
    (put openai "disable_store" (JBool (disable_store t)) (put (has ty FIELD_PASSTHROUGH_TYPES) "allow_service_tier" (JBool (allow_service_tier t))
    (put (ty =? 33)%Z "aws_key_type" (json_or (Some (aws_key_type t)) (JStr "ak_sk"))
    (put (ty =? 20)%Z "openrouter_enterprise" (JBool (is_enterprise_account t))
    (put ((ty =? 3)%Z && json_truthy (Some (azure_responses_version t))) "azure_responses_version" (azure_responses_version t)
    (put (ty =? 41)%Z "vertex_key_type" (json_or (Some (vertex_key_type t)) (JStr "json")) o))))))))))))
  = match obj_get k (type_owned ty t) with Some r => r | None => obj_get k o end.
Proof. cbv zeta. rewrite obj_get_set, !get_put. unfold type_owned, when. cbv zeta. cbn [obj_get]. repeat case_match; congruence. Qed.

(** Saving touches exactly the properties of settings that the form owns: each
    has the value of its field when it applies to the type of the channel and is
    removed otherwise, and whatever else was stored stays. *)
Theorem settings_exact ty t o k :
  obj_get k (settings_object ty t o) = match obj_get k (owned ty t o) with Some r => r | None => obj_get k o end.
Proof.
  unfold settings_object, owned. cbv zeta. set (o1 := obj_set "disable_task_polling_sleep" _ _).
  assert (H1 : forall x, obj_get x o1 = match obj_get x (type_owned ty t) with Some r => r | None => obj_get x o end) by (intros x; apply get_type).
  assert (H2 : forall x, obj_get x (if has ty MODEL_FETCHABLE_TYPES then upstream_settings t o1 else o1) =
    match obj_get x ((if has ty MODEL_FETCHABLE_TYPES then upstream_owned t o else []) ++ type_owned ty t) with Some r => r | None => obj_get x o end).
  { intros x. rewrite get_app. destruct (has ty MODEL_FETCHABLE_TYPES); [|apply H1]. rewrite get_upstream.
    assert (Hu : upstream_owned t o1 = upstream_owned t o) by (unfold upstream_owned; by rewrite !H1).
    rewrite Hu. destruct (obj_get x (upstream_owned t o)); [done|apply H1]. }
  rewrite get_app. unfold advanced_settings, advanced_owned. destruct (ty =? CHANNEL_TYPE_ADVANCED_CUSTOM)%Z.
  - destruct (parseAdvancedCustomConfig (Some (advanced_custom t))); [apply H2|..]; rewrite obj_get_set, H2; cbn [obj_get];
      by destruct (str_eqb k "advanced_custom").
  - rewrite obj_get_delete, H2. cbn [obj_get]. by destruct (str_eqb k "advanced_custom").
Qed.

(** ** Reopening *)

(** A name as the lists of the form hold it. *)
Definition clean_name (x : jsstr) : Prop := trim x = x /\ x <> [] /\ 44%N ∉ x.
Lemma split_names_clean s : Forall clean_name (split_names s).
Proof.
  apply Forall_forall. intros x Hx. unfold split_names in Hx. destruct (truthy s); [|by apply elem_of_nil in Hx].
  apply elem_of_filter_truthy in Hx as [Hx Hne]. apply list_elem_of_In, in_map_iff in Hx as (y & <- & Hy%list_elem_of_In).
  split_and!; [apply trim_idemp|done|]. intros H%trim_incl. by apply split_char_not_in in Hy.
Qed.
Lemma join_names l : Forall clean_name l -> split_names (join "," l) = l.
Proof.
  intros Hf. destruct l as [|x l]; [done|]. unfold split_names.
  assert (Ht : truthy (join "," (x :: l)) = true).
  { apply Forall_cons in Hf as [(_ & Hx & _) _]. destruct x as [|c x]; [done|]. by destruct l. }
  rewrite Ht. change ("," : list N) with [44%N]. rewrite split_join by (done || (eapply Forall_impl; [exact Hf|]; by intros y (_ & _ & ?))).
  clear Ht. generalize dependent (x :: l); clear x l; intros l Hf; induction Hf as [|y l (H1 & H2 & _) _ IH]; [done|]. cbn [map filter_truthy List.filter]. rewrite H1.
  destruct (truthy y) eqn:E; [f_equal; exact IH|by destruct y].
Qed.
Lemma names_fixed s : nub (split_names (join "," (nub (split_names s)))) = nub (split_names s).
Proof.
  rewrite join_names; [apply nub_idemp|]. apply Forall_forall. intros x Hx. rewrite elem_of_nub in Hx.
  pose proof (split_names_clean s) as Hf. rewrite Forall_forall in Hf. exact (Hf x Hx).
Qed.

Lemma json_or_same v d : json_truthy (Some d) = true -> json_or (Some (json_or v d)) d = json_or v d.
Proof. intros Hd. unfold json_or. destruct v as [j|]; [|by rewrite Hd]. destruct (json_truthy (Some j)) eqn:E; [by rewrite E|by rewrite Hd]. Qed.
Lemma is_true_bool b : is_true (Some (JBool b)) = b.
Proof. by destruct b. Qed.
Lemma strings_text l : Forall clean_name l -> json_to_string (JArr (map JStr l)) = join "," l.
Proof. intros _. cbn [json_to_string]. rewrite map_map. f_equal. induction l as [|x l IH]; [done|]. cbn. by f_equal. Qed.

(** A configuration that was parsed is read back from the stored value. *)
Lemma raw_typed raw r : typed_route raw = Some r -> raw_route_json raw = route_json r.
Proof.
  destruct raw as [p u c ms a]. unfold typed_route. cbn [raw_incoming_path raw_converter raw_route_auth raw_upstream_path raw_models].
  intros (p' & Hp & H)%bind_Some. apply bind_Some in H as (c' & Hc & H). apply bind_Some in H as (a' & Ha & [= <-]).
  destruct p as [| | |p| |]; try done. destruct c as [| | |c| |]; try done. simplify_eq/=.
  unfold raw_route_json, route_json, route_obj. cbn. f_equal. do 3 f_equal.
  destruct a as [[ty n v]|]; [|by simplify_eq; destruct ms].
  apply fmap_Some in Ha as (b & Hb & ->). unfold typed_auth in Hb. cbn in Hb.
  apply bind_Some in Hb as (ty' & Hty & Hb). apply bind_Some in Hb as (n' & Hn & Hb). apply bind_Some in Hb as (v' & Hv & [= <-]).
  destruct n as [| | |n| |]; try done. destruct v as [| | |v| |]; try done. simplify_eq/=.
  destruct ty as [ty|]; [|simplify_eq; by destruct ms].
  apply fmap_Some in Hty as (ty2 & Hty & ->). destruct ty as [| | |ty| |]; try done. simplify_eq/=. by destruct ms.
Qed.
Lemma parsed_text value c : parseAdvancedCustomConfig value = Config c -> advanced_text (Some (config_json c)) = stringifyAdvancedCustomConfig c.
Proof.
  intros H. pose proof (ConfigText.parsed_fixed _ _ H) as Hfix. apply ConfigText.parsed_normal in H as (l & -> & Hl).
  unfold stringifyAdvancedCustomConfig. rewrite Hfix. unfold advanced_text, config_json, config_of. cbn [advanced_routes json_truthy].
  unfold normalize_raw_config. cbn [obj_get]. change (str_eqb "advanced_routes" "advanced_routes") with true. cbn iota.
  destruct (ConfigText.read_routes l Hl) as (raws & -> & Hr). cbn iota.
  enough (Hm : map raw_route_json raws = map route_json l) by (unfold raw_config_json; by rewrite Hm).
  clear Hfix Hl. revert l Hr. induction raws as [|raw raws IH]; intros l Hr; [by injection Hr as <-|]. cbn [mapM] in Hr.
  apply bind_Some in Hr as (r & Hraw & Hr). apply bind_Some in Hr as (l' & Hr & [= <-]). cbn [map].
  rewrite (raw_typed _ _ Hraw). f_equal. exact (IH l' Hr).
Qed.

(** What opening shows of settings that were saved for a channel of type [ty]:
    the fields that apply to the type, the defaults of the others. *)
Definition reopened (ty : Z) (t : TypeSettings) (o : obj json) : TypeSettings :=
  let openai := has ty OPENAI_FIELD_PASSTHROUGH_TYPES in
  let claude := has ty CLAUDE_FIELD_PASSTHROUGH_TYPES in
  let fetchable := has ty MODEL_FETCHABLE_TYPES in
  let stored k := obj_get k o in
  Typed (if (ty =? 41)%Z then json_or (Some (vertex_key_type t)) (JStr "json") else JStr "json")
    (if (ty =? 3)%Z then json_or (Some (azure_responses_version t)) (JStr []) else JStr [])
    ((ty =? 20)%Z && is_enterprise_account t) (if (ty =? 33)%Z then json_or (Some (aws_key_type t)) (JStr "ak_sk") else JStr "ak_sk")
    (has ty FIELD_PASSTHROUGH_TYPES && allow_service_tier t) (openai && disable_store t) (openai && allow_safety_identifier t)
    (openai && allow_include_obfuscation t) ((openai || claude) && allow_inference_geo t) (claude && allow_speed t)
    ((ty =? 14)%Z && claude_beta_query t) (disable_task_polling_sleep t)
    (if fetchable then upstream_model_update_check_enabled t else is_true (stored "upstream_model_update_check_enabled"))
    (if fetchable then upstream_model_update_check_enabled t && upstream_model_update_auto_sync_enabled t
     else is_true (stored "upstream_model_update_auto_sync_enabled"))
    (if fetchable then join "," (nub (split_names (upstream_model_update_ignored_models t)))
     else match stored "upstream_model_update_ignored_models" with Some (JArr l) => json_to_string (JArr l) | _ => [] end)
    (if (ty =? CHANNEL_TYPE_ADVANCED_CUSTOM)%Z then
       match parseAdvancedCustomConfig (Some (advanced_custom t)) with
       | Config c => stringifyAdvancedCustomConfig c
       | NoConfig => advanced_text (stored "advanced_custom")
       | IllTyped l => advanced_text (Some (raw_config_json l))
       end
     else []).

Lemma get_when (P : option json -> Prop) (c : bool) v : (c = true -> P (Some v)) -> (c = false -> P None) -> P (when c v).
Proof. unfold when. by destruct c; auto. Qed.
Lemma is_true_when c b : is_true (when c (JBool b)) = c && b.
Proof. destruct c; [apply is_true_bool|done]. Qed.
Lemma json_or_when c v d : json_truthy (Some d) = true -> json_or (when c (json_or (Some v) d)) d = if c then json_or (Some v) d else d.
Proof. intros Hd. destruct c; [by apply json_or_same|done]. Qed.
Lemma ignored_names t : Forall clean_name (nub (split_names (upstream_model_update_ignored_models t))).
Proof.
  apply Forall_forall. intros x Hx. rewrite elem_of_nub in Hx. pose proof (split_names_clean (upstream_model_update_ignored_models t)) as Hf.
  rewrite Forall_forall in Hf. exact (Hf x Hx).
Qed.
(** The properties owned, one by one. *)
Lemma settings_get ty t o k r :
  obj_get k (type_owned ty t) = Some r -> obj_get k (advanced_owned ty t) = None -> obj_get k (upstream_owned t o) = None ->
  obj_get k (settings_object ty t o) = r.
Proof. intros H1 H2 H3. rewrite settings_exact. unfold owned. rewrite !get_app, H2. by destruct (has ty MODEL_FETCHABLE_TYPES); rewrite ?H3, ?H1. Qed.
Lemma advanced_only k ty t : str_eqb k "advanced_custom" = false -> obj_get k (advanced_owned ty t) = None.
Proof.
  intros H. unfold advanced_owned. destruct (ty =? CHANNEL_TYPE_ADVANCED_CUSTOM)%Z; [|cbn [obj_get]; by rewrite H].
  destruct (parseAdvancedCustomConfig _); cbn [obj_get]; rewrite ?H; done.
Qed.
Lemma upstream_get ty t o k r :
  obj_get k (upstream_owned t o) = Some r -> str_eqb k "advanced_custom" = false -> obj_get k (type_owned ty t) = None ->
  obj_get k (settings_object ty t o) = if has ty MODEL_FETCHABLE_TYPES then r else obj_get k o.
Proof.
  intros H1 H2 H3. rewrite settings_exact. unfold owned. rewrite !get_app, (advanced_only _ _ _ H2), H3.
  destruct (has ty MODEL_FETCHABLE_TYPES); [by rewrite H1|done].
Qed.
Ltac owned_field :=
  match goal with |- context [obj_get ?k (settings_object ?ty ?t ?o)] =>
    erewrite (settings_get ty t o k); [|reflexivity|apply advanced_only; reflexivity|reflexivity] end.
Ltac upstream_field :=
  match goal with |- context [obj_get ?k (settings_object ?ty ?t ?o)] =>
    erewrite (upstream_get ty t o k); [|reflexivity|reflexivity|reflexivity] end.
Lemma advanced_get ty t o :
  obj_get "advanced_custom" (settings_object ty t o) =
  if (ty =? CHANNEL_TYPE_ADVANCED_CUSTOM)%Z then
    match parseAdvancedCustomConfig (Some (advanced_custom t)) with
    | NoConfig => obj_get "advanced_custom" o | Config c => Some (config_json c) | IllTyped l => Some (raw_config_json l) end
  else None.
Proof.
  rewrite settings_exact. unfold owned. rewrite get_app. unfold advanced_owned.
  assert (H : match obj_get "advanced_custom" ((if has ty MODEL_FETCHABLE_TYPES then upstream_owned t o else []) ++ type_owned ty t) with
              Some r => r | None => obj_get "advanced_custom" o end = obj_get "advanced_custom" o) by (by destruct (has ty MODEL_FETCHABLE_TYPES)).
  destruct (ty =? CHANNEL_TYPE_ADVANCED_CUSTOM)%Z; [|done]. destruct (parseAdvancedCustomConfig _); [exact H|done|done].
Qed.
(** Saved settings are reopened as saved: the fields of the type come back, those
    of other types have their defaults. *)
Theorem typed_reopens ty t o : read_typed (JObj (settings_object ty t o)) = reopened ty t o.
Proof.
  unfold read_typed, reopened. cbv zeta. cbn [prop]. do 12 owned_field. do 3 upstream_field. rewrite advanced_get.
  rewrite !json_or_when, !is_true_when, is_true_bool by reflexivity.
  f_equal.
  - unfold when. destruct (ty =? 3)%Z; [|done]. cbn [andb]. unfold json_or. destruct (json_truthy (Some (azure_responses_version t))) eqn:E; [by rewrite E|done].
  - by destruct (has ty MODEL_FETCHABLE_TYPES); rewrite ?is_true_bool.
  - by destruct (has ty MODEL_FETCHABLE_TYPES); rewrite ?is_true_bool.
  - destruct (has ty MODEL_FETCHABLE_TYPES); [|done]. unfold ignored_models. by rewrite strings_text by apply ignored_names.
  - destruct (ty =? CHANNEL_TYPE_ADVANCED_CUSTOM)%Z; [|done].
    destruct (parseAdvancedCustomConfig (Some (advanced_custom t))) eqn:E; [done| |done]. by rewrite (parsed_text _ _ E).
Qed.

(** ** Saving again *)

Lemma settings_fixed ty t S :
  (forall k r, obj_get k (type_owned ty t) = Some r -> obj_get k S = r) ->
  (has ty MODEL_FETCHABLE_TYPES = true -> forall k r, obj_get k (upstream_owned t S) = Some r -> obj_get k S = r) ->
  (forall k r, obj_get k (advanced_owned ty t) = Some r -> obj_get k S = r) ->
  settings_object ty t S = S.
Proof.
  intros Ht Hu Ha. unfold settings_object. cbv zeta.
  do 11 match goal with |- context [put ?c ?k ?v S] => rewrite (put_same c k v S) by (apply (Ht k (when c v)); reflexivity) end. rewrite obj_set_same by (apply (Ht _ (Some _)); reflexivity).
  assert (Hs : (if has ty MODEL_FETCHABLE_TYPES then upstream_settings t S else S) = S).
  { destruct (has ty MODEL_FETCHABLE_TYPES); [|done]. specialize (Hu eq_refl). unfold upstream_settings. cbv zeta.
    do 3 match goal with |- context [obj_set ?k ?v S] => rewrite (obj_set_same k v S) by (apply (Hu k (Some v)); reflexivity) end.
    pose proof (Hu "upstream_model_update_last_detected_models" _ eq_refl) as Hd.
    pose proof (Hu "upstream_model_update_last_check_time" _ eq_refl) as Hc. cbn beta in Hd, Hc.
    assert (H4 : match obj_get "upstream_model_update_last_detected_models" S with
                 | Some (JArr _) => if upstream_model_update_check_enabled t then S else obj_set "upstream_model_update_last_detected_models" (JArr []) S
                 | _ => obj_set "upstream_model_update_last_detected_models" (JArr []) S end = S).
    { destruct (obj_get "upstream_model_update_last_detected_models" S) as [[]|] eqn:E; try (apply obj_set_same; congruence).
      destruct (upstream_model_update_check_enabled t); [done|]. apply obj_set_same; congruence. }
    rewrite H4. destruct (obj_get "upstream_model_update_last_check_time" S) as [[]|] eqn:E; try done; apply obj_set_same; congruence. }
  rewrite Hs. unfold advanced_settings. unfold advanced_owned in Ha. destruct (ty =? CHANNEL_TYPE_ADVANCED_CUSTOM)%Z.
  - destruct (parseAdvancedCustomConfig _); [done|..]; apply obj_set_same, (Ha _ (Some _)); reflexivity.
  - apply delete_absent, (Ha _ None). reflexivity.
Qed.

(** A configuration is there when the type asks for one. *)
Definition configured (ty : Z) (t : TypeSettings) : Prop :=
  (ty =? CHANNEL_TYPE_ADVANCED_CUSTOM)%Z = true -> exists c, parseAdvancedCustomConfig (Some (advanced_custom t)) = Config c.
Lemma type_reopened ty t o : type_owned ty (reopened ty t o) = type_owned ty t.
Proof.
  unfold type_owned, reopened, when. cbv zeta.
  cbn [vertex_key_type azure_responses_version is_enterprise_account aws_key_type allow_service_tier disable_store allow_safety_identifier
    allow_include_obfuscation allow_inference_geo allow_speed claude_beta_query disable_task_polling_sleep].
  assert (Hz : (if (ty =? 3)%Z && json_truthy (Some (if (ty =? 3)%Z then json_or (Some (azure_responses_version t)) (JStr []) else JStr []))
                then Some (if (ty =? 3)%Z then json_or (Some (azure_responses_version t)) (JStr []) else JStr []) else None)
             = (if (ty =? 3)%Z && json_truthy (Some (azure_responses_version t)) then Some (azure_responses_version t) else None)).
  { destruct (ty =? 3)%Z; [|done]. cbn [andb]. unfold json_or. by destruct (json_truthy (Some (azure_responses_version t))) eqn:E; rewrite ?E. }
  rewrite Hz. clear Hz.
  destruct (has ty OPENAI_FIELD_PASSTHROUGH_TYPES), (has ty CLAUDE_FIELD_PASSTHROUGH_TYPES), (has ty FIELD_PASSTHROUGH_TYPES),
    (ty =? 41)%Z, (ty =? 20)%Z, (ty =? 33)%Z, (ty =? 14)%Z; cbn [andb orb]; rewrite ?json_or_same by reflexivity; reflexivity.
Qed.
Lemma upstream_reopened ty t o : has ty MODEL_FETCHABLE_TYPES = true ->
  upstream_owned (reopened ty t o) (settings_object ty t o) = upstream_owned t o.
Proof.
  intros Hf. unfold upstream_owned at 1. cbv zeta. do 2 upstream_field. rewrite Hf. unfold ignored_models, reopened. rewrite Hf.
  cbn [upstream_model_update_check_enabled upstream_model_update_auto_sync_enabled upstream_model_update_ignored_models].
  rewrite names_fixed. unfold upstream_owned. cbv zeta.
  assert (Hb : forall b, upstream_model_update_check_enabled t && (upstream_model_update_check_enabled t && b) = upstream_model_update_check_enabled t && b).
  { intros b. by destruct (upstream_model_update_check_enabled t). }
  rewrite Hb. do 2 f_equal; [by repeat case_match|]. f_equal. do 2 f_equal.
  destruct (obj_get "upstream_model_update_last_detected_models" o) as [[]|], (upstream_model_update_check_enabled t); reflexivity.
Qed.
Lemma advanced_reopened ty t o : configured ty t -> advanced_owned ty (reopened ty t o) = advanced_owned ty t.
Proof.
  intros Hc. unfold advanced_owned, reopened. cbv zeta. cbn [advanced_custom].
  destruct (ty =? CHANNEL_TYPE_ADVANCED_CUSTOM)%Z eqn:E; [|done]. destruct (Hc E) as (c & H). rewrite H.
  by rewrite ConfigText.parse_stringified, (ConfigText.parsed_fixed _ _ H).
Qed.
Lemma get_elem {A} k (l : list (jsstr * A)) r : obj_get k l = Some r -> k ∈ l.*1.
Proof. induction l as [|[x v] l IH]; [done|]. cbn. destruct (str_eqb k x) eqn:E; [apply str_eqb_true in E as ->; intros _; left|right; auto]. Qed.
Lemma type_keys ty t k r : obj_get k (type_owned ty t) = Some r ->
  str_eqb k "advanced_custom" = false /\ forall o, obj_get k (upstream_owned t o) = None.
Proof. intros H%get_elem. change (type_owned ty t).*1 with (type_owned 0 default_typed).*1 in H. cbn [fmap list_fmap] in H. repeat (apply elem_of_cons in H as [->|H]; [by split|]). by apply elem_of_nil in H. Qed.
Lemma upstream_not_advanced t o k r : obj_get k (upstream_owned t o) = Some r -> str_eqb k "advanced_custom" = false.
Proof. intros H%get_elem. cbn [fmap list_fmap upstream_owned] in H. repeat (apply elem_of_cons in H as [->|H]; [done|]). by apply elem_of_nil in H. Qed.
(** Opening saved settings and saving them untouched stores the same settings. *)
Theorem settings_settle ty t o : configured ty t ->
  settings_object ty (reopened ty t o) (settings_object ty t o) = settings_object ty t o.
Proof.
  intros Hc. apply settings_fixed.
  - intros k r. rewrite type_reopened. intros Hk. rewrite settings_exact. unfold owned. rewrite !get_app, Hk.
    apply type_keys in Hk as [Ha Hu]. rewrite (advanced_only _ _ _ Ha). by destruct (has ty MODEL_FETCHABLE_TYPES); rewrite ?Hu.
  - intros Hf k r. rewrite (upstream_reopened _ _ _ Hf). intros Hk. rewrite settings_exact. unfold owned. rewrite !get_app, Hf, Hk.
    by rewrite advanced_only by by apply upstream_not_advanced in Hk.
  - intros k r. rewrite (advanced_reopened _ _ _ Hc). intros Hk. rewrite settings_exact. unfold owned. by rewrite get_app, Hk.
Qed.
End ChannelSaving.
