(* ===== verification/ChannelSubmit.v ===== *)
(** What the schema of the channel form and the bodies of its requests promise
    (ChannelForm.v): accepted forms are saved and reopened. *)
From Stdlib Require Import Floats.SpecFloat.
From S2P Require Import Prelude JsNumber JsCollections Json JsonText AdvancedCustom AdvancedCustomText AdvancedCustomTextProofs ChannelForm ChannelFormProofs.
Import AdvancedCustom AdvancedCustomText.

Module ChannelSubmit.
Import ChannelForm ChannelSaving.

(** ** Forms that the schema accepts *)

Section Accepted.
Context (new_URL : jsstr -> option URL) (new_ProxyURL : jsstr -> option ProxyURL).

Lemma schema_configured f : channelFormSchema new_URL new_ProxyURL f = true -> configured (type f) (typed f).
Proof.
  unfold channelFormSchema. intros [_ H]%andb_prop Hty. unfold superRefine, advanced_issues in H. rewrite Hty in H. cbn [negb] in H.
  destruct (parseAdvancedCustomConfig (Some (advanced_custom (typed f)))) as [|c|raws]; [|by exists c|done].
  exfalso. cbn in H. by destruct (has (type f) [3; 8; 36; 45; CHANNEL_TYPE_NEW_API]%Z && negb (truthy (trim (base_url f)))).
Qed.
Lemma schema_fields f : channelFormSchema new_URL new_ProxyURL f = true ->
  extra_typed new_ProxyURL (extra f) = true /\ typed_typed (typed f) = true /\ isOptionalJsonObject (settings f) = true.
Proof. unfold channelFormSchema, fields_valid. intros [H _]%andb_prop. repeat (apply andb_prop in H as [H ?]). by split_and!. Qed.
Lemma word_text v w : is_word v w = true -> exists s, v = JStr s.
Proof. destruct v; try done. by eexists. Qed.
Lemma typed_texts t : typed_typed t = true -> printable (vertex_key_type t) /\ printable (aws_key_type t) /\ printable (azure_responses_version t).
Proof.
  unfold typed_typed. intros [[Hv Ha]%andb_prop Hz]%andb_prop. split_and!.
  - apply orb_prop in Hv as [(s & ->)%word_text|(s & ->)%word_text]; constructor.
  - apply orb_prop in Ha as [(s & ->)%word_text|(s & ->)%word_text]; constructor.
  - destruct (azure_responses_version t); try done. constructor.
Qed.
Lemma printable_or v d : printable v -> printable d -> printable (json_or (Some v) d).
Proof. intros. unfold json_or. by destruct (json_truthy _). Qed.
Lemma sound_get k (o : obj json) v : sound o -> obj_get k o = Some v -> printable v.
Proof.
  intros [_ H]. induction H as [|[x w] o Hw _ IH]; [done|]. cbn. destruct (str_eqb k x); [intros [= <-]; exact Hw|exact IH].
Qed.
Lemma zero_prints : prints_back (num 0).
Proof. split; [vm_compute; reflexivity|split; [vm_compute; reflexivity|apply (bool_decide_unpack _); vm_compute; exact I]]. Qed.
Lemma sound_upstream t o : sound o -> sound (upstream_settings t o).
Proof.
  intros Ho. unfold upstream_settings. cbv zeta.
  assert (H3 : sound (obj_set "upstream_model_update_ignored_models" (JArr (map JStr (nub (split_names (upstream_model_update_ignored_models t)))))
    (obj_set "upstream_model_update_auto_sync_enabled" (JBool (upstream_model_update_check_enabled t && upstream_model_update_auto_sync_enabled t))
    (obj_set "upstream_model_update_check_enabled" (JBool (upstream_model_update_check_enabled t)) o)))).
  { apply sound_set; [apply ConfigText.printable_strings|]. apply sound_set; [constructor|]. apply sound_set; [constructor|done]. }
  revert H3. set (o3 := obj_set "upstream_model_update_ignored_models" _ _). clearbody o3. intros H3.
  match goal with |- context [match obj_get "upstream_model_update_last_check_time" ?x with _ => _ end] => assert (H4 : sound x) end.
  { destruct (obj_get "upstream_model_update_last_detected_models" o3) as [[]|]; try destruct (upstream_model_update_check_enabled t);
      try done; (apply sound_set; [repeat constructor|done]). }
  revert H4. match goal with |- sound ?x -> _ => generalize x end. clear. intros o4 H4.
  destruct (obj_get "upstream_model_update_last_check_time" o4) as [[]|]; try done;
    (apply sound_set; [apply printable_num, zero_prints|done]).
Qed.
Lemma sound_settings ty t o : typed_typed t = true -> configured ty t -> sound o -> sound (settings_object ty t o).
Proof.
  intros (Hv & Ha & Hz)%typed_texts Hc Ho. unfold settings_object. cbv zeta.
  match goal with |- sound (advanced_settings _ _ ?x) => assert (Hs : sound x) end.
  { match goal with |- sound (if _ then upstream_settings _ ?x else _) => assert (H1 : sound x) end.
    - apply sound_set; [constructor|]. repeat (apply put_sound; [first [constructor|apply printable_or; [assumption|constructor]|assumption]|]). exact Ho.
    - destruct (has ty MODEL_FETCHABLE_TYPES); [by apply sound_upstream|exact H1]. }
  revert Hs. match goal with |- sound ?x -> _ => generalize x end. intros x Hx. unfold advanced_settings.
  destruct (ty =? CHANNEL_TYPE_ADVANCED_CUSTOM)%Z eqn:E; [|by apply sound_delete].
  destruct (Hc E) as (c & ->). apply sound_set; [apply ConfigText.printable_config|done].
Qed.
End Accepted.

(** ** The JSON of setting *)

(** The number of connections that a form holds. *)
Definition shards_of (e : ExtraSettings) : jsnum := match http2_connection_shards e with Some (JNum n) => n | _ => num 1 end.
(** What reopening shows of saved values. *)
Definition settled_extra (e : ExtraSettings) : ExtraSettings :=
  let protocol := normalizeHttpProtocol (Some (JStr (http_protocol e))) in
  Extra (force_format e) (thinking_to_content e) (match proxy e with JStr s => JStr (trim s) | v => v end) protocol
    (Some (JNum (if str_eqb protocol HTTP_PROTOCOL_HTTP1 then num 1 else if num_ltb (num 1) (shards_of e) then shards_of e else num 1)))
    (pass_through_body_enabled e) (system_prompt e) (system_prompt_override e).

Lemma between_one_eight n : num_ltb n (num 1) || num_ltb MAX_HTTP2_CONNECTION_SHARDS n = false -> is_integer n = true ->
  normalizeHttp2ConnectionShards (Some (JNum n)) = JNum n /\ is_nan n = false.
Proof.
  intros [H1 H2]%orb_false_elim Hn. unfold normalizeHttp2ConnectionShards. cbn [json_to_number andb].
  assert (Hnan : is_nan n = false) by (by destruct n as [[]|[]| |]).
  assert (Hz : num_eqb n (num 0) = false) by (destruct (num_eqb n (num 0)) eqn:E; [|done]; by destruct n as [[]|[]| |[]]).
  by rewrite Hnan, Hz, H1, H2.
Qed.
Lemma protocol_cases v : normalizeHttpProtocol v = HTTP_PROTOCOL_HTTP1 \/ normalizeHttpProtocol v = HTTP_PROTOCOL_AUTO.
Proof. unfold normalizeHttpProtocol. case_match; auto. Qed.
Lemma bool_or v : is_bool v = true -> json_or (Some v) off = v.
Proof. by destruct v as [|[]| | | |]. Qed.
Lemma text_or_empty v : is_text v = true -> json_or (Some v) (JStr []) = v.
Proof. by destruct v as [| | |[]| |]. Qed.
Definition saved_extra (e : ExtraSettings) : obj json :=
  let protocol := normalizeHttpProtocol (Some (JStr (http_protocol e))) in
  [("force_format" : jsstr, force_format e); ("thinking_to_content" : jsstr, thinking_to_content e);
   ("proxy" : jsstr, match proxy e with JStr s => JStr (trim s) | v => v end); ("pass_through_body_enabled" : jsstr, pass_through_body_enabled e);
   ("system_prompt" : jsstr, system_prompt e); ("system_prompt_override" : jsstr, system_prompt_override e)]
  ++ (if str_eqb protocol HTTP_PROTOCOL_HTTP1 then [("http_protocol" : jsstr, JStr HTTP_PROTOCOL_HTTP1)]
      else if num_ltb (num 1) (shards_of e) then [("http2_connection_shards" : jsstr, JNum (shards_of e))] else []).

(** The extra fields of a form that the schema accepts. *)
Definition extra_accepted (new_ProxyURL : jsstr -> option ProxyURL) (e : ExtraSettings) : Prop :=
  extra_typed new_ProxyURL e = true /\ num_ltb (shards_of e) (num 1) || num_ltb MAX_HTTP2_CONNECTION_SHARDS (shards_of e) = false.
Lemma shards_integer P e : extra_typed P e = true -> is_integer (shards_of e) = true.
Proof.
  unfold extra_typed, shards_of. intros H. do 3 apply andb_prop in H as [H _]. apply andb_prop in H as [_ H].
  by destruct (http2_connection_shards e) as [[]|].
Qed.
Lemma setting_object_accepted P e : extra_accepted P e -> setting_object e = Some (saved_extra e).
Proof.
  intros [Ht Hs]. pose proof (shards_integer _ _ Ht) as Hi. destruct (between_one_eight _ Hs Hi) as [Hn _].
  unfold extra_typed in Ht. repeat (apply andb_prop in Ht as [Ht ?]). unfold setting_object, saved_extra. cbv zeta.
  rewrite !bool_or, text_or_empty by assumption. destruct (proxy e); try done. cbn [mbind option_bind]. f_equal.
  assert (Hv : json_to_number (Some (normalizeHttp2ConnectionShards (http2_connection_shards e))) = shards_of e /\
    normalizeHttp2ConnectionShards (http2_connection_shards e) = JNum (shards_of e)).
  { unfold shards_of in *. destruct (http2_connection_shards e) as [[]|]; try done. by rewrite Hn. }
  destruct Hv as [Hv1 Hv2]. destruct (protocol_cases (Some (JStr (http_protocol e)))) as [->| ->]; [done|]. cbn [str_eqb].
  change (str_eqb HTTP_PROTOCOL_AUTO HTTP_PROTOCOL_HTTP1) with false. cbn iota. rewrite Hv1, Hv2. by destruct (num_ltb (num 1) (shards_of e)).
Qed.
Lemma is_bool_printable v : is_bool v = true -> printable v.
Proof. destruct v; try done. constructor. Qed.
Lemma saved_extra_printable P e : extra_accepted P e -> prints_back (shards_of e) -> printable (JObj (saved_extra e)).
Proof.
  intros [Ht _] Hn. unfold extra_typed in Ht. repeat (apply andb_prop in Ht as [Ht ?]). constructor.
  - unfold saved_extra. apply Forall_app. split.
    + repeat apply Forall_cons_2; try (by apply is_bool_printable); try done; cbn.
      * by destruct (proxy e); try constructor.
      * destruct (system_prompt e); try done. constructor.
    + destruct (str_eqb _ _); [by repeat constructor|]. destruct (num_ltb _ _); [|constructor]. constructor; [by apply printable_num|constructor].
  - unfold saved_extra. destruct (str_eqb _ _); [reflexivity|]. by destruct (num_ltb _ _).
Qed.
Lemma read_saved_extra P e : extra_accepted P e -> read_extra (JObj (saved_extra e)) = settled_extra e.
Proof.
  intros [Ht Hs]. pose proof (shards_integer _ _ Ht) as Hi. destruct (between_one_eight _ Hs Hi) as [Hn _].
  unfold extra_typed in Ht. repeat (apply andb_prop in Ht as [Ht ?]). unfold settled_extra, saved_extra, read_extra.
  destruct (proxy e) as [| | |p| |]; try done.
  transitivity (let protocol := normalizeHttpProtocol (Some (JStr (http_protocol e))) in
    Extra (json_or (Some (force_format e)) off) (json_or (Some (thinking_to_content e)) off) (json_or (Some (JStr (trim p))) (JStr [])) protocol
      (Some (if str_eqb protocol HTTP_PROTOCOL_HTTP1 then JNum (num 1)
             else normalizeHttp2ConnectionShards (if num_ltb (num 1) (shards_of e) then Some (JNum (shards_of e)) else None)))
      (json_or (Some (pass_through_body_enabled e)) off) (json_or (Some (system_prompt e)) (JStr [])) (json_or (Some (system_prompt_override e)) off)).
  - by destruct (protocol_cases (Some (JStr (http_protocol e)))) as [->| ->]; [|destruct (num_ltb (num 1) (shards_of e))].
  - cbv zeta. rewrite !bool_or, !text_or_empty by (assumption || done). f_equal. destruct (str_eqb _ _); [done|].
    by destruct (num_ltb (num 1) (shards_of e)); rewrite ?Hn.
Qed.

Lemma settled_accepted P e : extra_accepted P e -> extra_accepted P (settled_extra e) /\ saved_extra (settled_extra e) = saved_extra e.
Proof.
  intros [Ht Hs]. pose proof (shards_integer _ _ Ht) as Hi.
  set (n := shards_of (settled_extra e)).
  assert (Hk : is_integer n && negb (num_ltb n (num 1) || num_ltb MAX_HTTP2_CONNECTION_SHARDS n) = true).
  { assert (Hn : n = if str_eqb (normalizeHttpProtocol (Some (JStr (http_protocol e)))) HTTP_PROTOCOL_HTTP1 then num 1
                     else if num_ltb (num 1) (shards_of e) then shards_of e else num 1) by reflexivity.
    rewrite Hn. destruct (str_eqb _ _); [done|]. destruct (num_ltb (num 1) (shards_of e)); [|done]. by rewrite Hi, Hs. }
  apply andb_prop in Hk as [Hk1 Hk2%negb_true_iff].
  unfold extra_typed in Ht. repeat (apply andb_prop in Ht as [Ht ?]).
  assert (Hp : normalizeHttpProtocol (Some (JStr (normalizeHttpProtocol (Some (JStr (http_protocol e)))))) = normalizeHttpProtocol (Some (JStr (http_protocol e)))).
  { by destruct (protocol_cases (Some (JStr (http_protocol e)))) as [->| ->]. }
  split; [split; [|exact Hk2]|].
  - unfold extra_typed. change (http2_connection_shards (settled_extra e)) with (Some (JNum n)). cbn iota. rewrite Hk1. unfold settled_extra. cbv zeta.
    cbn [force_format thinking_to_content proxy http_protocol pass_through_body_enabled system_prompt system_prompt_override].
    destruct (proxy e) as [| | |p| |]; try done. assert (Hu : isOptionalProxyURL P (trim p) = true) by (unfold isOptionalProxyURL in *; by rewrite trim_idemp).
    rewrite Hu. destruct (protocol_cases (Some (JStr (http_protocol e)))) as [->| ->];
    repeat (apply andb_true_intro; split); done.
  - unfold saved_extra at 1. change (http_protocol (settled_extra e)) with (normalizeHttpProtocol (Some (JStr (http_protocol e)))). fold n. rewrite Hp.
    unfold saved_extra, n, settled_extra. cbn [force_format thinking_to_content proxy http_protocol pass_through_body_enabled system_prompt system_prompt_override].
    destruct (proxy e) as [| | |p| |]; try done. rewrite trim_idemp. f_equal.
    match goal with |- context [shards_of ?x] => replace (shards_of x) with (if str_eqb (normalizeHttpProtocol (Some (JStr (http_protocol e)))) HTTP_PROTOCOL_HTTP1 then num 1
                     else if num_ltb (num 1) (shards_of e) then shards_of e else num 1) by reflexivity end.
    destruct (str_eqb _ _); [done|]. destruct (num_ltb (num 1) (shards_of e)) eqn:E; [by rewrite E|done].
Qed.

(** Blank texts are no JSON. *)
Lemma skip_ws_in s c t : skip_ws s = c :: t -> c ∈ s.
Proof. induction s as [|x s IH]; [done|]. cbn. destruct (is_json_space x); [right; auto|intros [= -> ->]; left]. Qed.
Lemma value_head f s r : parse_value f s = Some r -> exists c t, skip_ws s = c :: t /\ is_space c = false.
Proof.
  destruct f as [|f]; [done|]. cbn [parse_value]. destruct (skip_ws s) as [|c t]; [done|]. intros H. exists c, t. split; [done|].
  destruct (N.eqb c dquote) eqn:E1; [apply N.eqb_eq in E1 as ->; done|]. destruct (N.eqb c 91) eqn:E2; [apply N.eqb_eq in E2 as ->; done|].
  destruct (N.eqb c 123) eqn:E3; [apply N.eqb_eq in E3 as ->; done|].
  assert (Hw : forall w x l, starts_with (x :: w) (c :: t) = true -> is_space x = l -> is_space c = l).
  { intros w x l Hs Hx. apply starts_with_spec in Hs as (u & [= -> _]). done. }
  destruct (starts_with "null" (c :: t)) eqn:E4; [by apply (Hw "ull" 110%N)|].
  destruct (starts_with "true" (c :: t)) eqn:E5; [by apply (Hw "rue" 116%N)|].
  destruct (starts_with "false" (c :: t)) eqn:E6; [by apply (Hw "alse" 102%N)|].
  unfold parse_number in H. apply bind_Some in H as ([l u] & H & _). apply number_head in H as (c' & t' & [= <- <-] & Hc).
  destruct Hc as [->|Hc]; [done|]. unfold is_digit in Hc. apply andb_prop in Hc as [H1%N.leb_le H2%N.leb_le]. apply not_true_is_false. intros Hs. unfold is_space in Hs. rewrite !orb_true_iff, !andb_true_iff, !N.leb_le, !N.eqb_eq in Hs. lia.
Qed.
Lemma parse_blank s : trim s = [] -> parse s = None.
Proof.
  intros Hs. unfold parse. destruct (parse_value (parse_fuel s) s) as [r|] eqn:E; [|done].
  apply value_head in E as (c & t & Hc & Hn). apply skip_ws_in in Hc. by destruct (trim_nonempty _ _ Hc Hn).
Qed.

(** ** Submitting *)

(** The object of settings that saving starts from. *)
Definition stored_settings (f : ChannelFormValues) : option json :=
  if truthy (settings f) && negb (str_eqb (settings f) "{}") then Some (nullish (parse (settings f)) (JObj [])) else Some (JObj []).
Definition stored_object (f : ChannelFormValues) : obj json := match stored_settings f with Some (JObj o) => o | _ => [] end.
Lemma build_settings f : isOptionalJsonObject (settings f) = true ->
  buildSettingsJSON f = Some (stringify (JObj (settings_object (type f) (typed f) (stored_object f)))).
Proof.
  unfold buildSettingsJSON, stored_object, stored_settings, isOptionalJsonObject, optional_json, parseOptionalJson. intros H.
  destruct (truthy (settings f)) eqn:Et; [|done]. cbn [andb]. destruct (str_eqb (settings f) "{}"); [done|]. cbn [negb].
  destruct (truthy (trim (settings f))) eqn:E.
  - cbn [negb] in H. destruct (parse (settings f)) as [[]|]; done.
  - rewrite parse_blank; [done|]. by destruct (trim (settings f)).
Qed.

(** The texts stored are those that the submitted form had built. *)
Definition saved_as (f : ChannelFormValues) (c : Channel) : Prop :=
  c_type c = type f /\ c_setting c = buildSettingJSON f /\ buildSettingsJSON f = Some (c_settings c).
(** Numbers are stored as texts that denote them. *)
Definition plain (f : ChannelFormValues) : Prop :=
  prints_back (shards_of (extra f)) /\ forall o, parse (settings f) = Some (JObj o) -> sound o.

Section Submitting.
Context (new_URL : jsstr -> option URL) (new_ProxyURL : jsstr -> option ProxyURL).
Lemma schema_extra f : channelFormSchema new_URL new_ProxyURL f = true -> extra_accepted new_ProxyURL (extra f).
Proof.
  intros H. pose proof (schema_fields _ _ _ H) as (He & _ & _). split; [exact He|]. unfold channelFormSchema in H. apply andb_prop in H as [_ H].
  unfold superRefine in H. destruct (advanced_issues new_URL f) as [adv|]; [|done]. cbn [mbind option_bind] in H. cbv zeta in H. fold (shards_of (extra f)) in H.
  destruct (num_ltb (shards_of (extra f)) (num 1) || num_ltb MAX_HTTP2_CONNECTION_SHARDS (shards_of (extra f))); [|done].
  unfold issue in H at 7. repeat (match type of H with match ?a ++ ?b with _ => _ end = true => destruct a; [cbn [app] in H|done] end). done.
Qed.
Lemma stored_sound f : plain f -> sound (stored_object f).
Proof.
  intros [_ Hp]. unfold stored_object, stored_settings. destruct (truthy (settings f) && negb (str_eqb (settings f) "{}")); [|apply sound_nil].
  destruct (parse (settings f)) as [[]|] eqn:E; try apply sound_nil. by apply Hp.
Qed.
Lemma stringify_object o : exists t, stringify (JObj o) = 123%N :: t.
Proof. by eexists. Qed.

(** C39: saving never fails on a form that the schema accepts, and reopening
    the channel shows every setting as saved: fields of other types than the
    channel's are at their defaults, and saving the form again stores the same
    two texts. *)
Theorem accepted_settles f c : channelFormSchema new_URL new_ProxyURL f = true -> plain f ->
  buildSettingJSON f = Some (stringify (JObj (saved_extra (extra f)))) /\
  buildSettingsJSON f = Some (stringify (JObj (settings_object (type f) (typed f) (stored_object f)))) /\
  (saved_as f c ->
    extra (transformChannelToFormDefaults c) = settled_extra (extra f) /\
    typed (transformChannelToFormDefaults c) = reopened (type f) (typed f) (stored_object f) /\
    buildSettingJSON (transformChannelToFormDefaults c) = c_setting c /\
    buildSettingsJSON (transformChannelToFormDefaults c) = Some (c_settings c)).
Proof.
  intros H Hp. pose proof (schema_extra _ H) as He. pose proof (schema_fields _ _ _ H) as (_ & Ht & Hj). pose proof (schema_configured _ _ _ H) as Hc.
  pose proof (build_settings _ Hj) as Hb. set (S := settings_object (type f) (typed f) (stored_object f)) in *.
  assert (Hs : buildSettingJSON f = Some (stringify (JObj (saved_extra (extra f))))) by (unfold buildSettingJSON; by rewrite (setting_object_accepted _ _ He)).
  split; [exact Hs|]. split; [exact Hb|]. intros (Hty & H1 & H2). rewrite Hs in H1. rewrite Hb in H2. assert (H3 : stringify (JObj S) = c_settings c) by congruence. clear H2. rename H3 into H2.
  assert (Hso : sound S) by (apply sound_settings; [done..|by apply stored_sound]).
  pose proof (parse_compact _ (sound_printable _ Hso)) as Hps. rewrite H2 in Hps.
  destruct Hp as [Hn _]. pose proof (parse_compact _ (saved_extra_printable _ _ He Hn)) as Hpe.
  assert (Hx : extra (transformChannelToFormDefaults c) = settled_extra (extra f)).
  { cbn [transformChannelToFormDefaults extra]. rewrite H1. unfold extraSettings. rewrite Hpe. apply (read_saved_extra _ _ He). }
  assert (Htr : truthy (c_settings c) = true) by (rewrite <- H2; reflexivity).
  assert (Hy : typed (transformChannelToFormDefaults c) = reopened (type f) (typed f) (stored_object f)).
  { cbn [transformChannelToFormDefaults typed]. unfold typedSettings. rewrite Htr, Hps. apply typed_reopens. }
  split; [exact Hx|]. split; [exact Hy|]. split.
  - unfold buildSettingJSON. rewrite Hx. destruct (settled_accepted _ _ He) as [Ha Hsame]. by rewrite (setting_object_accepted _ _ Ha), Hsame, H1.
  - assert (Hset : settings (transformChannelToFormDefaults c) = c_settings c) by (cbn; unfold str_or; by rewrite Htr).
    unfold buildSettingsJSON. rewrite Hset, Htr, Hy. cbn [andb transformChannelToFormDefaults type]. rewrite Hty.
    destruct (str_eqb (c_settings c) "{}") eqn:E.
    + exfalso. apply str_eqb_true in E. rewrite E in Hps. injection Hps as Hnil.
      pose proof (settings_exact (type f) (typed f) (stored_object f) "disable_task_polling_sleep") as Hd. fold S in Hd. rewrite <- Hnil in Hd.
      unfold owned in Hd. rewrite !get_app, advanced_only in Hd by done. by destruct (has (type f) MODEL_FETCHABLE_TYPES).
    + rewrite Hps. change (Some (stringify (JObj (settings_object (type f) (reopened (type f) (typed f) (stored_object f)) S))) = Some (c_settings c)). pose proof (settings_settle _ _ (stored_object f) Hc) as Hsame. fold S in Hsame. by rewrite Hsame, H2.
Qed.
End Submitting.

(** ** The body of an update *)

Definition cleaned (v : json) : json := match v with JStr [] => JNull | v => v end.
Lemma get_clean k o : obj_get k (clean o) = cleaned <$> obj_get k o.
Proof.
  induction o as [|[x v] o IH]; [done|]. cbn [clean map obj_get fst snd]. fold (clean o). rewrite IH. destruct (str_eqb k x); [|reflexivity]. by destruct v as [| | |[]| |].
Qed.
Lemma get_delete_all k l (o : obj json) : obj_get k (fold_left (fun o k => obj_delete k o) l o) = if has k l then None else obj_get k o.
Proof.
  revert o. induction l as [|x l IH]; intros o; [done|]. cbn [fold_left]. rewrite IH, obj_get_delete.
  assert (Hx : has k (x :: l) = str_eqb k x || has k l).
  { destruct (str_eqb k x) eqn:E; [apply str_eqb_true in E as ->; apply has_spec; left|apply str_eqb_false in E].
    cbn [orb]. apply eq_true_iff_eq. rewrite !has_spec, elem_of_cons. naive_solver. }
  rewrite Hx. by destruct (str_eqb k x), (has k l).
Qed.
Lemma get_none k (l : obj json) : k ∉ l.*1 -> obj_get k l = None.
Proof. intros H. destruct (obj_get k l) eqn:E; [|done]. by apply get_elem in E. Qed.
Lemma get_set_all k (l o : obj json) : NoDup l.*1 ->
  obj_get k (fold_left (fun o kv => obj_set kv.1 kv.2 o) l o) = match obj_get k l with Some v => Some v | None => obj_get k o end.
Proof.
  revert o. induction l as [|[x v] l IH]; intros o; [done|]. cbn [fmap list_fmap fst]. intros [Hx Hl]%NoDup_cons.
  cbn [fold_left fst snd obj_get]. rewrite (IH _ Hl), obj_get_set. destruct (str_eqb k x) eqn:E; [|done].
  apply str_eqb_true in E as ->. by rewrite get_none.
Qed.
Definition has_key (f : ChannelFormValues) : bool := truthy (trim (key f)).
Lemma has_key_truthy f : truthy (key f) && truthy (trim (key f)) = has_key f.
Proof. unfold has_key. by destruct (key f). Qed.

(** The fields of an update apart from the key. *)
Definition plain_fields (f : ChannelFormValues) (channelId : Z) (setting settings : jsstr) : obj json :=
  explicit_texts f ++
  [("id" : jsstr, JNum (num channelId)); ("name" : jsstr, text_or_null (name f)); ("type" : jsstr, JNum (num (type f)));
   ("models" : jsstr, text_or_null (form_models f)); ("group" : jsstr, text_or_null (formatGroups (group f)));
   ("priority" : jsstr, JNum (nullish (priority f) (num 0))); ("weight" : jsstr, JNum (nullish (weight f) (num 0)));
   ("cost_ratio" : jsstr, text_or_null (trim (cost_ratio f))); ("auto_ban" : jsstr, JNum (nullish (auto_ban f) (num 1)));
   ("setting" : jsstr, text_or_null setting); ("settings" : jsstr, text_or_null settings); ("other" : jsstr, text_or_null (other f))].
Lemma cleaned_text s : cleaned (JStr s) = text_or_null s.
Proof. by destruct s. Qed.
Lemma cleaned_or_null s : cleaned (text_or_null s) = text_or_null s.
Proof. by destruct s. Qed.
Theorem update_payload_exact f channelId setting settings p k :
  buildSettingJSON f = Some setting -> buildSettingsJSON f = Some settings -> transformFormDataToUpdatePayload f channelId = Some p ->
  obj_get k p = if str_eqb k "key" then (if has_key f then Some (JStr (key f)) else None) else obj_get k (plain_fields f channelId setting settings).
Proof.
  unfold transformFormDataToUpdatePayload. intros -> -> H. cbn [mbind option_bind] in H. apply (inj Some) in H as <-. rewrite has_key_truthy. unfold plain_fields.
  rewrite get_app. cbv zeta. rewrite (get_set_all k (explicit_texts f)) by (apply (bool_decide_unpack _); exact I). rewrite get_clean.
  destruct (str_eqb k "key") eqn:Ek.
  - apply str_eqb_true in Ek as ->. change (obj_get "key" (explicit_texts f)) with (@None json). cbn iota.
    destruct (has_key f) eqn:Hk; [|reflexivity]. rewrite obj_get_set. change (str_eqb "key" "key") with true.
    cbn [fmap option_fmap option_map]. rewrite cleaned_text. unfold text_or_null, has_key in *. by destruct (key f).
  - destruct (obj_get k (explicit_texts f)) eqn:Ex; [done|].
    assert (Hb : forall o, obj_get k (if has_key f then obj_set "key" (JStr (key f)) o else o) = obj_get k o).
    { intros o. destruct (has_key f); [|done]. by rewrite obj_get_set, Ek. }
    rewrite Hb. revert Ex. unfold explicit_texts. cbn [obj_get]. rewrite <- !cleaned_text. repeat (case_match; try done).
Qed.

(** What an update sends. The key is sent when it was typed and may be
    changed, no field that needs the permission to edit sensitive fields is sent
    without it, the key mode goes with a new key of a channel with several keys,
    and every other field is sent with its value. *)
Lemma request_fields canEditSensitive isMultiKeyChannel f channelId r :
  update_request canEditSensitive isMultiKeyChannel f channelId = Some r ->
  exists setting settings, buildSettingJSON f = Some setting /\ buildSettingsJSON f = Some settings /\
  forall k, obj_get k r =
    if str_eqb k "key_mode" then
      (if canEditSensitive && isMultiKeyChannel && has_key f then key_mode_json <$> key_mode f else None)
    else if negb canEditSensitive && has k SENSITIVE_UPDATE_FIELDS then None
    else if str_eqb k "key" then (if has_key f then Some (JStr (key f)) else None)
    else obj_get k (plain_fields f channelId setting settings).
Proof.
  unfold update_request. intros (p & Hp & H)%bind_Some. apply (inj Some) in H as <-.
  destruct (buildSettingJSON f) as [setting|] eqn:E1; [|unfold transformFormDataToUpdatePayload in Hp; by rewrite E1 in Hp].
  destruct (buildSettingsJSON f) as [settings|] eqn:E2; [|unfold transformFormDataToUpdatePayload in Hp; by rewrite E1, E2 in Hp].
  exists setting, settings. split_and!; [done..|]. intros k. fold (has_key f).
  pose proof (update_payload_exact _ _ _ _ _ k E1 E2 Hp) as Hk.
  assert (Hm : str_eqb k "key_mode" = true -> obj_get k p = None) by (intros ->%str_eqb_true; exact Hk).
  set (p1 := if has_key f then p else obj_delete "key" p). set (p2 := if canEditSensitive then p1 else _).
  assert (H1 : obj_get k p1 = obj_get k p).
  { unfold p1. destruct (has_key f); [done|]. rewrite obj_get_delete. destruct (str_eqb k "key"); [by rewrite Hk|done]. }
  assert (H2 : obj_get k p2 = if negb canEditSensitive && has k SENSITIVE_UPDATE_FIELDS then None else obj_get k p).
  { unfold p2. destruct canEditSensitive; [done|]. by rewrite get_delete_all, H1. }
  assert (H3 : str_eqb k "key_mode" = true -> obj_get k p2 = None) by (intros E; rewrite H2, (Hm E); by case_match).
  destruct (str_eqb k "key_mode") eqn:Ek.
  - destruct (key_mode f) as [md|]; [destruct (canEditSensitive && isMultiKeyChannel && has_key f)|].
    + by rewrite obj_get_set, Ek.
    + by apply H3.
    + rewrite (H3 eq_refl). by destruct (canEditSensitive && isMultiKeyChannel && has_key f).
  - rewrite <- Hk, <- H2. destruct (key_mode f); [|done]. destruct (canEditSensitive && isMultiKeyChannel && has_key f); [by rewrite obj_get_set, Ek|done].
Qed.

(** C40: an update sent without the permission to edit sensitive fields holds none
    of them and no key mode; whatever else the form sends is the same with
    the permission and without. *)
Theorem sensitive_withheld isMultiKeyChannel f channelId r :
  update_request false isMultiKeyChannel f channelId = Some r ->
  (forall k, k ∈ ("key_mode" : jsstr) :: SENSITIVE_UPDATE_FIELDS -> obj_get k r = None) /\
  exists r', update_request true isMultiKeyChannel f channelId = Some r' /\
    forall k, k ∉ ("key_mode" : jsstr) :: SENSITIVE_UPDATE_FIELDS -> obj_get k r = obj_get k r'.
Proof.
  intros H. pose proof (request_fields _ _ _ _ _ H) as (s1 & s2 & E1 & E2 & Hk). split.
  - intros k [->|Hin]%elem_of_cons; rewrite Hk; [done|]. destruct (str_eqb k "key_mode"); [done|]. apply has_spec in Hin. by rewrite Hin.
  - assert (H' : is_Some (update_request true isMultiKeyChannel f channelId)).
    { unfold update_request in *. destruct (transformFormDataToUpdatePayload f channelId); [by eexists|done]. }
    destruct H' as (r' & H'). exists r'. split; [done|]. pose proof (request_fields _ _ _ _ _ H') as (s1' & s2' & E1' & E2' & Hk').
    intros k [Hm Hs]%not_elem_of_cons. apply str_eqb_false in Hm. apply has_spec_false in Hs. rewrite Hk, Hk', Hm, Hs. assert (s1 = s1' /\ s2 = s2') as [-> ->] by (split; congruence). done.
Qed.

(** An emptied cost is sent as null, which the server takes for "not given";
    the comment beside the field says that the empty text is sent. *)
Theorem cleared_cost_not_sent canEditSensitive isMultiKeyChannel f channelId r :
  trim (cost_ratio f) = [] -> update_request canEditSensitive isMultiKeyChannel f channelId = Some r ->
  obj_get "cost_ratio" r = Some JNull /\ obj_get "tag" r = Some (JStr (tag f)).
Proof.
  intros Hc (setting & settings & _ & _ & H)%request_fields. rewrite !H. split.
  - transitivity (Some (text_or_null (trim (cost_ratio f)))); [by destruct canEditSensitive|by rewrite Hc].
  - by destruct canEditSensitive.
Qed.

(** Fields of a new channel are never empty texts. *)
Theorem create_no_empty_text f p : transformFormDataToCreatePayload f = Some p -> forall k, obj_get k (channel p) <> Some (JStr []).
Proof.
  unfold transformFormDataToCreatePayload. intros (s1 & _ & H)%bind_Some k. apply bind_Some in H as (s2 & _ & H). apply (inj Some) in H as <-.
  cbn [channel]. rewrite get_clean. destruct (obj_get k _) as [v|]; [|done]. by destruct v as [| | |[]| |].
Qed.

(** ** A sample *)

Definition sample_form : ChannelFormValues :=
  Values "Line 1" 1 "https://api.example.com/" "sk-1" [] "gpt-4o" ["default" : jsstr] [] (Some (num 0)) (Some (num 0)) " " [] (Some (num 1)) 1
    [] [] [] [] [] [] "{`custom`:`kept`,`aws_key_type`:`api_key`}" [] single "random" false (Some append)
    (Extra off off (JStr " ") HTTP_PROTOCOL_AUTO (Some (JNum (num 4))) off (JStr []) off)
    (Typed (JStr "json") (JStr []) false (JStr "ak_sk") true false false false false false false false true true " a,b, a" []).
Definition sample_channel : Channel :=
  Channel_ 7 "Line 1" 1 None None "gpt-4o" "default" None None None None None None 1 None None [] (buildSettingJSON sample_form) None None
    (default [] (buildSettingsJSON sample_form)) [] [].
Lemma sample_form_plain : plain sample_form.
Proof.
  split.
  - split; [vm_compute; reflexivity|split; [vm_compute; reflexivity|apply (bool_decide_unpack _); vm_compute; exact I]].
  - intros o. replace (parse (settings sample_form)) with (Some (JObj (obj_set "aws_key_type" (JStr "api_key") (obj_set "custom" (JStr "kept") []))))
      by (vm_compute; reflexivity).
    intros [= <-]. apply (sound_set "aws_key_type"); [constructor|]. apply (sound_set "custom"); [constructor|apply sound_nil].
Qed.
Lemma sample_saved : saved_as sample_form sample_channel.
Proof. split; [done|]. split; [done|]. vm_compute. reflexivity. Qed.
Lemma accepted_settles_witness :
  channelFormSchema (fun _ => None) (fun _ => None) sample_form = true /\ saved_as sample_form sample_channel /\
  upstream_model_update_ignored_models (typed (transformChannelToFormDefaults sample_channel)) = "a,b" /\
  buildSettingsJSON (transformChannelToFormDefaults sample_channel) = Some (c_settings sample_channel).
Proof.
  assert (H : channelFormSchema (fun _ => None) (fun _ => None) sample_form = true) by (vm_compute; reflexivity).
  pose proof (accepted_settles _ _ sample_form sample_channel H sample_form_plain) as (_ & _ & Hr). specialize (Hr sample_saved) as (_ & _ & _ & Hs).
  split; [exact H|]. split; [exact sample_saved|]. split; [vm_compute; reflexivity|exact Hs].
Defined.
Lemma sensitive_withheld_witness :
  exists r, update_request false true sample_form 7 = Some r /\ obj_get "key" r = None /\ obj_get "name" r = Some (JStr "Line 1").
Proof.
  destruct (update_request false true sample_form 7) as [r|] eqn:E; [|vm_compute in E; discriminate].
  exists r. split; [reflexivity|]. pose proof (sensitive_withheld _ _ _ _ E) as [H _]. split.
  - apply H. apply (bool_decide_unpack _). vm_compute. exact I.
  - replace r with (default [] (update_request false true sample_form 7)) by (by rewrite E). vm_compute. reflexivity.
Defined.
Lemma cleared_cost_not_sent_witness :
  exists r, update_request true false sample_form 7 = Some r /\ obj_get "cost_ratio" r = Some JNull.
Proof.
  destruct (update_request true false sample_form 7) as [r|] eqn:E; [|vm_compute in E; discriminate].
  exists r. split; [reflexivity|]. apply (cleared_cost_not_sent true false sample_form 7 r); [reflexivity|exact E].
Defined.
End ChannelSubmit.
